(* ===== verification/_CoqProject ===== *)
-Q . S2P
Prelude.v
Ring.v
Crc16.v
LinkData.v
Erpc.v
ErpcReader.v
Rtl8720.v
RtlLink.v
Jobs.v
Fmt.v
Values.v
Parse.v
Instance.v
Redraw.v
History.v
Complete.v
Session.v
Edit.v
Iflash.v
Dfu.v
Ymodem.v
Receiver.v
Nor.v
Blob.v
Log.v
FramePipeline.v
GfxRot.v
CamBand.v
RtlFlash.v
