(* ===== verification/Prelude.v ===== *)
(** * Verification of the Wio Lite AI firmware

    The firmware of a Cortex-M7 board: a boot loader that takes a new
    application over USB DFU, and a ThreadX application built around a serial
    shell -- a line editor with history and completion over a command parser --
    with services under it: a formatter, a RAM log ring that survives a reset, a
    YMODEM file transfer, a camera frame pipeline.  This library translates the
    parts that carry the firmware's own logic, function by function, and proves
    what makes each of them correct.

    ** Conventions

    A C integer is a [Z] reduced to its width by the casts [u8], [u16], [u32]; a
    C array is the list of its elements; a string in a buffer is its bytes up to
    the NUL.  Loads and stores are checked: [buf_set], [buf_move], [cstr] and
    their kin answer [None] out of bounds, so that "the result is [Some]" says
    that nothing was accessed outside an object.  Where only the position of a
    scan matters the code's guards are kept in the code's order.  A loop that is
    not structural takes a fuel argument, computed from its input by its caller
    and shown to be enough by the caller's theorem (for a transfer over an
    unbounded line: shown to be enough for every line that eventually falls
    silent).  Code outside the repository, hardware and callbacks are
    parameters: Section variables, or the classes below.

    ** The files

    - [Prelude]: machine integers, little-endian fields, buffers ([splice],
      [slice]), C strings, the tactics and the hint database [wio].
    - [Fmt] ([src/svc/fmt.c]): number printing, padding, the format interpreter,
      the bounded print.  [fmt_vformat_correct] refines the interpreter to
      [spec_text], the text a list of directives denotes, for every sink;
      [fmt_vsnformat_correct] bounds the buffer version.
    - [Values] ([cli_parse.c], the value parsers): decimal, hexadecimal, IPv4
      and CIDR arguments, accepted exactly when they denote a value in range.
    - [Parse] ([src/shell/core/cli_parse.c]): the tokenizer, the segment cutter,
      the background scan and [cli_parse], all in place on a NUL-terminated line.
      The specification is [split_words], a quoting automaton on the text;
      [cli_parse_sound] says what every status means and
      that no access leaves the line or argv.
    - [Instance] ([cli_instance.h], [cli_printf.c]): the shell's state, split by
      owner into records, and its output path.  The class [Port] is what the
      output asks of the transport, the lock and the blocking send;
      [vemit_correct] says what a print call puts on the wire.  [Loopback] is a
      transport of that class, for the examples.
    - [Redraw] ([cli_edit.c], the repaint): the repaint and the cursor move, and
      a terminal (cells, cursor, pending wrap, control sequences) on which they
      are shown to display prompt and line ([refresh_displays]).
    - [History] ([cli_history.c]): the ring of submitted lines, related to the
      list of its entries by [hist_rep].
    - [Complete] ([cli_complete.c]): Tab completion.
    - [Session] ([cli_session.c]): the dispatch of a submitted line.  The class
      [Commands] stands for the registered handlers and the background jobs.
      [runs_segment] and [runs_segments] are the meaning of a line as text; the
      theorems refine the in-place code to them.
    - [Edit] ([cli_edit.c], the rest): the editing operations and the byte input
      machine.  [session_safe] is the invariant of the whole shell over any input;
      [typing_refines] refines the editor to a text with a cursor; [key_shows]
      says that the terminal shows that text after every key.
    - [Jobs] ([src/shell/core/cli_job.c], the thread registry of [cli_core.c]):
      background jobs, launched, reaped, listed and killed by any number of threads,
      every access a step.  [job_slots_exclusive], [job_announced_once] and
      [registry_routes] are invariants of every interleaving.
    - [Iflash] ([src/boot/iflash.c]): erase, program and verify of the internal
      flash, over a flash of 32-byte words that an erase alone can rewrite.
    - [Dfu] ([src/boot/dfu_callbacks.c], [app_valid] of [src/boot/main.c]): the
      download session.  The application is bootable only when its first word is
      in flash, and [dfu_vector_last] says that, once a download has begun, none is
      found in any run, whatever the host sends and wherever it stops, short of a commit,
      a failed erase or a failed write of that word.
    - [Ymodem] ([src/svc/ymodem.c]): sender and receiver over an arbitrary
      transport, as state-passing code; the receiver's contract with its sink
      (class [SinkLog]: the sink's own record of how it was called and what it
      answered), the lossless round trip of the two, termination.
    - [Receiver]: an induction principle for the receiver: what its callbacks keep
      of the world and the sink calls, a whole transfer keeps.
    - [Nor] ([src/port/nor/nor_flash.c]): the external NOR flash.  The class
      [Ospi] stands for the controller's frame functions and the chip, with the
      data sheet as its laws; the class [NorFlash] is what the stores above may
      rely on, and [w25_laws] discharges it for the driver.  The module [Chip] is
      a chip of that class, for the examples.
    - [Blob] ([src/app/blob.c], the sequence of [cmd_blob.c]): the file store.
      [blob_write_correct] follows a file from the serial line through the
      YMODEM receiver into flash; [blob_power_cut] cuts the power at any call.
    - [Ring] ([src/shell/backend/cli_uart_ring.h]): [holds_ring], a list stored
      around the end of an array, and the byte ring of the consoles: a bounded
      queue in sequence, and still one when producer and consumer interleave their
      single accesses ([spsc_fifo]).
    - [Crc16] ([erpc_crc16] of [src/app/erpc.c]): the table-driven CRC, shown equal
      to the bit-serial one, and the errors it detects.
    - [LinkData] ([src/app/link_data.c]): the data channel to the Wi-Fi module.  A
      world has any number of threads; every critical section is a step, and so is
      every copy, read and callback outside one.
      [link_data_refines] refines it to two queues of frames, resets at any point
      included; [link_data_ownership] says where each buffer is.
    - [Erpc] ([src/app/erpc.c], the calls): the slots of the calls in flight, the
      ledger of bytes the module has yet to read, the CTRL slot; every section
      under [erpc_lock] is a step, the two of [erpc_wait] that may return a
      caller apart.  As long as no slot is taken whose token an earlier
      caller still holds: a reply, whatever the module sends, completes only the call
      it names ([erpc_dispatch_routes]), and is never thrown away
      ([erpc_wait_correct]).  [stale_token_hijack] is what happens otherwise.
    - [ErpcReader] ([src/app/erpc.c], the service thread): the frame reader and the
      loop's pass, against the class [Uart].  [reader_frames]: however the stream
      is cut into pieces, exactly its frames are handed on.
    - [Rtl8720] ([src/app/rtl8720.c]): the UART under the reader, the interrupt
      handler between any two accesses of a read ([uart_rx_stream]) and between
      any two looks of a write.  [rtl8720_laws] discharges [Uart].
    - [RtlLink] ([src/app/rtl_link.c]): who holds the link, and at what rate.  The class
      [Session] is the UART with the service thread, [svc_session_laws] its discharge
      by the two files above; [rtl_link_refs] covers residents whose reference a
      recovery has voided, [rtl_link_set_rate_correct] the change of rate of both ends
      against any module that obeys the documented protocol (class [Peer]).
    - [RtlFlash] ([src/app/rtl8720_flash.c]): rewriting the module's flash.  The class
      [Board] is the UART, the power, the strap pin and the clock; what is sent is
      recorded.  [rtl_dl_flash_program_correct]: nothing outside the range is ever
      erased or written, nothing at all before every gate has passed;
      [rtl_dl_calls_return]: every call ends.
    - [Log] ([src/svc/log.c], [src/shell/cmds/cmd_dmesg.c]): the record ring in
      battery-backed RAM, its writer stage by stage (so that an interruption
      between two stores is a state of the model), the boot-time walk, the
      iterator, the line assembler.
    - [FramePipeline] ([src/svc/frame_pipeline.c]): the reference-counted frame
      slots; every section under the lock is a transition of a world with any
      number of threads, and the theorems are invariants of the reachable worlds.
    - [CamBand] ([src/app/cam_band.c], the band half of [src/port/camera/camera.c]): the
      camera's bands, from the interrupts through the producer to two clients, with any
      number of threads claiming and releasing.  [cam_band_release_safe]: no callback
      after a release; [cam_bands_in_order]: what a callback sees of a frame.
    - [GfxRot] ([src/svc/gfx_rot.c]): the rotating blit into the frame buffer, equal
      to the picture [blit_ref] for every alignment and length of run.

    [Fmt] is used by [Instance] and [Log]; [Instance], [Redraw], [History],
    [Complete], [Session] and [Edit] are one state machine, each file owning a
    part of its state; [Dfu] runs on [Iflash].  [Blob] is a sink
    of [Ymodem]'s receiver and a client of [Nor].  [Rtl8720] feeds [ErpcReader], which
    hands replies to [Erpc] and DATA frames to [LinkData], and sends for both;
    [RtlLink] opens and closes all of them.

    ** Groups of theorems

    Invariants by reachability: [frame_pipeline_counts], [job_slots_exclusive], [pinned_frame_stable],
    [cam_band_release_safe], [cam_bands_in_order], [rtl_dl_flash_program_correct], [dfu_vector_last], [blob_power_cut],
    [log_vwrite_correct], [session_safe], [key_shows].
    Refinements of an abstract specification: [typing_refines],
    [cli_dispatch_line_correct], [fmt_vformat_correct], [link_data_refines].  Behaviour of an
    operation on every branch, errors included: [rtl_link_set_rate_correct],
    [cli_parse_sound], [cli_history_add_correct], [cli_tab_complete_correct],
    [rtl8720_uart_open_correct], [log_init_any] and the value parsers.  Equivalence with
    a reference: [gfx_blit_rot_correct], [erpc_crc16_correct].  Round trips:
    [ymodem_roundtrip], [dfu_upload_roundtrip], [log_init_keeps],
    [slip_roundtrip].  Termination: [ymodem_terminates], [rtl_dl_calls_return].  Each claim is
    numbered in the comment before it, and has next to it a witness that applies
    it to a concrete input.  Behaviour of the code that departs from its comments
    or its intent is stated as a theorem where it can be
    ([delivered_after_detach], [background_edge_cases], [lost_block0_ack_is_fatal], [boot_walk_overrun],
    [attach_race_leaks_pin], [write_after_timeout_lost], [stale_token_hijack], [launch_notice_race],
    [lost_ack_splits], [lost_latch_races]).

    ** Bounds and fuel

    The text loops run on fuel [S (length buffer)]: each round moves a cursor
    over a buffer.  [evict_loop] of the history runs on the bytes in use, the log
    walks on [WALK_FUEL], more than the words of its largest ring.  Input drains
    run on the number of bytes the port can still give.  [ymodem_terminates]
    gives the fuel of a transfer as a function of what the line delivers;
    [wait_fuel] is more than the sleeps, or the spins, of a UART wait, provided the
    tick counter stays within half its range of the start of the wait ([clock_ok]).

    ** Not modelled

    The ThreadX objects and threads ([cli_core.c] but for its registry, [tx_glue.c]):
    the lock and the send are interfaces here, and to [Session] so are the jobs.  The peripheral drivers
    (the camera but for its band stream, LCD, SD, PSRAM, USB descriptors, clocks, MPU) and the code that
    sequences them: their behaviour is that of registers.  The network stack's
    glue, the Wi-Fi co-processor's loader and remote procedures, FlashDB and its key-value
    front, the neural-network runtime: mostly calls into libraries that are not
    in the repository.  The shell commands, except [dmesg]: thin callers of those
    services.  Within the modelled parts: the pixel memory of a frame slot
    belongs to its users; the priority of a background job is not modelled, so
    its output may fall between any two bytes of input, as [render_dirty] says. *)

From Stdlib Require Export ZArith Lia.
From stdpp Require Export base numbers list list_numbers option strings.
From Stdlib Require Export ZifyBool ZifyNat.
From Stdlib Require Strings.Byte.

(** ** Machine integers *)

Declare Scope wio_scope.
Delimit Scope wio_scope with wio.

(** An unsigned integer of the C program is a [Z] reduced to its width: these
    are the casts [(uint8_t)], [(uint16_t)] and [(uint32_t)]. *)
Definition u8 (x : Z) : Z := (x mod 256)%Z.
Definition u16 (x : Z) : Z := (x mod 65536)%Z.
Definition u32 (x : Z) : Z := (x mod 4294967296)%Z.

(** The value ranges, as the predicates the invariants use. *)
Definition is_u8 (x : Z) : Prop := (0 <= x < 256)%Z.
Definition is_u16 (x : Z) : Prop := (0 <= x < 65536)%Z.
Definition is_u32 (x : Z) : Prop := (0 <= x < 4294967296)%Z.

(** [a +% b], [a -% b]: the C operators on [uint32_t]. *)
Notation "a +% b" := (u32 (a + b)%Z) (at level 50, left associativity) : wio_scope.
Notation "a -% b" := (u32 (a - b)%Z) (at level 50, left associativity) : wio_scope.
Open Scope wio_scope.

(** A buffer of bytes. *)
Abbreviation bytes_ok := (Forall is_u8).

(** ** Tactics *)

Create HintDb wio.

(** Arithmetic with the machine-integer casts, the range predicates and
    constant [/] and [mod] made visible to [lia]. *)
Ltac warith :=
  unfold u8, u16, u32, is_u8, is_u16, is_u32 in *;
  Z.div_mod_to_equations; lia.

(** Split the boolean conditions of the hypotheses. *)
Ltac split_bools :=
  repeat match goal with
  | H : (_ && _) = true |- _ => apply andb_true_iff in H as [? ?]
  | H : (_ || _) = false |- _ => apply orb_false_iff in H as [? ?]
  | H : negb _ = true |- _ => apply negb_true_iff in H
  | H : negb _ = false |- _ => apply negb_false_iff in H
  end.

(** Decide the innermost [if] of the goal, keeping the equation. *)
Ltac case_if :=
  match goal with
  | |- context [if ?b then _ else _] =>
      lazymatch b with
      | context [if _ then _ else _] => fail
      | _ => destruct b eqn:?
      end
  end.

Ltac case_if_in H :=
  match type of H with
  | context [if ?b then _ else _] =>
      lazymatch b with
      | context [if _ then _ else _] => fail
      | _ => destruct b eqn:?
      end
  end.

(** Rewrite one [if] whose condition [lia] decides. *)
Ltac if_true :=
  match goal with
  | |- context [if ?b then _ else _] => replace b with true by (symmetry; lia)
  end.
Ltac if_false :=
  match goal with
  | |- context [if ?b then _ else _] => replace b with false by (symmetry; lia)
  end.

(** Decide every [if] of the goal that arithmetic decides. *)
Ltac ifs := repeat first [if_true | if_false]; cbv beta iota.

(** Lengths of appended lists. *)
Ltac list_len := rewrite ?length_app in *; cbn [length app] in *; repeat first [rewrite length_app | progress cbn [length app]]; lia.

(** ** Casts *)

Section casts.
Local Open Scope Z_scope.

Lemma u8_small x : is_u8 x -> u8 x = x.
Proof. intros; apply Z.mod_small; unfold is_u8 in *; lia. Qed.
Lemma u16_small x : is_u16 x -> u16 x = x.
Proof. intros; apply Z.mod_small; unfold is_u16 in *; lia. Qed.
Lemma u32_small x : is_u32 x -> u32 x = x.
Proof. intros; apply Z.mod_small; unfold is_u32 in *; lia. Qed.

Lemma u8_range x : is_u8 (u8 x).
Proof. apply Z.mod_pos_bound; lia. Qed.
Lemma u16_range x : is_u16 (u16 x).
Proof. apply Z.mod_pos_bound; lia. Qed.
Lemma u32_range x : is_u32 (u32 x).
Proof. apply Z.mod_pos_bound; lia. Qed.

(** Free-running offsets: addition then subtraction on [uint32_t] cancels. *)
Lemma u32_add_l x y : u32 (u32 x + y) = u32 (x + y).
Proof. apply Zplus_mod_idemp_l. Qed.
Lemma u32_sub_l x y : u32 (u32 x - y) = u32 (x - y).
Proof. apply Zminus_mod_idemp_l. Qed.
Lemma u32_sub_r x y : u32 (x - u32 y) = u32 (x - y).
Proof. apply Zminus_mod_idemp_r. Qed.

(** [x & (2^k - 1)] is reduction modulo [2^k]. *)
Lemma land_mask k x : 0 <= k -> Z.land x (2 ^ k - 1) = x mod 2 ^ k.
Proof.
  intros Hk. replace (2 ^ k - 1) with (Z.ones k) by (rewrite Z.ones_equiv; lia).
  by apply Z.land_ones.
Qed.

(** [x & ~(2^k - 1)] on [uint32_t] is rounding down to a multiple of [2^k]. *)
Lemma land_align k x : 0 <= k <= 32 -> is_u32 x ->
  Z.land x (4294967296 - 2 ^ k) = x - x mod 2 ^ k.
Proof.
  intros Hk Hx.
  replace (4294967296 - 2 ^ k) with (Z.shiftl (Z.ones (32 - k)) k).
  2:{ rewrite Z.shiftl_mul_pow2, Z.ones_equiv by lia.
      assert (2 ^ (32 - k) * 2 ^ k = 4294967296) by (rewrite <-Z.pow_add_r by lia; change 4294967296 with (2 ^ 32); f_equal; lia). lia. }
  replace (x - x mod 2 ^ k) with (Z.shiftl (Z.shiftr x k) k).
  2:{ rewrite Z.shiftl_mul_pow2, Z.shiftr_div_pow2 by lia.
      pose proof (Z.div_mod x (2 ^ k) ltac:(lia)). lia. }
  apply Z.bits_inj'. intros n Hn. rewrite Z.land_spec, !Z.shiftl_spec by done.
  destruct (Z.ltb_spec n k); [by rewrite !(Z.testbit_neg_r _ (n - k)), andb_false_r by lia|].
  rewrite Z.shiftr_spec by lia. replace (n - k + k) with n by lia.
  destruct (Z.ltb_spec n 32) as [Hn2|Hn2]; [rewrite Z.ones_spec_low by lia; apply andb_true_r|].
  replace x with (x mod 2 ^ 32) by (apply Z.mod_small; exact Hx).
  by rewrite Z.mod_pow2_bits_high by lia.
Qed.
End casts.

#[export] Hint Resolve u8_range u16_range u32_range : wio.
#[export] Hint Resolve u8_small u16_small u32_small : wio.
#[export] Hint Rewrite u32_add_l u32_sub_l u32_sub_r : wio.

(** ** Little-endian fields

    [kv.c], [blob.c], [erpc.c] and the flash code pack and unpack integers byte
    by byte in little-endian order. *)
Section little_endian.
Local Open Scope Z_scope.

Definition le16 (v : Z) : list Z := [Z.land v 255; Z.land (Z.shiftr v 8) 255].
Definition le32 (v : Z) : list Z :=
  [Z.land v 255; Z.land (Z.shiftr v 8) 255; Z.land (Z.shiftr v 16) 255;
   Z.land (Z.shiftr v 24) 255].

(** [(uint16_t)p[0] | (uint16_t)p[1] << 8], and the 32-bit form. *)
Definition get16 (p : list Z) : Z :=
  Z.lor (nth 0 p 0) (Z.shiftl (nth 1 p 0) 8).
Definition get32 (p : list Z) : Z :=
  Z.lor (Z.lor (Z.lor (nth 0 p 0) (Z.shiftl (nth 1 p 0) 8))
               (Z.shiftl (nth 2 p 0) 16)) (Z.shiftl (nth 3 p 0) 24).

Lemma land_255 x : Z.land x 255 = x mod 256.
Proof. apply (land_mask 8); lia. Qed.

(** [lor] of a low part and a shifted part is addition. *)
Lemma lor_shiftl_add k a b :
  0 <= k -> 0 <= a < 2 ^ k -> Z.lor a (Z.shiftl b k) = a + b * 2 ^ k.
Proof.
  intros Hk Ha. rewrite <-Z.shiftl_mul_pow2 by done.
  assert (Hd : Z.land a (Z.shiftl b k) = 0).
  { apply Z.bits_inj'; intros n Hn; rewrite Z.bits_0, Z.land_spec.
    destruct (Z.ltb_spec n k).
    { rewrite Z.shiftl_spec_low by done. apply andb_false_r. }
    rewrite <-(Z.mod_small a (2 ^ k)) by done.
    by rewrite Z.mod_pow2_bits_high by lia. }
  by rewrite <-Z.lxor_lor, Z.add_nocarry_lxor.
Qed.

Lemma get16_val a b r : is_u8 a -> get16 (a :: b :: r) = a + b * 256.
Proof.
  unfold get16, is_u8; simpl nth; intros. by rewrite lor_shiftl_add by (simpl; lia).
Qed.

Lemma get32_val a b c d r :
  is_u8 a -> is_u8 b -> is_u8 c ->
  get32 (a :: b :: c :: d :: r) = a + b * 256 + c * 65536 + d * 16777216.
Proof.
  unfold get32, is_u8; simpl nth; intros.
  rewrite (lor_shiftl_add 8), (lor_shiftl_add 16), (lor_shiftl_add 24) by (simpl; lia).
  simpl; lia.
Qed.

Lemma le16_range v : bytes_ok (le16 v).
Proof. unfold le16; rewrite !land_255; repeat constructor; apply u8_range. Qed.
Lemma le32_range v : bytes_ok (le32 v).
Proof. unfold le32; rewrite !land_255; repeat constructor; apply u8_range. Qed.

Lemma get16_le16 v r : is_u16 v -> get16 (le16 v ++ r) = v.
Proof.
  intros Hv. unfold le16; simpl. rewrite !land_255, get16_val by apply u8_range.
  rewrite Z.shiftr_div_pow2 by lia. simpl. warith.
Qed.
Lemma get32_le32 v r : is_u32 v -> get32 (le32 v ++ r) = v.
Proof.
  intros Hv. unfold le32; simpl. rewrite !land_255, get32_val by apply u8_range.
  rewrite !Z.shiftr_div_pow2 by lia. simpl. warith.
Qed.

Lemma nth_Forall (P : Z -> Prop) d (l : list Z) i :
  P d -> Forall P l -> P (nth i l d).
Proof.
  intros Hd Hl; revert i; induction Hl as [|x l Hx Hl IH]; intros [|i]; simpl; auto.
Qed.

Lemma get32_range p : bytes_ok p -> is_u32 (get32 p).
Proof.
  intros Hp.
  assert (Hn : forall i, is_u8 (nth i p 0)).
  { intros i. apply nth_Forall; [done|exact Hp]. }
  change (get32 p) with (get32 [nth 0 p 0; nth 1 p 0; nth 2 p 0; nth 3 p 0]).
  rewrite get32_val by done.
  pose proof (Hn 0%nat); pose proof (Hn 1%nat); pose proof (Hn 2%nat);
    pose proof (Hn 3%nat). unfold is_u8, is_u32 in *; lia.
Qed.
End little_endian.

#[export] Hint Resolve le16_range le32_range get32_range : wio.

(** ** Buffers

    A C array is the list of its elements.  [buf_set] is a store that fails
    when it is out of bounds; [splice] is [memcpy] into an array, [slice] the
    bytes a [memcpy] out of it copies. *)
Section buffers.
Context {A : Type}.
Implicit Types (l b src : list A) (i n off : nat).

Definition buf_set b i (x : A) : option (list A) :=
  if decide (i < length b) then Some (<[i:=x]> b) else None.

Definition splice off src b : list A :=
  take off b ++ src ++ drop (off + length src) b.

Definition slice off n b : list A := take n (drop off b).

Lemma buf_set_Some b i x : i < length b -> buf_set b i x = Some (<[i:=x]> b).
Proof. intros; unfold buf_set; by rewrite decide_True. Qed.

Lemma length_splice off src b :
  off + length src <= length b -> length (splice off src b) = length b.
Proof.
  intros; unfold splice. rewrite !length_app, length_take, length_drop. lia.
Qed.

Lemma splice_nil off b : off <= length b -> splice off [] b = b.
Proof. intros; unfold splice; simpl. rewrite Nat.add_0_r. apply take_drop. Qed.

Lemma take_splice k off src b :
  k <= off -> off <= length b -> take k (splice off src b) = take k b.
Proof.
  intros; unfold splice. rewrite take_app_le by (rewrite length_take; lia).
  rewrite take_take. f_equal; lia.
Qed.

Lemma drop_splice k off src b :
  off + length src <= k -> off <= length b -> drop k (splice off src b) = drop k b.
Proof.
  intros; unfold splice.
  rewrite drop_app_ge by (rewrite length_take; lia).
  rewrite drop_app_ge by (rewrite length_take; lia).
  rewrite drop_drop. f_equal. rewrite length_take; lia.
Qed.

Lemma slice_splice_eq off src b :
  off <= length b -> slice off (length src) (splice off src b) = src.
Proof.
  intros; unfold slice, splice.
  rewrite drop_app_length' by (rewrite length_take; lia).
  by apply take_app_length.
Qed.

Lemma lookup_splice off src b i :
  off + length src <= length b ->
  splice off src b !! i =
    if decide (off <= i < off + length src) then src !! (i - off) else b !! i.
Proof.
  intros H; unfold splice. case_decide as Hi.
  - rewrite lookup_app_r, length_take_le by (rewrite ?length_take; lia).
    by rewrite lookup_app_l by lia.
  - destruct (decide (i < off)) as [Hlt|Hge].
    + rewrite lookup_app_l by (rewrite length_take; lia). by rewrite lookup_take_lt by lia.
    + rewrite lookup_app_r, length_take_le by (rewrite ?length_take; lia).
      rewrite lookup_app_r, lookup_drop by lia. f_equal; lia.
Qed.

Lemma lookup_slice o n b i :
  slice o n b !! i = if decide (i < n) then b !! (o + i) else None.
Proof.
  unfold slice. case_decide.
  - by rewrite lookup_take_lt, lookup_drop by lia.
  - apply lookup_ge_None_2. rewrite length_take; lia.
Qed.

Lemma slice_splice_ne o n off src b :
  o + n <= off \/ off + length src <= o -> off + length src <= length b ->
  slice o n (splice off src b) = slice o n b.
Proof.
  intros H Hl. apply list_eq; intros i. rewrite !lookup_slice.
  case_decide; [|done]. rewrite lookup_splice by done. rewrite decide_False by lia. done.
Qed.

(** A sub-range of what was copied in. *)
Lemma slice_splice_in o n off src b :
  off <= o -> o + n <= off + length src -> off + length src <= length b ->
  slice o n (splice off src b) = slice (o - off) n src.
Proof.
  intros H1 H2 Hl. apply list_eq; intros i. rewrite !lookup_slice.
  case_decide; [|done]. rewrite lookup_splice by done. rewrite decide_True by lia.
  f_equal; lia.
Qed.

Lemma length_slice o n b : o + n <= length b -> length (slice o n b) = n.
Proof. intros; unfold slice; rewrite length_take, length_drop; lia. Qed.

Lemma slice_app_split o n m b :
  slice o (n + m) b = slice o n b ++ slice (o + n) m b.
Proof. unfold slice. by rewrite <-(drop_drop), take_take_drop. Qed.

Lemma insert_length_app l (x y : A) r : <[length l:=x]> (l ++ y :: r) = l ++ x :: r.
Proof. rewrite <-(Nat.add_0_r (length l)) at 1. by rewrite insert_app_r. Qed.

Lemma splice_insert off (x : A) src b :
  off < length b -> splice (S off) src (<[off:=x]> b) = splice off (x :: src) b.
Proof.
  intros H; unfold splice. simpl.
  rewrite (take_S_r _ _ x) by (by apply list_lookup_insert_eq).
  rewrite take_insert_ge by lia. rewrite drop_insert_lt by lia.
  rewrite <-app_assoc. simpl. do 4 f_equal. lia.
Qed.

Lemma splice_splice_app off s1 s2 b :
  off + length s1 + length s2 <= length b ->
  splice (off + length s1) s2 (splice off s1 b) = splice off (s1 ++ s2) b.
Proof.
  intros H. apply list_eq; intros i.
  rewrite !lookup_splice; rewrite ?length_splice, ?length_app; try lia.
  repeat case_decide; try lia; try done.
  - rewrite lookup_app_r by lia. f_equal; lia.
  - by rewrite lookup_app_l by lia.
Qed.
End buffers.

(** A string literal of the C program, as its character codes. *)
Definition str (s : string) : list Z :=
  map (fun c => Z.of_N (Byte.to_N c)) (String.list_byte_of_string s).

Lemma str_bytes s : bytes_ok (str s).
Proof.
  unfold str. apply Forall_map, Forall_forall. intros b _. pose proof (Byte.to_N_bounded b).
  unfold is_u8. lia.
Qed.

(** ** C strings

    The bytes of a C string are those up to the first NUL.  [cstr_at b o t]
    says that the string [t] starts at offset [o] of the buffer [b]. *)
Section cstrings.
Implicit Types (b t : list Z).

Abbreviation no_nul := (Forall (fun c : Z => c <> 0%Z)).

Definition cstr_at b (o : nat) t : Prop :=
  no_nul t /\ slice o (length t + 1) b = t ++ [0%Z].

(** [strlen] and the string itself, read until the NUL; [None] when the scan
    runs off the buffer. *)
Fixpoint cstr_scan (l : list Z) : option (list Z) :=
  match l with
  | [] => None
  | c :: l' => if (c =? 0)%Z then Some [] else t ← cstr_scan l'; Some (c :: t)
  end.
Definition cstr b (o : nat) : option (list Z) := cstr_scan (drop o b).

Lemma cstr_scan_app t r : no_nul t -> cstr_scan (t ++ 0%Z :: r) = Some t.
Proof.
  induction 1 as [|c t Hc Ht IH]; simpl; [done|].
  rewrite (proj2 (Z.eqb_neq c 0) Hc), IH. done.
Qed.

Lemma cstr_at_drop b o t : cstr_at b o t -> exists r, drop o b = t ++ 0%Z :: r.
Proof.
  intros [_ H]. exists (drop (length t + 1) (drop o b)).
  rewrite <-(take_drop (length t + 1) (drop o b)) at 1.
  unfold slice in H. rewrite H, <-app_assoc. done.
Qed.

Lemma cstr_at_cstr b o t : cstr_at b o t -> cstr b o = Some t.
Proof.
  intros H. destruct (cstr_at_drop _ _ _ H) as [r Hr].
  unfold cstr. rewrite Hr. apply cstr_scan_app, H.
Qed.

Lemma drop_cstr_at b o t r : no_nul t -> drop o b = t ++ 0%Z :: r -> cstr_at b o t.
Proof.
  intros Ht Hd. split; [done|]. unfold slice. rewrite Hd.
  rewrite cons_middle, app_assoc. rewrite take_app_length'; [done|].
  rewrite length_app; simpl; lia.
Qed.

Lemma cstr_scan_Some l t : cstr_scan l = Some t ->
  exists r, l = t ++ 0%Z :: r /\ no_nul t.
Proof.
  revert t; induction l as [|c l IH]; intros t H; simpl in H; [done|].
  destruct (Z.eqb_spec c 0).
  - injection H as <-. exists l. subst. done.
  - destruct (cstr_scan l) as [t'|] eqn:E; simpl in H; [|done].
    injection H as <-. destruct (IH t' eq_refl) as (r & -> & Ht).
    exists r. split; [done|]. by constructor.
Qed.
End cstrings.
Abbreviation no_nul := (Forall (fun c : Z => c <> 0%Z)).
