(* ===== verification/Ring.v ===== *)
(** * Circular buffers ([src/shell/backend/cli_uart_ring.h])

    [holds_ring]: what it means for an array with a head and a tail index to hold
    a list.  It serves the byte ring of this file, whose operations are modelled
    here, and the index rings of [LinkData]. *)

From stdpp Require Import relations.
From S2P Require Import Prelude.
Local Open Scope Z_scope.

(** ** The representation *)

Section ring.
Context {A : Type}.
Implicit Types (b l : list A) (cap head tail : Z).

(** [l] is stored from [tail] on, around the end of the array; one slot stays
    free. *)
Record holds_ring b cap head tail l : Prop := {
  hr_size : Z.of_nat (length b) = cap;
  hr_tail : 0 <= tail < cap;
  hr_head : head = (tail + Z.of_nat (length l)) mod cap;
  hr_fits : Z.of_nat (length l) < cap;
  hr_item i x : l !! i = Some x -> b !! Z.to_nat ((tail + Z.of_nat i) mod cap) = Some x;
}.

Lemma holds_ring_head b cap head tail l : holds_ring b cap head tail l -> 0 <= head < cap.
Proof. intros [_ Ht -> _ _]. apply Z.mod_pos_bound. lia. Qed.

(** Two positions less than a turn apart are different slots. *)
Lemma mod_distinct cap t i j : 0 < cap -> i <> j -> -cap < i - j < cap -> (t + i) mod cap <> (t + j) mod cap.
Proof.
  intros Hc Hne Hd E. assert (E0 : (i - j) mod cap = 0).
  { replace (i - j) with ((t + i) - (t + j)) by lia. rewrite Zminus_mod, E, Z.sub_diag. by apply Z.mod_0_l; lia. }
  apply Z.mod_divide in E0 as [q Hq]; [|lia]. assert (q = 0) by nia. lia.
Qed.

Lemma wrap_add cap a n : 0 < cap -> (a mod cap + n) mod cap = (a + n) mod cap.
Proof. intros Hc. apply Z.add_mod_idemp_l. lia. Qed.

(** The number of stored elements, from the indices alone. *)
Lemma ring_length b cap head tail l : holds_ring b cap head tail l ->
  Z.of_nat (length l) = if tail <=? head then head - tail else cap - tail + head.
Proof.
  intros [_ Ht -> Hf _]. destruct (Z.lt_ge_cases (tail + Z.of_nat (length l)) cap).
  - rewrite Z.mod_small by lia. destruct (Z.leb_spec tail (tail + Z.of_nat (length l))); lia.
  - replace ((tail + Z.of_nat (length l)) mod cap) with (tail + Z.of_nat (length l) - cap).
    2:{ apply Z.mod_unique with 1; lia. }
    destruct (Z.leb_spec tail (tail + Z.of_nat (length l) - cap)); lia.
Qed.

Lemma ring_empty b cap head tail l : holds_ring b cap head tail l -> head = tail <-> l = [].
Proof.
  intros R. pose proof (ring_length _ _ _ _ _ R) as E. pose proof (hr_fits _ _ _ _ _ R). split.
  - intros ->. rewrite Z.leb_refl in E. destruct l; [done|]. simpl in E. lia.
  - intros ->. rewrite (hr_head _ _ _ _ _ R), Z.add_0_r. apply Z.mod_small, R.
Qed.

Lemma ring_full b cap head tail l : holds_ring b cap head tail l ->
  (head + 1) mod cap = tail <-> Z.of_nat (length l) + 1 = cap.
Proof.
  intros [_ Ht -> Hf _]. rewrite wrap_add by lia. split.
  - intros E. destruct (Z.eq_dec (Z.of_nat (length l) + 1) cap); [done|].
    exfalso. apply (mod_distinct cap tail (Z.of_nat (length l) + 1) 0); [lia..|].
    by rewrite Z.add_assoc, E, Z.add_0_r, Z.mod_small.
  - intros E. rewrite <-Z.add_assoc, E. rewrite <-(Z.mul_1_l cap) at 1. rewrite Z.mod_add by lia. apply Z.mod_small. lia.
Qed.

Lemma ring_nil b cap head : 0 <= head < cap -> Z.of_nat (length b) = cap -> holds_ring b cap head head [].
Proof. intros Hh Hl. split; [done|done|by rewrite Z.add_0_r, Z.mod_small|simpl; lia|done]. Qed.

(** A store into the free slot at the head, and its publication. *)
Lemma ring_store b cap head tail l x : holds_ring b cap head tail l -> holds_ring (<[Z.to_nat head:=x]> b) cap head tail l.
Proof.
  intros R. pose proof (holds_ring_head _ _ _ _ _ R) as Hh. destruct R as [Hs Ht Hhd Hf Hi].
  split; [by rewrite length_insert|done..|].
  intros i y Hy. pose proof (lookup_lt_Some _ _ _ Hy). rewrite list_lookup_insert_ne; [by apply Hi|].
  intros E%Z2Nat.inj; [|lia|apply Z.mod_pos_bound; lia]. rewrite Hhd in E. by apply mod_distinct in E; lia.
Qed.

Lemma ring_publish b cap head tail l x : holds_ring b cap head tail l -> Z.of_nat (length l) + 1 < cap ->
  b !! Z.to_nat head = Some x -> holds_ring b cap ((head + 1) mod cap) tail (l ++ [x]).
Proof.
  intros [Hs Ht Hhd Hf Hi] Hfit Hx. split; [done|done| | |].
  - rewrite Hhd, wrap_add, length_app by lia. cbn [length]. f_equal. lia.
  - rewrite length_app. cbn [length]. lia.
  - intros i y [[_ Hy]|[-> <-]]%lookup_snoc_Some; [by apply Hi|by rewrite <-Hhd].
Qed.

Lemma ring_push b cap head tail l x : holds_ring b cap head tail l -> Z.of_nat (length l) + 1 < cap ->
  holds_ring (<[Z.to_nat head:=x]> b) cap ((head + 1) mod cap) tail (l ++ [x]).
Proof.
  intros R Hfit. apply ring_publish; [by apply ring_store|done|]. pose proof (holds_ring_head _ _ _ _ _ R).
  pose proof (hr_size _ _ _ _ _ R). apply list_lookup_insert_eq. lia.
Qed.

(** The oldest element, and its removal. *)
Lemma ring_first b cap head tail x l : holds_ring b cap head tail (x :: l) -> b !! Z.to_nat tail = Some x.
Proof.
  intros [_ Ht _ _ Hi]. specialize (Hi 0%nat x eq_refl). by rewrite Z.add_0_r, Z.mod_small in Hi.
Qed.

Lemma ring_advance b cap head tail l1 l2 : holds_ring b cap head tail (l1 ++ l2) ->
  holds_ring b cap head ((tail + Z.of_nat (length l1)) mod cap) l2.
Proof.
  intros [Hs Ht Hhd Hf Hi]. rewrite length_app in *. split; [done|apply Z.mod_pos_bound; lia| |lia|].
  - rewrite wrap_add by lia. rewrite Hhd. f_equal. lia.
  - intros i x Hx. rewrite wrap_add by lia. rewrite <-(Hi (length l1 + i)%nat x).
    + do 3 f_equal. lia.
    + rewrite lookup_app_r by lia. rewrite <-Hx. f_equal. lia.
Qed.

Lemma ring_pop b cap head tail x l : holds_ring b cap head tail (x :: l) -> holds_ring b cap head ((tail + 1) mod cap) l.
Proof. apply (ring_advance b cap head tail [x] l). Qed.

(** A run that does not wrap is a slice of the array. *)
Lemma ring_slice b cap head tail l n : holds_ring b cap head tail l ->
  (n <= length l)%nat -> tail + Z.of_nat n <= cap -> slice (Z.to_nat tail) n b = take n l.
Proof.
  intros R Hn Hw. pose proof (hr_size _ _ _ _ _ R). pose proof (hr_tail _ _ _ _ _ R).
  apply list_eq_same_length with (n := n); [rewrite length_take; lia|apply length_slice; lia|].
  intros i x y Hi. rewrite lookup_slice, decide_True by done. rewrite lookup_take_lt by done. intros Hx Hy.
  apply (hr_item _ _ _ _ _ R) in Hy. rewrite Z.mod_small in Hy by lia.
  replace (Z.to_nat (tail + Z.of_nat i)) with (Z.to_nat tail + i)%nat in Hy by lia. congruence.
Qed.
End ring.

(** ** The byte ring *)

Module Uart.

Record cli_uart_ring : Type := Ring { buf : list Z; size : Z; head : Z; tail : Z }.

Definition cli_uart_ring_init (b : list Z) (n : Z) : cli_uart_ring := Ring b n 0 0.

Definition cli_uart_ring_count (r : cli_uart_ring) : Z :=
  if tail r <=? head r then head r -% tail r else size r -% tail r +% head r.
Definition cli_uart_ring_free (r : cli_uart_ring) : Z := size r -% 1 -% cli_uart_ring_count r.

(** [None]: a remainder by 0 or an access outside the buffer. *)
Definition next_index (i n : Z) (r : cli_uart_ring) : option Z :=
  if size r =? 0 then None else Some ((i +% n) mod size r).

(** The accesses of a [put]: the room check ([None]: full), the store, the
    publication of the new head. *)
Definition put_check (r : cli_uart_ring) : option (option Z) :=
  next ← next_index (head r) 1 r; Some (if next =? tail r then None else Some next).
Definition put_store (b : Z) (r : cli_uart_ring) : option cli_uart_ring :=
  bf ← buf_set (buf r) (Z.to_nat (head r)) b; Some (Ring bf (size r) (head r) (tail r)).
Definition put_publish (next : Z) (r : cli_uart_ring) : cli_uart_ring := Ring (buf r) (size r) next (tail r).

Definition cli_uart_ring_put (b : Z) (r : cli_uart_ring) : option (bool * cli_uart_ring) :=
  next ← put_check r;
  match next with
  | None => Some (false, r)
  | Some next => r ← put_store b r; Some (true, put_publish next r)
  end.

Definition cli_uart_ring_advance_tail (n : Z) (r : cli_uart_ring) : option cli_uart_ring :=
  next ← next_index (tail r) n r; Some (Ring (buf r) (size r) (head r) next).

Definition cli_uart_ring_get (r : cli_uart_ring) : option (option Z * cli_uart_ring) :=
  if tail r =? head r then Some (None, r)
  else
    b ← buf r !! Z.to_nat (tail r);
    r ← cli_uart_ring_advance_tail 1 r;
    Some (Some b, r).

(** The number of bytes accepted. *)
Fixpoint cli_uart_ring_put_buf (d : list Z) (r : cli_uart_ring) : option (Z * cli_uart_ring) :=
  match d with
  | [] => Some (0, r)
  | b :: d =>
      '(ok, r) ← cli_uart_ring_put b r;
      if negb ok then Some (0, r) else '(i, r) ← cli_uart_ring_put_buf d r; Some (1 + i, r)
  end.

(** The bytes copied. *)
Fixpoint cli_uart_ring_get_buf (cap : nat) (r : cli_uart_ring) : option (list Z * cli_uart_ring) :=
  match cap with
  | O => Some ([], r)
  | S cap =>
      '(b, r) ← cli_uart_ring_get r;
      match b with
      | None => Some ([], r)
      | Some b => '(d, r) ← cli_uart_ring_get_buf cap r; Some (b :: d, r)
      end
  end.

(** [*p] as an offset into the buffer, and the length of the run. *)
Definition cli_uart_ring_contig (r : cli_uart_ring) : Z * Z :=
  (tail r, if tail r <=? head r then head r -% tail r else size r -% tail r).

(** ** The ring is a bounded queue *)

Section queue.
Implicit Types (r : cli_uart_ring) (q d : list Z).

(** The ring holds the bytes [q]; its size fits the C type with room for the sums. *)
Definition rep r q : Prop := holds_ring (buf r) (size r) (head r) (tail r) q /\ 2 * size r <= 4294967296.

Definition capacity r : Z := size r - 1.

Lemma rep_bounds r q : rep r q -> 0 <= tail r < size r /\ 0 <= head r < size r /\ Z.of_nat (length q) <= capacity r.
Proof.
  intros [R _]. split; [apply R|]. split; [by eapply holds_ring_head|]. pose proof (hr_fits _ _ _ _ _ R). unfold capacity. lia.
Qed.

Lemma init_rep b n : Z.of_nat (length b) = n -> 0 < n -> 2 * n <= 4294967296 -> rep (cli_uart_ring_init b n) [].
Proof. intros Hl Hn Hb. split; [|done]. apply ring_nil; [simpl; lia|done]. Qed.

Lemma count_spec r q : rep r q -> cli_uart_ring_count r = Z.of_nat (length q).
Proof.
  intros Hr. pose proof (rep_bounds _ _ Hr) as (Ht & Hh & _). destruct Hr as [R Hs]. rewrite (ring_length _ _ _ _ _ R).
  unfold cli_uart_ring_count. destruct (Z.leb_spec (tail r) (head r)); rewrite ?u32_add_l, u32_small by (unfold is_u32; lia); done.
Qed.

Lemma free_spec r q : rep r q -> cli_uart_ring_free r = capacity r - Z.of_nat (length q).
Proof.
  intros Hr. pose proof (rep_bounds _ _ Hr) as (Ht & Hh & Hc). unfold cli_uart_ring_free. rewrite (count_spec _ _ Hr).
  unfold capacity in *. destruct Hr as [_ Hs]. rewrite u32_sub_l, u32_small by (unfold is_u32; lia). done.
Qed.

Lemma next_index_spec r q i n : rep r q -> 0 <= i < size r -> 0 <= n <= size r -> next_index i n r = Some ((i + n) mod size r).
Proof.
  intros Hr Hi Hn. unfold next_index. destruct (Z.eqb_spec (size r) 0); [lia|]. destruct Hr as [_ Hs].
  by rewrite u32_small by (unfold is_u32; lia).
Qed.

Lemma put_spec r q b : rep r q ->
  exists r', cli_uart_ring_put b r = Some (bool_decide (Z.of_nat (length q) < capacity r), r') /\ size r' = size r /\
    rep r' (if bool_decide (Z.of_nat (length q) < capacity r) then q ++ [b] else q).
Proof.
  intros Hr. pose proof (rep_bounds _ _ Hr) as (Ht & Hh & Hc). unfold cli_uart_ring_put, put_check, put_store, put_publish.
  rewrite (next_index_spec r q) by (done || lia). cbn [mbind option_bind]. destruct Hr as [R Hs].
  pose proof (ring_full _ _ _ _ _ R) as Hfull. unfold capacity in *. pose proof (hr_size _ _ _ _ _ R).
  destruct (Z.eqb_spec ((head r + 1) mod size r) (tail r)) as [E|E].
  - apply Hfull in E. rewrite bool_decide_eq_false_2 by lia. by eexists.
  - rewrite bool_decide_eq_true_2 by (destruct (Z.eq_dec (Z.of_nat (length q) + 1) (size r)); [by apply Hfull in e|lia]).
    rewrite buf_set_Some by lia. cbn [mbind option_bind]. eexists. split; [done|]. split; [done|]. split; [|done].
    apply ring_push; [done|]. cbn [size]. destruct (Z.eq_dec (Z.of_nat (length q) + 1) (size r)); [by apply Hfull in e|lia].
Qed.

Lemma get_spec r q : rep r q ->
  exists r', cli_uart_ring_get r = Some (hd_error q, r') /\ size r' = size r /\ rep r' (tl q).
Proof.
  intros Hr. pose proof (rep_bounds _ _ Hr) as (Ht & Hh & Hc). unfold cli_uart_ring_get, cli_uart_ring_advance_tail.
  pose proof Hr as [R Hs]. pose proof (ring_empty _ _ _ _ _ R) as He.
  destruct (Z.eqb_spec (tail r) (head r)) as [E|E].
  - assert (q = []) as -> by by apply He. by eexists.
  - destruct q as [|x q]; [by destruct E; symmetry; apply He|]. rewrite (ring_first _ _ _ _ _ _ R).
    cbn [mbind option_bind]. rewrite (next_index_spec r (x :: q)) by (done || lia). cbn [mbind option_bind].
    eexists. split; [done|]. split; [done|]. split; [|done]. by apply ring_pop in R.
Qed.

Lemma put_buf_spec d r q : rep r q ->
  exists r', let n := Z.min (Z.of_nat (length d)) (capacity r - Z.of_nat (length q)) in
    cli_uart_ring_put_buf d r = Some (n, r') /\ size r' = size r /\ rep r' (q ++ take (Z.to_nat n) d).
Proof.
  revert r q. induction d as [|b d IH]; intros r q Hr; pose proof (rep_bounds _ _ Hr) as (_ & _ & Hc); cbn [cli_uart_ring_put_buf length].
  { exists r. cbv zeta. rewrite Z.min_l, app_nil_r by lia. done. }
  destruct (put_spec r q b Hr) as (r1 & -> & Hs1 & Hr1). cbn [mbind option_bind].
  destruct (decide (Z.of_nat (length q) < capacity r)) as [Hlt|Hge].
  - rewrite bool_decide_eq_true_2 in * by done. cbn [negb]. destruct (IH _ _ Hr1) as (r2 & E & Hs2 & Hr2).
    unfold capacity in *. rewrite Hs1, length_app in E, Hr2. cbn [length] in E, Hr2.
    set (n := Z.min _ _) in E, Hr2. assert (Hn : 0 <= n) by lia.
    assert (En : Z.min (Z.of_nat (S (length d))) (size r - 1 - Z.of_nat (length q)) = 1 + n) by lia.
    exists r2. cbv zeta. rewrite E, En. split; [done|]. split; [congruence|].
    replace (Z.to_nat (1 + n)) with (S (Z.to_nat n)) by lia. cbn [take]. by rewrite <-app_assoc in Hr2.
  - rewrite bool_decide_eq_false_2 in * by done. exists r1. cbv zeta. rewrite Z.min_r by lia.
    replace (capacity r - Z.of_nat (length q)) with 0 by lia. cbn [negb take Z.to_nat]. by rewrite app_nil_r.
Qed.

Lemma get_buf_spec n r q : rep r q ->
  exists r', cli_uart_ring_get_buf n r = Some (take n q, r') /\ size r' = size r /\ rep r' (drop n q).
Proof.
  revert r q. induction n as [|n IH]; intros r q Hr; cbn [cli_uart_ring_get_buf]; [by exists r|].
  destruct (get_spec r q Hr) as (r1 & -> & Hs1 & Hr1). cbn [mbind option_bind]. destruct q as [|x q]; cbn [hd_error tl take drop] in *.
  - by exists r1.
  - destruct (IH _ _ Hr1) as (r2 & -> & Hs2 & Hr2). cbn [mbind option_bind]. exists r2. split_and!; [done|congruence|done].
Qed.

(** The slice offered to the consumer, and giving back what it took of it. *)
Lemma contig_spec r q : rep r q ->
  let '(off, run) := cli_uart_ring_contig r in
  0 <= run <= Z.of_nat (length q) /\ (q <> [] -> 0 < run) /\
  forall n, 0 <= n <= run ->
    slice (Z.to_nat off) (Z.to_nat n) (buf r) = take (Z.to_nat n) q /\
    exists r', cli_uart_ring_advance_tail n r = Some r' /\ size r' = size r /\ rep r' (drop (Z.to_nat n) q).
Proof.
  intros Hr. pose proof (rep_bounds _ _ Hr) as (Ht & Hh & Hc). pose proof Hr as [R Hs]. pose proof (ring_length _ _ _ _ _ R) as El.
  pose proof (hr_size _ _ _ _ _ R). unfold cli_uart_ring_contig.
  set (run := if tail r <=? head r then _ else _).
  assert (Hrun : run = (if tail r <=? head r then head r - tail r else size r - tail r)).
  { unfold run. by destruct (Z.leb_spec (tail r) (head r)); rewrite u32_small by (unfold is_u32; lia). }
  assert (Hb : 0 <= run <= Z.of_nat (length q) /\ tail r + run <= size r).
  { rewrite Hrun. destruct (Z.leb_spec (tail r) (head r)); lia. }
  split; [lia|]. split.
  { intros Hne. destruct q; [done|]. cbn [length] in El. rewrite Hrun. destruct (Z.leb_spec (tail r) (head r)); lia. }
  intros n Hn. split; [eapply ring_slice; [exact R|lia|lia]|].
  unfold cli_uart_ring_advance_tail. rewrite (next_index_spec r q) by (done || lia). cbn [mbind option_bind].
  eexists. split; [done|]. split; [done|]. split; [|done]. cbn [buf size head tail].
  rewrite <-(take_drop (Z.to_nat n) q) in R. apply ring_advance in R. rewrite length_take in R.
  by replace (Z.of_nat (Z.to_nat n `min` length q)) with n in R by lia.
Qed.

(** Any sequence of operations.  [Drain n] is what the sender does: take at most
    [n] bytes of the contiguous run and advance by as many. *)
Inductive op : Type := Put (b : Z) | Put_buf (d : list Z) | Get | Get_buf (n : nat) | Drain (n : Z) | Count | Free.
Inductive out : Type := Stored (ok : bool) | Number (n : Z) | Byte (b : option Z) | Bytes (d : list Z).

Definition ring_op (o : op) r : option (out * cli_uart_ring) :=
  match o with
  | Put b => '(ok, r) ← cli_uart_ring_put b r; Some (Stored ok, r)
  | Put_buf d => '(n, r) ← cli_uart_ring_put_buf d r; Some (Number n, r)
  | Get => '(b, r) ← cli_uart_ring_get r; Some (Byte b, r)
  | Get_buf n => '(d, r) ← cli_uart_ring_get_buf n r; Some (Bytes d, r)
  | Drain n =>
      let '(off, run) := cli_uart_ring_contig r in
      let n := Z.max 0 (Z.min n run) in
      r' ← cli_uart_ring_advance_tail n r; Some (Bytes (slice (Z.to_nat off) (Z.to_nat n) (buf r)), r')
  | Count => Some (Number (cli_uart_ring_count r), r)
  | Free => Some (Number (cli_uart_ring_free r), r)
  end.

(** The same on a queue of at most [cap] bytes. *)
Inductive queue_op (cap : Z) : list Z -> op -> out -> list Z -> Prop :=
  | q_put q b : Z.of_nat (length q) < cap -> queue_op cap q (Put b) (Stored true) (q ++ [b])
  | q_put_full q b : Z.of_nat (length q) = cap -> queue_op cap q (Put b) (Stored false) q
  | q_put_buf q d n : n = Z.min (Z.of_nat (length d)) (cap - Z.of_nat (length q)) ->
      queue_op cap q (Put_buf d) (Number n) (q ++ take (Z.to_nat n) d)
  | q_get q b : queue_op cap (b :: q) Get (Byte (Some b)) q
  | q_get_empty : queue_op cap [] Get (Byte None) []
  | q_get_buf q n : queue_op cap q (Get_buf n) (Bytes (take n q)) (drop n q)
  | q_drain q n m : (Z.of_nat m <= Z.max 0 n) -> (0 < n -> q <> [] -> (0 < m)%nat) -> queue_op cap q (Drain n) (Bytes (take m q)) (drop m q)
  | q_count q : queue_op cap q Count (Number (Z.of_nat (length q))) q
  | q_free q : queue_op cap q Free (Number (cap - Z.of_nat (length q))) q.

Lemma ring_op_spec o r q : rep r q ->
  exists x r' q', ring_op o r = Some (x, r') /\ size r' = size r /\ rep r' q' /\ queue_op (capacity r) q o x q'.
Proof.
  intros Hr. pose proof (rep_bounds _ _ Hr) as (_ & _ & Hc). destruct o as [b|d| |n|n| |]; unfold ring_op.
  - destruct (put_spec r q b Hr) as (r' & -> & Hs & Hr'). cbn [mbind option_bind].
    do 3 eexists. split; [done|]. split; [done|]. split; [exact Hr'|]. case_bool_decide; constructor; lia.
  - destruct (put_buf_spec d r q Hr) as (r' & -> & Hs & Hr'). do 3 eexists. split; [done|]. split; [done|]. split; [done|]. by constructor.
  - destruct (get_spec r q Hr) as (r' & -> & Hs & Hr'). do 3 eexists. split; [done|]. split; [done|]. split; [done|].
    destruct q; constructor.
  - destruct (get_buf_spec n r q Hr) as (r' & -> & Hs & Hr'). do 3 eexists. split; [done|]. split; [done|]. split; [done|]. constructor.
  - pose proof (contig_spec r q Hr) as Hcon. destruct (cli_uart_ring_contig r) as [off run]. destruct Hcon as (Hb & Hpos & Hadv).
    destruct (Hadv (Z.max 0 (Z.min n run))) as (-> & r' & -> & Hs & Hr'); [lia|]. cbn [mbind option_bind].
    do 3 eexists. split; [done|]. split; [done|]. split; [done|]. constructor; [lia|]. intros Hn Hne. specialize (Hpos Hne). lia.
  - do 3 eexists. split; [done|]. split; [done|]. split; [done|]. rewrite (count_spec _ _ Hr). constructor.
  - do 3 eexists. split; [done|]. split; [done|]. split; [done|]. rewrite (free_spec _ _ Hr). constructor.
Qed.

Fixpoint ring_ops (os : list op) r : option (list out * cli_uart_ring) :=
  match os with
  | [] => Some ([], r)
  | o :: os => '(x, r) ← ring_op o r; '(xs, r) ← ring_ops os r; Some (x :: xs, r)
  end.

Inductive queue_ops (cap : Z) : list Z -> list op -> list out -> list Z -> Prop :=
  | qs_nil q : queue_ops cap q [] [] q
  | qs_cons q o x q1 os xs q2 : queue_op cap q o x q1 -> queue_ops cap q1 os xs q2 -> queue_ops cap q (o :: os) (x :: xs) q2.

(** a ring over a buffer of [n] bytes is a queue of at most [n - 1] bytes,
    under any sequence of its operations: no access leaves the buffer, every
    answer is one the queue gives, and [Drain] makes progress whenever there is
    something to send. *)
Theorem uart_ring_is_queue (b : list Z) (n : Z) (os : list op) :
  Z.of_nat (length b) = n -> 0 < n -> 2 * n <= 4294967296 ->
  exists xs r q, ring_ops os (cli_uart_ring_init b n) = Some (xs, r) /\ rep r q /\ queue_ops (n - 1) [] os xs q.
Proof.
  intros Hl Hn Hb. pose proof (init_rep b n Hl Hn Hb) as Hr.
  assert (Hgen : forall os r q, rep r q -> exists xs r' q', ring_ops os r = Some (xs, r') /\ rep r' q' /\ queue_ops (capacity r) q os xs q').
  { clear. induction os as [|o os IH]; intros r q Hr; [do 3 eexists; split_and!; [done|exact Hr|constructor]|].
    destruct (ring_op_spec o r q Hr) as (x & r1 & q1 & E & Hs & Hr1 & Hq). destruct (IH _ _ Hr1) as (xs & r2 & q2 & E2 & Hr2 & Hqs).
    cbn [ring_ops]. rewrite E. cbn [mbind option_bind]. rewrite E2. do 3 eexists. split_and!; [done|exact Hr2|].
    econstructor; [exact Hq|]. unfold capacity in *. by rewrite <-Hs. }
  destruct (Hgen os _ _ Hr) as (xs & r & q & E & Hr' & Hq). by exists xs, r, q.
Qed.

Lemma uart_ring_is_queue_witness :
  exists xs r q, ring_ops [Put_buf [1; 2; 3; 4]; Get; Put 5; Drain 8; Drain 8] (cli_uart_ring_init [0; 0; 0; 0] 4) = Some (xs, r) /\
    rep r q /\ queue_ops 3 [] [Put_buf [1; 2; 3; 4]; Get; Put 5; Drain 8; Drain 8] xs q.
Proof. apply (uart_ring_is_queue [0; 0; 0; 0] 4); [reflexivity|lia|lia]. Defined.
End queue.

(** ** One producer and one consumer, without a lock

    The pump's thread and the shell's thread, or an interrupt handler and a
    thread, work on the two ends at once.  Every access to the shared indices and
    to the buffer is a step of its own. *)

Inductive producer : Type := P_idle | P_store (b next : Z) | P_publish (b next : Z).
Inductive consumer : Type := C_idle | C_load | C_send (off run : Z) | C_advance (d : list Z).

(** [sent]: the bytes a [put] answered 1 for; [got]: the bytes the consumer took. *)
Record world : Type := World { ring : cli_uart_ring; prod : producer; cons : consumer; sent : list Z; got : list Z }.

Inductive spsc : world -> world -> Prop :=
  | s_put_full r c s g : put_check r = Some None -> spsc (World r P_idle c s g) (World r P_idle c s g)
  | s_put_room r b n c s g : put_check r = Some (Some n) -> spsc (World r P_idle c s g) (World r (P_store b n) c s g)
  | s_put_store r r' b n c s g : put_store b r = Some r' -> spsc (World r (P_store b n) c s g) (World r' (P_publish b n) c s g)
  | s_put_publish r b n c s g : spsc (World r (P_publish b n) c s g) (World (put_publish n r) P_idle c (s ++ [b]) g)
  | s_get_empty r p s g : tail r = head r -> spsc (World r p C_idle s g) (World r p C_idle s g)
  | s_get_some r p s g : tail r <> head r -> spsc (World r p C_idle s g) (World r p C_load s g)
  | s_get_load r b p s g : buf r !! Z.to_nat (tail r) = Some b -> spsc (World r p C_load s g) (World r p (C_advance [b]) s g)
  | s_contig r off run p s g : cli_uart_ring_contig r = (off, run) -> spsc (World r p C_idle s g) (World r p (C_send off run) s g)
  | s_send r off run n p s g : 0 <= n <= run ->
      spsc (World r p (C_send off run) s g) (World r p (C_advance (slice (Z.to_nat off) (Z.to_nat n) (buf r))) s g)
  | s_advance r r' d p s g : cli_uart_ring_advance_tail (Z.of_nat (length d)) r = Some r' ->
      spsc (World r p (C_advance d) s g) (World r' p C_idle s (g ++ d)).

Definition producer_ok (r : cli_uart_ring) (q : list Z) (p : producer) : Prop :=
  match p with
  | P_idle => True
  | P_store _ n => n = (head r + 1) mod size r /\ Z.of_nat (length q) < capacity r
  | P_publish b n => n = (head r + 1) mod size r /\ Z.of_nat (length q) < capacity r /\ buf r !! Z.to_nat (head r) = Some b
  end.

Definition consumer_ok (r : cli_uart_ring) (q : list Z) (c : consumer) : Prop :=
  match c with
  | C_idle => True
  | C_load => q <> []
  | C_send off run => off = tail r /\ 0 <= run <= Z.of_nat (length q) /\ tail r + run <= size r
  | C_advance d => d `prefix_of` q
  end.

Record spsc_inv (n : Z) (w : world) (q : list Z) : Prop := {
  si_rep : rep (ring w) q;
  si_size : size (ring w) = n;
  si_sent : sent w = got w ++ q;
  si_prod : producer_ok (ring w) q (prod w);
  si_cons : consumer_ok (ring w) q (cons w);
}.

Section spsc.
Implicit Types (r : cli_uart_ring) (q d : list Z).

Lemma put_check_spec r q : rep r q ->
  put_check r = Some (if bool_decide (Z.of_nat (length q) < capacity r) then Some ((head r + 1) mod size r) else None).
Proof.
  intros Hr. pose proof (rep_bounds _ _ Hr) as (_ & Hh & Hc). unfold put_check.
  rewrite (next_index_spec r q) by (done || lia). cbn [mbind option_bind]. destruct Hr as [R _].
  pose proof (ring_full _ _ _ _ _ R) as Hfull. unfold capacity in *.
  destruct (Z.eqb_spec ((head r + 1) mod size r) (tail r)) as [E|E]; case_bool_decide; try done; exfalso.
  - apply Hfull in E. lia.
  - apply E, Hfull. lia.
Qed.

Lemma advance_spec r d q : rep r (d ++ q) ->
  exists r', cli_uart_ring_advance_tail (Z.of_nat (length d)) r = Some r' /\ rep r' q /\
    buf r' = buf r /\ size r' = size r /\ head r' = head r.
Proof.
  intros Hr. pose proof (rep_bounds _ _ Hr) as (Ht & _ & Hc). unfold cli_uart_ring_advance_tail, capacity in *. rewrite length_app in Hc.
  rewrite (next_index_spec r _ _ _ Hr) by lia. cbn [mbind option_bind]. eexists. split; [done|]. destruct Hr as [R Hs].
  split_and!; [|done..]. split; [by apply ring_advance in R|done].
Qed.

(** A publication leaves the consumer's side as it was, the removal the producer's. *)
Lemma consumer_ok_more r r' q b c : tail r' = tail r -> size r' = size r -> consumer_ok r q c -> consumer_ok r' (q ++ [b]) c.
Proof.
  intros Ht Hs. destruct c; cbn [consumer_ok]; rewrite ?Ht, ?Hs, ?length_app; [done| |lia|].
  - by destruct q.
  - by apply prefix_app_r.
Qed.

Lemma producer_ok_less r r' d q p : head r' = head r -> size r' = size r -> buf r' = buf r -> producer_ok r (d ++ q) p -> producer_ok r' q p.
Proof. intros Hh Hs Hb. destruct p; cbn [producer_ok]; unfold capacity; rewrite ?Hh, ?Hs, ?Hb, ?length_app; intros; intuition lia. Qed.

Lemma spsc_inv_step n w1 w2 q : spsc w1 w2 -> spsc_inv n w1 q -> exists q', spsc_inv n w2 q'.
Proof.
  intros Hstep [Hr Hn Hs Hp Hc]. destruct Hstep as [r c s g E|r b nx c s g E|r r' b nx c s g E|r b nx c s g|r p s g E|r p s g E|r b p s g E|
    r off run p s g E|r off run m p s g E|r r' d p s g E]; cbn [ring prod cons sent got producer_ok consumer_ok] in *.
  - by exists q.
  - exists q. split; [done..| |done]. cbn. rewrite (put_check_spec r q Hr) in E. case_bool_decide; by simplify_eq.
  - exists q. pose proof (rep_bounds _ _ Hr) as (_ & Hh & _). destruct Hr as [R Hb]. pose proof (hr_size _ _ _ _ _ R). unfold put_store in E.
    rewrite buf_set_Some in E by lia. cbn in E. injection E as <-. destruct Hp as [-> Hp].
    split; cbn [ring prod cons sent got producer_ok]; [|done|done| |done].
    + split; [by apply ring_store|done].
    + split_and!; [done..|]. cbn. apply list_lookup_insert_eq. lia.
  - destruct Hp as (-> & Hp & Hb). exists (q ++ [b]). split; cbn [ring prod cons sent got producer_ok]; [|done| |done|].
    + destruct Hr as [R Hsz]. split; [|done]. apply ring_publish; [done| |done]. unfold capacity in Hp. cbn. lia.
    + by rewrite Hs, app_assoc.
    + by eapply consumer_ok_more; [..|exact Hc].
  - by exists q.
  - exists q. split; [done..|]. cbn. intros ->. destruct Hr as [R _]. apply E. symmetry. by apply (ring_empty _ _ _ _ _ R).
  - exists q. split; [done..|]. cbn. destruct q as [|x q]; [done|]. destruct Hr as [R _]. rewrite (ring_first _ _ _ _ _ _ R) in E.
    injection E as ->. by exists q.
  - exists q. split; [done..|]. cbn. pose proof (contig_spec r q Hr) as Hcon. rewrite E in Hcon. unfold cli_uart_ring_contig in E.
    destruct Hcon as (Hb & _ & Hadv). injection E as <- E. split_and!; [done|lia..|].
    destruct Hr as [R Hsz]. pose proof (hr_tail _ _ _ _ _ R). pose proof (holds_ring_head _ _ _ _ _ R).
    rewrite <-E. destruct (Z.leb_spec (tail r) (head r)); rewrite u32_small by (unfold is_u32; lia); lia.
  - exists q. split; [done..|]. cbn. destruct Hc as (-> & Hb & Hw). destruct Hr as [R _].
    rewrite (ring_slice _ _ _ _ _ (Z.to_nat m) R) by lia. apply prefix_take.
  - destruct Hc as [q' ->]. exists q'. destruct (advance_spec r d q' Hr) as (r'' & E' & Hr' & Hb & Hsz & Hh). simplify_eq.
    split; cbn [ring prod cons sent got consumer_ok]; [done|done| | |done].
    + by rewrite app_assoc.
    + by eapply producer_ok_less; [..|exact Hp].
Qed.

(** C36: whatever the interleaving of the producer's and the consumer's single
    accesses, on either way of taking bytes out: the bytes taken are, in order,
    exactly those whose [put] reported success; those not taken yet are in the
    buffer; and neither side can be stuck on an access out of bounds. *)
Theorem spsc_fifo (b : list Z) (n : Z) (w : world) :
  Z.of_nat (length b) = n -> 0 < n -> 2 * n <= 4294967296 ->
  rtc spsc (World (cli_uart_ring_init b n) P_idle C_idle [] []) w ->
  (exists q, sent w = got w ++ q /\ rep (ring w) q /\ Z.of_nat (length q) <= n - 1) /\
  (forall c nx, prod w = P_store c nx -> is_Some (put_store c (ring w))) /\
  (cons w = C_load -> is_Some (buf (ring w) !! Z.to_nat (tail (ring w)))) /\
  (forall off run, cons w = C_send off run -> 0 <= off /\ off + run <= n) /\
  (forall d, cons w = C_advance d -> is_Some (cli_uart_ring_advance_tail (Z.of_nat (length d)) (ring w))).
Proof.
  intros Hl Hn Hb Hrun.
  assert (exists q, spsc_inv n w q) as [q [Hr Hsz Hs Hp Hc]].
  { assert (H1 : exists q, spsc_inv n (World (cli_uart_ring_init b n) P_idle C_idle [] []) q).
    { exists []. by split; [apply init_rep|..]. }
    clear -Hrun H1. induction Hrun as [|w1 w2 w3 Hstep _ IH]; [done|]. destruct H1 as [q H1]. apply IH. by eapply spsc_inv_step. }
  pose proof (rep_bounds _ _ Hr) as (Ht & Hh & Hcap). destruct (Hr) as [R _]. pose proof (hr_size _ _ _ _ _ R) as Hbl. split_and!.
  - exists q. unfold capacity in Hcap. split_and!; [done|done|lia].
  - intros c nx _. unfold put_store. rewrite buf_set_Some by lia. by eexists.
  - intros _. apply lookup_lt_is_Some. lia.
  - intros off run E. rewrite E in Hc. cbn in Hc. lia.
  - intros d E. rewrite E in Hc. destruct Hc as [q' ->]. destruct (advance_spec _ d q' Hr) as (r' & -> & _). by eexists.
Qed.

(** A put between the load and the tail update of a get. *)
Lemma spsc_fifo_witness :
  exists w, rtc spsc (World (cli_uart_ring_init [0; 0; 0] 3) P_idle C_idle [] []) w /\ sent w = [7; 8] /\
    exists q, sent w = got w ++ q /\ rep (ring w) q /\ Z.of_nat (length q) <= 2.
Proof.
  eexists. match goal with |- ?A /\ _ => assert (Hrun : A) end.
  { eapply rtc_l; [by eapply (s_put_room _ 7)|]. eapply rtc_l; [by eapply s_put_store|]. eapply rtc_l; [apply s_put_publish|].
    eapply rtc_l; [by apply s_get_some|]. eapply rtc_l; [by eapply s_get_load|]. eapply rtc_l; [by eapply (s_put_room _ 8)|].
    eapply rtc_l; [by eapply s_put_store|]. eapply rtc_l; [by eapply s_advance|]. eapply rtc_l; [apply s_put_publish|]. apply rtc_refl. }
  split; [exact Hrun|]. split; [reflexivity|].
  refine (proj1 (spsc_fifo [0; 0; 0] 3 _ eq_refl _ _ Hrun)); lia.
Defined.
End spsc.
End Uart.
