(* ===== verification/Crc16.v ===== *)
(** * The link's checksum ([erpc_crc16] of [src/app/erpc.c])

    The table-driven CRC of the Wi-Fi co-processor's link, its reference -- the
    message fed bit by bit, most significant first, into a 16-bit register with
    feedback 0x1021 -- and the errors it detects. *)

From Stdlib Require Import Btauto.
From S2P Require Import Prelude.
Local Open Scope Z_scope.

(** ** The code *)

(** One turn of the table builder's bit loop, in a [uint32_t]. *)
Definition tab_bit (crc : Z) : Z :=
  let t := u32 (Z.shiftl crc 1) in if negb (Z.land crc 32768 =? 0) then Z.lxor t 4129 else t.
Definition tab_entry (b : Z) : Z := u16 (Nat.iter 8 tab_bit (u32 (Z.shiftl b 8))).
Definition erpc_crc16_build : list Z := tab_entry <$> seqZ 0 256.

Definition crc_tab_step (tab : list Z) (crc d : Z) : Z :=
  Z.lxor (nth (Z.to_nat (Z.land (Z.lxor (Z.shiftr crc 8) d) 255)) tab 0) (u32 (Z.shiftl crc 8)).
(** The accumulator keeps its high half; only the result is cut to 16 bits. *)
Definition erpc_crc16 (d : list Z) : Z := u16 (fold_left (crc_tab_step erpc_crc16_build) d 61258).

(** ** The reference *)

Definition feed (crc : Z) (m : bool) : Z :=
  Z.lxor (u16 (Z.shiftl crc 1)) (if xorb (Z.testbit crc 15) m then 4129 else 0).
Definition bits_of (x : Z) : list bool := Z.testbit x <$> [7; 6; 5; 4; 3; 2; 1; 0].
Definition message (d : list Z) : list bool := d ≫= bits_of.
Definition crc16_ref (d : list Z) : Z := fold_left feed (message d) 61258.

(** ** The register as a linear map *)

Definition shift (v : Z) : Z := feed v false.

Lemma u16_bits x i : 0 <= i -> Z.testbit (u16 x) i = (i <? 16) && Z.testbit x i.
Proof.
  intros Hi. unfold u16. change 65536 with (2 ^ 16). destruct (Z.ltb_spec i 16).
  - by rewrite Z.mod_pow2_bits_low by lia.
  - by rewrite Z.mod_pow2_bits_high by lia.
Qed.

Lemma is_u16_bits x : 0 <= x -> (forall i, 16 <= i -> Z.testbit x i = false) -> is_u16 x.
Proof.
  intros Hx Hb. assert (u16 x = x) as <-; [|apply u16_range].
  apply Z.bits_inj'. intros i Hi. rewrite u16_bits by done. destruct (Z.ltb_spec i 16); [done|]. by rewrite Hb.
Qed.

Lemma u16_high x i : is_u16 x -> 16 <= i -> Z.testbit x i = false.
Proof. intros Hx Hi. rewrite <-(u16_small x Hx), u16_bits by lia. destruct (Z.ltb_spec i 16); [lia|done]. Qed.

Lemma lxor_u16 a b : is_u16 a -> is_u16 b -> is_u16 (Z.lxor a b).
Proof.
  intros Ha Hb. apply is_u16_bits; [apply Z.lxor_nonneg; unfold is_u16 in *; lia|].
  intros i Hi. by rewrite Z.lxor_spec, !u16_high.
Qed.

Lemma feed_bits v m i : 0 <= i ->
  Z.testbit (feed v m) i = xorb ((i <? 16) && (0 <? i) && Z.testbit v (i - 1)) (xorb (Z.testbit v 15) m && Z.testbit 4129 i).
Proof.
  intros Hi. unfold feed. rewrite Z.lxor_spec, u16_bits, Z.shiftl_spec by done. f_equal.
  - destruct (Z.ltb_spec 0 i); [by rewrite andb_true_r|]. rewrite (Z.testbit_neg_r v) by lia. by rewrite !andb_false_r.
  - destruct (xorb _ m); [done|]. by rewrite Z.bits_0.
Qed.

Lemma feed_range v m : is_u16 (feed v m).
Proof. unfold feed. apply lxor_u16; [apply u16_range|]. destruct (xorb _ m); unfold is_u16; lia. Qed.

Lemma shift_lxor a b : shift (Z.lxor a b) = Z.lxor (shift a) (shift b).
Proof. apply Z.bits_inj'. intros i Hi. rewrite Z.lxor_spec. unfold shift. rewrite !feed_bits, !Z.lxor_spec by done. btauto. Qed.

Lemma shift_low v : 0 <= v < 32768 -> shift v = Z.shiftl v 1.
Proof.
  intros Hv. unfold shift, feed. assert (Z.testbit v 15 = false) as ->.
  { apply Z.testbit_false; [lia|]. by rewrite Z.div_small by (simpl; lia). }
  cbn [xorb]. rewrite Z.lxor_0_r, u16_small; [done|].
  rewrite Z.shiftl_mul_pow2 by lia. unfold is_u16. lia.
Qed.

Lemma feed_shift v m : feed v m = shift (Z.lxor v (Z.shiftl (Z.b2z m) 15)).
Proof.
  apply Z.bits_inj'. intros i Hi. unfold shift. rewrite !feed_bits, !Z.lxor_spec by lia. f_equal.
  - destruct (Z.ltb_spec i 16), (Z.ltb_spec 0 i); try done. cbn [andb].
    rewrite Z.shiftl_spec, (Z.testbit_neg_r (Z.b2z m)) by lia. by rewrite xorb_false_r.
  - rewrite Z.shiftl_spec by lia. by rewrite Z.sub_diag, Z.b2z_bit0, xorb_false_r.
Qed.

(** Only 0 shifts to 0, so the register never forgets a difference. *)
Lemma shift_0 v : is_u16 v -> shift v = 0 -> v = 0.
Proof.
  intros Hv E. assert (Hb : forall i, 0 <= i -> Z.testbit (shift v) i = false) by (intros; by rewrite E, Z.bits_0).
  unfold shift in Hb. assert (H15 : Z.testbit v 15 = false).
  { specialize (Hb 0 ltac:(lia)). rewrite feed_bits in Hb by lia. by destruct (Z.testbit v 15). }
  apply Z.bits_inj'. intros i Hi. rewrite Z.bits_0. destruct (Z.lt_ge_cases i 16); [|by apply u16_high].
  destruct (Z.eq_dec i 15) as [->|]; [done|]. specialize (Hb (i + 1) ltac:(lia)). rewrite feed_bits, H15 in Hb by lia.
  destruct (Z.ltb_spec (i + 1) 16); [|lia]. destruct (Z.ltb_spec 0 (i + 1)); [|lia].
  rewrite Z.add_simpl_r in Hb. by destruct (Z.testbit v i).
Qed.

Lemma shift_inj a b : is_u16 a -> is_u16 b -> shift a = shift b -> a = b.
Proof.
  intros Ha Hb E. apply Z.lxor_eq, shift_0; [by apply lxor_u16|]. by rewrite shift_lxor, E, Z.lxor_nilpotent.
Qed.

Lemma iter_lxor n a b : Nat.iter n shift (Z.lxor a b) = Z.lxor (Nat.iter n shift a) (Nat.iter n shift b).
Proof. induction n as [|n IH]; [done|]. by rewrite !Nat.iter_succ, IH, shift_lxor. Qed.

Lemma iter_range n v : is_u16 v -> is_u16 (Nat.iter n shift v).
Proof. intros Hv. destruct n; [done|]. apply feed_range. Qed.

Lemma iter_inj n a b : is_u16 a -> is_u16 b -> Nat.iter n shift a = Nat.iter n shift b -> a = b.
Proof.
  intros Ha Hb. induction n as [|n IH]; [done|]. intros E. apply IH, shift_inj; [by apply iter_range..|done].
Qed.

(** ** A run of bits as a number *)

Fixpoint num (ms : list bool) : Z :=
  match ms with [] => 0 | m :: ms => Z.b2z m * 2 ^ Z.of_nat (length ms) + num ms end.

Lemma num_range ms : 0 <= num ms < 2 ^ Z.of_nat (length ms).
Proof.
  induction ms as [|m ms IH]; [done|]. cbn [num length]. rewrite Nat2Z.inj_succ, Z.pow_succ_r by lia. destruct m; cbn; lia.
Qed.

Lemma num_inj ms ms' : length ms = length ms' -> num ms = num ms' -> ms = ms'.
Proof.
  revert ms'. induction ms as [|m ms IH]; intros [|m' ms'] Hl E; try done. injection Hl as Hl. cbn [num] in E.
  pose proof (num_range ms). pose proof (num_range ms'). rewrite Hl in *.
  assert (m = m') as -> by (destruct m, m'; cbn in E; (done || lia)). f_equal. apply IH; [done|lia].
Qed.

(** Feeding at most 16 bits is adding them at the top and shifting. *)
Lemma feed_num ms c : (length ms <= 16)%nat ->
  fold_left feed ms c = Nat.iter (length ms) shift (Z.lxor c (Z.shiftl (num ms) (16 - Z.of_nat (length ms)))).
Proof.
  revert c. induction ms as [|m ms IH]; intros c Hl; cbn [fold_left length num] in *.
  { by rewrite Z.shiftl_0_l, Z.lxor_0_r. }
  rewrite IH, feed_shift by lia. set (n := Z.of_nat (length ms)). pose proof (num_range ms) as Hr. fold n in Hr.
  assert (E : Z.shiftl (num ms) (16 - n) = shift (Z.shiftl (num ms) (15 - n))).
  { rewrite shift_low.
    - rewrite Z.shiftl_shiftl by lia. f_equal. lia.
    - rewrite Z.shiftl_mul_pow2 by lia. split; [lia|]. change 32768 with (2 ^ 15).
      replace (2 ^ 15) with (2 ^ n * 2 ^ (15 - n)) by (rewrite <-Z.pow_add_r by lia; f_equal; lia). nia. }
  rewrite E, <-shift_lxor, <-Nat.iter_succ_r. f_equal. rewrite Z.lxor_assoc. f_equal.
  replace (16 - Z.of_nat (S (length ms))) with (15 - n) by lia.
  rewrite <-Z.add_nocarry_lxor.
  - rewrite !Z.shiftl_mul_pow2 by lia. rewrite Z.mul_add_distr_r, <-Z.mul_assoc, <-Z.pow_add_r by lia. do 3 f_equal. lia.
  - apply Z.bits_inj'. intros i Hi. rewrite Z.land_spec, Z.bits_0, !Z.shiftl_spec by lia.
    destruct (Z.lt_ge_cases i 15); [by rewrite (Z.testbit_neg_r (Z.b2z m)) by lia|].
    destruct (Z.eq_dec (num ms) 0) as [->|]; [by rewrite Z.bits_0, andb_false_r|].
    rewrite (Z.bits_above_log2 (num ms)); [by rewrite andb_false_r|lia|]. apply Z.log2_lt_pow2; [lia|].
    eapply Z.lt_le_trans; [apply Hr|]. apply Z.pow_le_mono_r; lia.
Qed.

Lemma num_bits_of x : is_u8 x -> num (bits_of x) = x.
Proof.
  intros Hx. assert (H : forallb (fun n => num (bits_of (Z.of_nat n)) =? Z.of_nat n) (seq 0 256) = true) by by vm_compute.
  rewrite forallb_forall in H. specialize (H (Z.to_nat x)). rewrite Z2Nat.id in H by (unfold is_u8 in Hx; lia).
  apply Z.eqb_eq, H, in_seq. unfold is_u8 in Hx. lia.
Qed.

(** ** The table *)

Lemma land_pow2 v k : 0 <= k -> Z.land v (2 ^ k) = Z.b2z (Z.testbit v k) * 2 ^ k.
Proof.
  intros Hk. apply Z.bits_inj'. intros i Hi. rewrite Z.land_spec, Z.pow2_bits_eqb by done.
  rewrite Z.mul_pow2_bits by done. destruct (Z.eqb_spec k i) as [->|].
  - by rewrite Z.sub_diag, Z.b2z_bit0, andb_true_r.
  - rewrite andb_false_r. destruct (Z.lt_ge_cases i k); [by rewrite Z.testbit_neg_r by lia|].
    symmetry. destruct (Z.testbit v k); [|apply Z.bits_0]. by rewrite (Z.pow2_bits_eqb 0), (proj2 (Z.eqb_neq _ _)) by lia.
Qed.

Lemma tab_bit_u16 v : u16 (tab_bit v) = shift (u16 v).
Proof.
  apply Z.bits_inj'. intros i Hi. unfold shift. rewrite feed_bits, xorb_false_r, !(u16_bits _ 15), (u16_bits _ i) by lia.
  unfold tab_bit. change 32768 with (2 ^ 15). rewrite land_pow2 by lia. change (15 <? 16) with true. cbn [andb].
  destruct (Z.ltb_spec i 16) as [Hlt|Hge]; cbn [andb].
  2:{ rewrite (u16_high 4129) by (unfold is_u16; lia). by rewrite andb_false_r. }
  assert (Hu : Z.testbit (u32 (Z.shiftl v 1)) i = (0 <? i) && Z.testbit (u16 v) (i - 1)).
  { unfold u32. change 4294967296 with (2 ^ 32). rewrite Z.mod_pow2_bits_low, Z.shiftl_spec by lia.
    destruct (Z.ltb_spec 0 i); [|by rewrite Z.testbit_neg_r by lia].
    rewrite u16_bits by lia. by destruct (Z.ltb_spec (i - 1) 16); [|lia]. }
  destruct (Z.testbit v 15).
  - change (negb (Z.b2z true * 2 ^ 15 =? 0)) with true. cbv iota. by rewrite Z.lxor_spec, Hu.
  - change (negb (Z.b2z false * 2 ^ 15 =? 0)) with false. cbv iota. by rewrite Hu, xorb_false_r.
Qed.

Lemma iter_tab_bit n v : u16 (Nat.iter n tab_bit v) = Nat.iter n shift (u16 v).
Proof. induction n as [|n IH]; [done|]. by rewrite !Nat.iter_succ, tab_bit_u16, IH. Qed.

Lemma iter_shift_low n v : 0 <= v -> v * 2 ^ Z.of_nat n < 65536 -> Nat.iter n shift v = Z.shiftl v (Z.of_nat n).
Proof.
  intros Hv. induction n as [|n IH]; intros Hb; [by rewrite Z.shiftl_0_r|].
  rewrite Nat2Z.inj_succ, Z.pow_succ_r in Hb by lia. rewrite Nat.iter_succ, IH by lia.
  rewrite shift_low by (rewrite Z.shiftl_mul_pow2 by lia; lia). rewrite Z.shiftl_shiftl by lia. f_equal. lia.
Qed.

Lemma tab_lookup b : is_u8 b -> nth (Z.to_nat b) erpc_crc16_build 0 = Nat.iter 8 shift (Z.shiftl b 8).
Proof.
  intros Hb. unfold is_u8 in Hb. assert (Hs : is_u16 (Z.shiftl b 8)) by (rewrite Z.shiftl_mul_pow2 by lia; unfold is_u16; lia).
  rewrite (nth_lookup_Some _ _ _ (tab_entry b)).
  - unfold tab_entry. by rewrite u32_small, iter_tab_bit, u16_small by (unfold is_u32, is_u16 in *; lia).
  - unfold erpc_crc16_build. rewrite list_lookup_fmap, lookup_seqZ_lt by lia. cbn. do 2 f_equal. lia.
Qed.

(** One byte: one table step on the accumulator, eight bits into the register. *)
Lemma crc_tab_step_ref c x : 0 <= c -> is_u8 x ->
  u16 (crc_tab_step erpc_crc16_build c x) = fold_left feed (bits_of x) (u16 c).
Proof.
  intros Hc Hx. rewrite feed_num by (simpl; lia). rewrite num_bits_of by done. cbn [length bits_of fmap list_fmap].
  change (16 - Z.of_nat 8) with 8. unfold crc_tab_step.
  set (h := Z.land (Z.lxor (Z.shiftr c 8) x) 255). set (l := c mod 256).
  assert (Hh : is_u8 h) by (unfold h; rewrite land_255; apply u8_range). assert (Hl : is_u8 l) by apply u8_range.
  rewrite tab_lookup by done.
  assert (E : Z.lxor (u16 c) (Z.shiftl x 8) = Z.lxor (Z.shiftl h 8) l).
  { apply Z.bits_inj'. intros i Hi. rewrite !Z.lxor_spec, u16_bits by done. unfold l, h. change 256 with (2 ^ 8).
    destruct (Z.lt_ge_cases i 8).
    - rewrite !Z.shiftl_spec_low, Z.mod_pow2_bits_low by done. destruct (Z.ltb_spec i 16); [|lia]. by rewrite xorb_false_r.
    - rewrite !Z.shiftl_spec_high, Z.mod_pow2_bits_high, xorb_false_r by lia. change 255 with (Z.ones 8).
      rewrite Z.land_spec, Z.lxor_spec, Z.shiftr_spec, Z.testbit_ones_nonneg by lia. rewrite Z.sub_add.
      destruct (Z.ltb_spec i 16), (Z.ltb_spec (i - 8) 8); try lia. rewrite andb_false_r. cbn [andb xorb].
      rewrite <-(u8_small x Hx). unfold u8. change 256 with (2 ^ 8). by rewrite Z.mod_pow2_bits_high by lia. }
  rewrite E, iter_lxor, (iter_shift_low 8 l) by (unfold is_u8 in Hl; change (2 ^ Z.of_nat 8) with 256; lia). change (Z.of_nat 8) with 8. 
  assert (Hi : is_u16 (Nat.iter 8 shift (Z.shiftl h 8))) by (apply iter_range; rewrite Z.shiftl_mul_pow2 by lia; unfold is_u8, is_u16 in *; lia).
  apply Z.bits_inj'. intros i Hi'. rewrite u16_bits, !Z.lxor_spec by done.
  destruct (Z.ltb_spec i 16) as [Hlt|Hge]; cbn [andb].
  - f_equal. unfold u32. change 4294967296 with (2 ^ 32). rewrite Z.mod_pow2_bits_low by lia. unfold l.
    rewrite !Z.shiftl_spec by lia. destruct (Z.lt_ge_cases i 8); [by rewrite !Z.testbit_neg_r by lia|].
    change 256 with (2 ^ 8). by rewrite Z.mod_pow2_bits_low by lia.
  - rewrite (u16_high _ i Hi) by done. rewrite u16_high; [done| |done].
    rewrite Z.shiftl_mul_pow2 by lia. unfold is_u8, is_u16 in *. lia.
Qed.

Lemma crc_tab_step_nonneg c x : 0 <= c -> is_u8 x -> 0 <= crc_tab_step erpc_crc16_build c x.
Proof.
  intros Hc Hx. unfold crc_tab_step. apply Z.lxor_nonneg. pose proof (u32_range (Z.shiftl c 8)) as Hr.
  rewrite tab_lookup by (rewrite land_255; apply u8_range). split; intros _; [unfold is_u32 in Hr; lia|]. apply iter_range.
  pose proof (u8_range (Z.lxor (Z.shiftr c 8) x)) as H. rewrite land_255. rewrite Z.shiftl_mul_pow2 by lia.
  unfold u8, is_u8, is_u16 in *. lia.
Qed.

Lemma erpc_crc16_spec d : bytes_ok d -> erpc_crc16 d = crc16_ref d.
Proof.
  intros Hd. unfold erpc_crc16, crc16_ref, message. assert (Hc : 0 <= 61258) by lia.
  change 61258 with (u16 61258) at 2. revert Hc. generalize 61258. induction Hd as [|x d Hx Hd IH]; intros c Hc; [done|].
  cbn [fold_left mbind list_bind]. rewrite fold_left_app, <-crc_tab_step_ref by done.
  apply IH, crc_tab_step_nonneg; done.
Qed.

Lemma erpc_crc16_range d : is_u16 (erpc_crc16 d).
Proof. apply u16_range. Qed.

(** ** The claims *)

(** C34: the table-driven CRC is the bitwise one, for any bytes. *)
Theorem erpc_crc16_correct (d : list Z) : bytes_ok d -> erpc_crc16 d = crc16_ref d.
Proof. apply erpc_crc16_spec. Qed.

Lemma erpc_crc16_correct_witness :
  bytes_ok [49; 50; 51] /\ erpc_crc16 [49; 50; 51] = crc16_ref [49; 50; 51].
Proof. assert (H : bytes_ok [49; 50; 51]) by (repeat constructor; lia). split; [exact H|exact (erpc_crc16_correct _ H)]. Defined.

Lemma lxor_cancel_r k a b : Z.lxor a k = Z.lxor b k -> a = b.
Proof. intros E. by rewrite <-(Z.lxor_0_r a), <-(Z.lxor_nilpotent k), <-Z.lxor_assoc, E, Z.lxor_assoc, Z.lxor_nilpotent, Z.lxor_0_r. Qed.

Lemma lxor_cancel_l k a b : Z.lxor k a = Z.lxor k b -> a = b.
Proof. rewrite !(Z.lxor_comm k). apply lxor_cancel_r. Qed.

Lemma feed_inj m a b : is_u16 a -> is_u16 b -> feed a m = feed b m -> a = b.
Proof.
  intros Ha Hb E. rewrite !feed_shift in E. apply shift_inj in E; [by apply lxor_cancel_r in E|..].
  all: apply lxor_u16; [done|destruct m; by vm_compute].
Qed.

Lemma feeds_range ms c : is_u16 c -> is_u16 (fold_left feed ms c).
Proof. revert c. induction ms as [|m ms IH]; intros c Hc; [done|]. apply IH, feed_range. Qed.

Lemma feeds_inj ms a b : is_u16 a -> is_u16 b -> fold_left feed ms a = fold_left feed ms b -> a = b.
Proof.
  revert a b. induction ms as [|m ms IH]; intros a b Ha Hb E; [done|].
  apply (feed_inj m); [done..|]. apply IH; [apply feed_range..|done].
Qed.

Lemma burst_differs c x y : is_u16 c -> length x = length y -> (length x <= 16)%nat ->
  fold_left feed x c = fold_left feed y c -> x = y.
Proof.
  intros Hc Hl H16 E. rewrite !feed_num, Hl in E by lia.
  assert (Hr : forall ms, length ms = length y -> is_u16 (Z.shiftl (num ms) (16 - Z.of_nat (length y)))).
  { intros ms Hms. pose proof (num_range ms) as Hn. rewrite Hms in Hn. unfold is_u16. rewrite Z.shiftl_mul_pow2 by lia.
    change 65536 with (2 ^ 16). replace (2 ^ 16) with (2 ^ Z.of_nat (length y) * 2 ^ (16 - Z.of_nat (length y)))
      by (rewrite <-Z.pow_add_r by lia; f_equal; lia). nia. }
  apply iter_inj, lxor_cancel_l in E; [|apply lxor_u16; auto..].
  rewrite !Z.shiftl_mul_pow2 in E by lia. apply Z.mul_cancel_r in E; [|lia]. by apply num_inj.
Qed.

(** two messages of the same length that differ in one run of at most 16
    bits, wherever it lies, have different CRCs. *)
Theorem crc_detects_burst (d1 d2 : list Z) (p x y s : list bool) :
  bytes_ok d1 -> bytes_ok d2 -> message d1 = p ++ x ++ s -> message d2 = p ++ y ++ s ->
  length x = length y -> (length x <= 16)%nat -> x <> y -> erpc_crc16 d1 <> erpc_crc16 d2.
Proof.
  intros H1 H2 E1 E2 Hl H16 Hne. rewrite !erpc_crc16_spec by done. unfold crc16_ref. rewrite E1, E2, !fold_left_app. intros E.
  assert (Hc : is_u16 (fold_left feed p 61258)) by (apply feeds_range; unfold is_u16; lia).
  apply Hne, (burst_differs _ x y Hc Hl H16), (feeds_inj s); [by apply feeds_range..|exact E].
Qed.

(** Two adjacent bytes changed at will. *)
Lemma crc_detects_burst_witness : erpc_crc16 [1; 2; 3; 4] <> erpc_crc16 [1; 253; 7; 4].
Proof.
  apply (crc_detects_burst [1; 2; 3; 4] [1; 253; 7; 4] (bits_of 1) (bits_of 2 ++ bits_of 3) (bits_of 253 ++ bits_of 7) (bits_of 4)).
  - repeat constructor; lia.
  - repeat constructor; lia.
  - reflexivity.
  - reflexivity.
  - reflexivity.
  - apply le_n.
  - discriminate.
Defined.
