(* ===== verification/LinkData.v ===== *)
(** * The link's data channel ([src/app/link_data.c])

    Frames travel in two pools of fixed buffers.  A sender claims a buffer,
    copies outside the critical section and queues it; the service thread peeks,
    writes and pops.  The frame reader claims a buffer, fills it, and commits it;
    the dispatcher hands committed frames to the consumer, who may keep them.
    Each critical section is a definition of its own here, and so is what is done
    between them (the copies, the reads through a pointer, the callback), so that the
    steps of the threads can interleave; the functions of the source are their
    compositions. *)

From stdpp Require Import relations.
From S2P Require Import Prelude Ring Crc16.
Local Open Scope Z_scope.

(** ** State *)

Definition LINK_DATA_PAYLOAD_MAX : Z := 1536.
Definition LINK_DATA_HDR : Z := 2.
Definition LINK_DATA_BODY_MAX : Z := LINK_DATA_HDR + LINK_DATA_PAYLOAD_MAX.
Definition LINK_DATA_RX_BUFS : nat := 8.
Definition LINK_DATA_TX_BUFS : nat := 16.
(** [sizeof(struct link_data_buf)]: the body, two 16-bit fields, aligned to 8. *)
Definition LD_BUF_SIZE : Z := 1544.

Inductive ld_state : Type := LD_FREE | LD_BUSY | LD_QUEUED.
#[export] Instance ld_state_eq : EqDecision ld_state.
Proof. solve_decision. Defined.

Record link_data_buf : Type := Buf { body : list Z; len : Z; crc : Z }.

(** One direction: the buffers, the stack of free indices, the ring of queued
    ones, and each buffer's state and epoch. *)
Record pool : Type := Pool {
  p_buf : list link_data_buf;
  p_free : list Z; p_free_n : Z;
  p_q : list Z; p_head : Z; p_tail : Z;
  p_state : list ld_state;
  p_epoch : list Z;
}.

Record link_data_stats : Type := Stats {
  tx_frames : Z; tx_bytes : Z; tx_drops : Z;
  rx_frames : Z; rx_bytes : Z; rx_drops : Z; rx_crc_err : Z; rx_oversize : Z; rx_no_consumer : Z;
}.

Section link.
(** What [link_data_attach] registers: a function and its context. *)
Context {consumer : Type}.

Record link : Type := Link {
  ld_rx : pool; ld_tx : pool;
  ld_epoch : Z;
  ld_ready : bool;
  ld_rx_inuse : Z;
  ld_rx_cb : option consumer;
  ld_ctr : link_data_stats;
}.

Definition set_rx (p : pool) (l : link) : link := Link p (ld_tx l) (ld_epoch l) (ld_ready l) (ld_rx_inuse l) (ld_rx_cb l) (ld_ctr l).
Definition set_tx (p : pool) (l : link) : link := Link (ld_rx l) p (ld_epoch l) (ld_ready l) (ld_rx_inuse l) (ld_rx_cb l) (ld_ctr l).
Definition set_inuse (n : Z) (l : link) : link := Link (ld_rx l) (ld_tx l) (ld_epoch l) (ld_ready l) n (ld_rx_cb l) (ld_ctr l).
Definition set_cb (c : option consumer) (l : link) : link := Link (ld_rx l) (ld_tx l) (ld_epoch l) (ld_ready l) (ld_rx_inuse l) c (ld_ctr l).
Definition set_ctr (c : link_data_stats) (l : link) : link := Link (ld_rx l) (ld_tx l) (ld_epoch l) (ld_ready l) (ld_rx_inuse l) (ld_rx_cb l) c.

Definition stats_zero : link_data_stats := Stats 0 0 0 0 0 0 0 0 0.

(** ** One pool

    [None] is an access outside an array. *)

(** [free[free_n++] = idx] *)
Definition push_free (i : Z) (p : pool) : option pool :=
  f ← buf_set (p_free p) (Z.to_nat (p_free_n p)) i;
  Some (Pool (p_buf p) f (u8 (p_free_n p + 1)) (p_q p) (p_head p) (p_tail p) (p_state p) (p_epoch p)).

(** A copy into a buffer. *)
Definition store (off : nat) (d b : list Z) : option (list Z) :=
  if decide (off + length d <= length b)%nat then Some (splice off d b) else None.

(** [state[i] = s] *)
Definition set_state (i : Z) (s : ld_state) (p : pool) : option pool :=
  st ← buf_set (p_state p) (Z.to_nat i) s;
  Some (Pool (p_buf p) (p_free p) (p_free_n p) (p_q p) (p_head p) (p_tail p) st (p_epoch p)).

Definition set_epoch (i e : Z) (p : pool) : option pool :=
  ep ← buf_set (p_epoch p) (Z.to_nat i) e;
  Some (Pool (p_buf p) (p_free p) (p_free_n p) (p_q p) (p_head p) (p_tail p) (p_state p) ep).

Definition set_buf (i : Z) (b : link_data_buf) (p : pool) : option pool :=
  bs ← buf_set (p_buf p) (Z.to_nat i) b;
  Some (Pool bs (p_free p) (p_free_n p) (p_q p) (p_head p) (p_tail p) (p_state p) (p_epoch p)).

(** [idx = free[--free_n]], marked busy in the given epoch. *)
Definition claim (epoch : Z) (p : pool) : option (Z * pool) :=
  let n := u8 (p_free_n p - 1) in
  i ← p_free p !! Z.to_nat n;
  p ← set_state i LD_BUSY (Pool (p_buf p) (p_free p) n (p_q p) (p_head p) (p_tail p) (p_state p) (p_epoch p));
  p ← set_epoch i epoch p;
  Some (i, p).

(** [q[head] = idx; head = (head + 1) % CAP] *)
Definition enqueue (cap : Z) (i : Z) (p : pool) : option pool :=
  p ← set_state i LD_QUEUED p;
  q ← buf_set (p_q p) (Z.to_nat (p_head p)) i;
  Some (Pool (p_buf p) (p_free p) (p_free_n p) q (u8 ((p_head p + 1) mod cap)) (p_tail p) (p_state p) (p_epoch p)).

(** [idx = q[tail]; tail = (tail + 1) % CAP] *)
Definition dequeue (cap : Z) (p : pool) : option (Z * pool) :=
  i ← p_q p !! Z.to_nat (p_tail p);
  Some (i, Pool (p_buf p) (p_free p) (p_free_n p) (p_q p) (p_head p) (u8 ((p_tail p + 1) mod cap)) (p_state p) (p_epoch p)).

Definition release (i : Z) (p : pool) : option pool := p ← set_state i LD_FREE p; push_free i p.

Definition LD_RX_Q_CAP : Z := Z.of_nat LINK_DATA_RX_BUFS + 1.
Definition LD_TX_Q_CAP : Z := Z.of_nat LINK_DATA_TX_BUFS + 1.

(** The first population of the free list. *)
Fixpoint init_loop (n : nat) (i : Z) (p : pool) : option pool :=
  match n with
  | O => Some p
  | S n => p ← release i p; init_loop n (i + 1) p
  end.

(** The loop of a reset; the second component counts the buffers still held. *)
Fixpoint reclaim_loop (n : nat) (i : Z) (inuse : Z) (p : pool) : option (Z * pool) :=
  match n with
  | O => Some (inuse, p)
  | S n =>
      s ← p_state p !! Z.to_nat i;
      p ← (if decide (s = LD_QUEUED) then set_state i LD_FREE p else Some p);
      s ← p_state p !! Z.to_nat i;
      if decide (s = LD_FREE) then p ← push_free i p; reclaim_loop n (i + 1) inuse p
      else reclaim_loop n (i + 1) (u8 (inuse + 1)) p
  end.

Definition clear_lists (p : pool) : pool := Pool (p_buf p) (p_free p) 0 (p_q p) 0 0 (p_state p) (p_epoch p).

Definition ld_init_locked (l : link) : option link :=
  if ld_ready l then Some l
  else
    rx ← init_loop LINK_DATA_RX_BUFS 0 (clear_lists (ld_rx l));
    tx ← init_loop LINK_DATA_TX_BUFS 0 (clear_lists (ld_tx l));
    Some (Link rx tx (ld_epoch l) true 0 (ld_rx_cb l) (ld_ctr l)).

Definition ld_reclaim_locked (l : link) : option link :=
  '(inuse, rx) ← reclaim_loop LINK_DATA_RX_BUFS 0 0 (clear_lists (ld_rx l));
  '(_, tx) ← reclaim_loop LINK_DATA_TX_BUFS 0 0 (clear_lists (ld_tx l));
  Some (Link rx tx (u8 (ld_epoch l + 1)) true inuse (ld_rx_cb l) (ld_ctr l)).

(** [None] as an index is -1. *)
Definition ld_rx_release_locked (i : option Z) (l : link) : option link :=
  match i with
  | None => Some l
  | Some i =>
      s ← p_state (ld_rx l) !! Z.to_nat i;
      if decide (s = LD_FREE) then Some l
      else rx ← release i (ld_rx l); Some (set_inuse (if ld_rx_inuse l =? 0 then 0 else ld_rx_inuse l - 1) (set_rx rx l))
  end.

(** ** Pointers into the receive pool

    [base] is the address of [ld_rx_pool], 0 is NULL. *)

Definition ld_rx_index (base payload : Z) : option Z :=
  if (payload =? 0) || (payload <? base + LINK_DATA_HDR) then None
  else
    let off := payload - base - LINK_DATA_HDR in
    if negb (off mod LD_BUF_SIZE =? 0) then None
    else let idx := off / LD_BUF_SIZE in if idx <? Z.of_nat LINK_DATA_RX_BUFS then Some idx else None.

Definition ld_rx_index_body (base b : Z) : option Z := if b =? 0 then None else ld_rx_index base (b + LINK_DATA_HDR).
Definition body_ptr (base i : Z) : Z := base + LD_BUF_SIZE * i.

(** ** Registration *)

Definition link_data_attach (c : option consumer) (l : link) : option (Z * link) :=
  match c with
  | None => Some (-1, l)
  | Some c =>
      l ← ld_init_locked l;
      match ld_rx_cb l with
      | Some _ => Some (-1, l)
      | None => Some (0, set_cb (Some c) l)
      end
  end.

Definition link_data_reset (l : link) : option link :=
  l ← ld_init_locked l; l ← ld_reclaim_locked l; Some (set_ctr stats_zero l).

Definition unregister (l : link) : link := set_cb None l.
Definition link_data_detach (l : link) : option link := link_data_reset (unregister l).
Definition link_data_attached (l : link) : bool := if ld_rx_cb l then true else false.

(** ** Transmit *)

Definition count_tx_drop (c : link_data_stats) : link_data_stats :=
  Stats (tx_frames c) (tx_bytes c) (tx_drops c +% 1) (rx_frames c) (rx_bytes c) (rx_drops c) (rx_crc_err c) (rx_oversize c) (rx_no_consumer c).
Definition count_tx_frame (n : Z) (c : link_data_stats) : link_data_stats :=
  Stats (tx_frames c +% 1) (tx_bytes c +% n) (tx_drops c) (rx_frames c) (rx_bytes c) (rx_drops c) (rx_crc_err c) (rx_oversize c) (rx_no_consumer c).

Definition send_args_ok (p : option (list Z)) (n : Z) : bool :=
  negb ((LINK_DATA_PAYLOAD_MAX <? n) || (negb (n =? 0) && match p with None => true | Some _ => false end)).

(** The first critical section. *)
Definition send_claim (l : link) : option (option Z * link) :=
  l ← ld_init_locked l;
  if p_free_n (ld_tx l) =? 0 then Some (None, set_ctr (count_tx_drop (ld_ctr l)) l)
  else '(i, tx) ← claim (ld_epoch l) (ld_tx l); Some (Some i, set_tx tx l).

(** The copy and the CRC, outside. *)
Definition send_fill (i chan : Z) (payload : list Z) (l : link) : option link :=
  b ← p_buf (ld_tx l) !! Z.to_nat i;
  bd ← store 0 (chan :: 0 :: payload) (body b);
  let n := u16 (LINK_DATA_HDR + Z.of_nat (length payload)) in
  tx ← set_buf i (Buf bd n (erpc_crc16 (take (Z.to_nat n) bd))) (ld_tx l);
  Some (set_tx tx l).

(** The second critical section. *)
Definition send_commit (i n : Z) (l : link) : option (Z * link) :=
  e ← p_epoch (ld_tx l) !! Z.to_nat i;
  if negb (e =? ld_epoch l) then
    tx ← release i (ld_tx l); Some (-1, set_ctr (count_tx_drop (ld_ctr l)) (set_tx tx l))
  else
    tx ← enqueue LD_TX_Q_CAP i (ld_tx l);
    Some (0, set_ctr (count_tx_frame n (ld_ctr l)) (set_tx tx l)).

(** [n] is [length payload]; the wake-up of the service thread is left out. *)
Definition link_data_send (chan : Z) (p : option (list Z)) (n : Z) (l : link) : option (Z * link) :=
  if negb (send_args_ok p n) then Some (-1, l)
  else
    '(i, l) ← send_claim l;
    match i with
    | None => Some (-1, l)
    | Some i => l ← send_fill i chan (default [] p) l; send_commit i n l
    end.

(** The locked section: which buffer is at the head of the queue, its length and its
    CRC.  The body is read later, through the pointer ([tx_read]). *)
Definition link_data_tx_peek (l : link) : option (option (Z * Z * Z)) :=
  let tx := ld_tx l in
  if p_head tx =? p_tail tx then Some None
  else i ← p_q tx !! Z.to_nat (p_tail tx); b ← p_buf tx !! Z.to_nat i; Some (Some (i, len b, crc b)).

(** The service thread's read of [k] bytes of the peeked body, with no lock held
    ([rtl8720_uart_write] in [erpc_data_send_one]). *)
Definition tx_read (i : Z) (off k : nat) (l : link) : option (list Z) :=
  b ← p_buf (ld_tx l) !! Z.to_nat i;
  if decide (off + k <= length (body b))%nat then Some (slice off k (body b)) else None.

Definition link_data_tx_pop (l : link) : option link :=
  if p_head (ld_tx l) =? p_tail (ld_tx l) then Some l
  else
    '(i, tx) ← dequeue LD_TX_Q_CAP (ld_tx l);
    s ← p_state tx !! Z.to_nat i;
    if decide (s = LD_FREE) then Some (set_tx tx l) else tx ← release i tx; Some (set_tx tx l).

Definition link_data_tx_pending (l : link) : bool := negb (p_head (ld_tx l) =? p_tail (ld_tx l)).

(** ** Receive *)

Definition count_rx_oversize (c : link_data_stats) : link_data_stats :=
  Stats (tx_frames c) (tx_bytes c) (tx_drops c) (rx_frames c) (rx_bytes c) (rx_drops c) (rx_crc_err c) (rx_oversize c +% 1) (rx_no_consumer c).
Definition count_rx_drop (c : link_data_stats) : link_data_stats :=
  Stats (tx_frames c) (tx_bytes c) (tx_drops c) (rx_frames c) (rx_bytes c) (rx_drops c +% 1) (rx_crc_err c) (rx_oversize c) (rx_no_consumer c).
Definition count_rx_crc (c : link_data_stats) : link_data_stats :=
  Stats (tx_frames c) (tx_bytes c) (tx_drops c) (rx_frames c) (rx_bytes c) (rx_drops c) (rx_crc_err c +% 1) (rx_oversize c) (rx_no_consumer c).
Definition count_rx_no_consumer (c : link_data_stats) : link_data_stats :=
  Stats (tx_frames c) (tx_bytes c) (tx_drops c) (rx_frames c) (rx_bytes c) (rx_drops c) (rx_crc_err c) (rx_oversize c) (rx_no_consumer c +% 1).
Definition count_rx_frame (n : Z) (c : link_data_stats) : link_data_stats :=
  Stats (tx_frames c) (tx_bytes c) (tx_drops c) (rx_frames c +% 1) (rx_bytes c +% n) (rx_drops c) (rx_crc_err c) (rx_oversize c) (rx_no_consumer c).

Definition link_data_rx_claim (body_len : Z) (l : link) : option (option Z * link) :=
  if (body_len <? LINK_DATA_HDR) || (LINK_DATA_BODY_MAX <? body_len)
  then Some (None, set_ctr (count_rx_oversize (ld_ctr l)) l)
  else
    l ← ld_init_locked l;
    if p_free_n (ld_rx l) =? 0 then Some (None, set_ctr (count_rx_drop (ld_ctr l)) l)
    else '(i, rx) ← claim (ld_epoch l) (ld_rx l); Some (Some i, set_inuse (u8 (ld_rx_inuse l + 1)) (set_rx rx l)).

(** The frame reader's store into the buffer it claimed ([erpc_rx_step]). *)
Definition rx_fill (i : Z) (off : nat) (d : list Z) (l : link) : option link :=
  b ← p_buf (ld_rx l) !! Z.to_nat i;
  bd ← store off d (body b);
  rx ← set_buf i (Buf bd (len b) (crc b)) (ld_rx l);
  Some (set_rx rx l).

(** The CRC of a received body, outside the critical section. *)
Definition commit_check (i body_len want : Z) (l : link) : option bool :=
  if body_len <? LINK_DATA_HDR then Some false
  else b ← p_buf (ld_rx l) !! Z.to_nat i; Some (erpc_crc16 (take (Z.to_nat body_len) (body b)) =? want).

Definition commit_bad (i : Z) (l : link) : option link :=
  s ← p_state (ld_rx l) !! Z.to_nat i;
  ld_rx_release_locked (Some i) (if decide (s = LD_BUSY) then set_ctr (count_rx_crc (ld_ctr l)) l else l).

Definition commit_good (i body_len want : Z) (l : link) : option link :=
  s ← p_state (ld_rx l) !! Z.to_nat i;
  e ← p_epoch (ld_rx l) !! Z.to_nat i;
  if negb (bool_decide (s = LD_BUSY)) || negb (e =? ld_epoch l) then ld_rx_release_locked (Some i) l
  else
    b ← p_buf (ld_rx l) !! Z.to_nat i;
    rx ← set_buf i (Buf (body b) body_len want) (ld_rx l);
    let l := set_rx rx l in
    match ld_rx_cb l with
    | None => ld_rx_release_locked (Some i) (set_ctr (count_rx_no_consumer (ld_ctr l)) l)
    | Some _ =>
        rx ← enqueue LD_RX_Q_CAP i (ld_rx l);
        Some (set_ctr (count_rx_frame (u32 (body_len - LINK_DATA_HDR)) (ld_ctr l)) (set_rx rx l))
    end.

Definition link_data_rx_commit (base ptr body_len want : Z) (l : link) : option link :=
  match ld_rx_index_body base ptr with
  | None => Some l
  | Some i => ok ← commit_check i body_len want l; if (ok : bool) then commit_good i body_len want l else commit_bad i l
  end.

Definition link_data_rx_abort (base ptr : Z) (l : link) : option link := ld_rx_release_locked (ld_rx_index_body base ptr) l.
Definition link_data_rx_free (base ptr : Z) (l : link) : option link := ld_rx_release_locked (ld_rx_index base ptr) l.
Definition link_data_rx_ready (l : link) : bool := negb (p_head (ld_rx l) =? p_tail (ld_rx l)).

(** The dispatcher's critical section: nothing queued, an entry to skip, or a
    buffer now the consumer's. *)
Inductive taken : Type := T_none | T_skip | T_take (i : Z) (cb : option consumer).

Definition dispatch_take (l : link) : option (taken * link) :=
  if p_head (ld_rx l) =? p_tail (ld_rx l) then Some (T_none, l)
  else
    '(i, rx) ← dequeue LD_RX_Q_CAP (ld_rx l);
    s ← p_state rx !! Z.to_nat i;
    e ← p_epoch rx !! Z.to_nat i;
    if negb (bool_decide (s = LD_QUEUED)) || negb (e =? ld_epoch l) then Some (T_skip, set_rx rx l)
    else rx ← set_state i LD_BUSY rx; Some (T_take i (ld_rx_cb l), set_rx rx l).

(** What the consumer is called with: the channel and the payload. *)
Definition delivered (i : Z) (l : link) : option (Z * list Z) :=
  b ← p_buf (ld_rx l) !! Z.to_nat i;
  chan ← body b !! 0%nat;
  Some (chan, slice 2 (Z.to_nat (u16 (len b - LINK_DATA_HDR))) (body b)).

(** The loop; [cb] answers whether the consumer keeps the frame.  The frames
    delivered, in order. *)
Fixpoint link_data_rx_dispatch (fuel : nat) (base : Z) (cb : consumer -> Z * list Z -> bool) (l : link) : option (list (Z * list Z) * link) :=
  match fuel with
  | O => None
  | S fuel =>
      '(t, l) ← dispatch_take l;
      match t with
      | T_none => Some ([], l)
      | T_skip => link_data_rx_dispatch fuel base cb l
      | T_take i c =>
          f ← delivered i l;
          let kept := match c with Some c => cb c f | None => false end in
          l ← (if kept then Some l else link_data_rx_abort base (body_ptr base i) l);
          '(fs, l) ← link_data_rx_dispatch fuel base cb l;
          Some (match c with Some _ => f :: fs | None => fs end, l)
      end
  end.

(** [tx_queued] and [rx_inuse] of the snapshot. *)
Definition link_data_stats_get (l : link) : link_data_stats * Z * Z :=
  (ld_ctr l, (p_head (ld_tx l) + LD_TX_Q_CAP - p_tail (ld_tx l)) mod LD_TX_Q_CAP, ld_rx_inuse l).
End link.
Arguments link : clear implicits.

(** ** Ownership in one pool *)

Definition frees (p : pool) : list Z := take (Z.to_nat (p_free_n p)) (p_free p).
Definition all_in (s : ld_state) (p : pool) (l : list Z) : Prop := Forall (fun i => p_state p !! Z.to_nat i = Some s) l.

(** Every buffer is exactly one of: free, queued ([q], in the ring's order), held
    ([h]), or between two of these ([t], inside a critical section only). *)
Record pool_ok (n : nat) (p : pool) (q h t : list Z) : Prop := {
  po_state : length (p_state p) = n;
  po_epoch : length (p_epoch p) = n;
  po_buf : length (p_buf p) = n;
  po_free : length (p_free p) = S n;
  po_n : 0 <= p_free_n p <= Z.of_nat n;
  po_perm : frees p ++ q ++ h ++ t ≡ₚ seqZ 0 (Z.of_nat n);
  po_ring : holds_ring (p_q p) (Z.of_nat n + 1) (p_head p) (p_tail p) q;
  po_frees : all_in LD_FREE p (frees p);
  po_queued : all_in LD_QUEUED p q;
  po_held : all_in LD_BUSY p h;
}.

(** Filtering by a predicate that holds of all elements, or of none. *)
Lemma filter_all {A} (P : A -> Prop) `{!forall x, Decision (P x)} (l : list A) : (forall x, x ∈ l -> P x) -> filter P l = l.
Proof.
  induction l as [|x l IH]; intros Hp; [done|]. rewrite filter_cons, decide_True by (apply Hp; set_solver). f_equal. apply IH. set_solver.
Qed.
Lemma filter_none {A} (P : A -> Prop) `{!forall x, Decision (P x)} (l : list A) : (forall x, x ∈ l -> ~ P x) -> filter P l = [].
Proof.
  induction l as [|x l IH]; intros Hp; [done|]. rewrite filter_cons, decide_False by (apply Hp; set_solver). apply IH. set_solver.
Qed.

Section pool.
Context (n : nat) (Hn : (n <= 250)%nat).
Implicit Types (p : pool) (q h t : list Z) (i : Z).

Lemma pool_ok_perm p q h h' t t' : h ≡ₚ h' -> t ≡ₚ t' -> pool_ok n p q h t -> pool_ok n p q h' t'.
Proof.
  intros Hh Ht []. split; try done; [by rewrite <-Hh, <-Ht|]. unfold all_in in *. by rewrite <-Hh.
Qed.

Lemma pool_nodup p q h t : pool_ok n p q h t -> NoDup (frees p ++ q ++ h ++ t).
Proof. intros P. rewrite (po_perm _ _ _ _ _ P). apply NoDup_seqZ. Qed.

Lemma pool_range p q h t i : pool_ok n p q h t -> i ∈ frees p ++ q ++ h ++ t -> 0 <= i < Z.of_nat n.
Proof. intros P Hi. rewrite (po_perm _ _ _ _ _ P) in Hi. apply elem_of_seqZ in Hi. lia. Qed.

Lemma pool_count p q h t : pool_ok n p q h t -> (length (frees p) + length q + length h + length t = n)%nat.
Proof.
  intros P. pose proof (Permutation_length (po_perm _ _ _ _ _ P)) as E. rewrite !length_app, length_seqZ in E. lia.
Qed.

Lemma length_frees p q h t : pool_ok n p q h t -> Z.of_nat (length (frees p)) = p_free_n p.
Proof. intros P. destruct P. unfold frees. rewrite length_take. lia. Qed.

(** A state update of a buffer in transit. *)
Lemma all_in_set s i s' p st l : all_in s p l -> i ∉ l -> 0 <= i -> Forall (fun j => 0 <= j) l ->
  st = <[Z.to_nat i:=s']> (p_state p) -> Forall (fun j => st !! Z.to_nat j = Some s) l.
Proof.
  intros Ha Hi H0 Hp ->. unfold all_in in *. rewrite Forall_forall in *. intros j Hj. rewrite list_lookup_insert_ne; [by apply Ha|].
  intros E%Z2Nat.inj; [by subst|done|by apply Hp].
Qed.

Lemma set_state_ok i s p q h t : pool_ok n p q h (i :: t) ->
  exists p', set_state i s p = Some p' /\ pool_ok n p' q h (i :: t) /\ p_state p' = <[Z.to_nat i:=s]> (p_state p) /\
    p_epoch p' = p_epoch p /\ p_buf p' = p_buf p /\ p_free_n p' = p_free_n p /\ p_free p' = p_free p.
Proof.
  intros P. pose proof (pool_nodup _ _ _ _ P) as Hd. pose proof (fun j => pool_range _ _ _ _ j P) as Hr.
  assert (Hi : 0 <= i < Z.of_nat n) by (apply Hr; set_solver). destruct P.
  unfold set_state. rewrite buf_set_Some by lia. cbn. eexists. split; [done|]. split; [|done].
  apply NoDup_app in Hd as (_ & Hd1 & Hd). apply NoDup_app in Hd as (_ & Hd2 & Hd). apply NoDup_app in Hd as (_ & Hd3 & _).
  split; cbn; try done; [by rewrite length_insert|..].
  all: eapply (all_in_set _ i s); [eassumption| |lia| |done].
  all: first [apply Forall_forall; intros j Hj; apply Hr; set_solver | intros Hin].
  - apply (Hd1 i); [done|set_solver].
  - apply (Hd2 i); [done|set_solver].
  - apply (Hd3 i); [done|set_solver].
Qed.

Lemma limbo_of_held i p q h t : pool_ok n p q (i :: h) t -> pool_ok n p q h (i :: t).
Proof.
  intros []. split; try done.
  - rewrite <-po_perm0. cbn. do 2 f_equiv. by rewrite Permutation_middle.
  - by inversion po_held0.
Qed.

Lemma held_of_limbo i p q h t : p_state p !! Z.to_nat i = Some LD_BUSY -> pool_ok n p q h (i :: t) -> pool_ok n p q (i :: h) t.
Proof.
  intros Hs []. split; try done.
  - rewrite <-po_perm0. cbn. do 2 f_equiv. by rewrite Permutation_middle.
  - by constructor.
Qed.

Lemma push_free_ok i p q h t : p_state p !! Z.to_nat i = Some LD_FREE -> pool_ok n p q h (i :: t) ->
  exists p', push_free i p = Some p' /\ pool_ok n p' q h t /\ p_state p' = p_state p /\ p_epoch p' = p_epoch p /\ p_buf p' = p_buf p.
Proof.
  intros Hs P. pose proof (pool_count _ _ _ _ P) as Hc. pose proof (length_frees _ _ _ _ P) as Hl. cbn [length] in Hc.
  destruct P. unfold push_free. rewrite buf_set_Some by lia. cbn. eexists. split; [done|]. split; [|done].
  assert (Hu : u8 (p_free_n p + 1) = p_free_n p + 1) by (apply u8_small; unfold is_u8; lia).
  assert (E : take (Z.to_nat (p_free_n p + 1)) (<[Z.to_nat (p_free_n p):=i]> (p_free p)) = frees p ++ [i]).
  { replace (Z.to_nat (p_free_n p + 1)) with (S (Z.to_nat (p_free_n p))) by lia.
    rewrite (take_S_r _ _ i) by (apply list_lookup_insert_eq; lia). by rewrite take_insert_ge by lia. }
  split; unfold frees, all_in in *; cbn [p_free p_free_n p_state p_epoch p_buf p_q p_head p_tail]; rewrite ?Hu, ?E; try done; [by rewrite length_insert|lia|..].
  - rewrite <-po_perm0, <-app_assoc. f_equiv. cbn. by rewrite <-!Permutation_middle.
  - apply Forall_app. by split; [|constructor].
Qed.

Lemma release_ok i p q h t : pool_ok n p q h (i :: t) ->
  exists p', release i p = Some p' /\ pool_ok n p' q h t /\ p_state p' = <[Z.to_nat i:=LD_FREE]> (p_state p) /\
    p_epoch p' = p_epoch p /\ p_buf p' = p_buf p.
Proof.
  intros P. destruct (set_state_ok i LD_FREE _ _ _ _ P) as (p1 & E & P1 & Hs & He & Hb & _).
  assert (Hi : 0 <= i < Z.of_nat n) by (eapply pool_range; [exact P|set_solver]).
  destruct (push_free_ok i p1 q h t) as (p2 & E2 & P2 & Hs2 & He2 & Hb2); [|done|].
  - rewrite Hs. apply list_lookup_insert_eq. destruct P. lia.
  - exists p2. unfold release. rewrite E. cbn. rewrite E2. split_and!; [done|done|congruence..].
Qed.

Lemma claim_ok e p q h t : pool_ok n p q h t -> p_free_n p <> 0 ->
  exists i p', claim e p = Some (i, p') /\ pool_ok n p' q (i :: h) t /\ i ∉ q ++ h ++ t /\
    p_epoch p' = <[Z.to_nat i:=e]> (p_epoch p) /\ p_buf p' = p_buf p.
Proof.
  intros P Hne. pose proof (length_frees _ _ _ _ P) as Hl. pose proof (pool_nodup _ _ _ _ P) as Hnd.
  assert (exists fl i, frees p = fl ++ [i]) as (fl & i & Ef).
  { destruct (exists_last (l := frees p)) as (fl & i & E); [|by exists fl, i]. intros E. rewrite E in Hl. simpl in Hl. lia. }
  assert (Hi : 0 <= i < Z.of_nat n) by (eapply pool_range; [exact P|rewrite Ef; set_solver]).
  rewrite Ef, length_app in Hl. cbn [length] in Hl. pose proof P as [].
  assert (Hk : u8 (p_free_n p - 1) = p_free_n p - 1) by (apply u8_small; unfold is_u8; lia).
  assert (Hlen : length (p_free p) = S n) by done. assert (Hfree : p_free p = fl ++ i :: drop (Z.to_nat (p_free_n p)) (p_free p)).
  { rewrite <-(take_drop (Z.to_nat (p_free_n p)) (p_free p)) at 1. fold (frees p). by rewrite Ef, <-app_assoc. }
  set (p0 := Pool (p_buf p) (p_free p) (p_free_n p - 1) (p_q p) (p_head p) (p_tail p) (p_state p) (p_epoch p)).
  assert (E0 : frees p0 = fl). { unfold frees. cbn. rewrite Hfree. rewrite take_app_length' by lia. done. }
  assert (P0 : pool_ok n p0 q h (i :: t)).
  { split; try done; [unfold p0; cbn; lia| |].
    - rewrite E0, <-po_perm0, Ef, <-app_assoc. f_equiv. cbn. by rewrite <-!Permutation_middle.
    - rewrite E0. rewrite Ef in po_frees0. by apply Forall_app in po_frees0 as [? _]. }
  destruct (set_state_ok i LD_BUSY _ _ _ _ P0) as (p1 & E1 & P1 & Hs1 & He1 & Hb1 & Hn1 & Hf1).
  unfold claim. rewrite Hk. assert (p_free p !! Z.to_nat (p_free_n p - 1) = Some i) as ->.
  { rewrite Hfree. apply list_lookup_middle. lia. }
  cbn. fold p0. rewrite E1. cbn. unfold set_epoch. rewrite buf_set_Some by (destruct P1; lia). cbn.
  eexists _, _. split; [done|]. split; [|split; [|by rewrite He1]].
  - apply held_of_limbo; [cbn; rewrite Hs1; apply list_lookup_insert_eq; cbn; lia|].
    destruct P1. split; try done. cbn. by rewrite length_insert.
  - apply NoDup_app in Hnd as (_ & Hnd & _). apply Hnd. rewrite Ef. set_solver.
Qed.

Lemma enqueue_ok i p q h t : pool_ok n p q h (i :: t) ->
  exists p', enqueue (Z.of_nat n + 1) i p = Some p' /\ pool_ok n p' (q ++ [i]) h t /\ p_epoch p' = p_epoch p /\ p_buf p' = p_buf p.
Proof.
  intros P. pose proof (pool_count _ _ _ _ P) as Hc. cbn [length] in Hc.
  assert (Hi : 0 <= i < Z.of_nat n) by (eapply pool_range; [exact P|set_solver]).
  destruct (set_state_ok i LD_QUEUED _ _ _ _ P) as (p1 & E & P1 & Hs & He & Hb & _). unfold enqueue. rewrite E. cbn.
  pose proof P1 as []. pose proof (holds_ring_head _ _ _ _ _ po_ring0) as Hh. pose proof (hr_size _ _ _ _ _ po_ring0).
  rewrite buf_set_Some by lia. cbn. eexists. split; [done|]. split; [|done].
  rewrite u8_small by (unfold is_u8; pose proof (Z.mod_pos_bound (p_head p1 + 1) (Z.of_nat n + 1)); lia).
  split; try done.
  - cbn [frees p_free_n p_free]. rewrite <-po_perm0. unfold frees. cbn. f_equiv. rewrite <-app_assoc. f_equiv. cbn. by rewrite <-!Permutation_middle.
  - apply ring_push; [done|lia].
  - apply Forall_app. split; [done|]. constructor; [|done]. cbn. rewrite Hs. apply list_lookup_insert_eq. destruct P. lia.
Qed.

Lemma dequeue_ok i p q h t : pool_ok n p (i :: q) h t ->
  exists p', dequeue (Z.of_nat n + 1) p = Some (i, p') /\ pool_ok n p' q h (i :: t) /\ p_state p' = p_state p /\
    p_state p !! Z.to_nat i = Some LD_QUEUED /\ p_epoch p' = p_epoch p /\ p_buf p' = p_buf p.
Proof.
  intros []. unfold dequeue. rewrite (ring_first _ _ _ _ _ _ po_ring0). cbn. eexists. split; [done|].
  inversion_clear po_queued0 as [|? ? Hi Hq]. split; [|done]. pose proof (hr_tail _ _ _ _ _ po_ring0).
  rewrite u8_small by (unfold is_u8; pose proof (Z.mod_pos_bound (p_tail p + 1) (Z.of_nat n + 1)); lia).
  split; try done.
  - rewrite <-po_perm0. unfold frees. cbn. apply Permutation_app_head. by rewrite !app_assoc, <-Permutation_middle.
  - by apply ring_pop in po_ring0.
Qed.

Lemma pool_empty p q h t : pool_ok n p q h t -> p_head p = p_tail p <-> q = [].
Proof. intros []. by eapply ring_empty. Qed.

(** The two loops over a whole pool. *)
Lemma clear_ok p q h t : pool_ok n p q h t -> pool_ok n (clear_lists p) [] h (frees p ++ q ++ t).
Proof.
  intros []. split; try done; cbn [clear_lists p_free_n]; [lia| | |constructor|constructor].
  - rewrite <-po_perm0. unfold frees at 1. cbn. by rewrite (Permutation_app_comm h), <-!app_assoc, (Permutation_app_comm t).
  - apply (ring_nil _ _ 0); [lia|]. apply (hr_size _ _ _ _ _ po_ring0).
Qed.

Lemma init_loop_ok k i p : pool_ok n p [] [] (seqZ i (Z.of_nat k)) ->
  exists p', init_loop k i p = Some p' /\ pool_ok n p' [] [] [] /\ p_epoch p' = p_epoch p /\ p_buf p' = p_buf p.
Proof.
  revert i p. induction k as [|k IH]; intros i p P; cbn [init_loop]; [by exists p|].
  rewrite seqZ_cons in P by lia. replace (Z.pred (Z.of_nat (S k))) with (Z.of_nat k) in P by lia.
  destruct (release_ok i _ _ _ _ P) as (p1 & -> & P1 & _ & He1 & Hb1). cbn.
  destruct (IH _ _ P1) as (p2 & E & P2 & He2 & Hb2). exists p2. by rewrite Z.add_1_r, E, He2, Hb2.
Qed.

Lemma reclaim_loop_ok k i inuse p h : 0 <= inuse -> inuse + Z.of_nat k <= 255 -> 0 <= i ->
  pool_ok n p [] h (filter (.∉ h) (seqZ i (Z.of_nat k))) -> i + Z.of_nat k <= Z.of_nat n ->
  Forall (fun j => p_state p !! Z.to_nat j <> Some LD_BUSY) (filter (.∉ h) (seqZ i (Z.of_nat k))) ->
  exists p', reclaim_loop k i inuse p = Some (inuse + Z.of_nat (length (filter (.∈ h) (seqZ i (Z.of_nat k)))), p') /\
    pool_ok n p' [] h [] /\ p_epoch p' = p_epoch p /\ p_buf p' = p_buf p.
Proof.
  revert i inuse p. induction k as [|k IH]; intros i inuse p H0 H255 Hi P Hle Hst; cbn [reclaim_loop].
  { exists p. change (seqZ i (Z.of_nat 0)) with (@nil Z). cbn. by rewrite Z.add_0_r. }
  rewrite seqZ_cons in P, Hst |- * by lia. replace (Z.pred (Z.of_nat (S k))) with (Z.of_nat k) in * by lia.
  rewrite <-Z.add_1_r in *. rewrite !filter_cons in *. destruct (decide (i ∈ h)) as [Hin|Hnin].
  - rewrite decide_False in P, Hst by tauto.
    assert (Hs : p_state p !! Z.to_nat i = Some LD_BUSY).
    { destruct P. unfold all_in in po_held0. rewrite Forall_forall in po_held0. by apply po_held0. }
    rewrite Hs. cbn. rewrite decide_False by done. cbn. rewrite Hs. cbn. rewrite decide_False by done. rewrite u8_small by (unfold is_u8; lia).
    destruct (IH (i + 1) (inuse + 1) p) as (p' & E & Hp); [lia|lia|lia|done|lia|done|]. exists p'. rewrite E. cbn [length].
    split; [|done]. do 2 f_equal. lia.
  - rewrite decide_True in P, Hst by done. inversion_clear Hst as [|? ? Hnb Hst'].
    destruct (lookup_lt_is_Some_2 (p_state p) (Z.to_nat i)) as [s Hs]; [destruct P; lia|]. rewrite Hs. cbn.
    assert (Hpre : exists p1, (if decide (s = LD_QUEUED) then set_state i LD_FREE p else Some p) = Some p1 /\
      pool_ok n p1 [] h (i :: filter (.∉ h) (seqZ (i + 1) (Z.of_nat k))) /\ p_state p1 !! Z.to_nat i = Some LD_FREE /\
      (forall j, j <> i -> 0 <= j -> p_state p1 !! Z.to_nat j = p_state p !! Z.to_nat j) /\ p_epoch p1 = p_epoch p /\ p_buf p1 = p_buf p).
    { destruct (decide (s = LD_QUEUED)) as [->|].
      - destruct (set_state_ok i LD_FREE _ _ _ _ P) as (p1 & E & P1 & Hs1 & He1 & Hb1 & _). exists p1. rewrite Hs1. split_and!; try done.
        + apply list_lookup_insert_eq. destruct P. lia.
        + intros j Hj Hj0. apply list_lookup_insert_ne. lia.
      - exists p. split_and!; try done. rewrite Hs. destruct s; [done|by destruct Hnb|done]. }
    destruct Hpre as (p1 & -> & P1 & Hs1 & Hoth & He1 & Hb1). cbn. rewrite Hs1. cbn. rewrite decide_True by done.
    destruct (push_free_ok i _ _ _ _ Hs1 P1) as (p2 & -> & P2 & Hs2 & He2 & Hb2). cbn.
    destruct (IH (i + 1) inuse p2) as (p' & E & P' & He' & Hb'); [lia|lia|lia|done|lia| |].
    + rewrite Hs2. eapply Forall_impl; [|intros j Hj; exact Hj]. rewrite Forall_forall in Hst' |- *. intros j Hj.
      rewrite Hoth; [by apply Hst'|..]; apply list_elem_of_filter in Hj as [_ Hj]; apply elem_of_seqZ in Hj; lia.
    + exists p'. rewrite E. split_and!; [done|done|congruence..].
Qed.

Lemma reclaim_ok p q h : pool_ok n p q h [] ->
  exists p', reclaim_loop n 0 0 (clear_lists p) = Some (Z.of_nat (length h), p') /\ pool_ok n p' [] h [] /\
    p_epoch p' = p_epoch p /\ p_buf p' = p_buf p.
Proof.
  intros P. pose proof (clear_ok _ _ _ _ P) as Pc. rewrite app_nil_r in Pc. pose proof (pool_nodup _ _ _ _ P) as Hnd. rewrite app_nil_r in Hnd.
  pose proof (po_perm _ _ _ _ _ P) as Hperm. rewrite app_nil_r in Hperm.
  rewrite app_assoc in Hperm, Hnd. apply NoDup_app in Hnd as (_ & Hdisj & Hnh).
  assert (Hout : filter (.∉ h) (seqZ 0 (Z.of_nat n)) ≡ₚ frees p ++ q).
  { rewrite <-Hperm, filter_app, (filter_none _ h), app_nil_r by tauto. by rewrite filter_all. }
  assert (Hin : filter (.∈ h) (seqZ 0 (Z.of_nat n)) ≡ₚ h).
  { rewrite <-Hperm, filter_app, (filter_none _ (_ ++ _)) by done. by rewrite filter_all. }
  destruct (reclaim_loop_ok n 0 0 (clear_lists p) h) as (p' & E & P' & He & Hb); [lia|lia|lia| |lia| |].
  - eapply pool_ok_perm; [reflexivity| |exact Pc]. by rewrite Hout.
  - rewrite Hout. destruct P. apply Forall_app. split; [eapply Forall_impl; [exact po_frees0|]|eapply Forall_impl; [exact po_queued0|]];
      cbn; intros j ->; done.
  - exists p'. rewrite E. rewrite (Permutation_length Hin). done.
Qed.
End pool.

(** ** The threads

    What each thread in the middle of an operation holds.  [s_gen], [r_gen]: the
    number of resets there had been when the buffer was claimed. *)

Record sender : Type := Sender { s_idx : Z; s_gen : Z; s_chan : Z; s_data : list Z; s_copied : bool }.
(** [r_mem]: what the frame reader sees in its buffer; [r_commit]: the arguments
    of a commit whose CRC has been computed, and the outcome. *)
Record reader : Type := Reader { r_idx : Z; r_gen : Z; r_mem : list Z; r_commit : option (Z * Z * bool) }.
(** [k_len]: the body's length when the frame was taken from the queue. *)
Record keeper : Type := Keeper { k_idx : Z; k_body : list Z; k_len : Z }.
(** The frame taken. *)
Definition k_frame (k : keeper) : list Z := take (Z.to_nat (k_len k)) (k_body k).

Definition s_frame (s : sender) : list Z := s_chan s :: 0 :: s_data s.

(** A buffer's content and epoch, as the predicates below use them. *)
Definition same_at (p p' : pool) (i : Z) : Prop :=
  p_buf p' !! Z.to_nat i = p_buf p !! Z.to_nat i /\ p_epoch p' !! Z.to_nat i = p_epoch p !! Z.to_nat i.

Definition bodies_ok (p : pool) : Prop := Forall (fun b => length (body b) = Z.to_nat LINK_DATA_BODY_MAX) (p_buf p).

(** The buffer [i] holds the frame [f], ready for the wire. *)
Definition holds_frame (p : pool) (i : Z) (f : list Z) : Prop :=
  exists b, p_buf p !! Z.to_nat i = Some b /\ len b = Z.of_nat (length f) /\ take (length f) (body b) = f /\ crc b = erpc_crc16 f.

Definition holds_fresh (e : Z) (p : pool) (i : Z) (f : list Z) : Prop :=
  holds_frame p i f /\ p_epoch p !! Z.to_nat i = Some e /\ (2 <= length f <= Z.to_nat LINK_DATA_BODY_MAX)%nat.

Definition sender_ok (p : pool) (s : sender) : Prop :=
  p_epoch p !! Z.to_nat (s_idx s) = Some (u8 (s_gen s)) /\ (length (s_data s) <= Z.to_nat LINK_DATA_PAYLOAD_MAX)%nat /\
  (s_copied s = true -> holds_frame p (s_idx s) (s_frame s)).

Definition commit_ok (mem : list Z) (c : Z * Z * bool) : Prop :=
  let '(n, want, ok) := c in
  n <= LINK_DATA_BODY_MAX /\ ok = (LINK_DATA_HDR <=? n) && (erpc_crc16 (take (Z.to_nat n) mem) =? want).

Definition reader_ok (p : pool) (r : reader) : Prop :=
  p_epoch p !! Z.to_nat (r_idx r) = Some (u8 (r_gen r)) /\ (exists b, p_buf p !! Z.to_nat (r_idx r) = Some b /\ body b = r_mem r) /\
  (forall c, r_commit r = Some c -> commit_ok (r_mem r) c).

Definition keeper_ok (p : pool) (k : keeper) : Prop := exists b, p_buf p !! Z.to_nat (k_idx k) = Some b /\ body b = k_body k /\ len b = k_len k.

(** Before the first call the free lists are empty, so no buffer is anywhere. *)
Definition unborn (ready : bool) (n : nat) : list Z := if ready then [] else seqZ 0 (Z.of_nat n).

Record tx_inv (ready : bool) (p : pool) (S : list sender) (fs : list (list Z)) (q : list Z) : Prop := {
  ti_pool : pool_ok LINK_DATA_TX_BUFS p q (s_idx <$> S) (unborn ready LINK_DATA_TX_BUFS);
  ti_bodies : bodies_ok p;
  ti_queue : Forall2 (holds_frame p) q fs;
  ti_senders : Forall (sender_ok p) S;
}.

Record rx_inv (ready : bool) (e inuse : Z) (p : pool) (R : list reader) (K : list keeper) (fs : list (list Z)) (q : list Z) : Prop := {
  ri_pool : pool_ok LINK_DATA_RX_BUFS p q ((r_idx <$> R) ++ (k_idx <$> K)) (unborn ready LINK_DATA_RX_BUFS);
  ri_bodies : bodies_ok p;
  ri_queue : Forall2 (holds_fresh e p) q fs;
  ri_readers : Forall (reader_ok p) R;
  ri_keepers : Forall (keeper_ok p) K;
  ri_inuse : inuse = Z.of_nat (length q + length R + length K);
}.

Lemma holds_frame_same p p' i f : same_at p p' i -> holds_frame p i f -> holds_frame p' i f.
Proof. intros [Hb _] (b & H & Hr). exists b. by rewrite Hb. Qed.
Lemma holds_fresh_same e p p' i f : same_at p p' i -> holds_fresh e p i f -> holds_fresh e p' i f.
Proof. intros Hs (H & He & Hl). split_and!; [by eapply holds_frame_same| |lia..]. destruct Hs as [_ E]. by rewrite E. Qed.
Lemma sender_ok_same p p' s : same_at p p' (s_idx s) -> sender_ok p s -> sender_ok p' s.
Proof. intros Hs (He & Hl & Hc). split_and!; [by rewrite (proj2 Hs)|done|]. intros H. by eapply holds_frame_same, Hc. Qed.
Lemma reader_ok_same p p' r : same_at p p' (r_idx r) -> reader_ok p r -> reader_ok p' r.
Proof. intros [Hb He] (H & Hm & Hc). split_and!; [by rewrite He|by rewrite Hb|done]. Qed.
Lemma keeper_ok_same p p' k : same_at p p' (k_idx k) -> keeper_ok p k -> keeper_ok p' k.
Proof. intros [Hb _] (b & H). exists b. by rewrite Hb. Qed.

Lemma same_all p p' i : p_buf p' = p_buf p -> p_epoch p' = p_epoch p -> same_at p p' i.
Proof. intros Hb He. split; congruence. Qed.

(** An update at [i] is not seen at the other indices in use. *)
Lemma same_ne p p' i j e : 0 <= i -> 0 <= j -> i <> j -> p_buf p' = p_buf p -> p_epoch p' = <[Z.to_nat i:=e]> (p_epoch p) -> same_at p p' j.
Proof. intros Hi Hj Hne Hb He. split; [congruence|]. rewrite He. apply list_lookup_insert_ne. lia. Qed.
Lemma same_ne_buf p p' i j b : 0 <= i -> 0 <= j -> i <> j -> p_epoch p' = p_epoch p -> p_buf p' = <[Z.to_nat i:=b]> (p_buf p) -> same_at p p' j.
Proof. intros Hi Hj Hne He Hb. split; [|congruence]. rewrite Hb. apply list_lookup_insert_ne. lia. Qed.

Lemma Forall2_same (P : pool -> Z -> list Z -> Prop) p p' q fs :
  (forall i f, same_at p p' i -> P p i f -> P p' i f) -> (forall i, i ∈ q -> same_at p p' i) -> Forall2 (P p) q fs -> Forall2 (P p') q fs.
Proof. intros Hm Hs H. induction H; constructor; [apply Hm; [apply Hs; set_solver|done]|]. apply IHForall2. intros; apply Hs. set_solver. Qed.

Lemma Forall_same {T} (ix : T -> Z) (P : pool -> T -> Prop) p p' l :
  (forall x, same_at p p' (ix x) -> P p x -> P p' x) -> (forall i, i ∈ ix <$> l -> same_at p p' i) -> Forall (P p) l -> Forall (P p') l.
Proof.
  intros Hm Hs. rewrite !Forall_forall. intros H x Hx. apply Hm; [|by apply H]. apply Hs. by apply list_elem_of_fmap_2.
Qed.

(** Both invariants see the pool only through [pool_ok] and the buffers in use. *)
Lemma tx_inv_pool ready ready' p p' S S' fs q : tx_inv ready p S fs q ->
  pool_ok LINK_DATA_TX_BUFS p' q (s_idx <$> S') (unborn ready' LINK_DATA_TX_BUFS) -> bodies_ok p' ->
  (forall i, i ∈ q -> same_at p p' i) -> Forall (fun s => (s ∈ S /\ same_at p p' (s_idx s)) \/ sender_ok p' s) S' ->
  tx_inv ready' p' S' fs q.
Proof.
  intros [P B Q HS] P' B' Hs HS'. split; [done|done|..].
  - eapply (Forall2_same holds_frame); [by intros; eapply holds_frame_same|done|done].
  - rewrite Forall_forall in HS, HS' |- *. intros s Hin. destruct (HS' s Hin) as [[H0 H1]|]; [|done]. by eapply sender_ok_same, HS.
Qed.

Lemma rx_inv_pool ready ready' e inuse inuse' p p' R R' K K' fs q : rx_inv ready e inuse p R K fs q ->
  pool_ok LINK_DATA_RX_BUFS p' q ((r_idx <$> R') ++ (k_idx <$> K')) (unborn ready' LINK_DATA_RX_BUFS) -> bodies_ok p' ->
  (forall i, i ∈ q -> same_at p p' i) ->
  Forall (fun r => (r ∈ R /\ same_at p p' (r_idx r)) \/ reader_ok p' r) R' ->
  Forall (fun k => (k ∈ K /\ same_at p p' (k_idx k)) \/ keeper_ok p' k) K' ->
  inuse' = Z.of_nat (length q + length R' + length K') -> rx_inv ready' e inuse' p' R' K' fs q.
Proof.
  intros [P B Q HR HK _] P' B' Hs HR' HK' Hi. split; [done|done|..|done].
  - eapply (Forall2_same (holds_fresh e)); [by intros; eapply holds_fresh_same|done|done].
  - rewrite Forall_forall in HR, HR' |- *. intros r Hin. destruct (HR' r Hin) as [[H0 H1]|]; [|done]. by eapply reader_ok_same, HR.
  - rewrite Forall_forall in HK, HK' |- *. intros k Hin. destruct (HK' k Hin) as [[H0 H1]|]; [|done]. by eapply keeper_ok_same, HK.
Qed.

(** The invariants do not see the order in which the threads are listed. *)
Lemma tx_inv_perm ready p S S' fs q : S ≡ₚ S' -> tx_inv ready p S fs q -> tx_inv ready p S' fs q.
Proof. intros HS []. split; try done; [|by rewrite <-HS]. eapply (pool_ok_perm _ _ _ (s_idx <$> S)); [by rewrite HS|reflexivity|done]. Qed.

Lemma rx_inv_perm ready e n p R R' K K' fs q : R ≡ₚ R' -> K ≡ₚ K' -> rx_inv ready e n p R K fs q -> rx_inv ready e n p R' K' fs q.
Proof.
  intros HR HK []. split; try done; [|by rewrite <-HR|by rewrite <-HK|by rewrite <-HR, <-HK].
  eapply (pool_ok_perm _ _ _ ((r_idx <$> R) ++ (k_idx <$> K))); [by rewrite HR, HK|reflexivity|done].
Qed.

Lemma bodies_lookup p i b : bodies_ok p -> p_buf p !! i = Some b -> length (body b) = Z.to_nat LINK_DATA_BODY_MAX.
Proof. intros B Hb. unfold bodies_ok in B. rewrite Forall_lookup in B. by eapply B. Qed.

Lemma set_buf_ok n i b p q h t : pool_ok n p q h t -> 0 <= i < Z.of_nat n ->
  exists p', set_buf i b p = Some p' /\ pool_ok n p' q h t /\ p_buf p' = <[Z.to_nat i:=b]> (p_buf p) /\
    p_epoch p' = p_epoch p /\ p_state p' = p_state p.
Proof.
  intros [] Hi. unfold set_buf. rewrite buf_set_Some by lia. cbn. eexists. split; [done|]. split; [|done].
  split; try done. cbn. by rewrite length_insert.
Qed.

Lemma bodies_set p p' i b : bodies_ok p -> p_buf p' = <[i:=b]> (p_buf p) -> length (body b) = Z.to_nat LINK_DATA_BODY_MAX -> bodies_ok p'.
Proof. intros B Hb Hl. unfold bodies_ok. rewrite Hb. by apply Forall_insert. Qed.

Lemma bodies_same p p' : p_buf p' = p_buf p -> bodies_ok p -> bodies_ok p'.
Proof. unfold bodies_ok. by intros ->. Qed.

(** The buffer held by one is not another's. *)
Lemma held_distinct n p q i h t : (n <= 250)%nat -> pool_ok n p q (i :: h) t -> 0 <= i < Z.of_nat n /\
  forall j, j ∈ q ++ h ++ t -> i <> j /\ 0 <= j.
Proof.
  intros Hn P. pose proof (pool_nodup _ _ _ _ _ P) as Hd. apply NoDup_app in Hd as (_ & _ & Hd).
  assert (Hr : forall j, j ∈ q ++ (i :: h) ++ t -> 0 <= j < Z.of_nat n) by (intros; eapply pool_range; [exact Hn|exact P|set_solver]).
  cbn [app] in *.
  assert (Hp : q ++ i :: h ++ t ≡ₚ i :: q ++ h ++ t) by (symmetry; apply Permutation_middle). rewrite Hp in Hd. apply NoDup_cons in Hd as [Hni _].
  split; [apply Hr; set_solver|]. intros j Hj. split; [by intros ->|]. apply (Hr j). rewrite Hp. set_solver.
Qed.

(** ** Transmit *)

Notation TXN := LINK_DATA_TX_BUFS.
Notation RXN := LINK_DATA_RX_BUFS.

Lemma small_pools : (TXN <= 250)%nat /\ (RXN <= 250)%nat.
Proof. unfold TXN, RXN. lia. Qed.

Lemma tx_claim p S fs q g c d : tx_inv true p S fs q -> p_free_n p <> 0 -> (length d <= Z.to_nat LINK_DATA_PAYLOAD_MAX)%nat ->
  exists i p', claim (u8 g) p = Some (i, p') /\ tx_inv true p' (Sender i g c d false :: S) fs q.
Proof.
  intros T Hne Hd. destruct (claim_ok TXN (proj1 small_pools) (u8 g) p _ _ _ (ti_pool _ _ _ _ _ T) Hne) as (i & p' & E & P' & Hni & He & Hb).
  exists i, p'. split; [done|]. destruct (held_distinct _ _ _ _ _ _ (proj1 small_pools) P') as [Hi Hoth].
  assert (Hs : forall j, j ∈ q ++ (s_idx <$> S) -> same_at p p' j).
  { intros j Hj. destruct (Hoth j); [set_solver|]. eapply same_ne; [apply Hi|..]; done. }
  eapply (tx_inv_pool true true p p' S); [done|done| |set_solver|].
  - eapply bodies_same, T. done.
  - constructor.
    + right. split_and!; [|done|done]. cbn. rewrite He. apply list_lookup_insert_eq. destruct T as [[] _ _ _]. lia.
    + apply Forall_forall. intros s Hs0. left. split; [done|]. apply Hs, elem_of_app. right. by apply list_elem_of_fmap_2.
Qed.

(** The others' views when the buffer of the first sender changes. *)
Lemma tx_update p p' s s' S fs q b : tx_inv true p (s :: S) fs q -> pool_ok TXN p' q (s_idx <$> s :: S) [] ->
  p_epoch p' = p_epoch p -> p_buf p' = <[Z.to_nat (s_idx s):=b]> (p_buf p) -> length (body b) = Z.to_nat LINK_DATA_BODY_MAX ->
  s_idx s' = s_idx s -> sender_ok p' s' -> tx_inv true p' (s' :: S) fs q.
Proof.
  intros T P' He Hb Hl Hix Hok. destruct (held_distinct _ _ _ _ _ _ (proj1 small_pools) P') as [Hi Hoth].
  assert (Hs : forall j, j ∈ q ++ (s_idx <$> S) -> same_at p p' j).
  { intros j Hj. destruct (Hoth j); [set_solver|]. eapply same_ne_buf; [apply Hi|..]; done. }
  eapply (tx_inv_pool true true p p' (s :: S)); [done| |eapply bodies_set; [apply T|done|done]|set_solver|].
  - cbn. by rewrite Hix.
  - constructor; [by right|]. apply Forall_forall. intros s0 Hs0. left. split; [set_solver|]. apply Hs, elem_of_app. right. by apply list_elem_of_fmap_2.
Qed.

Definition copied (s : sender) : sender := Sender (s_idx s) (s_gen s) (s_chan s) (s_data s) true.

Lemma tx_fill {consumer} (l : link consumer) s S fs q : tx_inv true (ld_tx l) (s :: S) fs q ->
  exists p', send_fill (s_idx s) (s_chan s) (s_data s) l = Some (set_tx p' l) /\ tx_inv true p' (copied s :: S) fs q.
Proof.
  intros T. pose proof T as [P B _ HS]. inversion_clear HS as [|? ? (He & Hl & _) _].
  destruct (held_distinct _ _ _ _ _ _ (proj1 small_pools) P) as [Hi _].
  destruct (lookup_lt_is_Some_2 (p_buf (ld_tx l)) (Z.to_nat (s_idx s))) as [b Hb]; [destruct P; lia|].
  pose proof (bodies_lookup _ _ _ B Hb) as Hbl. unfold send_fill. rewrite Hb. cbn [mbind option_bind].
  assert (Hmax : (length (s_frame s) <= length (body b))%nat).
  { rewrite Hbl. unfold s_frame, LINK_DATA_BODY_MAX, LINK_DATA_HDR, LINK_DATA_PAYLOAD_MAX in *. cbn [length]. lia. }
  unfold store. fold (s_frame s). rewrite decide_True by (simpl; exact Hmax). cbn [mbind option_bind].
  assert (Hn : u16 (LINK_DATA_HDR + Z.of_nat (length (s_data s))) = Z.of_nat (length (s_frame s))).
  { unfold s_frame, LINK_DATA_HDR, LINK_DATA_PAYLOAD_MAX in *. cbn [length]. rewrite u16_small by (unfold is_u16; lia). lia. }
  rewrite Hn, Nat2Z.id. assert (Ht : take (length (s_frame s)) (splice 0 (s_frame s) (body b)) = s_frame s).
  { unfold splice. rewrite take_0. cbn [app]. apply take_app_length. }
  rewrite Ht. set (b' := Buf _ _ _). destruct (set_buf_ok TXN (s_idx s) b' _ _ _ _ P) as (p' & -> & P' & Hb' & He' & _); [lia|].
  cbn [mbind option_bind]. exists p'. split; [done|].
  eapply (tx_update (ld_tx l) p' s (copied s)); [done|done|done|done|by unfold b'; cbn; rewrite length_splice|done|].
  split_and!; [by rewrite He'|done|]. intros _. exists b'. split_and!; [|done|done|done].
  rewrite Hb'. apply list_lookup_insert_eq. destruct P. cbn in *. lia.
Qed.

(** Dropping the first sender, its buffer going elsewhere. *)
Lemma tx_drop_head p p' s S fs q q' fs' : tx_inv true p (s :: S) fs q -> pool_ok TXN p' q' (s_idx <$> S) [] ->
  p_epoch p' = p_epoch p -> p_buf p' = p_buf p -> Forall2 (holds_frame p) q' fs' -> tx_inv true p' S fs' q'.
Proof.
  intros [P B Q HS] P' He Hb HQ. inversion_clear HS. split; [done|by eapply bodies_same| |].
  - eapply (Forall2_same holds_frame); [by intros; eapply holds_frame_same|intros; by apply same_all|done].
  - eapply (Forall_same s_idx); [by intros; eapply sender_ok_same|intros; by apply same_all|done].
Qed.

(** Epochs compare as the numbers of resets do, modulo their width. *)
Lemma eqb_u8 a g : (u8 a =? u8 g) = ((g - a) mod 256 =? 0).
Proof.
  apply eq_bool_prop_intro. rewrite !Is_true_true, !Z.eqb_eq. unfold u8. split; intros E.
  - rewrite Zminus_mod, E, Z.sub_diag. done.
  - rewrite <-(Z.sub_add a g), Z.add_mod, E, Z.add_0_l, Z.mod_mod; done.
Qed.

Lemma tx_commit {consumer} (l : link consumer) s S fs q g : tx_inv true (ld_tx l) (s :: S) fs q -> s_copied s = true -> ld_epoch l = u8 g ->
  exists rc l' p' q', send_commit (s_idx s) (Z.of_nat (length (s_data s))) l = Some (rc, l') /\ l' = set_ctr (ld_ctr l') (set_tx p' l) /\
    ((rc = 0 /\ (g - s_gen s) mod 256 = 0 /\ q' = q ++ [s_idx s] /\ tx_inv true p' S (fs ++ [s_frame s]) q') \/
     (rc = -1 /\ (g - s_gen s) mod 256 <> 0 /\ q' = q /\ tx_inv true p' S fs q')).
Proof.
  intros T Hc Hg. pose proof T as [P B Q HS]. inversion_clear HS as [|? ? (He & Hl & Hf) _]. specialize (Hf Hc).
  unfold send_commit. rewrite He. cbn [mbind option_bind]. rewrite Hg. cbn [fmap list_fmap] in P. apply limbo_of_held in P.
  rewrite eqb_u8. destruct (Z.eqb_spec ((g - s_gen s) mod 256) 0) as [E|E]; cbn [negb].
  - destruct (enqueue_ok TXN (proj1 small_pools) (s_idx s) _ _ _ _ P) as (p' & E1 & P' & He' & Hb').
    change (LD_TX_Q_CAP) with (Z.of_nat TXN + 1). rewrite E1. cbn [mbind option_bind].
    eexists 0, _, p', _. split; [done|]. split; [done|]. left. split_and!; [done|done|done|].
    eapply tx_drop_head; [done|exact P'|done|done|]. apply Forall2_app; [done|]. by repeat constructor.
  - destruct (release_ok TXN (proj1 small_pools) (s_idx s) _ _ _ _ P) as (p' & E1 & P' & _ & He' & Hb').
    rewrite E1. cbn [mbind option_bind]. eexists (-1), _, p', q. split; [done|]. split; [done|]. right. split_and!; [done|done|done|].
    by eapply tx_drop_head.
Qed.

Lemma tx_peek {consumer} (l : link consumer) ready S fs q : tx_inv ready (ld_tx l) S fs q ->
  match fs with
  | [] => link_data_tx_peek l = Some None
  | f :: _ => exists i q', q = i :: q' /\ 0 <= i < Z.of_nat TXN /\ link_data_tx_peek l = Some (Some (i, Z.of_nat (length f), erpc_crc16 f)) /\
      Z.of_nat (length f) <= LINK_DATA_BODY_MAX
  end.
Proof.
  intros [P B Q _]. unfold link_data_tx_peek. pose proof (pool_empty _ _ _ _ _ P) as He. destruct Q as [|i f q fs (b & Hb & Hl & Ht & Hc) _].
  - by rewrite (proj2 He eq_refl), Z.eqb_refl.
  - rewrite (proj2 (Z.eqb_neq _ _)) by (intros E; by apply He in E). exists i, q. split; [done|].
    split; [eapply (pool_range _ (proj1 small_pools)); [exact P|set_solver]|].
    destruct P. rewrite (ring_first _ _ _ _ _ _ po_ring0). cbn. rewrite Hb. cbn. rewrite Hl, Hc. split; [done|].
    pose proof (bodies_lookup _ _ _ B Hb) as Hbl. apply (f_equal length) in Ht. rewrite length_take in Ht.
    unfold LINK_DATA_BODY_MAX, LINK_DATA_HDR, LINK_DATA_PAYLOAD_MAX in *. lia.
Qed.

(** A read through a pointer to the head of the queue is of the head frame. *)
Lemma tx_read_head {consumer} (l : link consumer) ready S f fs i q off k : tx_inv ready (ld_tx l) S (f :: fs) (i :: q) ->
  (off + k <= length f)%nat -> tx_read i off k l = Some (slice off k f).
Proof.
  intros [P B Q _] Hk. apply Forall2_cons in Q as [(b & Hb & Hl & Ht & Hc) _]. unfold tx_read. rewrite Hb. cbn [mbind option_bind].
  assert (Hlen : (length f <= length (body b))%nat) by (apply (f_equal length) in Ht; rewrite length_take in Ht; lia).
  rewrite decide_True by lia. f_equal. rewrite <-Ht. unfold slice. by rewrite !take_drop_commute, take_take, Nat.min_l by lia.
Qed.

(** A read through any pointer into the pool stays inside it. *)
Lemma tx_read_total {consumer} (l : link consumer) ready S fs q i off k : tx_inv ready (ld_tx l) S fs q -> 0 <= i < Z.of_nat TXN ->
  Z.of_nat (off + k) <= LINK_DATA_BODY_MAX -> is_Some (tx_read i off k l).
Proof.
  intros [P B _ _] Hi Hk. unfold tx_read. destruct (lookup_lt_is_Some_2 (p_buf (ld_tx l)) (Z.to_nat i)) as [b Hb]; [destruct P; lia|].
  rewrite Hb. cbn [mbind option_bind]. rewrite decide_True; [by eexists|]. rewrite (bodies_lookup _ _ _ B Hb). lia.
Qed.

Lemma tx_pop {consumer} (l : link consumer) ready S fs q : tx_inv ready (ld_tx l) S fs q ->
  exists p', link_data_tx_pop l = Some (set_tx p' l) /\ tx_inv ready p' S (tl fs) (tl q).
Proof.
  intros T. pose proof T as [P B Q HS]. unfold link_data_tx_pop. pose proof (pool_empty _ _ _ _ _ P) as He. destruct Q as [|i f q fs Hf Q].
  - rewrite (proj2 He eq_refl), Z.eqb_refl. exists (ld_tx l). by destruct l.
  - rewrite (proj2 (Z.eqb_neq _ _)) by (intros E; by apply He in E).
    destruct (dequeue_ok TXN (proj1 small_pools) i _ _ _ _ P) as (p1 & E1 & P1 & Hs1 & Hst & He1 & Hb1).
    change (LD_TX_Q_CAP) with (Z.of_nat TXN + 1). rewrite E1. cbn. rewrite Hs1, Hst. cbn. rewrite decide_False by done.
    destruct (release_ok TXN (proj1 small_pools) i _ _ _ _ P1) as (p2 & E2 & P2 & _ & He2 & Hb2). rewrite E2. cbn.
    exists p2. split; [done|]. split; [done|apply (bodies_same (ld_tx l)); [congruence|done]| |].
    + eapply (Forall2_same holds_frame (ld_tx l)); [by intros; eapply holds_frame_same|intros; apply same_all; congruence|done].
    + eapply (Forall_same s_idx _ (ld_tx l)); [by intros; eapply sender_ok_same|intros; apply same_all; congruence|done].
Qed.

(** ** Receive *)

Lemma rx_claim e n p R K fs q g : rx_inv true e n p R K fs q -> e = u8 g -> p_free_n p <> 0 ->
  exists i p' b, claim e p = Some (i, p') /\ p_buf p' !! Z.to_nat i = Some b /\ rx_inv true e (n + 1) p' (Reader i g (body b) None :: R) K fs q.
Proof.
  intros T He Hne. pose proof T as [P B _ _ _ Hin].
  destruct (claim_ok RXN (proj2 small_pools) e p _ _ _ P Hne) as (i & p' & E & P' & Hni & Hep & Hb).
  destruct (held_distinct _ _ _ _ _ _ (proj2 small_pools) P') as [Hi Hoth].
  destruct (lookup_lt_is_Some_2 (p_buf p') (Z.to_nat i)) as [b Hbi]; [destruct P'; lia|].
  exists i, p', b. split; [done|]. split; [done|].
  assert (Hs : forall j, j ∈ q ++ (r_idx <$> R) ++ (k_idx <$> K) -> same_at p p' j).
  { intros j Hj. destruct (Hoth j); [set_solver|]. eapply same_ne; [apply Hi|..]; done. }
  eapply (rx_inv_pool true true e n _ p p' R _ K); [done|done|by apply (bodies_same p)|set_solver| | |cbn [length]; lia].
  - constructor.
    + right. split_and!; [|by exists b|done]. cbn. rewrite Hep, <-He. apply list_lookup_insert_eq. destruct P. lia.
    + apply Forall_forall. intros r Hr. left. split; [done|]. apply Hs. apply elem_of_app; right. apply elem_of_app; left. by apply list_elem_of_fmap_2.
  - apply Forall_forall. intros k Hk. left. split; [done|]. apply Hs. apply elem_of_app; right. apply elem_of_app; right. by apply list_elem_of_fmap_2.
Qed.

Lemma rx_update e n p p' r r' R K fs q b : rx_inv true e n p (r :: R) K fs q -> pool_ok RXN p' q ((r_idx <$> r :: R) ++ (k_idx <$> K)) [] ->
  p_epoch p' = p_epoch p -> p_buf p' = <[Z.to_nat (r_idx r):=b]> (p_buf p) -> length (body b) = Z.to_nat LINK_DATA_BODY_MAX ->
  r_idx r' = r_idx r -> reader_ok p' r' -> rx_inv true e n p' (r' :: R) K fs q.
Proof.
  intros T P' He Hb Hl Hix Hok. destruct (held_distinct _ _ _ _ _ _ (proj2 small_pools) P') as [Hi Hoth].
  assert (Hs : forall j, j ∈ q ++ (r_idx <$> R) ++ (k_idx <$> K) -> same_at p p' j).
  { intros j Hj. destruct (Hoth j); [set_solver|]. eapply same_ne_buf; [apply Hi|..]; done. }
  eapply (rx_inv_pool true true e n n p p' (r :: R) _ K); [done| |eapply bodies_set; [apply T|done|done]|set_solver| | |].
  - cbn. by rewrite Hix.
  - constructor; [by right|]. apply Forall_forall. intros x Hx. left. split; [set_solver|].
    apply Hs. apply elem_of_app; right. apply elem_of_app; left. by apply list_elem_of_fmap_2.
  - apply Forall_forall. intros k Hk. left. split; [done|]. apply Hs. apply elem_of_app; right. apply elem_of_app; right. by apply list_elem_of_fmap_2.
  - destruct T. done.
Qed.

Definition filled (off : nat) (d : list Z) (r : reader) : reader := Reader (r_idx r) (r_gen r) (splice off d (r_mem r)) None.

Lemma rx_fill_ok {consumer} (l : link consumer) e n r R K fs q off d : rx_inv true e n (ld_rx l) (r :: R) K fs q ->
  (off + length d <= Z.to_nat LINK_DATA_BODY_MAX)%nat ->
  exists p', rx_fill (r_idx r) off d l = Some (set_rx p' l) /\ rx_inv true e n p' (filled off d r :: R) K fs q.
Proof.
  intros T Hd. pose proof T as [P B _ HR _ _]. apply Forall_cons in HR as [(Hep & (b & Hb & Hm) & _) _].
  destruct (held_distinct _ _ _ _ _ _ (proj2 small_pools) P) as [Hi _]. pose proof (bodies_lookup _ _ _ B Hb) as Hbl.
  unfold rx_fill. rewrite Hb. cbn. unfold store. rewrite decide_True by (rewrite Hbl; done). cbn. set (b' := Buf _ _ _).
  destruct (set_buf_ok RXN (r_idx r) b' _ _ _ _ P) as (p' & -> & P' & Hb' & He' & _); [done|]. cbn. exists p'. split; [done|].
  eapply (rx_update e n (ld_rx l) p' r); [done|done|done|done|unfold b'; cbn; by rewrite length_splice by (rewrite Hbl; done)|done|].
  split_and!; [by rewrite He'| |done]. exists b'. split; [|unfold b'; cbn; by rewrite Hm].
  rewrite Hb'. apply list_lookup_insert_eq. destruct P. cbn in *. lia.
Qed.

Definition checked (c : Z * Z * bool) (r : reader) : reader := Reader (r_idx r) (r_gen r) (r_mem r) (Some c).

Lemma rx_check {consumer} (l : link consumer) e n r R K fs q m want : rx_inv true e n (ld_rx l) (r :: R) K fs q -> m <= LINK_DATA_BODY_MAX ->
  exists ok, commit_check (r_idx r) m want l = Some ok /\ rx_inv true e n (ld_rx l) (checked (m, want, ok) r :: R) K fs q.
Proof.
  intros T Hmax. pose proof T as [P B Q HR HK Hn]. apply Forall_cons in HR as [(Hep & (b & Hb & Hm) & _) HR'].
  unfold commit_check. exists ((LINK_DATA_HDR <=? m) && (erpc_crc16 (take (Z.to_nat m) (r_mem r)) =? want)). split.
  - rewrite Z.leb_antisym. destruct (Z.ltb_spec m LINK_DATA_HDR); [done|]. rewrite Hb. cbn. by rewrite Hm.
  - split; try done. constructor; [|done]. split_and!; [done|by exists b|]. intros c [= <-]; by split.
Qed.

(** A release by whoever holds the buffer. *)
Lemma rx_release {consumer} (l : link consumer) i q h : pool_ok RXN (ld_rx l) q (i :: h) [] ->
  exists p', ld_rx_release_locked (Some i) l = Some (set_inuse (if ld_rx_inuse l =? 0 then 0 else ld_rx_inuse l - 1) (set_rx p' l)) /\
    pool_ok RXN p' q h [] /\ p_epoch p' = p_epoch (ld_rx l) /\ p_buf p' = p_buf (ld_rx l) /\ p_state p' !! Z.to_nat i = Some LD_FREE.
Proof.
  intros P. destruct (held_distinct _ _ _ _ _ _ (proj2 small_pools) P) as [Hi _]. unfold ld_rx_release_locked. assert (Hs : p_state (ld_rx l) !! Z.to_nat i = Some LD_BUSY) by (destruct P as [? ? ? ? ? ? ? ? ? Hh]; by inversion_clear Hh).
  rewrite Hs. cbn. rewrite decide_False by done. apply limbo_of_held in P.
  destruct (release_ok RXN (proj2 small_pools) i _ _ _ _ P) as (p' & -> & P' & Hs' & He & Hb). cbn. exists p'.
  split_and!; [done..|]. rewrite Hs'. apply list_lookup_insert_eq. destruct P. lia.
Qed.

Lemma rx_drop e n p p' R R' K K' fs fs' q q' n' : rx_inv true e n p R K fs q ->
  pool_ok RXN p' q' ((r_idx <$> R') ++ (k_idx <$> K')) [] -> p_epoch p' = p_epoch p -> p_buf p' = p_buf p ->
  Forall2 (holds_fresh e p) q' fs' -> Forall (reader_ok p) R' -> Forall (keeper_ok p) K' ->
  n' = Z.of_nat (length q' + length R' + length K') -> rx_inv true e n' p' R' K' fs' q'.
Proof.
  intros [P B Q HR HK Hn] P' He Hb HQ HR' HK' Hn'. split; [done|by apply (bodies_same p)| | | |done].
  - eapply (Forall2_same (holds_fresh e) p); [by intros; eapply holds_fresh_same|intros; by apply same_all|done].
  - eapply (Forall_same r_idx _ p); [by intros; eapply reader_ok_same|intros; by apply same_all|done].
  - eapply (Forall_same k_idx _ p); [by intros; eapply keeper_ok_same|intros; by apply same_all|done].
Qed.

Lemma rx_drop_reader {consumer} (l : link consumer) e r R K fs q : rx_inv true e (ld_rx_inuse l) (ld_rx l) (r :: R) K fs q ->
  exists p' n', ld_rx_release_locked (Some (r_idx r)) l = Some (set_inuse n' (set_rx p' l)) /\ rx_inv true e n' p' R K fs q /\
    p_state p' !! Z.to_nat (r_idx r) = Some LD_FREE.
Proof.
  intros T. pose proof T as [P B Q HR HK Hn]. inversion_clear HR.
  destruct (rx_release l (r_idx r) _ _ P) as (p' & E & P' & He & Hb & Hf). do 2 eexists. split; [exact E|]. split; [|exact Hf].
  eapply rx_drop; [exact T|done..|]. rewrite Hn. cbn [length]. destruct (Z.eqb_spec (Z.of_nat (length q + S (length R) + length K)) 0); lia.
Qed.

Lemma rx_drop_keeper {consumer} (l : link consumer) e k R K fs q : rx_inv true e (ld_rx_inuse l) (ld_rx l) R (k :: K) fs q ->
  exists p' n', ld_rx_release_locked (Some (k_idx k)) l = Some (set_inuse n' (set_rx p' l)) /\ rx_inv true e n' p' R K fs q.
Proof.
  intros T. pose proof T as [P B Q HR HK Hn]. inversion_clear HK.
  assert (P2 : pool_ok RXN (ld_rx l) q (k_idx k :: (r_idx <$> R) ++ (k_idx <$> K)) []).
  { eapply pool_ok_perm; [|reflexivity|exact P]. cbn. by rewrite Permutation_middle. }
  destruct (rx_release l (k_idx k) _ _ P2) as (p' & E & P' & He & Hb & _). do 2 eexists. split; [exact E|].
  eapply rx_drop; [exact T|done..|]. rewrite Hn. cbn [length]. destruct (Z.eqb_spec (Z.of_nat (length q + length R + S (length K))) 0); lia.
Qed.

(** The critical section of a commit whose CRC was right: stale, unwanted, or queued. *)
Lemma rx_commit_good {consumer} (l : link consumer) g n want r R K fs q :
  rx_inv true (ld_epoch l) (ld_rx_inuse l) (ld_rx l) (r :: R) K fs q -> r_commit r = Some (n, want, true) -> ld_epoch l = u8 g ->
  exists l' p' k fs' q', commit_good (r_idx r) n want l = Some l' /\ l' = set_ctr (ld_ctr l') (set_inuse k (set_rx p' l)) /\
    rx_inv true (ld_epoch l) k p' R K fs' q' /\
    ((fs' = fs /\ p_state p' !! Z.to_nat (r_idx r) = Some LD_FREE) \/
     (fs' = fs ++ [take (Z.to_nat n) (r_mem r)] /\ p_state p' !! Z.to_nat (r_idx r) = Some LD_QUEUED /\
      (g - r_gen r) mod 256 = 0 /\ is_Some (ld_rx_cb l))).
Proof.
  intros T Hc Hg. pose proof T as [P B Q HR HK Hn]. apply Forall_cons in HR as [(Hep & (b & Hb & Hm) & Hok) HR].
  destruct (Hok _ Hc) as [Hmax Hcrc]. symmetry in Hcrc. apply andb_true_iff in Hcrc as [Hmin%Z.leb_le Hcrc%Z.eqb_eq].
  destruct (held_distinct _ _ _ _ _ _ (proj2 small_pools) P) as [Hi _].
  assert (Hs : p_state (ld_rx l) !! Z.to_nat (r_idx r) = Some LD_BUSY) by (destruct P as [? ? ? ? ? ? ? ? ? Hh]; by inversion_clear Hh).
  unfold commit_good. rewrite Hs, Hep. cbn [mbind option_bind]. rewrite bool_decide_eq_true_2 by done. cbn [negb orb].
  rewrite Hg, eqb_u8. destruct (Z.eqb_spec ((g - r_gen r) mod 256) 0) as [E|E]; cbn [negb].
  2:{ rewrite <-Hg. destruct (rx_drop_reader l _ _ _ _ _ _ T) as (p' & k & -> & T' & Hf). exists (set_inuse k (set_rx p' l)), p', k, fs, q. split_and!; [done|done|exact T'|by left]. }
  rewrite Hb. cbn [mbind option_bind]. set (b' := Buf (body b) n want).
  destruct (set_buf_ok RXN (r_idx r) b' _ _ _ _ P) as (p1 & -> & P1 & Hb1 & He1 & Hst1); [done|]. cbn [mbind option_bind].
  assert (Hl : length (body b) = Z.to_nat LINK_DATA_BODY_MAX) by by eapply bodies_lookup.
  assert (Hbi : p_buf p1 !! Z.to_nat (r_idx r) = Some b') by (rewrite Hb1; apply list_lookup_insert_eq; destruct P; lia).
  assert (T1 : rx_inv true (ld_epoch l) (ld_rx_inuse l) p1 (r :: R) K fs q).
  { eapply (rx_update _ _ (ld_rx l) p1 r r); [done|done|done|done|done|done|]. split_and!; [by rewrite He1|by exists b'|done]. }
  rewrite <-Hg. cbn [ld_rx_cb set_rx set_ctr]. destruct (ld_rx_cb l) as [c|] eqn:Hcb.
  - cbn [ld_rx set_rx]. cbn [fmap list_fmap app] in P1. apply limbo_of_held in P1.
    destruct (enqueue_ok RXN (proj2 small_pools) (r_idx r) _ _ _ _ P1) as (p2 & E2 & P2 & He2 & Hb2).
    change LD_RX_Q_CAP with (Z.of_nat RXN + 1). rewrite E2. cbn [mbind option_bind]. eexists _, p2, (ld_rx_inuse l), (fs ++ [_]), _.
    split_and!; [done|by destruct l| |right; split_and!; [done| |done|done]].
    + eapply (rx_drop _ _ p1); [exact T1|exact P2|done|done| |by destruct T1 as [_ _ _ HR1%Forall_cons _ _]; apply HR1|apply T1|].
      * apply Forall2_app; [apply T1|]. constructor; [|done]. split_and!.
        -- exists b'. unfold b'. cbn. assert (Hlen : length (take (Z.to_nat n) (r_mem r)) = Z.to_nat n) by (rewrite length_take, <-Hm; lia).
           rewrite Hlen, Hm. split_and!; [by rewrite Hbi; unfold b'; rewrite Hm| |done|done]. unfold LINK_DATA_HDR in *; lia.
        -- by rewrite He1, Hep, Hg, <-(proj1 (Z.eqb_eq _ _) (eq_trans (eqb_u8 _ _) (proj2 (Z.eqb_eq _ _) E))).
        -- rewrite length_take, <-Hm. unfold LINK_DATA_HDR in *. lia.
        -- rewrite length_take, <-Hm. lia.
      * rewrite Hn, length_app. cbn [length]. lia.
    + destruct P2 as [_ _ _ _ _ _ _ _ Hq _]. apply Forall_app in Hq as [_ Hq]. by inversion_clear Hq.
  - destruct (rx_drop_reader (set_ctr (count_rx_no_consumer (ld_ctr (set_rx p1 l))) (set_rx p1 l)) _ _ _ _ _ _ T1) as (p' & k & -> & T' & Hf).
    eexists _, p', k, fs, q. split_and!; [reflexivity|by destruct l|exact T'|by left].
Qed.

Lemma rx_commit_bad {consumer} (l : link consumer) e r R K fs q : rx_inv true e (ld_rx_inuse l) (ld_rx l) (r :: R) K fs q ->
  exists l' p' k, commit_bad (r_idx r) l = Some l' /\ l' = set_ctr (ld_ctr l') (set_inuse k (set_rx p' l)) /\ rx_inv true e k p' R K fs q.
Proof.
  intros T. pose proof T as [P B Q HR HK Hn]. assert (Hs : p_state (ld_rx l) !! Z.to_nat (r_idx r) = Some LD_BUSY) by
    (destruct P as [? ? ? ? ? ? ? ? ? Hh]; by inversion_clear Hh).
  unfold commit_bad. rewrite Hs. cbn [mbind option_bind]. rewrite decide_True by done.
  destruct (rx_drop_reader (set_ctr (count_rx_crc (ld_ctr l)) l) _ _ _ _ _ _ T) as (p' & k & -> & T' & _). by do 3 eexists.
Qed.

(** The dispatcher's critical section takes the oldest committed frame. *)
Lemma rx_take {consumer} (l : link consumer) ready R K fs q : rx_inv ready (ld_epoch l) (ld_rx_inuse l) (ld_rx l) R K fs q ->
  match fs with
  | [] => dispatch_take l = Some (T_none, l)
  | f :: fs => exists i p' b q', dispatch_take l = Some (T_take i (ld_rx_cb l), set_rx p' l) /\
      p_buf p' !! Z.to_nat i = Some b /\ take (length f) (body b) = f /\ len b = Z.of_nat (length f) /\
      (2 <= length f <= Z.to_nat LINK_DATA_BODY_MAX)%nat /\
      rx_inv ready (ld_epoch l) (ld_rx_inuse l) p' R (Keeper i (body b) (len b) :: K) fs q'
  end.
Proof.
  intros T. pose proof T as [P B Q HR HK Hn]. pose proof (pool_empty _ _ _ _ _ P) as He. unfold dispatch_take.
  destruct Q as [|i f q fs ((b & Hb & Hl & Ht & _) & Hep & Hlen) Q].
  { by rewrite (proj2 He eq_refl), Z.eqb_refl. }
  rewrite (proj2 (Z.eqb_neq _ _)) by (intros E; by apply He in E).
  destruct (dequeue_ok RXN (proj2 small_pools) i _ _ _ _ P) as (p1 & E1 & P1 & Hs1 & Hst & He1 & Hb1).
  change LD_RX_Q_CAP with (Z.of_nat RXN + 1). rewrite E1. cbn [mbind option_bind]. rewrite Hs1, Hst. cbn [mbind option_bind].
  rewrite He1, Hep. cbn [mbind option_bind]. rewrite bool_decide_eq_true_2, Z.eqb_refl by done. cbn [negb orb].
  destruct (set_state_ok RXN (proj2 small_pools) i LD_BUSY _ _ _ _ P1) as (p2 & E2 & P2 & Hs2 & He2 & Hb2 & _). rewrite E2. cbn [mbind option_bind].
  assert (Hi : 0 <= i < Z.of_nat RXN) by (eapply (pool_range _ (proj2 small_pools)); [exact P|set_solver]).
  apply held_of_limbo in P2; [|rewrite Hs2; apply list_lookup_insert_eq; destruct P1; lia].
  exists i, p2, b, q. split_and!; [done|congruence|done|done|lia|lia|].
  - split; [|by apply (bodies_same (ld_rx l)); [congruence|]| | | |].
    + eapply pool_ok_perm; [|reflexivity|exact P2]. cbn. by rewrite Permutation_middle.
    + eapply (Forall2_same (holds_fresh (ld_epoch l)) (ld_rx l)); [by intros; eapply holds_fresh_same|intros; apply same_all; congruence|done].
    + eapply (Forall_same r_idx _ (ld_rx l)); [by intros; eapply reader_ok_same|intros; apply same_all; congruence|done].
    + constructor; [exists b; cbn; split; [congruence|done]|].
      eapply (Forall_same k_idx _ (ld_rx l)); [by intros; eapply keeper_ok_same|intros; apply same_all; congruence|done].
    + rewrite Hn. cbn [length]. lia.
Qed.

(** What the consumer is called with is the frame taken. *)
Lemma delivered_frame {consumer} (l : link consumer) k : bodies_ok (ld_rx l) -> keeper_ok (ld_rx l) k -> 2 <= k_len k <= LINK_DATA_BODY_MAX ->
  delivered (k_idx k) l = Some (hd 0 (k_frame k), drop 2 (k_frame k)).
Proof.
  intros B (b & Hb & Hbody & Hl) Hn. unfold delivered, k_frame. rewrite Hb. cbn [mbind option_bind]. rewrite <-Hbody, <-Hl in *.
  pose proof (bodies_lookup _ _ _ B Hb) as Hbl. unfold LINK_DATA_BODY_MAX, LINK_DATA_HDR, LINK_DATA_PAYLOAD_MAX in *.
  rewrite u16_small by (unfold is_u16; lia). destruct (body b) as [|x bd]; [cbn in Hbl; lia|]. cbn [lookup list_lookup mbind option_bind].
  destruct (Z.to_nat (len b)) as [|m] eqn:Em; [lia|]. cbn [take hd]. do 2 f_equal. unfold slice.
  change (x :: take m bd) with (take (S m) (x :: bd)). rewrite <-Em, skipn_firstn_comm. f_equal. lia.
Qed.

(** ** Initialisation and reset *)

Lemma tx_init p S fs q : tx_inv false p S fs q ->
  S = [] /\ fs = [] /\ exists p', init_loop TXN 0 (clear_lists p) = Some p' /\ tx_inv true p' [] [] [].
Proof.
  intros [P B Q HS]. pose proof (pool_count _ (proj1 small_pools) _ _ _ _ P) as Hc. cbn [unborn] in *. rewrite length_seqZ, Nat2Z.id, length_fmap in Hc.
  destruct S; [|cbn in Hc; lia]. destruct Q; [|cbn in Hc; lia]. split_and!; [done|done|].
  apply (clear_ok _ (proj1 small_pools)) in P. destruct (frees p) eqn:Ef; [|cbn in Hc; lia]. cbn in P.
  destruct (init_loop_ok TXN (proj1 small_pools) TXN 0 _ P) as (p' & E & P' & He & Hb). exists p'. split; [done|].
  split; [done|by apply (bodies_same p)|done|done].
Qed.

Lemma rx_init e e' n p R K fs q : rx_inv false e n p R K fs q ->
  R = [] /\ K = [] /\ fs = [] /\ exists p', init_loop RXN 0 (clear_lists p) = Some p' /\ rx_inv true e' 0 p' [] [] [] [].
Proof.
  intros [P B Q HR HK Hn]. pose proof (pool_count _ (proj2 small_pools) _ _ _ _ P) as Hc. cbn [unborn] in *. rewrite length_seqZ, Nat2Z.id, length_app, !length_fmap in Hc.
  destruct R; [|cbn in Hc; lia]. destruct K; [|cbn in Hc; lia]. destruct Q; [|cbn in Hc; lia]. split_and!; [done..|].
  apply (clear_ok _ (proj2 small_pools)) in P. destruct (frees p) eqn:Ef; [|cbn in Hc; lia]. cbn in P.
  destruct (init_loop_ok RXN (proj2 small_pools) RXN 0 _ P) as (p' & E & P' & He & Hb). exists p'. split; [done|].
  split; [done|by apply (bodies_same p)|done..].
Qed.

Lemma tx_reclaim p S fs q : tx_inv true p S fs q ->
  exists n p', reclaim_loop TXN 0 0 (clear_lists p) = Some (n, p') /\ tx_inv true p' S [] [].
Proof.
  intros [P B Q HS]. destruct (reclaim_ok TXN (proj1 small_pools) _ _ _ P) as (p' & E & P' & He & Hb). do 2 eexists. split; [exact E|].
  split; [done|by apply (bodies_same p)|done|]. eapply (Forall_same s_idx _ p); [by intros; eapply sender_ok_same|intros; by apply same_all|done].
Qed.

Lemma rx_reclaim e e' n p R K fs q : rx_inv true e n p R K fs q ->
  exists n' p', reclaim_loop RXN 0 0 (clear_lists p) = Some (n', p') /\ rx_inv true e' n' p' R K [] [].
Proof.
  intros [P B Q HR HK Hn]. destruct (reclaim_ok RXN (proj2 small_pools) _ _ _ P) as (p' & E & P' & He & Hb). do 2 eexists. split; [exact E|].
  split; [done|by apply (bodies_same p)|done| | |by rewrite length_app, !length_fmap].
  - eapply (Forall_same r_idx _ p); [by intros; eapply reader_ok_same|intros; by apply same_all|done].
  - eapply (Forall_same k_idx _ p); [by intros; eapply keeper_ok_same|intros; by apply same_all|done].
Qed.

(** ** The world: any number of threads, any interleaving

    A step is one critical section, one copy outside it, or one call.  [gen]
    counts the resets. *)

Section world.
Context {consumer : Type} (base : Z) (Hbase : 0 < base).

(** Where the service thread is: what [link_data_tx_peek] gave it (buffer, length,
    CRC) until it pops, and the buffer and consumer its dispatcher has taken but not yet
    called back with.  Neither is protected by the critical section. *)
Record service : Type := Service { srv_peek : option (Z * Z * Z); srv_hand : option (Z * option consumer) }.
Definition set_peek (p : option (Z * Z * Z)) (v : service) : service := Service p (srv_hand v).
Definition set_hand (h : option (Z * option consumer)) (v : service) : service := Service (srv_peek v) h.
(** The consumer has the pointer only once it has been called. *)
Definition in_hand (v : service) (k : keeper) : bool := match srv_hand v with Some (i, _) => i =? k_idx k | None => false end.

Record world : Type := World { wl : link consumer; senders : list sender; readers : list reader; keepers : list keeper; gen : Z; srv : service }.

(** What an observer sees.  The [Z] of [E_sent] and [E_committed] is the number of
    resets before the frame's buffer was claimed. *)
Inductive event : Type :=
  | E_sent (g : Z) (f : list Z) | E_peek (len crc : Z) | E_nothing_to_send | E_read (off : nat) (bytes : list Z) | E_pop
  | E_committed (g : Z) (f : list Z) | E_taken | E_delivered (c : consumer) (chan : Z) (payload : list Z) | E_discarded | E_nothing_received | E_skipped
  | E_attach (rc : Z) | E_unregister | E_reset | E_tau.

Inductive step : world -> event -> world -> Prop :=
  | w_send_claim v l l' i c d S R K g : (length d <= Z.to_nat LINK_DATA_PAYLOAD_MAX)%nat -> send_claim l = Some (Some i, l') ->
      step (World l S R K g v) E_tau (World l' (Sender i g c d false :: S) R K g v)
  | w_send_refused v l l' S R K g : send_claim l = Some (None, l') -> step (World l S R K g v) E_tau (World l' S R K g v)
  | w_send_fill v l l' s S0 S R K g : S ≡ₚ s :: S0 -> send_fill (s_idx s) (s_chan s) (s_data s) l = Some l' ->
      step (World l S R K g v) E_tau (World l' (copied s :: S0) R K g v)
  | w_send_commit v l l' rc s S0 S R K g : S ≡ₚ s :: S0 -> s_copied s = true ->
      send_commit (s_idx s) (Z.of_nat (length (s_data s))) l = Some (rc, l') ->
      step (World l S R K g v) (if rc =? 0 then E_sent (s_gen s) (s_frame s) else E_tau) (World l' S0 R K g v)
  | w_peek v l i n c S R K g : link_data_tx_peek l = Some (Some (i, n, c)) ->
      step (World l S R K g v) (E_peek n c) (World l S R K g (set_peek (Some (i, n, c)) v))
  | w_peek_none v l S R K g : link_data_tx_peek l = Some None -> step (World l S R K g v) E_nothing_to_send (World l S R K g (set_peek None v))
  | w_read v l i n c off k d S R K g : srv_peek v = Some (i, n, c) -> Z.of_nat (off + k) <= n -> tx_read i off k l = Some d ->
      step (World l S R K g v) (E_read off d) (World l S R K g v)
  | w_pop v l l' S R K g : is_Some (srv_peek v) -> link_data_tx_pop l = Some l' -> step (World l S R K g v) E_pop (World l' S R K g (set_peek None v))
  | w_claim v l l' n i b S R K g : link_data_rx_claim n l = Some (Some i, l') -> p_buf (ld_rx l') !! Z.to_nat i = Some b ->
      step (World l S R K g v) E_tau (World l' S (Reader i g (body b) None :: R) K g v)
  | w_claim_none v l l' n S R K g : link_data_rx_claim n l = Some (None, l') -> step (World l S R K g v) E_tau (World l' S R K g v)
  | w_fill v l l' off d r R0 S R K g : R ≡ₚ r :: R0 -> r_commit r = None -> (off + length d <= Z.to_nat LINK_DATA_BODY_MAX)%nat ->
      rx_fill (r_idx r) off d l = Some l' -> step (World l S R K g v) E_tau (World l' S (filled off d r :: R0) K g v)
  | w_abort v l l' r R0 S R K g : R ≡ₚ r :: R0 -> r_commit r = None -> link_data_rx_abort base (body_ptr base (r_idx r)) l = Some l' ->
      step (World l S R K g v) E_tau (World l' S R0 K g v)
  | w_check v l n want ok r R0 S R K g : R ≡ₚ r :: R0 -> r_commit r = None -> n <= LINK_DATA_BODY_MAX ->
      commit_check (r_idx r) n want l = Some ok -> step (World l S R K g v) E_tau (World l S (checked (n, want, ok) r :: R0) K g v)
  | w_commit_bad v l l' n want r R0 S R K g : R ≡ₚ r :: R0 -> r_commit r = Some (n, want, false) -> commit_bad (r_idx r) l = Some l' ->
      step (World l S R K g v) E_tau (World l' S R0 K g v)
  | w_commit_good v l l' n want r R0 S R K g : R ≡ₚ r :: R0 -> r_commit r = Some (n, want, true) -> commit_good (r_idx r) n want l = Some l' ->
      step (World l S R K g v)
        (if bool_decide (p_state (ld_rx l') !! Z.to_nat (r_idx r) = Some LD_QUEUED) then E_committed (r_gen r) (take (Z.to_nat n) (r_mem r)) else E_tau)
        (World l' S R0 K g v)
  | w_take v l l' i cb b S R K g : srv_hand v = None -> dispatch_take l = Some (T_take i cb, l') -> p_buf (ld_rx l') !! Z.to_nat i = Some b ->
      step (World l S R K g v) E_taken (World l' S R (Keeper i (body b) (len b) :: K) g (set_hand (Some (i, cb)) v))
  | w_call v l i cb c p S R K g : srv_hand v = Some (i, cb) -> delivered i l = Some (c, p) ->
      step (World l S R K g v) (match cb with Some f => E_delivered f c p | None => E_discarded end) (World l S R K g (set_hand None v))
  | w_take_skip v l l' S R K g : srv_hand v = None -> dispatch_take l = Some (T_skip, l') -> step (World l S R K g v) E_skipped (World l' S R K g v)
  | w_take_none v l l' S R K g : srv_hand v = None -> dispatch_take l = Some (T_none, l') -> step (World l S R K g v) E_nothing_received (World l' S R K g v)
  | w_give_back v l l' k K0 S R K g : K ≡ₚ k :: K0 -> in_hand v k = false -> link_data_rx_abort base (body_ptr base (k_idx k)) l = Some l' ->
      step (World l S R K g v) E_tau (World l' S R K0 g v)
  | w_free v l l' k K0 S R K g : K ≡ₚ k :: K0 -> in_hand v k = false -> link_data_rx_free base (body_ptr base (k_idx k) + LINK_DATA_HDR) l = Some l' ->
      step (World l S R K g v) E_tau (World l' S R K0 g v)
  | w_free_foreign v l l' ptr S R K g : (forall i, 0 <= i < Z.of_nat RXN -> ptr <> body_ptr base i + LINK_DATA_HDR) ->
      link_data_rx_free base ptr l = Some l' -> step (World l S R K g v) E_tau (World l' S R K g v)
  | w_attach v l l' c rc S R K g : link_data_attach (Some c) l = Some (rc, l') -> step (World l S R K g v) (E_attach rc) (World l' S R K g v)
  | w_unregister v l S R K g : step (World l S R K g v) E_unregister (World (unregister l) S R K g v)
  | w_reset v l l' S R K g : link_data_reset l = Some l' -> step (World l S R K g v) E_reset (World l' S R K (g + 1) v).

(** ** The specification: two queues of frames *)

(** [c_peek]: the service thread has looked at the head of the transmit queue, the
    frame [Some f], or [None] when a reset has emptied the queue since.  [c_hand]: the
    frame the dispatcher has taken, with the consumer there was. *)
Record channel : Type := Channel { c_tx : list (list Z); c_rx : list (list Z); c_cb : option consumer; c_gen : Z;
  c_peek : option (option (list Z)); c_hand : option (list Z * option consumer) }.

Inductive spec : channel -> event -> channel -> Prop :=
  | sp_sent t r a n p h g f : (n - g) mod 256 = 0 -> spec (Channel t r a n p h) (E_sent g f) (Channel (t ++ [f]) r a n p h)
  | sp_peek t r a n p h f : spec (Channel (f :: t) r a n p h) (E_peek (Z.of_nat (length f)) (erpc_crc16 f)) (Channel (f :: t) r a n (Some (Some f)) h)
  | sp_nothing_to_send r a n p h : spec (Channel [] r a n p h) E_nothing_to_send (Channel [] r a n None h)
  | sp_read t r a n h f off k : (off + k <= length f)%nat ->
      spec (Channel t r a n (Some (Some f)) h) (E_read off (slice off k f)) (Channel t r a n (Some (Some f)) h)
  | sp_read_stale t r a n h off d : spec (Channel t r a n (Some None) h) (E_read off d) (Channel t r a n (Some None) h)
  | sp_pop t r a n h f : spec (Channel (f :: t) r a n (Some (Some f)) h) E_pop (Channel t r a n None h)
  | sp_pop_stale t r a n h : spec (Channel t r a n (Some None) h) E_pop (Channel (tl t) r a n None h)
  | sp_committed t r a n p h g f : (n - g) mod 256 = 0 -> is_Some a -> spec (Channel t r a n p h) (E_committed g f) (Channel t (r ++ [f]) a n p h)
  | sp_taken t f r a n p : spec (Channel t (f :: r) a n p None) E_taken (Channel t r a n p (Some (f, a)))
  | sp_delivered t f r a n p c : spec (Channel t r a n p (Some (f, Some c))) (E_delivered c (hd 0 f) (drop 2 f)) (Channel t r a n p None)
  | sp_discarded t f r a n p : spec (Channel t r a n p (Some (f, None))) E_discarded (Channel t r a n p None)
  | sp_nothing_received t a n p : spec (Channel t [] a n p None) E_nothing_received (Channel t [] a n p None)
  | sp_attach t r n p h c : spec (Channel t r None n p h) (E_attach 0) (Channel t r (Some c) n p h)
  | sp_attach_busy t r n p h c : spec (Channel t r (Some c) n p h) (E_attach (-1)) (Channel t r (Some c) n p h)
  | sp_unregister t r a n p h : spec (Channel t r a n p h) E_unregister (Channel t r None n p h)
  | sp_reset t r a n p h : spec (Channel t r a n p h) E_reset (Channel [] [] a (n + 1) ((fun _ => None) <$> p) h)
  | sp_tau c : spec c E_tau c.

Inductive runs {S} (R : S -> event -> S -> Prop) : S -> list event -> S -> Prop :=
  | runs_nil s : runs R s [] s
  | runs_snoc s1 es s2 e s3 : runs R s1 es s2 -> R s2 e s3 -> runs R s1 (es ++ [e]) s3.

Definition empty_pool (n : nat) : pool :=
  Pool (replicate n (Buf (replicate (Z.to_nat LINK_DATA_BODY_MAX) 0) 0 0)) (replicate (S n) 0) 0 (replicate (S n) 0) 0 0
    (replicate n LD_FREE) (replicate n 0).
(** The zeroed statics at boot. *)
Definition boot : link consumer := Link (empty_pool RXN) (empty_pool TXN) 0 false 0 None stats_zero.
Definition world0 : world := World boot [] [] [] 0 (Service None None).
Definition channel0 : channel := Channel [] [] None 0 None None.

Record inv (w : world) (c : channel) (qt qr : list Z) : Prop := {
  iv_tx : tx_inv (ld_ready (wl w)) (ld_tx (wl w)) (senders w) (c_tx c) qt;
  iv_rx : rx_inv (ld_ready (wl w)) (ld_epoch (wl w)) (ld_rx_inuse (wl w)) (ld_rx (wl w)) (readers w) (keepers w) (c_rx c) qr;
  iv_epoch : ld_epoch (wl w) = u8 (gen w);
  iv_gen : c_gen c = gen w;
  iv_cb : c_cb c = ld_rx_cb (wl w);
}.

(** What the service thread holds is what the specification says. *)
Record srv_inv (w : world) (c : channel) (qt : list Z) : Prop := {
  srv_peek_ok : match c_peek c, srv_peek (srv w) with
    | None, None => True
    | Some None, Some (i, n, _) => 0 <= i < Z.of_nat TXN /\ n <= LINK_DATA_BODY_MAX
    | Some (Some f), Some (i, n, x) => hd_error (c_tx c) = Some f /\ hd_error qt = Some i /\ n = Z.of_nat (length f) /\ 0 <= i < Z.of_nat TXN /\ n <= LINK_DATA_BODY_MAX
    | _, _ => False
    end;
  srv_hand_ok : match c_hand c, srv_hand (srv w) with
    | None, None => True
    | Some (f, cb), Some (i, cb') => cb = cb' /\ exists k, k ∈ keepers w /\ k_idx k = i /\ k_frame k = f /\ 2 <= k_len k <= LINK_DATA_BODY_MAX
    | _, _ => False
    end;
}.

(** A step that only adds to the transmit queue. *)
Definition adds (c c' : channel) (qt qt' : list Z) : Prop :=
  c_peek c' = c_peek c /\ c_hand c' = c_hand c /\ c_tx c `prefix_of` c_tx c' /\ qt `prefix_of` qt'.

Lemma adds_refl c qt : adds c c qt qt.
Proof. by split_and!. Qed.

Lemma hd_error_prefix {A} (l l' : list A) x : l `prefix_of` l' -> hd_error l = Some x -> hd_error l' = Some x.
Proof. intros [k ->] H. by destruct l. Qed.

Lemma srv_inv_adds w w' c c' qt qt' : srv_inv w c qt -> adds c c' qt qt' -> srv w' = srv w ->
  (forall k, k ∈ keepers w -> in_hand (srv w) k = true -> k ∈ keepers w') -> srv_inv w' c' qt'.
Proof.
  intros [Hp Hh] (Ep & Eh & Ht & Hq) Ev HK. split; rewrite ?Ep, ?Eh, Ev.
  - destruct (c_peek c) as [[f|]|]; [|done|done]. destruct (srv_peek (srv w)) as [[[i n] x]|]; [|done]. destruct Hp as (H1 & H2 & H3).
    split; [by eapply hd_error_prefix|]. split; [by eapply hd_error_prefix|done].
  - destruct (c_hand c) as [[f cb]|]; [|done]. destruct (srv_hand (srv w)) as [[i cb']|] eqn:E; [|done]. destruct Hh as (-> & k & Hk & Hi & Hr).
    split; [done|]. exists k. split; [|done]. apply HK; [done|]. unfold in_hand. rewrite E. by apply Z.eqb_eq.
Qed.

Lemma empty_pool_ok n : (n <= 250)%nat -> pool_ok n (empty_pool n) [] [] (seqZ 0 (Z.of_nat n)).
Proof.
  intros Hn. split; cbn [empty_pool p_state p_epoch p_buf p_free p_free_n p_q p_head p_tail];
    rewrite ?length_replicate; try done; try lia; try by constructor.
  apply ring_nil; [lia|]. rewrite length_replicate. lia.
Qed.

Lemma inv0 : inv world0 channel0 [] [].
Proof.
  assert (Hb : forall n, bodies_ok (empty_pool n)) by (intros n; apply Forall_replicate; cbn [body]; by rewrite length_replicate).
  split; [| |done..].
  - split; [apply (empty_pool_ok TXN), small_pools|apply Hb|constructor|constructor].
  - split; [apply (empty_pool_ok RXN), small_pools|apply Hb|constructor..|done].
Qed.

Lemma rx_index_payload i : 0 <= i < Z.of_nat RXN -> ld_rx_index base (body_ptr base i + LINK_DATA_HDR) = Some i.
Proof.
  intros Hi. unfold ld_rx_index, body_ptr, LD_BUF_SIZE, LINK_DATA_HDR, RXN in *.
  destruct (Z.eqb_spec (base + 1544 * i + 2) 0); [lia|]. destruct (Z.ltb_spec (base + 1544 * i + 2) (base + 2)); [lia|]. cbn [orb].
  replace (base + 1544 * i + 2 - base - 2) with (i * 1544) by lia. rewrite Z.mod_mul, Z.div_mul by lia. cbn [negb Z.eqb].
  by destruct (Z.ltb_spec i (Z.of_nat 8)); [|lia].
Qed.

Lemma rx_index_body i : 0 <= i < Z.of_nat RXN -> ld_rx_index_body base (body_ptr base i) = Some i.
Proof.
  intros Hi. unfold ld_rx_index_body. destruct (Z.eqb_spec (body_ptr base i) 0) as [E|]; [|by apply rx_index_payload].
  unfold body_ptr, LD_BUF_SIZE in E. lia.
Qed.

Lemma rx_index_foreign ptr : (forall i, 0 <= i < Z.of_nat RXN -> ptr <> body_ptr base i + LINK_DATA_HDR) -> ld_rx_index base ptr = None.
Proof.
  intros Hf. unfold ld_rx_index. destruct (Z.eqb_spec ptr 0); [done|]. destruct (Z.ltb_spec ptr (base + LINK_DATA_HDR)); [done|]. cbn [orb].
  destruct (Z.eqb_spec ((ptr - base - LINK_DATA_HDR) mod LD_BUF_SIZE) 0) as [E|]; [|done]. cbn [negb].
  destruct (Z.ltb_spec ((ptr - base - LINK_DATA_HDR) / LD_BUF_SIZE) (Z.of_nat RXN)); [|done].
  exfalso. apply (Hf ((ptr - base - LINK_DATA_HDR) / LD_BUF_SIZE)).
  - split; [|done]. apply Z.div_pos; unfold LD_BUF_SIZE; lia.
  - unfold body_ptr. rewrite <-Z_div_exact_full_2; unfold LD_BUF_SIZE in *; lia.
Qed.

Lemma inv_init w c qt qr : inv w c qt qr -> exists l', ld_init_locked (wl w) = Some l' /\ ld_ready l' = true /\
  ld_epoch l' = ld_epoch (wl w) /\ ld_rx_cb l' = ld_rx_cb (wl w) /\
  inv (World l' (senders w) (readers w) (keepers w) (gen w) (srv w)) c qt qr.
Proof.
  intros I. unfold ld_init_locked. destruct (ld_ready (wl w)) eqn:Hr.
  { exists (wl w). split_and!; [done..|]. by destruct w. }
  destruct I as [T X He Hg Hc]. rewrite Hr in T, X. destruct (tx_init _ _ _ _ T) as (HS & Hf & pt & Et & T').
  destruct (rx_init _ (ld_epoch (wl w)) _ _ _ _ _ _ X) as (HR & HK & Hf' & pr & Er & X'). rewrite Er. cbn [mbind option_bind]. rewrite Et.
  cbn [mbind option_bind]. eexists. split; [done|]. cbn [ld_ready]. split_and!; [done..|].
  assert (qt = [] /\ qr = []) as [-> ->].
  { pose proof (ti_queue _ _ _ _ _ T) as Qt. pose proof (ri_queue _ _ _ _ _ _ _ _ X) as Qr. rewrite Hf in Qt. rewrite Hf' in Qr.
    apply Forall2_nil_inv_r in Qt, Qr. done. }
  split; cbn [wl senders readers keepers gen ld_ready ld_tx ld_rx ld_epoch ld_rx_inuse ld_rx_cb]; [|  |done..].
  - by rewrite HS, Hf.
  - by rewrite HR, HK, Hf'.
Qed.

Lemma inv_ctr l S R K g v c qt qr k : inv (World l S R K g v) c qt qr -> inv (World (set_ctr k l) S R K g v) c qt qr.
Proof. intros []. by split. Qed.

(** What the thread steps do, case by case, on the two queues. *)
Lemma send_step l S R K g v c qt qr : inv (World l S R K g v) c qt qr ->
  exists r l', send_claim l = Some (r, l') /\ forall chan d, (length d <= Z.to_nat LINK_DATA_PAYLOAD_MAX)%nat ->
    inv (World l' (match r with Some i => Sender i g chan d false :: S | None => S end) R K g v) c qt qr.
Proof.
  intros I. destruct (inv_init _ _ _ _ I) as (l1 & E1 & Hr & He & _ & I1). unfold send_claim. cbn [wl] in *. rewrite E1. cbn [mbind option_bind].
  destruct (Z.eqb_spec (p_free_n (ld_tx l1)) 0) as [|Hne].
  { do 2 eexists. split; [done|]. intros chan d _. by apply inv_ctr. }
  destruct I1 as [T X Hep Hg Hc]. cbn [wl senders readers keepers gen] in *. rewrite Hr in *.
  destruct (tx_claim _ _ _ _ g 0 [] T Hne) as (i & p' & E & _); [simpl; lia|]. rewrite Hep, E. cbn [mbind option_bind].
  do 2 eexists. split; [done|]. intros chan d Hd. destruct (tx_claim _ _ _ _ g chan d T Hne Hd) as (i' & p'' & E' & T'). simplify_eq.
  split; cbn [wl senders readers keepers gen ld_ready ld_tx ld_rx ld_epoch ld_rx_inuse ld_rx_cb set_tx]; rewrite ?Hr; done.
Qed.

Lemma claim_step l n S R K g v c qt qr : inv (World l S R K g v) c qt qr ->
  exists r l', link_data_rx_claim n l = Some (r, l') /\
    match r with
    | Some i => exists b, p_buf (ld_rx l') !! Z.to_nat i = Some b /\ inv (World l' S (Reader i g (body b) None :: R) K g v) c qt qr
    | None => inv (World l' S R K g v) c qt qr
    end.
Proof.
  intros I. unfold link_data_rx_claim. destruct ((n <? LINK_DATA_HDR) || _).
  { do 2 eexists. split; [done|]. by apply inv_ctr. }
  destruct (inv_init _ _ _ _ I) as (l1 & E1 & Hr & He & _ & I1). cbn [wl] in *. rewrite E1. cbn [mbind option_bind].
  destruct (Z.eqb_spec (p_free_n (ld_rx l1)) 0) as [|Hne].
  { do 2 eexists. split; [done|]. by apply inv_ctr. }
  destruct I1 as [T X Hep Hg Hc]. cbn [wl senders readers keepers gen] in *. rewrite Hr in *.
  destruct (rx_claim _ _ _ _ _ _ _ g X Hep Hne) as (i & p' & b & -> & Hb & X'). cbn [mbind option_bind].
  do 2 eexists. split; [done|]. exists b. split; [done|].
  split; cbn [wl senders readers keepers gen ld_ready ld_tx ld_rx ld_epoch ld_rx_inuse ld_rx_cb set_rx set_inuse]; rewrite ?Hr; try done.
  assert (Hn : ld_rx_inuse l1 + 1 <= 255).
  { pose proof (pool_count _ (proj2 small_pools) _ _ _ _ (ri_pool _ _ _ _ _ _ _ _ X')) as Hc'. rewrite length_app, !length_fmap in Hc'.
    pose proof (ri_inuse _ _ _ _ _ _ _ _ X') as Hi. unfold RXN in Hc'. cbn [length] in *. lia. }
  pose proof (ri_inuse _ _ _ _ _ _ _ _ X). by rewrite u8_small by (unfold is_u8; lia).
Qed.

Lemma reset_step l S R K g v c qt qr : inv (World l S R K g v) c qt qr ->
  exists l', link_data_reset l = Some l' /\ ld_rx_cb l' = ld_rx_cb l /\
    exists qt qr, inv (World l' S R K (g + 1) v) (Channel [] [] (c_cb c) (c_gen c + 1) ((fun _ => None) <$> c_peek c) (c_hand c)) qt qr.
Proof.
  intros I. destruct (inv_init _ _ _ _ I) as (l1 & E1 & Hr & He & Hcb & I1). unfold link_data_reset. cbn [wl] in *. rewrite E1. cbn [mbind option_bind].
  destruct I1 as [T X Hep Hg Hc]. cbn [wl senders readers keepers gen] in *. rewrite Hr in *. unfold ld_reclaim_locked.
  destruct (rx_reclaim _ (u8 (g + 1)) _ _ _ _ _ _ X) as (k & pr & -> & X'). destruct (tx_reclaim _ _ _ _ T) as (k' & pt & Et & T').
  cbn [mbind option_bind]. rewrite Et. cbn [mbind option_bind]. eexists. split; [done|]. split; [done|]. exists [], [].
  assert (Hu : u8 (ld_epoch l1 + 1) = u8 (g + 1)) by (rewrite Hep; apply Z.add_mod_idemp_l; lia).
  split; cbn [wl senders readers keepers gen ld_ready ld_tx ld_rx ld_epoch ld_rx_inuse ld_rx_cb set_ctr c_tx c_rx c_gen c_cb]; rewrite ?Hu; try done; congruence.
Qed.

(** Whoever holds a buffer, the pools have been initialised. *)
Lemma sender_ready l s S R K g v c qt qr : inv (World l (s :: S) R K g v) c qt qr -> ld_ready l = true.
Proof. intros [T _ _ _ _]. cbn in T. destruct (ld_ready l); [done|]. by apply tx_init in T as [? _]. Qed.
Lemma reader_ready l S r R K g v c qt qr : inv (World l S (r :: R) K g v) c qt qr -> ld_ready l = true.
Proof. intros [_ X _ _ _]. cbn in X. destruct (ld_ready l); [done|]. by apply (rx_init _ 0) in X as [? _]. Qed.
Lemma keeper_ready l S R k K g v c qt qr : inv (World l S R (k :: K) g v) c qt qr -> ld_ready l = true.
Proof. intros [_ X _ _ _]. cbn in X. destruct (ld_ready l); [done|]. by apply (rx_init _ 0) in X as (_ & ? & _). Qed.

Lemma inv_perm l S S' R R' K K' g v c qt qr : S ≡ₚ S' -> R ≡ₚ R' -> K ≡ₚ K' -> inv (World l S R K g v) c qt qr -> inv (World l S' R' K' g v) c qt qr.
Proof. intros HS HR HK []. split; try done; [by eapply tx_inv_perm|by eapply rx_inv_perm]. Qed.

Lemma keeper_index l S R k K g v c qt qr : inv (World l S R (k :: K) g v) c qt qr -> 0 <= k_idx k < Z.of_nat RXN.
Proof.
  intros [_ X _ _ _]. destruct X as [P _ _ _ _ _]. eapply (pool_range _ (proj2 small_pools)); [exact P|]. cbn. set_solver.
Qed.
Lemma reader_index l S r R K g v c qt qr : inv (World l S (r :: R) K g v) c qt qr -> 0 <= r_idx r < Z.of_nat RXN.
Proof.
  intros [_ X _ _ _]. destruct X as [P _ _ _ _ _]. eapply (pool_range _ (proj2 small_pools)); [exact P|]. cbn. set_solver.
Qed.

Lemma sender_step l s S R K g v c qt qr : inv (World l (s :: S) R K g v) c qt qr ->
  (exists l', send_fill (s_idx s) (s_chan s) (s_data s) l = Some l' /\ inv (World l' (copied s :: S) R K g v) c qt qr) /\
  (s_copied s = true -> exists rc l', send_commit (s_idx s) (Z.of_nat (length (s_data s))) l = Some (rc, l') /\
    exists c' qt', spec c (if rc =? 0 then E_sent (s_gen s) (s_frame s) else E_tau) c' /\ inv (World l' S R K g v) c' qt' qr /\ adds c c' qt qt').
Proof.
  intros I. pose proof (sender_ready _ _ _ _ _ _ _ _ _ _ I) as Hr. destruct I as [T X He Hg Hc]. cbn [wl senders readers keepers gen] in *. rewrite Hr in *. split.
  - destruct (tx_fill l _ _ _ _ T) as (p' & -> & T'). eexists. split; [done|]. split; cbn; rewrite ?Hr; done.
  - intros Hcop. destruct (tx_commit l _ _ _ _ g T Hcop He) as (rc & l' & p' & q' & -> & -> & Hcase). do 2 eexists. split; [done|].
    destruct Hcase as [(-> & Hm & -> & T')|(-> & Hm & -> & T')].
    + eexists (Channel (c_tx c ++ [s_frame s]) (c_rx c) (c_cb c) (c_gen c) (c_peek c) (c_hand c)), _.
      split; [destruct c; constructor; cbn in *; by rewrite Hg|]. split; [split; cbn; rewrite ?Hr; done|].
      split_and!; [done|done|by apply prefix_app_r|by apply prefix_app_r].
    + exists c, qt. split; [constructor|]. split; [split; cbn; rewrite ?Hr; done|apply adds_refl].
Qed.

Lemma reader_step l S r R K g v c qt qr : inv (World l S (r :: R) K g v) c qt qr ->
  (forall off d, (off + length d <= Z.to_nat LINK_DATA_BODY_MAX)%nat ->
    exists l', rx_fill (r_idx r) off d l = Some l' /\ inv (World l' S (filled off d r :: R) K g v) c qt qr) /\
  (exists l', link_data_rx_abort base (body_ptr base (r_idx r)) l = Some l' /\ inv (World l' S R K g v) c qt qr) /\
  (forall n want, n <= LINK_DATA_BODY_MAX -> exists ok, commit_check (r_idx r) n want l = Some ok /\ inv (World l S (checked (n, want, ok) r :: R) K g v) c qt qr) /\
  (exists l', commit_bad (r_idx r) l = Some l' /\ inv (World l' S R K g v) c qt qr) /\
  (forall n want, r_commit r = Some (n, want, true) -> exists l', commit_good (r_idx r) n want l = Some l' /\
    exists c' qr', spec c (if bool_decide (p_state (ld_rx l') !! Z.to_nat (r_idx r) = Some LD_QUEUED)
      then E_committed (r_gen r) (take (Z.to_nat n) (r_mem r)) else E_tau) c' /\ inv (World l' S R K g v) c' qt qr' /\ adds c c' qt qt).
Proof.
  intros I. pose proof (reader_ready _ _ _ _ _ _ _ _ _ _ I) as Hr. pose proof (reader_index _ _ _ _ _ _ _ _ _ _ I) as Hi.
  destruct I as [T X He Hg Hc]. cbn [wl senders readers keepers gen] in *. rewrite Hr in *. split_and!.
  - intros off d Hd. destruct (rx_fill_ok l _ _ _ _ _ _ _ _ _ X Hd) as (p' & -> & X'). eexists. split; [done|]. split; cbn; rewrite ?Hr; done.
  - unfold link_data_rx_abort. rewrite rx_index_body by done. destruct (rx_drop_reader l _ _ _ _ _ _ X) as (p' & k & -> & X' & _).
    eexists. split; [done|]. split; cbn; rewrite ?Hr; done.
  - intros n want Hn. destruct (rx_check l _ _ _ _ _ _ _ _ want X Hn) as (ok & -> & X'). eexists. split; [done|]. split; cbn; rewrite ?Hr; done.
  - destruct (rx_commit_bad l _ _ _ _ _ _ X) as (l' & p' & k & -> & -> & X'). eexists. split; [done|]. split; cbn; rewrite ?Hr; done.
  - intros n want Hcm. destruct (rx_commit_good l g n want _ _ _ _ _ X Hcm He) as (l' & p' & k & fs' & q' & -> & -> & X' & Hcase).
    eexists. split; [done|]. cbn [ld_rx set_ctr set_inuse set_rx]. destruct Hcase as [(-> & ->)|(-> & -> & Hm & Hcb)].
    + exists c, q'. rewrite bool_decide_eq_false_2 by done. split; [constructor|]. split; [split; cbn; rewrite ?Hr; done|apply adds_refl].
    + exists (Channel (c_tx c) (c_rx c ++ [take (Z.to_nat n) (r_mem r)]) (c_cb c) (c_gen c) (c_peek c) (c_hand c)), q'. rewrite bool_decide_eq_true_2 by done.
      split; [destruct c; constructor; cbn in *; by rewrite ?Hg, ?Hc|]. split; [split; cbn; rewrite ?Hr; done|by split_and!].
Qed.

Lemma keeper_step l S R k K g v c qt qr : inv (World l S R (k :: K) g v) c qt qr ->
  (exists l', link_data_rx_abort base (body_ptr base (k_idx k)) l = Some l' /\ inv (World l' S R K g v) c qt qr) /\
  (exists l', link_data_rx_free base (body_ptr base (k_idx k) + LINK_DATA_HDR) l = Some l' /\ inv (World l' S R K g v) c qt qr).
Proof.
  intros I. pose proof (keeper_ready _ _ _ _ _ _ _ _ _ _ I) as Hr. pose proof (keeper_index _ _ _ _ _ _ _ _ _ _ I) as Hi.
  destruct I as [T X He Hg Hc]. cbn [wl senders readers keepers gen] in *. rewrite Hr in *.
  destruct (rx_drop_keeper l _ _ _ _ _ _ X) as (p' & n' & E & X').
  unfold link_data_rx_abort, link_data_rx_free. rewrite rx_index_body, rx_index_payload, E by done.
  split; eexists; (split; [done|]); split; cbn; rewrite ?Hr; done.
Qed.

(** The service thread's steps. *)
Lemma peek_step l S R K g v c qt qr : inv (World l S R K g v) c qt qr -> srv_inv (World l S R K g v) c qt ->
  exists r, link_data_tx_peek l = Some r /\ exists c',
    spec c (match r with Some (_, n, x) => E_peek n x | None => E_nothing_to_send end) c' /\
    inv (World l S R K g (set_peek r v)) c' qt qr /\ srv_inv (World l S R K g (set_peek r v)) c' qt.
Proof.
  intros [T X He Hg Hc] [Vp Vh]. cbn [wl senders readers keepers gen srv] in *. pose proof (tx_peek l _ _ _ _ T) as Hp.
  destruct c as [t r a n p h]. cbn [c_tx] in *. destruct t as [|f t].
  - eexists. split; [exact Hp|]. exists (Channel [] r a n None h). split; [constructor|]. by do 2 split.
  - destruct Hp as (i & q' & -> & Hi & -> & Hl). eexists. split; [done|]. exists (Channel (f :: t) r a n (Some (Some f)) h).
    split; [constructor|]. split; [by split|]. split; [|done]. cbn. repeat apply conj; done || lia.
Qed.

Lemma read_step l S R K g v c qt qr i n x off k : inv (World l S R K g v) c qt qr -> srv_inv (World l S R K g v) c qt ->
  srv_peek v = Some (i, n, x) -> Z.of_nat (off + k) <= n -> exists d, tx_read i off k l = Some d /\ spec c (E_read off d) c.
Proof.
  intros [T _ _ _ _] [Vp _] Ev Hk. cbn [wl senders srv] in *. rewrite Ev in Vp. destruct c as [t r a m [[f|]|] h]; cbn [c_peek c_tx] in *; [| |done].
  - destruct Vp as (Ht & Hq & -> & _). destruct t as [|f' t]; [done|]. destruct qt as [|i' q']; [done|]. injection Ht as ->. injection Hq as ->.
    exists (slice off k f). split; [eapply tx_read_head; [exact T|lia]|]. constructor. lia.
  - destruct Vp as [Hi Hn]. destruct (tx_read_total l _ _ _ _ i off k T Hi) as [d Hd]; [lia|]. exists d. split; [done|constructor].
Qed.

Lemma pop_step l S R K g v c qt qr : inv (World l S R K g v) c qt qr -> srv_inv (World l S R K g v) c qt ->
  exists l', link_data_tx_pop l = Some l' /\ (is_Some (srv_peek v) -> exists c' qt', spec c E_pop c' /\
    inv (World l' S R K g (set_peek None v)) c' qt' qr /\ srv_inv (World l' S R K g (set_peek None v)) c' qt').
Proof.
  intros [T X He Hg Hc] [Vp Vh]. cbn [wl senders readers keepers gen srv] in *. destruct (tx_pop l _ _ _ _ T) as (p' & E & T').
  exists (set_tx p' l). split; [done|]. intros [[[i n] x] Ev]. rewrite Ev in Vp.
  destruct c as [t r a m p h]. cbn [c_tx c_peek] in *. exists (Channel (tl t) r a m None h), (tl qt).
  split; [|by do 2 split]. destruct p as [[f|]|]; [|constructor|done]. destruct Vp as (Ht & _). destruct t as [|f' t]; [done|].
  injection Ht as ->. apply sp_pop.
Qed.

Lemma take_step l S R K g v c qt qr : inv (World l S R K g v) c qt qr -> srv_inv (World l S R K g v) c qt ->
  exists t l', dispatch_take l = Some (t, l') /\ (srv_hand v = None ->
    match t with
    | T_none => spec c E_nothing_received c /\ l' = l
    | T_skip => False
    | T_take i cb => exists b, p_buf (ld_rx l') !! Z.to_nat i = Some b /\ exists c' qr', spec c E_taken c' /\
        inv (World l' S R (Keeper i (body b) (len b) :: K) g (set_hand (Some (i, cb)) v)) c' qt qr' /\
        srv_inv (World l' S R (Keeper i (body b) (len b) :: K) g (set_hand (Some (i, cb)) v)) c' qt
    end).
Proof.
  intros [T X He Hg Hc] [Vp Vh]. cbn [wl senders readers keepers gen srv] in *. pose proof (rx_take l _ _ _ _ _ X) as Ht.
  destruct c as [t r a n p h]. cbn [c_rx c_cb c_gen c_tx c_hand c_peek] in *. destruct r as [|f fs].
  - do 2 eexists. split; [exact Ht|]. intros Ev. rewrite Ev in Vh. destruct h as [[f cb]|]; [done|]. by split; [constructor|].
  - destruct Ht as (i & p' & b & q' & -> & Hb & Htk & Hl & Hlen & X'). do 2 eexists. split; [done|]. intros Ev. rewrite Ev in Vh.
    destruct h as [[f' cb]|]; [done|]. exists b. split; [exact Hb|]. exists (Channel t fs a n p (Some (f, ld_rx_cb l))), q'.
    split; [rewrite <-Hc; constructor|]. split; [by split|]. split; [done|]. cbn [c_hand srv srv_hand set_hand keepers]. split; [done|].
    exists (Keeper i (body b) (len b)). split; [by left|]. split; [done|]. unfold k_frame. cbn [k_len k_body].
    rewrite Hl, Nat2Z.id. split; [done|]. lia.
Qed.

Lemma call_step l S R K g v c qt qr i cb : inv (World l S R K g v) c qt qr -> srv_inv (World l S R K g v) c qt -> srv_hand v = Some (i, cb) ->
  exists ch pl c', delivered i l = Some (ch, pl) /\ spec c (match cb with Some f => E_delivered f ch pl | None => E_discarded end) c' /\
    inv (World l S R K g (set_hand None v)) c' qt qr /\ srv_inv (World l S R K g (set_hand None v)) c' qt.
Proof.
  intros [T X He Hg Hc] [Vp Vh] Ev. cbn [wl senders readers keepers gen srv] in *. rewrite Ev in Vh.
  destruct c as [t r a n p [[f cb']|]]; cbn [c_hand c_peek c_tx] in *; [|done]. destruct Vh as (-> & k & Hk & <- & <- & Hn).
  pose proof (ri_keepers _ _ _ _ _ _ _ _ X) as HK. rewrite Forall_forall in HK.
  rewrite (delivered_frame l k (ri_bodies _ _ _ _ _ _ _ _ X) (HK k Hk) Hn). do 2 eexists. exists (Channel t r a n p None). split; [done|].
  split; [destruct cb; constructor|]. by do 2 split.
Qed.

Lemma step_refines w e w' c qt qr : inv w c qt qr -> srv_inv w c qt -> step w e w' ->
  exists c' qt' qr', spec c e c' /\ inv w' c' qt' qr' /\ srv_inv w' c' qt'.
Proof.
  intros I V Hs. destruct Hs as [v l l' i ch d S R K g Hd E|v l l' S R K g E|v l l' s S0 S R K g HS E|v l l' rc s S0 S R K g HS Hcop E|v l i n x S R K g E|v l S R K g E|
    v l i n x off k d S R K g Ev Hk E|v l l' S R K g Ev E|v l l' n i b S R K g E Hb|v l l' n S R K g E|v l l' off d r R0 S R K g HR Hcm Hd E|v l l' r R0 S R K g HR Hcm E|
    v l n want ok r R0 S R K g HR Hcm Hn E|v l l' n want r R0 S R K g HR Hcm E|v l l' n want r R0 S R K g HR Hcm E|v l l' i cb b S R K g Ev E Hb|v l i cb ch p S R K g Ev E|
    v l l' S R K g Ev E|v l l' S R K g Ev E|v l l' k K0 S R K g HK Hh E|v l l' k K0 S R K g HK Hh E|v l l' ptr S R K g Hf E|v l l' f rc S R K g E|v l S R K g|v l l' S R K g E].
  all: try (pose proof I as J; eapply inv_perm in J; [|exact HS|reflexivity|reflexivity]; pose proof (sender_step _ _ _ _ _ _ _ _ _ _ J) as (H1 & H2)).
  all: try (pose proof I as J; eapply inv_perm in J; [|reflexivity|exact HR|reflexivity]; pose proof (reader_step _ _ _ _ _ _ _ _ _ _ J) as (H1 & H2 & H3 & H4 & H5)).
  all: try (pose proof I as J; eapply inv_perm in J; [|reflexivity|reflexivity|exact HK]; pose proof (keeper_step _ _ _ _ _ _ _ _ _ _ J) as (H1 & H2)).
  all: assert (Hq : forall l' S' R' K', (forall k, k ∈ K -> in_hand v k = true -> k ∈ K') -> srv_inv (World l' S' R' K' g v) c qt)
    by (intros l0 S' R' K' HK'; by eapply srv_inv_adds; [exact V|apply adds_refl|..]).
  - destruct (send_step _ _ _ _ _ _ _ _ _ I) as (r & l1 & E1 & H). simplify_eq. exists c, qt, qr. split; [constructor|]. split; [exact (H ch d Hd)|by apply Hq].
  - destruct (send_step _ _ _ _ _ _ _ _ _ I) as (r & l1 & E1 & H). simplify_eq. exists c, qt, qr. split; [constructor|]. split; [apply (H 0 []); simpl; lia|by apply Hq].
  - destruct H1 as (l1 & E1 & I'). simplify_eq. exists c, qt, qr. split; [constructor|]. split; [done|by apply Hq].
  - destruct (H2 Hcop) as (rc1 & l1 & E1 & c' & qt' & Hsp & I' & Hqu). simplify_eq. exists c', qt', qr. split; [done|]. split; [done|].
    by eapply srv_inv_adds.
  - destruct (peek_step _ _ _ _ _ _ _ _ _ I V) as (r & E1 & c' & Hsp & I' & V'). simplify_eq. by exists c', qt, qr.
  - destruct (peek_step _ _ _ _ _ _ _ _ _ I V) as (r & E1 & c' & Hsp & I' & V'). simplify_eq. by exists c', qt, qr.
  - destruct (read_step _ _ _ _ _ _ _ _ _ _ _ _ _ _ I V Ev Hk) as (d1 & E1 & Hsp). simplify_eq. by exists c, qt, qr.
  - destruct (pop_step _ _ _ _ _ _ _ _ _ I V) as (l1 & E1 & H). simplify_eq. destruct (H Ev) as (c' & qt' & Hsp & I' & V'). by exists c', qt', qr.
  - destruct (claim_step _ n _ _ _ _ _ _ _ _ I) as (r & l1 & E1 & H). simplify_eq. destruct H as (b' & Hb' & I'). simplify_eq.
    exists c, qt, qr. split; [constructor|]. split; [done|by apply Hq].
  - destruct (claim_step _ n _ _ _ _ _ _ _ _ I) as (r & l1 & E1 & H). simplify_eq. exists c, qt, qr. split; [constructor|]. split; [done|by apply Hq].
  - destruct (H1 off d Hd) as (l1 & E1 & I'). simplify_eq. exists c, qt, qr. split; [constructor|]. split; [done|by apply Hq].
  - destruct H2 as (l1 & E1 & I'). simplify_eq. exists c, qt, qr. split; [constructor|]. split; [done|by apply Hq].
  - destruct (H3 n want Hn) as (ok1 & E1 & I'). simplify_eq. exists c, qt, qr. split; [constructor|]. split; [done|by apply Hq].
  - destruct H4 as (l1 & E1 & I'). simplify_eq. exists c, qt, qr. split; [constructor|]. split; [done|by apply Hq].
  - destruct (H5 n want Hcm) as (l1 & E1 & c' & qr' & Hsp & I' & Hqu). simplify_eq. exists c', qt, qr'. split; [done|]. split; [done|].
    by eapply srv_inv_adds.
  - destruct (take_step _ _ _ _ _ _ _ _ _ I V) as (t & l1 & E1 & H). simplify_eq. destruct (H Ev) as (b1 & Hb1 & c' & qr' & Hsp & I' & V'). simplify_eq. by exists c', qt, qr'.
  - destruct (call_step _ _ _ _ _ _ _ _ _ _ _ I V Ev) as (ch1 & p1 & c' & E1 & Hsp & I' & V'). simplify_eq. by exists c', qt, qr.
  - destruct (take_step _ _ _ _ _ _ _ _ _ I V) as (t & l1 & E1 & H). simplify_eq.
  - destruct (take_step _ _ _ _ _ _ _ _ _ I V) as (t & l1 & E1 & H). simplify_eq. destruct (H Ev) as [Hsp ->]. by exists c, qt, qr.
  - destruct H1 as (l1 & E1 & I'). simplify_eq. exists c, qt, qr. split; [constructor|]. split; [done|]. apply Hq.
    intros k' Hk' Hin. rewrite HK in Hk'. apply elem_of_cons in Hk' as [->|]; [congruence|done].
  - destruct H2 as (l1 & E1 & I'). simplify_eq. exists c, qt, qr. split; [constructor|]. split; [done|]. apply Hq.
    intros k' Hk' Hin. rewrite HK in Hk'. apply elem_of_cons in Hk' as [->|]; [congruence|done].
  - unfold link_data_rx_free in E. rewrite rx_index_foreign in E by done. cbn in E. simplify_eq. exists c, qt, qr. by split; [constructor|].
  - destruct (inv_init _ _ _ _ I) as (l1 & E1 & Hr & He & Hcb & I1). cbn [wl senders readers keepers gen srv] in *. unfold link_data_attach in E. rewrite E1 in E. cbn [mbind option_bind] in E.
    pose proof (iv_cb _ _ _ _ I1) as Hc1. cbn in Hc1. destruct c as [t r a n p h]. cbn in Hc1. subst a. destruct (ld_rx_cb l1) as [f1|] eqn:Hf1; simplify_eq.
    + eexists _, qt, qr. split; [apply sp_attach_busy|]. split; [done|by apply Hq].
    + eexists _, qt, qr. split; [apply (sp_attach _ _ _ _ _ f)|]. split; [destruct I1; by split|].
      eapply srv_inv_adds; [exact V|by split_and!|done|done].
  - exists (Channel (c_tx c) (c_rx c) None (c_gen c) (c_peek c) (c_hand c)), qt, qr. split; [destruct c; apply sp_unregister|].
    split; [destruct I; by split|]. eapply srv_inv_adds; [exact V|by split_and!|done|done].
  - destruct (reset_step _ _ _ _ _ _ _ _ _ I) as (l1 & E1 & _ & qt' & qr' & I'). simplify_eq.
    exists (Channel [] [] (c_cb c) (c_gen c + 1) ((fun _ => None) <$> c_peek c) (c_hand c)), qt', qr'. split; [destruct c; apply sp_reset|]. split; [done|].
    destruct V as [Vp Vh]. split; [|done]. cbn [c_peek c_tx srv] in *. destruct (c_peek c) as [[f|]|]; cbn [fmap option_fmap option_map]; [|done|done].
    destruct (srv_peek v) as [[[i n] x]|]; [|done]. apply Vp.
Qed.

Lemma runs_inv es w : runs step world0 es w -> exists c qt qr, runs spec channel0 es c /\ inv w c qt qr /\ srv_inv w c qt.
Proof.
  intros Hr. remember world0 as w0 eqn:Hw. induction Hr as [s|s1 es s2 e s3 Hr IH Hst]; subst.
  - exists channel0, [], []. split; [constructor|]. by split; [apply inv0|].
  - destruct (IH eq_refl) as (c & qt & qr & Hc & I & V). destruct (step_refines _ _ _ _ _ _ I V Hst) as (c' & qt' & qr' & Hsp & I').
    exists c', qt', qr'. split; [by eapply runs_snoc|done].
Qed.

(** C6: the data channel is two queues.  Whatever the interleaving of senders,
    the service thread, the frame reader, consumers and resets -- each critical
    section, each copy, read and callback outside one being a step of its own --
    everything that can be observed is what two plain queues of frames do.  The service
    thread peeks at the oldest of the frames whose send returned 0 since the last
    reset; what it then reads through the pointer, before it pops, is that frame,
    and that frame is popped, unless a reset has fallen in between.  A frame is
    delivered once, with the bytes the reader left, in the order of the commits, to the
    consumer there was when it was taken from the queue; a reset empties both queues,
    and what it finds taken but not yet called back is still delivered (see
    [delivered_after_detach]), at most one frame.  A frame whose buffer was
    claimed before a reset joins neither queue after it, as long as the 8-bit epoch has
    not gone all the way round: the number of resets between is no multiple of 256.  The
    dispatcher never meets a stale entry. *)
Theorem link_data_refines (es : list event) (w : world) :
  runs step world0 es w -> exists c, runs spec channel0 es c.
Proof. intros Hr. destruct (runs_inv _ _ Hr) as (c & _ & _ & Hc & _). by exists c. Qed.

(** No call and no copy a thread can be about to make leaves an array. *)
Record enabled (w : world) : Prop := {
  en_send : is_Some (send_claim (wl w));
  en_claim n : is_Some (link_data_rx_claim n (wl w));
  en_peek : is_Some (link_data_tx_peek (wl w));
  en_read i n x off k : srv_peek (srv w) = Some (i, n, x) -> Z.of_nat (off + k) <= n -> is_Some (tx_read i off k (wl w));
  en_pop : is_Some (link_data_tx_pop (wl w));
  en_take : is_Some (dispatch_take (wl w));
  en_call i cb : srv_hand (srv w) = Some (i, cb) -> is_Some (delivered i (wl w));
  en_reset : is_Some (link_data_reset (wl w));
  en_sender s : s ∈ senders w -> is_Some (send_fill (s_idx s) (s_chan s) (s_data s) (wl w)) /\
    (s_copied s = true -> is_Some (send_commit (s_idx s) (Z.of_nat (length (s_data s))) (wl w)));
  en_reader r : r ∈ readers w ->
    (forall off d, (off + length d <= Z.to_nat LINK_DATA_BODY_MAX)%nat -> is_Some (rx_fill (r_idx r) off d (wl w))) /\
    is_Some (link_data_rx_abort base (body_ptr base (r_idx r)) (wl w)) /\
    (forall n want, n <= LINK_DATA_BODY_MAX -> is_Some (commit_check (r_idx r) n want (wl w))) /\
    is_Some (commit_bad (r_idx r) (wl w)) /\
    (forall n want, r_commit r = Some (n, want, true) -> is_Some (commit_good (r_idx r) n want (wl w)));
  en_keeper k : k ∈ keepers w -> is_Some (link_data_rx_abort base (body_ptr base (k_idx k)) (wl w)) /\
    is_Some (link_data_rx_free base (body_ptr base (k_idx k) + LINK_DATA_HDR) (wl w));
}.

Lemma inv_enabled w c qt qr : inv w c qt qr -> srv_inv w c qt -> enabled w.
Proof.
  destruct w as [l S R K g v]. intros I V. destruct (peek_step _ _ _ _ _ _ _ _ _ I V) as (? & Hpeek & _). destruct (pop_step _ _ _ _ _ _ _ _ _ I V) as (? & Hpop & _).
  destruct (take_step _ _ _ _ _ _ _ _ _ I V) as (? & ? & Htake & _).
  split; cbn [wl senders readers keepers srv].
  - destruct (send_step _ _ _ _ _ _ _ _ _ I) as (? & ? & -> & _). by eexists.
  - intros n. destruct (claim_step _ n _ _ _ _ _ _ _ _ I) as (? & ? & -> & _). by eexists.
  - by eexists.
  - intros i n y off k Ev Hk. destruct (read_step _ _ _ _ _ _ _ _ _ _ _ _ _ _ I V Ev Hk) as (? & -> & _). by eexists.
  - by eexists.
  - by eexists.
  - intros i cb Ev. destruct (call_step _ _ _ _ _ _ _ _ _ _ _ I V Ev) as (? & ? & ? & -> & _). by eexists.
  - destruct (reset_step _ _ _ _ _ _ _ _ _ I) as (? & -> & _). by eexists.
  - intros s [S0 HS]%elem_of_Permutation. eapply inv_perm in I; [|exact HS|reflexivity|reflexivity].
    destruct (sender_step _ _ _ _ _ _ _ _ _ _ I) as ((? & -> & _) & H). split; [by eexists|].
    intros Hcop. destruct (H Hcop) as (? & ? & -> & _). by eexists.
  - intros r [R0 HR]%elem_of_Permutation. eapply inv_perm in I; [|reflexivity|exact HR|reflexivity].
    destruct (reader_step _ _ _ _ _ _ _ _ _ _ I) as (H1 & (? & -> & _) & H3 & (? & -> & _) & H5). split_and!; [|by eexists| |by eexists|].
    + intros off d Hd. destruct (H1 off d Hd) as (? & -> & _). by eexists.
    + intros n want Hn. destruct (H3 n want Hn) as (? & -> & _). by eexists.
    + intros n want Hcm. destruct (H5 n want Hcm) as (? & -> & _). by eexists.
  - intros k [K0 HK]%elem_of_Permutation. eapply inv_perm in I; [|reflexivity|reflexivity|exact HK].
    destruct (keeper_step _ _ _ _ _ _ _ _ _ _ I) as ((? & -> & _) & (? & -> & _)). split; by eexists.
Qed.

(** C7: in every reachable state of the data channel each buffer is in exactly one
    place -- the free stack, the queue, or the hands of one thread -- whatever
    resets have happened meanwhile; the count of receive buffers in use is
    right; what a reader has written and what a consumer was given is still in its
    buffer; and no operation that can come next leaves an array. *)
Theorem link_data_ownership (es : list event) (w : world) :
  runs step world0 es w ->
  (ld_ready (wl w) = true -> exists qt qr,
    frees (ld_tx (wl w)) ++ qt ++ (s_idx <$> senders w) ≡ₚ seqZ 0 (Z.of_nat TXN) /\
    frees (ld_rx (wl w)) ++ qr ++ (r_idx <$> readers w) ++ (k_idx <$> keepers w) ≡ₚ seqZ 0 (Z.of_nat RXN) /\
    holds_ring (p_q (ld_tx (wl w))) LD_TX_Q_CAP (p_head (ld_tx (wl w))) (p_tail (ld_tx (wl w))) qt /\
    holds_ring (p_q (ld_rx (wl w))) LD_RX_Q_CAP (p_head (ld_rx (wl w))) (p_tail (ld_rx (wl w))) qr /\
    ld_rx_inuse (wl w) = Z.of_nat (length qr + length (readers w) + length (keepers w))) /\
  (forall r, r ∈ readers w -> exists b, p_buf (ld_rx (wl w)) !! Z.to_nat (r_idx r) = Some b /\ body b = r_mem r) /\
  (forall k, k ∈ keepers w -> exists b, p_buf (ld_rx (wl w)) !! Z.to_nat (k_idx k) = Some b /\ body b = k_body k) /\
  enabled w.
Proof.
  intros Hrun. destruct (runs_inv _ _ Hrun) as (c & qt & qr & _ & I & V). pose proof (inv_enabled _ _ _ _ I V) as Hen.
  destruct I as [[Pt _ _ _] [Pr _ _ HR HK Hn] _ _ _]. rewrite Forall_forall in HR. rewrite Forall_forall in HK.
  split_and!; [|by intros r Hr; apply HR|intros k Hk; destruct (HK k Hk) as (b & ? & ? & _); by exists b|done].
  intros Hr. rewrite Hr in *. exists qt, qr. destruct Pt, Pr. cbn [unborn] in *. rewrite !app_nil_r in *. split_and!; done.
Qed.
End world.
Arguments world : clear implicits.
Arguments event : clear implicits.

(** ** A run *)

Module LinkExample.
Definition B : Z := 1024.
Definition sample : list Z := [0; 0; 7; 8; 9].

Definition queued (s : option Z) : bool := if s then true else false.

(** A consumer attaches; one frame is sent, peeked at, read and popped; one is
    received and taken from the queue, and a second one is claimed.  Then the consumer
    detaches, which resets the link: the second frame is dropped, the first is
    delivered all the same. *)
Definition demo (l0 : link unit) : option (list (event unit) * world unit) :=
  '(rc, l) ← link_data_attach (Some tt) l0;
  '(i, l) ← send_claim l; i ← i;
  l ← send_fill i 0 [7; 8; 9] l;
  '(rc2, l) ← send_commit i 3 l;
  pk ← link_data_tx_peek l; '(pi, pn, pc) ← pk;
  d ← (if Z.of_nat (0 + 5) <=? pn then tx_read pi 0 5 l else None);
  l ← link_data_tx_pop l;
  '(j, l) ← link_data_rx_claim 5 l; j ← j; b ← p_buf (ld_rx l) !! Z.to_nat j;
  l ← rx_fill j 0 sample l;
  ok ← commit_check j 5 (erpc_crc16 sample) l;
  if negb ok then None else
  l ← commit_good j 5 (erpc_crc16 sample) l;
  let e := if bool_decide (p_state (ld_rx l) !! Z.to_nat j = Some LD_QUEUED) then E_committed 0 (take 5 (splice 0 sample (body b))) else E_tau in
  '(t, l) ← dispatch_take l;
  '(k, cb) ← match t with T_take k cb => Some (k, cb) | _ => None end;
  kb ← p_buf (ld_rx l) !! Z.to_nat k;
  '(m, l) ← link_data_rx_claim 5 l; m ← m; mb ← p_buf (ld_rx l) !! Z.to_nat m;
  l ← rx_fill m 0 sample l;
  ok ← commit_check m 5 (erpc_crc16 sample) l;
  if negb ok then None else
  l ← link_data_reset (unregister l);
  l ← commit_good m 5 (erpc_crc16 sample) l;
  let e2 := if bool_decide (p_state (ld_rx l) !! Z.to_nat m = Some LD_QUEUED) then E_committed 0 (take 5 (splice 0 sample (body mb))) else E_tau in
  '(ch, pl) ← delivered k l;
  Some ([E_attach rc; E_tau; E_tau; if rc2 =? 0 then E_sent 0 sample else E_tau; E_peek pn pc; E_read 0 d; E_pop;
         E_tau; E_tau; E_tau; e; E_taken; E_tau; E_tau; E_tau; E_unregister; E_reset; e2;
         match cb with Some f => E_delivered f ch pl | None => E_discarded end],
        World l [] [] [Keeper k (body kb) (len kb)] 1 (Service None None)).

Lemma runs_cons {S} (R : S -> event unit -> S -> Prop) s1 e s2 es s3 : R s1 e s2 -> runs R s2 es s3 -> runs R s1 (e :: es) s3.
Proof.
  intros H Hr. revert s1 e H. induction Hr as [s|s4 es s5 e' s6 Hr IH Hs]; intros s1 e H.
  - apply (runs_snoc R s1 [] s1); [constructor|done].
  - apply (runs_snoc R s1 (e :: es) s5); [by apply IH|done].
Qed.

Lemma demo_runs l0 es w : demo l0 = Some (es, w) -> runs (step B) (World l0 [] [] [] 0 (Service None None)) es w.
Proof.
  unfold demo. intros H.
  repeat lazymatch type of H with
  | (_ ≫= _) = Some _ => apply bind_Some in H as (? & ? & H)
  | (let '(_, _) := ?x in _) = Some _ => destruct x
  | (if negb ?b then _ else _) = Some _ => destruct b; [cbn [negb] in H|done]
  | (let x := _ in _) = Some _ => cbv zeta in H
  end.
  injection H as <- <-.
  repeat match goal with
  | H : match ?t with T_none => _ | _ => _ end = Some _ |- _ => destruct t; simplify_eq
  | H : (if ?m <=? ?n then _ else None) = Some _ |- _ => destruct (Z.leb_spec m n); [|done]
  end.
  eapply runs_cons; [by eapply (w_attach B)|].
  eapply runs_cons; [eapply (w_send_claim B _ _ _ _ 0 [7; 8; 9]); [cbn [length]; unfold LINK_DATA_PAYLOAD_MAX; lia|subst; eassumption]|].
  eapply runs_cons; [by eapply (w_send_fill B)|].
  eapply runs_cons; [eapply (w_send_commit B _ _ _ _ (copied (Sender _ 0 0 [7; 8; 9] false))); [reflexivity|reflexivity|eassumption]|].
  eapply runs_cons; [by eapply (w_peek B)|].
  eapply runs_cons; [eapply (w_read B _ _ _ _ _ 0 5); [reflexivity|eassumption|eassumption]|].
  eapply runs_cons; [eapply (w_pop B); [by eexists|eassumption]|].
  eapply runs_cons; [by eapply (w_claim B)|].
  eapply runs_cons; [eapply (w_fill B _ _ _ 0 sample); [reflexivity|reflexivity| |eassumption]; cbn [length sample]; unfold LINK_DATA_BODY_MAX, LINK_DATA_HDR, LINK_DATA_PAYLOAD_MAX; lia|].
  eapply runs_cons; [eapply (w_check B _ _ 5 (erpc_crc16 sample) true); [reflexivity|reflexivity|done|eassumption]|].
  eapply runs_cons; [eapply (w_commit_good B _ _ _ 5 (erpc_crc16 sample) (checked _ (filled 0 sample (Reader _ 0 _ None)))); [reflexivity|reflexivity|eassumption]|].
  eapply runs_cons; [by eapply (w_take B)|].
  eapply runs_cons; [by eapply (w_claim B)|].
  eapply runs_cons; [eapply (w_fill B _ _ _ 0 sample); [reflexivity|reflexivity| |eassumption]; cbn [length sample]; unfold LINK_DATA_BODY_MAX, LINK_DATA_HDR, LINK_DATA_PAYLOAD_MAX; lia|].
  eapply runs_cons; [eapply (w_check B _ _ 5 (erpc_crc16 sample) true); [reflexivity|reflexivity|done|eassumption]|].
  eapply runs_cons; [by eapply (w_unregister B)|].
  eapply runs_cons; [by eapply (w_reset B)|].
  eapply runs_cons; [eapply (w_commit_good B _ _ _ 5 (erpc_crc16 sample) (checked _ (filled 0 sample (Reader _ 0 _ None)))); [reflexivity|reflexivity|eassumption]|].
  eapply runs_cons; [by eapply (w_call B)|].
  constructor.
Qed.

Definition seen : list (event unit) :=
  [E_attach 0; E_tau; E_tau; E_sent 0 sample; E_peek 5 (erpc_crc16 sample); E_read 0 sample; E_pop; E_tau; E_tau; E_tau;
   E_committed 0 sample; E_taken; E_tau; E_tau; E_tau; E_unregister; E_reset; E_tau; E_delivered tt 0 [7; 8; 9]].

Lemma demo_seen : fst <$> demo boot = Some seen.
Proof. by vm_compute. Qed.

(** A consumer that has detached is called all the same, with a frame of the link that
    is gone, when the dispatcher had taken the frame before. *)
Theorem delivered_after_detach : exists w es, runs (step B) world0 (es ++ [E_unregister; E_reset; E_tau; E_delivered tt 0 [7; 8; 9]]) w.
Proof.
  pose proof demo_seen as E. destruct (demo boot) as [[es w]|] eqn:Hd; [|discriminate E]. injection E as ->.
  exists w, (take 15 seen). exact (demo_runs _ _ _ Hd).
Qed.

(** The frame committed before the reset and taken is delivered; the one claimed before
    it and committed after is not. *)
Lemma link_data_refines_witness : exists w, runs (step B) world0 seen w /\ exists c, runs spec channel0 seen c.
Proof.
  pose proof demo_seen as E. destruct (demo boot) as [[es w]|] eqn:Hd; [|discriminate E]. injection E as ->.
  pose proof (demo_runs _ _ _ Hd) as Hr. exists w. split; [exact Hr|]. apply (link_data_refines B eq_refl seen w Hr).
Defined.

Lemma link_data_ownership_witness : exists w, runs (step B) world0 seen w /\ ld_ready (wl w) = true /\ enabled B w /\
  forall k, k ∈ keepers w -> exists b, p_buf (ld_rx (wl w)) !! Z.to_nat (k_idx k) = Some b /\ body b = k_body k.
Proof.
  pose proof demo_seen as E. destruct (demo boot) as [[es w]|] eqn:Hd; [|discriminate E]. injection E as ->.
  pose proof (demo_runs _ _ _ Hd) as Hr. exists w. split; [exact Hr|].
  destruct (link_data_ownership B eq_refl seen w Hr) as (_ & _ & Hk & Hen). split; [|by split].
  assert (Hready : (ld_ready ∘ wl ∘ snd) <$> demo boot = Some true) by (vm_compute; reflexivity). rewrite Hd in Hready. by injection Hready.
Defined.
End LinkExample.
