(* ===== verification/Erpc.v ===== *)
(** * The RPC client of the Wi-Fi co-processor ([src/app/erpc.c]): calls

    Requests wait in four slots.  The service thread sends them within a budget of
    unanswered bytes, kept in a ledger, and routes each reply to the slot whose
    sequence number it carries; the caller collects it.  Every function here runs
    under [erpc_lock], so each is a step.  The frame reader and the service loop
    are in [ErpcReader]. *)

From stdpp Require Import relations gmap.
From S2P Require Import Prelude Crc16.
Local Open Scope Z_scope.

Definition ERPC_MAX_INFLIGHT : nat := 4.
Definition ERPC_REQ_MAX : Z := 320.
Definition ERPC_WIRE_BUDGET_SAFE : Z := 127.
Definition ERPC_WIRE_BUDGET_FAST : Z := 4096.
Definition ERPC_WIRE_DEBTS : nat := 8.
Definition ERPC_CODEC_VERSION : Z := 1.
Definition ERPC_MSGTYPE_REPLY : Z := 2.
Definition ERPC_CTRL_MAX : Z := 1600.
Definition ERPC_CTRL_HDR : Z := 4.

(** ** State *)

Inductive erpc_st : Type := ERPC_ST_FREE | ERPC_ST_QUEUED | ERPC_ST_SENT | ERPC_ST_DONE | ERPC_ST_ABANDONED.
#[export] Instance erpc_st_eq : EqDecision erpc_st.
Proof. solve_decision. Defined.

(** A caller's reply buffer is named by a number; threads too. *)
Record erpc_slot : Type := Slot {
  sl_state : erpc_st;
  sl_service : Z; sl_request : Z; sl_seq : Z;
  sl_out : option Z; sl_out_cap : Z; sl_reply_len : Z;
  sl_body_len : Z; sl_crc : Z;
  sl_waiter : option Z;
  sl_body : list Z;
}.

Record erpc_debt : Type := Debt { db_seq : Z; db_len : Z; db_used : bool }.

Record erpc_counters : Type := Counters {
  crc_fail : Z; oversize : Z; skipped_reply : Z; unsupported_invocation : Z; frame_stall : Z; ctrl_bad : Z;
}.

Record erpc_ctrl_slot : Type := Ctrl {
  ct_state : erpc_st; ct_cmd : Z; ct_seq : Z; ct_status : Z;
  ct_out : option Z; ct_out_cap : Z; ct_reply_len : Z; ct_body_len : Z; ct_crc : Z; ct_waiter : option Z; ct_body : list Z;
}.

(** [mem]: the reply buffers of the callers. *)
Record core : Type := Core {
  slots : list erpc_slot; debts : list erpc_debt;
  budget : Z; mod_gen : Z; erpc_seq : Z; link_up : bool; rr : Z;
  ctr : erpc_counters; ctrl : erpc_ctrl_slot; ctrl_seq : Z;
  mem : gmap Z (list Z);
}.

Definition set_slots (s : list erpc_slot) (c : core) : core := Core s (debts c) (budget c) (mod_gen c) (erpc_seq c) (link_up c) (rr c) (ctr c) (ctrl c) (ctrl_seq c) (mem c).
Definition set_debts (d : list erpc_debt) (c : core) : core := Core (slots c) d (budget c) (mod_gen c) (erpc_seq c) (link_up c) (rr c) (ctr c) (ctrl c) (ctrl_seq c) (mem c).
Definition set_erpc_seq (n : Z) (c : core) : core := Core (slots c) (debts c) (budget c) (mod_gen c) n (link_up c) (rr c) (ctr c) (ctrl c) (ctrl_seq c) (mem c).
Definition set_up (b : bool) (c : core) : core := Core (slots c) (debts c) (budget c) (mod_gen c) (erpc_seq c) b (rr c) (ctr c) (ctrl c) (ctrl_seq c) (mem c).
Definition set_rr (n : Z) (c : core) : core := Core (slots c) (debts c) (budget c) (mod_gen c) (erpc_seq c) (link_up c) n (ctr c) (ctrl c) (ctrl_seq c) (mem c).
Definition set_ctr (k : erpc_counters) (c : core) : core := Core (slots c) (debts c) (budget c) (mod_gen c) (erpc_seq c) (link_up c) (rr c) k (ctrl c) (ctrl_seq c) (mem c).
Definition set_ctrl (k : erpc_ctrl_slot) (c : core) : core := Core (slots c) (debts c) (budget c) (mod_gen c) (erpc_seq c) (link_up c) (rr c) (ctr c) k (ctrl_seq c) (mem c).
Definition set_mem (m : gmap Z (list Z)) (c : core) : core := Core (slots c) (debts c) (budget c) (mod_gen c) (erpc_seq c) (link_up c) (rr c) (ctr c) (ctrl c) (ctrl_seq c) m.

Definition add_crc_fail (k : erpc_counters) := Counters (crc_fail k +% 1) (oversize k) (skipped_reply k) (unsupported_invocation k) (frame_stall k) (ctrl_bad k).
Definition add_oversize (k : erpc_counters) := Counters (crc_fail k) (oversize k +% 1) (skipped_reply k) (unsupported_invocation k) (frame_stall k) (ctrl_bad k).
Definition add_skipped (k : erpc_counters) := Counters (crc_fail k) (oversize k) (skipped_reply k +% 1) (unsupported_invocation k) (frame_stall k) (ctrl_bad k).
Definition add_unsupported (k : erpc_counters) := Counters (crc_fail k) (oversize k) (skipped_reply k) (unsupported_invocation k +% 1) (frame_stall k) (ctrl_bad k).
Definition add_stall (k : erpc_counters) := Counters (crc_fail k) (oversize k) (skipped_reply k) (unsupported_invocation k) (frame_stall k +% 1) (ctrl_bad k).
Definition add_ctrl_bad (k : erpc_counters) := Counters (crc_fail k) (oversize k) (skipped_reply k) (unsupported_invocation k) (frame_stall k) (ctrl_bad k +% 1).
Definition count (f : erpc_counters -> erpc_counters) (c : core) : core := set_ctr (f (ctr c)) c.

(** [memcpy] into a caller's buffer; [None] outside it, or when it is gone. *)
Definition copy_out (out : option Z) (d : list Z) (m : gmap Z (list Z)) : option (gmap Z (list Z)) :=
  match out with
  | None => Some m
  | Some b =>
      if decide (d = []) then Some m
      else buf ← m !! b; if decide (length d <= length buf)%nat then Some (<[b:=splice 0 d buf]> m) else None
  end.

(** ** The wire ledger *)

Definition erpc_bytes_on_wire (c : core) : Z :=
  fold_left (fun sum d => if db_used d then u16 (sum + db_len d) else sum) (debts c) 0.

Fixpoint debt_add_loop (seq len : Z) (ds : list erpc_debt) : option (list erpc_debt) :=
  match ds with
  | [] => None
  | d :: ds => if db_used d then ds ← debt_add_loop seq len ds; Some (d :: ds) else Some (Debt seq len true :: ds)
  end.
(** The second component is the return value. *)
Definition erpc_debt_add (seq len : Z) (c : core) : core * Z :=
  match debt_add_loop seq len (debts c) with Some ds => (set_debts ds c, 0) | None => (c, -1) end.

Definition erpc_debt_have_room (c : core) : bool := existsb (fun d => negb (db_used d)) (debts c).

Definition erpc_debt_clear (seq : Z) (c : core) : core :=
  set_debts ((fun d => if db_used d && (db_seq d =? seq) then Debt (db_seq d) (db_len d) false else d) <$> debts c) c.

Definition erpc_debt_reset (c : core) : core := set_debts (replicate ERPC_WIRE_DEBTS (Debt 0 0 false)) c.

(** ** Slots *)

Definition upd_slot (i : nat) (f : erpc_slot -> erpc_slot) (c : core) : core := set_slots (alter f i (slots c)) c.

Definition erpc_slot_release (s : erpc_slot) : erpc_slot :=
  Slot ERPC_ST_FREE (sl_service s) (sl_request s) (sl_seq s) None 0 (sl_reply_len s) (sl_body_len s) (sl_crc s) None (sl_body s).
Definition set_slot_state (st : erpc_st) (s : erpc_slot) : erpc_slot :=
  Slot st (sl_service s) (sl_request s) (sl_seq s) (sl_out s) (sl_out_cap s) (sl_reply_len s) (sl_body_len s) (sl_crc s) (sl_waiter s) (sl_body s).
Definition set_waiter (t : Z) (s : erpc_slot) : erpc_slot :=
  Slot (sl_state s) (sl_service s) (sl_request s) (sl_seq s) (sl_out s) (sl_out_cap s) (sl_reply_len s) (sl_body_len s) (sl_crc s) (Some t) (sl_body s).
Definition complete (len : Z) (s : erpc_slot) : erpc_slot :=
  Slot ERPC_ST_DONE (sl_service s) (sl_request s) (sl_seq s) (sl_out s) (sl_out_cap s) len (sl_body_len s) (sl_crc s) (sl_waiter s) (sl_body s).

(** The result code and, with code 1, the reply's length. *)
Definition erpc_slot_settle (i : nat) (fail_rc : Z) (c : core) : option (Z * Z * core) :=
  s ← slots c !! i;
  if decide (sl_state s = ERPC_ST_DONE) then Some (1, sl_reply_len s, upd_slot i erpc_slot_release c)
  else if decide (sl_state s = ERPC_ST_ABANDONED) then Some (-2, -1, upd_slot i erpc_slot_release c)
  else if negb (fail_rc =? 0) then Some (fail_rc, -1, upd_slot i erpc_slot_release c)
  else Some (0, -1, c).

Fixpoint find_free_slot (i : nat) (ss : list erpc_slot) : option nat :=
  match ss with
  | [] => None
  | s :: ss => if decide (sl_state s = ERPC_ST_FREE) then Some i else find_free_slot (S i) ss
  end.

Definition msg_header (service request : Z) : Z :=
  Z.lor (Z.lor (Z.lor (Z.shiftl ERPC_CODEC_VERSION 24) (Z.shiftl service 16)) (Z.shiftl request 8)) 0.

(** The request as it will stand in the slot's body. *)
Definition request_body (service request seq : Z) (req : list Z) : list Z :=
  le32 (msg_header service request) ++ le32 seq ++ req.

(** [req]: [None] is a NULL pointer.  [None] as a result: [req_len] is more than is there. *)
Definition erpc_begin (service request : Z) (req : option (list Z)) (req_len : Z) (out : option Z) (out_cap : Z) (c : core) : option (Z * core) :=
  if (ERPC_REQ_MAX <? req_len) || (negb (req_len =? 0) && match req with None => true | _ => false end) then Some (-1, c)
  else if negb (link_up c) then Some (-1, c)
  else
    match find_free_slot 0 (slots c) with
    | None => Some (-1, c)
    | Some i =>
        s ← slots c !! i;
        let seq := erpc_seq c +% 1 in
        let d := request_body service request seq (take (Z.to_nat req_len) (default [] req)) in
        if decide (req_len <= Z.of_nat (length (default [] req)) /\ (length d <= length (sl_body s))%nat) then
          let body := splice 0 d (sl_body s) in
          let n := u16 (8 + req_len) in
          let s := Slot ERPC_ST_QUEUED service request seq out out_cap 0 n (erpc_crc16 (take (Z.to_nat n) body)) None body in
          Some (Z.of_nat i, set_slots (<[i:=s]> (slots c)) (set_erpc_seq seq c))
        else None
    end.

Definition token_ok (token : Z) : bool := (0 <=? token) && (token <? Z.of_nat ERPC_MAX_INFLIGHT).

(** The first section of [erpc_wait]: the token is the calling thread's from here on. *)
Definition wait_enter (token thread : Z) (c : core) : option (bool * core) :=
  if negb (token_ok token) then Some (false, c)
  else
    s ← slots c !! Z.to_nat token;
    if bool_decide (sl_state s = ERPC_ST_FREE) || match sl_waiter s with Some t => negb (t =? thread) | None => false end
    then Some (false, c)
    else Some (true, upd_slot (Z.to_nat token) (set_waiter thread) c).

(** Where a caller is between the locked sections: it has its token only; it is in
    [erpc_wait], before the test for a completion; it is about to give up with
    [rc]. *)
Inductive wait_pc : Type := W_begun | W_look | W_give (rc : Z).
#[export] Instance wait_pc_eq : EqDecision wait_pc.
Proof. solve_decision. Defined.

(** The first section of [erpc_wait]'s loop, and where the caller goes from there:
    [inl], it returns.  [abort] and [late]: what the abort hook and the deadline say
    after the section. *)
Definition wait_look (token : Z) (abort late : bool) (c : core) : option ((Z + wait_pc) * core) :=
  '(rc, len, c) ← erpc_slot_settle (Z.to_nat token) 0 c;
  if negb (rc =? 0) then Some (inl (if 0 <? rc then len else rc), c)
  else Some (inr (if abort then W_give (-4) else if late then W_give (-2) else W_look), c).

(** The last section: giving up with [rc], unless the reply has come meanwhile. *)
Definition wait_give (token rc : Z) (c : core) : option (Z * core) :=
  '(rc, len, c) ← erpc_slot_settle (Z.to_nat token) rc c; Some (if 0 <? rc then len else rc, c).

Definition erpc_cancel (token thread : Z) (c : core) : option core :=
  if negb (token_ok token) then Some c
  else
    s ← slots c !! Z.to_nat token;
    if negb (bool_decide (sl_state s = ERPC_ST_FREE)) && match sl_waiter s with None => true | Some t => t =? thread end
    then Some (upd_slot (Z.to_nat token) erpc_slot_release c) else Some c.

(** ** Routing a reply *)

Fixpoint find_sent (seq : Z) (i : nat) (ss : list erpc_slot) : option (nat * erpc_slot) :=
  match ss with
  | [] => None
  | s :: ss => if negb (bool_decide (sl_state s = ERPC_ST_SENT)) || negb (sl_seq s =? seq) then find_sent seq (S i) ss else Some (i, s)
  end.

Definition erpc_dispatch (body : list Z) (crc : Z) (c : core) : option core :=
  let len := Z.of_nat (length body) in
  if (len <? 8) || negb (erpc_crc16 body =? crc) then Some (count add_crc_fail c)
  else
    let hdr := get32 body in
    let seq := get32 (drop 4 body) in
    if negb (Z.land (Z.shiftr hdr 24) 255 =? ERPC_CODEC_VERSION) then Some (count add_crc_fail c)
    else if negb (Z.land hdr 255 =? ERPC_MSGTYPE_REPLY) then Some (count add_unsupported c)
    else
      let c := erpc_debt_clear seq c in
      match find_sent seq 0 (slots c) with
      | None => Some (count add_skipped c)
      | Some (i, s) =>
          if negb (Z.land (Z.shiftr hdr 16) 255 =? sl_service s) || negb (Z.land (Z.shiftr hdr 8) 255 =? sl_request s)
          then Some (count add_skipped c)
          else
            let plen := u16 (len - 8) in
            let copy := if plen <? sl_out_cap s then plen else sl_out_cap s in
            m ← copy_out (sl_out s) (take (Z.to_nat copy) (drop 8 body)) (mem c);
            Some (upd_slot i (complete plen) (set_mem m c))
      end.

(** ** Tearing the link down *)

Definition abandon_slot (s : erpc_slot) : erpc_slot :=
  if decide (sl_state s = ERPC_ST_FREE) then s
  else
    match sl_waiter s with
    | None => erpc_slot_release s
    | Some _ => Slot ERPC_ST_ABANDONED (sl_service s) (sl_request s) (sl_seq s) None 0 (sl_reply_len s) (sl_body_len s) (sl_crc s) (sl_waiter s) (sl_body s)
    end.

Definition erpc_ctrl_release (s : erpc_ctrl_slot) : erpc_ctrl_slot :=
  Ctrl ERPC_ST_FREE (ct_cmd s) (ct_seq s) (ct_status s) None 0 (ct_reply_len s) (ct_body_len s) (ct_crc s) None (ct_body s).
Definition abandon_ctrl (s : erpc_ctrl_slot) : erpc_ctrl_slot :=
  if decide (ct_state s = ERPC_ST_FREE) then s
  else
    match ct_waiter s with
    | None => erpc_ctrl_release s
    | Some _ => Ctrl ERPC_ST_ABANDONED (ct_cmd s) (ct_seq s) (ct_status s) None 0 (ct_reply_len s) (ct_body_len s) (ct_crc s) (ct_waiter s) (ct_body s)
    end.

(** [erpc_abandon_all] without the reader and the data channel. *)
Definition abandon_calls (c : core) : core :=
  let c := erpc_debt_reset (set_up false c) in
  set_slots (abandon_slot <$> slots c) (set_ctrl (abandon_ctrl (ctrl c)) c).

Definition erpc_set_module_gen (gen : Z) (c : core) : core :=
  Core (slots c) (debts c) (if 4 <=? gen then ERPC_WIRE_BUDGET_FAST else ERPC_WIRE_BUDGET_SAFE) gen (erpc_seq c) (link_up c) (rr c) (ctr c) (ctrl c) (ctrl_seq c) (mem c).

(** ** Sending *)

(** The slot the round robin picks: the first queued one, from [rr] on, that the
    budget admits; [None] also when the ledger is full. *)
Fixpoint send_pick (n : nat) (k : Z) (c : core) : option nat :=
  match n with
  | O => None
  | S n =>
      let i := (rr c + k) mod Z.of_nat ERPC_MAX_INFLIGHT in
      match slots c !! Z.to_nat i with
      | None => None
      | Some s =>
          if negb (bool_decide (sl_state s = ERPC_ST_QUEUED)) then send_pick n (k + 1) c
          else
            let frame_len := u16 (sl_body_len s + 4) in
            let on_wire := erpc_bytes_on_wire c in
            if negb (erpc_debt_have_room c) then None
            else if negb (on_wire =? 0) && (budget c <? on_wire +% frame_len) then send_pick n (k + 1) c
            else Some (Z.to_nat i)
      end
  end.

(** The frame written, and whether the stream is reset first (nothing on the wire
    and no data consumer). *)
Definition erpc_send_one (attached : bool) (c : core) : option (list Z * bool * core) :=
  if negb (link_up c) then None
  else
    i ← send_pick ERPC_MAX_INFLIGHT 0 c;
    s ← slots c !! i;
    let reset := (erpc_bytes_on_wire c =? 0) && negb attached in
    let '(c, _) := erpc_debt_add (sl_seq s) (u16 (sl_body_len s + 4)) c in
    Some (le16 (sl_body_len s) ++ le16 (sl_crc s) ++ take (Z.to_nat (sl_body_len s)) (sl_body s), reset,
          set_rr ((Z.of_nat i + 1) mod Z.of_nat ERPC_MAX_INFLIGHT) (upd_slot i (set_slot_state ERPC_ST_SENT) c)).

(** ** The CTRL slot *)

Definition erpc_ctrl_dispatch (body : list Z) (crc : Z) (c : core) : option (bool * core) :=
  let s := ctrl c in
  let len := Z.of_nat (length body) in
  if (len <? ERPC_CTRL_HDR) || negb (erpc_crc16 body =? crc) then Some (true, count add_ctrl_bad c)
  else if negb (bool_decide (ct_state s = ERPC_ST_SENT)) || negb (nth 0 body 0 =? ct_cmd s) || negb (nth 1 body 0 =? ct_seq s)
  then Some (false, count add_ctrl_bad c)
  else
    let plen := u16 (len - ERPC_CTRL_HDR) in
    let copy := if plen <? ct_out_cap s then plen else ct_out_cap s in
    m ← copy_out (ct_out s) (take (Z.to_nat copy) (drop (Z.to_nat ERPC_CTRL_HDR) body)) (mem c);
    Some (false, set_mem m (set_ctrl (Ctrl ERPC_ST_DONE (ct_cmd s) (ct_seq s) (nth 2 body 0) (ct_out s) (ct_out_cap s) plen (ct_body_len s) (ct_crc s) (ct_waiter s) (ct_body s)) c)).

Definition erpc_ctrl_settle (fail_rc : Z) (c : core) : Z * Z * Z * core :=
  let s := ctrl c in
  let released := set_ctrl (erpc_ctrl_release s) c in
  if decide (ct_state s = ERPC_ST_DONE) then (1, ct_reply_len s, ct_status s, released)
  else if decide (ct_state s = ERPC_ST_ABANDONED) then (-2, -1, 0, released)
  else if negb (fail_rc =? 0) then (fail_rc, -1, 0, released)
  else (0, -1, 0, c).

(** The section of [erpc_ctrl_call] that posts the command. *)
Definition ctrl_post (cmd thread : Z) (req : option (list Z)) (req_len : Z) (out : option Z) (out_cap : Z) (c : core) : option (bool * core) :=
  if (u16 (ERPC_CTRL_MAX - ERPC_CTRL_HDR) <? req_len) || (negb (req_len =? 0) && match req with None => true | _ => false end) then Some (false, c)
  else if negb (link_up c) || negb (bool_decide (ct_state (ctrl c) = ERPC_ST_FREE)) then Some (false, c)
  else
    let seq := u8 (ctrl_seq c + 1) in
    let d := cmd :: seq :: 0 :: 0 :: take (Z.to_nat req_len) (default [] req) in
    if decide (req_len <= Z.of_nat (length (default [] req)) /\ (length d <= length (ct_body (ctrl c)))%nat) then
      let body := splice 0 d (ct_body (ctrl c)) in
      let n := u16 (ERPC_CTRL_HDR + req_len) in
      Some (true, Core (slots c) (debts c) (budget c) (mod_gen c) (erpc_seq c) (link_up c) (rr c) (ctr c)
        (Ctrl ERPC_ST_QUEUED cmd seq 0 out out_cap 0 n (erpc_crc16 (take (Z.to_nat n) body)) (Some thread) body) seq (mem c))
    else None.

Definition erpc_ctrl_send (attached : bool) (c : core) : option (list Z * bool * core) :=
  let s := ctrl c in
  if negb (link_up c) || negb (bool_decide (ct_state s = ERPC_ST_QUEUED)) then None
  else Some (le16 65535 ++ le16 (ct_body_len s) ++ le16 (ct_crc s) ++ take (Z.to_nat (ct_body_len s)) (ct_body s),
             (erpc_bytes_on_wire c =? 0) && negb attached,
             set_ctrl (Ctrl ERPC_ST_SENT (ct_cmd s) (ct_seq s) (ct_status s) (ct_out s) (ct_out_cap s) (ct_reply_len s) (ct_body_len s) (ct_crc s) (ct_waiter s) (ct_body s)) c).

(** ** Callers

    A call that has begun and not returned, with what its caller passed.
    [c_no]: how many calls had begun, this one included; [c_reply]: the payload the
    dispatcher has accepted for it. *)

Record call : Type := Call {
  c_tok : nat; c_no : Z; c_thread : Z; c_service : Z; c_request : Z; c_req : list Z; c_out : option Z; c_cap : Z;
  c_pc : wait_pc; c_reply : option (list Z);
}.

Definition c_waiting (k : call) : bool := match c_pc k with W_begun => false | _ => true end.

Definition at_pc (p : wait_pc) (k : call) : call := Call (c_tok k) (c_no k) (c_thread k) (c_service k) (c_request k) (c_req k) (c_out k) (c_cap k) p (c_reply k).

(** A caller's buffer is allocated, big enough, and no other live call's. *)
Definition buffer_ok (m : gmap Z (list Z)) (out : option Z) (cap : Z) : Prop :=
  0 <= cap < 65536 /\ forall b, out = Some b -> exists buf, m !! b = Some buf /\ cap <= Z.of_nat (length buf).
Definition unused (out : option Z) (ks : list call) : Prop := forall b k, out = Some b -> k ∈ ks -> c_out k <> Some b.

Definition slot_state (c : core) (i : nat) : option erpc_st := sl_state <$> slots c !! i.

(** The dispatcher has just completed the slot of [k]. *)
Definition note_reply (c c' : core) (body : list Z) (k : call) : call :=
  if bool_decide (slot_state c (c_tok k) = Some ERPC_ST_SENT /\ slot_state c' (c_tok k) = Some ERPC_ST_DONE)
  then Call (c_tok k) (c_no k) (c_thread k) (c_service k) (c_request k) (c_req k) (c_out k) (c_cap k) (c_pc k) (Some (drop 8 body)) else k.

Record rpc : Type := Rpc { co : core; calls : list call; begun : Z }.

(** Whether [erpc_begin] may take a slot whose token an earlier caller still holds
    -- the link's loss frees the slot of a caller that is not in [erpc_wait] yet,
    and its token stays with it --: [Any], as the code allows, or [Fresh], never. *)
Inductive tokens : Type := Fresh | Any.

(** The steps: the locked sections of the callers and of the service thread, the loss
    and the opening of the link, and the callers' buffers coming and going. *)
Inductive rpc_step (tk : tokens) : rpc -> rpc -> Prop :=
  | r_begin c c' tok sv rq req out cap th ks n : is_u8 sv -> is_u8 rq -> Z.of_nat (length (default [] req)) <= ERPC_REQ_MAX ->
      buffer_ok (mem c) out cap -> unused out ks ->
      erpc_begin sv rq req (Z.of_nat (length (default [] req))) out cap c = Some (tok, c') ->
      (tk = Fresh -> Forall (fun k => Z.of_nat (c_tok k) <> tok) ks) ->
      rpc_step tk (Rpc c ks n)
        (if tok <? 0 then Rpc c' ks n else Rpc c' (Call (Z.to_nat tok) (n + 1) th sv rq (default [] req) out cap W_begun None :: ks) (n + 1))
  | r_enter c c' ok k ks ks0 n : ks ≡ₚ k :: ks0 -> c_pc k = W_begun -> wait_enter (Z.of_nat (c_tok k)) (c_thread k) c = Some (ok, c') ->
      rpc_step tk (Rpc c ks n) (if ok : bool then Rpc c' (at_pc W_look k :: ks0) n else Rpc c' ks0 n)
  | r_look c c' r a l k ks ks0 n : ks ≡ₚ k :: ks0 -> c_pc k = W_look -> wait_look (Z.of_nat (c_tok k)) a l c = Some (r, c') ->
      rpc_step tk (Rpc c ks n) (match r with inl _ => Rpc c' ks0 n | inr p => Rpc c' (at_pc p k :: ks0) n end)
  | r_give c c' rc v k ks ks0 n : ks ≡ₚ k :: ks0 -> c_pc k = W_give rc -> wait_give (Z.of_nat (c_tok k)) rc c = Some (v, c') ->
      rpc_step tk (Rpc c ks n) (Rpc c' ks0 n)
  | r_cancel c c' k ks ks0 n : ks ≡ₚ k :: ks0 -> c_pc k = W_begun -> erpc_cancel (Z.of_nat (c_tok k)) (c_thread k) c = Some c' ->
      rpc_step tk (Rpc c ks n) (Rpc c' ks0 n)
  | r_send c c' att fr rst ks n : erpc_send_one att c = Some (fr, rst, c') -> rpc_step tk (Rpc c ks n) (Rpc c' ks n)
  | r_dispatch c c' body crc ks n : bytes_ok body -> Z.of_nat (length body) < 65536 -> erpc_dispatch body crc c = Some c' ->
      rpc_step tk (Rpc c ks n) (Rpc c' (note_reply c c' body <$> ks) n)
  | r_abandon c ks n : rpc_step tk (Rpc c ks n) (Rpc (abandon_calls c) ks n)
  | r_opened c up ks n : rpc_step tk (Rpc c ks n) (Rpc (set_up up (erpc_debt_reset c)) ks n)
  | r_gen c g ks n : rpc_step tk (Rpc c ks n) (Rpc (erpc_set_module_gen g c) ks n)
  | r_alloc c b buf ks n : unused (Some b) ks -> rpc_step tk (Rpc c ks n) (Rpc (set_mem (<[b:=buf]> (mem c)) c) ks n)
  | r_free c b ks n : unused (Some b) ks -> rpc_step tk (Rpc c ks n) (Rpc (set_mem (delete b (mem c)) c) ks n).

Definition slot_zero : erpc_slot := Slot ERPC_ST_FREE 0 0 0 None 0 0 0 0 None (replicate (Z.to_nat (8 + ERPC_REQ_MAX)) 0).
Definition ctrl_zero : erpc_ctrl_slot := Ctrl ERPC_ST_FREE 0 0 0 None 0 0 0 0 None (replicate (Z.to_nat ERPC_CTRL_MAX) 0).
Definition core0 : core :=
  Core (replicate ERPC_MAX_INFLIGHT slot_zero) (replicate ERPC_WIRE_DEBTS (Debt 0 0 false)) ERPC_WIRE_BUDGET_SAFE 0 0 false 0
    (Counters 0 0 0 0 0 0) ctrl_zero 0 ∅.
Definition rpc0 : rpc := Rpc core0 [] 0.

(** *** The invariant *)

Definition holds_reply (m : gmap Z (list Z)) (k : call) (pl : list Z) : Prop :=
  forall b, c_out k = Some b -> exists buf, m !! b = Some buf /\
    let n := Nat.min (length pl) (Z.to_nat (c_cap k)) in take n buf = take n pl.

Definition call_body (k : call) : list Z := request_body (c_service k) (c_request k) (u32 (c_no k)) (c_req k).

Definition serves_call (m : gmap Z (list Z)) (k : call) (s : erpc_slot) : Prop :=
  sl_seq s = u32 (c_no k) /\ sl_service s = c_service k /\ sl_request s = c_request k /\
  sl_body_len s = 8 + Z.of_nat (length (c_req k)) /\ sl_body_len s <= 8 + ERPC_REQ_MAX /\
  take (Z.to_nat (sl_body_len s)) (sl_body s) = call_body k /\ sl_crc s = erpc_crc16 (call_body k) /\
  sl_waiter s = (if c_waiting k then Some (c_thread k) else None) /\
  (sl_state s = ERPC_ST_ABANDONED /\ c_waiting k = true \/
   match c_reply k with
   | Some pl => sl_state s = ERPC_ST_DONE /\ sl_reply_len s = Z.of_nat (length pl) /\ holds_reply m k pl
   | None => (sl_state s = ERPC_ST_QUEUED \/ sl_state s = ERPC_ST_SENT) /\ sl_out s = c_out k /\ sl_out_cap s = c_cap k
   end).

(** A caller that is not waiting may have lost its slot with the link. *)
Definition has_slot (m : gmap Z (list Z)) (k : call) (s : erpc_slot) : Prop :=
  serves_call m k s \/ c_waiting k = false /\ sl_state s = ERPC_ST_FREE.

Definition debts_ok (ds : list erpc_debt) : Prop :=
  length ds = ERPC_WIRE_DEBTS /\ Forall (fun d => db_used d = true -> 12 <= db_len d <= 12 + ERPC_REQ_MAX) ds.

(** The bytes the ledger holds. *)
Fixpoint wire_total (ds : list erpc_debt) : Z :=
  match ds with [] => 0 | d :: ds => (if db_used d then db_len d else 0) + wire_total ds end.

Record rpc_inv (w : rpc) : Prop := {
  ri_len : length (slots (co w)) = ERPC_MAX_INFLIGHT;
  ri_bodies : Forall (fun s => length (sl_body s) = Z.to_nat (8 + ERPC_REQ_MAX)) (slots (co w));
  ri_calls k : k ∈ calls w -> exists s, slots (co w) !! c_tok k = Some s /\ has_slot (mem (co w)) k s;
  ri_bufs k : k ∈ calls w -> buffer_ok (mem (co w)) (c_out k) (c_cap k);
  ri_toks : NoDup (c_tok <$> calls w);
  ri_others i s : slots (co w) !! i = Some s -> i ∉ c_tok <$> calls w -> sl_state s = ERPC_ST_FREE;
  ri_outs k k' b : k ∈ calls w -> k' ∈ calls w -> c_out k = Some b -> c_out k' = Some b -> c_tok k = c_tok k';
  ri_debts : debts_ok (debts (co w));
  ri_seq : erpc_seq (co w) = u32 (begun w);
  ri_give k rc : k ∈ calls w -> c_pc k = W_give rc -> rc = -4 \/ rc = -2;
}.

Section rpc.
Implicit Types (c : core) (k : call) (ks : list call) (s : erpc_slot).

Local Ltac rcbn := cbn [co calls begun slots debts mem erpc_seq budget link_up rr ctr ctrl upd_slot set_slots set_mem set_debts set_erpc_seq set_up set_rr set_ctr set_ctrl count] in *.

Lemma rpc_inv0 : rpc_inv rpc0.
Proof.
  split; unfold rpc0, core0; rcbn.
  - done.
  - apply Forall_replicate. cbn. by rewrite length_replicate.
  - intros k Hk. by apply elem_of_nil in Hk.
  - intros k Hk. by apply elem_of_nil in Hk.
  - constructor.
  - intros i s Hs _. apply lookup_replicate in Hs as [-> _]. done.
  - intros k k' b Hk. by apply elem_of_nil in Hk.
  - split; [done|]. by apply Forall_replicate.
  - done.
  - intros k rc Hk. by apply elem_of_nil in Hk.
Qed.

Lemma rpc_inv_perm c ks ks' n : ks ≡ₚ ks' -> rpc_inv (Rpc c ks n) -> rpc_inv (Rpc c ks' n).
Proof.
  intros Hp []. split; cbn in *; try done.
  - intros k Hk. apply ri_calls0. by rewrite Hp.
  - intros k Hk. apply ri_bufs0. by rewrite Hp.
  - by rewrite <-Hp.
  - intros i s Hs Hi. eapply ri_others0; [done|]. by rewrite Hp.
  - intros k k' b Hk Hk'. apply ri_outs0; by rewrite Hp.
  - intros k rc Hk. apply ri_give0. by rewrite Hp.
Qed.

Lemma slot_ok_busy m k s : serves_call m k s -> sl_state s <> ERPC_ST_FREE.
Proof. intros (_ & _ & _ & _ & _ & _ & _ & _ & [[-> _]|Hst]); [done|]. destruct (c_reply k); intuition congruence. Qed.

(** A call's slot, and the others'. *)
Lemma call_slot c k ks n : rpc_inv (Rpc c (k :: ks) n) ->
  (c_tok k < ERPC_MAX_INFLIGHT)%nat /\ (forall k', k' ∈ ks -> c_tok k' <> c_tok k) /\
  exists s, slots c !! c_tok k = Some s /\ has_slot (mem c) k s.
Proof.
  intros []; rcbn. destruct (ri_calls0 k) as (s & Hs & Hok); [set_solver|]. apply NoDup_cons in ri_toks0 as [Hni _].
  split; [|split].
  - rewrite <-ri_len0. by eapply lookup_lt_Some.
  - intros k' Hk' E. apply Hni. rewrite <-E. by apply list_elem_of_fmap_2.
  - exists s. eauto.
Qed.

Lemma has_slot_busy m k s : has_slot m k s -> c_waiting k = true \/ sl_state s <> ERPC_ST_FREE -> serves_call m k s /\ sl_state s <> ERPC_ST_FREE.
Proof. intros [H|[Hw Hf]] Hb; [by split; [|eapply slot_ok_busy]|]. destruct Hb; congruence. Qed.

Lemma slot_ok_mem m m' k s : (forall b, c_out k = Some b -> m' !! b = m !! b) -> serves_call m k s -> serves_call m' k s.
Proof.
  intros Hm (H1 & H2 & H3 & H4 & H5 & H6 & H7 & H8 & H9). unfold serves_call. split_and!; try done.
  destruct H9 as [?|H9]; [by left|right]. destruct (c_reply k) as [pl|]; [|done].
  destruct H9 as (? & ? & Hr). split_and!; [done..|]. intros b Hb. rewrite (Hm b Hb). by apply Hr.
Qed.

Lemma has_slot_mem m m' k s : (forall b, c_out k = Some b -> m' !! b = m !! b) -> has_slot m k s -> has_slot m' k s.
Proof. intros Hm [H|H]; [left; by eapply slot_ok_mem|by right]. Qed.

Lemma buffer_ok_mem m m' out cap : (forall b, out = Some b -> m' !! b = m !! b) -> buffer_ok m out cap -> buffer_ok m' out cap.
Proof. intros Hm [? Hb]. split; [done|]. intros b E. rewrite (Hm b E). by apply Hb. Qed.

(** The step changes only the slot of [k], which stays [k]'s, and its buffer. *)
Lemma rpc_inv_slot_mem c m k k' ks n f s : rpc_inv (Rpc c (k :: ks) n) -> slots c !! c_tok k = Some s ->
  (forall j b, j ∈ ks -> c_out j = Some b -> m !! b = mem c !! b) -> buffer_ok m (c_out k) (c_cap k) ->
  serves_call m k' (f s) -> length (sl_body (f s)) = length (sl_body s) ->
  c_tok k' = c_tok k -> c_out k' = c_out k -> c_cap k' = c_cap k -> (forall rc, c_pc k' = W_give rc -> rc = -4 \/ rc = -2) ->
  rpc_inv (Rpc (set_mem m (upd_slot (c_tok k) f c)) (k' :: ks) n).
Proof.
  intros I Hs Hm Hbuf Hok Hlen Ht Ho Hc Hg. destruct (call_slot _ _ _ _ I) as (Hlt & Hne & _). destruct I; rcbn.
  split; rcbn; try done.
  - by rewrite length_alter.
  - apply Forall_alter; [done|]. intros s' Hs' Hl. simplify_eq. congruence.
  - intros k0 [->|Hk0]%elem_of_cons.
    + exists (f s). split; [|by left]. by rewrite Ht, list_lookup_alter_eq, Hs.
    + destruct (ri_calls0 k0) as (s0 & Hs0 & Hok0); [by right|]. exists s0. split; [|eapply (has_slot_mem (mem c)); [intros b; by apply Hm|done]].
      rewrite list_lookup_alter_ne; [done|]. by apply not_eq_sym, Hne.
  - intros k0 [->|Hk0]%elem_of_cons; [by rewrite Ho, Hc|]. eapply (buffer_ok_mem (mem c)); [intros b; by apply Hm|]. apply ri_bufs0. by right.
  - by rewrite fmap_cons, Ht.
  - intros i s0 Hs0 Hi. rewrite fmap_cons, Ht in Hi. rewrite list_lookup_alter_ne in Hs0; [by eapply ri_others0|intros <-; apply Hi; by left].
  - intros k1 k2 b [->|H1]%elem_of_cons [->|H2]%elem_of_cons E1 E2; rewrite ?Ho in E1; rewrite ?Ho in E2; rewrite ?Ht; [done|..].
    + apply (ri_outs0 k k2 b); [by left|by right|done..].
    + apply (ri_outs0 k1 k b); [by right|by left|done..].
    + apply (ri_outs0 k1 k2 b); [by right|by right|done..].
  - intros k0 rc [->|Hk0]%elem_of_cons; [by apply Hg|]. apply ri_give0. by right.
Qed.

Lemma rpc_inv_slot c k k' ks n f s : rpc_inv (Rpc c (k :: ks) n) -> slots c !! c_tok k = Some s ->
  serves_call (mem c) k' (f s) -> length (sl_body (f s)) = length (sl_body s) ->
  c_tok k' = c_tok k -> c_out k' = c_out k -> c_cap k' = c_cap k -> (forall rc, c_pc k' = W_give rc -> rc = -4 \/ rc = -2) ->
  rpc_inv (Rpc (upd_slot (c_tok k) f c) (k' :: ks) n).
Proof.
  intros I Hs Hok Hlen Ht Ho Hc Hg. pose proof (ri_bufs _ I k ltac:(by left)) as Hb.
  exact (rpc_inv_slot_mem c (mem c) k k' ks n f s I Hs (fun _ _ _ _ => eq_refl) Hb Hok Hlen Ht Ho Hc Hg).
Qed.

(** A release ends the call. *)
Lemma rpc_inv_release c k ks n : rpc_inv (Rpc c (k :: ks) n) -> rpc_inv (Rpc (upd_slot (c_tok k) erpc_slot_release c) ks n).
Proof.
  intros I. destruct (call_slot _ _ _ _ I) as (Hlt & Hne & s & Hs & _). destruct I; rcbn. apply NoDup_cons in ri_toks0 as [Hni Hnd].
  split; rcbn; try done.
  - by rewrite length_alter.
  - apply Forall_alter; [done|]. intros s' Hs' Hl. by simplify_eq.
  - intros k0 Hk0. destruct (ri_calls0 k0) as (s0 & Hs0 & Hok0); [set_solver|]. exists s0. split; [|done].
    rewrite list_lookup_alter_ne; [done|]. by apply not_eq_sym, Hne.
  - intros k0 Hk0. apply ri_bufs0. set_solver.
  - intros i s0 Hs0 Hi. destruct (decide (i = c_tok k)) as [->|].
    + rewrite list_lookup_alter_eq, Hs in Hs0. by simplify_eq/=.
    + rewrite list_lookup_alter_ne in Hs0 by done. eapply ri_others0; [done|]. set_solver.
  - intros k1 k2 b H1 H2. apply ri_outs0; set_solver.
  - intros k0 rc Hk0. apply ri_give0. set_solver.
Qed.

(** A call that is over: its slot was lost already. *)
Lemma rpc_inv_drop c k ks n s : rpc_inv (Rpc c (k :: ks) n) -> slots c !! c_tok k = Some s -> sl_state s = ERPC_ST_FREE -> rpc_inv (Rpc c ks n).
Proof.
  intros I Hs Hf. destruct I; rcbn. apply NoDup_cons in ri_toks0 as [Hni Hnd]. split; rcbn; try done.
  - intros k0 Hk0. apply ri_calls0. set_solver.
  - intros k0 Hk0. apply ri_bufs0. set_solver.
  - intros i s0 Hs0 Hi. destruct (decide (i = c_tok k)) as [->|]; [by simplify_eq|]. eapply ri_others0; [done|]. set_solver.
  - intros k1 k2 b H1 H2. apply ri_outs0; set_solver.
  - intros k0 rc Hk0. apply ri_give0. set_solver.
Qed.

(** *** Each operation *)

Lemma find_free_slot_Some i ss j : find_free_slot i ss = Some j -> exists n s, j = (i + n)%nat /\ ss !! n = Some s /\ sl_state s = ERPC_ST_FREE.
Proof.
  revert i. induction ss as [|s ss IH]; intros i E; [done|]. cbn [find_free_slot] in E. destruct (decide (sl_state s = ERPC_ST_FREE)) as [|_].
  - simplify_eq. exists O, s. by rewrite Nat.add_0_r.
  - apply IH in E as (n & s' & -> & Hs & Hf). exists (S n), s'. split; [lia|done].
Qed.

Lemma request_body_length sv rq seq req : length (request_body sv rq seq req) = (8 + length req)%nat.
Proof. unfold request_body, le32. by rewrite !length_app. Qed.

Lemma take_splice0 (d l : list Z) : take (length d) (splice 0 d l) = d.
Proof. unfold splice. rewrite take_0. cbn [app]. by rewrite take_app_length. Qed.

Lemma begin_inv c ks n sv rq req out cap th : rpc_inv (Rpc c ks n) -> is_u8 sv -> is_u8 rq ->
  Z.of_nat (length (default [] req)) <= ERPC_REQ_MAX -> buffer_ok (mem c) out cap -> unused out ks ->
  exists tok c', erpc_begin sv rq req (Z.of_nat (length (default [] req))) out cap c = Some (tok, c') /\
    (Forall (fun k => Z.of_nat (c_tok k) <> tok) ks ->
     rpc_inv (if tok <? 0 then Rpc c' ks n else Rpc c' (Call (Z.to_nat tok) (n + 1) th sv rq (default [] req) out cap W_begun None :: ks) (n + 1))).
Proof.
  intros I Hsv Hrq Hreq Hbuf Hun. unfold erpc_begin.
  set (q := default [] req) in *. destruct (_ || _) eqn:E0; [by exists (-1), c|].
  destruct (link_up c); cbn [negb]; [|by exists (-1), c].
  destruct (find_free_slot 0 (slots c)) as [i|] eqn:Ef; [|by exists (-1), c].
  apply find_free_slot_Some in Ef as (i' & s & -> & Hs & Hfree). cbn [Nat.add]. rewrite Hs. cbn [mbind option_bind].
  rewrite Nat2Z.id, firstn_all. destruct I; rcbn.
  assert (Hbl : length (sl_body s) = Z.to_nat (8 + ERPC_REQ_MAX)) by (eapply Forall_lookup_1 in ri_bodies0; eauto).
  set (seq := erpc_seq c +% 1). set (d := request_body sv rq seq q).
  assert (Hd : length d = (8 + length q)%nat) by apply request_body_length.
  rewrite decide_True by (split; [lia|]; rewrite Hd, Hbl; unfold ERPC_REQ_MAX in *; lia).
  eexists _, _. split; [reflexivity|]. intros Hfresh. rewrite Forall_forall in Hfresh. rewrite (proj2 (Z.ltb_ge (Z.of_nat i') 0)) by lia. rewrite Nat2Z.id.
  assert (Hu : u16 (8 + Z.of_nat (length q)) = 8 + Z.of_nat (length q)) by (unfold u16, ERPC_REQ_MAX in *; apply Z.mod_small; lia).
  rewrite Hu. replace (Z.to_nat (8 + Z.of_nat (length q))) with (length d) by lia. rewrite take_splice0.
  set (k := Call i' (n + 1) th sv rq q out cap W_begun None).
  assert (Hi : i' ∉ c_tok <$> ks).
  { intros (k' & -> & Hk)%list_elem_of_fmap. by apply (Hfresh k'). }
  assert (Hne : forall k', k' ∈ ks -> i' <> c_tok k') by (intros k' Hk' ->; apply Hi; by apply list_elem_of_fmap_2).
  assert (Hseq : seq = u32 (n + 1)) by (unfold seq; rewrite ri_seq0; apply u32_add_l).
  split; rcbn; try done.
  - by rewrite length_insert.
  - apply Forall_insert; [done|]. cbn [sl_body]. by rewrite length_splice by lia.
  - intros k' [->|Hk']%elem_of_cons.
    + eexists. split; [apply list_lookup_insert_eq; by eapply lookup_lt_Some|]. left. unfold serves_call, call_body, c_waiting.
      cbn [sl_seq sl_service sl_request sl_body_len sl_body sl_crc sl_waiter sl_state sl_out sl_out_cap k c_service c_request c_req c_no c_pc c_reply c_out c_cap c_thread].
      rewrite <-Hseq. split_and!; try done; [lia| |by right; split; [left|]].
      replace (Z.to_nat (8 + Z.of_nat (length q))) with (length d) by lia. apply take_splice0.
    + destruct (ri_calls0 k' Hk') as (s' & Hs' & Hok'). exists s'. rewrite list_lookup_insert_ne by auto. done.
  - intros k' [->|Hk']%elem_of_cons; [done|auto].
  - rewrite fmap_cons. by constructor.
  - intros i s' Hs' Hni. rewrite fmap_cons in Hni. apply not_elem_of_cons in Hni as [Hne' Hni].
    rewrite list_lookup_insert_ne in Hs' by done. eauto.
  - intros k1 k2 b [->|H1]%elem_of_cons [->|H2]%elem_of_cons E1 E2; [done| | |eauto].
    + exfalso. by eapply Hun.
    + exfalso. by eapply Hun.
  - intros k' rc [->|Hk']%elem_of_cons; [done|]. by apply ri_give0.
Qed.

Lemma tok_ok k : (c_tok k < ERPC_MAX_INFLIGHT)%nat -> token_ok (Z.of_nat (c_tok k)) = true.
Proof. intros. unfold token_ok. apply andb_true_intro. split; [apply Z.leb_le|apply Z.ltb_lt]; lia. Qed.

(** [erpc_wait] is entered, unless the link's loss has freed the slot. *)
Lemma enter_inv c k ks n : rpc_inv (Rpc c (k :: ks) n) -> c_pc k = W_begun ->
  exists c', wait_enter (Z.of_nat (c_tok k)) (c_thread k) c = Some (negb (bool_decide (slot_state c (c_tok k) = Some ERPC_ST_FREE)), c') /\
    rpc_inv (if bool_decide (slot_state c (c_tok k) = Some ERPC_ST_FREE) then Rpc c' ks n else Rpc c' (at_pc W_look k :: ks) n).
Proof.
  intros I Hw. destruct (call_slot _ _ _ _ I) as (Hlt & Hne & s & Hs & Hok).
  assert (Hwf : c_waiting k = false) by (unfold c_waiting; by rewrite Hw).
  unfold wait_enter, slot_state. rewrite (tok_ok k Hlt), Nat2Z.id, Hs. cbn [negb mbind option_bind fmap option_fmap option_map].
  destruct (decide (sl_state s = ERPC_ST_FREE)) as [Hf|Hb].
  - rewrite !bool_decide_eq_true_2 by congruence. cbn [orb negb]. exists c. split; [done|]. by eapply rpc_inv_drop.
  - rewrite !bool_decide_eq_false_2 by congruence. destruct (has_slot_busy _ _ _ Hok (or_intror Hb)) as [(H1 & H2 & H3 & H4 & H5 & H6 & H7 & H8 & H9) _].
    rewrite Hwf in H8, H9. rewrite H8. cbn [orb negb]. eexists. split; [done|].
    destruct H9 as [[_ ?]|H9]; [done|]. apply (rpc_inv_slot c k (at_pc W_look k) ks n _ s); try done.
    unfold serves_call. cbn. split_and!; try done. by right.
Qed.

(** What a caller in [erpc_wait] is answered, when there is an answer: the link was
    torn down, or its reply has been accepted. *)
Definition answer c k : option Z :=
  if decide (slot_state c (c_tok k) = Some ERPC_ST_ABANDONED) then Some (-2) else Z.of_nat ∘ length <$> c_reply k.

(** The reply is in the caller's buffer, unless the link was torn down since. *)
Definition reply_in_buffer c k : Prop :=
  slot_state c (c_tok k) <> Some ERPC_ST_ABANDONED -> forall pl, c_reply k = Some pl -> holds_reply (mem c) k pl.

Lemma settle_spec c i s rc : slots c !! i = Some s ->
  erpc_slot_settle i rc c =
    Some (match sl_state s with
          | ERPC_ST_DONE => (1, sl_reply_len s, upd_slot i erpc_slot_release c)
          | ERPC_ST_ABANDONED => (-2, -1, upd_slot i erpc_slot_release c)
          | _ => if rc =? 0 then (0, -1, c) else (rc, -1, upd_slot i erpc_slot_release c)
          end).
Proof. intros Hs. unfold erpc_slot_settle. rewrite Hs. cbn [mbind option_bind]. destruct (sl_state s); rewrite ?decide_True, ?decide_False by done; by destruct (rc =? 0). Qed.

(** The answer of a section of a waiting caller: its own, or else [rc]. *)
Lemma settle_answer c k ks n rc : rpc_inv (Rpc c (k :: ks) n) -> c_waiting k = true -> rc <= 0 ->
  reply_in_buffer c k /\
  exists r len c', erpc_slot_settle (c_tok k) rc c = Some (r, len, c') /\ mem c' = mem c /\
    match answer c k with
    | Some v => r <> 0 /\ (if 0 <? r then len else r) = v /\ slot_state c' (c_tok k) = Some ERPC_ST_FREE /\ rpc_inv (Rpc c' ks n)
    | None => r = rc /\ (rc = 0 -> c' = c) /\ (rc <> 0 -> slot_state c' (c_tok k) = Some ERPC_ST_FREE /\ rpc_inv (Rpc c' ks n))
    end.
Proof.
  intros I Hw Hrc. destruct (call_slot _ _ _ _ I) as (Hlt & Hne & s & Hs & Hok).
  destruct (has_slot_busy _ _ _ Hok (or_introl Hw)) as [(_ & _ & _ & _ & _ & _ & _ & _ & H9) Hb].
  assert (Hrel : slot_state (upd_slot (c_tok k) erpc_slot_release c) (c_tok k) = Some ERPC_ST_FREE /\ rpc_inv (Rpc (upd_slot (c_tok k) erpc_slot_release c) ks n)).
  { split; [|by apply rpc_inv_release]. unfold slot_state. rcbn. by rewrite list_lookup_alter_eq, Hs. }
  assert (Hst : slot_state c (c_tok k) = Some (sl_state s)) by (unfold slot_state; by rewrite Hs).
  unfold reply_in_buffer, answer. rewrite Hst, (settle_spec c _ s rc Hs).
  destruct H9 as [[H9 _]|H9].
  - rewrite H9, decide_True by done. split; [done|]. eexists _, _, _. split; [done|]. split; [done|]. split; [done|]. split; [done|]. exact Hrel.
  - assert (Hna : Some (sl_state s) <> Some ERPC_ST_ABANDONED) by (destruct (c_reply k); intuition congruence).
    rewrite decide_False by exact Hna. destruct (c_reply k) as [pl|].
    + destruct H9 as (H9 & Hl & Hr). rewrite H9. split; [by intros _ ? [= <-]|]. eexists _, _, _. split; [done|]. split; [done|].
      split; [done|]. split; [exact Hl|]. exact Hrel.
    + split; [done|]. destruct H9 as [H9 _]. destruct (Z.eqb_spec rc 0) as [->|Hz].
      * exists 0, (-1), c. split; [by destruct H9 as [-> | ->]|]. done.
      * exists rc, (-1), (upd_slot (c_tok k) erpc_slot_release c). split; [by destruct H9 as [-> | ->]|]. split; [done|]. split; [done|]. split; [done|]. intros _. exact Hrel.
Qed.

(** Only the caller's own place changes. *)
Lemma rpc_inv_pc c k ks n p : rpc_inv (Rpc c (k :: ks) n) -> c_waiting k = true -> p <> W_begun -> (forall rc, p = W_give rc -> rc = -4 \/ rc = -2) ->
  rpc_inv (Rpc c (at_pc p k :: ks) n).
Proof.
  intros [] Hw Hp Hg; rcbn. assert (Hw' : c_waiting (at_pc p k) = true) by (unfold c_waiting; by destruct p).
  split; rcbn; try done.
  - intros k0 [->|Hk0]%elem_of_cons; [|apply ri_calls0; by right]. destruct (ri_calls0 k) as (s & Hs & Hok); [by left|]. exists s. split; [done|].
    destruct Hok as [Hok|[? _]]; [left|congruence]. unfold serves_call in *. rewrite Hw in Hok. rewrite Hw'. exact Hok.
  - intros k0 [->|Hk0]%elem_of_cons; [apply (ri_bufs0 k); by left|apply ri_bufs0; by right].
  - intros k1 k2 b [->|H1]%elem_of_cons [->|H2]%elem_of_cons E1 E2; [done|..].
    + apply (ri_outs0 k k2 b); [by left|by right|done..].
    + apply (ri_outs0 k1 k b); [by right|by left|done..].
    + apply (ri_outs0 k1 k2 b); [by right|by right|done..].
  - intros k0 rc [->|Hk0]%elem_of_cons; [apply Hg|apply ri_give0; by right].
Qed.

Definition next_look (a l : bool) : wait_pc := if a then W_give (-4) else if l then W_give (-2) else W_look.

Lemma look_inv c k ks n a l : rpc_inv (Rpc c (k :: ks) n) -> c_pc k = W_look ->
  reply_in_buffer c k /\
  exists r c', wait_look (Z.of_nat (c_tok k)) a l c = Some (r, c') /\ mem c' = mem c /\
    r = (match answer c k with Some v => inl v | None => inr (next_look a l) end) /\
    match answer c k with
    | Some _ => slot_state c' (c_tok k) = Some ERPC_ST_FREE /\ rpc_inv (Rpc c' ks n)
    | None => c' = c /\ rpc_inv (Rpc c' (at_pc (next_look a l) k :: ks) n)
    end.
Proof.
  intros I Hp. assert (Hw : c_waiting k = true) by (unfold c_waiting; by rewrite Hp).
  destruct (settle_answer c k ks n 0 I Hw ltac:(lia)) as (Hd & r & len & c' & E & Hm & Ha). split; [done|].
  unfold wait_look. rewrite Nat2Z.id, E. cbn [mbind option_bind]. destruct (answer c k) as [v|].
  - destruct Ha as (Hr & Hv & H3). rewrite (proj2 (Z.eqb_neq _ _) Hr), Hv. cbn [negb]. eexists _, _. split; [done|]. split; [done|]. split; [done|]. exact H3.
  - destruct Ha as (-> & Hc & _). rewrite (Hc eq_refl). cbn [Z.eqb negb]. eexists _, _. split; [done|]. split; [done|]. split; [done|]. split; [done|].
    apply rpc_inv_pc; [done|done|by destruct a, l|]. intros rc. destruct a, l; intros [= <-]; auto.
Qed.

Lemma give_inv c k ks n rc : rpc_inv (Rpc c (k :: ks) n) -> c_pc k = W_give rc ->
  (rc = -4 \/ rc = -2) /\ reply_in_buffer c k /\
  exists c', wait_give (Z.of_nat (c_tok k)) rc c = Some (default rc (answer c k), c') /\ mem c' = mem c /\
    slot_state c' (c_tok k) = Some ERPC_ST_FREE /\ rpc_inv (Rpc c' ks n).
Proof.
  intros I Hp. assert (Hw : c_waiting k = true) by (unfold c_waiting; by rewrite Hp).
  pose proof (ri_give _ I k rc ltac:(by left) Hp) as Hrc. split; [done|].
  destruct (settle_answer c k ks n rc I Hw ltac:(lia)) as (Hd & r & len & c' & E & Hm & Ha). split; [done|].
  unfold wait_give. rewrite Nat2Z.id, E. cbn [mbind option_bind]. exists c'. destruct (answer c k) as [v|].
  - destruct Ha as (Hr & Hv & H3). rewrite Hv. by split.
  - destruct Ha as (-> & _ & Hc). rewrite (proj2 (Z.ltb_ge 0 rc)) by lia. split; [done|]. split; [done|]. apply Hc. lia.
Qed.

Lemma cancel_inv c k ks n : rpc_inv (Rpc c (k :: ks) n) -> c_pc k = W_begun ->
  exists c', erpc_cancel (Z.of_nat (c_tok k)) (c_thread k) c = Some c' /\ rpc_inv (Rpc c' ks n) /\ slot_state c' (c_tok k) = Some ERPC_ST_FREE.
Proof.
  intros I Hw. destruct (call_slot _ _ _ _ I) as (Hlt & Hne & s & Hs & Hok).
  assert (Hwf : c_waiting k = false) by (unfold c_waiting; by rewrite Hw).
  unfold erpc_cancel. rewrite (tok_ok k Hlt), Nat2Z.id, Hs. cbn [negb mbind option_bind].
  destruct (decide (sl_state s = ERPC_ST_FREE)) as [Hf|Hb].
  - rewrite bool_decide_eq_true_2 by done. exists c. split; [done|]. split; [by eapply rpc_inv_drop|]. unfold slot_state. by rewrite Hs, <-Hf.
  - rewrite bool_decide_eq_false_2 by done. destruct (has_slot_busy _ _ _ Hok (or_intror Hb)) as [(_ & _ & _ & _ & _ & _ & _ & H8 & _) _].
    rewrite Hwf in H8. rewrite H8. eexists. split; [done|]. split; [by apply rpc_inv_release|].
    unfold slot_state. rcbn. by rewrite list_lookup_alter_eq, Hs.
Qed.

(** Operations that leave the slots and buffers alone. *)
Lemma rpc_inv_frame c c' ks n : rpc_inv (Rpc c ks n) -> slots c' = slots c -> mem c' = mem c -> erpc_seq c' = erpc_seq c ->
  debts_ok (debts c') -> rpc_inv (Rpc c' ks n).
Proof. intros [] Hs Hm Hq Hd; rcbn. split; rcbn; rewrite ?Hs, ?Hm, ?Hq; done. Qed.

Lemma debts_reset_ok c : debts_ok (debts (erpc_debt_reset c)).
Proof. unfold erpc_debt_reset. rcbn. split; [by rewrite length_replicate|]. by apply Forall_replicate. Qed.

Lemma abandon_inv c ks n : rpc_inv (Rpc c ks n) -> rpc_inv (Rpc (abandon_calls c) ks n).
Proof.
  intros I. pose proof (debts_reset_ok c) as Hd. unfold erpc_debt_reset in Hd. rcbn. destruct I; rcbn.
  split; unfold abandon_calls, erpc_debt_reset; rcbn; try done.
  - by rewrite length_fmap.
  - apply Forall_fmap. eapply Forall_impl; [done|]. intros s Hs. unfold compose, abandon_slot, erpc_slot_release.
    case_decide; [done|]. by destruct (sl_waiter s).
  - intros k Hk. destruct (ri_calls0 k Hk) as (s & Hs & Hok). exists (abandon_slot s). split; [by rewrite list_lookup_fmap, Hs|].
    destruct Hok as [Hok|[Hw Hf]]; [|right; split; [done|]; unfold abandon_slot; by rewrite decide_True].
    pose proof (slot_ok_busy _ _ _ Hok) as Hbusy. destruct Hok as (H1 & H2 & H3 & H4 & H5 & H6 & H7 & H8 & _).
    unfold abandon_slot. rewrite decide_False, H8 by done. destruct (c_waiting k) eqn:Ew; [left|by right].
    unfold serves_call. rewrite Ew. cbn. split_and!; try done. by left.
  - intros i s Hs Hi. rewrite list_lookup_fmap in Hs. destruct (slots c !! i) as [s0|] eqn:Es; [|done].
    cbn in Hs. simplify_eq. unfold abandon_slot. rewrite decide_True; eauto.
Qed.

Lemma wire_total_bounds ds : Forall (fun d => db_used d = true -> 12 <= db_len d <= 12 + ERPC_REQ_MAX) ds ->
  0 <= wire_total ds <= 332 * Z.of_nat (length ds) /\ (wire_total ds = 0 -> Forall (fun d => db_used d = false) ds).
Proof.
  induction 1 as [|d ds Hd _ [IH1 IH2]]; cbn [wire_total length] in *; [split; [lia|constructor]|].
  unfold ERPC_REQ_MAX in *. destruct (db_used d) eqn:E; [specialize (Hd eq_refl)|]; (split; [lia|]); intros H0.
  - lia.
  - constructor; [done|]. apply IH2. lia.
Qed.

Lemma bytes_on_wire_eq c : debts_ok (debts c) -> erpc_bytes_on_wire c = wire_total (debts c).
Proof.
  intros [Hl Hf]. pose proof (wire_total_bounds _ Hf) as [Hb _]. rewrite Hl in Hb. unfold ERPC_WIRE_DEBTS in Hb.
  assert (H : forall ds sum, Forall (fun d => db_used d = true -> 12 <= db_len d <= 12 + ERPC_REQ_MAX) ds -> 0 <= sum -> sum + wire_total ds < 65536 ->
    fold_left (fun sum d => if db_used d then u16 (sum + db_len d) else sum) ds sum = sum + wire_total ds).
  { induction ds as [|d ds IH]; intros sum Hds Hs Hlt; cbn [fold_left wire_total] in *; [lia|].
    apply Forall_cons in Hds as [Hd Hds]. pose proof (wire_total_bounds ds Hds) as [Hds' _].
    destruct (db_used d); [specialize (Hd eq_refl); rewrite u16_small by (unfold is_u16; lia)|]; rewrite IH; try done; lia. }
  apply (H (debts c) 0); [done|lia..].
Qed.

Lemma debt_add_spec c seq len : debts_ok (debts c) -> erpc_debt_have_room c = true -> 12 <= len <= 12 + ERPC_REQ_MAX ->
  exists ds, erpc_debt_add seq len c = (set_debts ds c, 0) /\ debts_ok ds /\ wire_total ds = wire_total (debts c) + len.
Proof.
  intros [Hl Hf] Hroom Hlen. unfold erpc_debt_have_room in Hroom. unfold erpc_debt_add.
  assert (H : forall ds, Forall (fun d => db_used d = true -> 12 <= db_len d <= 12 + ERPC_REQ_MAX) ds -> existsb (fun d => negb (db_used d)) ds = true ->
    exists ds', debt_add_loop seq len ds = Some ds' /\ length ds' = length ds /\
      Forall (fun d => db_used d = true -> 12 <= db_len d <= 12 + ERPC_REQ_MAX) ds' /\ wire_total ds' = wire_total ds + len).
  { induction ds as [|d ds IH]; intros Hds He; [done|]. cbn [existsb debt_add_loop] in *. apply Forall_cons in Hds as [Hd Hds].
    destruct (db_used d) eqn:Eu; cbn [negb orb] in He.
    - destruct (IH Hds He) as (ds' & -> & Hl' & Hf' & Hw). exists (d :: ds'). cbn [mbind option_bind length wire_total]. rewrite Eu.
      split_and!; [done|lia|by constructor; [rewrite Eu|]|lia].
    - exists (Debt seq len true :: ds). cbn [length wire_total db_used db_len]. rewrite Eu. split_and!; [done..|by constructor|lia]. }
  destruct (H _ Hf Hroom) as (ds & -> & Hl' & Hf' & Hw). exists ds. split; [done|]. split; [|done]. split; [congruence|done].
Qed.

Lemma send_pick_Some n (j : Z) c i : send_pick n j c = Some i -> exists s, slots c !! i = Some s /\ sl_state s = ERPC_ST_QUEUED /\
  erpc_debt_have_room c = true /\ (erpc_bytes_on_wire c = 0 \/ erpc_bytes_on_wire c +% u16 (sl_body_len s + 4) <= budget c).
Proof.
  revert j. induction n as [|n IH]; intros j E; [done|]. cbn [send_pick] in E.
  destruct (slots c !! Z.to_nat _) as [s|] eqn:Es; [|done]. destruct (bool_decide_reflect (sl_state s = ERPC_ST_QUEUED)); cbn [negb] in E; [|eauto].
  destruct (erpc_debt_have_room c) eqn:Er; cbn [negb] in E; [|done]. destruct (negb _ && _) eqn:Eb; [eauto|].
  simplify_eq. exists s. split_and!; try done. apply andb_false_iff in Eb as [Eb|Eb]; [left|right].
  - by apply negb_false_iff, Z.eqb_eq in Eb.
  - by apply Z.ltb_ge in Eb.
Qed.
Lemma slot_call c ks n i s : rpc_inv (Rpc c ks n) -> slots c !! i = Some s -> sl_state s <> ERPC_ST_FREE ->
  exists k ks', ks ≡ₚ k :: ks' /\ c_tok k = i /\ serves_call (mem c) k s.
Proof.
  intros [] Hs Hb; rcbn. destruct (decide (i ∈ c_tok <$> ks)) as [(k & -> & Hk)%list_elem_of_fmap|Hn]; [|by destruct Hb; eauto].
  apply elem_of_Permutation in Hk as Hp. destruct Hp as (ks' & Hp). exists k, ks'. split_and!; [done..|].
  destruct (ri_calls0 k Hk) as (s' & Hs' & Hok). simplify_eq. by apply has_slot_busy; [|right].
Qed.

Lemma send_inv c ks n att fr rst c' : rpc_inv (Rpc c ks n) -> erpc_send_one att c = Some (fr, rst, c') ->
  rpc_inv (Rpc c' ks n) /\ link_up c = true /\
  exists k, k ∈ ks /\ slot_state c (c_tok k) = Some ERPC_ST_QUEUED /\ slot_state c' (c_tok k) = Some ERPC_ST_SENT /\
    fr = le16 (Z.of_nat (length (call_body k))) ++ le16 (erpc_crc16 (call_body k)) ++ call_body k /\
    wire_total (debts c') = wire_total (debts c) + Z.of_nat (length fr) /\
    (wire_total (debts c) = 0 \/ wire_total (debts c') <= budget c) /\
    (rst = true <-> wire_total (debts c) = 0 /\ att = false).
Proof.
  intros I E. unfold erpc_send_one in E. destruct (link_up c) eqn:Eup; cbn [negb] in E; [|done].
  destruct (send_pick ERPC_MAX_INFLIGHT 0 c) as [i|] eqn:Ep; [|done]. cbn [mbind option_bind] in E.
  apply send_pick_Some in Ep as (s & Hs & Hq & Hroom & Hbud). rewrite Hs in E. cbn [mbind option_bind] in E.
  destruct (slot_call c ks n i s I Hs ltac:(congruence)) as (k & ks' & Hp & <- & Hok).
  pose proof Hok as (H1 & H2 & H3 & H4 & H5 & H6 & H7 & H8 & H9).
  assert (Hlen : length (call_body k) = Z.to_nat (sl_body_len s)) by (unfold call_body; rewrite request_body_length; lia).
  assert (Hu : u16 (sl_body_len s + 4) = 12 + Z.of_nat (length (c_req k))) by (rewrite u16_small; unfold is_u16, ERPC_REQ_MAX in *; lia).
  rewrite Hu in E, Hbud. pose proof (ri_debts _ I) as Hd; rcbn. rewrite (bytes_on_wire_eq c Hd) in E, Hbud.
  destruct (debt_add_spec c (sl_seq s) (12 + Z.of_nat (length (c_req k))) Hd Hroom) as (ds & Ea & Hds & Hw); [lia|].
  rewrite Ea in E. injection E as <- <- <-. rewrite H6, H7.
  assert (I' : rpc_inv (Rpc (set_debts ds c) (k :: ks') n)) by (eapply rpc_inv_frame; [by eapply rpc_inv_perm|..]; rcbn; done).
  split_and!; [|done|exists k; split_and!].
  - eapply rpc_inv_perm; [symmetry; exact Hp|]. apply (rpc_inv_frame (upd_slot (c_tok k) (set_slot_state ERPC_ST_SENT) (set_debts ds c))); [|done..].
    apply (rpc_inv_slot (set_debts ds c) k k ks' n (set_slot_state ERPC_ST_SENT) s I'); try done; [|intros rc; apply (ri_give _ I'); by left].
    unfold serves_call. cbn. split_and!; try done. destruct H9 as [[? _]|H9]; [congruence|]. right.
    destruct (c_reply k); [destruct H9; congruence|]. destruct H9 as (_ & ? & ?). split_and!; [by right|done..].
  - rewrite Hp. by left.
  - unfold slot_state. by rewrite Hs, <-Hq.
  - unfold slot_state. rcbn. by rewrite list_lookup_alter_eq, Hs.
  - rewrite Hlen. by rewrite Z2Nat.id by lia.
  - rcbn. cbn [length]. rewrite Hw, Hlen. lia.
  - rcbn. destruct Hbud as [Hb|Hb]; [by left|right]. rewrite Hw. pose proof (wire_total_bounds _ (proj2 Hd)) as [Hb' _].
    destruct Hd as [Hl _]. rewrite Hl in Hb'. rewrite u32_small in Hb; [done|]. unfold is_u32, ERPC_WIRE_DEBTS, ERPC_REQ_MAX in *. lia.
  - rewrite andb_true_iff, Z.eqb_eq, negb_true_iff. done.
Qed.

Lemma find_sent_Some seq i ss j s : find_sent seq i ss = Some (j, s) -> exists n, j = (i + n)%nat /\ ss !! n = Some s /\ sl_state s = ERPC_ST_SENT /\ sl_seq s = seq.
Proof.
  revert i. induction ss as [|s0 ss IH]; intros i E; [done|]. cbn [find_sent] in E. destruct (negb _ || negb _) eqn:Eb.
  - apply IH in E as (n & -> & H). exists (S n). split; [lia|done].
  - apply orb_false_iff in Eb as [E1%negb_false_iff%bool_decide_eq_true E2%negb_false_iff%Z.eqb_eq]. simplify_eq.
    exists O. by rewrite Nat.add_0_r.
Qed.

Lemma copy_out_ok m out cap (pl : list Z) : buffer_ok m out cap ->
  let d := take (Z.to_nat (if Z.of_nat (length pl) <? cap then Z.of_nat (length pl) else cap)) pl in
  exists m', copy_out out d m = Some m' /\
    (forall b, out <> Some b -> m' !! b = m !! b) /\
    forall b, out = Some b -> exists buf buf', m !! b = Some buf /\ m' !! b = Some buf' /\ length buf' = length buf /\
      let k := Nat.min (length pl) (Z.to_nat cap) in take k buf' = take k pl /\ drop k buf' = drop k buf.
Proof.
  intros [Hcap Hb] d. set (k := Nat.min (length pl) (Z.to_nat cap)).
  assert (Hd : d = take k pl) by (unfold d, k; destruct (Z.ltb_spec (Z.of_nat (length pl)) cap); f_equal; lia).
  assert (Hl : length d = k) by (rewrite Hd, length_take; unfold k; lia).
  unfold copy_out. destruct out as [b|]; [|exists m; split_and!; [done..|intros; done]].
  destruct (Hb b eq_refl) as (buf & Hbuf & Hlen). destruct (decide (d = [])) as [E|E].
  - exists m. split_and!; [done..|]. intros b' [= <-]. exists buf, buf. rewrite E in Hl. cbn in Hl. rewrite <-Hl. split_and!; done.
  - rewrite Hbuf. cbn [mbind option_bind]. rewrite decide_True by lia. eexists. split; [done|]. split.
    + intros b' Hne. rewrite lookup_insert_ne; [done|congruence].
    + intros b' [= <-]. exists buf, (splice 0 d buf). rewrite lookup_insert_eq, length_splice by lia. split_and!; try done.
      * cbn zeta. rewrite <-Hd, <-Hl. apply take_splice0.
      * cbn zeta. by rewrite drop_splice by lia.
Qed.

Lemma le32_get32 a b x y r : is_u8 a -> is_u8 b -> is_u8 x -> is_u8 y -> le32 (get32 (a :: b :: x :: y :: r)) = [a; b; x; y].
Proof.
  intros. rewrite get32_val by done. unfold le32. rewrite !land_255, !Z.shiftr_div_pow2 by lia.
  change (2 ^ 8) with 256. change (2 ^ 16) with 65536. change (2 ^ 24) with 16777216.
  unfold is_u8 in *. set (v := a + b * 256 + x * 65536 + y * 16777216).
  assert (v mod 256 = a) as -> by warith. assert (v / 256 mod 256 = b) as -> by warith.
  assert (v / 65536 mod 256 = x) as -> by warith. assert (v / 16777216 mod 256 = y) as -> by warith. done.
Qed.

(** A reply to [k]: its header, its sequence number and the payload. *)
Definition reply_to (k : call) (body : list Z) : Prop :=
  body = [ERPC_MSGTYPE_REPLY; c_request k; c_service k; ERPC_CODEC_VERSION] ++ le32 (u32 (c_no k)) ++ drop 8 body.

Lemma reply_body k body : bytes_ok body -> 8 <= Z.of_nat (length body) ->
  Z.land (Z.shiftr (get32 body) 24) 255 = ERPC_CODEC_VERSION -> Z.land (get32 body) 255 = ERPC_MSGTYPE_REPLY ->
  Z.land (Z.shiftr (get32 body) 16) 255 = c_service k -> Z.land (Z.shiftr (get32 body) 8) 255 = c_request k ->
  u32 (c_no k) = get32 (drop 4 body) -> reply_to k body.
Proof.
  intros Hb Hl Hv Ht Hs Hr Hq. unfold reply_to.
  destruct body as [|b0 [|b1 [|b2 [|b3 [|b4 [|b5 [|b6 [|b7 pl]]]]]]]]; cbn [length] in Hl; try lia.
  repeat (apply Forall_cons in Hb as [? Hb]). cbn [drop] in *. rewrite Hq, le32_get32 by done.
  pose proof (le32_get32 b0 b1 b2 b3 (b4 :: b5 :: b6 :: b7 :: pl)) as E. unfold le32 in E. rewrite Hv, Ht, Hs, Hr in E.
  rewrite E by done. done.
Qed.

(** What a dispatch may do: nothing, or complete the one call the frame answers. *)
Definition completes (c c' : core) (body : list Z) (k : call) : Prop :=
  slot_state c (c_tok k) = Some ERPC_ST_SENT /\ slot_state c' (c_tok k) = Some ERPC_ST_DONE /\
  (forall i, i <> c_tok k -> slots c' !! i = slots c !! i) /\
  (forall b, c_out k <> Some b -> mem c' !! b = mem c !! b) /\
  forall b, c_out k = Some b -> exists buf buf', mem c !! b = Some buf /\ mem c' !! b = Some buf' /\ length buf' = length buf /\
    let n := Nat.min (length (drop 8 body)) (Z.to_nat (c_cap k)) in take n buf' = take n (drop 8 body) /\ drop n buf' = drop n buf.

Lemma debt_clear_ok seq c : debts_ok (debts c) -> debts_ok (debts (erpc_debt_clear seq c)).
Proof.
  intros [Hl Hf]. unfold erpc_debt_clear. rcbn. split; [by rewrite length_fmap|]. apply Forall_fmap. eapply Forall_impl; [done|].
  intros d Hd. unfold compose. destruct (_ && _); done.
Qed.

Lemma dispatch_cases c ks n body crc : rpc_inv (Rpc c ks n) -> bytes_ok body -> Z.of_nat (length body) < 65536 ->
  exists c', erpc_dispatch body crc c = Some c' /\ erpc_seq c' = erpc_seq c /\ debts_ok (debts c') /\
    (slots c' = slots c /\ mem c' = mem c \/
     exists k s, k ∈ ks /\ slots c !! c_tok k = Some s /\ slots c' = slots (upd_slot (c_tok k) (complete (Z.of_nat (length (drop 8 body)))) c) /\
       erpc_crc16 body = crc /\ reply_to k body /\ completes c c' body k).
Proof.
  intros I Hb Hl. unfold erpc_dispatch. pose proof (ri_debts _ I) as Hd. rcbn.
  destruct (_ || _) eqn:E0; [eexists; split; [done|rcbn; auto]|].
  apply orb_false_iff in E0 as [E0%Z.ltb_ge E1%negb_false_iff%Z.eqb_eq].
  destruct (Z.eqb_spec (Z.land (Z.shiftr (get32 body) 24) 255) ERPC_CODEC_VERSION) as [Ev|]; cbn [negb]; [|eexists; split; [done|rcbn; auto]].
  destruct (Z.eqb_spec (Z.land (get32 body) 255) ERPC_MSGTYPE_REPLY) as [Et|]; cbn [negb]; [|eexists; split; [done|rcbn; auto]].
  pose proof (debt_clear_ok (get32 (drop 4 body)) c Hd) as Hd'.
  change (slots (erpc_debt_clear (get32 (drop 4 body)) c)) with (slots c). change (mem (erpc_debt_clear (get32 (drop 4 body)) c)) with (mem c).
  destruct (find_sent _ 0 (slots c)) as [[i s]|] eqn:Ef; [|eexists; split; [done|]; split_and!; [done|exact Hd'|by left]].
  destruct (negb _ || negb _) eqn:E2; [eexists; split; [done|]; split_and!; [done|exact Hd'|by left]|].
  apply orb_false_iff in E2 as [E2%negb_false_iff%Z.eqb_eq E3%negb_false_iff%Z.eqb_eq].
  apply find_sent_Some in Ef as (i' & -> & Hs & Hst & Hseq). cbn [Nat.add].
  destruct (slot_call c ks n i' s I Hs ltac:(congruence)) as (k & ks' & Hp & <- & Hok).
  destruct Hok as (H1 & H2 & H3 & H4 & H5 & H6 & H7 & H8 & H9). destruct H9 as [[? _]|H9]; [congruence|].
  assert (Hk : k ∈ ks) by (rewrite Hp; by left).
  destruct (c_reply k); [destruct H9; congruence|]. destruct H9 as (_ & Ho & Hcap).
  assert (Hpl : u16 (Z.of_nat (length body) - 8) = Z.of_nat (length (drop 8 body))) by (rewrite length_drop, u16_small; unfold is_u16; lia).
  destruct (copy_out_ok (mem c) (c_out k) (c_cap k) (drop 8 body) (ri_bufs _ I k Hk)) as (m' & Em & Hm1 & Hm2).
  rewrite Hpl, Ho, Hcap, Em. cbn [mbind option_bind]. eexists. split; [done|]. split; [done|]. split; [exact Hd'|]. right.
  exists k, s. split_and!; try done.
  - apply reply_body; congruence || lia || done.
  - unfold completes, slot_state, erpc_debt_clear. rcbn. split_and!; try done.
    + by rewrite Hs, <-Hst.
    + by rewrite list_lookup_alter_eq, Hs.
    + intros j Hj. by rewrite list_lookup_alter_ne by done.
Qed.

(** Buffers the live calls do not use may come and go. *)
Lemma rpc_inv_mem c m ks n : rpc_inv (Rpc c ks n) -> (forall k b, k ∈ ks -> c_out k = Some b -> m !! b = mem c !! b) -> rpc_inv (Rpc (set_mem m c) ks n).
Proof.
  intros [] Hm; rcbn. split; rcbn; try done.
  - intros k Hk. destruct (ri_calls0 k Hk) as (s & Hs & Hok). exists s. split; [done|]. eapply (has_slot_mem (mem c)); [|done]. intros b. by apply Hm.
  - intros k Hk. eapply (buffer_ok_mem (mem c)); [intros b; by apply Hm|]. auto.
Qed.

Lemma note_tok c c' body k : c_tok (note_reply c c' body k) = c_tok k /\ c_out (note_reply c c' body k) = c_out k /\
  c_cap (note_reply c c' body k) = c_cap k /\ c_pc (note_reply c c' body k) = c_pc k.
Proof. unfold note_reply. by case_bool_decide. Qed.

Lemma note_reply_same c c' body ks : (forall k, k ∈ ks -> slot_state c (c_tok k) = Some ERPC_ST_SENT -> slot_state c' (c_tok k) <> Some ERPC_ST_DONE) ->
  note_reply c c' body <$> ks = ks.
Proof.
  intros H. induction ks as [|k ks IH]; [done|]. rewrite fmap_cons, IH by (intros; apply H; [by right|done]). f_equal.
  unfold note_reply. rewrite bool_decide_eq_false_2; [done|]. intros [? ?]. eapply H; [by left|done..].
Qed.

Lemma dispatch_inv c ks n body crc : rpc_inv (Rpc c ks n) -> bytes_ok body -> Z.of_nat (length body) < 65536 ->
  exists c', erpc_dispatch body crc c = Some c' /\ rpc_inv (Rpc c' (note_reply c c' body <$> ks) n).
Proof.
  intros I Hb Hl. destruct (dispatch_cases c ks n body crc I Hb Hl) as (c' & E & Hq & Hd & [[Hs Hm]|(k & s & Hk & Hs & Hs' & _ & _ & H)]).
  - exists c'. split; [done|]. rewrite note_reply_same; [by eapply rpc_inv_frame|]. unfold slot_state. rewrite Hs. intros k _ ->. done.
  - exists c'. split; [done|]. destruct H as (H1 & H2 & H3 & H4 & H5).
    apply elem_of_Permutation in Hk as (ks' & Hp). pose proof (rpc_inv_perm _ _ _ _ Hp I) as I2.
    destruct (call_slot _ _ _ _ I2) as (Hlt & Hne & s' & Hs2 & Hhas). assert (s' = s) as -> by congruence.
    assert (Hbusy : sl_state s <> ERPC_ST_FREE) by (unfold slot_state in H1; rewrite Hs in H1; injection H1 as H1; congruence).
    destruct (has_slot_busy _ _ _ Hhas (or_intror Hbusy)) as [Hok _].
    eapply rpc_inv_perm; [rewrite Hp, fmap_cons; reflexivity|].
    rewrite (note_reply_same c c' body ks').
    2:{ intros k' Hk' E1. unfold slot_state in *. rewrite H3 by auto. congruence. }
    set (pl := drop 8 body) in *. set (k' := note_reply c c' body k).
    assert (Hk' : k' = Call (c_tok k) (c_no k) (c_thread k) (c_service k) (c_request k) (c_req k) (c_out k) (c_cap k) (c_pc k) (Some pl))
      by (unfold k', note_reply; by rewrite bool_decide_eq_true_2).
    apply (rpc_inv_frame (set_mem (mem c') (upd_slot (c_tok k) (complete (Z.of_nat (length pl))) c))); [|done..].
    rewrite Hk'. destruct Hok as (G1 & G2 & G3 & G4 & G5 & G6 & G7 & G8 & G9).
    eapply rpc_inv_slot_mem; [exact I2|exact Hs2|..]; try done.
    + intros j b Hj Hb'. apply H4. intros E'. eapply (Hne j Hj), (ri_outs _ I2); [by right|by left|done..].
    + destruct (ri_bufs _ I2 k ltac:(by left)) as [? Hbuf]. split; [done|]. intros b Eb. destruct (H5 b Eb) as (buf & buf' & Em & Em' & Elen & _).
      destruct (Hbuf b Eb) as (buf0 & Em0 & ?). rcbn. exists buf'. split; [done|]. simplify_eq. lia.
    + unfold serves_call. cbn. split_and!; try done. right. split_and!; try done. intros b Eb.
      destruct (H5 b Eb) as (buf & buf' & _ & Em' & _ & Et & _). exists buf'. done.
    + intros rc. apply (ri_give _ I2 k). by left.
Qed.

Lemma rpc_step_inv w w' : rpc_inv w -> rpc_step Fresh w w' -> rpc_inv w'.
Proof.
  intros I Hs. destruct Hs.
  - destruct (begin_inv c ks n sv rq req out cap th I) as (tok' & c'' & E & I'); try done. simplify_eq. by apply I'; auto.
  - destruct (enter_inv c k ks0 n) as (c'' & E & I'); [by eapply rpc_inv_perm|done|]. simplify_eq. by destruct (bool_decide _).
  - destruct (look_inv c k ks0 n a l) as (_ & r' & c'' & E & _ & -> & I'); [by eapply rpc_inv_perm|done|]. simplify_eq.
    destruct (answer c k); apply I'.
  - destruct (give_inv c k ks0 n rc) as (_ & _ & c'' & E & _ & _ & I'); [by eapply rpc_inv_perm|done|]. by simplify_eq.
  - destruct (cancel_inv c k ks0 n) as (c'' & E & I' & _); [by eapply rpc_inv_perm|done|]. by simplify_eq.
  - by eapply send_inv.
  - destruct (dispatch_inv c ks n body crc I) as (c'' & E & I'); [done..|]. by simplify_eq.
  - by apply abandon_inv.
  - eapply rpc_inv_frame; [done..|]. apply (debts_reset_ok c).
  - eapply rpc_inv_frame; [done..|]. apply (ri_debts _ I).
  - eapply rpc_inv_mem; [done|]. intros k b' Hk Hb. rewrite lookup_insert_ne; [done|]. intros ->. by eapply H.
  - eapply rpc_inv_mem; [done|]. intros k b' Hk Hb. rewrite lookup_delete_ne; [done|]. intros ->. by eapply H.
Qed.

Lemma rpc_inv_reachable w : rtc (rpc_step Fresh) rpc0 w -> rpc_inv w.
Proof. assert (H : forall x y, rtc (rpc_step Fresh) x y -> rpc_inv x -> rpc_inv y) by (induction 1; eauto using rpc_step_inv). intros Hr. apply (H _ _ Hr rpc_inv0). Qed.

(** *** An empty wire admits any queued request *)

Lemma room_when_empty c : debts_ok (debts c) -> wire_total (debts c) = 0 -> erpc_debt_have_room c = true.
Proof.
  intros [Hl Hf] Hw. apply wire_total_bounds in Hf as [_ Hf]. apply Hf in Hw. unfold erpc_debt_have_room.
  destruct (debts c) as [|d ds]; [done|]. apply Forall_cons in Hw as [Hd _]. cbn. by rewrite Hd.
Qed.

Lemma send_pick_total m (j : Z) c i : length (slots c) = ERPC_MAX_INFLIGHT -> debts_ok (debts c) -> wire_total (debts c) = 0 ->
  slot_state c (Z.to_nat i) = Some ERPC_ST_QUEUED -> (exists d, 0 <= d < Z.of_nat m /\ (rr c + j + d) mod 4 = i) -> send_pick m j c <> None.
Proof.
  intros Hl Hd Hw Hi. revert j. induction m as [|m IH]; intros j (d & Hdm & Hr); [lia|].
  assert (Hj : 0 <= (rr c + j) mod 4 < 4) by (apply Z.mod_pos_bound; lia).
  cbn [send_pick]. change (Z.of_nat ERPC_MAX_INFLIGHT) with 4.
  destruct (slots c !! Z.to_nat ((rr c + j) mod 4)) as [s|] eqn:Es.
  2:{ apply lookup_ge_None in Es. unfold ERPC_MAX_INFLIGHT in Hl. lia. }
  destruct (bool_decide_reflect (sl_state s = ERPC_ST_QUEUED)) as [Eq|Eq]; cbn [negb].
  - rewrite (room_when_empty c Hd Hw), (bytes_on_wire_eq c Hd), Hw. done.
  - apply IH. exists (d - 1). destruct (decide (d = 0)) as [->|].
    + rewrite Z.add_0_r in Hr. rewrite Hr in Es. unfold slot_state in Hi. rewrite Es in Hi. cbn in Hi. congruence.
    + split; [lia|]. rewrite <-Hr. f_equal. lia.
Qed.

Lemma send_progress c ks n att i : rpc_inv (Rpc c ks n) -> erpc_send_one att c = None -> link_up c = true -> wire_total (debts c) = 0 ->
  slot_state c i <> Some ERPC_ST_QUEUED.
Proof.
  intros I E Hup Hw Hi. pose proof (ri_debts _ I) as Hd. pose proof (ri_len _ I) as Hl. rcbn.
  assert (Hi4 : (i < 4)%nat).
  { unfold slot_state in Hi. destruct (slots c !! i) eqn:Es; [|done]. apply lookup_lt_Some in Es. unfold ERPC_MAX_INFLIGHT in Hl. lia. }
  assert (Hp : send_pick ERPC_MAX_INFLIGHT 0 c <> None).
  { apply (send_pick_total _ _ _ (Z.of_nat i)); [done..|by rewrite Nat2Z.id|].
    exists ((Z.of_nat i - rr c) mod 4). split; [apply Z.mod_pos_bound; unfold ERPC_MAX_INFLIGHT; lia|].
    rewrite Z.add_0_r, Zplus_mod_idemp_r. replace (rr c + (Z.of_nat i - rr c)) with (Z.of_nat i) by lia. apply Z.mod_small. lia. }
  unfold erpc_send_one in E. rewrite Hup in E. cbn [negb] in E. destruct (send_pick ERPC_MAX_INFLIGHT 0 c) as [j|] eqn:Ep; [|done].
  apply send_pick_Some in Ep as (s & Hs & _). cbn [mbind option_bind] in E. rewrite Hs in E. cbn [mbind option_bind] in E.
  by destruct (erpc_debt_add _ _ c).
Qed.
End rpc.

(** ** What callers rely on *)

(** C8: As long as [erpc_begin] takes no slot whose token an earlier caller still
    holds ([rpc_step Fresh]: a caller that lost its slot with the link before it was in
    [erpc_wait]; [stale_token_hijack] shows what happens otherwise), [erpc_dispatch]
    never writes outside a caller's buffer, whatever frame the
    module sends and however calls begin, wait, time out, are cancelled or
    lose the link: it either leaves every slot and buffer as it was, or the
    frame is a CRC-checked reply carrying the sequence number, service and
    request of one live call, and only that call's slot and the first bytes of
    its buffer change. *)
Theorem erpc_dispatch_routes w body crc :
  rtc (rpc_step Fresh) rpc0 w -> bytes_ok body -> Z.of_nat (length body) < 65536 ->
  exists c', erpc_dispatch body crc (co w) = Some c' /\
    (slots c' = slots (co w) /\ mem c' = mem (co w) \/
     exists k, k ∈ calls w /\ erpc_crc16 body = crc /\ reply_to k body /\ completes (co w) c' body k).
Proof.
  intros Hr Hb Hl. destruct w as [c ks n]. destruct (dispatch_cases c ks n body crc) as (c' & E & _ & _ & H); [by apply rpc_inv_reachable|done..|].
  exists c'. split; [done|]. destruct H as [?|(k & s & Hk & _ & _ & H)]; [by left|right; exists k; split; [done|exact H]].
Qed.


(** A frame that goes out is one live call's request: its length, its CRC, the
    header naming the service and request, the call's sequence number and the
    parameters.  The ledger grows by the frame's length and stays within the
    budget, unless the wire was empty.  With the link up, an empty wire and a
    request queued, one goes out. *)
Theorem erpc_send_correct w att :
  rtc (rpc_step Fresh) rpc0 w ->
  match erpc_send_one att (co w) with
  | Some (fr, rst, c') => link_up (co w) = true /\
      exists k, k ∈ calls w /\ slot_state (co w) (c_tok k) = Some ERPC_ST_QUEUED /\ slot_state c' (c_tok k) = Some ERPC_ST_SENT /\
        fr = le16 (Z.of_nat (length (call_body k))) ++ le16 (erpc_crc16 (call_body k)) ++ call_body k /\
        wire_total (debts c') = wire_total (debts (co w)) + Z.of_nat (length fr) /\
        (wire_total (debts (co w)) = 0 \/ wire_total (debts c') <= budget (co w)) /\
        (rst = true <-> wire_total (debts (co w)) = 0 /\ att = false)
  | None => link_up (co w) = true -> wire_total (debts (co w)) = 0 -> forall i, slot_state (co w) i <> Some ERPC_ST_QUEUED
  end.
Proof.
  intros Hr%rpc_inv_reachable. destruct w as [c ks n]. cbn [co calls]. destruct (erpc_send_one att c) as [[[fr rst] c']|] eqn:E.
  - by eapply send_inv.
  - intros Hup Hw i Hi. by eapply send_progress.
Qed.

(** ** Concrete runs *)

Module ErpcRun.

Inductive op : Type :=
  | oOpen | oAbandon | oGen (g : Z) | oAlloc (b : Z) (buf : list Z) | oFree (b : Z)
  | oBegin (sv rq : Z) (req : list Z) (out : option Z) (cap th : Z)
  | oEnter (i : nat) | oLook (i : nat) (a l : bool) | oGive (i : nat) | oSend | oReply (body : list Z) (crc : Z).

Definition buffer_okb (m : gmap Z (list Z)) (out : option Z) (cap : Z) : bool :=
  bool_decide (0 <= cap < 65536) &&
  match out with None => true | Some b => match m !! b with None => false | Some buf => cap <=? Z.of_nat (length buf) end end.
Definition unusedb (out : option Z) (ks : list call) : bool :=
  match out with None => true | Some b => forallb (fun k => negb (bool_decide (c_out k = Some b))) ks end.

Definition tokensb (tk : tokens) (tok : Z) (ks : list call) : bool :=
  match tk with Any => true | Fresh => forallb (fun k => negb (Z.of_nat (c_tok k) =? tok)) ks end.

(** Run one operation; [None]: not a step.  [oEnter i], [oLook i], [oGive i]: of the
    [i]-th live call. *)
Definition exec (tk : tokens) (o : op) (w : rpc) : option rpc :=
  let '(Rpc c ks n) := w in
  match o with
  | oOpen => Some (Rpc (set_up true (erpc_debt_reset c)) ks n)
  | oAbandon => Some (Rpc (abandon_calls c) ks n)
  | oGen g => Some (Rpc (erpc_set_module_gen g c) ks n)
  | oAlloc b buf => if unusedb (Some b) ks then Some (Rpc (set_mem (<[b:=buf]> (mem c)) c) ks n) else None
  | oFree b => if unusedb (Some b) ks then Some (Rpc (set_mem (delete b (mem c)) c) ks n) else None
  | oBegin sv rq req out cap th =>
      if bool_decide (is_u8 sv /\ is_u8 rq) && (Z.of_nat (length req) <=? ERPC_REQ_MAX) && buffer_okb (mem c) out cap && unusedb out ks
      then '(tok, c') ← erpc_begin sv rq (Some req) (Z.of_nat (length req)) out cap c;
           if tokensb tk tok ks
           then Some (if tok <? 0 then Rpc c' ks n else Rpc c' (Call (Z.to_nat tok) (n + 1) th sv rq req out cap W_begun None :: ks) (n + 1))
           else None
      else None
  | oEnter i =>
      k ← ks !! i;
      if decide (c_pc k = W_begun)
      then '(ok, c') ← wait_enter (Z.of_nat (c_tok k)) (c_thread k) c;
           Some (if ok : bool then Rpc c' (at_pc W_look k :: delete i ks) n else Rpc c' (delete i ks) n)
      else None
  | oLook i a l =>
      k ← ks !! i;
      if decide (c_pc k = W_look) then '(r, c') ← wait_look (Z.of_nat (c_tok k)) a l c;
           Some (match r with inl _ => Rpc c' (delete i ks) n | inr p => Rpc c' (at_pc p k :: delete i ks) n end)
      else None
  | oGive i =>
      k ← ks !! i;
      match c_pc k with
      | W_give rc => '(_, c') ← wait_give (Z.of_nat (c_tok k)) rc c; Some (Rpc c' (delete i ks) n)
      | _ => None
      end
  | oSend => '(_, _, c') ← erpc_send_one false c; Some (Rpc c' ks n)
  | oReply body crc =>
      if bool_decide (bytes_ok body) && (Z.of_nat (length body) <? 65536)
      then c' ← erpc_dispatch body crc c; Some (Rpc c' (note_reply c c' body <$> ks) n) else None
  end.
Fixpoint run (tk : tokens) (os : list op) (w : rpc) : option rpc :=
  match os with [] => Some w | o :: os => w ← exec tk o w; run tk os w end.

Lemma buffer_okb_ok m out cap : buffer_okb m out cap = true -> buffer_ok m out cap.
Proof.
  intros [H1%bool_decide_eq_true H2]%andb_true_iff. split; [done|]. intros b ->. destruct (m !! b) as [buf|]; [|done].
  exists buf. split; [done|by apply Z.leb_le].
Qed.

Lemma unusedb_ok out ks : unusedb out ks = true -> unused out ks.
Proof.
  intros H b k -> Hk E. unfold unusedb in H. rewrite forallb_forall in H. specialize (H k ltac:(by apply list_elem_of_In)).
  apply negb_true_iff, bool_decide_eq_false in H. done.
Qed.

Lemma tokensb_ok tk tok ks : tokensb tk tok ks = true -> tk = Fresh -> Forall (fun k => Z.of_nat (c_tok k) <> tok) ks.
Proof.
  intros H ->. cbn in H. apply Forall_forall. intros k Hk. rewrite forallb_forall in H.
  specialize (H k ltac:(by apply list_elem_of_In)). apply negb_true_iff, Z.eqb_neq in H. done.
Qed.

Lemma exec_step tk o w w' : exec tk o w = Some w' -> rpc_step tk w w'.
Proof.
  destruct w as [c ks n], o; cbn [exec]; intros E.
  - simplify_eq. constructor.
  - simplify_eq. constructor.
  - simplify_eq. constructor.
  - destruct (unusedb _ _) eqn:Eb; [|done]. simplify_eq. constructor. by apply unusedb_ok.
  - destruct (unusedb _ _) eqn:Eb; [|done]. simplify_eq. constructor. by apply unusedb_ok.
  - destruct (_ && _) eqn:Eb; [|done]. apply andb_true_iff in Eb as [[[H1%bool_decide_eq_true H2%Z.leb_le]%andb_true_iff H3]%andb_true_iff H4].
    destruct (erpc_begin _ _ _ _ _ _ _) as [[tok c']|] eqn:Ebg; [|done]. cbn [mbind option_bind] in E. destruct (tokensb tk tok ks) eqn:Et; [|done]. simplify_eq.
    apply (r_begin tk c c' tok sv rq (Some req) out cap th ks n); try done; [apply H1|apply H1|by apply buffer_okb_ok|by apply unusedb_ok|by apply tokensb_ok].
  - destruct (ks !! i) as [k|] eqn:Ek; [|done]. cbn [mbind option_bind] in E. case_decide; [|done].
    destruct (wait_enter _ _ _) as [[ok c']|] eqn:Ee; [|done]. cbn [mbind option_bind] in E. simplify_eq.
    eapply r_enter; [by apply delete_Permutation|done..].
  - destruct (ks !! i) as [k|] eqn:Ek; [|done]. cbn [mbind option_bind] in E. case_decide; [|done].
    destruct (wait_look _ _ _ _) as [[r c']|] eqn:Ee; [|done]. cbn [mbind option_bind] in E. simplify_eq.
    eapply r_look; [by apply delete_Permutation|done..].
  - destruct (ks !! i) as [k|] eqn:Ek; [|done]. cbn [mbind option_bind] in E. destruct (c_pc k) as [| |rc] eqn:Ep; try done.
    destruct (wait_give _ _ _) as [[v c']|] eqn:Ee; [|done]. cbn [mbind option_bind] in E. simplify_eq.
    eapply r_give; [by apply delete_Permutation|done..].
  - destruct (erpc_send_one _ _) as [[[fr rst] c']|] eqn:Ee; [|done]. cbn [mbind option_bind] in E. simplify_eq. by econstructor.
  - destruct (_ && _) eqn:Eb; [|done]. apply andb_true_iff in Eb as [H1%bool_decide_eq_true H2%Z.ltb_lt].
    destruct (erpc_dispatch _ _ _) as [c'|] eqn:Ee; [|done]. cbn [mbind option_bind] in E. simplify_eq. by econstructor.
Qed.

Lemma run_steps tk os w w' : run tk os w = Some w' -> rtc (rpc_step tk) w w'.
Proof.
  revert w. induction os as [|o os IH]; intros w E; cbn [run] in E; [by simplify_eq|].
  destruct (exec tk o w) as [w1|] eqn:Ex; [|done]. eapply rtc_l; [by eapply exec_step|by apply IH].
Qed.

(** A reply to call number [no]. *)
Definition reply (sv rq no : Z) (pl : list Z) : list Z := [ERPC_MSGTYPE_REPLY; rq; sv; ERPC_CODEC_VERSION] ++ le32 no ++ pl.
Definition ack : list Z := reply 1 2 1 [90].

(** One call, from the open link to its frame on the wire. *)
Definition one_call : list op := [oOpen; oAlloc 7 [0; 0]; oBegin 1 2 [90] (Some 7) 2 16; oEnter 0; oSend].
Definition the_call : call := Call 0 1 16 1 2 [90] (Some 7) 2 W_look None.

Lemma run_some tk os P : match run tk os rpc0 with Some w => P w | None => False end -> exists w, rtc (rpc_step tk) rpc0 w /\ P w.
Proof. destruct (run tk os rpc0) as [w|] eqn:E; [|done]. intros H. exists w. split; [by eapply run_steps|done]. Qed.

(** The reply reaches the caller's buffer and the wait returns its length. *)
Example one_call_completes :
  (run Fresh (one_call ++ [oReply ack (erpc_crc16 ack)]) rpc0 ≫= fun w =>
     '(r, c) ← wait_look 0 false false (co w); Some (r, mem c !! 7, sl_state <$> slots c)) =
  Some (inl 1, Some [90; 0], replicate 4 ERPC_ST_FREE).
Proof. vm_compute. reflexivity. Qed.

(** The call of [one_call], its deadline past and then its reply arrived. *)
Definition late_reply : list op := one_call ++ [oLook 0 false true; oReply ack (erpc_crc16 ack)].
Definition the_late_call : call := Call 0 1 16 1 2 [90] (Some 7) 2 (W_give (-2)) (Some [90]).

Example late_call_completes :
  (run Fresh late_reply rpc0 ≫= fun w => '(r, c) ← wait_give 0 (-2) (co w); Some (calls w, r, mem c !! 7, sl_state <$> slots c)) =
  Some ([the_late_call], 1, Some [90; 0], replicate 4 ERPC_ST_FREE).
Proof. vm_compute. reflexivity. Qed.

Lemma one_call_world : exists w, rtc (rpc_step Fresh) rpc0 w /\ the_call ∈ calls w.
Proof.
  destruct (run_some Fresh one_call (fun w => calls w = [the_call])) as (w & Hr & E); [vm_compute; reflexivity|].
  exists w. split; [done|]. rewrite E. by left.
Qed.

Lemma erpc_dispatch_routes_witness : exists w,
  (rtc (rpc_step Fresh) rpc0 w /\ bytes_ok ack /\ Z.of_nat (length ack) < 65536) /\
  exists c', erpc_dispatch ack (erpc_crc16 ack) (co w) = Some c' /\
    (slots c' = slots (co w) /\ mem c' = mem (co w) \/
     exists k, k ∈ calls w /\ erpc_crc16 ack = erpc_crc16 ack /\ reply_to k ack /\ completes (co w) c' ack k).
Proof.
  destruct one_call_world as (w & Hr & _). exists w.
  assert (Hb : bytes_ok ack) by (refine (bool_decide_eq_true_1 (bytes_ok ack) _); vm_compute; reflexivity).
  assert (Hl : Z.of_nat (length ack) < 65536) by (vm_compute; reflexivity).
  split; [done|]. apply (erpc_dispatch_routes w ack (erpc_crc16 ack)); done.
Defined.


Lemma erpc_send_correct_witness : exists w, rtc (rpc_step Fresh) rpc0 w /\
  match erpc_send_one true (co w) with
  | Some (fr, rst, c') => link_up (co w) = true /\
      exists k, k ∈ calls w /\ slot_state (co w) (c_tok k) = Some ERPC_ST_QUEUED /\ slot_state c' (c_tok k) = Some ERPC_ST_SENT /\
        fr = le16 (Z.of_nat (length (call_body k))) ++ le16 (erpc_crc16 (call_body k)) ++ call_body k /\
        wire_total (debts c') = wire_total (debts (co w)) + Z.of_nat (length fr) /\
        (wire_total (debts (co w)) = 0 \/ wire_total (debts c') <= budget (co w)) /\
        (rst = true <-> wire_total (debts (co w)) = 0 /\ true = false)
  | None => link_up (co w) = true -> wire_total (debts (co w)) = 0 -> forall i, slot_state (co w) i <> Some ERPC_ST_QUEUED
  end.
Proof. destruct one_call_world as (w & Hr & Hk). exists w. split; [done|]. exact (erpc_send_correct w true Hr). Defined.

(** *** Where the code falls short *)

(** C37: A link torn down between a caller's [erpc_begin] and its [erpc_wait] frees the
    slot; the next [erpc_begin] takes it; the first caller's wait is let in on it, so
    the second caller's returns -1 while its buffer stays attached.  When
    that buffer is gone the module's reply is written into it all the same. *)
Definition hijack : list op :=
  [oOpen; oAlloc 1 [0]; oBegin 1 2 [65] (Some 1) 1 16; oAbandon; oOpen;
   oAlloc 2 [0]; oBegin 1 2 [66] (Some 2) 1 17; oEnter 1; oEnter 1; oFree 2; oSend].
Definition hijack_reply : list Z := reply 1 2 2 [66].

Theorem stale_token_hijack : exists w, rtc (rpc_step Any) rpc0 w /\
  c_thread <$> calls w = [16] /\ mem (co w) !! 2 = None /\ sl_out <$> slots (co w) !! 0%nat = Some (Some 2) /\
  bytes_ok hijack_reply /\ erpc_dispatch hijack_reply (erpc_crc16 hijack_reply) (co w) = None.
Proof.
  assert (Hb : bytes_ok hijack_reply) by (refine (bool_decide_eq_true_1 (bytes_ok hijack_reply) _); vm_compute; reflexivity).
  destruct (run_some Any hijack (fun w => c_thread <$> calls w = [16] /\ mem (co w) !! 2 = None /\ sl_out <$> slots (co w) !! 0%nat = Some (Some 2) /\
    erpc_dispatch hijack_reply (erpc_crc16 hijack_reply) (co w) = None)) as (w & Hr & H1 & H2 & H3 & H4); [vm_compute; by split_and!|].
  exists w. exact (conj Hr (conj H1 (conj H2 (conj H3 (conj Hb H4))))).
Qed.

(** Debts outlive the calls that time out: eight requests the module never answered
    fill the ledger, and a ninth, alone on the link with the large budget, is not sent. *)
Definition unanswered : list op := [oBegin 1 2 [65] None 0 16; oEnter 0; oSend; oLook 0 false true; oGive 0].

Theorem ledger_fills : exists w, rtc (rpc_step Fresh) rpc0 w /\ length (calls w) = 1%nat /\ link_up (co w) = true /\
  budget (co w) = ERPC_WIRE_BUDGET_FAST /\ slot_state (co w) 0 = Some ERPC_ST_QUEUED /\ erpc_send_one false (co w) = None.
Proof.
  destruct (run_some Fresh (oOpen :: oGen 4 :: concat (replicate 8 unanswered) ++ [oBegin 1 2 [65] None 0 16])
    (fun w => length (calls w) = 1%nat /\ link_up (co w) = true /\ budget (co w) = 4096 /\ slot_state (co w) 0 = Some ERPC_ST_QUEUED /\
       erpc_send_one false (co w) = None)) as (w & Hr & H); [vm_compute; by split_and!|].
  exists w. exact (conj Hr H).
Qed.
End ErpcRun.
