(* ===== verification/ErpcReader.v ===== *)
(** * The link's service thread ([src/app/erpc.c]): the frame reader and the loop

    Three kinds of frames share the UART: eRPC replies, CTRL replies and DATA
    frames.  The reader takes whatever the UART holds, keeps a partial frame across
    calls, and hands each finished frame to the calls of [Erpc] or to the data
    channel of [LinkData].  Here too are the loop's pass, opening and closing the
    link, and the tests for silence. *)

From stdpp Require Import relations.
From S2P Require Import Prelude Crc16 LinkData Erpc.
Local Open Scope Z_scope.

(** ** What the link needs of the UART driver

    [pending]: the bytes received and not yet read. *)
Class Uart (U : Type) : Type := {
  uart_read : Z -> U -> option (list Z * U);
  uart_overflows : U -> Z;
  uart_write : list Z -> U -> option U;
  uart_tx_space : U -> Z;
  pending : U -> list Z;
  uart_ok : U -> Prop;
}.

Class UartLaws (U : Type) `{Uart U} : Prop := {
  uart_read_spec n u : uart_ok u -> 0 <= n -> exists u',
    uart_read n u = Some (take (Z.to_nat n) (pending u), u') /\
    pending u' = drop (Z.to_nat n) (pending u) /\ uart_overflows u' = uart_overflows u /\ uart_ok u';
}.

Definition ERPC_RX_SCRATCH : Z := 4096.
Definition ERPC_FRAME_STALL_MS : Z := 200.
Definition ERPC_RX_STEPS_PER_PASS : nat := 32.
Definition ERPC_DATA_TX_PER_PASS : nat := 2.
Definition ERPC_CTRL_MAGIC : Z := 65535.
Definition LINK_DATA_MAGIC : Z := 65534.

(** ** State *)

(** [rx_dst]: the index of the DATA buffer being filled. *)
Record reader : Type := Reader {
  rx_hdr : list Z; rx_hdr_got : Z; rx_hdr_need : Z;
  rx_is_ctrl : bool; rx_is_data : bool;
  rx_size : Z; rx_crc : Z; rx_body_got : Z; rx_drain_left : Z;
  rx_active : bool; rx_progress : Z; rx_ovf_seen : Z;
  rx_dst : option Z;
}.

Section service.
Context {U consumer : Type} `{Uart U} (base : Z).

Record svc : Type := Svc { rd : reader; erpc_scratch : list Z; un : U; rc : core; lk : link consumer }.

Definition set_rd (r : reader) (s : svc) : svc := Svc r (erpc_scratch s) (un s) (rc s) (lk s).
Definition set_un (u : U) (s : svc) : svc := Svc (rd s) (erpc_scratch s) u (rc s) (lk s).
Definition set_rc (c : core) (s : svc) : svc := Svc (rd s) (erpc_scratch s) (un s) c (lk s).
Definition set_lk (l : link consumer) (s : svc) : svc := Svc (rd s) (erpc_scratch s) (un s) (rc s) l.
Definition set_scratch (b : list Z) (s : svc) : svc := Svc (rd s) b (un s) (rc s) (lk s).

Definition set_hdr (h : list Z) (got : Z) (r : reader) : reader :=
  Reader h got (rx_hdr_need r) (rx_is_ctrl r) (rx_is_data r) (rx_size r) (rx_crc r) (rx_body_got r) (rx_drain_left r) true (rx_progress r) (rx_ovf_seen r) (rx_dst r).
Definition set_kind (ctrl data : bool) (r : reader) : reader :=
  Reader (rx_hdr r) (rx_hdr_got r) 6 ctrl data (rx_size r) (rx_crc r) (rx_body_got r) (rx_drain_left r) (rx_active r) (rx_progress r) (rx_ovf_seen r) (rx_dst r).
Definition set_frame (size crc : Z) (r : reader) : reader :=
  Reader (rx_hdr r) (rx_hdr_got r) (rx_hdr_need r) (rx_is_ctrl r) (rx_is_data r) size crc 0 (rx_drain_left r) (rx_active r) (rx_progress r) (rx_ovf_seen r) (rx_dst r).
Definition set_dst (data : bool) (d : option Z) (r : reader) : reader :=
  Reader (rx_hdr r) (rx_hdr_got r) (rx_hdr_need r) (rx_is_ctrl r) data (rx_size r) (rx_crc r) (rx_body_got r) (rx_drain_left r) (rx_active r) (rx_progress r) (rx_ovf_seen r) d.
Definition set_got (n : Z) (r : reader) : reader :=
  Reader (rx_hdr r) (rx_hdr_got r) (rx_hdr_need r) (rx_is_ctrl r) (rx_is_data r) (rx_size r) (rx_crc r) n (rx_drain_left r) (rx_active r) (rx_progress r) (rx_ovf_seen r) (rx_dst r).
Definition set_drain (n : Z) (r : reader) : reader :=
  Reader (rx_hdr r) (rx_hdr_got r) (rx_hdr_need r) (rx_is_ctrl r) (rx_is_data r) (rx_size r) (rx_crc r) (rx_body_got r) n (rx_active r) (rx_progress r) (rx_ovf_seen r) (rx_dst r).
Definition set_progress (t : Z) (r : reader) : reader :=
  Reader (rx_hdr r) (rx_hdr_got r) (rx_hdr_need r) (rx_is_ctrl r) (rx_is_data r) (rx_size r) (rx_crc r) (rx_body_got r) (rx_drain_left r) (rx_active r) t (rx_ovf_seen r) (rx_dst r).
Definition set_seen (n : Z) (r : reader) : reader :=
  Reader (rx_hdr r) (rx_hdr_got r) (rx_hdr_need r) (rx_is_ctrl r) (rx_is_data r) (rx_size r) (rx_crc r) (rx_body_got r) (rx_drain_left r) (rx_active r) (rx_progress r) n (rx_dst r).

(** ** Resetting *)

Definition reader_zero (r : reader) : reader :=
  Reader (rx_hdr r) 0 4 false false 0 0 0 0 false (rx_progress r) (rx_ovf_seen r) None.

Definition erpc_reader_reset (s : svc) : option svc :=
  l ← match rx_dst (rd s) with
      | Some i => if rx_is_data (rd s) then link_data_rx_abort base (body_ptr base i) (lk s) else Some (lk s)
      | None => Some (lk s)
      end;
  Some (set_rd (reader_zero (rd s)) (set_lk l s)).

(** [while (budget != 0 && (r = read(tmp, 64)) > 0)]; each turn takes at least one
    from the budget. *)
Fixpoint flush_loop (fuel : nat) (budget : Z) (u : U) : option U :=
  match fuel with
  | O => None
  | S fuel =>
      if budget =? 0 then Some u
      else
        '(bs, u) ← uart_read 64 u;
        let r := Z.of_nat (length bs) in
        if r =? 0 then Some u else flush_loop fuel (budget - (if budget <? r then budget else r)) u
  end.
Definition erpc_rx_flush (s : svc) : option svc := u ← flush_loop (S (Z.to_nat ERPC_RX_SCRATCH)) ERPC_RX_SCRATCH (un s); Some (set_un u s).

Definition erpc_stream_reset_locked (s : svc) : option svc :=
  s ← erpc_rx_flush s; s ← erpc_reader_reset s; Some (set_rd (set_seen (uart_overflows (un s)) (rd s)) s).

(** ** The frame reader *)

(** Discarding a frame; whether it is all gone, and whether bytes were read. *)
Fixpoint drain_loop (fuel : nat) (progress : bool) (s : svc) : option (bool * bool * svc) :=
  match fuel with
  | O => None
  | S fuel =>
      let left := rx_drain_left (rd s) in
      if left =? 0 then Some (true, progress, s)
      else
        '(bs, u) ← uart_read (if left <? 64 then left else 64) (un s);
        let r := Z.of_nat (length bs) in
        if r =? 0 then Some (false, progress, set_un u s)
        else drain_loop fuel true (set_rd (set_drain (u32 (left - r)) (rd s)) (set_un u s))
  end.

(** The channel marker is decided from the first two bytes. *)
Definition mark (r : reader) : reader :=
  if (2 <=? rx_hdr_got r) && (rx_hdr_need r =? 4) then
    let lead := get16 (rx_hdr r) in
    if lead =? ERPC_CTRL_MAGIC then set_kind true (rx_is_data r) r
    else if lead =? LINK_DATA_MAGIC then set_kind (rx_is_ctrl r) true r else r
  else r.

(** The header's bytes, as far as they have come. *)
Definition read_hdr (s : svc) : option (bool * svc) :=
  let r := rd s in
  '(bs, u) ← uart_read (rx_hdr_need r - rx_hdr_got r) (un s);
  let s := set_un u s in
  h ← store (Z.to_nat (rx_hdr_got r)) bs (rx_hdr r);
  let r := if decide (bs = []) then r else set_hdr h (u8 (rx_hdr_got r + Z.of_nat (length bs))) r in
  Some (negb (bool_decide (bs = [])), set_rd (mark r) s).

(** The header is complete: [true] when the frame was refused. *)
Definition start_frame (s : svc) : option (bool * svc) :=
  let h := rx_hdr (rd s) in
  if rx_is_data (rd s) then
    let s := set_rd (set_frame (get16 (drop 2 h)) (get16 (drop 4 h)) (rd s)) s in
    let size := rx_size (rd s) in
    if (size <? LINK_DATA_HDR) || (LINK_DATA_BODY_MAX <? size) then
      '(_, l) ← link_data_rx_claim size (lk s);
      s ← erpc_stream_reset_locked (set_lk l (set_rd (set_dst false (rx_dst (rd s)) (rd s)) s));
      Some (true, s)
    else
      '(i, l) ← link_data_rx_claim size (lk s);
      match i with
      | None => Some (true, set_lk l (set_rd (set_drain size (set_dst false None (rd s))) s))
      | Some i => Some (false, set_lk l (set_rd (set_dst true (Some i) (rd s)) s))
      end
  else if rx_is_ctrl (rd s) then
    let s := set_rd (set_frame (get16 (drop 2 h)) (get16 (drop 4 h)) (rd s)) s in
    let size := rx_size (rd s) in
    if (ERPC_CTRL_MAX <? size) || (size <? ERPC_CTRL_HDR) then
      s ← erpc_stream_reset_locked (set_rc (count add_ctrl_bad (rc s)) s); Some (true, s)
    else Some (false, s)
  else
    let s := set_rd (set_frame (get16 h) (get16 (drop 2 h)) (rd s)) s in
    let size := rx_size (rd s) in
    if ERPC_RX_SCRATCH <? size then Some (true, set_rc (count add_oversize (rc s)) (set_rd (set_drain size (rd s)) s))
    else if size <? 8 then s ← erpc_reader_reset (set_rc (count add_crc_fail (rc s)) s); Some (true, s)
    else Some (false, s).

(** The body's bytes, into the scratch buffer or the DATA buffer. *)
Definition receive_body (s : svc) : option (bool * svc) :=
  let r := rd s in
  if rx_body_got r <? rx_size r then
    '(bs, u) ← uart_read (rx_size r - rx_body_got r) (un s);
    let s := set_un u s in
    s ← (if rx_is_data r then i ← rx_dst r; l ← rx_fill i (Z.to_nat (rx_body_got r)) bs (lk s); Some (set_lk l s)
         else b ← store (Z.to_nat (rx_body_got r)) bs (erpc_scratch s); Some (set_scratch b s));
    Some (negb (bool_decide (bs = [])), set_rd (set_got (u16 (rx_body_got r + Z.of_nat (length bs))) r) s)
  else Some (false, s).

(** The body is complete. *)
Definition finish_frame (s : svc) : option svc :=
  let r := rd s in
  if rx_is_data r then
    i ← rx_dst r;
    l ← link_data_rx_commit base (body_ptr base i) (rx_size r) (rx_crc r) (lk s);
    erpc_reader_reset (set_lk l (set_rd (set_dst false None r) s))
  else
    let body := take (Z.to_nat (rx_size r)) (erpc_scratch s) in
    if rx_is_ctrl r then
      '(resync, c) ← erpc_ctrl_dispatch body (rx_crc r) (rc s);
      s ← (if (resync : bool) then erpc_stream_reset_locked (set_rc c s) else Some (set_rc c s));
      erpc_reader_reset s
    else c ← erpc_dispatch body (rx_crc r) (rc s); erpc_reader_reset (set_rc c s).

Definition body_part (progress : bool) (s : svc) : option (bool * svc) :=
  '(p, s) ← receive_body s;
  if rx_body_got (rd s) <? rx_size (rd s) then Some (progress || p, s) else s ← finish_frame s; Some (true, s).

(** Whether any byte was consumed or a frame completed. *)
Definition erpc_rx_step (s : svc) : option (bool * svc) :=
  if negb (rx_drain_left (rd s) =? 0) then
    '(all, progress, s) ← drain_loop (S (Z.to_nat (rx_drain_left (rd s)))) false s;
    if negb all then Some (progress, s) else s ← erpc_reader_reset s; Some (true, s)
  else if rx_hdr_got (rd s) <? rx_hdr_need (rd s) then
    '(p, s) ← read_hdr s;
    if rx_hdr_got (rd s) <? rx_hdr_need (rd s) then Some (p, s)
    else '(refused, s) ← start_frame s; if (refused : bool) then Some (true, s) else body_part p s
  else body_part false s.

(** ** Sending *)

(** [rtl8720_uart_write] of a frame's header and of its body. *)
Definition write_frame (hdr : nat) (fr : list Z) (s : svc) : option svc :=
  u ← uart_write (take hdr fr) (un s); u ← uart_write (drop hdr fr) u; Some (set_un u s).

(** Each: whether a frame went out. *)
Definition svc_send_one (s : svc) : option (bool * svc) :=
  match erpc_send_one (link_data_attached (lk s)) (rc s) with
  | None => Some (false, s)
  | Some (fr, reset, c) =>
      s ← (if (reset : bool) then erpc_stream_reset_locked s else Some s);
      s ← write_frame 4 fr s; Some (true, set_rc c s)
  end.
Definition svc_ctrl_send (s : svc) : option (bool * svc) :=
  match erpc_ctrl_send (link_data_attached (lk s)) (rc s) with
  | None => Some (false, s)
  | Some (fr, reset, c) =>
      s ← (if (reset : bool) then erpc_stream_reset_locked s else Some s);
      s ← write_frame 6 fr s; Some (true, set_rc c s)
  end.
Definition erpc_data_send_one (s : svc) : option (bool * svc) :=
  if negb (link_up (rc s)) then Some (false, s)
  else
    f ← link_data_tx_peek (lk s);
    match f with
    | None => Some (false, s)
    | Some (i, body_len, crc) =>
        if uart_tx_space (un s) <? body_len + 6 then Some (false, s)
        else
          body ← tx_read i 0 (Z.to_nat body_len) (lk s);
          s ← write_frame 6 (le16 LINK_DATA_MAGIC ++ le16 body_len ++ le16 crc ++ body) s;
          l ← link_data_tx_pop (lk s); Some (true, set_lk l s)
    end.

(** [for (guard = 0; guard < n && f(); guard++)] *)
Fixpoint guarded (n : nat) (f : svc -> option (bool * svc)) (s : svc) : option svc :=
  match n with
  | O => Some s
  | S n => '(again, s) ← f s; if (again : bool) then guarded n f s else Some s
  end.

(** ** The loop *)

Definition erpc_work_pending (s : svc) : bool :=
  bool_decide (ct_state (ctrl (rc s)) = ERPC_ST_QUEUED \/ ct_state (ctrl (rc s)) = ERPC_ST_SENT) ||
  (link_data_tx_pending (lk s) || link_data_rx_ready (lk s)) ||
  existsb (fun x => bool_decide (sl_state x = ERPC_ST_QUEUED \/ sl_state x = ERPC_ST_SENT)) (slots (rc s)).

Definition resync (s : svc) : option svc :=
  if uart_overflows (un s) =? rx_ovf_seen (rd s) then Some s
  else erpc_stream_reset_locked (if rx_active (rd s) then set_rc (count add_stall (rc s)) s else s).

(** The reader's turns; [now k] is the [k]-th reading of the clock. *)
Fixpoint rx_loop (n : nat) (now : nat -> Z) (k : nat) (s : svc) : option (nat * svc) :=
  match n with
  | O => Some (k, s)
  | S n =>
      '(again, s) ← erpc_rx_step s;
      if (again : bool) then rx_loop n now (S k) (set_rd (set_progress (now k) (rd s)) s) else Some (k, s)
  end.

Definition stall_check (now : Z) (s : svc) : option svc :=
  let d := now -% rx_progress (rd s) in
  if rx_active (rd s) && ((d <? 2147483648) && (ERPC_FRAME_STALL_MS <=? d))
  then erpc_stream_reset_locked (set_rc (count add_stall (rc s)) s) else Some s.

(** The part of [erpc_svc_entry]'s loop under the lock; whether it will wait one tick
    only. *)
Definition svc_pass (now : nat -> Z) (s : svc) : option (bool * svc) :=
  s ← resync s;
  '(_, s) ← svc_ctrl_send s;
  s ← guarded ERPC_MAX_INFLIGHT svc_send_one s;
  s ← guarded ERPC_DATA_TX_PER_PASS erpc_data_send_one s;
  '(k, s) ← rx_loop ERPC_RX_STEPS_PER_PASS now 0 s;
  s ← stall_check (now k) s;
  Some (erpc_work_pending s, s).

(** ** Opening, closing, silence *)

Definition erpc_abandon_all (s : svc) : option svc :=
  s ← erpc_reader_reset s; l ← link_data_reset (lk s); Some (set_rc (abandon_calls (rc s)) (set_lk l s)).

Definition erpc_link_opened (carries : bool) (s : svc) : option svc :=
  s ← erpc_stream_reset_locked (set_rc (erpc_debt_reset (rc s)) s);
  l ← link_data_reset (lk s); Some (set_rc (set_up carries (rc s)) (set_lk l s)).

Definition erpc_link_closed (s : svc) : option svc := s ← erpc_abandon_all s; erpc_stream_reset_locked s.

Definition erpc_data_quiescent (s : svc) : bool :=
  negb (rx_is_data (rd s)) && negb (link_data_tx_pending (lk s)) && negb (link_data_rx_ready (lk s)).

Definition erpc_link_quiescent (s : svc) : bool :=
  bool_decide (ct_state (ctrl (rc s)) = ERPC_ST_FREE) && (erpc_bytes_on_wire (rc s) =? 0) &&
  negb (link_data_tx_pending (lk s) || link_data_rx_ready (lk s) || rx_active (rd s)) &&
  forallb (fun x => bool_decide (sl_state x = ERPC_ST_FREE)) (slots (rc s)).
End service.

(** ** Frames *)

Inductive kind : Type := K_erpc | K_ctrl | K_data.
#[export] Instance kind_eq : EqDecision kind.
Proof. solve_decision. Defined.
Record rx_frame : Type := Frame { f_kind : kind; f_body : list Z; f_crc : Z }.

Definition f_len (f : rx_frame) : Z := Z.of_nat (length (f_body f)).
Definition f_hdr (f : rx_frame) : list Z :=
  match f_kind f with
  | K_erpc => le16 (f_len f) ++ le16 (f_crc f)
  | K_ctrl => le16 ERPC_CTRL_MAGIC ++ le16 (f_len f) ++ le16 (f_crc f)
  | K_data => le16 LINK_DATA_MAGIC ++ le16 (f_len f) ++ le16 (f_crc f)
  end.
Definition encode (f : rx_frame) : list Z := f_hdr f ++ f_body f.

(** What a sender may put on the wire; a CTRL frame has its CRC right. *)
Definition frame_ok (f : rx_frame) : Prop :=
  bytes_ok (f_body f) /\ is_u16 (f_crc f) /\
  match f_kind f with
  | K_erpc => 8 <= f_len f < LINK_DATA_MAGIC
  | K_ctrl => ERPC_CTRL_HDR <= f_len f <= ERPC_CTRL_MAX /\ erpc_crc16 (f_body f) = f_crc f
  | K_data => LINK_DATA_HDR <= f_len f <= LINK_DATA_BODY_MAX
  end.

Section frames.
Context {U consumer : Type} `{UartLaws U} (base : Z).
Notation svc := (@svc U consumer).
Implicit Types (s : svc) (f : rx_frame) (k n : nat) (c : core) (l : link consumer) (p rest : list Z).

(** What a frame does. *)
Definition take_frame f (cl : core * link consumer) : option (core * link consumer) :=
  let '(c, l) := cl in
  match f_kind f with
  | K_erpc => if ERPC_RX_SCRATCH <? f_len f then Some (count add_oversize c, l) else c ← erpc_dispatch (f_body f) (f_crc f) c; Some (c, l)
  | K_ctrl => '(_, c) ← erpc_ctrl_dispatch (f_body f) (f_crc f) c; Some (c, l)
  | K_data =>
      '(i, l) ← link_data_rx_claim (f_len f) l;
      match i with
      | None => Some (c, l)
      | Some i => l ← rx_fill i 0 (f_body f) l; l ← link_data_rx_commit base (body_ptr base i) (f_len f) (f_crc f) l; Some (c, l)
      end
  end.
Fixpoint take_frames (fs : list rx_frame) (cl : core * link consumer) : option (core * link consumer) :=
  match fs with [] => Some cl | f :: fs => cl ← take_frame f cl; take_frames fs cl end.

(** *** Where the reader stands: [k] bytes into [f], which it began with [c] and [l] *)

Definition hl f : nat := length (f_hdr f).
Definition known f k (q : kind) : bool := (2 <=? k)%nat && bool_decide (f_kind f = q).

Record svc_ok s : Prop := {
  so_uart : uart_ok (un s);
  so_hdr : length (rx_hdr (rd s)) = 6%nat;
  so_scratch : length (erpc_scratch s) = Z.to_nat ERPC_RX_SCRATCH;
}.

Record in_hdr c l f k s : Prop := {
  ih_k : (k <= hl f)%nat;
  ih_drain : rx_drain_left (rd s) = 0;
  ih_got : rx_hdr_got (rd s) = Z.of_nat k;
  ih_need : rx_hdr_need (rd s) = if (2 <=? k)%nat then Z.of_nat (hl f) else 4;
  ih_ctrl : rx_is_ctrl (rd s) = known f k K_ctrl;
  ih_data : rx_is_data (rd s) = known f k K_data;
  ih_bytes : take k (rx_hdr (rd s)) = take k (f_hdr f);
  ih_dst : rx_dst (rd s) = None;
  ih_c : rc s = c; ih_l : lk s = l;
}.

Record in_body c l f k s : Prop := {
  ib_k : (hl f <= k)%nat;
  ib_drain : rx_drain_left (rd s) = 0;
  ib_got : rx_hdr_got (rd s) = rx_hdr_need (rd s);
  ib_ctrl : rx_is_ctrl (rd s) = bool_decide (f_kind f = K_ctrl);
  ib_data : rx_is_data (rd s) = bool_decide (f_kind f = K_data);
  ib_size : rx_size (rd s) = f_len f;
  ib_crc : rx_crc (rd s) = f_crc f;
  ib_body : rx_body_got (rd s) = Z.of_nat (k - hl f);
  ib_c : rc s = c;
  ib_store :
    if decide (f_kind f = K_data) then
      exists i l', link_data_rx_claim (f_len f) l = Some (Some i, l') /\ rx_dst (rd s) = Some i /\
        rx_fill i 0 (take (k - hl f) (f_body f)) l' = Some (lk s)
    else rx_dst (rd s) = None /\ lk s = l /\ take (k - hl f) (erpc_scratch s) = take (k - hl f) (f_body f) /\ f_len f <= ERPC_RX_SCRATCH;
}.

Record in_drain (cl : core * link consumer) f k s : Prop := {
  id_k : (hl f <= k)%nat;
  id_left : rx_drain_left (rd s) = Z.of_nat (length (encode f) - k);
  id_dst : rx_dst (rd s) = None;
  id_cl : cl = (rc s, lk s);
}.

Definition idle s : Prop :=
  rx_drain_left (rd s) = 0 /\ rx_hdr_got (rd s) = 0 /\ rx_hdr_need (rd s) = 4 /\ rx_is_ctrl (rd s) = false /\ rx_is_data (rd s) = false /\ rx_dst (rd s) = None.

Lemma idle_in_hdr f s : idle s <-> in_hdr (rc s) (lk s) f 0 s.
Proof.
  split.
  - intros (? & ? & ? & ? & ? & ?). split; try done. lia.
  - intros []. done.
Qed.

Lemma hl_4_6 f : hl f = if decide (f_kind f = K_erpc) then 4%nat else 6%nat.
Proof. unfold hl, f_hdr. by destruct (f_kind f). Qed.

Lemma hl_range f : (4 <= hl f <= 6)%nat.
Proof. rewrite hl_4_6. case_decide; lia. Qed.

Lemma get16_take j (a b : list Z) : (2 <= j)%nat -> take j a = take j b -> get16 a = get16 b.
Proof.
  intros Hj E. assert (Hn : forall i, (i < 2)%nat -> nth i a 0 = nth i b 0).
  { intros i Hi. rewrite !nth_lookup, <-(lookup_take_lt a j i), <-(lookup_take_lt b j i) by lia. by rewrite E. }
  unfold get16. by rewrite !Hn by lia.
Qed.

Lemma get16_hdr f : frame_ok f ->
  get16 (f_hdr f) = match f_kind f with K_erpc => f_len f | K_ctrl => ERPC_CTRL_MAGIC | K_data => LINK_DATA_MAGIC end.
Proof.
  intros (_ & _ & Hk). unfold f_hdr. destruct (f_kind f); apply get16_le16; unfold is_u16, f_len, LINK_DATA_MAGIC, ERPC_CTRL_MAGIC in *; lia.
Qed.

(** A buffer that has received [j] bytes of [e] receives [n] more. *)
Lemma take_splice_more j n (e b bs : list Z) : take j b = take j e -> bs = take n (drop j e) -> n = length bs -> (j + n <= length b)%nat ->
  take (j + n) (splice j bs b) = take (j + n) e.
Proof.
  intros Ht Hb Hn Hl. unfold splice. rewrite app_assoc, take_app_le by (rewrite length_app, length_take; lia).
  rewrite take_ge by (rewrite length_app, length_take; lia). rewrite Ht, Hb. apply take_take_drop.
Qed.

(** A read of at most [m] bytes from a stream that continues [e]. *)
Lemma read_stream s (m : Z) e rest : svc_ok s -> 0 <= m <= Z.of_nat (length e) -> pending (un s) `prefix_of` e ++ rest ->
  exists bs u, uart_read m (un s) = Some (bs, u) /\ uart_ok u /\ pending (un s) = bs ++ pending u /\
    bs = take (length bs) e /\ Z.of_nat (length bs) <= m /\ (pending u <> [] -> Z.of_nat (length bs) = m) /\
    (0 < m -> length bs = 0%nat <-> pending (un s) = []) /\
    pending u `prefix_of` drop (length bs) e ++ rest.
Proof.
  intros Hs Hn [q Hq]. destruct (uart_read_spec m (un s) (so_uart _ Hs)) as (u & Er & Hp & _ & Hu); [lia|].
  exists (take (Z.to_nat m) (pending (un s))), u. set (bs := take (Z.to_nat m) (pending (un s))).
  assert (Hb : pending (un s) = bs ++ pending u) by (rewrite Hp; symmetry; apply take_drop).
  assert (Hlen : (length bs <= Z.to_nat m)%nat) by (unfold bs; rewrite length_take; lia).
  assert (He : bs = take (length bs) e).
  { rewrite Hb, <-app_assoc in Hq. apply (f_equal (take (length bs))) in Hq. rewrite take_app_length, take_app_le in Hq by lia. done. }
  split_and!; try done; [lia| | |].
  - intros Hne. unfold bs. rewrite length_take. destruct (decide (Z.to_nat m <= length (pending (un s)))%nat); [lia|].
    rewrite Hp, drop_ge in Hne by lia. done.
  - intros Hm. unfold bs. rewrite length_take. split; [|intros ->; apply Nat.min_0_r]. intros E. apply nil_length_inv. lia.
  - exists q. apply (f_equal (drop (length bs))) in Hq. rewrite Hb, <-app_assoc, drop_app_length, drop_app_le in Hq by lia. done.
Qed.

Lemma mark_spec f k j r : frame_ok f -> (k <= j <= hl f)%nat -> rx_hdr_got r = Z.of_nat j ->
  ((2 <= j)%nat -> get16 (rx_hdr r) = get16 (f_hdr f)) -> rx_hdr_need r = (if (2 <=? k)%nat then Z.of_nat (hl f) else 4) ->
  rx_is_ctrl r = known f k K_ctrl -> rx_is_data r = known f k K_data -> rx_drain_left r = 0 -> rx_dst r = None ->
  rx_hdr_got (mark r) = Z.of_nat j /\ rx_hdr (mark r) = rx_hdr r /\ rx_hdr_need (mark r) = (if (2 <=? j)%nat then Z.of_nat (hl f) else 4) /\
  rx_is_ctrl (mark r) = known f j K_ctrl /\ rx_is_data (mark r) = known f j K_data /\ rx_drain_left (mark r) = 0 /\ rx_dst (mark r) = None.
Proof.
  intros Hf Hj Hgot Hg Hneed Hc Hd Hdr Hdst. rewrite (get16_hdr f Hf) in Hg. destruct Hf as (_ & _ & Hf). unfold mark, known in *.
  rewrite Hgot, Hneed, hl_4_6 in *. destruct (Nat.leb_spec 2 j) as [H2|H2].
  - rewrite (Hg H2), (proj2 (Z.leb_le 2 _)) by lia. cbn [andb].
    destruct (Nat.leb_spec 2 k), (f_kind f) eqn:Ek; cbn [decide kind_eq] in *; rewrite ?decide_True, ?decide_False in * by done; unfold LINK_DATA_MAGIC, ERPC_CTRL_MAGIC in *.
    all: repeat rewrite (proj2 (Z.eqb_neq (f_len f) _)) by lia.
    all: cbn -[Z.of_nat]; split_and!; try (congruence || done); by rewrite ?Hc, ?Hd.
  - rewrite (proj2 (Nat.leb_gt 2 k)) in * by lia. rewrite (proj2 (Z.leb_gt 2 _)) by lia. cbn [andb]. done.
Qed.

Lemma read_hdr_spec c l f k s rest : svc_ok s -> frame_ok f -> in_hdr c l f k s -> (k < hl f)%nat -> pending (un s) `prefix_of` drop k (encode f) ++ rest ->
  exists n s', read_hdr s = Some (negb (n =? 0)%nat, s') /\ svc_ok s' /\ in_hdr c l f (k + n) s' /\
    pending (un s) = take n (drop k (encode f)) ++ pending (un s') /\ (n = 0%nat <-> pending (un s) = []) /\
    pending (un s') `prefix_of` drop (k + n) (encode f) ++ rest.
Proof.
  intros Hs Hf Hh Hk Hpre. destruct Hh.
  set (need := rx_hdr_need (rd s)) in *. set (got := rx_hdr_got (rd s)) in *.
  assert (Hneed : Z.of_nat k < need <= Z.of_nat (hl f)) by (rewrite ih_need0; destruct (Nat.leb_spec 2 k); rewrite hl_4_6 in *; case_decide; lia).
  assert (Hlen : length (encode f) = (hl f + length (f_body f))%nat) by (unfold encode; by rewrite length_app).
  destruct (read_stream s (need - got) (drop k (encode f)) rest Hs) as (bs & u & Er & Hu & Hp & Hb & Hle & Hall & Hn & Hpre'); [rewrite length_drop; lia|done|].
  set (n := length bs) in *. exists n. unfold read_hdr. cbv zeta. fold need got. rewrite Er. cbn [mbind option_bind].
  pose proof (hl_range f) as H6.
  assert (Hbn : bs = take n (drop k (f_hdr f))).
  { rewrite Hb at 1. unfold encode, hl in *. rewrite drop_app_le by lia. by rewrite take_app_le by (rewrite length_drop; lia). }
  unfold store. rewrite (so_hdr _ Hs), decide_True by lia. cbn [mbind option_bind].
  replace (Z.to_nat got) with k by lia. cbv zeta.
  set (h := splice k bs (rx_hdr (rd s))).
  assert (Hh : take (k + n) h = take (k + n) (f_hdr f)).
  { apply take_splice_more; try done. rewrite (so_hdr _ Hs). lia. }
  assert (Hlh : length h = 6%nat) by (unfold h; rewrite length_splice; rewrite (so_hdr _ Hs); lia).
  fold n. set (r1 := if decide (bs = []) then rd s else set_hdr h (u8 (got + Z.of_nat n)) (rd s)).
  assert (Hr1 : rx_hdr_got r1 = Z.of_nat (k + n) /\ rx_hdr r1 = h /\ rx_hdr_need r1 = need /\ rx_is_ctrl r1 = rx_is_ctrl (rd s) /\
    rx_is_data r1 = rx_is_data (rd s) /\ rx_drain_left r1 = 0 /\ rx_dst r1 = None).
  { unfold r1. case_decide as E.
    - assert (n = 0%nat) by (unfold n; by rewrite E). split_and!; try done; [unfold got in *; lia|]. unfold h. rewrite E, splice_nil; [done|rewrite (so_hdr _ Hs); lia].
    - cbn. split_and!; try done. rewrite u8_small; unfold is_u8; lia. }
  destruct Hr1 as (G1 & G2 & G3 & G4 & G5 & G6 & G7). clearbody r1 h.
  assert (Hr2 := mark_spec f k (k + n) r1 Hf). rewrite G1, G2, G3, G4, G5, G6, G7 in Hr2. destruct Hr2 as (K1 & K2 & K3 & K4 & K5 & K6 & K7);
    [lia|done|intros; by eapply get16_take|done..|].
  set (r2 := mark r1) in *. clearbody r2.
  exists (set_rd r2 (set_un u s)). split_and!.
  - f_equal. f_equal. unfold n. destruct bs; [by rewrite bool_decide_eq_true_2|by rewrite bool_decide_eq_false_2].
  - destruct Hs. split; [done|cbn; by rewrite K2|done].
  - clear -K1 K2 K3 K4 K5 K6 K7 Hh Hle Hneed ih_got0 ih_c0 ih_l0. split; cbn; try done; [lia|by rewrite K2].
  - rewrite <-Hb. exact Hp.
  - apply Hn. clear -Hneed ih_got0. lia.
  - rewrite <-drop_drop. exact Hpre'.
Qed.

Lemma hdr_fields f h : frame_ok f -> take (hl f) h = f_hdr f ->
  match f_kind f with
  | K_erpc => get16 h = f_len f /\ get16 (drop 2 h) = f_crc f
  | _ => get16 (drop 2 h) = f_len f /\ get16 (drop 4 h) = f_crc f
  end.
Proof.
  intros (_ & Hc & Hk) E. rewrite <-(take_drop (hl f) h), E. set (r := drop (hl f) h). unfold f_hdr.
  assert (Hl : is_u16 (f_len f)) by (unfold is_u16, LINK_DATA_MAGIC, LINK_DATA_BODY_MAX, LINK_DATA_PAYLOAD_MAX, LINK_DATA_HDR, ERPC_CTRL_MAX, ERPC_CTRL_HDR in *;
    destruct (f_kind f); lia).
  destruct (f_kind f); rewrite <-!app_assoc.
  - split; [by apply get16_le16|]. change (drop 2 (le16 (f_len f) ++ le16 (f_crc f) ++ r)) with (le16 (f_crc f) ++ r). by apply get16_le16.
  - change (drop 2 (le16 ERPC_CTRL_MAGIC ++ le16 (f_len f) ++ le16 (f_crc f) ++ r)) with (le16 (f_len f) ++ le16 (f_crc f) ++ r).
    change (drop 4 (le16 ERPC_CTRL_MAGIC ++ le16 (f_len f) ++ le16 (f_crc f) ++ r)) with (le16 (f_crc f) ++ r).
    split; by apply get16_le16.
  - change (drop 2 (le16 LINK_DATA_MAGIC ++ le16 (f_len f) ++ le16 (f_crc f) ++ r)) with (le16 (f_len f) ++ le16 (f_crc f) ++ r).
    change (drop 4 (le16 LINK_DATA_MAGIC ++ le16 (f_len f) ++ le16 (f_crc f) ++ r)) with (le16 (f_crc f) ++ r).
    split; by apply get16_le16.
Qed.

Lemma length_encode f : length (encode f) = (hl f + length (f_body f))%nat.
Proof. unfold encode. by rewrite length_app. Qed.

Lemma rx_fill_nil i l b : p_buf (ld_rx l) !! Z.to_nat i = Some b -> rx_fill i 0 [] l = Some l.
Proof.
  intros Hb. unfold rx_fill. rewrite Hb. cbn [mbind option_bind]. unfold store. rewrite decide_True by (cbn; lia). cbn [mbind option_bind].
  rewrite splice_nil by lia. unfold set_buf, buf_set. rewrite decide_True by by eapply lookup_lt_Some. cbn [mbind option_bind].
  rewrite list_insert_id by by destruct b. by destruct l as [[] ? ? ? ? ? ?].
Qed.

Lemma start_frame_spec c l f s cl : svc_ok s -> frame_ok f -> in_hdr c l f (hl f) s -> take_frame f (c, l) = Some cl ->
  exists b s', start_frame base s = Some (b, s') /\ svc_ok s' /\ pending (un s') = pending (un s) /\
    if (b : bool) then in_drain cl f (hl f) s' else in_body c l f (hl f) s'.
Proof.
  intros Hs Hf Hh Ht. destruct Hh.
  assert (Hfld := hdr_fields f (rx_hdr (rd s)) Hf). rewrite ih_bytes0 in Hfld. specialize (Hfld (firstn_all _)).
  assert (Hneed : rx_hdr_need (rd s) = rx_hdr_got (rd s)) by (rewrite ih_need0, ih_got0, hl_4_6; by case_decide).
  unfold known in *. pose proof (hl_range f) as Hhl. rewrite (proj2 (Nat.leb_le 2 (hl f))) in ih_ctrl0, ih_data0 by lia. cbn [andb] in ih_ctrl0, ih_data0.
  destruct Hf as (Hb & Hc & Hk). unfold start_frame. rewrite ih_ctrl0, ih_data0.
  unfold take_frame in Ht. destruct (f_kind f) eqn:Ek; destruct Hfld as [F1 F2].
  - rewrite !bool_decide_eq_false_2 by done. cbn [rd rx_size set_rd set_frame rx_hdr]. rewrite F1, F2.
    destruct (Z.ltb_spec ERPC_RX_SCRATCH (f_len f)).
    + simplify_eq. eexists _, _. split; [done|]. split; [by destruct Hs|]. split; [done|]. split; try done. cbn. rewrite length_encode. unfold f_len. lia.
    + rewrite (proj2 (Z.ltb_ge _ _)) by lia. eexists _, _. split; [done|]. split; [by destruct Hs|]. split; [done|].
      split; cbn; try done; try by (rewrite ?ih_ctrl0, ?ih_data0, Ek). { by rewrite Nat.sub_diag. }
      rewrite Ek. by rewrite Nat.sub_diag.
  - rewrite bool_decide_eq_false_2, bool_decide_eq_true_2 by done. cbn [rd rx_size set_rd set_frame rx_hdr]. rewrite F1, F2.
    rewrite (proj2 (Z.ltb_ge _ _)) by lia. rewrite (proj2 (Z.ltb_ge _ _)) by lia. cbn [orb].
    eexists _, _. split; [done|]. split; [by destruct Hs|]. split; [done|].
    split; cbn; try done; try by (rewrite ?ih_ctrl0, ?ih_data0, Ek). { by rewrite Nat.sub_diag. }
    rewrite Ek, Nat.sub_diag. unfold ERPC_RX_SCRATCH, ERPC_CTRL_MAX in *. split_and!; try done. lia.
  - rewrite bool_decide_eq_true_2 by done. cbn [rd rx_size set_rd set_frame rx_hdr]. rewrite F1, F2.
    rewrite (proj2 (Z.ltb_ge _ _)) by lia. rewrite (proj2 (Z.ltb_ge _ _)) by lia. cbn [orb lk set_rd].
    rewrite ih_l0. destruct (link_data_rx_claim (f_len f) l) as [[[i|] l']|] eqn:Ecl; [| |done]; cbn [mbind option_bind] in *.
    + eexists _, _. split; [done|]. split; [by destruct Hs|]. split; [done|].
      split; cbn; try done; try by (rewrite ?ih_ctrl0, ?ih_data0, Ek). { by rewrite Nat.sub_diag. }
      rewrite Ek, Nat.sub_diag. exists i, l'. split_and!; try done.
      unfold rx_fill in Ht at 1. destruct (p_buf (ld_rx l') !! Z.to_nat i) as [bf|] eqn:Ebf; [|done]. by eapply rx_fill_nil.
    + simplify_eq. eexists _, _. split; [done|]. split; [by destruct Hs|]. split; [done|]. split; cbn; try done.
      rewrite length_encode. unfold f_len. lia.
Qed.

Lemma rx_fill_more i d1 d2 d3 l l1 l3 : rx_fill i 0 d1 l = Some l1 -> rx_fill i 0 (d1 ++ d2 ++ d3) l = Some l3 ->
  exists l2, rx_fill i (length d1) d2 l1 = Some l2 /\ rx_fill i 0 (d1 ++ d2) l = Some l2.
Proof.
  unfold rx_fill, store, set_buf, buf_set. intros E1 E3.
  destruct (p_buf (ld_rx l) !! Z.to_nat i) as [bf|] eqn:Eb; [|done]. cbn [mbind option_bind] in *.
  destruct (decide (0 + length d1 <= length (body bf))%nat) as [H1|]; [|done].
  destruct (decide (0 + length (d1 ++ d2 ++ d3) <= length (body bf))%nat) as [H3|]; [|done]. rewrite !length_app in H3.
  cbn [mbind option_bind] in *. apply lookup_lt_Some in Eb as Hlt. rewrite decide_True in E1 by done. cbn [mbind option_bind] in E1. simplify_eq.
  cbn [ld_rx LinkData.set_rx p_buf]. rewrite list_lookup_insert_eq by done. cbn [mbind option_bind body len crc].
  rewrite length_splice by lia. rewrite decide_True by lia. rewrite decide_True by (rewrite length_app; lia). cbn [mbind option_bind].
  rewrite length_insert, !decide_True by done. cbn [mbind option_bind]. rewrite list_insert_insert_eq.
  pose proof (splice_splice_app 0 d1 d2 (body bf)) as E. rewrite Nat.add_0_l in E. rewrite E by lia. eexists. split; done.
Qed.

Lemma reset_spec s : rx_dst (rd s) = None \/ rx_is_data (rd s) = false -> svc_ok s ->
  exists s', erpc_reader_reset base s = Some s' /\ idle s' /\ svc_ok s' /\ rc s' = rc s /\ lk s' = lk s /\ un s' = un s.
Proof.
  intros Hd []. unfold erpc_reader_reset. assert (E : match rx_dst (rd s) with
      | Some i => if rx_is_data (rd s) then link_data_rx_abort base (body_ptr base i) (lk s) else Some (lk s)
      | None => Some (lk s) end = Some (lk s)) by (destruct Hd as [-> | ->]; [done|by destruct (rx_dst (rd s))]).
  rewrite E. cbn [mbind option_bind]. eexists. split; [done|]. done.
Qed.

(** A CTRL frame whose CRC is right never resynchronises the stream. *)
Lemma ctrl_dispatch_ok bd crc c rs c' : erpc_ctrl_dispatch bd crc c = Some (rs, c') -> ERPC_CTRL_HDR <= Z.of_nat (length bd) -> erpc_crc16 bd = crc -> rs = false.
Proof.
  intros E Hl Hc. unfold erpc_ctrl_dispatch in E. rewrite Hc, Z.eqb_refl in E. rewrite (proj2 (Z.ltb_ge _ _)) in E by lia. cbn [orb negb] in E.
  destruct (_ || _); [by simplify_eq|]. destruct (copy_out _ _ _); [|done]. cbn [mbind option_bind] in E. by simplify_eq.
Qed.

Lemma finish_spec c l f s cl : svc_ok s -> frame_ok f -> in_body c l f (length (encode f)) s -> take_frame f (c, l) = Some cl ->
  exists s', finish_frame base s = Some s' /\ idle s' /\ svc_ok s' /\ cl = (rc s', lk s') /\ un s' = un s.
Proof.
  intros Hs Hf [] Ht. rewrite length_encode in *. replace (hl f + length (f_body f) - hl f)%nat with (length (f_body f)) in * by lia.
  rewrite firstn_all in ib_store0. unfold finish_frame. rewrite ib_data0, ib_ctrl0, ib_size0, ib_crc0.
  unfold f_len in *. rewrite Nat2Z.id. unfold take_frame, f_len in Ht. destruct Hf as (_ & _ & Hk). unfold f_len in Hk. destruct (f_kind f) eqn:Ek.
  - rewrite decide_False in ib_store0 by done. destruct ib_store0 as (Hd & Hl & Hb & Hle). rewrite !bool_decide_eq_false_2 by done.
    rewrite Hb, ib_c0. rewrite (proj2 (Z.ltb_ge _ _)) in Ht by lia. destruct (erpc_dispatch _ _ c) as [c'|]; [|done]. cbn [mbind option_bind] in *.
    destruct (reset_spec (set_rc c' s)) as (s' & E & ? & ? & Ec & El & Eu); [by left|by destruct Hs|]. exists s'. cbn in Ec, El. split_and!; congruence || done.
  - rewrite decide_False in ib_store0 by done. destruct ib_store0 as (Hd & Hl & Hb & Hle). rewrite bool_decide_eq_false_2, bool_decide_eq_true_2 by done.
    rewrite Hb, ib_c0. destruct (erpc_ctrl_dispatch _ _ c) as [[rs c']|] eqn:Ed; [|done]. apply ctrl_dispatch_ok in Ed as Hrs; [|lia|tauto].
    subst rs. cbn [mbind option_bind] in *.
    destruct (reset_spec (set_rc c' s)) as (s' & E & ? & ? & Ec & El & Eu); [by left|by destruct Hs|]. exists s'. cbn in Ec, El. split_and!; congruence || done.
  - rewrite decide_True in ib_store0 by done. destruct ib_store0 as (i & l' & Ecl & Hd & Efill). rewrite bool_decide_eq_true_2 by done.
    rewrite Ecl in Ht. cbn [mbind option_bind] in Ht. rewrite Efill in Ht. cbn [mbind option_bind] in Ht. rewrite Hd. cbn [mbind option_bind].
    destruct (link_data_rx_commit _ _ _ _ _) as [l2|]; [|done]. cbn [mbind option_bind] in *.
    destruct (reset_spec (set_lk l2 (set_rd (set_dst false None (rd s)) s))) as (s' & E & ? & ? & Ec & El & Eu); [by left|by destruct Hs|]. exists s'. cbn in Ec, El. split_and!; congruence || done.
Qed.

Lemma drop_body f k : (hl f <= k)%nat -> drop k (encode f) = drop (k - hl f) (f_body f).
Proof. intros. unfold encode, hl in *. rewrite drop_app_ge by lia. done. Qed.

Lemma read_body_spec c l f k s rest cl : svc_ok s -> frame_ok f -> in_body c l f k s -> (k < length (encode f))%nat -> take_frame f (c, l) = Some cl ->
  pending (un s) `prefix_of` drop k (encode f) ++ rest ->
  exists n s', receive_body s = Some (negb (n =? 0)%nat, s') /\ svc_ok s' /\ in_body c l f (k + n) s' /\ (k + n <= length (encode f))%nat /\
    pending (un s) = take n (drop k (encode f)) ++ pending (un s') /\ (n = 0%nat <-> pending (un s) = []) /\
    pending (un s') `prefix_of` drop (k + n) (encode f) ++ rest.
Proof.
  intros Hs Hf [] Hk Ht Hpre. rewrite length_encode in *.
  assert (Hlf : Z.of_nat (length (f_body f)) = f_len f) by done.
  assert (Hmax : f_len f < 65536) by (destruct Hf as (_ & _ & Hf); unfold LINK_DATA_MAGIC, LINK_DATA_BODY_MAX, LINK_DATA_PAYLOAD_MAX, LINK_DATA_HDR, ERPC_CTRL_MAX, ERPC_CTRL_HDR in *; destruct (f_kind f); lia).
  unfold receive_body. rewrite ib_size0, ib_body0. rewrite (proj2 (Z.ltb_lt _ _)) by lia.
  destruct (read_stream s (f_len f - Z.of_nat (k - hl f)) (drop k (encode f)) rest Hs) as (bs & u & Er & Hu & Hp & Hb & Hle & Hall & Hn & Hpre');
    [rewrite length_drop, length_encode; lia|done|].
  set (n := length bs) in *. exists n. rewrite Er. cbn [mbind option_bind]. set (j := (k - hl f)%nat) in *.
  assert (Hbn : bs = take n (drop j (f_body f))) by (unfold j; rewrite <-drop_body by lia; done).
  assert (Hn0 : n = 0%nat <-> pending (un s) = []) by (apply Hn; lia).
  assert (Hbool : negb (bool_decide (bs = [])) = negb (n =? 0)%nat) by (unfold n; by destruct bs).
  rewrite Nat2Z.id. assert (Hu16 : u16 (Z.of_nat j + Z.of_nat n) = Z.of_nat (k + n - hl f)) by (rewrite u16_small; unfold is_u16; lia).
  assert (Hpn : pending (un s) = take n (drop k (encode f)) ++ pending u) by (by rewrite <-Hb).
  rewrite <-drop_drop. destruct (decide (f_kind f = K_data)) as [Ek|Ek].
  - destruct ib_store0 as (i & l' & Ecl & Hd & Efill). rewrite ib_data0, (bool_decide_eq_true_2 (f_kind f = K_data)), Hd by done. cbn [mbind option_bind].
    unfold take_frame in Ht. rewrite Ek, Ecl in Ht. cbn [mbind option_bind] in Ht.
    destruct (rx_fill i 0 (f_body f) l') as [l3|] eqn:E3; [|done].
    assert (Hsplit : f_body f = take j (f_body f) ++ bs ++ drop (j + n) (f_body f)).
    { rewrite Hbn at 1. rewrite <-drop_drop, take_drop, take_drop. done. }
    rewrite Hsplit in E3. destruct (rx_fill_more i _ bs _ _ _ _ Efill E3) as (l2 & E2 & E2').
    rewrite length_take, Nat.min_l in E2 by lia. cbn [lk set_un]. rewrite E2. cbn [mbind option_bind]. fold n. rewrite Hbool, Hu16.
    eexists. split; [done|]. split_and!; try done.
    + by destruct Hs.
    + split; cbn; try done; [lia|]. rewrite decide_True by done. exists i, l'. split_and!; try done.
      replace (k + n - hl f)%nat with (j + n)%nat by lia. rewrite <-E2'. f_equal. rewrite Hbn at 1. symmetry. apply take_take_drop.
    + lia.
  - destruct ib_store0 as (Hd & Hl & Hsc & Hle4). rewrite ib_data0, (bool_decide_eq_false_2 (f_kind f = K_data)) by done. unfold store. cbn [erpc_scratch set_un].
    rewrite (so_scratch _ Hs), decide_True by lia. cbn [mbind option_bind]. fold n. rewrite Hbool, Hu16.
    eexists. split; [done|]. split_and!; try done.
    + destruct Hs. split; cbn; try done. by rewrite length_splice by lia.
    + split; cbn; try done; [lia|]. rewrite decide_False by done. split_and!; try done.
      replace (k + n - hl f)%nat with (j + n)%nat by lia. apply take_splice_more; try done. rewrite (so_scratch _ Hs). lia.
    + lia.
Qed.

Lemma body_part_spec c l f k s rest cl (q0 : bool) : svc_ok s -> frame_ok f -> in_body c l f k s -> (k < length (encode f))%nat -> take_frame f (c, l) = Some cl ->
  pending (un s) `prefix_of` drop k (encode f) ++ rest ->
  exists n s' b, body_part base q0 s = Some (b, s') /\ svc_ok s' /\ pending (un s) = take n (drop k (encode f)) ++ pending (un s') /\
    pending (un s') `prefix_of` drop (k + n) (encode f) ++ rest /\ (b = false <-> q0 = false /\ pending (un s) = []) /\
    ((k + n < length (encode f))%nat /\ in_body c l f (k + n) s' \/ (k + n = length (encode f))%nat /\ idle s' /\ cl = (rc s', lk s')).
Proof.
  intros Hs Hf Hb Hk Ht Hpre. destruct (read_body_spec c l f k s rest cl Hs Hf Hb Hk Ht Hpre) as (n & s1 & E & Hs1 & Hb1 & Hle & Hp & Hn & Hpre1).
  unfold body_part. rewrite E. cbn [mbind option_bind]. rewrite (ib_body _ _ _ _ _ Hb1), (ib_size _ _ _ _ _ Hb1).
  pose proof (ib_k _ _ _ _ _ Hb) as Hkh. rewrite length_encode in *. unfold f_len at 1.
  destruct (Z.ltb_spec (Z.of_nat (k + n - hl f)) (Z.of_nat (length (f_body f)))).
  - eexists n, s1, _. split; [done|]. split_and!; try done; [|left; split; [lia|done]]. rewrite orb_false_iff, negb_false_iff, Nat.eqb_eq, Hn. done.
  - assert (Ek : (k + n)%nat = length (encode f)) by (rewrite length_encode; lia). rewrite Ek in Hb1.
    destruct (finish_spec c l f s1 cl Hs1 Hf Hb1 Ht) as (s2 & E2 & Hi & Hs2 & Hcl & Hu). rewrite E2. cbn [mbind option_bind].
    exists n, s2, true. split_and!; try done; [by rewrite Hu|by rewrite Hu| |right; split; [by rewrite <-length_encode|done]]. split; [done|]. intros [_ E0]. apply Hn in E0. subst n. lia.
Qed.

Lemma drain_spec cl f fuel k s rest (q0 : bool) : svc_ok s -> frame_ok f -> in_drain cl f k s -> (k <= length (encode f))%nat -> (length (encode f) - k < fuel)%nat ->
  pending (un s) `prefix_of` drop k (encode f) ++ rest ->
  exists n s' all pr, drain_loop fuel q0 s = Some (all, pr, s') /\ svc_ok s' /\ in_drain cl f (k + n) s' /\ (k + n <= length (encode f))%nat /\
    pending (un s) = take n (drop k (encode f)) ++ pending (un s') /\ pending (un s') `prefix_of` drop (k + n) (encode f) ++ rest /\
    (all = true <-> (k + n)%nat = length (encode f)) /\ (pr = false <-> q0 = false /\ n = 0%nat) /\ (all = false -> pending (un s') = []).
Proof.
  revert k s q0. induction fuel as [|fuel IH]; intros k s q0 Hs Hf Hd Hk Hfuel Hpre; [lia|].
  pose proof Hd as [Hkh Hleft Hdst Hcl]. cbn [drain_loop]. rewrite Hleft.
  assert (Hmax : Z.of_nat (length (encode f)) < 65550).
  { rewrite length_encode. pose proof (hl_range f). destruct Hf as (_ & _ & Hf). unfold f_len, LINK_DATA_MAGIC, LINK_DATA_BODY_MAX, LINK_DATA_PAYLOAD_MAX, LINK_DATA_HDR, ERPC_CTRL_MAX, ERPC_CTRL_HDR in *. destruct (f_kind f); lia. }
  destruct (Z.eqb_spec (Z.of_nat (length (encode f) - k)) 0) as [E0|E0].
  { exists 0%nat, s, true, q0. rewrite Nat.add_0_r. split_and!; try done; split; try done; try tauto. intros _. lia. }
  set (m := if Z.of_nat (length (encode f) - k) <? 64 then _ else 64).
  assert (Hm : 0 < m <= Z.of_nat (length (encode f) - k)) by (unfold m; destruct (Z.ltb_spec (Z.of_nat (length (encode f) - k)) 64); lia).
  destruct (read_stream s m (drop k (encode f)) rest Hs) as (bs & u & Er & Hu & Hp & Hb & Hle & Hall & Hn & Hpre'); [rewrite length_drop; lia|done|].
  rewrite Er. cbn [mbind option_bind]. destruct (Z.eqb_spec (Z.of_nat (length bs)) 0) as [En|En].
  - assert (bs = []) as -> by (apply nil_length_inv; lia). exists 0%nat, (set_un u s), false, q0. rewrite Nat.add_0_r.
    assert (Hpu : pending u = []) by (destruct (pending u); [done|specialize (Hall ltac:(done)); lia]).
    split_and!; try done; [by destruct Hs|by split; try done; intros ?; lia|tauto].
  - rewrite u32_small by (unfold is_u32; lia). set (s1 := set_rd _ _).
    destruct (IH (k + length bs)%nat s1 true) as (n & s' & all & pr & E & Hs' & Hd' & Hle' & Hp' & Hpre2 & Hall' & Hpr & Hemp).
    + unfold s1. by destruct Hs.
    + done.
    + unfold s1. split; cbn; try done; lia.
    + lia.
    + lia.
    + unfold s1. cbn. by rewrite <-drop_drop.
    + exists (length bs + n)%nat, s', all, pr. rewrite Nat.add_assoc. split_and!; try done.
      * rewrite Hp. unfold s1 in Hp'. cbn in Hp'. rewrite Hp', app_assoc. f_equal. rewrite Hb at 1. rewrite <-drop_drop. rewrite take_take_drop. done.
      * rewrite Hpr. split; [by intros [??]|intros [_ ?]; lia].
Qed.

(** *** One step of the reader *)

Definition at_frame c l cl f k s : Prop :=
  (k < length (encode f))%nat /\ ((k < hl f)%nat /\ in_hdr c l f k s \/ in_body c l f k s \/ in_drain cl f k s).

Lemma step_spec c l cl f k s rest : svc_ok s -> frame_ok f -> take_frame f (c, l) = Some cl -> at_frame c l cl f k s ->
  pending (un s) `prefix_of` drop k (encode f) ++ rest ->
  exists n b s', erpc_rx_step base s = Some (b, s') /\ svc_ok s' /\ pending (un s) = take n (drop k (encode f)) ++ pending (un s') /\
    (b = false <-> pending (un s) = []) /\
    (at_frame c l cl f (k + n) s' \/ (k + n)%nat = length (encode f) /\ idle s' /\ cl = (rc s', lk s')).
Proof.
  intros Hs Hf Ht [Hk Hat] Hpre. unfold erpc_rx_step. destruct Hat as [[Hkh Hh]|[Hb|Hd]].
  - pose proof (hl_range f) as Hhl. rewrite (ih_drain _ _ _ _ _ Hh), Z.eqb_refl, (ih_got _ _ _ _ _ Hh), (ih_need _ _ _ _ _ Hh). cbn [negb].
    rewrite (proj2 (Z.ltb_lt _ _)) by (destruct (2 <=? k)%nat eqn:E2; [lia|apply Nat.leb_gt in E2; lia]).
    destruct (read_hdr_spec c l f k s rest Hs Hf Hh Hkh Hpre) as (n & s1 & E & Hs1 & Hh1 & Hp & Hn & Hpre1). rewrite E. cbn [mbind option_bind].
    rewrite (ih_got _ _ _ _ _ Hh1), (ih_need _ _ _ _ _ Hh1). pose proof (ih_k _ _ _ _ _ Hh1) as Hk1. pose proof (length_encode f) as Hle.
    assert (Hbody : (8 <= length (f_body f) \/ 2 <= length (f_body f))%nat).
    { destruct Hf as (_ & _ & Hf). unfold f_len, LINK_DATA_HDR, ERPC_CTRL_HDR in Hf. destruct (f_kind f); lia. }
    destruct (decide (k + n < hl f)%nat) as [Hlt|Hge].
    + rewrite (proj2 (Z.ltb_lt _ _)) by (destruct (2 <=? k + n)%nat eqn:E2; [lia|apply Nat.leb_gt in E2; lia]).
      exists n, (negb (n =? 0)%nat), s1. split_and!; try done; [by rewrite negb_false_iff, Nat.eqb_eq|left; split; [lia|by left]].
    + assert (Ek : (k + n)%nat = hl f) by lia. rewrite Ek in *. rewrite (proj2 (Nat.leb_le 2 (hl f))), Z.ltb_irrefl by lia.
      assert (Hn0 : n <> 0%nat) by lia. assert (Hne : pending (un s) <> []) by (rewrite <-Hn; lia).
      destruct (start_frame_spec c l f s1 cl Hs1 Hf Hh1 Ht) as (b & s2 & E2 & Hs2 & Hp2 & Hst). rewrite E2. cbn [mbind option_bind]. destruct b.
      * exists n, true, s2. rewrite Hp2, Ek. split_and!; try done. left. split; [lia|by right; right].
      * destruct (body_part_spec c l f (hl f) s2 rest cl (negb (n =? 0)%nat) Hs2 Hf Hst) as (n' & s3 & b & E3 & Hs3 & Hp3 & _ & Hb3 & Hcase); [lia|done|by rewrite Hp2|].
        exists (n + n')%nat, b, s3. rewrite Nat.add_assoc, Ek. split_and!; try done.
        -- rewrite Hp, <-Hp2, Hp3, app_assoc. f_equal. rewrite <-Ek, <-drop_drop. apply take_take_drop.
        -- rewrite Hb3, negb_false_iff, Nat.eqb_eq. split; [by intros [? _]|done].
        -- destruct Hcase as [[? ?]|?]; [left; split; [done|by right; left]|by right].
  - rewrite (ib_drain _ _ _ _ _ Hb), Z.eqb_refl, (ib_got _ _ _ _ _ Hb), Z.ltb_irrefl. cbn [negb].
    destruct (body_part_spec c l f k s rest cl false Hs Hf Hb Hk Ht Hpre) as (n & s3 & b & E3 & Hs3 & Hp3 & _ & Hb3 & Hcase).
    exists n, b, s3. split_and!; try done; [by rewrite Hb3; split; [intros [_ ?]|]|].
    destruct Hcase as [[? ?]|?]; [left; split; [done|by right; left]|by right].
  - rewrite (id_left _ _ _ _ Hd). rewrite (proj2 (Z.eqb_neq _ 0)) by lia. cbn [negb].
    destruct (drain_spec cl f (S (Z.to_nat (Z.of_nat (length (encode f) - k)))) k s rest false Hs Hf Hd) as (n & s1 & all & pr & E & Hs1 & Hd1 & Hle & Hp & Hpre1 & Hall & Hpr & Hemp);
      [lia|lia|done|]. rewrite E. cbn [mbind option_bind].
    assert (Hn : n = 0%nat -> pending (un s) = pending (un s1)) by (intros ->; by rewrite Hp).
    destruct all; cbn [negb].
    + destruct (reset_spec s1) as (s2 & E2 & Hi & Hs2 & Hc2 & Hl2 & Hu2); [left; apply (id_dst _ _ _ _ Hd1)|done|]. rewrite E2. cbn [mbind option_bind].
      assert (Ek : (k + n)%nat = length (encode f)) by tauto.
      exists n, true, s2. rewrite Hu2. split_and!; try done.
      * split; [done|]. intros E0. rewrite E0 in Hp. symmetry in Hp. apply app_eq_nil in Hp as [Hp _]. apply (f_equal length) in Hp.
        rewrite length_take, length_drop in Hp. cbn in Hp. lia.
      * right. split_and!; try done. rewrite Hc2, Hl2. apply (id_cl _ _ _ _ Hd1).
    + exists n, pr, s1. split_and!; try done.
      * rewrite Hpr, Hp, (Hemp eq_refl), app_nil_r. split; [by intros [_ ->]|]. intros E0. split; [done|]. apply (f_equal length) in E0.
        rewrite length_take, length_drop in E0. cbn in E0. lia.
      * left. split; [|by right; right]. destruct (decide (k + n = length (encode f))%nat); [|lia]. assert (false = true) by tauto. done.
Qed.

(** *** Any chunking *)

(** The bytes that arrived, in whatever pieces, and the steps taken in between. *)
Inductive serves : svc -> list Z -> svc -> Prop :=
  | sv_start s : serves s [] s
  | sv_arrive s bs s' d u : serves s bs s' -> uart_ok u -> pending u = pending (un s') ++ d -> serves s (bs ++ d) (set_un u s')
  | sv_step s bs s' b s'' : serves s bs s' -> erpc_rx_step base s' = Some (b, s'') -> serves s bs s''.

Definition encode_all (fs : list rx_frame) : list Z := concat (encode <$> fs).

(** [k] bytes into the first of [rest], the frames before it done. *)
Definition stands (cl : core * link consumer) (rest : list rx_frame) k s : Prop :=
  match rest with
  | [] => k = 0%nat /\ idle s /\ cl = (rc s, lk s)
  | f :: _ => exists cl', take_frame f cl = Some cl' /\ at_frame (fst cl) (snd cl) cl' f k s
  end.

Lemma stands_next fs cl s : idle s -> is_Some (take_frames fs (rc s, lk s)) -> cl = (rc s, lk s) -> stands cl fs 0 s.
Proof.
  intros Hi Ht ->. destruct fs as [|f fs]; [done|]. cbn [take_frames] in Ht. destruct (take_frame f (rc s, lk s)) as [cl'|] eqn:E; [|by destruct Ht].
  exists cl'. split; [done|]. pose proof (hl_range f). split; [rewrite length_encode; lia|]. left. split; [lia|]. by apply idle_in_hdr.
Qed.

Lemma take_frames_app fs gs cl : take_frames (fs ++ gs) cl = take_frames fs cl ≫= take_frames gs.
Proof. revert cl. induction fs as [|f fs IH]; intros cl; [done|]. cbn [app take_frames]. destruct (take_frame f cl); cbn [mbind option_bind]; [apply IH|done]. Qed.

(** With nothing to read an idle reader does nothing. *)
Lemma idle_step s : svc_ok s -> idle s -> pending (un s) = [] ->
  exists s', erpc_rx_step base s = Some (false, s') /\ svc_ok s' /\ idle s' /\ rc s' = rc s /\ lk s' = lk s /\ pending (un s') = [].
Proof.
  intros Hs Hi Hp. set (f := Frame K_erpc (replicate 4100 0) 0).
  assert (Hl : length (encode f) = 4104%nat) by (rewrite length_encode; cbn -[replicate]; by rewrite length_replicate).
  destruct (step_spec (rc s) (lk s) (count add_oversize (rc s), lk s) f 0 s []) as (n & b & s' & E & Hs' & Hpp & Hb & Hcase).
  - done.
  - split; [by apply Forall_replicate|]. split; [done|]. unfold f, f_len. cbn [f_kind f_body]. rewrite length_replicate. done.
  - unfold take_frame, f, f_len. cbn [f_kind f_body]. by rewrite length_replicate.
  - split; [lia|]. left. split; [pose proof (hl_range f); lia|]. by apply idle_in_hdr.
  - rewrite Hp. apply prefix_nil.
  - rewrite Hp in Hpp. symmetry in Hpp. apply app_eq_nil in Hpp as [En Hp']. apply (f_equal length) in En. rewrite length_take, length_drop, Hl in En. cbn in En.
    assert (n = 0%nat) as -> by lia. assert (b = false) as -> by by apply Hb. exists s'. split; [done|]. split; [done|].
    destruct Hcase as [[_ [[_ Hh]|[[]|[]]]]|[? _]]; [|pose proof (hl_range f); lia|pose proof (hl_range f); lia|lia].
    pose proof (ih_c _ _ _ _ _ Hh). pose proof (ih_l _ _ _ _ _ Hh). destruct Hh. done.
Qed.

Lemma serve_inv fs s arrived s' : idle s -> svc_ok s -> pending (un s) = [] -> Forall frame_ok fs -> is_Some (take_frames fs (rc s, lk s)) ->
  serves s arrived s' -> arrived `prefix_of` encode_all fs ->
  svc_ok s' /\ exists gs hs k cl, fs = gs ++ hs /\ take_frames gs (rc s, lk s) = Some cl /\ stands cl hs k s' /\
    arrived = encode_all gs ++ take k (encode_all hs) ++ pending (un s').
Proof.
  intros Hi Hs Hp0 Hf Ht Hv. induction Hv as [s|s bs s' d u Hv IH Hu Hpu|s bs s' b s'' Hv IH Hst]; intros Hpre.
  - split; [done|]. exists [], fs, 0%nat, (rc s, lk s). split_and!; [done|done|by apply stands_next|by rewrite Hp0].
  - destruct IH as (Hs' & gs & hs & k & cl & E1 & E2 & E3 & E4); [done..|by eapply prefix_app_l|].
    split; [by destruct Hs'|]. exists gs, hs, k, cl. split_and!; try done.
    + destruct hs as [|f hs]; [done|]. destruct E3 as (cl' & Ht' & Hk & Hat). exists cl'. split; [done|]. split; [done|].
      destruct Hat as [[? []]|[[]|[]]]; [left|right; left|right; right]; by split.
    + cbn [un set_un]. by rewrite Hpu, E4, <-!app_assoc.
  - destruct IH as (Hs' & gs & hs & k & cl & E1 & E2 & E3 & E4); [done..|].
    assert (Hall : encode_all fs = encode_all gs ++ encode_all hs) by (rewrite E1; unfold encode_all; by rewrite fmap_app, concat_app).
    rewrite Hall, E4 in Hpre. apply prefix_app_inv in Hpre. destruct hs as [|f hs].
    + destruct E3 as (-> & Hi' & ->). rewrite app_nil_r in E1. subst gs.
      assert (Hpe : pending (un s') = []) by (apply prefix_nil_inv; exact Hpre).
      destruct (idle_step s' Hs' Hi' Hpe) as (s2 & E & Hs2 & Hi2 & Hc2 & Hl2 & Hp2). assert (s2 = s'') by congruence. subst s2.
      split; [done|]. exists fs, [], 0%nat, (rc s', lk s'). rewrite app_nil_r. split_and!; try (congruence || done).
      split_and!; congruence || done.
    + destruct E3 as (cl' & Ht' & Hat). destruct cl as [c l]. cbn [fst snd] in Hat. pose proof (proj1 Hat) as Hk.
      change (encode_all (f :: hs)) with (encode f ++ encode_all hs) in *. rewrite take_app_le in Hpre, E4 by lia.
      rewrite <-(take_drop k (encode f)) in Hpre at 2. rewrite <-app_assoc in Hpre. apply prefix_app_inv in Hpre.
      assert (Hff : frame_ok f) by (rewrite E1 in Hf; apply Forall_app in Hf as [_ Hf]; by apply Forall_cons in Hf as [? _]).
      destruct (step_spec c l cl' f k s' (encode_all hs) Hs' Hff Ht' Hat Hpre) as (n & b' & s2 & E & Hs2 & Hp2 & _ & Hcase). assert (s2 = s'') by congruence. subst s2.
      split; [done|]. destruct Hcase as [Hat2|(Ek & Hi2 & ->)].
      * exists gs, (f :: hs), (k + n)%nat, (c, l). split_and!; try done; [by exists cl'|].
        change (encode_all (f :: hs)) with (encode f ++ encode_all hs). rewrite E4, Hp2, take_app_le by (destruct Hat2; lia).
        by rewrite <-take_take_drop, <-!app_assoc.
      * exists (gs ++ [f]), hs, 0%nat, (rc s'', lk s''). rewrite <-app_assoc. split_and!; try done.
        -- rewrite take_frames_app, E2. cbn [mbind option_bind take_frames]. by rewrite Ht'.
        -- apply stands_next; [done| |done]. rewrite E1, take_frames_app, E2 in Ht. cbn [mbind option_bind take_frames] in Ht. by rewrite Ht' in Ht.
        -- rewrite E4, Hp2. unfold encode_all. rewrite fmap_app, concat_app. cbn. rewrite app_nil_r, <-!app_assoc. f_equal.
           rewrite app_assoc. f_equal. rewrite take_take_drop, Ek. apply firstn_all.
Qed.

Lemma encode_all_app gs hs : encode_all (gs ++ hs) = encode_all gs ++ encode_all hs.
Proof. unfold encode_all. by rewrite fmap_app, concat_app. Qed.

(** C9: The reader finds the frames whatever pieces the stream arrives in.  Say the
    stream is a sequence of frames and the reader starts between frames.  At any
    moment some of the frames have been handled, in order and each as if
    alone; a proper part of the next has been read; the rest of what arrived is still
    unread.  A step is defined, and finds nothing to do only when nothing is unread.
    When everything has arrived and been read, every frame has been handled. *)
Theorem reader_frames fs s arrived s' : idle s -> svc_ok s -> pending (un s) = [] -> Forall frame_ok fs ->
  is_Some (take_frames fs (rc s, lk s)) -> serves s arrived s' -> arrived `prefix_of` encode_all fs ->
  (exists gs hs part, fs = gs ++ hs /\ arrived = encode_all gs ++ part ++ pending (un s') /\
    match hs with [] => part = [] | f :: _ => part `prefix_of` encode f /\ part <> encode f end /\
    (part = [] -> idle s' /\ take_frames gs (rc s, lk s) = Some (rc s', lk s'))) /\
  (exists b s'', erpc_rx_step base s' = Some (b, s'') /\ (b = false <-> pending (un s') = [])) /\
  (arrived = encode_all fs -> pending (un s') = [] -> take_frames fs (rc s, lk s) = Some (rc s', lk s')).
Proof.
  intros Hi Hs Hp Hf Ht Hv Hpre. destruct (serve_inv fs s arrived s' Hi Hs Hp Hf Ht Hv Hpre) as (Hs' & gs & hs & k & cl & E1 & E2 & E3 & E4).
  destruct hs as [|f hs]; cbn [stands] in E3.
  - destruct E3 as (-> & Hi' & ->). rewrite app_nil_r in E1. subst gs.
    assert (Hpe : pending (un s') = []).
    { rewrite E4 in Hpre. rewrite <-(app_nil_r (encode_all fs)) in Hpre at 2. apply prefix_app_inv in Hpre. by apply prefix_nil_inv. }
    destruct (idle_step s' Hs' Hi' Hpe) as (s2 & E & _). split_and!; [|by exists false, s2|done].
    exists fs, [], []. rewrite app_nil_r. done.
  - destruct E3 as (cl' & Ht' & Hat). destruct cl as [c l]. cbn [fst snd] in Hat. pose proof (proj1 Hat) as Hk.
    change (encode_all (f :: hs)) with (encode f ++ encode_all hs) in E4. rewrite take_app_le in E4 by lia.
    assert (Hne : take k (encode f) <> encode f) by (intros E; apply (f_equal length) in E; rewrite length_take in E; lia).
    split_and!.
    + exists gs, (f :: hs), (take k (encode f)). split_and!; try done; [by exists (drop k (encode f)); rewrite take_drop|].
      intros E. apply (f_equal length) in E. rewrite length_take in E. assert (k = 0%nat) as -> by (cbn in E; lia).
      destruct Hat as [_ [[_ Hh]|[[]|[]]]]; [|pose proof (hl_range f); lia..].
      destruct Hh. subst c l. split; [done|]. done.
    + eapply step_spec in Hat as (n & b & s2 & E & _ & _ & Hb & _); [by exists b, s2|done| |done|].
      * rewrite E1 in Hf. apply Forall_app in Hf as [_ Hf]. by apply Forall_cons in Hf as [? _].
      * rewrite E1, encode_all_app, E4 in Hpre. apply prefix_app_inv in Hpre. change (encode_all (f :: hs)) with (encode f ++ encode_all hs) in Hpre.
        rewrite <-(take_drop k (encode f)) in Hpre at 2. rewrite <-app_assoc in Hpre. by apply prefix_app_inv in Hpre.
    + intros Ea Eu. exfalso. rewrite Ea, E1, encode_all_app, Eu, app_nil_r in E4. apply app_inv_head in E4.
      change (encode_all (f :: hs)) with (encode f ++ encode_all hs) in E4. apply (f_equal length) in E4. rewrite length_app, length_take in E4. lia.
Qed.
End frames.

(** ** A run *)

Module ReaderRun.

(** A UART that holds its bytes in a list. *)
Record wire : Type := Wire { w_rx : list Z; w_tx : list Z }.
#[export] Instance wire_uart : Uart wire := {|
  uart_read n w := Some (take (Z.to_nat n) (w_rx w), Wire (drop (Z.to_nat n) (w_rx w)) (w_tx w));
  uart_overflows _ := 0;
  uart_write d w := Some (Wire (w_rx w) (w_tx w ++ d));
  uart_tx_space _ := 4095;
  pending := w_rx;
  uart_ok _ := True;
|}.
#[export] Instance wire_laws : UartLaws wire.
Proof. split. intros n u _ _. by eexists. Qed.

Definition B : Z := 1024.
Definition link0 : link unit := boot.
Definition reader0 : reader := Reader (replicate 6 0) 0 4 false false 0 0 0 0 false 0 0 None.
Definition idle_svc (l : link unit) : svc := Svc reader0 (replicate (Z.to_nat ERPC_RX_SCRATCH) 0) (Wire [] []) core0 l.

Definition made (k : kind) (b : list Z) : rx_frame := Frame k b (erpc_crc16 b).
Definition traffic : list rx_frame := [made K_erpc (ErpcRun.reply 1 2 1 [90]); made K_ctrl [1; 7; 0; 0; 5]; made K_data [0; 0; 7; 8; 9]].

(** The first five bytes of the traffic, and a step. *)
Definition first : list Z := take 5 (encode_all traffic).
Definition fed : svc := set_un (Wire first []) (idle_svc link0).

Lemma traffic_ok : Forall frame_ok traffic.
Proof.
  repeat constructor; try (refine (bool_decide_eq_true_1 (bytes_ok _) _); vm_compute; reflexivity); vm_compute; done.
Qed.

Lemma reader_frames_witness : exists s',
  (idle (idle_svc link0) /\ svc_ok (idle_svc link0) /\ pending (un (idle_svc link0)) = [] /\ Forall frame_ok traffic /\
   is_Some (take_frames B traffic (core0, link0)) /\ serves B (idle_svc link0) first s' /\ first `prefix_of` encode_all traffic) /\
  (exists gs hs part, traffic = gs ++ hs /\ first = encode_all gs ++ part ++ pending (un s') /\
    match hs with [] => part = [] | f :: _ => part `prefix_of` encode f /\ part <> encode f end /\
    (part = [] -> idle s' /\ take_frames B gs (core0, link0) = Some (rc s', lk s'))).
Proof.
  assert (Hs : match erpc_rx_step B fed with Some (b, s') => serves B (idle_svc link0) first s' | None => False end).
  { destruct (erpc_rx_step B fed) as [[b s']|] eqn:E; [|by vm_compute in E]. eapply sv_step; [|exact E].
    exact (sv_arrive B (idle_svc link0) [] (idle_svc link0) first (Wire first []) (sv_start B _) I eq_refl). }
  destruct (erpc_rx_step B fed) as [[b s']|]; [|done]. exists s'.
  assert (Hi : idle (idle_svc link0)) by done. assert (Hk : svc_ok (idle_svc link0)) by (split; [done|done|apply length_replicate]).
  assert (Hp : pending (un (idle_svc link0)) = []) by done.
  assert (Ht : is_Some (take_frames B traffic (core0, link0))).
  { destruct (take_frames B traffic (core0, link0)) eqn:E; [done|by vm_compute in E]. }
  assert (Hpre : first `prefix_of` encode_all traffic) by (exists (drop 5 (encode_all traffic)); unfold first; by rewrite take_drop).
  split; [exact (conj Hi (conj Hk (conj Hp (conj traffic_ok (conj Ht (conj Hs Hpre))))))|].
  exact (proj1 (reader_frames B traffic (idle_svc link0) first s' Hi Hk Hp traffic_ok Ht Hs Hpre)).
Defined.

(** *** A frame being discarded counts as silence *)

(** Eight frames the consumer keeps: the receive pool is empty. *)
Definition keep (l : link unit) : option (link unit) :=
  '(i, l) ← link_data_rx_claim 3 l; i ← i;
  l ← rx_fill i 0 [0; 0; 7] l; l ← link_data_rx_commit B (body_ptr B i) 3 (erpc_crc16 [0; 0; 7]) l;
  '(_, l) ← dispatch_take l; Some l.
Definition all_kept : option (link unit) :=
  '(_, l) ← link_data_attach (Some tt) link0; Nat.iter LINK_DATA_RX_BUFS (fun l => l ≫= keep) (Some l).

(** [erpc_data_quiescent] promises that no DATA frame is half-received; but while a
    frame for which there was no buffer is being discarded it answers yes. *)
Definition two_steps (s : @svc wire unit) : option (bool * @svc wire unit) := '(_, s) ← erpc_rx_step B s; erpc_rx_step B s.
Theorem quiescent_mid_frame : exists l s, all_kept = Some l /\
  two_steps (set_un (Wire (f_hdr (made K_data (replicate 100 1))) []) (idle_svc l)) = Some (true, s) /\
  rx_active (rd s) = true /\ rx_drain_left (rd s) = 100 /\ erpc_data_quiescent s = true.
Proof.
  assert (H : (l ← all_kept; '(b, s) ← two_steps (set_un (Wire (f_hdr (made K_data (replicate 100 1))) []) (idle_svc l));
    Some (b, rx_active (rd s), rx_drain_left (rd s), erpc_data_quiescent s)) = Some (true, true, 100, true)) by (vm_compute; reflexivity).
  destruct all_kept as [l|]; cbn [mbind option_bind] in H; [|discriminate H]. exists l.
  destruct (two_steps _) as [[b s]|]; cbn [mbind option_bind] in H; [|discriminate H]. exists s. injection H as -> H1 H2 H3.
  exact (conj eq_refl (conj eq_refl (conj H1 (conj H2 H3)))).
Qed.
End ReaderRun.
