(* ===== verification/Rtl8720.v ===== *)
(** * The UART driver of the Wi-Fi module ([src/app/rtl8720.c])

    Two rings between the threads and one interrupt handler.  The handler fills the
    receive ring and empties the transmit ring; a thread reads the one and fills
    the other, and waits when there is no room.  [rtl8720_laws] makes the driver
    the [Uart] that [ErpcReader] reads its frames from. *)

From stdpp Require Import relations.
From S2P Require Import Prelude Ring ErpcReader.
Local Open Scope Z_scope.

Definition RTL_UART_PCLK2 : Z := 137500000.
Definition RTL_RING_SIZE : Z := 16384.
Definition RTL_RING_MASK : Z := RTL_RING_SIZE - 1.
Definition RTL_ISR_GRACE : Z := 10.
Definition RTL_TX_RING_SIZE : Z := 4096.
Definition RTL_TX_RING_MASK : Z := RTL_TX_RING_SIZE - 1.
Definition RTL_TX_WAIT_MS : Z := 2000.
Definition RTL8720_UART_LOG : Z := 0.
Definition RTL8720_UART_AT : Z := 1.

(** ** State *)

Record rx_half : Type := Rx { rtl_ring : list Z; rtl_ring_head : Z; rtl_ring_tail : Z; rtl_ring_drops : Z }.
Record tx_half : Type := Tx { rtl_tx_ring : list Z; rtl_tx_head : Z; rtl_tx_tail : Z }.
Record uart_counts : Type := Counts {
  rtl_isr_count : Z; rtl_isr_max_bytes : Z; rtl_isr_max_cycles : Z; rtl_uart_ore : Z; rtl_uart_ferr : Z;
  rtl_tx_isr_count : Z; rtl_tx_max_bytes : Z; rtl_tx_bytes : Z; rtl_tx_waits : Z;
}.

(** [rtl_uart]: the open port; [rtl_rx_notify]: a callback is installed, [notes]
    counts its runs.  Of the peripheral: the transmit interrupt's enable and the
    bytes given to the transmit register since the port was opened, and the
    divider programmed. *)
Record driver : Type := Rtl {
  rx : rx_half; tx : tx_half; counts : uart_counts;
  rtl_uart : option Z; rtl_rx_notify : bool; notes : nat;
  txftie : bool; sent_out : list Z; brr : Z;
}.

Definition set_rx (r : rx_half) (u : driver) : driver := Rtl r (tx u) (counts u) (rtl_uart u) (rtl_rx_notify u) (notes u) (txftie u) (sent_out u) (brr u).
Definition set_tx (t : tx_half) (u : driver) : driver := Rtl (rx u) t (counts u) (rtl_uart u) (rtl_rx_notify u) (notes u) (txftie u) (sent_out u) (brr u).
Definition set_counts (c : uart_counts) (u : driver) : driver := Rtl (rx u) (tx u) c (rtl_uart u) (rtl_rx_notify u) (notes u) (txftie u) (sent_out u) (brr u).
Definition set_port (p : option Z) (n : bool) (u : driver) : driver := Rtl (rx u) (tx u) (counts u) p n (notes u) (txftie u) (sent_out u) (brr u).
Definition notify (u : driver) : driver := if rtl_rx_notify u then Rtl (rx u) (tx u) (counts u) (rtl_uart u) true (S (notes u)) (txftie u) (sent_out u) (brr u) else u.
Definition set_txftie (b : bool) (u : driver) : driver := Rtl (rx u) (tx u) (counts u) (rtl_uart u) (rtl_rx_notify u) (notes u) b (sent_out u) (brr u).
Definition set_regs (p : option Z) (b : Z) (u : driver) : driver := Rtl (rx u) (tx u) (counts u) p false (notes u) false [] b.
Definition set_sent_out (d : list Z) (u : driver) : driver := Rtl (rx u) (tx u) (counts u) (rtl_uart u) (rtl_rx_notify u) (notes u) (txftie u) d (brr u).

Definition rtl_ring_reset (u : driver) : driver :=
  set_rx (Rx (rtl_ring (rx u)) 0 0 0) (set_tx (Tx (rtl_tx_ring (tx u)) 0 0) (set_counts (Counts 0 0 0 0 0 0 0 0 0) u)).

(** ** Reading *)

(** Taking at most [n] bytes from a ring, up to [head]. *)
Fixpoint take_loop (next : Z -> Z) (n : nat) (head tail : Z) (ring : list Z) : option (list Z * Z) :=
  match n with
  | O => Some ([], tail)
  | S n =>
      if tail =? head then Some ([], tail)
      else b ← ring !! Z.to_nat tail; '(d, t) ← take_loop next n head (next tail) ring; Some (b :: d, t)
  end.

(** The accesses of a read: the head is looked at once, each byte is loaded, the
    tail is published at the end. *)
Definition next_rx (i : Z) : Z := Z.land (i +% 1) RTL_RING_MASK.
Definition read_loop : nat -> Z -> Z -> list Z -> option (list Z * Z) := take_loop next_rx.
Definition publish_tail (t : Z) (u : driver) : driver := set_rx (Rx (rtl_ring (rx u)) (rtl_ring_head (rx u)) t (rtl_ring_drops (rx u))) u.

Definition rtl8720_uart_read (n : Z) (u : driver) : option (list Z * driver) :=
  '(d, t) ← read_loop (Z.to_nat n) (rtl_ring_head (rx u)) (rtl_ring_tail (rx u)) (rtl_ring (rx u)); Some (d, publish_tail t u).
Definition rtl8720_uart_overflows (u : driver) : Z := rtl_ring_drops (rx u).

(** ** The interrupt handler *)

(** What the handler finds: the error flags, the bytes in the receive FIFO, the
    room in the transmit FIFO, and how many cycles it takes. *)
Record irq : Type := Irq { q_ore : bool; q_ferr : bool; q_fifo : list Z; q_slots : nat; q_cycles : Z }.

Definition count_errors (q : irq) (c : uart_counts) : uart_counts :=
  Counts (rtl_isr_count c) (rtl_isr_max_bytes c) (rtl_isr_max_cycles c)
    (if q_ore q then rtl_uart_ore c +% 1 else rtl_uart_ore c) (if q_ferr q then rtl_uart_ferr c +% 1 else rtl_uart_ferr c)
    (rtl_tx_isr_count c) (rtl_tx_max_bytes c) (rtl_tx_bytes c) (rtl_tx_waits c).
Definition count_drained (got : Z) (c : uart_counts) : uart_counts :=
  Counts (rtl_isr_count c) (if rtl_isr_max_bytes c <? got then got else rtl_isr_max_bytes c) (rtl_isr_max_cycles c) (rtl_uart_ore c) (rtl_uart_ferr c)
    (rtl_tx_isr_count c) (rtl_tx_max_bytes c) (rtl_tx_bytes c) (rtl_tx_waits c).
Definition count_sent (n : Z) (c : uart_counts) : uart_counts :=
  Counts (rtl_isr_count c) (rtl_isr_max_bytes c) (rtl_isr_max_cycles c) (rtl_uart_ore c) (rtl_uart_ferr c)
    (rtl_tx_isr_count c +% 1) (if rtl_tx_max_bytes c <? n then n else rtl_tx_max_bytes c) (rtl_tx_bytes c +% n) (rtl_tx_waits c).
Definition count_irq (dt : Z) (c : uart_counts) : uart_counts :=
  Counts (rtl_isr_count c +% 1) (rtl_isr_max_bytes c) (if rtl_isr_max_cycles c <? dt then dt else rtl_isr_max_cycles c) (rtl_uart_ore c) (rtl_uart_ferr c)
    (rtl_tx_isr_count c) (rtl_tx_max_bytes c) (rtl_tx_bytes c) (rtl_tx_waits c).
Definition count_wait (c : uart_counts) : uart_counts :=
  Counts (rtl_isr_count c) (rtl_isr_max_bytes c) (rtl_isr_max_cycles c) (rtl_uart_ore c) (rtl_uart_ferr c)
    (rtl_tx_isr_count c) (rtl_tx_max_bytes c) (rtl_tx_bytes c) (rtl_tx_waits c +% 1).

(** Emptying the receive FIFO.  [tail] is the handler's copy; when the ring looks
    full it is read again ([now]).  The result ends with the bytes stored ([n]) and
    the bytes pulled ([got]). *)
Fixpoint isr_rx_loop (fifo : list Z) (head tail now drops n got : Z) (ring : list Z) : option (list Z * Z * Z * Z * Z) :=
  match fifo with
  | [] => Some (ring, head, drops, n, got)
  | b :: fifo =>
      let next := next_rx head in
      let tail := if next =? tail then now else tail in
      if next =? tail then isr_rx_loop fifo head tail now (drops +% 1) n (got +% 1) ring
      else ring ← buf_set ring (Z.to_nat head) b; isr_rx_loop fifo next tail now drops (n +% 1) (got +% 1) ring
  end.

Definition isr_rx (fifo : list Z) (u : driver) : option driver :=
  let r := rx u in
  '(b, h, d, n, got) ← isr_rx_loop fifo (rtl_ring_head r) (rtl_ring_tail r) (rtl_ring_tail r) (rtl_ring_drops r) 0 0 (rtl_ring r);
  let u := if n =? 0 then set_rx (Rx b (rtl_ring_head r) (rtl_ring_tail r) d) u else notify (set_rx (Rx b h (rtl_ring_tail r) d) u) in
  Some (set_counts (count_drained got (counts u)) u).

Definition next_tx (i : Z) : Z := Z.land (i +% 1) RTL_TX_RING_MASK.
(** Filling the transmit FIFO, which has room for [slots] bytes. *)
Definition isr_tx_loop : nat -> Z -> Z -> list Z -> option (list Z * Z) := take_loop next_tx.

Definition isr_tx (slots : nat) (u : driver) : option driver :=
  if negb (txftie u) then Some u
  else
    let x := tx u in
    '(d, t) ← isr_tx_loop slots (rtl_tx_head x) (rtl_tx_tail x) (rtl_tx_ring x);
    let sent := u32 (Z.of_nat (length d)) in
    let u := set_sent_out (sent_out u ++ d) u in
    let u := if sent =? 0 then u else set_counts (count_sent sent (counts u)) (set_tx (Tx (rtl_tx_ring x) (rtl_tx_head x) t) u) in
    Some (if t =? rtl_tx_head x then set_txftie false u else u).

Definition rtl_uart_isr (q : irq) (u : driver) : option driver :=
  match rtl_uart u with
  | None => Some u
  | Some _ =>
      u ← isr_rx (q_fifo q) (set_counts (count_errors q (counts u)) u);
      u ← isr_tx (q_slots q) u;
      Some (set_counts (count_irq (q_cycles q) (counts u)) u)
  end.

(** ** Waiting *)

Definition rtl_tx_space (u : driver) : Z := (RTL_TX_RING_SIZE - 1) -% Z.land (rtl_tx_head (tx u) -% rtl_tx_tail (tx u)) RTL_TX_RING_MASK.
Definition rtl_tx_arm (u : driver) : driver := set_txftie true u.
Definition rtl8720_uart_tx_space (u : driver) : Z := match rtl_uart u with None => 0 | Some _ => rtl_tx_space u end.

Record rtl_tx_wait : Type := Wait { deadline : Z; spins : Z; threaded : bool }.
Definition rtl_wait_init (thread : bool) (now ms : Z) : rtl_tx_wait := Wait (now +% ms) (u32 (ms * 100)) thread.
(** [None]: give up; a thread sleeps a tick, another caller spins. *)
Definition rtl_wait_step (now : Z) (w : rtl_tx_wait) : option rtl_tx_wait :=
  if threaded w then if now -% deadline w <? 2147483648 then None else Some w
  else if spins w =? 0 then None else Some (Wait (deadline w) (spins w -% 1) false).

(** What happened since the waiting thread last looked: the interrupts, another
    thread's close, the time gone by, and whether the transmitter is idle. *)
Inductive event : Type := E_irq (q : irq) | E_close.
Record look : Type := Look { l_events : list event; l_dt : Z; l_tc : bool }.

Definition shut (u : driver) : driver := set_port None false u.
Definition happen (e : event) (u : driver) : option driver := match e with E_irq q => rtl_uart_isr q u | E_close => Some (shut u) end.
Definition run_events (es : list event) (u : driver) : option driver := foldl (fun u e => u ≫= happen e) (Some u) es.

(** The time at the next look. *)
Definition slept (w : rtl_tx_wait) (t : Z) : Z := if threaded w then t + 1 else t.

(** ** Writing *)

(** The copy into the free part of the ring. *)
Fixpoint copy_in (d : list Z) (head : Z) (ring : list Z) : option (list Z * Z) :=
  match d with
  | [] => Some (ring, head)
  | b :: d => ring ← buf_set ring (Z.to_nat head) b; copy_in d (next_tx head) ring
  end.

(** One turn of [rtl8720_uart_write]: [None] as a result, the ring is full. *)
Definition write_turn (d : list Z) (u : driver) : option (option (list Z) * driver) :=
  let space := rtl_tx_space u in
  if space =? 0 then Some (None, rtl_tx_arm u)
  else
    let n := if Z.of_nat (length d) <? space then Z.of_nat (length d) else space in
    '(b, h) ← copy_in (take (Z.to_nat n) d) (rtl_tx_head (tx u)) (rtl_tx_ring (tx u));
    Some (Some (drop (Z.to_nat n) d), rtl_tx_arm (set_tx (Tx b h (rtl_tx_tail (tx u))) u)).

(** The result: the bytes it gave up on, and at which look and what time it returned. *)
Fixpoint tx_write_loop (fuel : nat) (hw : nat -> look) (k : nat) (port : option Z) (t : Z) (w : rtl_tx_wait) (waited woke : bool) (d : list Z) (u : driver) : option (list Z * (nat * Z) * driver) :=
  match fuel with
  | O => None
  | S fuel =>
      u ← run_events (l_events (hw k)) u;
      let t := t + l_dt (hw k) in
      if woke && negb (bool_decide (rtl_uart u = port)) then Some (d, (k, t), u)
      else if decide (d = []) then Some ([], (k, t), u)
      else
        '(rest, u) ← write_turn d u;
        match rest with
        | Some d => tx_write_loop fuel hw (S k) port t w waited false d u
        | None =>
            let u := if waited then u else set_counts (count_wait (counts u)) u in
            match rtl_wait_step (u32 t) w with
            | None => Some (d, (k, t), u)
            | Some w => tx_write_loop fuel hw (S k) port (slept w t) w true true d u
            end
        end
  end.

Definition wait_fuel (ms : Z) : nat := S (Z.to_nat (ms * 100)).

Definition rtl8720_uart_write (hw : nat -> look) (thread : bool) (t : Z) (d : list Z) (u : driver) : option (list Z * (nat * Z) * driver) :=
  match rtl_uart u with
  | None => Some (d, (0%nat, t), u)
  | Some _ => tx_write_loop (wait_fuel RTL_TX_WAIT_MS + length d) hw 0 (rtl_uart u) t (rtl_wait_init thread (u32 t) RTL_TX_WAIT_MS) false false d u
  end.

(** ** Flushing, closing, opening *)

Fixpoint tx_flush_loop (fuel : nat) (hw : nat -> look) (k : nat) (port : option Z) (t : Z) (w : rtl_tx_wait) (woke : bool) (u : driver) : option (Z * driver) :=
  match fuel with
  | O => None
  | S fuel =>
      u ← run_events (l_events (hw k)) u;
      let t := t + l_dt (hw k) in
      if woke && negb (bool_decide (rtl_uart u = port)) then Some (0, u)
      else if (rtl_tx_head (tx u) =? rtl_tx_tail (tx u)) && l_tc (hw k) then Some (0, u)
      else
        match rtl_wait_step (u32 t) w with
        | None => Some (-1, u)
        | Some w => tx_flush_loop fuel hw (S k) port (slept w t) w true u
        end
  end.

Definition rtl8720_uart_flush (hw : nat -> look) (thread : bool) (t timeout_ms : Z) (u : driver) : option (Z * driver) :=
  match rtl_uart u with
  | None => Some (0, u)
  | Some _ => tx_flush_loop (wait_fuel timeout_ms) hw 0 (rtl_uart u) t (rtl_wait_init thread (u32 t) timeout_ms) false u
  end.

Definition rtl8720_uart_close (hw : nat -> look) (thread : bool) (t : Z) (u : driver) : option driver :=
  match rtl_uart u with
  | None => Some u
  | Some _ => '(_, u) ← rtl8720_uart_flush hw thread t 200 u; Some (shut u)
  end.

Definition uart_brr (baud : Z) : Z := (RTL_UART_PCLK2 +% baud / 2) / baud.

(** [ack]: the receiver and the transmitter report ready in time.  The registers
    written: the divider, and CR3, whose transmit interrupt starts disabled. *)
Definition rtl8720_uart_open (hw hw' : nat -> look) (thread : bool) (t t' : Z) (ack : bool) (which baud : Z) (u : driver) : option (Z * driver) :=
  if negb (which =? RTL8720_UART_LOG) && negb (which =? RTL8720_UART_AT) then Some (-1, u)
  else if baud =? 0 then Some (-1, u)
  else
    let brr := uart_brr baud in
    if (brr <? 16) || (65535 <? brr) then Some (-1, u)
    else
      u ← rtl8720_uart_close hw thread t u;
      let u := set_regs (Some which) brr (rtl_ring_reset u) in
      if negb ack then u ← rtl8720_uart_close hw' thread t' u; Some (-1, u) else Some (0, u).

(** ** The rings *)

Lemma next_rx_mod i : 0 <= i < RTL_RING_SIZE -> next_rx i = (i + 1) mod RTL_RING_SIZE.
Proof. intros. unfold next_rx. rewrite u32_small by (unfold is_u32, RTL_RING_SIZE in *; lia). apply (land_mask 14). lia. Qed.
Lemma next_tx_mod i : 0 <= i < RTL_TX_RING_SIZE -> next_tx i = (i + 1) mod RTL_TX_RING_SIZE.
Proof. intros. unfold next_tx. rewrite u32_small by (unfold is_u32, RTL_TX_RING_SIZE in *; lia). apply (land_mask 12). lia. Qed.

(** What the two rings hold.  A byte waiting for the transmitter has the interrupt
    on. *)
Record rep (u : driver) (rq tq : list Z) : Prop := {
  rp_rx : holds_ring (rtl_ring (rx u)) RTL_RING_SIZE (rtl_ring_head (rx u)) (rtl_ring_tail (rx u)) rq;
  rp_tx : holds_ring (rtl_tx_ring (tx u)) RTL_TX_RING_SIZE (rtl_tx_head (tx u)) (rtl_tx_tail (tx u)) tq;
  rp_drops : is_u32 (rtl_ring_drops (rx u));
  rp_on : tq <> [] -> txftie u = true;
}.

Lemma take_loop_spec next N n head tail ring q : (forall i, 0 <= i < N -> next i = (i + 1) mod N) -> holds_ring ring N head tail q ->
  exists t, take_loop next n head tail ring = Some (take n q, t) /\ holds_ring ring N head t (drop n q) /\ (t = head <-> drop n q = []).
Proof.
  intros Hnext. revert tail q. induction n as [|n IH]; intros tail q R; cbn [take_loop].
  { exists tail. rewrite drop_0. split_and!; [done..|]. pose proof (ring_empty _ _ _ _ _ R). naive_solver. }
  pose proof (ring_empty _ _ _ _ _ R) as He. destruct (Z.eqb_spec tail head) as [E|E].
  - assert (q = []) as -> by by apply He. exists tail. rewrite drop_nil. done.
  - destruct q as [|x q]; [by destruct E; symmetry; apply He|]. rewrite (ring_first _ _ _ _ _ _ R). cbn [mbind option_bind].
    pose proof (hr_tail _ _ _ _ _ R). rewrite Hnext by done. apply ring_pop in R. destruct (IH _ _ R) as (t & -> & H1 & H2). cbn [mbind option_bind]. by exists t.
Qed.

Lemma read_spec n u rq tq : rep u rq tq -> 0 <= n -> exists u', rtl8720_uart_read n u = Some (take (Z.to_nat n) rq, u') /\
  rep u' (drop (Z.to_nat n) rq) tq /\ rtl8720_uart_overflows u' = rtl8720_uart_overflows u.
Proof.
  intros [R T Dr On] Hn. unfold rtl8720_uart_read, read_loop.
  destruct (take_loop_spec next_rx _ (Z.to_nat n) _ _ _ _ next_rx_mod R) as (t & -> & R' & _). cbn [mbind option_bind]. eexists. split; [done|]. done.
Qed.

(** The handler keeps what fits and counts the rest. *)
Definition room (q : list Z) : nat := Z.to_nat (RTL_RING_SIZE - 1 - Z.of_nat (length q)).

Lemma isr_rx_loop_spec fifo head tail drops n got ring q : holds_ring ring RTL_RING_SIZE head tail q -> is_u32 drops -> is_u32 n ->
  exists ring' head' got', isr_rx_loop fifo head tail tail drops n got ring =
      Some (ring', head', u32 (drops + Z.of_nat (length fifo - room q)), u32 (n + Z.of_nat (length (take (room q) fifo))), got') /\
    holds_ring ring' RTL_RING_SIZE head' tail (q ++ take (room q) fifo) /\ (take (room q) fifo = [] -> ring' = ring /\ head' = head).
Proof.
  revert head drops n got ring q. induction fifo as [|b fifo IH]; intros head drops n got ring q R Hd Hn; cbn [isr_rx_loop length].
  { exists ring, head, got. rewrite take_nil, app_nil_r, Nat.sub_0_l. cbn [length]. rewrite !Z.add_0_r, !u32_small by done. done. }
  pose proof (holds_ring_head _ _ _ _ _ R) as Hh. pose proof (hr_size _ _ _ _ _ R). pose proof (hr_fits _ _ _ _ _ R).
  rewrite next_rx_mod by done. pose proof (ring_full _ _ _ _ _ R) as Hfull.
  destruct (Z.eqb_spec ((head + 1) mod RTL_RING_SIZE) tail) as [E|E].
  - rewrite (proj2 (Z.eqb_eq _ _) E). apply Hfull in E. assert (Hroom : room q = 0%nat) by (unfold room; lia).
    destruct (IH head (drops +% 1) n (got +% 1) ring q R (u32_range _) Hn) as (r' & h' & g' & -> & R'). exists r', h', g'. rewrite Hroom, !Nat.sub_0_r, take_0 in *. split; [|done].
    do 4 f_equal. rewrite u32_add_l. f_equal. lia.
  - rewrite (proj2 (Z.eqb_neq _ _) E). rewrite buf_set_Some by lia. cbn [mbind option_bind].
    assert (Hne : Z.of_nat (length q) + 1 <> RTL_RING_SIZE) by (intros ?; by apply E, Hfull).
    assert (Hroom : room q = S (room (q ++ [b]))) by (unfold room; rewrite length_app; cbn [length]; lia).
    destruct (IH _ drops (n +% 1) (got +% 1) _ (q ++ [b]) (ring_push _ _ _ _ _ b R ltac:(lia)) Hd (u32_range _)) as (r' & h' & g' & -> & R' & _). exists r', h', g'.
    rewrite Hroom. cbn [take length Nat.sub]. rewrite <-app_assoc in R'. split_and!; try done. do 3 f_equal. rewrite u32_add_l. f_equal. lia.
Qed.

Lemma isr_rx_spec fifo u rq tq : rep u rq tq -> exists u', isr_rx fifo u = Some u' /\ rep u' (rq ++ take (room rq) fifo) tq /\
  tx u' = tx u /\ txftie u' = txftie u /\ sent_out u' = sent_out u /\ rtl_uart u' = rtl_uart u /\ rtl_ring_tail (rx u') = rtl_ring_tail (rx u) /\
  rtl8720_uart_overflows u' = u32 (rtl8720_uart_overflows u + Z.of_nat (length fifo - room rq)) /\
  (rtl_rx_notify u = true -> take (room rq) fifo <> [] -> notes u' = S (notes u)).
Proof.
  intros [R T Dr On]. unfold isr_rx. destruct (isr_rx_loop_spec fifo _ _ _ 0 0 _ _ R Dr ltac:(unfold is_u32; lia)) as (r' & h' & g' & -> & R' & Hsame). cbn [mbind option_bind].
  set (got := take (room rq) fifo) in *. rewrite Z.add_0_l.
  assert (Hn : Z.of_nat (length got) < RTL_RING_SIZE) by (unfold got, room; rewrite length_take; pose proof (hr_fits _ _ _ _ _ R); lia).
  rewrite u32_small by (unfold is_u32, RTL_RING_SIZE in *; lia). eexists. split; [done|]. destruct (Z.eqb_spec (Z.of_nat (length got)) 0) as [E|E].
  - destruct got as [|x got]; [|cbn [length] in E; lia]. destruct (Hsame eq_refl) as [-> ->]. split_and!; try done. split; cbn; try done. apply u32_range.
  - unfold notify. cbn [rtl_rx_notify set_rx]. split_and!; try by destruct (rtl_rx_notify u).
    split; destruct (rtl_rx_notify u); cbn; try done; apply u32_range.
Qed.

Lemma isr_tx_spec slots u rq tq : rep u rq tq -> exists u', isr_tx slots u = Some u' /\ rep u' rq (drop slots tq) /\
  sent_out u' = sent_out u ++ take slots tq /\ rx u' = rx u /\ rtl_uart u' = rtl_uart u /\ notes u' = notes u.
Proof.
  intros [R T Dr On]. unfold isr_tx. destruct (txftie u) eqn:Eon; cbn [negb].
  2:{ assert (tq = []) as -> by (destruct tq; [done|]; discriminate (On ltac:(done))). exists u. rewrite drop_nil, take_nil, app_nil_r. by split_and!. }
  unfold isr_tx_loop. destruct (take_loop_spec next_tx _ slots _ _ _ _ next_tx_mod T) as (t & -> & T' & He). cbn [mbind option_bind].
  assert (Hl : Z.of_nat (length (take slots tq)) < RTL_TX_RING_SIZE) by (rewrite length_take; pose proof (hr_fits _ _ _ _ _ T); lia).
  rewrite u32_small by (unfold is_u32, RTL_TX_RING_SIZE in *; lia). eexists. split; [done|].
  assert (Hsame : Z.of_nat (length (take slots tq)) = 0 -> t = rtl_tx_tail (tx u)).
  { intros E0. pose proof (ring_empty _ _ _ _ _ T). pose proof (ring_length _ _ _ _ _ T) as H1. pose proof (ring_length _ _ _ _ _ T') as H2.
    rewrite length_take in E0. rewrite length_drop in H2. pose proof (hr_tail _ _ _ _ _ T). pose proof (hr_tail _ _ _ _ _ T'). pose proof (holds_ring_head _ _ _ _ _ T).
    destruct (Z.leb_spec t (rtl_tx_head (tx u))), (Z.leb_spec (rtl_tx_tail (tx u)) (rtl_tx_head (tx u))); lia. }
  set (sent := take slots tq) in *. destruct (Z.eqb_spec (Z.of_nat (length sent)) 0) as [E0|E0].
  - specialize (Hsame E0). subst t. split_and!; try by destruct (rtl_tx_tail (tx u) =? _).
    split; destruct (Z.eqb_spec (rtl_tx_tail (tx u)) (rtl_tx_head (tx u))) as [E|E]; cbn; try done.
    intros Hne. by apply He in E.
  - split_and!; try by destruct (t =? _). split; destruct (Z.eqb_spec t (rtl_tx_head (tx u))) as [E|E]; cbn; try done. intros Hne. by apply He in E.
Qed.

Lemma isr_spec q u rq tq : rep u rq tq -> rtl_uart u <> None -> exists u', rtl_uart_isr q u = Some u' /\
  rep u' (rq ++ take (room rq) (q_fifo q)) (drop (q_slots q) tq) /\ sent_out u' = sent_out u ++ take (q_slots q) tq /\
  rtl_uart u' = rtl_uart u /\ rtl_ring_tail (rx u') = rtl_ring_tail (rx u) /\
  rtl8720_uart_overflows u' = u32 (rtl8720_uart_overflows u + Z.of_nat (length (q_fifo q) - room rq)).
Proof.
  intros Hr Ho. unfold rtl_uart_isr. destruct (rtl_uart u) as [p|] eqn:Eu; [|done].
  set (u0 := set_counts _ u). assert (Hr0 : rep u0 rq tq) by (destruct Hr; by split).
  destruct (isr_rx_spec (q_fifo q) u0 rq tq Hr0) as (u1 & -> & Hr1 & _ & _ & Hs & Hp & Ht & Ho1 & _). cbn [mbind option_bind].
  destruct (isr_tx_spec (q_slots q) u1 _ tq Hr1) as (u2 & -> & Hr2 & Hs2 & Hx & Hp2 & _). cbn [mbind option_bind].
  eexists. split; [done|]. split_and!; cbn; try congruence; try (destruct Hr2; by split).
  - by rewrite Hs2, Hs.
  - by rewrite Hp2, Hp.
  - by rewrite Hx, Ht.
  - unfold rtl8720_uart_overflows in *. cbn. by rewrite Hx, Ho1.
Qed.

Lemma space_spec u rq tq : rep u rq tq -> rtl_tx_space u = RTL_TX_RING_SIZE - 1 - Z.of_nat (length tq).
Proof.
  intros [R T Dr On]. pose proof (ring_length _ _ _ _ _ T) as El. pose proof (hr_fits _ _ _ _ _ T). pose proof (hr_tail _ _ _ _ _ T).
  pose proof (holds_ring_head _ _ _ _ _ T). unfold rtl_tx_space.
  assert (Hu : Z.land (rtl_tx_head (tx u) -% rtl_tx_tail (tx u)) RTL_TX_RING_MASK = Z.of_nat (length tq)).
  { change RTL_TX_RING_MASK with (2 ^ 12 - 1). rewrite land_mask by lia. unfold RTL_TX_RING_SIZE in *. change (2 ^ 12) with 4096.
    rewrite El. destruct (Z.leb_spec (rtl_tx_tail (tx u)) (rtl_tx_head (tx u))).
    - rewrite u32_small by (unfold is_u32; lia). apply Z.mod_small. lia.
    - unfold u32. replace ((rtl_tx_head (tx u) - rtl_tx_tail (tx u)) mod 4294967296) with (rtl_tx_head (tx u) - rtl_tx_tail (tx u) + 4294967296) by (apply Z.mod_unique with (-1); lia).
      symmetry. apply Z.mod_unique with 1048575; lia. }
  rewrite Hu. apply u32_small. unfold is_u32, RTL_TX_RING_SIZE in *. lia.
Qed.

Lemma copy_in_spec d head tail ring q : holds_ring ring RTL_TX_RING_SIZE head tail q -> Z.of_nat (length q + length d) < RTL_TX_RING_SIZE ->
  exists ring' head', copy_in d head ring = Some (ring', head') /\ holds_ring ring' RTL_TX_RING_SIZE head' tail (q ++ d).
Proof.
  revert head ring q. induction d as [|b d IH]; intros head ring q R Hf; cbn [copy_in length] in *; [exists ring, head; by rewrite app_nil_r|].
  pose proof (holds_ring_head _ _ _ _ _ R). pose proof (hr_size _ _ _ _ _ R). rewrite buf_set_Some by lia. cbn [mbind option_bind].
  rewrite next_tx_mod by done. destruct (IH _ _ _ (ring_push _ _ _ _ _ b R ltac:(lia))) as (r' & h' & -> & R').
  - rewrite length_app. cbn [length]. lia.
  - exists r', h'. by rewrite <-app_assoc in R'.
Qed.

Lemma write_turn_spec d u rq tq : rep u rq tq -> exists rest u', write_turn d u = Some (rest, u') /\ sent_out u' = sent_out u /\ rtl_uart u' = rtl_uart u /\
  match rest with
  | None => rep u' rq tq /\ Z.of_nat (length tq) = RTL_TX_RING_SIZE - 1
  | Some r => exists n, rep u' rq (tq ++ take n d) /\ r = drop n d /\ (d <> [] -> (0 < n)%nat)
  end.
Proof.
  intros Hr. pose proof (space_spec u rq tq Hr) as Es. destruct Hr as [R T Dr On]. pose proof (hr_fits _ _ _ _ _ T). unfold write_turn. rewrite Es.
  destruct (Z.eqb_spec (RTL_TX_RING_SIZE - 1 - Z.of_nat (length tq)) 0) as [E0|E0].
  - eexists None, _. split; [done|]. split_and!; try done; lia.
  - set (n := if Z.of_nat (length d) <? _ then _ else _).
    assert (Hn : 0 <= n <= RTL_TX_RING_SIZE - 1 - Z.of_nat (length tq) /\ n <= Z.of_nat (length d) /\ (d <> [] -> 0 < n)).
    { unfold n. destruct (Z.ltb_spec (Z.of_nat (length d)) (RTL_TX_RING_SIZE - 1 - Z.of_nat (length tq))); split_and!; try lia;
        intros Hd; destruct d; try done; cbn [length] in *; lia. }
    destruct (copy_in_spec (take (Z.to_nat n) d) _ _ _ _ T) as (r' & h' & -> & T'); [rewrite length_take; lia|]. cbn [mbind option_bind].
    eexists (Some _), _. split; [done|]. split_and!; [done..|]. exists (Z.to_nat n). split_and!; [|done|intros Hd; destruct Hn as (_ & _ & Hn); specialize (Hn Hd); lia].
    by split.
Qed.

(** *** Between two looks *)

Definition opens (e : event) : nat := match e with E_irq q => q_slots q | E_close => 0 end.
Definition stays (e : event) : Prop := e <> E_close.
(** The port stays open, and the transmitter takes a byte at least. *)
Definition drains (l : look) : Prop := Forall stays (l_events l) /\ Exists (fun e => 0 < opens e)%nat (l_events l).

Lemma happen_spec e u rq tq : rep u rq tq -> exists u' rq', happen e u = Some u' /\ rep u' rq' (if decide (rtl_uart u = None) then tq else drop (opens e) tq) /\
  sent_out u' = sent_out u ++ (if decide (rtl_uart u = None) then [] else take (opens e) tq) /\ (stays e -> rtl_uart u' = rtl_uart u).
Proof.
  intros Hr. destruct e as [q|]; cbn [happen opens].
  - destruct (decide (rtl_uart u = None)) as [E|E].
    + exists u, rq. unfold rtl_uart_isr. rewrite E, app_nil_r. done.
    + destruct (isr_spec q u rq tq Hr E) as (u' & E' & Hr' & Hs & Hp & _). eexists u', _. done.
  - exists (shut u), rq. rewrite drop_0, take_0. split; [done|]. destruct Hr. destruct (decide _); rewrite app_nil_r; done.
Qed.

Lemma run_events_spec es u rq tq : rep u rq tq -> exists u' rq' n, run_events es u = Some u' /\ rep u' rq' (drop n tq) /\
  sent_out u' = sent_out u ++ take n tq /\ (Forall stays es -> rtl_uart u' = rtl_uart u) /\
  (rtl_uart u <> None -> Forall stays es -> Exists (fun e => 0 < opens e)%nat es -> 0 < n)%nat.
Proof.
  revert u rq tq. induction es as [|e es IH]; intros u rq tq Hr.
  - exists u, rq, 0%nat. rewrite drop_0, take_0, app_nil_r. split_and!; try done. by intros _ _ ?%Exists_nil.
  - destruct (happen_spec e u rq tq Hr) as (u1 & rq1 & E & Hr1 & Hw1 & Hp1). destruct (IH u1 _ _ Hr1) as (u2 & rq2 & n & E2 & Hr2 & Hw2 & Hp2 & Hn2).
    unfold run_events in *. cbn [foldl mbind option_bind]. rewrite E, E2. destruct (decide (rtl_uart u = None)) as [Eo|Eo].
    + exists u2, rq2, n. rewrite Hw2, Hw1, app_nil_r. split_and!; try done. intros [? ?]%Forall_cons. by rewrite Hp2, Hp1.
    + exists u2, rq2, (opens e + n)%nat. rewrite drop_drop in Hr2. split_and!; try done.
      * by rewrite Hw2, Hw1, <-app_assoc, take_take_drop.
      * intros [? ?]%Forall_cons. by rewrite Hp2, Hp1.
      * intros _ [He Hes]%Forall_cons [H|H]%Exists_cons; [lia|]. rewrite Hp1 in Hn2 by done. specialize (Hn2 Eo Hes H). lia.
Qed.

(** *** The clock *)

(** The ticks of the [n] looks from the [k]-th on. *)
Fixpoint elapsed (hw : nat -> look) (k n : nat) : Z := match n with O => 0 | S n => l_dt (hw k) + elapsed hw (S k) n end.
(** The clock goes forward, and stays within half its range (24 days) while we wait. *)
Definition clock_ok (hw : nat -> look) (k : nat) (m : Z) : Prop := (forall j, 0 <= l_dt (hw j)) /\ forall n, m + elapsed hw k n < 2147483648.

(** [dl]: the deadline in unbounded time. *)
Record waits (hw : nat -> look) (dl : Z) (w : rtl_tx_wait) (k : nat) (t : Z) : Prop := {
  wt_deadline : deadline w = u32 dl;
  wt_spins : is_u32 (spins w);
  wt_clock : threaded w = true -> dl - 2147483648 <= t /\ clock_ok hw k (Z.max t dl - dl);
}.

(** The sleeps, or spins, that are left. *)
Definition wait_cost (dl : Z) (w : rtl_tx_wait) (t : Z) : nat := if threaded w then Z.to_nat (dl - t) else Z.to_nat (spins w).

Lemma clock_next hw k m n : clock_ok hw k m -> n <= m + l_dt (hw k) -> clock_ok hw (S k) n.
Proof. intros [H0 H] Hn. split; [done|]. intros j. specialize (H (S j)). cbn [elapsed] in H. lia. Qed.

Lemma waits_look hw dl w k t : waits hw dl w k t -> waits hw dl w (S k) (t + l_dt (hw k)) /\ (wait_cost dl w (t + l_dt (hw k)) <= wait_cost dl w t)%nat.
Proof.
  intros [Hd Hs Hc]. unfold wait_cost. split.
  - split; [done..|]. intros Ht. destruct (Hc Ht) as [Hl Hk]. pose proof (proj1 Hk k). split; [lia|]. apply (clock_next _ _ _ _ Hk). lia.
  - destruct (threaded w); [|done]. destruct (Hc eq_refl) as [_ Hk]. pose proof (proj1 Hk k). lia.
Qed.

Lemma wait_step_spec hw dl w k t : waits hw dl w k t -> match rtl_wait_step (u32 t) w with
  | None => if threaded w then dl <= t else spins w = 0
  | Some w' => threaded w' = threaded w /\ (threaded w = false -> spins w = spins w' + 1) /\ waits hw dl w' k (slept w' t) /\ (wait_cost dl w' (slept w' t) < wait_cost dl w t)%nat
  end.
Proof.
  intros [Hd Hs Hc]. unfold rtl_wait_step, slept, wait_cost. destruct (threaded w) eqn:Et.
  - destruct (Hc eq_refl) as [Hl [H0 Hk]]. pose proof (Hk 0%nat) as Hk0. cbn [elapsed] in Hk0. rewrite Hd, u32_sub_l, u32_sub_r.
    assert (Hu : u32 (t - dl) = if decide (t < dl) then t - dl + 4294967296 else t - dl).
    { unfold u32. destruct (decide (t < dl)); [symmetry; apply Z.mod_unique with (-1)|apply Z.mod_small]; lia. }
    rewrite Hu. destruct (decide (t < dl)).
    2:{ rewrite (proj2 (Z.ltb_lt _ _)) by lia. lia. }
    rewrite (proj2 (Z.ltb_ge _ _)) by lia.
    rewrite Et. split; [done|]. split; [done|]. split; [|lia]. split; try done. intros _. split; [lia|]. split; [done|]. intros j. specialize (Hk j). lia.
  - destruct (Z.eqb_spec (spins w) 0); [done|]. cbn. unfold is_u32 in *. rewrite u32_small by (unfold is_u32; lia). split; [done|]. split; [lia|]. split; [|lia].
    split; cbn; try done; unfold is_u32; lia.
Qed.

Lemma wait_init_spec hw thread t ms : 0 <= ms < 2147483648 -> (thread = true -> clock_ok hw 0 0) ->
  waits hw (t + ms) (rtl_wait_init thread (u32 t) ms) 0 t /\ (wait_cost (t + ms) (rtl_wait_init thread (u32 t) ms) t < wait_fuel ms)%nat.
Proof.
  intros Hms Hc. split.
  - split; cbn; [apply u32_add_l|apply u32_range|]. intros Ht. split; [lia|]. replace (Z.max t (t + ms) - (t + ms)) with 0 by lia. by apply Hc.
  - unfold wait_cost, wait_fuel. cbn [threaded spins rtl_wait_init]. pose proof (u32_range (ms * 100)) as [].
    assert (u32 (ms * 100) <= ms * 100) by (apply Z.mod_le; lia). destruct thread; lia.
Qed.

(** *** Writing *)

Lemma tx_write_loop_spec fuel hw dl k port t w waited woke d u rq tq : rep u rq tq -> waits hw dl w k t -> (wait_cost dl w t + length d < fuel)%nat ->
  exists lost sent u' rq' tq' k' t', tx_write_loop fuel hw k port t w waited woke d u = Some (lost, (k', t'), u') /\ rep u' rq' tq' /\ d = sent ++ lost /\
    sent_out u' ++ tq' = sent_out u ++ tq ++ sent /\
    (lost <> [] -> rtl_uart u' = port -> Z.of_nat (length tq') = RTL_TX_RING_SIZE - 1 /\ if threaded w then dl <= t' else Z.of_nat k + spins w <= Z.of_nat k') /\
    (rtl_uart u = port -> port <> None -> (forall j, drains (hw j)) -> lost = []).
Proof.
  revert k t w waited woke d u rq tq. induction fuel as [|fuel IH]; intros k t w waited woke d u rq tq Hr Hw Hf; [lia|]. cbn [tx_write_loop].
  destruct (run_events_spec (l_events (hw k)) u rq tq Hr) as (u1 & rq1 & n1 & -> & Hr1 & Hw1 & Hp1 & Hn1). cbn [mbind option_bind].
  destruct (waits_look _ _ _ _ _ Hw) as [Hw' Hcost]. set (t1 := t + l_dt (hw k)) in *.
  assert (Hwire : sent_out u1 ++ drop n1 tq = sent_out u ++ tq) by (by rewrite Hw1, <-app_assoc, take_drop).
  destruct (woke && negb (bool_decide (rtl_uart u1 = port))) eqn:Ewoke.
  { apply andb_prop in Ewoke as [_ Ep]. apply negb_true_iff, bool_decide_eq_false in Ep. exists d, [], u1, rq1, (drop n1 tq), k, t1. rewrite app_nil_r.
    split_and!; try done. intros Hu Hport Hd. destruct Ep. by rewrite Hp1 by apply (Hd k). }
  destruct (decide (d = [])) as [->|Hd].
  { exists [], [], u1, rq1, (drop n1 tq), k, t1. rewrite !app_nil_r. split_and!; done. }
  destruct (write_turn_spec d u1 rq1 _ Hr1) as (rest & u2 & E2 & Hw2 & Hp2 & Hrest). rewrite E2. cbn [mbind option_bind]. destruct rest as [r|].
  - destruct Hrest as (n & Hr2 & -> & Hn). specialize (Hn Hd).
    destruct (IH (S k) t1 w waited false (drop n d) u2 _ _ Hr2 Hw') as (lf & sent & u3 & rq3 & tq3 & k3 & t3 & -> & Hr3 & Ed & Ew & Hl & Hp).
    { rewrite length_drop. destruct d; [done|]. cbn [length] in *. lia. }
    exists lf, (take n d ++ sent), u3, rq3, tq3, k3, t3. split_and!; try done.
    + by rewrite <-app_assoc, <-Ed, take_drop.
    + rewrite Ew, Hw2. by rewrite <-app_assoc, app_assoc, Hwire, <-app_assoc.
    + intros Hlost Hport. destruct (Hl Hlost Hport) as [Hful Htime]. split; [done|]. destruct (threaded w); lia.
    + intros Hu Hport Hdr. apply Hp; try done. by rewrite Hp2, Hp1 by apply (Hdr k).
  - destruct Hrest as [Hr2 Hfull]. set (u2' := if waited then u2 else _).
    assert (Hsame : rep u2' rq1 (drop n1 tq) /\ sent_out u2' = sent_out u2 /\ rtl_uart u2' = rtl_uart u2) by (unfold u2'; destruct waited; [done|]; destruct Hr2; done).
    clearbody u2'. destruct Hsame as (Hr2' & Es2 & Ep2).
    assert (Hno : rtl_uart u = port -> port <> None -> (forall j, drains (hw j)) -> False).
    { intros <- Hport Hdr. specialize (Hn1 Hport (proj1 (Hdr k)) (proj2 (Hdr k))). rewrite length_drop in Hfull. pose proof (hr_fits _ _ _ _ _ (rp_tx _ _ _ Hr)). unfold RTL_TX_RING_SIZE in *. lia. }
    pose proof (wait_step_spec _ _ _ _ _ Hw') as Hstep. destruct (rtl_wait_step (u32 t1) w) as [w'|].
    + destruct Hstep as (Hth & Hsp & Hws & Hc). destruct (IH (S k) (slept w' t1) w' true true d u2' _ _ Hr2' Hws) as (lf & sent & u3 & rq3 & tq3 & k3 & t3 & -> & Hr3 & Ed & Ew & Hl & Hp); [lia|].
      exists lf, sent, u3, rq3, tq3, k3, t3. split_and!; try done.
      * rewrite Ew, Es2, Hw2, app_assoc, Hwire, <-app_assoc. done.
      * intros Hlost Hport. destruct (Hl Hlost Hport) as [Hful Htime]. split; [done|]. rewrite Hth in Htime. destruct (threaded w); [done|]. specialize (Hsp eq_refl). lia.
      * intros Hu Hport Hdr. by destruct (Hno Hu Hport Hdr).
    + exists d, [], u2', rq1, (drop n1 tq), k, t1. rewrite Es2, Hw2, Hwire, app_nil_r. split_and!; try done; [|intros Hu Hport Hdr; by destruct (Hno Hu Hport Hdr)].
      intros _ _. split; [done|]. destruct (threaded w); [done|lia].
Qed.

(** C10: [rtl8720_uart_write] always returns, and leaves no hole in the stream: what
    has gone out and what waits in the ring is what it was before, followed by
    an initial part of the data.  The rest is given up only when the port was closed,
    or when the ring is full after the two seconds: a thread returns no earlier than
    2000 ticks after it came, any other caller after 200000 waits of 10 us.  If the
    interrupt takes a byte between any two looks, all of it is written. *)
Theorem rtl8720_uart_write_correct hw thread t d u rq tq : rep u rq tq -> (thread = true -> clock_ok hw 0 0) ->
  exists lost sent u' rq' tq' k' t', rtl8720_uart_write hw thread t d u = Some (lost, (k', t'), u') /\ rep u' rq' tq' /\ d = sent ++ lost /\
    sent_out u' ++ tq' = sent_out u ++ tq ++ sent /\
    (lost <> [] -> rtl_uart u <> None -> rtl_uart u' = rtl_uart u ->
      Z.of_nat (length tq') = RTL_TX_RING_SIZE - 1 /\ if thread then t + 2000 <= t' else 200000 <= Z.of_nat k') /\
    (rtl_uart u <> None -> (forall j, drains (hw j)) -> lost = []).
Proof.
  intros Hr Hc. unfold rtl8720_uart_write. destruct (rtl_uart u) as [p|] eqn:Ep.
  2:{ exists d, [], u, rq, tq, 0%nat, t. by rewrite app_nil_r. }
  destruct (wait_init_spec hw thread t RTL_TX_WAIT_MS ltac:(done) Hc) as [Hw Hf].
  destruct (tx_write_loop_spec (wait_fuel RTL_TX_WAIT_MS + length d) hw _ _ (Some p) _ _ false false d u rq tq Hr Hw ltac:(lia)) as (lf & sent & u' & rq' & tq' & k' & t' & -> & Hr' & Ed & Ew & Hl & Hp).
  exists lf, sent, u', rq', tq', k', t'. split_and!; [done..| |intros ?; by apply Hp]. intros Hlost _ Hport. destruct (Hl Hlost Hport) as [Hfull Htime]. split; [done|]. by destruct thread.
Qed.

(** *** Flushing and closing *)

Lemma tx_flush_loop_spec fuel hw dl k port t w woke u rq tq : rep u rq tq -> waits hw dl w k t -> (wait_cost dl w t < fuel)%nat ->
  exists rc u' rq' tq', tx_flush_loop fuel hw k port t w woke u = Some (rc, u') /\ rep u' rq' tq' /\ sent_out u' ++ tq' = sent_out u ++ tq /\
    (rc = 0 /\ (tq' = [] \/ rtl_uart u' <> port) \/ rc = -1).
Proof.
  revert k t w woke u rq tq. induction fuel as [|fuel IH]; intros k t w woke u rq tq Hr Hw Hf; [lia|]. cbn [tx_flush_loop].
  destruct (run_events_spec (l_events (hw k)) u rq tq Hr) as (u1 & rq1 & n1 & -> & Hr1 & Hw1 & _). cbn [mbind option_bind].
  destruct (waits_look _ _ _ _ _ Hw) as [Hw' Hcost]. set (t1 := t + l_dt (hw k)) in *.
  assert (Hwire : sent_out u1 ++ drop n1 tq = sent_out u ++ tq) by (by rewrite Hw1, <-app_assoc, take_drop).
  destruct (woke && negb (bool_decide (rtl_uart u1 = port))) eqn:Ewoke.
  { apply andb_prop in Ewoke as [_ Ep]. apply negb_true_iff, bool_decide_eq_false in Ep. eexists _, u1, rq1, (drop n1 tq). split_and!; eauto. }
  destruct ((rtl_tx_head (tx u1) =? rtl_tx_tail (tx u1)) && l_tc (hw k)) eqn:Edone.
  { apply andb_prop in Edone as [Ee%Z.eqb_eq _]. apply (ring_empty _ _ _ _ _ (rp_tx _ _ _ Hr1)) in Ee. eexists _, u1, rq1, (drop n1 tq). split_and!; eauto. }
  pose proof (wait_step_spec _ _ _ _ _ Hw') as Hstep. destruct (rtl_wait_step (u32 t1) w) as [w'|].
  - destruct Hstep as (_ & _ & Hws & Hc). destruct (IH (S k) (slept w' t1) w' true u1 _ _ Hr1 Hws) as (rc & u3 & rq3 & tq3 & -> & Hr3 & Ew & Hrc); [lia|].
    exists rc, u3, rq3, tq3. by rewrite Ew, Hwire.
  - eexists _, u1, rq1, (drop n1 tq). split_and!; eauto.
Qed.

(** [rtl8720_uart_flush] returns; 0 says that every byte written has gone out,
    or that the port was closed meanwhile. *)
Lemma uart_flush_spec hw thread t ms u rq tq : rep u rq tq -> 0 <= ms < 2147483648 -> (thread = true -> clock_ok hw 0 0) ->
  exists rc u' rq' tq', rtl8720_uart_flush hw thread t ms u = Some (rc, u') /\ rep u' rq' tq' /\ sent_out u' ++ tq' = sent_out u ++ tq /\
    (rc = 0 /\ (rtl_uart u <> None -> tq' = [] \/ rtl_uart u' <> rtl_uart u) \/ rc = -1).
Proof.
  intros Hr Hms Hc. unfold rtl8720_uart_flush. destruct (rtl_uart u) as [p|] eqn:Ep; [|eexists 0, u, rq, tq; split_and!; eauto; by left].
  destruct (wait_init_spec hw thread t ms Hms Hc) as [Hw Hf].
  destruct (tx_flush_loop_spec (wait_fuel ms) hw _ 0 (Some p) t _ false u rq tq Hr Hw Hf) as (rc & u' & rq' & tq' & -> & Hr' & Ew & Hrc).
  exists rc, u', rq', tq'. split_and!; [done..|]. destruct Hrc as [[-> Hrc]|]; [left|by right]. done.
Qed.

Lemma uart_close_spec hw thread t u rq tq : rep u rq tq -> (thread = true -> clock_ok hw 0 0) ->
  exists u' rq' tq', rtl8720_uart_close hw thread t u = Some u' /\ rep u' rq' tq' /\ rtl_uart u' = None /\ sent_out u' ++ tq' = sent_out u ++ tq.
Proof.
  intros Hr Hc. unfold rtl8720_uart_close. destruct (rtl_uart u) as [p|] eqn:Ep; [|by exists u, rq, tq].
  destruct (uart_flush_spec hw thread t 200 u rq tq Hr ltac:(done) Hc) as (rc & u' & rq' & tq' & -> & Hr' & Ew & _). exists (shut u'), rq', tq'.
  cbn [mbind option_bind]. split_and!; try done. by destruct Hr'.
Qed.

(** *** Opening *)

(** The divider is the nearest to the exact one, so the real rate is off by at most half
    a step, and it fits its sixteen bits. *)
Lemma uart_brr_spec baud : 0 < baud -> is_u32 baud ->
  (16 <= uart_brr baud <= 65535 <-> 2099 <= baud <= 8870967) /\ 2 * Z.abs (uart_brr baud * baud - RTL_UART_PCLK2) <= baud.
Proof.
  intros Hb Hu. unfold uart_brr, is_u32, RTL_UART_PCLK2 in *. pose proof (Z.div_mod baud 2 ltac:(lia)). pose proof (Z.mod_pos_bound baud 2 ltac:(lia)).
  rewrite u32_small by (unfold is_u32; lia). set (h := baud / 2) in *. set (q := (137500000 + h) / baud).
  pose proof (Z.div_mod (137500000 + h) baud ltac:(lia)) as Ed. pose proof (Z.mod_pos_bound (137500000 + h) baud Hb). fold q in Ed. split; [|nia]. split; nia.
Qed.

Lemma uart_open_spec hw hw' thread t t' ack which baud u rq tq : rep u rq tq -> 0 <= which -> is_u32 baud -> (thread = true -> clock_ok hw 0 0 /\ clock_ok hw' 0 0) ->
  exists rc u', rtl8720_uart_open hw hw' thread t t' ack which baud u = Some (rc, u') /\
    (which <= 1 -> 2099 <= baud <= 8870967 -> exists rq' tq', rep u' rq' tq' /\ (ack = true -> rc = 0 /\ rq' = [] /\ tq' = [] /\ rtl_uart u' = Some which /\
       rtl_rx_notify u' = false /\ 2 * Z.abs (brr u' * baud - RTL_UART_PCLK2) <= baud) /\ (ack = false -> rc = -1 /\ rtl_uart u' = None)) /\
    (~ (which <= 1 /\ 2099 <= baud <= 8870967) -> rc = -1 /\ u' = u).
Proof.
  intros Hr Hwh Hb Hc. unfold rtl8720_uart_open. unfold RTL8720_UART_LOG, RTL8720_UART_AT.
  destruct (negb (which =? 0) && negb (which =? 1)) eqn:Ewh.
  { eexists _, u. split; [done|]. apply andb_prop in Ewh as [?%negb_true_iff%Z.eqb_neq ?%negb_true_iff%Z.eqb_neq]. split; [lia|done]. }
  assert (which <= 1) by (apply andb_false_iff in Ewh as [H%negb_false_iff%Z.eqb_eq|H%negb_false_iff%Z.eqb_eq]; lia).
  destruct (Z.eqb_spec baud 0) as [->|Hb0]; [eexists _, u; split; [done|]; split; [lia|done]|].
  destruct (uart_brr_spec baud ltac:(unfold is_u32 in Hb; lia) Hb) as [Hrange Herr].
  destruct ((uart_brr baud <? 16) || (65535 <? uart_brr baud)) eqn:Er.
  { assert (~ 16 <= uart_brr baud <= 65535) by (apply orb_prop in Er as [E%Z.ltb_lt|E%Z.ltb_lt]; lia). eexists _, u. split; [done|]. split; [|done]. intros _ ?. tauto. }
  assert (Hin : 2099 <= baud <= 8870967) by (apply Hrange; apply orb_false_iff in Er as [?%Z.ltb_ge ?%Z.ltb_ge]; lia).
  destruct (uart_close_spec hw thread t u rq tq Hr ltac:(by intros ?; apply Hc)) as (u1 & rq1 & tq1 & -> & Hr1 & _ & _). cbn [mbind option_bind].
  set (u2 := set_regs _ _ _). assert (Hr2 : rep u2 [] []).
  { destruct Hr1 as [R T Dr On]. split; cbn; [|..|done|done]; (apply ring_nil; [done|]); [apply (hr_size _ _ _ _ _ R)|apply (hr_size _ _ _ _ _ T)]. }
  destruct ack; cbn [negb].
  - eexists _, u2. split; [done|]. split; [|tauto]. intros _ _. exists [], []. split; [done|]. split; [|done]. intros _. split_and!; done.
  - destruct (uart_close_spec hw' thread t' u2 [] [] Hr2 ltac:(by intros ?; apply Hc)) as (u3 & rq3 & tq3 & -> & Hr3 & Hn & _). cbn [mbind option_bind].
    eexists _, u3. split; [done|]. split; [|tauto]. intros _ _. by exists rq3, tq3.
Qed.

(** [rtl8720_uart_open] returns, and accepts exactly the two ports at the rates the
    sixteen-bit divider can make, 2099 to 8870967 baud; the rate it programs is off by
    at most half a divider step.  A port it opens starts with both rings empty and no
    callback, whatever was open before; a refusal changes nothing, and a peripheral that
    does not come up is left closed. *)
Theorem rtl8720_uart_open_correct hw hw' thread t t' ack which baud u rq tq : rep u rq tq -> 0 <= which -> is_u32 baud ->
  (thread = true -> clock_ok hw 0 0 /\ clock_ok hw' 0 0) ->
  exists rc u', rtl8720_uart_open hw hw' thread t t' ack which baud u = Some (rc, u') /\
    (which <= 1 -> 2099 <= baud <= 8870967 -> exists rq' tq', rep u' rq' tq' /\ (ack = true -> rc = 0 /\ rq' = [] /\ tq' = [] /\ rtl_uart u' = Some which /\
       rtl_rx_notify u' = false /\ 2 * Z.abs (brr u' * baud - RTL_UART_PCLK2) <= baud) /\ (ack = false -> rc = -1 /\ rtl_uart u' = None)) /\
    (~ (which <= 1 /\ 2099 <= baud <= 8870967) -> rc = -1 /\ u' = u).
Proof. apply uart_open_spec. Qed.

(** ** The reading thread and the handler, interleaved *)

(** The bytes between the tail and the head. *)
Definition stored (ring : list Z) (N tail head : Z) : list Z :=
  (fun i => default 0 (ring !! Z.to_nat ((tail + Z.of_nat i) mod N))) <$> seq 0 (Z.to_nat ((head - tail) mod N)).
Definition unread (u : driver) : list Z := stored (rtl_ring (rx u)) RTL_RING_SIZE (rtl_ring_tail (rx u)) (rtl_ring_head (rx u)).

Lemma stored_spec ring N tail head q : holds_ring ring N head tail q -> stored ring N tail head = q.
Proof.
  intros [Hs Ht Hh Hf Hi]. unfold stored.
  assert (El : Z.to_nat ((head - tail) mod N) = length q).
  { rewrite Hh, Zminus_mod_idemp_l. replace (tail + Z.of_nat (length q) - tail) with (Z.of_nat (length q)) by lia. rewrite Z.mod_small by lia. lia. }
  rewrite El. apply list_eq. intros i. rewrite list_lookup_fmap. destruct (q !! i) as [x|] eqn:E.
  - rewrite lookup_seq_lt by by eapply lookup_lt_Some. cbn [fmap option_fmap option_map Nat.add]. by rewrite (Hi i x E).
  - apply lookup_ge_None in E. by rewrite lookup_seq_ge.
Qed.

Lemma unread_spec u rq tq : rep u rq tq -> unread u = rq.
Proof. intros []. by apply stored_spec. Qed.

(** A read under way: the head it saw, its tail, the bytes loaded, how many more it may take. *)
Record reading : Type := Reading { g_head : Z; g_tail : Z; g_got : list Z; g_left : nat }.
(** [w_read]: what the finished reads returned; [w_in]: what the handler stored. *)
Record rx_world : Type := RxWorld { w_u : driver; w_now : option reading; w_read : list Z; w_in : list Z }.

Inductive rx_step : rx_world -> rx_world -> Prop :=
  | rx_isr u u' g d a q : rtl_uart u <> None -> rtl_uart_isr q u = Some u' ->
      rx_step (RxWorld u g d a) (RxWorld u' g d (a ++ take (room (unread u)) (q_fifo q)))
  | rx_look u d a n : rx_step (RxWorld u None d a) (RxWorld u (Some (Reading (rtl_ring_head (rx u)) (rtl_ring_tail (rx u)) [] n)) d a)
  | rx_load u d a h t got n b : t <> h -> rtl_ring (rx u) !! Z.to_nat t = Some b ->
      rx_step (RxWorld u (Some (Reading h t got (S n))) d a) (RxWorld u (Some (Reading h (next_rx t) (got ++ [b]) n)) d a)
  | rx_publish u d a h t got n : n = 0%nat \/ t = h ->
      rx_step (RxWorld u (Some (Reading h t got n)) d a) (RxWorld (publish_tail t u) None (d ++ got) a).

(** A port just opened. *)
Definition fresh (u : driver) : Prop := rtl_uart u <> None /\ rep u [] [].

(** The read under way has loaded the oldest bytes, and the head it saw lies among those stored. *)
Definition reading_ok (u : driver) (rq : list Z) (g : reading) : Prop :=
  exists m, (length (g_got g) <= m <= length rq)%nat /\ g_got g = take (length (g_got g)) rq /\
    g_tail g = (rtl_ring_tail (rx u) + Z.of_nat (length (g_got g))) mod RTL_RING_SIZE /\ g_head g = (rtl_ring_tail (rx u) + Z.of_nat m) mod RTL_RING_SIZE.

Definition rx_inv (w : rx_world) : Prop :=
  exists rq tq, rep (w_u w) rq tq /\ w_read w ++ rq = w_in w /\ forall g, w_now w = Some g -> reading_ok (w_u w) rq g.

Lemma rx_step_inv w w' : rx_inv w -> rx_step w w' -> rx_inv w'.
Proof.
  intros (rq & tq & Hr & Hin & Hg) Hs. destruct Hs as [u u' g d a q Ho E|u d a n|u d a h t got n b Hne Hb|u d a h t got n Hend]; cbn [w_u w_now w_read w_in] in *.
  - destruct (isr_spec q u rq tq Hr Ho) as (u2 & E2 & Hr2 & _ & _ & Ht & _). assert (u2 = u') as -> by congruence.
    exists (rq ++ take (room rq) (q_fifo q)), (drop (q_slots q) tq). rewrite (unread_spec _ _ _ Hr). split_and!; [done|cbn [w_read w_in]; by rewrite app_assoc, Hin|].
    intros g' Eg. destruct (Hg g' Eg) as (m & Hm & H1 & H2 & H3). exists m. cbn [w_u]. rewrite Ht, length_app, take_app_le by lia. split_and!; try done; lia.
  - exists rq, tq. split_and!; [done..|]. intros g [= <-]. exists (length rq). cbn [g_got g_tail g_head length]. rewrite Z.add_0_r.
    pose proof (rp_rx _ _ _ Hr) as R. pose proof (hr_tail _ _ _ _ _ R). split_and!; [lia|lia|done|by rewrite Z.mod_small|apply (hr_head _ _ _ _ _ R)].
  - exists rq, tq. split_and!; [done..|]. intros g [= <-]. destruct (Hg _ eq_refl) as (m & Hm & H1 & H2 & H3). cbn [g_got g_tail g_head] in *.
    pose proof (rp_rx _ _ _ Hr) as R. pose proof (hr_tail _ _ _ _ _ R).
    assert (Hlt : (length got < m)%nat) by (destruct (decide (length got = m)) as [E|]; [destruct Hne; by rewrite H2, H3, E|lia]).
    destruct (lookup_lt_is_Some_2 rq (length got) ltac:(lia)) as [x Hx]. pose proof (hr_item _ _ _ _ _ R _ _ Hx) as Hit. rewrite <-H2, Hb in Hit. injection Hit as <-.
    exists m. cbn [w_u g_got g_tail g_head]. rewrite length_app. cbn [length]. split_and!; [lia|lia| | |done].
    + rewrite Nat.add_1_r, (take_S_r _ _ _ Hx). by rewrite <-H1.
    + rewrite next_rx_mod, H2 by (rewrite H2; by apply Z.mod_pos_bound). rewrite Zplus_mod_idemp_l. f_equal. lia.
  - destruct (Hg _ eq_refl) as (m & Hm & H1 & H2 & H3). cbn [g_got g_tail g_head] in *. exists (drop (length got) rq), tq. destruct Hr as [R T Dr On].
    split_and!; [|cbn [w_read w_in]; rewrite H1 at 1; by rewrite <-app_assoc, take_drop|done].
    split; cbn; try done. rewrite <-(take_drop (length got) rq) in R. apply ring_advance in R. rewrite length_take, Nat.min_l in R by (clear -Hm; lia). by rewrite <-H2 in R.
Qed.

(** C11: No byte the handler stored is lost, repeated or reordered by the reads, at
    whatever point of a read it fires: the results of the reads, then
    what is still in the ring, are the bytes it stored. *)
Theorem uart_rx_stream u w : fresh u -> rtc rx_step (RxWorld u None [] []) w -> w_read w ++ unread (w_u w) = w_in w.
Proof.
  intros [_ Hf] Hr. assert (H : forall x y, rtc rx_step x y -> rx_inv x -> rx_inv y) by (induction 1; eauto using rx_step_inv).
  destruct (H _ _ Hr) as (rq & tq & Hrep & E & _).
  - by exists [], [].
  - by rewrite (unread_spec _ _ _ Hrep).
Qed.

(** ** The interface of the frame reader *)

Section laws.
(** What happens during the writes, and when they are. *)
Context (hw : nat -> look) (thread : bool) (now : Z).

#[export] Instance rtl8720_uart : Uart driver := {|
  uart_read := rtl8720_uart_read;
  uart_overflows := rtl8720_uart_overflows;
  uart_write d u := snd <$> rtl8720_uart_write hw thread now d u;
  uart_tx_space := rtl8720_uart_tx_space;
  pending := unread;
  uart_ok u := exists rq tq, rep u rq tq;
|}.

#[export] Instance rtl8720_laws : UartLaws driver.
Proof.
  split. intros n u (rq & tq & Hr) Hn. destruct (read_spec n u rq tq Hr Hn) as (u' & E & Hr' & Ho). exists u'.
  cbn. rewrite (unread_spec _ _ _ Hr), (unread_spec _ _ _ Hr'). split_and!; eauto.
Qed.

(** An interrupt that finds room for its bytes is an arrival ([sv_arrive]) to the reader. *)
Lemma isr_arrival q u u' : uart_ok u -> rtl_uart u <> None -> rtl_uart_isr q u = Some u' -> (length (q_fifo q) <= room (pending u))%nat ->
  uart_ok u' /\ pending u' = pending u ++ q_fifo q.
Proof.
  cbn. intros (rq & tq & Hr) Ho E Hf. rewrite (unread_spec _ _ _ Hr) in *. destruct (isr_spec q u rq tq Hr Ho) as (u2 & E2 & Hr2 & _).
  assert (u2 = u') as -> by congruence. rewrite take_ge in Hr2 by done. rewrite (unread_spec _ _ _ Hr2). eauto.
Qed.
End laws.

(** ** Runs *)

Module UartRun.

Definition boot_uart : driver :=
  Rtl (Rx (replicate (Z.to_nat RTL_RING_SIZE) 0) 0 0 0) (Tx (replicate (Z.to_nat RTL_TX_RING_SIZE) 0) 0 0) (Counts 0 0 0 0 0 0 0 0 0) (Some RTL8720_UART_AT) true 0 false [] 0.

Lemma boot_uart_rep : rep boot_uart [] [].
Proof.
  split; unfold boot_uart; cbn [rx tx rtl_ring rtl_ring_head rtl_ring_tail rtl_tx_ring rtl_tx_head rtl_tx_tail rtl_ring_drops]; [apply ring_nil|apply ring_nil|split|intros []]; try done.
  all: rewrite length_replicate; apply Z2Nat.id; done.
Qed.

(** Every tick the interrupt takes up to sixteen bytes; the transmitter is idle. *)
Definition wire_hw (_ : nat) : look := Look [E_irq (Irq false false [7; 8] 16 0)] 0 true.

Lemma wire_clock : clock_ok wire_hw 0 0.
Proof. split; [done|]. enough (H : forall n k, elapsed wire_hw k n = 0) by (intros n; by rewrite H). induction n; intros; cbn; [done|]. by rewrite IHn. Qed.
Lemma wire_drains j : drains (wire_hw j).
Proof. split; repeat constructor; done. Qed.

Lemma rtl8720_uart_write_witness : exists r u', rtl8720_uart_write wire_hw true 5 [1; 2; 3] boot_uart = Some ([], r, u') /\ rtl8720_uart_tx_space boot_uart = 4095.
Proof.
  destruct (rtl8720_uart_write_correct wire_hw true 5 [1; 2; 3] boot_uart [] [] boot_uart_rep (fun _ => wire_clock)) as (l & s & u' & rq & tq & k' & t' & E & _ & _ & _ & _ & Hl).
  exists (k', t'), u'. split; [|reflexivity]. rewrite E, (Hl ltac:(discriminate) wire_drains). reflexivity.
Defined.

Lemma rtl8720_uart_open_witness : exists u', rtl8720_uart_open wire_hw wire_hw true 5 300 true RTL8720_UART_LOG 115200 boot_uart = Some (0, u') /\ brr u' = 1194.
Proof.
  destruct (rtl8720_uart_open_correct wire_hw wire_hw true 5 300 true RTL8720_UART_LOG 115200 boot_uart [] [] boot_uart_rep ltac:(done) ltac:(done) (fun _ => conj wire_clock wire_clock))
    as (rc & u' & E & H & _).
  destruct (H ltac:(done) ltac:(done)) as (rq & tq & _ & Hok & _). destruct (Hok eq_refl) as (-> & _ & _ & _ & _ & Hb). exists u'. split; [exact E|].
  unfold RTL_UART_PCLK2 in Hb. lia.
Defined.

(** The handler fires between the two loads of a read. *)
Lemma uart_rx_stream_witness : exists w, rtc rx_step (RxWorld boot_uart None [] []) w /\ w_read w = [7; 8] /\ unread (w_u w) = [9].
Proof.
  destruct (isr_spec (Irq false false [7; 8] 0 0) boot_uart [] [] boot_uart_rep ltac:(done)) as (u1 & E1 & R1 & _ & P1 & T1 & _).
  replace (_ ++ _) with [7; 8] in R1 by by vm_compute. rewrite drop_0 in R1. pose proof (rp_rx _ _ _ R1) as Q1.
  assert (Hh : rtl_ring_head (rx u1) = 2) by (rewrite (hr_head _ _ _ _ _ Q1), T1; reflexivity).
  destruct (isr_spec (Irq false false [9] 0 0) u1 _ _ R1 ltac:(by rewrite P1)) as (u2 & E2 & R2 & _ & _ & T2 & _).
  replace (_ ++ _) with [7; 8; 9] in R2 by by vm_compute. pose proof (rp_rx _ _ _ R2) as Q2.
  pose proof (hr_item _ _ _ _ _ Q1 0%nat 7 eq_refl) as L1. pose proof (hr_item _ _ _ _ _ Q2 1%nat 8 eq_refl) as L2. rewrite T2 in L2. rewrite T1 in L1, L2.
  assert (O0 : rtl_uart boot_uart <> None) by done. assert (O1 : rtl_uart u1 <> None) by by rewrite P1.
  assert (Hr : rtc rx_step (RxWorld boot_uart None [] []) (RxWorld (publish_tail 2 u2) None [7; 8] [7; 8; 9])).
  { eapply rtc_l; [eapply (rx_isr _ _ None [] [] _ O0 E1)|]. rewrite (unread_spec _ _ _ boot_uart_rep). replace ([] ++ _) with [7; 8] by by vm_compute.
    eapply rtc_l; [apply (rx_look _ _ _ 5)|]. rewrite Hh, T1.
    eapply rtc_l; [by apply (rx_load _ _ _ _ _ _ _ 7)|].
    eapply rtc_l; [eapply (rx_isr _ _ _ _ _ _ O1 E2)|]. rewrite (unread_spec _ _ _ R1). replace ([7; 8] ++ take _ _) with [7; 8; 9] by by vm_compute.
    eapply rtc_l; [by apply (rx_load _ _ _ _ _ _ _ 8)|]. eapply rtc_l; [apply (rx_publish u2 [] _ 2 2); by right|]. constructor. }
  eexists. split; [exact Hr|]. split; [reflexivity|].
  pose proof (uart_rx_stream boot_uart _ (conj O0 boot_uart_rep) Hr) as E. cbn [w_read w_in app] in E. injection E as E. exact E.
Defined.
End UartRun.
