(* ===== verification/RtlLink.v ===== *)
(** * Ownership of the Wi-Fi link ([src/app/rtl_link.c])

    The reference count on the UART, the generations that void the references of a
    link that was taken away, and the change of rate of both ends.  The UART and the
    service thread below are the class [Session]; [svc_session_laws] discharges it for the
    models of [Rtl8720] and [ErpcReader]. *)

From stdpp Require Import relations.
From S2P Require Import Prelude Erpc LinkData ErpcReader Rtl8720.
Local Open Scope Z_scope.

(** ** What is below

    [rate]: the rate the open port runs at. *)
Class Session (T : Type) : Type := {
  port : T -> option Z;
  rate : T -> Z;
  can_open : Z -> Z -> bool;
  s_open : Z -> Z -> T -> option (Z * T);
  s_close : T -> option T;
  link_opened : bool -> T -> option T;
  link_closed : T -> option T;
  set_module_gen : Z -> T -> T;
  session_ok : T -> Prop;
}.

(** An open that fails leaves the port closed, or as it was when the request itself is
    bad; the rest leaves it alone. *)
Class SessionLaws (T : Type) `{Session T} : Prop := {
  s_open_spec w b s : session_ok s -> exists rc s', s_open w b s = Some (rc, s') /\ session_ok s' /\
    (rc = 0 -> can_open w b = true /\ port s' = Some w /\ rate s' = b) /\ (rc <> 0 -> port s = None -> port s' = None);
  s_close_spec s : session_ok s -> exists s', s_close s = Some s' /\ session_ok s' /\ port s' = None;
  link_opened_spec c s : session_ok s -> exists s', link_opened c s = Some s' /\ session_ok s' /\ port s' = port s /\ rate s' = rate s;
  link_closed_spec s : session_ok s -> exists s', link_closed s = Some s' /\ session_ok s' /\ port s' = port s /\ rate s' = rate s;
  set_module_gen_spec g s : session_ok s -> session_ok (set_module_gen g s) /\ port (set_module_gen g s) = port s /\ rate (set_module_gen g s) = rate s;
}.

Definition RTL_ERPC_BAUD_DEFAULT : Z := 2000000.
Definition RTL_LINK_READY : Z := 0.
Definition RTL_LINK_ERR : Z := 1.
Definition RTL_LINK_OFF : Z := 2.
Definition RTL_RATE_OK : Z := 0.
Definition RTL_RATE_UNCHANGED : Z := -1.
Definition RTL_RATE_DEAD : Z := -2.

Section owner.
Context {T : Type} {HS : Session T}.

Record link_state : Type := Link {
  g_uart_refs : Z; g_uart_which : Z; g_uart_baud : Z;
  g_uart_gen : Z; g_quiesce_gen : Z; g_forget_gen : Z;
  g_erpc_baud : Z; g_tcpip_inited : bool;
  sess : T;
}.
Definition set_refs (n : Z) (l : link_state) : link_state :=
  Link n (g_uart_which l) (g_uart_baud l) (g_uart_gen l) (g_quiesce_gen l) (g_forget_gen l) (g_erpc_baud l) (g_tcpip_inited l) (sess l).
Definition set_sess (s : T) (l : link_state) : link_state :=
  Link (g_uart_refs l) (g_uart_which l) (g_uart_baud l) (g_uart_gen l) (g_quiesce_gen l) (g_forget_gen l) (g_erpc_baud l) (g_tcpip_inited l) s.
Definition opened_as (w b : Z) (l : link_state) : link_state :=
  Link 1 w b (g_uart_gen l +% 1) (g_quiesce_gen l) (g_forget_gen l) (g_erpc_baud l) (g_tcpip_inited l) (sess l).
Definition set_baud (b : Z) (l : link_state) : link_state :=
  Link (g_uart_refs l) (g_uart_which l) b (g_uart_gen l) (g_quiesce_gen l) (g_forget_gen l) b (g_tcpip_inited l) (sess l).
Definition revoke (l : link_state) : link_state :=
  Link 0 (g_uart_which l) (g_uart_baud l) (g_uart_gen l +% 1) (g_quiesce_gen l +% 1) (g_forget_gen l) (g_erpc_baud l) (g_tcpip_inited l) (sess l).

Definition rtl_link_forget_module (l : link_state) : link_state :=
  Link (g_uart_refs l) (g_uart_which l) (g_uart_baud l) (g_uart_gen l) (g_quiesce_gen l) (g_forget_gen l +% 1) RTL_ERPC_BAUD_DEFAULT false (set_module_gen 0 (sess l)).
Definition rtl_tcpip_set_inited (v : bool) (l : link_state) : link_state :=
  Link (g_uart_refs l) (g_uart_which l) (g_uart_baud l) (g_uart_gen l) (g_quiesce_gen l) (g_forget_gen l) (g_erpc_baud l) v (sess l).

(** ** References *)

Definition rtl_link_uart_ref (which baud : Z) (l : link_state) : option (Z * link_state) :=
  if negb (g_uart_refs l =? 0) then
    if negb (which =? g_uart_which l) || negb (baud =? g_uart_baud l) then Some (-1, l) else Some (0, set_refs (g_uart_refs l +% 1) l)
  else
    '(rc, s) ← s_open which baud (sess l);
    let l := set_sess s l in
    if negb (rc =? 0) then Some (-1, l)
    else
      let l := opened_as which baud l in
      s ← link_opened (which =? RTL8720_UART_AT) (sess l); Some (0, set_sess s l).

(** The last reference closes. *)
Definition release (l : link_state) : option link_state :=
  if g_uart_refs l =? 0 then Some l
  else
    let l := set_refs (g_uart_refs l -% 1) l in
    if g_uart_refs l =? 0 then s ← link_closed (sess l); s ← s_close s; Some (set_sess s l) else Some l.
Definition rtl_link_uart_unref (l : link_state) : option link_state := release l.
Definition rtl_link_uart_unref_gen (gen : Z) (l : link_state) : option link_state := if gen =? g_uart_gen l then release l else Some l.

Definition rtl_link_uart_rebaud (baud : Z) (l : link_state) : option (Z * link_state) :=
  if g_uart_refs l =? 0 then Some (-1, l)
  else
    s ← s_close (sess l); '(rc, s) ← s_open (g_uart_which l) baud s;
    if rc =? 0 then
      s ← link_opened (g_uart_which l =? RTL8720_UART_AT) s; Some (0, set_sess s (set_baud baud l))
    else s ← link_closed s; Some (-1, set_sess s l).

Definition rtl_link_force_quiesce (l : link_state) : option link_state :=
  let l := rtl_link_forget_module (revoke l) in
  s ← link_closed (sess l); s ← s_close s; Some (set_sess s l).

(** ** The shell's adapters

    [claimed]: the console and the coarse mutex were both obtained; [power]: the
    module's supply; [cancelled]: Ctrl+C during the boot wait. *)
Definition rtl_link_begin (claimed power_on cancelled power : bool) (l : link_state) : option (Z * bool * link_state) :=
  if negb claimed then Some (RTL_LINK_ERR, power, l)
  else if negb power && negb power_on then Some (RTL_LINK_OFF, power, l)
  else
    let l := if power then l else rtl_link_forget_module l in
    if negb power && cancelled then Some (RTL_LINK_ERR, true, l)
    else
      '(rc, l) ← rtl_link_uart_ref RTL8720_UART_AT (g_erpc_baud l) l;
      Some (if rc =? 0 then RTL_LINK_READY else RTL_LINK_ERR, true, l).
Definition rtl_link_end (l : link_state) : option link_state := rtl_link_uart_unref l.
(** 0, or 1 with nothing held. *)
Definition rtl_link_hw_claim (claimed allow_busy : bool) (l : link_state) : Z :=
  if negb claimed then 1 else if negb allow_busy && negb (g_uart_refs l =? 0) then 1 else 0.

(** *** What each does to the link *)

Context {HL : SessionLaws T}.

(** The UART is open for a link with references, unless a change of rate has failed
    ([broken]), and closed for one without. *)
Record link_ok (broken : bool) (l : link_state) : Prop := {
  lo_sess : session_ok (sess l);
  lo_refs : is_u32 (g_uart_refs l);
  lo_gen : is_u32 (g_uart_gen l);
  lo_open : g_uart_refs l <> 0 -> broken = false -> port (sess l) = Some (g_uart_which l) /\ rate (sess l) = g_uart_baud l;
  lo_closed : g_uart_refs l = 0 -> port (sess l) = None;
}.

Lemma ref_spec broken w b l : link_ok broken l -> g_uart_refs l < 4294967295 -> (broken = true -> g_uart_refs l <> 0) ->
  exists rc l', rtl_link_uart_ref w b l = Some (rc, l') /\ link_ok broken l' /\
    (rc = 0 /\ g_uart_which l' = w /\ g_uart_baud l' = b /\ g_uart_refs l' = g_uart_refs l + 1 /\
      g_uart_gen l' = (if g_uart_refs l =? 0 then g_uart_gen l +% 1 else g_uart_gen l) \/
     rc = -1 /\ g_uart_refs l' = g_uart_refs l /\ g_uart_gen l' = g_uart_gen l).
Proof.
  intros [Hs Hr Hg Ho Hc] Hmax Hb. unfold rtl_link_uart_ref. unfold is_u32 in Hr. destruct (Z.eqb_spec (g_uart_refs l) 0) as [E|E]; cbn [negb].
  - assert (broken = false) as -> by (destruct broken; [by destruct (Hb eq_refl)|done]).
    destruct (s_open_spec w b (sess l) Hs) as (rc & s1 & -> & Hs1 & Hok & Hbad). cbn [mbind option_bind]. destruct (Z.eqb_spec rc 0) as [->|Hrc]; cbn [negb].
    + destruct (Hok eq_refl) as (_ & Hp & Hrt). destruct (link_opened_spec (w =? RTL8720_UART_AT) s1 Hs1) as (s2 & E2 & Hs2 & Hp2 & Hr2). cbn. rewrite E2. cbn [mbind option_bind].
      eexists 0, _. split; [done|]. split; [split; cbn; try done; [apply u32_range|by rewrite Hp2, Hr2]|]. left. cbn. rewrite E. done.
    + eexists (-1), _. split; [done|]. split; [split; cbn; try done; try (by intros []); intros _; by apply Hbad, Hc|]. by right.
  - destruct (Z.eqb_spec w (g_uart_which l)) as [->|]; cbn [negb orb]; [|eexists (-1), l; split; [done|]; split; [by split|by right]].
    destruct (Z.eqb_spec b (g_uart_baud l)) as [->|]; cbn [negb]; [|eexists (-1), l; split; [done|]; split; [by split|by right]].
    assert (Eu : g_uart_refs l +% 1 = g_uart_refs l + 1) by (apply u32_small; unfold is_u32; lia).
    eexists 0, _. split; [done|]. split; [split; cbn; rewrite ?Eu; try done; [unfold is_u32; lia|intros _; by apply Ho|lia]|]. left. cbn. by rewrite Eu.
Qed.

Lemma release_spec broken l : link_ok broken l -> g_uart_refs l <> 0 ->
  exists l', release l = Some l' /\ link_ok broken l' /\ g_uart_refs l' = g_uart_refs l - 1 /\ g_uart_gen l' = g_uart_gen l.
Proof.
  intros [Hs Hr Hg Ho Hc] Hne. unfold is_u32 in Hr. assert (Eu : g_uart_refs l -% 1 = g_uart_refs l - 1) by (apply u32_small; unfold is_u32; lia).
  unfold release. rewrite (proj2 (Z.eqb_neq _ _) Hne). cbn. rewrite Eu. destruct (Z.eqb_spec (g_uart_refs l - 1) 0) as [E|E].
  - destruct (link_closed_spec (sess l) Hs) as (s1 & -> & Hs1 & Hp1 & _). cbn [mbind option_bind]. destruct (s_close_spec s1 Hs1) as (s2 & -> & Hs2 & Hp2). cbn [mbind option_bind].
    eexists. split; [done|]. split; [split; cbn; try done; unfold is_u32; lia|done].
  - eexists. split; [done|]. split; [split; cbn; try done; [unfold is_u32; lia|intros _; by apply Ho]|done].
Qed.

Lemma quiesce_spec broken l : link_ok broken l -> exists l', rtl_link_force_quiesce l = Some l' /\ link_ok false l' /\ g_uart_refs l' = 0 /\ g_uart_gen l' = g_uart_gen l +% 1 /\
  g_erpc_baud l' = RTL_ERPC_BAUD_DEFAULT.
Proof.
  intros [Hs Hr Hg Ho Hc]. unfold rtl_link_force_quiesce. cbn. destruct (set_module_gen_spec 0 (sess l) Hs) as (Hs0 & _ & _).
  destruct (link_closed_spec _ Hs0) as (s1 & -> & Hs1 & Hp1 & _). cbn [mbind option_bind]. destruct (s_close_spec s1 Hs1) as (s2 & -> & Hs2 & Hp2). cbn [mbind option_bind].
  eexists. split; [done|]. split; [|done]. split; cbn; try done. apply u32_range.
Qed.

Lemma rebaud_spec broken b l : link_ok broken l -> g_uart_refs l <> 0 -> exists rc l', rtl_link_uart_rebaud b l = Some (rc, l') /\ link_ok (negb (rc =? 0)) l' /\
  g_uart_refs l' = g_uart_refs l /\ g_uart_gen l' = g_uart_gen l /\ g_uart_which l' = g_uart_which l /\
  (rc = 0 /\ can_open (g_uart_which l) b = true /\ g_uart_baud l' = b /\ g_erpc_baud l' = b \/ rc = -1 /\ g_uart_baud l' = g_uart_baud l /\ g_erpc_baud l' = g_erpc_baud l /\ port (sess l') = None).
Proof.
  intros [Hs Hr Hg Ho Hc] Hne. unfold rtl_link_uart_rebaud. rewrite (proj2 (Z.eqb_neq _ _) Hne).
  destruct (s_close_spec _ Hs) as (s1 & -> & Hs1 & Hp1). cbn [mbind option_bind]. destruct (s_open_spec (g_uart_which l) b s1 Hs1) as (rc & s2 & -> & Hs2 & Hok & Hbad). cbn [mbind option_bind].
  destruct (Z.eqb_spec rc 0) as [->|Hrc].
  - destruct (Hok eq_refl) as (Hcan & Hp & Hrt). destruct (link_opened_spec (g_uart_which l =? RTL8720_UART_AT) s2 Hs2) as (s3 & -> & Hs3 & Hp3 & Hr3). cbn [mbind option_bind].
    eexists 0, _. split; [done|]. split; [split; cbn; try done; by rewrite Hp3, Hr3|]. split_and!; try done. by left.
  - destruct (link_closed_spec s2 Hs2) as (s3 & -> & Hs3 & Hp3 & _). cbn [mbind option_bind]. eexists (-1), _. split; [done|].
    assert (Hnone : port s3 = None) by (rewrite Hp3; auto). split; [split; cbn; try done|]. split_and!; try done. by right.
Qed.

(** ** Who holds a reference

    [user]: a command, which holds the coarse mutex from its first step to its last;
    [residents]: the generations recorded by the holders that outlive it; [broken]: a change
    of rate failed and its reference is still held. *)
Record refs_world : Type := RefsWorld { lk_ : link_state; user : bool; residents : list Z; broken : bool }.

Definition still (b : bool) (l : link_state) : bool := b && negb (g_uart_refs l =? 0).

(** The counters are taken not to wrap: fewer than 2^32 opens and recoveries. *)
Inductive refs_step : refs_world -> refs_world -> Prop :=
  | st_begin l rs b w baud rc l' : g_uart_gen l < 4294967295 -> g_uart_refs l < 4294967295 -> rtl_link_uart_ref w baud l = Some (rc, l') ->
      refs_step (RefsWorld l false rs b) (RefsWorld l' (rc =? 0) rs b)
  | st_end l rs b l' : rtl_link_uart_unref l = Some l' -> refs_step (RefsWorld l true rs b) (RefsWorld l' false rs (still b l'))
  | st_take l rs b w baud l' : g_uart_gen l < 4294967295 -> g_uart_refs l < 4294967295 -> rtl_link_uart_ref w baud l = Some (0, l') ->
      refs_step (RefsWorld l false rs b) (RefsWorld l' false (g_uart_gen l' :: rs) b)
  | st_drop l u rs1 g rs2 b l' : rtl_link_uart_unref_gen g l = Some l' -> refs_step (RefsWorld l u (rs1 ++ g :: rs2) b) (RefsWorld l' u (rs1 ++ rs2) (still b l'))
  | st_quiesce l rs b l' : g_uart_gen l < 4294967295 -> rtl_link_force_quiesce l = Some l' -> refs_step (RefsWorld l false rs b) (RefsWorld l' false rs false)
  | st_rebaud l u rs b baud rc l' : g_uart_refs l = 1 -> rtl_link_uart_rebaud baud l = Some (rc, l') ->
      refs_step (RefsWorld l u rs b) (RefsWorld l' u rs (negb (rc =? 0))).

Definition valid_refs (gen : Z) (rs : list Z) : list Z := filter (fun g => g = gen) rs.

Record refs_inv (w : refs_world) : Prop := {
  ri_ok : link_ok (broken w) (lk_ w);
  ri_broken : broken w = true -> g_uart_refs (lk_ w) <> 0;
  ri_count : g_uart_refs (lk_ w) = (if user w then 1 else 0) + Z.of_nat (length (valid_refs (g_uart_gen (lk_ w)) (residents w)));
  ri_past : Forall (fun g => g <= g_uart_gen (lk_ w)) (residents w);
}.

Lemma valid_refs_new gen gen' rs : Forall (fun g => g <= gen) rs -> gen < gen' -> valid_refs gen' rs = [].
Proof. intros H Hlt. unfold valid_refs. induction H as [|g rs Hg _ IH]; [done|]. rewrite filter_cons_False by lia. done. Qed.

Lemma still_ok b l : link_ok b l -> link_ok (still b l) l.
Proof. intros [Hs Hr Hg Ho Hc]. split; try done. intros Hne. unfold still. rewrite (proj2 (Z.eqb_neq _ _) Hne), andb_true_r. by apply Ho. Qed.
Lemma still_refs b l : still b l = true -> g_uart_refs l <> 0.
Proof. unfold still. intros [_ H%negb_true_iff%Z.eqb_neq]%andb_prop. done. Qed.

(** Where a new reference leaves the residents' ones. *)
Lemma ref_valid (l l' : link_state) rs : is_u32 (g_uart_gen l) -> g_uart_gen l < 4294967295 -> Forall (fun g => g <= g_uart_gen l) rs ->
  g_uart_gen l' = (if g_uart_refs l =? 0 then g_uart_gen l +% 1 else g_uart_gen l) -> g_uart_refs l = Z.of_nat (length (valid_refs (g_uart_gen l) rs)) ->
  length (valid_refs (g_uart_gen l') rs) = length (valid_refs (g_uart_gen l) rs) /\ g_uart_gen l <= g_uart_gen l'.
Proof.
  intros Hu Hmax Hp -> Hc. unfold is_u32 in Hu. assert (E : g_uart_gen l +% 1 = g_uart_gen l + 1) by (apply u32_small; unfold is_u32; lia).
  destruct (Z.eqb_spec (g_uart_refs l) 0) as [E0|]; [|done]. rewrite E, (valid_refs_new (g_uart_gen l)) by (done || lia). cbn. lia.
Qed.

Lemma refs_step_inv w w' : refs_inv w -> refs_step w w' -> refs_inv w'.
Proof.
  intros [Hok Hb Hc Hp] Hs. pose proof (lo_gen _ _ Hok) as Hgu. destruct Hs as [l rs b w0 baud rc l' Hg Hr E|l rs b l' E|l rs b w0 baud l' Hg Hr E|l u rs1 g rs2 b l' E|l rs b l' Hg E|l u rs b baud rc l' H1 E]; cbn [lk_ user residents broken] in *.
  - destruct (ref_spec b w0 baud l Hok Hr Hb) as (rc1 & l1 & E1 & Hok1 & Hcase). rewrite E1 in E. injection E as -> ->. destruct Hcase as [(-> & _ & _ & Hn & Hgen)|(-> & Hn & Hgen)].
    + destruct (ref_valid l l' rs Hgu Hg Hp Hgen Hc) as [Hl Hle]. split; cbn [lk_ user residents broken]; [done|intros Hbr; specialize (Hb Hbr); destruct Hok as [_ Hrr _ _ _]; unfold is_u32 in Hrr; lia|rewrite Hl; cbn; lia|].
      eapply Forall_impl; [exact Hp|]. cbn. lia.
    + split; cbn [lk_ user residents broken]; [done|by rewrite Hn|by rewrite Hn, Hgen|by rewrite Hgen].
  - unfold rtl_link_uart_unref in E. destruct (release_spec b l Hok) as (l1 & E1 & Hok1 & Hn & Hgen); [lia|]. rewrite E1 in E. injection E as ->.
    split; cbn [lk_ user residents broken]; [by apply still_ok|apply still_refs|rewrite Hn, Hgen; lia|by rewrite Hgen].
  - destruct (ref_spec b w0 baud l Hok Hr Hb) as (rc1 & l1 & E1 & Hok1 & Hcase). rewrite E1 in E. injection E as -> ->. destruct Hcase as [(_ & _ & _ & Hn & Hgen)|(? & _)]; [|done].
    destruct (ref_valid l l' rs Hgu Hg Hp Hgen Hc) as [Hl Hle]. split; cbn [lk_ user residents broken]; [done|intros Hbr; specialize (Hb Hbr); destruct Hok as [_ Hrr _ _ _]; unfold is_u32 in Hrr; lia| |].
    + unfold valid_refs. rewrite filter_cons_True by done. fold (valid_refs (g_uart_gen l') rs). cbn [length]. rewrite Hl. lia.
    + constructor; [done|]. eapply Forall_impl; [exact Hp|]. cbn. lia.
  - unfold rtl_link_uart_unref_gen in E. apply Forall_app in Hp as [Hp1 [Hpg Hp2]%Forall_cons]. unfold valid_refs in Hc. rewrite filter_app in Hc.
    assert (Hsum : forall n, length (valid_refs n (rs1 ++ rs2)) = (length (filter (fun g => g = n) rs1) + length (filter (fun g => g = n) rs2))%nat) by (intros n; unfold valid_refs; by rewrite filter_app, length_app).
    destruct (Z.eqb_spec g (g_uart_gen l)) as [->|Hne].
    + rewrite filter_cons_True, length_app in Hc by done. cbn [length] in Hc. destruct (release_spec b l Hok) as (l1 & E1 & Hok1 & Hn & Hgen); [destruct u; lia|]. rewrite E1 in E. injection E as ->.
      split; cbn [lk_ user residents broken]; [by apply still_ok|apply still_refs|rewrite Hsum, Hgen, Hn; destruct u; lia|rewrite Hgen; by apply Forall_app].
    + injection E as ->. rewrite filter_cons_False, length_app in Hc by done.
      split; cbn [lk_ user residents broken]; [by apply still_ok|apply still_refs|rewrite Hsum; destruct u; lia|by apply Forall_app].
  - destruct (quiesce_spec b l Hok) as (l1 & E1 & Hok1 & Hn & Hgen & _). rewrite E1 in E. injection E as ->. unfold is_u32 in Hgu.
    assert (Eu : g_uart_gen l +% 1 = g_uart_gen l + 1) by (apply u32_small; unfold is_u32; lia). rewrite Eu in Hgen.
    split; cbn [lk_ user residents broken]; [done|done|rewrite Hn, Hgen, (valid_refs_new (g_uart_gen l)) by (done || lia); done|]. rewrite Hgen. eapply Forall_impl; [exact Hp|]. cbn. lia.
  - destruct (rebaud_spec b baud l Hok) as (rc1 & l1 & E1 & Hok1 & Hn & Hgen & _); [lia|]. rewrite E1 in E. injection E as -> ->.
    split; cbn [lk_ user residents broken]; [done|rewrite Hn, H1; done|by rewrite Hn, Hgen|by rewrite Hgen].
Qed.

Definition link0 (s : T) : link_state := Link 0 0 0 1 0 0 RTL_ERPC_BAUD_DEFAULT false s.
Definition refs0 (s : T) : refs_world := RefsWorld (link0 s) false [] false.

(** C13: The reference count is the command that holds the link, if any, and the residents whose
    generation is the current one: a recovery voids the others.  While anybody holds a valid
    reference the UART is open as recorded (unless a change of rate failed under it), with none
    it is closed; and dropping a void reference returns and changes nothing, so it cannot close the
    UART under its new users. *)
Theorem rtl_link_refs s w : session_ok s -> port s = None -> rtc refs_step (refs0 s) w ->
  let l := lk_ w in
  g_uart_refs l = (if user w then 1 else 0) + Z.of_nat (length (valid_refs (g_uart_gen l) (residents w))) /\
  (g_uart_refs l <> 0 -> broken w = false -> port (sess l) = Some (g_uart_which l) /\ rate (sess l) = g_uart_baud l) /\
  (g_uart_refs l = 0 -> port (sess l) = None) /\
  (forall g, g ∈ residents w -> exists l', rtl_link_uart_unref_gen g l = Some l' /\ (g <> g_uart_gen l -> l' = l) /\ (g = g_uart_gen l -> g_uart_refs l' = g_uart_refs l - 1)).
Proof.
  intros Hs Hp Hr. assert (Hi : refs_inv w).
  { assert (H0 : refs_inv (refs0 s)) by (by repeat split). induction Hr; eauto using refs_step_inv. }
  destruct Hi as [Hok Hb Hc _]. cbn. split_and!; [done|apply Hok|apply Hok|]. intros g Hg. unfold rtl_link_uart_unref_gen. destruct (Z.eqb_spec g (g_uart_gen (lk_ w))) as [->|Hne]; [|by eexists].
  destruct (release_spec _ _ Hok) as (l' & -> & _ & Hn & _); [|by eexists].
  assert (Hin : g_uart_gen (lk_ w) ∈ valid_refs (g_uart_gen (lk_ w)) (residents w)) by by apply list_elem_of_filter. destruct (valid_refs _ _); [by apply not_elem_of_nil in Hin|]. cbn in Hc. destruct (user w); lia.
Qed.
End owner.
Arguments link_state : clear implicits.
Arguments refs_world : clear implicits.

(** ** Changing the rate *)

Definition ERPC_CTRL_PING : Z := 1.
Definition ERPC_CTRL_SETBAUD : Z := 3.
Definition ERPC_CTRL_SETBAUD_MAGIC : Z := 1111577924.
Definition rl_rates : list Z := [2000000; 3000000; 4000000; 6000000].
Definition rtl_link_rate_supported (baud : Z) : bool := existsb (fun r => r =? baud) rl_rates.

Definition setbaud_body (baud : Z) : list Z := le32 baud ++ le32 ERPC_CTRL_SETBAUD_MAGIC.

(** The module's end: [peer_rate], the rate it runs at; [ctrl_call], one exchange with it on the
    control channel, with the reply's length or a negative code. *)
Class Peer (T : Type) : Type := {
  peer_rate : T -> Z;
  ctrl_call : Z -> list Z -> T -> Z * T;
}.

(** An answer can come only over a port at the module's own rate.  Asked to change its rate, the
    module may do so or not, whatever it answers; if it does, it heard the request. *)
Class PeerLaws (T : Type) `{Session T} `{Peer T} : Prop := {
  call_session cmd req s : session_ok s -> session_ok (snd (ctrl_call cmd req s)) /\ port (snd (ctrl_call cmd req s)) = port s /\ rate (snd (ctrl_call cmd req s)) = rate s;
  call_heard cmd req s : 0 <= fst (ctrl_call cmd req s) -> port s <> None /\ rate s = peer_rate s;
  call_ping s : peer_rate (snd (ctrl_call ERPC_CTRL_PING [] s)) = peer_rate s;
  call_setbaud b s : is_u32 b -> let s' := snd (ctrl_call ERPC_CTRL_SETBAUD (setbaud_body b) s) in
    peer_rate s' = peer_rate s \/ rate s = peer_rate s /\ peer_rate s' = b;
  open_peer w b s rc s' : s_open w b s = Some (rc, s') -> peer_rate s' = peer_rate s;
  close_peer s s' : s_close s = Some s' -> peer_rate s' = peer_rate s;
  opened_peer c s s' : link_opened c s = Some s' -> peer_rate s' = peer_rate s;
  closed_peer s s' : link_closed s = Some s' -> peer_rate s' = peer_rate s;
}.

Section rate.
Context {T : Type} {HS : Session T} {HP : Peer T}.

Definition call (cmd : Z) (req : list Z) (l : link_state T) : Z * link_state T := let '(rc, s) := ctrl_call cmd req (sess l) in (rc, set_sess s l).
Definition rl_ping (l : link_state T) : Z * link_state T := call ERPC_CTRL_PING [] l.

Definition rl_setbaud_module (baud : Z) (l : link_state T) : Z * link_state T :=
  let '(rc, l) := rl_ping l in
  if rc <? 0 then (-1, l)
  else let '(rc, l) := call ERPC_CTRL_SETBAUD (setbaud_body baud) l in (if rc <? 0 then -1 else 0, l).

Fixpoint ping_loop (n : nat) (l : link_state T) : Z * link_state T :=
  match n with
  | O => (-1, l)
  | S n => let '(rc, l) := rl_ping l in if 0 <=? rc then (0, l) else ping_loop n l
  end.

Definition rl_switch_host (baud : Z) (l : link_state T) : option (Z * link_state T) :=
  '(rc, l) ← rtl_link_uart_rebaud baud l;
  Some (if rc =? 0 then ping_loop 3 l else (-1, l)).

Definition rtl_link_set_rate (baud : Z) (l : link_state T) : option (Z * link_state T) :=
  let old := g_erpc_baud l in
  if baud =? old then Some (RTL_RATE_OK, l)
  else if negb (rtl_link_rate_supported baud) then Some (RTL_RATE_UNCHANGED, l)
  else
    let '(rc, l) := rl_setbaud_module baud l in
    if negb (rc =? 0) then Some (RTL_RATE_UNCHANGED, l)
    else
      '(rc, l) ← rl_switch_host baud l;
      if rc =? 0 then Some (RTL_RATE_OK, l)
      else
        let '(rc, l) := rl_setbaud_module old l in
        if negb (rc =? 0) then Some (RTL_RATE_DEAD, l)
        else '(rc, l) ← rl_switch_host old l; Some (if rc =? 0 then RTL_RATE_UNCHANGED else RTL_RATE_DEAD, l).

Context {HL : SessionLaws T} {HPL : PeerLaws T}.

(** What an exchange leaves alone. *)
Record same_link (l l' : link_state T) : Prop := {
  sl_refs : g_uart_refs l' = g_uart_refs l;
  sl_gen : g_uart_gen l' = g_uart_gen l;
  sl_which : g_uart_which l' = g_uart_which l;
  sl_baud : g_uart_baud l' = g_uart_baud l;
  sl_erpc : g_erpc_baud l' = g_erpc_baud l;
  sl_port : port (sess l') = port (sess l);
  sl_rate : rate (sess l') = rate (sess l);
  sl_ok : forall b, link_ok b l -> link_ok b l';
}.

Lemma same_link_trans l1 l2 l3 : same_link l1 l2 -> same_link l2 l3 -> same_link l1 l3.
Proof. intros [] []. split; try congruence; auto. Qed.
Lemma same_link_refl l : same_link l l.
Proof. by split. Qed.

Lemma call_spec cmd req l : session_ok (sess l) -> same_link l (snd (call cmd req l)) /\ session_ok (sess (snd (call cmd req l))) /\
  fst (call cmd req l) = fst (ctrl_call cmd req (sess l)) /\ peer_rate (sess (snd (call cmd req l))) = peer_rate (snd (ctrl_call cmd req (sess l))) /\
  (0 <= fst (call cmd req l) -> rate (sess l) = peer_rate (sess l)).
Proof.
  intros Hs. destruct (call_session cmd req _ Hs) as (Hs' & Hp & Hr). pose proof (call_heard cmd req (sess l)) as Hh. unfold call. destruct (ctrl_call cmd req (sess l)) as [rc s]; cbn in *.
  split_and!; try done; [|intros H; by apply Hh]. split; cbn; try done. intros b [A B C D E]. split; cbn; try done; [intros; rewrite Hp, Hr; auto|intros; rewrite Hp; auto].
Qed.

Lemma setbaud_spec b l : is_u32 b -> session_ok (sess l) -> exists rc l', rl_setbaud_module b l = (rc, l') /\ same_link l l' /\ session_ok (sess l') /\
  (rc = 0 /\ rate (sess l) = peer_rate (sess l) \/ rc = -1) /\ (peer_rate (sess l') = peer_rate (sess l) \/ rate (sess l) = peer_rate (sess l) /\ peer_rate (sess l') = b).
Proof.
  intros Hu Hs. unfold rl_setbaud_module, rl_ping. destruct (call_spec ERPC_CTRL_PING [] l Hs) as (Hl1 & Hs1 & _ & Hp1 & Hh1). rewrite call_ping in Hp1.
  destruct (call ERPC_CTRL_PING [] l) as [rc1 l1]; cbn [fst snd] in *. destruct (Z.ltb_spec rc1 0); [eexists _, l1; split_and!; [done..|by right|by left]|].
  destruct (call_spec ERPC_CTRL_SETBAUD (setbaud_body b) l1 Hs1) as (Hl2 & Hs2 & _ & Hp2 & Hh2). pose proof (call_setbaud b (sess l1) Hu) as Hb. cbv zeta in Hb. rewrite <-Hp2 in Hb.
  destruct (call ERPC_CTRL_SETBAUD (setbaud_body b) l1) as [rc2 l2]; cbn [fst snd] in *. assert (Hr : rate (sess l1) = rate (sess l)) by apply Hl1.
  exists (if rc2 <? 0 then -1 else 0), l2. split; [done|]. split; [by eapply same_link_trans|]. split; [done|]. split.
  - destruct (Z.ltb_spec rc2 0); [by right|left; split; [done|]]. auto.
  - rewrite <-Hp1, <-Hr. exact Hb.
Qed.

Lemma ping_loop_spec n l : session_ok (sess l) -> exists rc l', ping_loop n l = (rc, l') /\ same_link l l' /\ session_ok (sess l') /\ peer_rate (sess l') = peer_rate (sess l) /\
  (rc = 0 /\ rate (sess l') = peer_rate (sess l') \/ rc = -1).
Proof.
  revert l. induction n as [|n IH]; intros l Hs; cbn [ping_loop]; [eexists _, l; split_and!; eauto using same_link_refl|].
  unfold rl_ping. destruct (call_spec ERPC_CTRL_PING [] l Hs) as (Hl1 & Hs1 & _ & Hp1 & Hh1). rewrite call_ping in Hp1. destruct (call ERPC_CTRL_PING [] l) as [rc1 l1]; cbn [fst snd] in *.
  destruct (Z.leb_spec 0 rc1).
  - eexists _, l1. split_and!; [done..|]. left. split; [done|]. rewrite (sl_rate _ _ Hl1), Hp1. auto.
  - destruct (IH l1 Hs1) as (rc & l' & -> & Hl' & Hs' & Hp' & Hc). eexists _, l'. split_and!; [done|by eapply same_link_trans|done|congruence|done].
Qed.

Lemma rebaud_peer b l rc l' : rtl_link_uart_rebaud b l = Some (rc, l') -> peer_rate (sess l') = peer_rate (sess l).
Proof.
  unfold rtl_link_uart_rebaud. destruct (g_uart_refs l =? 0); [by intros [= <- <-]|]. destruct (s_close (sess l)) as [s1|] eqn:E1; [|done]. cbn [mbind option_bind].
  destruct (s_open (g_uart_which l) b s1) as [[rc1 s2]|] eqn:E2; [|done]. cbn [mbind option_bind]. apply close_peer in E1. apply open_peer in E2. destruct (rc1 =? 0).
  - destruct (link_opened _ s2) as [s3|] eqn:E3; [|done]. cbn [mbind option_bind]. apply opened_peer in E3. intros [= <- <-]. cbn. congruence.
  - destruct (link_closed s2) as [s3|] eqn:E3; [|done]. cbn [mbind option_bind]. apply closed_peer in E3. intros [= <- <-]. cbn. congruence.
Qed.

Lemma supported_u32 b : rtl_link_rate_supported b = true -> is_u32 b.
Proof. unfold rtl_link_rate_supported, rl_rates, is_u32. cbn [existsb]. lia. Qed.

Lemma switch_spec bk b l : link_ok bk l -> g_uart_refs l <> 0 -> exists rc l', rl_switch_host b l = Some (rc, l') /\ peer_rate (sess l') = peer_rate (sess l) /\
  g_uart_refs l' = g_uart_refs l /\ g_uart_gen l' = g_uart_gen l /\ (exists bk', link_ok bk' l') /\
  (rc = 0 /\ g_erpc_baud l' = b /\ g_uart_baud l' = b /\ port (sess l') = Some (g_uart_which l') /\ rate (sess l') = b /\ peer_rate (sess l') = b \/ rc = -1).
Proof.
  intros Hok Hne. unfold rl_switch_host. destruct (rebaud_spec bk b l Hok Hne) as (rc & l1 & E1 & Hok1 & Hn & Hg & Hw & Hcase). pose proof (rebaud_peer _ _ _ _ E1) as Hp. rewrite E1. cbn [mbind option_bind].
  destruct Hcase as [(-> & _ & Hb1 & Hb2)|(-> & _)]; cbn [Z.eqb].
  - cbn [negb] in Hok1. destruct (lo_open _ _ Hok1 ltac:(congruence) eq_refl) as [Hpo Hra].
    destruct (ping_loop_spec 3 l1 (lo_sess _ _ Hok1)) as (rc2 & l2 & E2 & Hl2 & Hs2 & Hp2 & Hc). rewrite E2. eexists _, l2. split; [done|]. destruct Hl2 as [A1 A2 A3 A4 A5 A6 A7 A8].
    split_and!; [congruence|congruence|congruence|by eexists; apply A8|]. destruct Hc as [[-> Hc]| ->]; [left|by right]. split_and!; try congruence.
  - eexists _, l1. split; [done|]. split_and!; try done; [by eexists|by right].
Qed.

(** C14: Changing the rate of an open link returns, and keeps its references.  OK for a new rate: the
    host is open at it and the module runs at it, whatever the module made of the request: it has
    answered there.  UNCHANGED: the host is open at the old rate; the module is as it was, or
    it has answered at the old rate, or it has switched and its answer was lost.  DEAD: the module
    was alive at the old rate when the change began, and runs at one of the two rates now. *)
Theorem rtl_link_set_rate_correct baud l : link_ok false l -> g_uart_refs l <> 0 -> g_uart_baud l = g_erpc_baud l -> is_u32 (g_erpc_baud l) ->
  exists rc l', rtl_link_set_rate baud l = Some (rc, l') /\ g_uart_refs l' = g_uart_refs l /\ g_uart_gen l' = g_uart_gen l /\
    (rc = RTL_RATE_OK -> baud = g_erpc_baud l /\ l' = l \/
       rtl_link_rate_supported baud = true /\ port (sess l') = Some (g_uart_which l') /\ rate (sess l') = baud /\ peer_rate (sess l') = baud /\ g_erpc_baud l' = baud) /\
    (rc = RTL_RATE_UNCHANGED -> port (sess l') = Some (g_uart_which l') /\ rate (sess l') = g_erpc_baud l /\ g_erpc_baud l' = g_erpc_baud l /\
       (peer_rate (sess l') = g_erpc_baud l \/ peer_rate (sess l') = peer_rate (sess l) \/ peer_rate (sess l) = g_erpc_baud l /\ peer_rate (sess l') = baud)) /\
    (rc = RTL_RATE_DEAD -> peer_rate (sess l) = g_erpc_baud l /\ (peer_rate (sess l') = g_erpc_baud l \/ peer_rate (sess l') = baud)) /\
    (rc = RTL_RATE_OK \/ rc = RTL_RATE_UNCHANGED \/ rc = RTL_RATE_DEAD).
Proof.
  intros Hok Hne Hsame Hold. destruct (lo_open _ _ Hok Hne eq_refl) as [Hport Hrate]. unfold rtl_link_set_rate.
  destruct (Z.eqb_spec baud (g_erpc_baud l)) as [->|Hb].
  { eexists _, l. split; [done|]. split_and!; try done; [by left|by left]. }
  destruct (rtl_link_rate_supported baud) eqn:Esup; cbn [negb].
  2:{ eexists _, l. split; [done|]. split_and!; try done; [|by right; left]. intros _. split_and!; try congruence. by right; left. }
  assert (Hu : is_u32 baud) by by apply supported_u32.
  destruct (setbaud_spec baud l Hu (lo_sess _ _ Hok)) as (rc1 & l1 & -> & Hl1 & Hs1 & Hc1 & Hp1). pose proof Hl1 as [A1 A2 A3 A4 A5 A6 A7 A8].
  destruct Hc1 as [(-> & Hm)| ->]; cbn [Z.eqb negb].
  2:{ eexists _, l1. split; [done|]. split_and!; try done; [|by right; left]. intros _. split_and!; try congruence. destruct Hp1 as [?|[? ?]]; [by right; left|]. right. right. split; congruence. }
  assert (Hm0 : peer_rate (sess l) = g_erpc_baud l) by congruence. assert (Hm1 : peer_rate (sess l1) = g_erpc_baud l \/ peer_rate (sess l1) = baud) by (destruct Hp1 as [?|[? ?]]; [left; congruence|by right]).
  destruct (switch_spec false baud l1 (A8 _ Hok) ltac:(congruence)) as (rc2 & l2 & -> & Hp2 & Hn2 & Hg2 & (bk & Hok2) & Hc2). cbn [mbind option_bind].
  destruct Hc2 as [(-> & B1 & B2 & B3 & B4 & B5)| ->]; cbn [Z.eqb].
  { eexists _, l2. split; [done|]. split; [congruence|]. split; [congruence|]. split; [intros _; right; split_and!; congruence|]. split; [done|]. split; [done|by left]. }
  destruct (setbaud_spec (g_erpc_baud l) l2 Hold (lo_sess _ _ Hok2)) as (rc3 & l3 & -> & Hl3 & Hs3 & Hc3 & Hp3). pose proof Hl3 as [C1 C2 C3 C4 C5 C6 C7 C8].
  assert (Hm3 : peer_rate (sess l3) = g_erpc_baud l \/ peer_rate (sess l3) = baud) by (destruct Hp3 as [E|[_ ?]]; [rewrite E, Hp2|left]; done).
  destruct Hc3 as [(-> & _)| ->]; cbn [Z.eqb negb].
  2:{ eexists _, l3. split; [done|]. split; [congruence|]. split; [congruence|]. split; [done|]. split; [done|]. split; [done|by right; right]. }
  destruct (switch_spec bk (g_erpc_baud l) l3 (C8 _ Hok2) ltac:(congruence)) as (rc4 & l4 & -> & Hp4 & Hn4 & Hg4 & _ & Hc4). cbn [mbind option_bind].
  destruct Hc4 as [(-> & D1 & D2 & D3 & D4 & D5)| ->]; cbn [Z.eqb].
  - eexists _, l4. split; [done|]. split; [congruence|]. split; [congruence|]. split; [done|]. split; [|split; [done|by right; left]]. intros _. split_and!; try congruence. left. congruence.
  - eexists _, l4. split; [done|]. split; [congruence|]. split; [congruence|]. split; [done|]. split; [done|]. split; [intros _; by rewrite Hp4|by right; right].
Qed.
End rate.

(** ** The service thread and the UART as a session *)

Section svc_session.
Context {consumer : Type} (base : Z) (hw hw' : nat -> look) (thread : bool) (now now' : Z) (ack : bool).
Context (clock : thread = true -> clock_ok hw 0 0) (clock' : thread = true -> clock_ok hw' 0 0).

#[local] Instance uart_inst : Uart driver := rtl8720_uart hw thread now.
#[local] Instance uart_laws : UartLaws driver := rtl8720_laws hw thread now.

(** With the rate the open port was asked for, which the hardware holds as a divider. *)
Definition svc_on : Type := @svc driver consumer * Z.

Definition on_uart (u : driver) (s : svc_on) : svc_on := (ErpcReader.set_un u (fst s), snd s).

(** A frame of the data channel is not half received, as when nothing is being read;
    the channel's buffers are in order. *)
Record svc_session_ok (s : svc_on) : Prop := {
  ss_svc : svc_ok (fst s);
  ss_reader : rx_dst (rd (fst s)) = None \/ rx_is_data (rd (fst s)) = false;
  ss_link : exists S R K g v c qt qr, LinkData.inv (LinkData.World (lk (fst s)) S R K g v) c qt qr;
}.

(** A C caller can only ask with an enumerator and a [uint32_t]. *)
Definition svc_open (w b : Z) (s : svc_on) : option (Z * svc_on) :=
  if decide (0 <= w /\ is_u32 b) then
    '(rc, u) ← rtl8720_uart_open hw hw' thread now now' ack w b (un (fst s));
    Some (rc, (ErpcReader.set_un u (fst s), if rc =? 0 then b else snd s))
  else Some (-1, s).

#[export] Instance svc_session : Session svc_on := {|
  port s := rtl_uart (un (fst s));
  rate := snd;
  can_open w b := (0 <=? w) && (w <=? 1) && (2099 <=? b) && (b <=? 8870967);
  s_open := svc_open;
  s_close s := u ← rtl8720_uart_close hw thread now (un (fst s)); Some (on_uart u s);
  link_opened c s := s' ← erpc_link_opened base c (fst s); Some (s', snd s);
  link_closed s := s' ← erpc_link_closed base (fst s); Some (s', snd s);
  set_module_gen g s := (ErpcReader.set_rc (erpc_set_module_gen g (rc (fst s))) (fst s), snd s);
  session_ok := svc_session_ok;
|}.

Lemma flush_total fuel budget (u : driver) : uart_ok u -> 0 <= budget < Z.of_nat fuel -> exists u', flush_loop fuel budget u = Some u' /\ uart_ok u' /\ rtl_uart u' = rtl_uart u.
Proof.
  revert budget u. induction fuel as [|fuel IH]; intros budget u Hu Hb; [lia|]. cbn [flush_loop]. destruct (Z.eqb_spec budget 0); [by exists u|].
  destruct (uart_read_spec 64 u Hu ltac:(lia)) as (u1 & E & _ & _ & Hu1).
  assert (Hp : rtl_uart u1 = rtl_uart u).
  { cbn in E. unfold rtl8720_uart_read in E. destruct (read_loop _ _ _ _) as [[d t]|]; [|done]. cbn in E. by simplify_eq. }
  rewrite E. cbn [mbind option_bind]. set (r := Z.of_nat (length (take (Z.to_nat 64) (pending u)))). destruct (Z.eqb_spec r 0); [by exists u1|].
  destruct (IH (budget - (if budget <? r then budget else r)) u1 Hu1) as (u2 & -> & Hu2 & Hp2); [destruct (Z.ltb_spec budget r); lia|]. exists u2. by rewrite Hp2.
Qed.

Lemma stream_reset_total (s : @svc driver consumer) : svc_ok s -> rx_dst (rd s) = None \/ rx_is_data (rd s) = false ->
  exists s', erpc_stream_reset_locked base s = Some s' /\ svc_ok s' /\ rx_dst (rd s') = None /\ lk s' = lk s /\ rtl_uart (un s') = rtl_uart (un s).
Proof.
  intros Hs Hd. unfold erpc_stream_reset_locked, erpc_rx_flush. destruct (flush_total (S (Z.to_nat ERPC_RX_SCRATCH)) ERPC_RX_SCRATCH (un s) (so_uart _ Hs)) as (u & -> & Hu & Hp); [unfold ERPC_RX_SCRATCH; lia|].
  cbn [mbind option_bind]. assert (Hs1 : svc_ok (ErpcReader.set_un u s)) by (destruct Hs; by split).
  destruct (reset_spec base (ErpcReader.set_un u s) Hd Hs1) as (s2 & E & Hi & Hs2 & _ & Hl & Hu2). rewrite E. cbn [mbind option_bind]. eexists. split; [done|]. split_and!.
  - destruct Hs2. by split.
  - cbn. apply Hi.
  - by cbn; rewrite Hl.
  - cbn. by rewrite Hu2.
Qed.

#[export] Instance svc_session_laws : SessionLaws svc_on.
Proof.
  split.
  - intros w b [s b0] [Hs Hd Hl]. cbn [s_open svc_session svc_open fst snd] in *. unfold svc_open. cbn [fst snd] in *. destruct (decide _) as [[Hw Hb]|]; [|exists (-1), (s, b0); split_and!; try done; by split].
    destruct (so_uart _ Hs) as (rq & tq & Hr). destruct (uart_open_spec hw hw' thread now now' ack w b _ rq tq Hr Hw Hb (fun e => conj (clock e) (clock' e))) as (rc & u & E & Hin & Hout).
    rewrite E. cbn [mbind option_bind]. eexists rc, _. split; [done|].
    destruct (decide (w <= 1 /\ 2099 <= b <= 8870967)) as [[H1 H2]|Hno].
    + destruct (Hin H1 H2) as (rq' & tq' & Hr' & Hack & Hnack). split; [split; [destruct Hs; split; [by exists rq', tq'|done..]|done|done]|]. destruct ack.
      * destruct (Hack eq_refl) as (-> & _ & _ & Hp & _). cbn [fst snd port rate can_open svc_session Z.eqb]. split; [|done]. intros _. split_and!; [lia|done|done].
      * destruct (Hnack eq_refl) as (-> & Hp). split; [done|]. intros _ _. exact Hp.
    + destruct (Hout Hno) as [-> ->]. split; [split; [destruct Hs; split; [by exists rq, tq|done..]|done|done]|]. split; [done|]. intros _ Hp. exact Hp.
  - intros [s b0] [Hs Hd Hl]. cbn [fst snd] in *. destruct (so_uart _ Hs) as (rq & tq & Hr). destruct (uart_close_spec hw thread now _ rq tq Hr clock) as (u & rq' & tq' & E & Hr' & Hp & _).
    cbn [s_close svc_session fst snd]. rewrite E. cbn [mbind option_bind]. eexists. split; [done|]. split; [|exact Hp]. split; [destruct Hs; split; [by exists rq', tq'|done..]|done|done].
  - intros c [s b0] [Hs Hd (S & R & K & g & v & ch & qt & qr & Hi)]. cbn [fst snd] in *. cbn [link_opened svc_session fst snd]. unfold erpc_link_opened.
    destruct (stream_reset_total (ErpcReader.set_rc (erpc_debt_reset (rc s)) s)) as (s1 & E1 & Hs1 & Hd1 & Hl1 & Hp1); [destruct Hs; by split|done|]. rewrite E1. cbn [mbind option_bind].
    cbn [lk ErpcReader.set_rc] in Hl1. rewrite Hl1. destruct (reset_step _ _ _ _ _ _ _ _ _ Hi) as (l1 & -> & _ & qt1 & qr1 & Hi1). cbn [mbind option_bind].
    eexists. split; [done|]. split; [split; cbn; [destruct Hs1; by split|by left|by eexists S, R, K, (g + 1), v, _, qt1, qr1]|]. done.
  - intros [s b0] [Hs Hd (S & R & K & g & v & ch & qt & qr & Hi)]. cbn [fst snd] in *. cbn [link_closed svc_session fst snd]. unfold erpc_link_closed, erpc_abandon_all.
    destruct (reset_spec base s Hd Hs) as (s1 & -> & Hidle & Hs1 & _ & Hl1 & Hu1). cbn [mbind option_bind]. rewrite Hl1.
    destruct (reset_step _ _ _ _ _ _ _ _ _ Hi) as (l1 & -> & _ & qt1 & qr1 & Hi1). cbn [mbind option_bind].
    match goal with |- context [erpc_stream_reset_locked base ?x] => destruct (stream_reset_total x) as (s2 & E2 & Hs2 & Hd2 & Hl2 & Hp2) end; [destruct Hs1; by split|left; apply Hidle|].
    rewrite E2. cbn [mbind option_bind]. eexists. split; [done|]. split; [split; cbn; [done|by left|rewrite Hl2; by eexists S, R, K, (g + 1), v, _, qt1, qr1]|].
    cbn [port rate svc_session fst snd]. rewrite Hp2. cbn. by rewrite Hu1.
  - intros g [s b0] [Hs Hd Hl]. split; [|done]. split; cbn in *; try done. destruct Hs; by split.
Qed.
End svc_session.

(** ** Runs *)

Module LinkRun.

(** A port that always opens, and a module that hears whatever is sent at its rate; [t_lost]: how
    many exchanges from now the module's answer is lost. *)
Record toy : Type := Toy { t_port : option Z; t_rate : Z; t_peer : Z; t_lost : option nat }.

#[export] Instance toy_session : Session toy := {|
  port := t_port; rate := t_rate; can_open _ _ := true;
  s_open w b s := Some (0, Toy (Some w) b (t_peer s) (t_lost s));
  s_close s := Some (Toy None (t_rate s) (t_peer s) (t_lost s));
  link_opened _ s := Some s; link_closed s := Some s; set_module_gen _ s := s; session_ok _ := True;
|}.
#[export] Instance toy_laws : SessionLaws toy.
Proof. split; intros; eexists || (by split); cbn; try (by eexists); by split_and!. Qed.

Definition hears (s : toy) : bool := bool_decide (t_port s <> None) && (t_rate s =? t_peer s).
#[export] Instance toy_peer : Peer toy := {|
  peer_rate := t_peer;
  ctrl_call cmd req s :=
    if hears s then
      (if bool_decide (t_lost s = Some 0%nat) then -2 else 0,
       Toy (t_port s) (t_rate s) (if cmd =? ERPC_CTRL_SETBAUD then get32 req else t_peer s) (match t_lost s with Some (S n) => Some n | _ => None end))
    else (-2, s);
|}.
#[export] Instance toy_peer_laws : PeerLaws toy.
Proof.
  split; cbn -[get32 setbaud_body]; try (by intros; simplify_eq).
  - intros cmd req s _. by destruct (hears s).
  - intros cmd req s. unfold hears. destruct (bool_decide_reflect (t_port s <> None)); cbn; [|lia]. destruct (Z.eqb_spec (t_rate s) (t_peer s)); cbn; [done|lia].
  - intros s. by destruct (hears s).
  - intros b s Hb. unfold hears. destruct (bool_decide (t_port s <> None)); cbn -[get32 setbaud_body]; [|by left]. destruct (Z.eqb_spec (t_rate s) (t_peer s)); cbn -[get32 setbaud_body]; [|by left].
    right. split; [done|]. unfold setbaud_body. by rewrite get32_le32.
Qed.

Definition off : toy := Toy None 0 RTL_ERPC_BAUD_DEFAULT None.
Definition held (lost : option nat) : link_state toy := Link 1 RTL8720_UART_AT 2000000 2 0 0 2000000 false (Toy (Some RTL8720_UART_AT) 2000000 2000000 lost).

Lemma held_ok lost : link_ok false (held lost).
Proof. by split. Qed.

(** A resident takes the link, a recovery takes it away, a command opens it again; the resident
    still has its reference to drop. *)
Lemma rtl_link_refs_witness : exists w l', rtc refs_step (refs0 off) w /\ residents w = [2] /\ g_uart_gen (lk_ w) = 4 /\ g_uart_refs (lk_ w) = 1 /\
  rtl_link_uart_unref_gen 2 (lk_ w) = Some l' /\ l' = lk_ w.
Proof.
  eexists. assert (Hr : rtc refs_step (refs0 off) (RefsWorld (Link 1 RTL8720_UART_AT 2000000 4 1 1 2000000 false (Toy (Some RTL8720_UART_AT) 2000000 2000000 None)) true [2] false)).
  { eapply rtc_l; [by apply (st_take _ _ _ RTL8720_UART_AT 2000000)|]. eapply rtc_l; [by apply st_quiesce|]. eapply rtc_l; [by apply (st_begin _ _ _ RTL8720_UART_AT 2000000 0)|]. constructor. }
  destruct (rtl_link_refs (HS := toy_session) off _ I eq_refl Hr) as (_ & _ & _ & Hdrop). destruct (Hdrop 2 ltac:(left)) as (l' & E & Hsame & _).
  exists l'. split; [exact Hr|]. split_and!; try reflexivity; [exact E|by apply Hsame].
Defined.

Lemma rtl_link_set_rate_witness : exists l', rtl_link_set_rate 6000000 (held None) = Some (RTL_RATE_OK, l') /\ rate (sess l') = 6000000 /\ peer_rate (sess l') = 6000000.
Proof.
  destruct (rtl_link_set_rate_correct 6000000 (held None) (held_ok None) ltac:(done) eq_refl ltac:(done)) as (rc & l' & E & _ & _ & Hok & _).
  assert (Hrc : fst <$> rtl_link_set_rate 6000000 (held None) = Some RTL_RATE_OK) by (vm_compute; reflexivity).
  rewrite E in Hrc. cbn in Hrc. injection Hrc as Hrc. exists l'. rewrite E, Hrc. split; [reflexivity|]. destruct (Hok Hrc) as [[? _]|(_ & _ & ? & ? & _)]; [discriminate|split; assumption].
Defined.

(** The answer to the change of rate is lost on the way: the module has switched, the host takes
    UNCHANGED for an answer and stays, and from then on neither hears the other. *)
Theorem lost_ack_splits : exists l', link_ok false (held (Some 1%nat)) /\ rtl_link_set_rate 6000000 (held (Some 1%nat)) = Some (RTL_RATE_UNCHANGED, l') /\
  rate (sess l') = 2000000 /\ peer_rate (sess l') = 6000000 /\ fst (rl_ping l') < 0.
Proof. eexists. split; [by split|]. split; [vm_compute; reflexivity|]. split; [reflexivity|]. split; [reflexivity|]. vm_compute. reflexivity. Qed.
End LinkRun.
