(* ===== verification/Jobs.v ===== *)
(** * Background jobs ([src/shell/core/cli_job.c])

    [cmd &] runs in a worker thread of a fixed pool.  Several threads launch, reap,
    list and kill at once; what they share is the slot table and the registry
    that maps threads to shell instances ([src/shell/core/cli_core.c]).  A step of the
    world is one section under [TX_DISABLE], or one access outside of it, by any thread. *)

From stdpp Require Import relations.
From S2P Require Import Prelude.
Local Open Scope Z_scope.

Definition CLI_MAX_BG_JOBS : nat := 2.
Definition CLI_MAX_INSTANCES : nat := 4.
Definition CLI_THREAD_MAP_MAX : nat := CLI_MAX_INSTANCES + CLI_MAX_BG_JOBS.
Definition CLI_JOB_LABEL_MAX : nat := 40.
(** [CLI_CMD_BUFFER_SIZE - 1]. *)
Definition job_line_max : nat := 255.

(** ** The registry *)

(** The threads that own an instance: the workers, by slot, and the instances' own. *)
Inductive thread : Type := W (slot : nat) | F (instance : nat).
#[export] Instance thread_eq : EqDecision thread.
Proof. solve_decision. Defined.

(** An instance is named by the thread it contains; [None]: [.sh == NULL]. *)
Definition registry : Type := list (option (thread * thread)).

Fixpoint register_loop (t sh : thread) (r : registry) : option registry :=
  match r with
  | [] => None
  | None :: r => Some (Some (t, sh) :: r)
  | e :: r => cons e <$> register_loop t sh r
  end.
(** 0, or -1 when the table is full. *)
Definition cli_register_thread (t sh : thread) (r : registry) : Z * registry :=
  match register_loop t sh r with Some r => (0, r) | None => (-1, r) end.

Fixpoint cli_unregister_thread (t : thread) (r : registry) : registry :=
  match r with
  | [] => []
  | Some (t', sh) :: r => if decide (t' = t) then None :: r else Some (t', sh) :: cli_unregister_thread t r
  | None :: r => None :: cli_unregister_thread t r
  end.

Fixpoint cli_current_instance (t : thread) (r : registry) : option thread :=
  match r with
  | [] => None
  | Some (t', sh) :: r => if decide (t' = t) then Some sh else cli_current_instance t r
  | None :: r => cli_current_instance t r
  end.

(** ** The slots *)

Inductive cli_job_state : Type := CLI_JOB_FREE | CLI_JOB_LAUNCHING | CLI_JOB_RUNNING | CLI_JOB_REAPING.
#[export] Instance cli_job_state_eq : EqDecision cli_job_state.
Proof. solve_decision. Defined.

(** A slot's thread: not created, in its command, past [cli_unregister_thread] in its
    entry, completed. *)
Inductive wstate : Type := T_none | T_live | T_leaving | T_completed.
#[export] Instance wstate_eq : EqDecision wstate.
Proof. solve_decision. Defined.

(** [line], [fg], [cancel_req], [kill_evt]: the fields of the worker's instance that
    its command reads.  Two fields are not in the code: the number of the launch that
    holds the slot, and whether its worker is created and not yet announced. *)
Record cli_job : Type := Job {
  state : cli_job_state; id : Z; evt_ok : bool; label : list Z;
  line : list Z; fg : nat; cancel_req : bool; kill_evt : bool;
  worker : wstate; launch : Z; owed : bool;
}.
Definition set_state (s : cli_job_state) (j : cli_job) : cli_job := Job s (id j) (evt_ok j) (label j) (line j) (fg j) (cancel_req j) (kill_evt j) (worker j) (launch j) (owed j).
Definition set_id (n : Z) (j : cli_job) : cli_job := Job (state j) n (evt_ok j) (label j) (line j) (fg j) (cancel_req j) (kill_evt j) (worker j) (launch j) (owed j).
Definition reserve (n : Z) (j : cli_job) : cli_job := Job CLI_JOB_LAUNCHING (id j) (evt_ok j) (label j) (line j) (fg j) (cancel_req j) (kill_evt j) (worker j) n (owed j).
Definition set_worker (w : wstate) (j : cli_job) : cli_job := Job (state j) (id j) (evt_ok j) (label j) (line j) (fg j) (cancel_req j) (kill_evt j) w (launch j) (owed j).
Definition set_owed (b : bool) (j : cli_job) : cli_job := Job (state j) (id j) (evt_ok j) (label j) (line j) (fg j) (cancel_req j) (kill_evt j) (worker j) (launch j) b.
Definition latch (j : cli_job) : cli_job := Job (state j) (id j) (evt_ok j) (label j) (line j) (fg j) true true (worker j) (launch j) (owed j).
(** The label and [cli_job_inst_reset]; a segment is a string without its NUL. *)
Definition cli_job_inst_reset (a : nat) (seg : list Z) (j : cli_job) : cli_job :=
  Job (state j) (id j) (evt_ok j) (label j) (take job_line_max seg) a false false (worker j) (launch j) (owed j).
Definition set_label (seg : list Z) (j : cli_job) : cli_job :=
  Job (state j) (id j) (evt_ok j) (take (CLI_JOB_LABEL_MAX - 1) seg) (line j) (fg j) (cancel_req j) (kill_evt j) (worker j) (launch j) (owed j).

(** What is printed, on the terminal of [a]; a done notice carries the launch too. *)
Inductive notice : Type :=
  | N_done (a : nat) (id : Z) (label : list Z) (launch : Z)
  | N_started (a : nat) (id : Z) (label : list Z)
  | N_running (a : nat) (id : Z) (label : list Z)
  | N_no_jobs (a : nat) | N_too_many (a : nat) | N_table_full (a : nat) | N_not_started (a : nat).

(** [cli_job_next_id] is the low 32 bits of the count of the launches; [made]: the
    launches that got their worker; [failed]: those ThreadX refused one. *)
Record pool : Type := Pool { cli_jobs : list cli_job; cli_job_next_id : Z; reg : registry; out : list notice; launches : Z; made : list Z; failed : nat }.

Definition upd (i : nat) (f : cli_job -> cli_job) (s : pool) : pool := Pool (alter f i (cli_jobs s)) (cli_job_next_id s) (reg s) (out s) (launches s) (made s) (failed s).
Definition set_reg (r : registry) (s : pool) : pool := Pool (cli_jobs s) (cli_job_next_id s) r (out s) (launches s) (made s) (failed s).
Definition print (n : notice) (s : pool) : pool := Pool (cli_jobs s) (cli_job_next_id s) (reg s) (out s ++ [n]) (launches s) (made s) (failed s).
Definition next_id (s : pool) : pool := Pool (cli_jobs s) (cli_job_next_id s +% 1) (reg s) (out s) (launches s + 1) (made s) (failed s).
Definition add_made (n : Z) (s : pool) : pool := Pool (cli_jobs s) (cli_job_next_id s) (reg s) (out s) (launches s) (made s ++ [n]) (failed s).
Definition add_failed (s : pool) : pool := Pool (cli_jobs s) (cli_job_next_id s) (reg s) (out s) (launches s) (made s) (S (failed s)).

(** ** Threads inside an operation *)

(** Why a launch is undone. *)
Inductive refusal : Type := R_table | R_thread.
Definition refusal_notice (e : refusal) (a : nat) : notice := match e with R_table => N_table_full a | R_thread => N_not_started a end.

(** What follows a reaping pass. *)
Inductive after : Type := K_return | K_launch (seg : list Z) | K_list.

(** The next access of a thread; [P_idle] holds the last result. *)
Inductive pc : Type :=
  | P_idle (rc : Z)
  | P_reap (i : nat) (k : after)
  | P_reap_unregister (i : nat) (k : after) | P_delete (i : nat) (k : after) | P_announce (i : nat) (k : after)
  | P_clear_id (i : nat) (k : after) | P_free (i : nat) (k : after)
  | P_claim (seg : list Z)
  | P_set_id (i : nat) (n : Z) (seg : list Z) | P_label (i : nat) (seg : list Z) | P_reset (i : nat) (seg : list Z)
  | P_register (i : nat) | P_create (i : nat)
  | P_unregister (i : nat) | P_undo_state (i : nat) (e : refusal) | P_undo_id (i : nat) (e : refusal)
  | P_publish (i : nat) | P_started (i : nat)
  | P_list (i : nat) (n : nat) | P_listed (i : nat) (n : nat)
  | P_kill (i : nat) (id : Z).

Definition cli_seg_blank (seg : list Z) : bool := forallb (fun c => (c =? 32) || (c =? 9)) seg.

(** The head of [cli_jobs_reap]'s loop. *)
Definition reap_from (i : nat) (k : after) : pc :=
  if (i <? CLI_MAX_BG_JOBS)%nat then P_reap i k
  else match k with K_return => P_idle 0 | K_launch seg => if cli_seg_blank seg then P_idle 0 else P_claim seg | K_list => P_list 0 0 end.

Inductive op : Type := O_reap | O_launch (seg : list Z) | O_list | O_kill (id : Z).
Definition enter (o : op) : pc :=
  match o with O_reap => reap_from 0 K_return | O_launch seg => reap_from 0 (K_launch seg) | O_list => reap_from 0 K_list | O_kill id => P_kill 0 id end.

Definition claimable (j : cli_job) : bool := bool_decide (state j = CLI_JOB_FREE) && evt_ok j.
Fixpoint find_slot (i : nat) (js : list cli_job) : option nat :=
  match js with [] => None | j :: js => if claimable j then Some i else find_slot (S i) js end.

(** One access of thread [a].  [ok]: what [tx_thread_create] answers; it refuses a
    control block that is already a thread. *)
Definition access (a : nat) (ok : bool) (p : pc) (s : pool) : option (pc * pool) :=
  match p with
  | P_idle _ => None
  | P_reap i k =>
      j ← cli_jobs s !! i;
      Some (if bool_decide (state j = CLI_JOB_RUNNING) && bool_decide (worker j = T_completed)
            then (P_reap_unregister i k, upd i (set_state CLI_JOB_REAPING) s) else (reap_from (S i) k, s))
  | P_reap_unregister i k => Some (P_delete i k, set_reg (cli_unregister_thread (W i) (reg s)) s)
  | P_delete i k =>
      j ← cli_jobs s !! i;
      Some (P_announce i k, if bool_decide (worker j = T_completed) then upd i (set_worker T_none) s else s)
  | P_announce i k => j ← cli_jobs s !! i; Some (P_clear_id i k, print (N_done a (id j) (label j) (launch j)) (upd i (set_owed false) s))
  | P_clear_id i k => Some (P_free i k, upd i (set_id 0) s)
  | P_free i k => Some (reap_from (S i) k, upd i (set_state CLI_JOB_FREE) s)
  | P_claim seg =>
      match find_slot 0 (cli_jobs s) with
      | Some i => Some (P_set_id i (cli_job_next_id s) seg, next_id (upd i (reserve (launches s)) s))
      | None => Some (P_idle (-1), print (N_too_many a) s)
      end
  | P_set_id i n seg => Some (P_label i seg, upd i (set_id n) s)
  | P_label i seg => Some (P_reset i seg, upd i (set_label seg) s)
  | P_reset i seg => Some (P_register i, upd i (cli_job_inst_reset a seg) s)
  | P_register i =>
      let (rc, r) := cli_register_thread (W i) (W i) (reg s) in
      Some (if rc =? 0 then P_create i else P_undo_state i R_table, set_reg r s)
  | P_create i =>
      j ← cli_jobs s !! i;
      Some (if ok && bool_decide (worker j = T_none) then (P_publish i, add_made (launch j) (upd i (set_owed true) (upd i (set_worker T_live) s)))
            else (P_unregister i, s))
  | P_unregister i => Some (P_undo_state i R_thread, set_reg (cli_unregister_thread (W i) (reg s)) s)
  | P_undo_state i e => Some (P_undo_id i e, add_failed (upd i (set_state CLI_JOB_FREE) s))
  | P_undo_id i e => Some (P_idle (-1), print (refusal_notice e a) (upd i (set_id 0) s))
  | P_publish i => Some (P_started i, upd i (set_state CLI_JOB_RUNNING) s)
  | P_started i => j ← cli_jobs s !! i; Some (P_idle 0, print (N_started a (id j) (label j)) s)
  | P_list i n =>
      if (i <? CLI_MAX_BG_JOBS)%nat then
        j ← cli_jobs s !! i; Some (if bool_decide (state j = CLI_JOB_RUNNING) then P_listed i n else P_list (S i) n, s)
      else Some (P_idle 0, if (n =? 0)%nat then print (N_no_jobs a) s else s)
  | P_listed i n => j ← cli_jobs s !! i; Some (P_list (S i) (S n), print (N_running a (id j) (label j)) s)
  | P_kill i id' =>
      if (i <? CLI_MAX_BG_JOBS)%nat then
        j ← cli_jobs s !! i;
        Some (if bool_decide (state j = CLI_JOB_RUNNING) && (id j =? id') then (P_idle 0, upd i latch s) else (P_kill (S i) id', s))
      else Some (P_idle (-1), s)
  end.

(** ** The world *)

(** [threads]: the threads that call the operations. *)
Record world : Type := World { shared : pool; threads : list pc }.

(** A call, an access, a worker's two last steps, an instance's thread starting or
    stopping. *)
Inductive move : Type := M_call (a : nat) (o : op) | M_go (a : nat) (ok : bool) | M_exit (i : nat) | M_complete (i : nat) | M_start (f : nat) | M_stop (f : nat).

Definition next (m : move) (w : world) : option world :=
  let s := shared w in
  match m with
  | M_call a o => p ← threads w !! a; match p with P_idle _ => Some (World s (<[a := enter o]> (threads w))) | _ => None end
  | M_go a ok => p ← threads w !! a; '(p, s) ← access a ok p s; Some (World s (<[a := p]> (threads w)))
  | M_exit i => j ← cli_jobs s !! i; guard (worker j = T_live);; Some (World (set_reg (cli_unregister_thread (W i) (reg s)) (upd i (set_worker T_leaving) s)) (threads w))
  | M_complete i => j ← cli_jobs s !! i; guard (worker j = T_leaving);; Some (World (upd i (set_worker T_completed) s) (threads w))
  | M_start f =>
      guard (f < CLI_MAX_INSTANCES /\ cli_current_instance (F f) (reg s) = None)%nat;;
      Some (World (set_reg (snd (cli_register_thread (F f) (F f) (reg s))) s) (threads w))
  | M_stop f => Some (World (set_reg (cli_unregister_thread (F f) (reg s)) s) (threads w))
  end.
Definition step (w w' : world) : Prop := exists m, next m w = Some w'.

(** [cli_job_pool_init]: [evts], whether each event group could be created. *)
Definition cli_job_pool_init (evts : list bool) : list cli_job := (fun e => Job CLI_JOB_FREE 0 e [] [] 0 false false T_none 0 false) <$> take CLI_MAX_BG_JOBS evts.
Definition start (evts : list bool) (n : nat) : world :=
  World (Pool (cli_job_pool_init evts) 1 (replicate CLI_THREAD_MAP_MAX None) [] 1 [] 0) (replicate n (P_idle 0)).
Definition reachable (w : world) : Prop := exists evts n, length evts = CLI_MAX_BG_JOBS /\ rtc step (start evts n) w.

(** ** The registry *)

Notation keys r := (fst <$> omap (fun e : option (thread * thread) => e) r).
Definition valid_thread (t : thread) : Prop := match t with W i => (i < CLI_MAX_BG_JOBS)%nat | F f => (f < CLI_MAX_INSTANCES)%nat end.
Definition registered (t : thread) (r : registry) : bool := bool_decide (t ∈ keys r).

(** Each thread once, with its own instance. *)
Record registry_ok (r : registry) : Prop := {
  ro_length : length r = CLI_THREAD_MAP_MAX;
  ro_nodup : NoDup (keys r);
  ro_valid : forall t, t ∈ keys r -> valid_thread t;
  ro_own : forall t sh, Some (t, sh) ∈ r -> sh = t;
}.

Lemma keys_cons t sh r : keys (Some (t, sh) :: r) = t :: keys r.
Proof. done. Qed.

Lemma register_loop_Some t sh r r' : register_loop t sh r = Some r' -> keys r' ≡ₚ t :: keys r /\ length r' = length r /\ (forall t' sh', Some (t', sh') ∈ r' -> (t', sh') = (t, sh) \/ Some (t', sh') ∈ r).
Proof.
  revert r'. induction r as [|[[k x]|] r IH]; intros r' E; cbn [register_loop] in E; [done| |].
  - destruct (register_loop t sh r) as [r1|]; [|done]. cbn in E. injection E as <-. destruct (IH _ eq_refl) as (H1 & H2 & H3). rewrite !keys_cons, H1. split_and!; [constructor|cbn; lia|].
    intros t' sh' [H|H]%elem_of_cons; [right; rewrite H; left|]. destruct (H3 _ _ H); [by left|right; by right].
  - injection E as <-. rewrite keys_cons. split_and!; [done..|]. intros t' sh' [H|H]%elem_of_cons; [left; congruence|right; by right].
Qed.

Lemma register_loop_None t sh r : register_loop t sh r = None -> length (keys r) = length r.
Proof.
  induction r as [|[[k x]|] r IH]; cbn [register_loop]; intros E; [done| |done]. destruct (register_loop t sh r); [done|].
  rewrite keys_cons. cbn [length]. by rewrite IH.
Qed.

Definition all_threads : list thread := (W <$> seq 0 CLI_MAX_BG_JOBS) ++ (F <$> seq 0 CLI_MAX_INSTANCES).
Lemma valid_all t : valid_thread t -> t ∈ all_threads.
Proof.
  unfold all_threads. rewrite elem_of_app, !list_elem_of_fmap. destruct t as [i|f]; cbn [valid_thread]; intros H; [left; exists i|right; exists f]; (split; [done|]); apply elem_of_seq; lia.
Qed.

(** Every thread that may be there has its entry to go to. *)
Lemma registry_room r t : registry_ok r -> valid_thread t -> t ∉ keys r -> register_loop t t r <> None.
Proof.
  intros [Hl Hn Hv _] Ht Hni E. apply register_loop_None in E.
  assert (Hsub : t :: keys r ⊆+ all_threads).
  { apply NoDup_submseteq; [by constructor|]. intros x [->|Hx%Hv]%elem_of_cons; by apply valid_all. }
  apply submseteq_length in Hsub. cbn [length] in Hsub. rewrite E, Hl in Hsub. vm_compute in Hsub. lia.
Qed.

Lemma register_spec r t : registry_ok r -> valid_thread t -> t ∉ keys r ->
  exists r', cli_register_thread t t r = (0, r') /\ registry_ok r' /\ forall x, registered x r' = bool_decide (x = t) || registered x r.
Proof.
  intros Hr Ht Hni. unfold cli_register_thread. destruct (register_loop t t r) as [r'|] eqn:E; [|by destruct (registry_room r t Hr Ht Hni)].
  exists r'. split; [done|]. apply register_loop_Some in E as (Hk & Hl & Ho). destruct Hr as [L N V O]. split.
  - split; [by rewrite Hl|rewrite Hk; by constructor| |].
    + intros x. rewrite Hk. intros [->|H]%elem_of_cons; auto.
    + intros x sh H. destruct (Ho _ _ H); [congruence|auto].
  - intros x. unfold registered. rewrite <-bool_decide_or. apply bool_decide_ext. by rewrite Hk, elem_of_cons.
Qed.

Lemma keys_app r1 r2 : keys (r1 ++ r2) = keys r1 ++ keys r2.
Proof. by rewrite omap_app, fmap_app. Qed.

Lemma unregister_eq t r : t ∉ keys r /\ cli_unregister_thread t r = r \/
  exists r1 sh r2, t ∉ keys r1 /\ r = r1 ++ Some (t, sh) :: r2 /\ cli_unregister_thread t r = r1 ++ None :: r2.
Proof.
  induction r as [|[[k x]|] r IH]; cbn [cli_unregister_thread]; [left; split; [apply not_elem_of_nil|done]| |].
  - rewrite keys_cons. destruct (decide (k = t)) as [->|Hk].
    + right. exists [], x, r. split_and!; [apply not_elem_of_nil|done..].
    + destruct IH as [[Hn ->]|(r1 & sh & r2 & Hn & -> & ->)]; [left|right].
      * split; [|done]. rewrite elem_of_cons. naive_solver.
      * exists (Some (k, x) :: r1), sh, r2. rewrite keys_cons, elem_of_cons. naive_solver.
  - destruct IH as [[Hn ->]|(r1 & sh & r2 & Hn & -> & ->)]; [by left|right]. by exists (None :: r1), sh, r2.
Qed.

Lemma unregister_spec r t : registry_ok r -> registry_ok (cli_unregister_thread t r) /\
  forall x, registered x (cli_unregister_thread t r) = negb (bool_decide (x = t)) && registered x r.
Proof.
  intros [L N V O]. destruct (unregister_eq t r) as [[Hn ->]|(r1 & sh & r2 & Hn & -> & ->)].
  - split; [done|]. intros x. unfold registered. destruct (decide (x = t)) as [->|Hx]; [by rewrite (bool_decide_eq_false_2 _ Hn), andb_false_r|].
    by rewrite (bool_decide_eq_false_2 (x = t)).
  - rewrite keys_app, keys_cons in *. apply NoDup_app in N as (N1 & N2 & N3). apply NoDup_cons in N3 as [Ht N3].
    assert (Hk : keys (r1 ++ None :: r2) = keys r1 ++ keys r2) by by rewrite keys_app.
    split; [split|].
    + by rewrite length_app in *.
    + rewrite Hk. apply NoDup_app. split_and!; [done| |done]. intros x Hx Hx2. apply (N2 x Hx). by right.
    + intros x. rewrite Hk, elem_of_app. intros Hx. apply V. rewrite elem_of_app, elem_of_cons. naive_solver.
    + intros x y. rewrite elem_of_app, elem_of_cons. intros [H|[H|H]]; [|done|]; apply O; rewrite elem_of_app, elem_of_cons; auto.
    + intros x. unfold registered. rewrite Hk, keys_app, keys_cons. destruct (decide (x = t)) as [->|Hx].
      * rewrite (bool_decide_eq_true_2 (t = t)) by done. apply bool_decide_eq_false. rewrite elem_of_app. tauto.
      * rewrite (bool_decide_eq_false_2 (x = t)) by done. apply bool_decide_ext. rewrite !elem_of_app, elem_of_cons. naive_solver.
Qed.

Lemma current_spec r t : registry_ok r -> cli_current_instance t r = if registered t r then Some t else None.
Proof.
  intros [_ _ _ O]. unfold registered. induction r as [|[[k x]|] r IH]; cbn [cli_current_instance]; [done| |].
  - rewrite keys_cons. destruct (decide (k = t)) as [->|Hk].
    + rewrite bool_decide_eq_true_2 by left. f_equal. apply O. left.
    + rewrite IH by (intros; apply O; by right). erewrite bool_decide_ext; [done|]. rewrite elem_of_cons. naive_solver.
  - apply IH. intros. apply O. by right.
Qed.

(** ** The invariant *)

(** What the rules about a slot speak of.  [v_good]: the slot's id is that of its
    launch, or ThreadX refused a worker before. *)
Record view : Type := View { v_state : cli_job_state; v_worker : wstate; v_reg : bool; v_owed : bool; v_launch : Z; v_good : bool }.
Definition good (s : pool) (j : cli_job) : bool := bool_decide (failed s <> 0%nat) || (id j =? u32 (launch j)).
Definition view_of (s : pool) (i : nat) (j : cli_job) : view := View (state j) (worker j) (registered (W i) (reg s)) (owed j) (launch j) (good s j).

(** No worker; or a worker, which is registered exactly while it is in its command. *)
Definition absent (v : view) : Prop := v_worker v = T_none /\ v_reg v = false.
Definition present (v : view) : Prop := v_worker v <> T_none /\ v_owed v = true /\ (v_reg v = true <-> v_worker v = T_live).

(** The slot a thread owns, and what that slot must look like. *)
Definition owns (p : pc) : option (nat * (view -> Prop)) :=
  match p with
  | P_reap_unregister i _ | P_delete i _ =>
      Some (i, fun v => v_state v = CLI_JOB_REAPING /\ v_worker v = T_completed /\ v_reg v = false /\ v_owed v = true /\ v_good v = true)
  | P_announce i _ => Some (i, fun v => v_state v = CLI_JOB_REAPING /\ absent v /\ v_owed v = true /\ v_good v = true)
  | P_clear_id i _ | P_free i _ => Some (i, fun v => v_state v = CLI_JOB_REAPING /\ absent v /\ v_owed v = false)
  | P_set_id i n _ => Some (i, fun v => v_state v = CLI_JOB_LAUNCHING /\ absent v /\ v_owed v = false /\ n = u32 (v_launch v))
  | P_label i _ | P_reset i _ | P_register i => Some (i, fun v => v_state v = CLI_JOB_LAUNCHING /\ absent v /\ v_owed v = false /\ v_good v = true)
  | P_create i | P_unregister i =>
      Some (i, fun v => v_state v = CLI_JOB_LAUNCHING /\ v_worker v = T_none /\ v_reg v = true /\ v_owed v = false /\ v_good v = true)
  | P_undo_state i _ => Some (i, fun v => v_state v = CLI_JOB_LAUNCHING /\ absent v /\ v_owed v = false)
  | P_publish i => Some (i, fun v => v_state v = CLI_JOB_LAUNCHING /\ present v /\ v_good v = true)
  | _ => None
  end.

(** A slot nobody owns. *)
Definition resting (v : view) : Prop :=
  match v_state v with CLI_JOB_FREE => absent v /\ v_owed v = false | CLI_JOB_RUNNING => present v /\ v_good v = true | _ => False end.

Definition owner (th : list pc) (i a : nat) (P : view -> Prop) : Prop := exists p, th !! a = Some p /\ owns p = Some (i, P).

Record owners_ok (s : pool) (th : list pc) : Prop := {
  ow_slots : length (cli_jobs s) = CLI_MAX_BG_JOBS;
  ow_one : forall i a b P Q, owner th i a P -> owner th i b Q -> a = b;
  ow_rule : forall i a P, owner th i a P -> exists j, cli_jobs s !! i = Some j /\ P (view_of s i j);
  ow_rest : forall i j, cli_jobs s !! i = Some j -> resting (view_of s i j) \/ exists a P, owner th i a P;
}.

(** A failed creation excuses wrong ids, nothing else. *)
Definition view_le (v v' : view) : Prop := v' = View (v_state v) (v_worker v) (v_reg v) (v_owed v) (v_launch v) (v_good v') /\ (v_good v = true -> v_good v' = true).

Lemma view_le_refl v : view_le v v.
Proof. by destruct v. Qed.

Lemma owns_mono p i P v v' : owns p = Some (i, P) -> view_le v v' -> P v -> P v'.
Proof.
  intros E [-> Hg]. destruct v as [st w r o l g], v' as [st' w' r' o' l' g']; cbn in Hg |- *.
  destruct p; cbn in E; simplify_eq; unfold absent, present; cbn; naive_solver.
Qed.

Lemma resting_mono v v' : view_le v v' -> resting v -> resting v'.
Proof. intros [-> Hg]. destruct v as [st w r o l g], v' as [st' w' r' o' l' g']; cbn in *. unfold resting, absent, present. destruct st; cbn; naive_solver. Qed.

(** The owner's states are not resting ones. *)
Lemma owner_busy p i P v : owns p = Some (i, P) -> P v -> v_state v = CLI_JOB_LAUNCHING \/ v_state v = CLI_JOB_REAPING.
Proof. destruct p; cbn; intros E; simplify_eq; naive_solver. Qed.

Lemma busy_not_resting v : v_state v = CLI_JOB_LAUNCHING \/ v_state v = CLI_JOB_REAPING -> ~ resting v.
Proof. unfold resting. intros [H|H]; rewrite H; tauto. Qed.

(** Slots other than [i] look the same. *)
Definition frame_but (i : nat) (s s' : pool) : Prop :=
  length (cli_jobs s') = length (cli_jobs s) /\
  forall k j', k <> i -> cli_jobs s' !! k = Some j' -> exists j, cli_jobs s !! k = Some j /\ view_le (view_of s k j) (view_of s' k j').

(** Thread [a] goes from [p] to [p'] and changes slot [i], which it owned, or which nobody
    did. *)
Lemma owners_step s s' th a p p' i j' : owners_ok s th -> th !! a = Some p -> frame_but i s s' -> cli_jobs s' !! i = Some j' ->
  match owns p with Some (k, _) => k = i | None => forall j, cli_jobs s !! i = Some j -> resting (view_of s i j) end ->
  match owns p' with Some (k, P) => k = i /\ P (view_of s' i j') | None => resting (view_of s' i j') end ->
  owners_ok s' (<[a := p']> th).
Proof.
  intros [Hl H1 H2 H3] Ha [Hlen Hf] Hj' Hp Hp'. assert (Hlt : (a < length th)%nat) by by eapply lookup_lt_Some.
  assert (Hother : forall k b P, b <> a -> owner th k b P -> k <> i).
  { intros k b P Hb Ho ->. destruct (owns p) as [[k Q]|] eqn:E.
    - subst k. apply Hb. apply (H1 i b a P Q); [done|]. by exists p.
    - destruct (H2 _ _ _ Ho) as (j & Ej & HP). destruct Ho as (q & _ & Eq). apply (busy_not_resting _ (owner_busy _ _ _ _ Eq HP)), (Hp j Ej). }
  assert (Hnew : forall k b P, owner (<[a:=p']> th) k b P -> b = a /\ owns p' = Some (k, P) \/ b <> a /\ owner th k b P).
  { intros k b P (q & Eq & Ho). destruct (decide (b = a)) as [->|Hb]; [left|right].
    - rewrite list_lookup_insert_eq in Eq by done. by simplify_eq.
    - rewrite list_lookup_insert_ne in Eq by done. split; [done|]. by exists q. }
  split.
  - by rewrite Hlen.
  - intros k b c P Q [[-> E]|[Hb E]]%Hnew [[-> E']|[Hc E']]%Hnew; [done| | |by apply (H1 k b c P Q)].
    + rewrite E in Hp'. destruct Hp' as [-> _]. by destruct (Hother _ _ _ Hc E').
    + rewrite E' in Hp'. destruct Hp' as [-> _]. by destruct (Hother _ _ _ Hb E).
  - intros k b P [[-> E]|[Hb E]]%Hnew.
    + rewrite E in Hp'. destruct Hp' as [-> HP]. by exists j'.
    + pose proof (Hother _ _ _ Hb E) as Hk. destruct (H2 _ _ _ E) as (j & Ej & HP).
      destruct (lookup_lt_is_Some_2 (cli_jobs s') k) as [j1 Ej1]; [rewrite Hlen; by eapply lookup_lt_Some|].
      destruct (Hf _ _ Hk Ej1) as (j2 & Ej2 & Hv). assert (j2 = j) as -> by congruence. exists j1. split; [done|].
      destruct E as (q & _ & Eq). by apply (owns_mono _ _ _ _ _ Eq Hv).
  - intros k j1 Ej1. destruct (decide (k = i)) as [->|Hk].
    + assert (j1 = j') as -> by congruence. destruct (owns p') as [[k P]|] eqn:E; [|by left]. destruct Hp' as [-> _]. right. exists a, P, p'.
      by rewrite list_lookup_insert_eq.
    + destruct (Hf _ _ Hk Ej1) as (j & Ej & Hv). destruct (H3 _ _ Ej) as [Hr|(b & P & Ho)]; [left; by eapply resting_mono|].
      right. exists b, P. destruct Ho as (q & Eq & Ho). exists q. split; [|done]. rewrite list_lookup_insert_ne; [done|]. intros ->.
      assert (q = p) as -> by congruence. rewrite Ho in Hp. done.
Qed.

(** A step of [a] that owns nothing, before or after, and changes nothing the rules see. *)
Lemma owners_same s s' th a p p' : owners_ok s th -> th !! a = Some p -> owns p = None -> owns p' = None ->
  length (cli_jobs s') = length (cli_jobs s) ->
  (forall k j', cli_jobs s' !! k = Some j' -> exists j, cli_jobs s !! k = Some j /\ view_le (view_of s k j) (view_of s' k j')) ->
  owners_ok s' (<[a := p']> th).
Proof.
  intros [Hl H1 H2 H3] Ha Hp Hp' Hlen Hf.
  assert (Hback : forall k b P, owner (<[a:=p']> th) k b P -> owner th k b P).
  { intros k b P (q & Eq & Ho). destruct (decide (b = a)) as [->|Hb].
    - rewrite list_lookup_insert_eq in Eq by by eapply lookup_lt_Some. simplify_eq.
    - rewrite list_lookup_insert_ne in Eq by done. by exists q. }
  assert (Hfwd : forall k b P, owner th k b P -> owner (<[a:=p']> th) k b P).
  { intros k b P (q & Eq & Ho). exists q. split; [|done]. rewrite list_lookup_insert_ne; [done|]. intros ->. congruence. }
  split.
  - by rewrite Hlen.
  - intros k b c P Q ?%Hback ?%Hback. by apply (H1 k b c P Q).
  - intros k b P Ho%Hback. destruct (H2 _ _ _ Ho) as (j & Ej & HP).
    destruct (lookup_lt_is_Some_2 (cli_jobs s') k) as [j1 Ej1]; [rewrite Hlen; by eapply lookup_lt_Some|].
    destruct (Hf _ _ Ej1) as (j2 & Ej2 & Hv). assert (j2 = j) as -> by congruence. exists j1. split; [done|].
    destruct Ho as (q & _ & Eq). by apply (owns_mono _ _ _ _ _ Eq Hv).
  - intros k j1 Ej1. destruct (Hf _ _ Ej1) as (j & Ej & Hv). destruct (H3 _ _ Ej) as [Hr|(b & P & Ho)]; [left; by eapply resting_mono|].
    right. exists b, P. by apply Hfwd.
Qed.

Lemma owner_working q i P v v' : owns q = Some (i, P) -> P v -> v_worker v = T_live \/ v_worker v = T_leaving -> (present v -> present v') ->
  v_state v' = v_state v -> v_good v' = v_good v -> P v'.
Proof.
  unfold owns. destruct q; intros E; simplify_eq; unfold absent; try (intros; exfalso; intuition congruence).
  intros (H1 & H2 & H3) _ Hp Hs Hg. rewrite Hs, Hg. auto.
Qed.

(** A step of the worker of slot [i]: what the rules ask of a slot with a present worker
    they still ask of it. *)
Lemma owners_worker s s' th i j j' : owners_ok s th -> frame_but i s s' -> cli_jobs s !! i = Some j -> cli_jobs s' !! i = Some j' ->
  worker j = T_live \/ worker j = T_leaving -> (present (view_of s i j) -> present (view_of s' i j')) ->
  state j' = state j -> good s' j' = good s j -> owners_ok s' th.
Proof.
  intros [Hl H1 H2 H3] [Hlen Hf] Hj Hj' Hw Hpr Hst Hg.
  split.
  - by rewrite Hlen.
  - done.
  - intros k b P Ho. destruct (H2 _ _ _ Ho) as (j1 & Ej1 & HP). destruct (decide (k = i)) as [->|Hk].
    + assert (j1 = j) as -> by congruence. exists j'. split; [done|]. destruct Ho as (q & _ & Eq). by apply (owner_working _ _ _ _ _ Eq HP).
    + destruct (lookup_lt_is_Some_2 (cli_jobs s') k) as [j2 Ej2]; [rewrite Hlen; by eapply lookup_lt_Some|].
      destruct (Hf _ _ Hk Ej2) as (j3 & Ej3 & Hv). assert (j3 = j1) as -> by congruence. exists j2. split; [done|].
      destruct Ho as (q & _ & Eq). by apply (owns_mono _ _ _ _ _ Eq Hv).
  - intros k j1 Ej1. destruct (decide (k = i)) as [->|Hk].
    + assert (j1 = j') as -> by congruence. destruct (H3 _ _ Hj) as [Hr|?]; [left|by right]. unfold resting in *. cbn in *. rewrite Hst, Hg.
      destruct (state j); [|done| |done].
      * destruct Hr as [[Hn _] _]. cbn in Hn. destruct Hw; congruence.
      * destruct Hr as [Hr Hgd]. split; [by apply Hpr|done].
    + destruct (Hf _ _ Hk Ej1) as (j2 & Ej2 & Hv). destruct (H3 _ _ Ej2) as [Hr|?]; [left; by eapply resting_mono|by right].
Qed.

(** *** Launch numbers *)

Definition announced (o : list notice) : list Z := omap (fun n => match n with N_done _ _ _ l => Some l | _ => None end) o.
Definition owing (j : cli_job) : option Z := if owed j then Some (launch j) else None.

(** A launch that got its worker is announced, or owed by the slot that holds it. *)
Record numbers (s : pool) : Prop := {
  nu_next : cli_job_next_id s = u32 (launches s);
  nu_pos : 1 <= launches s;
  nu_held : forall i j, cli_jobs s !! i = Some j -> state j <> CLI_JOB_FREE -> 1 <= launch j < launches s;
  nu_distinct : forall i k j j', cli_jobs s !! i = Some j -> cli_jobs s !! k = Some j' -> state j <> CLI_JOB_FREE -> state j' <> CLI_JOB_FREE -> launch j = launch j' -> i = k;
  nu_made : NoDup (made s) /\ Forall (fun n => n < launches s) (made s);
  nu_fresh : forall i j, cli_jobs s !! i = Some j -> state j = CLI_JOB_LAUNCHING -> owed j = false -> launch j ∉ made s;
  nu_perm : made s ≡ₚ announced (out s) ++ omap owing (cli_jobs s);
  nu_good : forall a i l n, N_done a i l n ∈ out s -> failed s = 0%nat -> i = u32 n;
}.

Lemma omap_alter {A B} (g : A -> option B) f (l : list A) i x : l !! i = Some x ->
  exists l1 l2, omap g l = l1 ++ option_list (g x) ++ l2 /\ omap g (alter f i l) = l1 ++ option_list (g (f x)) ++ l2.
Proof.
  revert i. induction l as [|y l IH]; intros [|i] E; try done; cbn in E.
  - injection E as ->. exists [], (omap g l). cbn. by destruct (g x), (g (f x)).
  - destruct (IH i E) as (l1 & l2 & E1 & E2). exists (option_list (g y) ++ l1), l2. change (alter f (S i) (y :: l)) with (y :: alter f i l). cbn. rewrite E1, E2. by destruct (g y).
Qed.

(** A change of slot [i] that keeps its launch number and what it owes. *)
Lemma numbers_upd s i f j : numbers s -> cli_jobs s !! i = Some j -> launch (f j) = launch j -> owed (f j) = owed j ->
  (state j = CLI_JOB_FREE -> state (f j) = CLI_JOB_FREE) -> (state (f j) = CLI_JOB_LAUNCHING -> state j = CLI_JOB_LAUNCHING) -> numbers (upd i f s).
Proof.
  intros [N P H D M F Pm G] Ej El Eo Ef Es.
  assert (Hback : forall k j', alter f i (cli_jobs s) !! k = Some j' -> exists j0, cli_jobs s !! k = Some j0 /\ launch j' = launch j0 /\ owed j' = owed j0 /\
    (state j0 = CLI_JOB_FREE -> state j' = CLI_JOB_FREE) /\ (state j' = CLI_JOB_LAUNCHING -> state j0 = CLI_JOB_LAUNCHING)).
  { intros k j' E. destruct (decide (k = i)) as [->|Hk].
    - rewrite list_lookup_alter_eq, Ej in E. injection E as <-. by exists j.
    - rewrite list_lookup_alter_ne in E by done. by exists j'. }
  split; cbn [upd cli_jobs cli_job_next_id launches made out failed]; try done.
  - intros k j' (j0 & E0 & -> & _ & Hs & _)%Hback Hn. apply (H k j0 E0). tauto.
  - intros k k' j1 j2 (j3 & E3 & -> & _ & Hs3 & _)%Hback (j4 & E4 & -> & _ & Hs4 & _)%Hback Hn1 Hn2. apply (D _ _ j3 j4); tauto.
  - intros k j' (j0 & E0 & -> & -> & _ & Hs)%Hback Hl. apply (F k j0 E0). tauto.
  - rewrite Pm. destruct (omap_alter owing f _ _ _ Ej) as (l1 & l2 & -> & ->). unfold owing. by rewrite El, Eo.
Qed.

Lemma numbers_reg s r : numbers s -> numbers (set_reg r s).
Proof. by intros []. Qed.

Lemma numbers_print s n : numbers s -> (forall a i l k, n <> N_done a i l k) -> numbers (print n s).
Proof.
  intros [N P H D M F Pm G] Hn. split; try done; cbn [print out].
  - rewrite Pm. unfold announced. rewrite omap_app. destruct n; cbn; rewrite ?app_nil_r; try done. by destruct (Hn a id0 label0 launch0).
  - intros a i l k [E|E%list_elem_of_singleton]%elem_of_app; [by apply (G a i l k)|]. by destruct (Hn a i l k).
Qed.

(** The critical section that claims a slot. *)
Lemma numbers_claim s i j : numbers s -> cli_jobs s !! i = Some j -> state j = CLI_JOB_FREE -> owed j = false -> numbers (next_id (upd i (reserve (launches s)) s)).
Proof.
  intros [N P H D M F Pm G] Ej Ef Eo.
  assert (Hback : forall k j', alter (reserve (launches s)) i (cli_jobs s) !! k = Some j' ->
    k = i /\ launch j' = launches s \/ k <> i /\ cli_jobs s !! k = Some j').
  { intros k j' E. destruct (decide (k = i)) as [->|Hk].
    - rewrite list_lookup_alter_eq, Ej in E. injection E as <-. by left.
    - rewrite list_lookup_alter_ne in E by done. by right. }
  split; cbn [upd next_id cli_jobs cli_job_next_id launches made out failed]; try done.
  - rewrite N. apply u32_add_l.
  - lia.
  - intros k j' [[-> ->]|[_ E]]%Hback Hn; [lia|]. specialize (H k j' E Hn). lia.
  - intros k k' j1 j2 [[-> E1]|[_ E1]]%Hback [[-> E2]|[_ E2]]%Hback Hn1 Hn2 El; [done| | |by apply (D _ _ j1 j2)]; exfalso.
    + specialize (H _ _ E2 Hn2). lia.
    + specialize (H _ _ E1 Hn1). lia.
  - split; [apply M|]. eapply Forall_impl; [apply M|]. cbn. lia.
  - intros k j' [[-> ->]|[_ E]]%Hback Hl Ho; [|by apply (F k j')]. intros Hin. destruct M as [_ M]. rewrite Forall_forall in M. specialize (M _ Hin). lia.
  - rewrite Pm. destruct (omap_alter owing (reserve (launches s)) _ _ _ Ej) as (l1 & l2 & -> & ->). unfold owing. cbn. by rewrite Eo.
Qed.

Lemma numbers_create s i j : numbers s -> cli_jobs s !! i = Some j -> state j = CLI_JOB_LAUNCHING -> owed j = false ->
  numbers (add_made (launch j) (upd i (set_owed true) (upd i (set_worker T_live) s))).
Proof.
  intros Hn Ej Es Eo. assert (Hn0 : numbers (upd i (set_worker T_live) s)) by (by apply (numbers_upd _ _ _ _ Hn Ej)). set (s1 := upd i (set_worker T_live) s) in *.
  assert (Ej1 : cli_jobs s1 !! i = Some (set_worker T_live j)) by (cbn; by rewrite list_lookup_alter_eq, Ej).
  assert (Ef : launch j ∉ made s1) by by apply (nu_fresh _ Hn i j).
  assert (Hh : 1 <= launch j < launches s1) by (apply (nu_held _ Hn i j); [done|congruence]).
  clearbody s1. destruct Hn0 as [N P H D M F Pm G].
  assert (Hback : forall k j', alter (set_owed true) i (cli_jobs s1) !! k = Some j' -> exists j0, cli_jobs s1 !! k = Some j0 /\ launch j' = launch j0 /\ state j' = state j0 /\ (k <> i -> j' = j0) /\ (k = i -> owed j' = true)).
  { intros k j' E. destruct (decide (k = i)) as [->|Hk].
    - rewrite list_lookup_alter_eq, Ej1 in E. injection E as <-. by eexists.
    - rewrite list_lookup_alter_ne in E by done. by exists j'. }
  split; cbn [upd add_made cli_jobs cli_job_next_id launches made out failed]; try done.
  - intros k j' (j0 & E0 & -> & -> & _)%Hback Hne. by apply (H k j0 E0).
  - intros k k' j1 j2 (j3 & E3 & -> & -> & _)%Hback (j4 & E4 & -> & -> & _)%Hback. apply (D _ _ j3 j4 E3 E4).
  - destruct M as [M1 M2]. split; [apply NoDup_app; split_and!; [done|set_solver|apply NoDup_singleton]|]. apply Forall_app. split; [done|]. constructor; [lia|done].
  - intros k j' (j0 & E0 & El & Est & Hk & Hi)%Hback Hl Ho. destruct (decide (k = i)) as [->|Hne]; [rewrite Hi in Ho by done; done|].
    rewrite (Hk Hne) in *. rewrite elem_of_app, list_elem_of_singleton. intros [Hin|E]; [by apply (F k j0)|]. apply Hne, (D _ _ _ _ E0 Ej1); [congruence|cbn; congruence|done].
  - rewrite Pm. destruct (omap_alter owing (set_owed true) _ _ _ Ej1) as (l1 & l2 & -> & ->). unfold owing. cbn. rewrite Eo. cbn. rewrite <-!app_assoc. rewrite !(Permutation_app_comm _ [launch j]). cbn.
    rewrite <-!Permutation_middle. done.
Qed.

Lemma numbers_announce s a i j : numbers s -> cli_jobs s !! i = Some j -> state j = CLI_JOB_REAPING -> owed j = true -> good s j = true ->
  numbers (print (N_done a (id j) (label j) (launch j)) (upd i (set_owed false) s)).
Proof.
  intros [N P H D M F Pm G] Ej Es Eo Hg.
  assert (Hback : forall k j', alter (set_owed false) i (cli_jobs s) !! k = Some j' -> exists j0, cli_jobs s !! k = Some j0 /\ launch j' = launch j0 /\ state j' = state j0 /\ (state j' = CLI_JOB_LAUNCHING -> owed j' = owed j0)).
  { intros k j' E. destruct (decide (k = i)) as [->|Hk].
    - rewrite list_lookup_alter_eq, Ej in E. injection E as <-. exists j. split_and!; try done. cbn. congruence.
    - rewrite list_lookup_alter_ne in E by done. by exists j'. }
  split; cbn [upd print cli_jobs cli_job_next_id launches made out failed]; try done.
  - intros k j' (j0 & E0 & -> & -> & _)%Hback Hne. by apply (H k j0 E0).
  - intros k k' j1 j2 (j3 & E3 & -> & -> & _)%Hback (j4 & E4 & -> & -> & _)%Hback. apply (D _ _ j3 j4 E3 E4).
  - intros k j' (j0 & E0 & -> & Est & Ho)%Hback Hl. rewrite Ho by done. rewrite Est in Hl. by apply (F k j0 E0).
  - rewrite Pm. unfold announced. rewrite omap_app. destruct (omap_alter owing (set_owed false) _ _ _ Ej) as (l1 & l2 & -> & ->). unfold owing. cbn. rewrite Eo. cbn.
    rewrite <-!app_assoc. f_equiv. cbn. rewrite <-Permutation_middle. done.
  - intros b n l k [E|E%list_elem_of_singleton]%elem_of_app Hf; [by apply (G b n l k)|]. injection E as -> -> -> ->. unfold good in Hg. rewrite Hf in Hg. cbn in Hg. by apply Z.eqb_eq.
Qed.

(** *** Every step keeps it *)

(** A thread that still has an id to erase after a refused launch. *)
Definition undoing (p : pc) : bool := match p with P_undo_id _ _ => true | _ => false end.
Definition undo_ok (s : pool) (th : list pc) : Prop := forall a p, th !! a = Some p -> undoing p = true -> failed s <> 0%nat.

Record inv (w : world) : Prop := {
  in_owners : owners_ok (shared w) (threads w);
  in_reg : registry_ok (reg (shared w));
  in_numbers : numbers (shared w);
  in_undo : undo_ok (shared w) (threads w);
}.

Lemma frame_but_intro i s s' : length (cli_jobs s') = length (cli_jobs s) -> (forall k, k <> i -> cli_jobs s' !! k = cli_jobs s !! k) ->
  (forall k, k <> i -> registered (W k) (reg s') = registered (W k) (reg s)) -> (failed s <= failed s')%nat -> frame_but i s s'.
Proof.
  intros Hl Hj Hr Hf. split; [done|]. intros k j' Hk E. exists j'. rewrite Hj in E by done. split; [done|]. unfold view_of. rewrite Hr by done. split; [done|].
  cbn. unfold good. intros [H%bool_decide_eq_true|H]%orb_prop; apply orb_true_intro; [left; apply bool_decide_eq_true; lia|by right].
Qed.

Lemma frame_but_upd i f s : frame_but i s (upd i f s).
Proof. apply frame_but_intro; cbn; [apply length_alter|intros; by apply list_lookup_alter_ne|done|done]. Qed.

Lemma undo_insert s s' th a p' : undo_ok s th -> (failed s <= failed s')%nat -> (undoing p' = true -> failed s' <> 0%nat) -> undo_ok s' (<[a:=p']> th).
Proof.
  intros H Hf Hp b q E Hq. destruct (decide (b = a)) as [->|Hb].
  - destruct (decide (a < length th)%nat); [rewrite list_lookup_insert_eq in E by done; simplify_eq; auto|].
    rewrite list_insert_ge in E by lia. specialize (H _ _ E Hq). lia.
  - rewrite list_lookup_insert_ne in E by done. specialize (H _ _ E Hq). lia.
Qed.

Lemma owns_reap_from i k : owns (reap_from i k) = None.
Proof. unfold reap_from. destruct (i <? _)%nat; [done|]. destruct k; try done. by destruct (cli_seg_blank _). Qed.
Lemma undoing_reap_from i k : undoing (reap_from i k) = false.
Proof. unfold reap_from. destruct (i <? _)%nat; [done|]. destruct k; try done. by destruct (cli_seg_blank _). Qed.

Lemma find_slot_Some k js i : find_slot k js = Some i -> exists j, (k <= i)%nat /\ js !! (i - k)%nat = Some j /\ claimable j = true.
Proof.
  revert k. induction js as [|j js IH]; intros k E; cbn [find_slot] in E; [done|]. destruct (claimable j) eqn:Ec.
  - injection E as <-. exists j. by rewrite Nat.sub_diag.
  - destruct (IH _ E) as (j' & Hle & El & Ec'). exists j'. replace (i - k)%nat with (S (i - S k)) by lia. split_and!; [lia|done|done].
Qed.

(** What an owner knows of its slot. *)
Lemma owner_view w a p i P : inv w -> threads w !! a = Some p -> owns p = Some (i, P) ->
  exists j, cli_jobs (shared w) !! i = Some j /\ P (view_of (shared w) i j) /\ (i < CLI_MAX_BG_JOBS)%nat.
Proof.
  intros Hi E Ho. destruct (ow_rule _ _ (in_owners _ Hi) i a P) as (j & Ej & HP); [by exists p|]. exists j. split_and!; [done..|].
  rewrite <-(ow_slots _ _ (in_owners _ Hi)). by eapply lookup_lt_Some.
Qed.

(** A step that changes its own slot only. *)
Lemma inv_upd s th a p p' i P j f : inv (World s th) -> th !! a = Some p -> owns p = Some (i, P) -> cli_jobs s !! i = Some j -> 
  match owns p' with Some (k, P) => k = i /\ P (view_of (upd i f s) i (f j)) | None => resting (view_of (upd i f s) i (f j)) end ->
  launch (f j) = launch j -> owed (f j) = owed j -> (state j = CLI_JOB_FREE -> state (f j) = CLI_JOB_FREE) ->
  (state (f j) = CLI_JOB_LAUNCHING -> state j = CLI_JOB_LAUNCHING) -> undoing p' = false -> inv (World (upd i f s) (<[a:=p']> th)).
Proof.
  intros [Ho Hr Hn Hu] Ha Ep Ej Hp' El Eo Ef Es Eu. split; cbn [shared threads] in *.
  - eapply owners_step; [exact Ho|exact Ha|apply frame_but_upd| | |exact Hp'].
    + cbn. by rewrite list_lookup_alter_eq, Ej.
    + by rewrite Ep.
  - done.
  - by apply (numbers_upd _ _ _ _ Hn Ej).
  - apply (undo_insert _ _ _ _ _ Hu); [done|]. by rewrite Eu.
Qed.

(** A step that changes nothing but its own place, and what is printed. *)
Lemma inv_quiet s s' th a p p' : inv (World s th) -> th !! a = Some p -> owns p = None -> owns p' = None -> undoing p' = false ->
  s' = s \/ (exists n, s' = print n s /\ forall a i l k, n <> N_done a i l k) -> inv (World s' (<[a:=p']> th)).
Proof.
  intros [Ho Hr Hn Hu] Ha Ep Ep' Eu Hs.
  assert (H : cli_jobs s' = cli_jobs s /\ reg s' = reg s /\ failed s' = failed s /\ numbers s').
  { destruct Hs as [->|(n & -> & Hd)]; [done|]. split_and!; try done. by apply numbers_print. }
  destruct H as (Ej & Er & Ef & Hn'). split; cbn [shared threads] in *.
  - apply (owners_same s s' th a p p'); try done; [by rewrite Ej|]. intros k j' E. rewrite Ej in E. exists j'. split; [done|].
    unfold view_of, good. rewrite Er, Ef. apply view_le_refl.
  - by rewrite Er.
  - done.
  - apply (undo_insert _ _ _ _ _ Hu); [lia|]. by rewrite Eu.
Qed.

(** A step that registers or unregisters the worker of its own slot. *)
Lemma inv_reg s r th a p p' i P j : inv (World s th) -> th !! a = Some p -> owns p = Some (i, P) -> cli_jobs s !! i = Some j -> registry_ok r ->
  (forall k, k <> i -> registered (W k) r = registered (W k) (reg s)) ->
  match owns p' with Some (k, P) => k = i /\ P (view_of (set_reg r s) i j) | None => False end -> undoing p' = false -> inv (World (set_reg r s) (<[a:=p']> th)).
Proof.
  intros [Ho Hr Hn Hu] Ha Ep Ej Hr' Hk Hp' Eu. split; cbn [shared threads] in *.
  - eapply owners_step; [exact Ho|exact Ha|apply (frame_but_intro i); [done..|exact Hk|done]|exact Ej| |].
    + by rewrite Ep.
    + by destruct (owns p') as [[k Q]|].
  - done.
  - by apply numbers_reg.
  - apply (undo_insert _ _ _ _ _ Hu); [done|]. by rewrite Eu.
Qed.

(** A step outside any owned slot that changes one slot in ways the rules allow. *)
Lemma inv_touch s th a p p' i f : inv (World s th) -> th !! a = Some p -> owns p = None -> owns p' = None -> undoing p' = false ->
  (forall j, cli_jobs s !! i = Some j -> view_le (view_of s i j) (view_of (upd i f s) i (f j))) -> inv (World (upd i f s) (<[a:=p']> th)).
Proof.
  intros [Ho Hr Hn Hu] Ha Ep Ep' Eu Hv. split; cbn [shared threads] in *.
  - apply (owners_same s _ th a p p'); try done; [apply length_alter|]. intros k j' E. cbn in E. destruct (decide (k = i)) as [->|Hk].
    + rewrite list_lookup_alter_eq in E. destruct (cli_jobs s !! i) as [j|]; [|done]. injection E as <-. exists j. auto.
    + rewrite list_lookup_alter_ne in E by done. exists j'. split; [done|]. apply view_le_refl.
  - done.
  - destruct (cli_jobs s !! i) as [j|] eqn:Ej.
    + destruct (Hv j eq_refl) as [E _]. unfold view_of in E. cbn in E. injection E as E1 E2 E3 E4. apply (numbers_upd _ _ _ _ Hn Ej); congruence.
    + assert (Ea : alter f i (cli_jobs s) = cli_jobs s).
      { apply list_eq. intros k. destruct (decide (k = i)) as [->|]; [by rewrite list_lookup_alter_eq, Ej|by apply list_lookup_alter_ne]. }
      unfold upd. rewrite Ea. by destruct s, Hn.
  - apply (undo_insert _ _ _ _ _ Hu); [done|]. by rewrite Eu.
Qed.

Lemma claim_slot_step s th a seg i : inv (World s th) -> th !! a = Some (P_claim seg) -> find_slot 0 (cli_jobs s) = Some i ->
  inv (World (next_id (upd i (reserve (launches s)) s)) (<[a := P_set_id i (cli_job_next_id s) seg]> th)).
Proof.
  intros [Ho Hr Hn Hu] Ha Ef. apply find_slot_Some in Ef as (j & _ & Ej & Hc). rewrite Nat.sub_0_r in Ej. apply andb_prop in Hc as [Hst%bool_decide_eq_true _].
  cbn [shared threads] in *.
  assert (Hrest : resting (view_of s i j)).
  { destruct (ow_rest _ _ Ho _ _ Ej) as [|(b & P & Hb)]; [done|]. destruct (ow_rule _ _ Ho _ _ _ Hb) as (j1 & E1 & HP). assert (j1 = j) as -> by congruence.
    destruct Hb as (q & _ & Eq). destruct (owner_busy _ _ _ _ Eq HP) as [H|H]; cbn in H; congruence. }
  assert (Hab : absent (view_of s i j) /\ owed j = false) by (unfold resting in Hrest; cbn in Hrest; by rewrite Hst in Hrest).
  destruct Hab as [[Hw Hrg] Hod]. cbn in Hw, Hrg. split; cbn [shared threads].
  - eapply (owners_step s _ th a _ _ i); [exact Ho|exact Ha|apply frame_but_intro; cbn; [apply length_alter|intros; by apply list_lookup_alter_ne|done|done]| | |].
    + cbn. by rewrite list_lookup_alter_eq, Ej.
    + cbn. intros j1 E1. by simplify_eq.
    + cbn. split; [done|]. split_and!; try done. apply (nu_next _ Hn).
  - done.
  - by apply (numbers_claim _ _ j).
  - by apply (undo_insert _ _ _ _ _ Hu).
Qed.

Lemma create_step s th a i j : inv (World s th) -> th !! a = Some (P_create i) -> cli_jobs s !! i = Some j ->
  inv (World (add_made (launch j) (upd i (set_owed true) (upd i (set_worker T_live) s))) (<[a := P_publish i]> th)).
Proof.
  intros Hi Ha Ej. destruct (owner_view _ _ _ _ _ Hi Ha eq_refl) as (j1 & E1 & (Hst & Hw & Hrg & Hod & Hg) & Hlt). cbn in E1. assert (j1 = j) as -> by congruence. cbn in *.
  destruct Hi as [Ho Hr Hn Hu]. split; cbn [shared threads] in *.
  - eapply (owners_step s _ th a _ _ i); [exact Ho|exact Ha|apply frame_but_intro; cbn| | |].
    + by rewrite !length_alter.
    + intros k Hk. by rewrite !list_lookup_alter_ne.
    + done.
    + done.
    + cbn. by rewrite !list_lookup_alter_eq, Ej.
    + done.
    + cbn. split; [done|]. unfold present. cbn. split_and!; done.
  - done.
  - by apply numbers_create.
  - by apply (undo_insert _ _ _ _ _ Hu).
Qed.

Lemma announce_step s th a i k j : inv (World s th) -> th !! a = Some (P_announce i k) -> cli_jobs s !! i = Some j ->
  inv (World (print (N_done a (id j) (label j) (launch j)) (upd i (set_owed false) s)) (<[a := P_clear_id i k]> th)).
Proof.
  intros Hi Ha Ej. destruct (owner_view _ _ _ _ _ Hi Ha eq_refl) as (j1 & E1 & (Hst & [Hw Hrg] & Hod & Hg) & Hlt). cbn in E1. assert (j1 = j) as -> by congruence. cbn in *.
  destruct Hi as [Ho Hr Hn Hu]. split; cbn [shared threads] in *.
  - eapply (owners_step s _ th a _ _ i); [exact Ho|exact Ha|apply frame_but_intro; cbn; [apply length_alter|intros; by apply list_lookup_alter_ne|done|done]| | |].
    + cbn. by rewrite list_lookup_alter_eq, Ej.
    + done.
    + cbn. split; [done|]. by split_and!.
  - done.
  - by apply (numbers_announce s a i j).
  - by apply (undo_insert _ _ _ _ _ Hu).
Qed.

Lemma undo_step s th a i e : inv (World s th) -> th !! a = Some (P_undo_state i e) ->
  inv (World (add_failed (upd i (set_state CLI_JOB_FREE) s)) (<[a := P_undo_id i e]> th)).
Proof.
  intros Hi Ha. destruct (owner_view _ _ _ _ _ Hi Ha eq_refl) as (j & Ej & (Hst & [Hw Hrg] & Hod) & Hlt). cbn in *.
  destruct Hi as [Ho Hr Hn Hu]. split; cbn [shared threads] in *.
  - eapply (owners_step s _ th a _ _ i); [exact Ho|exact Ha|apply frame_but_intro; cbn; [apply length_alter|intros; by apply list_lookup_alter_ne|done|lia]| | |].
    + cbn. by rewrite list_lookup_alter_eq, Ej.
    + done.
    + cbn. by split.
  - done.
  - assert (H : numbers (upd i (set_state CLI_JOB_FREE) s)) by by apply (numbers_upd _ _ _ _ Hn Ej). destruct H. split; cbn in *; try done.
  - apply (undo_insert _ _ _ _ _ Hu); cbn; lia.
Qed.

Lemma reap_step s th a i k j : inv (World s th) -> th !! a = Some (P_reap i k) -> cli_jobs s !! i = Some j -> state j = CLI_JOB_RUNNING -> worker j = T_completed ->
  inv (World (upd i (set_state CLI_JOB_REAPING) s) (<[a := P_reap_unregister i k]> th)).
Proof.
  intros [Ho Hr Hn Hu] Ha Ej Hst Hw. cbn [shared threads] in *.
  assert (Hrest : resting (view_of s i j)).
  { destruct (ow_rest _ _ Ho _ _ Ej) as [|(b & P & Hb)]; [done|]. destruct (ow_rule _ _ Ho _ _ _ Hb) as (j1 & E1 & HP). assert (j1 = j) as -> by congruence.
    destruct Hb as (q & _ & Eq). destruct (owner_busy _ _ _ _ Eq HP) as [H|H]; cbn in H; congruence. }
  pose proof Hrest as Hrest'. unfold resting, present in Hrest'. cbn in Hrest'. rewrite Hst in Hrest'. destruct Hrest' as [(Hw' & Hod & Hrg) Hg]. rewrite Hw in Hrg.
  split; cbn [shared threads].
  - eapply (owners_step s _ th a _ _ i); [exact Ho|exact Ha|apply frame_but_upd| | |].
    + cbn. by rewrite list_lookup_alter_eq, Ej.
    + cbn. intros j1 E1. by simplify_eq.
    + cbn. split_and!; try done. apply not_true_iff_false. rewrite Hrg. done.
  - done.
  - apply (numbers_upd _ _ _ _ Hn Ej); cbn; try done; congruence.
  - by apply (undo_insert _ _ _ _ _ Hu).
Qed.

(** The slot of an owner step. *)
Ltac own_slot Hi Ha := destruct (owner_view _ _ _ _ _ Hi Ha eq_refl) as (?j & ?Ej & ?Hv & ?Hlt); cbn in *.
(** An owner step that changes one field of its slot. *)
Ltac own_upd Hi Ha Ej := apply (inv_upd _ _ _ _ _ _ _ _ _ Hi Ha eq_refl Ej); cbn; unfold absent in *; cbn in *; intuition (congruence || auto).

Lemma go_inv s th a ok p p' s' : inv (World s th) -> th !! a = Some p -> access a ok p s = Some (p', s') -> inv (World s' (<[a := p']> th)).
Proof.
  intros Hi Ha E.
  destruct p as [rc|i k|i k|i k|i k|i k|i k|seg|i n seg|i seg|i seg|i|i|i|i e|i e|i|i|i n|i n|i id']; cbn [access] in E; [done|..].
  - (* P_reap *) destruct (cli_jobs s !! i) as [j|] eqn:Ej; [|done]. cbn [mbind option_bind] in E. injection E as E. 
    destruct (bool_decide (state j = CLI_JOB_RUNNING) && _) eqn:Et; injection E as <- <-.
    + apply andb_prop in Et as [Hst%bool_decide_eq_true Hw%bool_decide_eq_true]. by apply (reap_step _ _ _ _ _ j).
    + eapply inv_quiet; eauto using owns_reap_from, undoing_reap_from.
  - (* P_reap_unregister *) own_slot Hi Ha. injection E as <- <-. destruct (unregister_spec _ (W i) (in_reg _ Hi)) as [Hr Hreg]. cbn [shared] in *.
    apply (inv_reg _ _ _ _ _ _ i _ j Hi Ha eq_refl Ej); [done| |split; [done|]|done].
    + intros m Hm. rewrite Hreg. by rewrite bool_decide_eq_false_2 by congruence.
    + cbn in *. rewrite Hreg. destruct Hv as (? & ? & -> & ? & ?). by rewrite andb_false_r.
  - (* P_delete *) own_slot Hi Ha. rewrite Ej in E. cbn [mbind option_bind] in E. rewrite bool_decide_eq_true_2 in E by apply Hv. injection E as <- <-. unfold absent. own_upd Hi Ha Ej.
  - (* P_announce *) own_slot Hi Ha. rewrite Ej in E. injection E as <- <-. by apply announce_step.
  - (* P_clear_id *) own_slot Hi Ha. injection E as <- <-. own_upd Hi Ha Ej.
  - (* P_free *) own_slot Hi Ha. injection E as <- <-. apply (inv_upd _ _ _ _ _ _ _ _ _ Hi Ha eq_refl Ej); rewrite ?owns_reap_from; cbn; auto using undoing_reap_from; [|congruence]. unfold resting. cbn. tauto.
  - (* P_claim *) destruct (find_slot 0 (cli_jobs s)) as [i|] eqn:Ef; injection E as <- <-; [by apply claim_slot_step|]. eapply inv_quiet; eauto; right; by eexists.
  - (* P_set_id *) own_slot Hi Ha. injection E as <- <-. apply (inv_upd _ _ _ _ _ _ _ _ _ Hi Ha eq_refl Ej); try done. cbn. destruct Hv as (H1 & H2 & H3 & ->). split_and!; try done. unfold good. cbn. rewrite Z.eqb_refl. apply orb_true_r.
  - (* P_label *) own_slot Hi Ha. injection E as <- <-. own_upd Hi Ha Ej.
  - (* P_reset *) own_slot Hi Ha. injection E as <- <-. own_upd Hi Ha Ej.
  - (* P_register *) own_slot Hi Ha. destruct Hv as (H1 & [H2 H3] & H4 & H5).
    destruct (register_spec _ (W i) (in_reg _ Hi) Hlt) as (r & Er & Hr & Hreg); [by apply bool_decide_eq_false in H3|]. cbn [shared] in *. rewrite Er in E. cbn in E. injection E as <- <-.
    apply (inv_reg _ _ _ _ _ _ i _ j Hi Ha eq_refl Ej); [done| |split; [done|]|done].
    + intros m Hm. rewrite Hreg. by rewrite bool_decide_eq_false_2 by congruence.
    + cbn in *. rewrite Hreg. rewrite bool_decide_eq_true_2 by done. by split_and!.
  - (* P_create *) own_slot Hi Ha. rewrite Ej in E. cbn [mbind option_bind] in E. destruct (ok && _); injection E as <- <-; [by apply create_step|].
    enough (H : inv (World (set_reg (reg s) s) (<[a := P_unregister i]> th))) by by destruct s.
    by apply (inv_reg s (reg s) th a (P_create i) (P_unregister i) i _ j Hi Ha eq_refl Ej); [apply (in_reg _ Hi)|..].
  - (* P_unregister *) own_slot Hi Ha. injection E as <- <-. destruct (unregister_spec _ (W i) (in_reg _ Hi)) as [Hr Hreg]. cbn [shared] in *.
    apply (inv_reg _ _ _ _ _ _ i _ j Hi Ha eq_refl Ej); [done| |split; [done|]|done].
    + intros m Hm. rewrite Hreg. by rewrite bool_decide_eq_false_2 by congruence.
    + cbn in *. unfold absent. cbn. rewrite Hreg. rewrite bool_decide_eq_true_2 by done. destruct Hv as (? & ? & ? & ? & ?). by split_and!.
  - (* P_undo_state *) injection E as <- <-. by apply undo_step.
  - (* P_undo_id *) injection E as <- <-. assert (Hf : failed s <> 0%nat) by (by apply (in_undo _ Hi a _ Ha)).
    assert (Hi1 : inv (World (upd i (set_id 0) s) (<[a := P_idle (-1)]> th))).
    { eapply inv_touch; eauto. intros j Ej. split; [done|]. cbn. unfold good. cbn. by rewrite bool_decide_eq_true_2. }
    replace (<[a := P_idle (-1)]> th) with (<[a := P_idle (-1)]> (<[a := P_idle (-1)]> th)) by apply list_insert_insert_eq.
    eapply inv_quiet; [exact Hi1|apply list_lookup_insert_eq; by eapply lookup_lt_Some|done..|]. right. eexists. split; [done|]. by destruct e.
  - (* P_publish *) own_slot Hi Ha. injection E as <- <-. apply (inv_upd _ _ _ _ _ _ _ _ _ Hi Ha eq_refl Ej); try done; [cbn; unfold resting; cbn; split; apply Hv|cbn; destruct Hv as [Hv _]; congruence].
  - (* P_started *) destruct (cli_jobs s !! i) as [j|] eqn:Ej; [|done]. injection E as <- <-. eapply inv_quiet; eauto; right; by eexists.
  - (* P_list *) destruct (i <? _)%nat.
    + destruct (cli_jobs s !! i) as [j|] eqn:Ej; [|done]. injection E as <- <-. eapply inv_quiet; eauto; by destruct (bool_decide _).
    + injection E as <- <-. eapply inv_quiet; eauto. destruct (n =? 0)%nat; [right; by eexists|by left].
  - (* P_listed *) destruct (cli_jobs s !! i) as [j|] eqn:Ej; [|done]. injection E as <- <-. eapply inv_quiet; eauto; right; by eexists.
  - (* P_kill *) destruct (i <? _)%nat; [|injection E as <- <-; eapply inv_quiet; eauto].
    destruct (cli_jobs s !! i) as [j|] eqn:Ej; [|done]. cbn [mbind option_bind] in E. destruct (_ && _); injection E as <- <-; [|eapply inv_quiet; eauto].
    eapply inv_touch; eauto. intros. apply view_le_refl.
Qed.

(** A step of the worker of slot [i]. *)
Lemma inv_worker s s' th i f j : inv (World s th) -> cli_jobs s !! i = Some j -> s' = set_reg (reg s') (upd i f s) -> registry_ok (reg s') ->
  worker j = T_live \/ worker j = T_leaving -> f j = set_worker (worker (f j)) j -> worker (f j) <> T_none ->
  (forall k, k <> i -> registered (W k) (reg s') = registered (W k) (reg s)) ->
  ((registered (W i) (reg s) = true <-> worker j = T_live) -> registered (W i) (reg s') = true <-> worker (f j) = T_live) -> inv (World s' th).
Proof.
  intros [Ho Hr Hn Hu] Ej Es Hr' Hw Ef Hne Hk Hi. cbn [shared threads] in *.
  assert (E : cli_jobs s' = alter f i (cli_jobs s) /\ failed s' = failed s) by (by rewrite Es). destruct E as [Ejs Efl].
  assert (Ef1 : state (f j) = state j /\ id (f j) = id j /\ owed (f j) = owed j /\ launch (f j) = launch j) by (by rewrite Ef). destruct Ef1 as (F1 & F2 & F3 & F4).
  split; cbn [shared threads].
  - eapply (owners_worker s s' th i j (f j)); try done.
    + apply frame_but_intro; [by rewrite Ejs, length_alter|intros; rewrite Ejs; by apply list_lookup_alter_ne|done|by rewrite Efl].
    + by rewrite Ejs, list_lookup_alter_eq, Ej.
    + intros (H1 & H2 & H3). cbn in H1, H2, H3. split_and!; cbn; [done|by rewrite F3|by apply Hi].
    + unfold good. by rewrite Efl, F2, F4.
  - done.
  - rewrite Es. apply numbers_reg. apply (numbers_upd _ _ _ _ Hn Ej); congruence.
  - intros b q Eq Hq. rewrite Efl. by apply (Hu b q).
Qed.

(** A step that changes the entry of an instance's own thread. *)
Lemma inv_instance s r th : inv (World s th) -> registry_ok r -> (forall k, registered (W k) r = registered (W k) (reg s)) -> inv (World (set_reg r s) th).
Proof.
  intros [Ho Hr Hn Hu] Hr' Hk. cbn [shared threads] in *. split; cbn [shared threads]; try done; [|by apply numbers_reg].
  assert (Hv : forall i j, view_of (set_reg r s) i j = view_of s i j) by (intros; unfold view_of; cbn; by rewrite Hk).
  destruct Ho as [H1 H2 H3 H4]. split; [done|done| |].
  - intros i a P Ha. destruct (H3 i a P Ha) as (j & Ej & HP). exists j. by rewrite Hv.
  - intros i j Ej. rewrite Hv. by apply H4.
Qed.

Lemma next_inv m w w' : inv w -> next m w = Some w' -> inv w'.
Proof.
  destruct w as [s th]. intros Hi E. pose proof (in_reg _ Hi) as Hr. cbn [shared] in Hr. destruct m as [a o|a ok|i|i|f|f]; cbn [next shared threads] in E.
  - destruct (th !! a) as [p|] eqn:Ha; [|done]. destruct p; try done. injection E as <-.
    eapply inv_quiet; eauto; destruct o; cbn [enter]; auto using owns_reap_from, undoing_reap_from.
  - destruct (th !! a) as [p|] eqn:Ha; [|done]. cbn [mbind option_bind] in E. destruct (access a ok p s) as [[p' s']|] eqn:Ea; [|done]. cbn [mbind option_bind] in E. injection E as <-. by eapply go_inv.
  - destruct (cli_jobs s !! i) as [j|] eqn:Ej; [|done]. cbn [mbind option_bind] in E. case_guard; [|done]. cbn in E. injection E as <-.
    destruct (unregister_spec _ (W i) Hr) as [Hr' Hreg]. eapply (inv_worker s _ th i (set_worker T_leaving) j); cbn; auto; try done.
    + intros k Hk. rewrite Hreg. by rewrite bool_decide_eq_false_2 by congruence.
    + intros _. rewrite Hreg, bool_decide_eq_true_2 by done. done.
  - destruct (cli_jobs s !! i) as [j|] eqn:Ej; [|done]. cbn [mbind option_bind] in E. case_guard; [|done]. cbn in E. injection E as <-.
    eapply (inv_worker s _ th i (set_worker T_completed) j); cbn; auto; try done. intros Hreg. rewrite Hreg. split; congruence.
  - case_guard as Hg; [|done]. cbn in E. injection E as <-. destruct Hg as [Hf Hc]. rewrite (current_spec _ _ Hr) in Hc. destruct (registered (F f) (reg s)) eqn:Ef; [done|].
    destruct (register_spec _ (F f) Hr Hf) as (r & Er & Hr' & Hreg); [by apply bool_decide_eq_false in Ef|]. rewrite Er. apply inv_instance; [done..|].
    intros k. by rewrite Hreg.
  - injection E as <-. destruct (unregister_spec _ (F f) Hr) as [Hr' Hreg]. apply inv_instance; [done..|]. intros k. by rewrite Hreg.
Qed.

Lemma start_inv evts n : length evts = CLI_MAX_BG_JOBS -> inv (start evts n).
Proof.
  intros Hl. assert (Hth : forall a p, replicate n (P_idle 0) !! a = Some p -> p = P_idle 0) by (intros a p [-> _]%lookup_replicate; done).
  assert (Hj : forall i j, cli_job_pool_init evts !! i = Some j -> exists e, j = Job CLI_JOB_FREE 0 e [] [] 0 false false T_none 0 false).
  { intros i j E. unfold cli_job_pool_init in E. rewrite list_lookup_fmap in E. destruct (_ !! i) as [e|]; [|done]. injection E as <-. by exists e. }
  split; cbn [shared threads start].
  - split; cbn [cli_jobs].
    + unfold cli_job_pool_init. rewrite length_fmap, length_take. lia.
    + intros i a b P Q (p & ->%Hth & Ho). done.
    + intros i a P (p & ->%Hth & Ho). done.
    + intros i j (e & ->)%Hj. left. done.
  - split; [done|constructor|intros t Ht; by apply not_elem_of_nil in Ht|]. intros t sh H. repeat (apply elem_of_cons in H as [H|H]; [done|]). by apply not_elem_of_nil in H.
  - assert (Ho : omap owing (cli_job_pool_init evts) = []).
    { unfold cli_job_pool_init. induction (take _ evts); [done|]. done. }
    split; cbn [cli_jobs cli_job_next_id launches made out failed]; try done.
    + intros i j (e & ->)%Hj. done.
    + intros i k j j' (e & ->)%Hj. done.
    + split; constructor.
    + intros i j _ _ _. apply not_elem_of_nil.
    + change ([] ≡ₚ omap owing (cli_job_pool_init evts)). by rewrite Ho.
    + intros a i l k H. by apply not_elem_of_nil in H.
  - intros a p ->%Hth. done.
Qed.

Lemma pool_reachable_inv w : reachable w -> inv w.
Proof.
  intros (evts & n & Hl & Hr). pose proof (start_inv evts n Hl) as H. induction Hr as [|x y z [m Hs] _ IH]; [done|]. apply IH. by eapply next_inv.
Qed.

(** ** The claims *)

(** C18: Whatever the interleaving of launches, reaping passes, listings and kills, a slot
    being launched or reaped belongs to exactly one thread; the thread that reaps deletes
    a worker that has completed, and no other ever; a launch creates its worker
    where none exists, and finds room for it in the registry. *)
Theorem job_slots_exclusive w : reachable w ->
  (forall i j, cli_jobs (shared w) !! i = Some j -> state j = CLI_JOB_LAUNCHING \/ state j = CLI_JOB_REAPING ->
     exists a, (exists P, owner (threads w) i a P) /\ forall b, (exists P, owner (threads w) i b P) -> b = a) /\
  (forall a i k j, threads w !! a = Some (P_delete i k) -> cli_jobs (shared w) !! i = Some j -> state j = CLI_JOB_REAPING /\ worker j = T_completed) /\
  (forall a i j, threads w !! a = Some (P_create i) -> cli_jobs (shared w) !! i = Some j -> state j = CLI_JOB_LAUNCHING /\ worker j = T_none) /\
  (forall a i, threads w !! a = Some (P_register i) -> fst (cli_register_thread (W i) (W i) (reg (shared w))) = 0).
Proof.
  intros Hi%pool_reachable_inv. pose proof (in_owners _ Hi) as Ho. split_and!.
  - intros i j Ej Hst. destruct (ow_rest _ _ Ho _ _ Ej) as [Hr|(a & P & Ha)]; [by destruct (busy_not_resting (view_of (shared w) i j) Hst)|].
    exists a. split; [by exists P|]. intros b (Q & Hb). by apply (ow_one _ _ Ho i b a Q P).
  - intros a i k j Ha Ej. destruct (owner_view _ _ _ _ _ Hi Ha eq_refl) as (j1 & E1 & Hv & _). assert (j1 = j) as -> by congruence. cbn in Hv. tauto.
  - intros a i j Ha Ej. destruct (owner_view _ _ _ _ _ Hi Ha eq_refl) as (j1 & E1 & Hv & _). assert (j1 = j) as -> by congruence. cbn in Hv. tauto.
  - intros a i Ha. destruct (owner_view _ _ _ _ _ Hi Ha eq_refl) as (j & Ej & (_ & [_ H3] & _) & Hlt).
    destruct (register_spec _ (W i) (in_reg _ Hi) Hlt) as (r & -> & _); [by apply bool_decide_eq_false in H3|done].
Qed.

(** C19: Every launch that got its worker is announced as done at most once, and until then
    a slot still owes the announcement; no launch number is used twice.  As long as
    ThreadX has refused no worker, a running job's id is its launch number, so no two running jobs share an
    id until the 32-bit counter has gone around, and a done notice shows the id of the job that finished. *)
Theorem job_announced_once w : reachable w ->
  made (shared w) ≡ₚ announced (out (shared w)) ++ omap owing (cli_jobs (shared w)) /\ NoDup (made (shared w)) /\
  (failed (shared w) = 0%nat ->
     (forall a i l n, N_done a i l n ∈ out (shared w) -> i = u32 n) /\
     (forall i k j j', cli_jobs (shared w) !! i = Some j -> cli_jobs (shared w) !! k = Some j' -> state j = CLI_JOB_RUNNING -> state j' = CLI_JOB_RUNNING ->
        launches (shared w) <= 4294967296 -> id j <> 0 /\ (id j = id j' -> i = k))).
Proof.
  intros Hi%pool_reachable_inv. pose proof (in_numbers _ Hi) as Hn. split_and!; [apply Hn|apply Hn|]. intros Hf. split; [intros a i l n H; by apply (nu_good _ Hn a i l n)|].
  intros i k j j' Ej Ej' Hs Hs' Hmax.
  assert (Hgood : forall i j, cli_jobs (shared w) !! i = Some j -> state j = CLI_JOB_RUNNING -> id j = launch j /\ 1 <= launch j).
  { intros i0 j0 E0 H0. assert (Hh : 1 <= launch j0 < launches (shared w)) by (apply (nu_held _ Hn i0 j0 E0); by rewrite H0).
    destruct (ow_rest _ _ (in_owners _ Hi) _ _ E0) as [Hr|(b & P & Hb)].
    - unfold resting in Hr. cbn in Hr. rewrite H0 in Hr. destruct Hr as [_ Hg]. unfold good in Hg. rewrite Hf in Hg. cbn in Hg. apply Z.eqb_eq in Hg.
      rewrite u32_small in Hg by (unfold is_u32; lia). lia.
    - destruct (ow_rule _ _ (in_owners _ Hi) _ _ _ Hb) as (j1 & E1 & HP). assert (j1 = j0) as -> by congruence. destruct Hb as (q & _ & Eq).
      destruct (owner_busy _ _ _ _ Eq HP) as [H|H]; cbn in H; congruence. }
  destruct (Hgood _ _ Ej Hs) as [-> ?], (Hgood _ _ Ej' Hs') as [-> ?]. split; [lia|]. intros El. apply (nu_distinct _ Hn _ _ _ _ Ej Ej'); congruence.
Qed.

(** While its command runs, a worker's output goes to its own instance, and when it has
    left, its thread owns none; the thread of an instance is never mistaken for another. *)
Theorem registry_routes w : reachable w ->
  (forall i j, cli_jobs (shared w) !! i = Some j -> worker j = T_live -> cli_current_instance (W i) (reg (shared w)) = Some (W i)) /\
  (forall i j, cli_jobs (shared w) !! i = Some j -> worker j = T_leaving \/ worker j = T_completed -> cli_current_instance (W i) (reg (shared w)) = None) /\
  (forall t sh, cli_current_instance t (reg (shared w)) = Some sh -> sh = t).
Proof.
  intros Hi%pool_reachable_inv. pose proof (in_reg _ Hi) as Hr.
  assert (Hp : forall i j, cli_jobs (shared w) !! i = Some j -> worker j <> T_none -> v_reg (view_of (shared w) i j) = true <-> worker j = T_live).
  { intros i j Ej Hw. destruct (ow_rest _ _ (in_owners _ Hi) _ _ Ej) as [Hr0|(b & P & Hb)].
    - unfold resting in Hr0. destruct (v_state _); try done; [by destruct Hr0 as [[Ha _] _]|]. by destruct Hr0 as [(_ & _ & H) _].
    - destruct (ow_rule _ _ (in_owners _ Hi) _ _ _ Hb) as (j1 & E1 & HP). assert (j1 = j) as -> by congruence. destruct Hb as (q & _ & Eq).
      destruct q; cbn in Eq; simplify_eq; unfold absent in HP; cbn in HP |- *; try (exfalso; intuition congruence); try (destruct HP as (_ & -> & -> & _); done). apply HP. }
  split_and!.
  - intros i j Ej Hw. rewrite (current_spec _ _ Hr). assert (H : v_reg (view_of (shared w) i j) = true) by (apply (Hp i j Ej); congruence). cbn in H. by rewrite H.
  - intros i j Ej Hw. rewrite (current_spec _ _ Hr). destruct (registered (W i) (reg (shared w))) eqn:E; [|done].
    assert (worker j = T_live) by (apply (Hp i j Ej); [by destruct Hw; congruence|done]). destruct Hw; congruence.
  - intros t sh. rewrite (current_spec _ _ Hr). by destruct (registered t _); intros [= <-].
Qed.

(** ** Runs *)

Module JobsRun.

Fixpoint run (ms : list move) (w : world) : option world := match ms with [] => Some w | m :: ms => next m w ≫= run ms end.

Lemma run_pool_reachable ms n w : run ms (start [true; true] n) = Some w -> reachable w.
Proof.
  intros E. exists [true; true], n. split; [done|]. revert E. generalize (start [true; true] n). induction ms as [|m ms IH]; intros w0 E; cbn in E.
  - injection E as <-. constructor.
  - destruct (next m w0) as [w1|] eqn:E1; [|done]. eapply rtc_l; [by exists m|]. by apply IH.
Qed.

(** [n] accesses of thread [a]. *)
Definition goes (a n : nat) : list move := replicate n (M_go a true).
Definition finishes (i : nat) : list move := [M_exit i; M_complete i].
Definition get (o : option world) : world := default (start [] 0) o.

(** The bytes of two commands. *)
Definition cmd_a : list Z := [97].
Definition cmd_b : list Z := [98].

(** One console launches, the worker runs. *)
Definition one_job : world := get (run ([M_start 0; M_call 0 (O_launch cmd_a)] ++ goes 0 10) (start [true; true] 2)).
Lemma one_job_reachable : reachable one_job.
Proof. apply (run_pool_reachable ([M_start 0; M_call 0 (O_launch cmd_a)] ++ goes 0 10) 2). vm_compute. reflexivity. Qed.

(** The other console has claimed the finished worker. *)
Definition reaping : world := get (run (finishes 0 ++ [M_call 1 O_list] ++ goes 1 2) one_job).
Lemma reaping_reachable : reachable reaping.
Proof. apply (run_pool_reachable ([M_start 0; M_call 0 (O_launch cmd_a)] ++ goes 0 10 ++ finishes 0 ++ [M_call 1 O_list] ++ goes 1 2) 2). vm_compute. reflexivity. Qed.

Lemma job_slots_exclusive_witness : exists j, cli_jobs (shared reaping) !! 0%nat = Some j /\ state j = CLI_JOB_REAPING /\ worker j = T_completed.
Proof.
  assert (Ej : is_Some (cli_jobs (shared reaping) !! 0%nat)) by (vm_compute; by eexists). destruct Ej as [j Ej]. exists j. split; [exact Ej|].
  assert (Ht : threads reaping !! 1%nat = Some (P_delete 0 K_list)) by (vm_compute; reflexivity).
  exact (proj1 (proj2 (job_slots_exclusive reaping reaping_reachable)) 1%nat 0%nat K_list j Ht Ej).
Defined.

Lemma job_announced_once_witness : made (shared reaping) = [1] /\ announced (out (shared reaping)) = [] /\ NoDup (made (shared reaping)).
Proof. split; [vm_compute; reflexivity|]. split; [vm_compute; reflexivity|]. exact (proj1 (proj2 (job_announced_once reaping reaping_reachable))). Defined.

Lemma registry_routes_witness : cli_current_instance (W 0) (reg (shared one_job)) = Some (W 0) /\ cli_current_instance (F 0) (reg (shared one_job)) = Some (F 0).
Proof.
  split; [|vm_compute; reflexivity]. assert (Ej : is_Some (cli_jobs (shared one_job) !! 0%nat)) by (vm_compute; by eexists). destruct Ej as [j Ej].
  assert (Hw : worker <$> cli_jobs (shared one_job) !! 0%nat = Some T_live) by (vm_compute; reflexivity). rewrite Ej in Hw. injection Hw as Hw.
  exact (proj1 (registry_routes one_job one_job_reachable) 0%nat j Ej Hw).
Defined.

(** C38: [cli_job_launch] prints its notice from the slot after giving it up to the reapers: a
    worker that has finished by then can be reaped by another console, whose own
    launch takes the slot, and the first console announces the second one's job; no launch
    notice ever shows the first job's id. *)
Theorem launch_notice_race : exists w, reachable w /\ failed (shared w) = 0%nat /\ made (shared w) = [1; 2] /\
  out (shared w) = [N_done 1 1 cmd_a 1; N_started 1 2 cmd_b; N_started 0 2 cmd_b].
Proof.
  set (ms := [M_call 0 (O_launch cmd_a)] ++ goes 0 9 ++ finishes 0 ++ [M_call 1 (O_launch cmd_b)] ++ goes 1 15 ++ goes 0 1).
  exists (get (run ms (start [true; true] 2))). split; [apply (run_pool_reachable ms 2)|]; vm_compute; [reflexivity|]. split; [reflexivity|]. split; reflexivity.
Qed.

(** A launch that ThreadX refuses frees its slot before it erases the id: a console that
    claims the slot in between runs a job with id 0, which [kill] does not find. *)
Lemma undo_erases_id : exists w j, reachable w /\ cli_jobs (shared w) !! 0%nat = Some j /\ state j = CLI_JOB_RUNNING /\ worker j = T_live /\
  launch j = 2 /\ id j = 0 /\ threads w !! 0%nat = Some (P_idle (-1)).
Proof.
  set (ms := [M_call 0 (O_launch cmd_a)] ++ goes 0 7 ++ [M_go 0 false] ++ goes 0 2 ++ [M_call 1 (O_launch cmd_b)] ++ goes 1 4 ++ goes 0 1 ++ goes 1 5 ++ [M_call 0 (O_kill 2)] ++ goes 0 3).
  exists (get (run ms (start [true; true] 2))). eexists. split; [apply (run_pool_reachable ms 2); vm_compute; reflexivity|]. split; [vm_compute; reflexivity|]. repeat split; reflexivity.
Qed.
End JobsRun.
