(* ===== verification/Fmt.v ===== *)
(** * The printf formatter ([src/svc/fmt.c])

    [fmt_utoa] with its two buffers, [fmt_padded] and the conversion loop
    [fmt_vformat] over an arbitrary character sink, and the bounded buffer sink
    [fmt_vsnformat] (which is also [cli_snprintf]'s).  Characters are [Z]; a
    pointer into the format string is the part of the string it points at, read
    as NUL at its end. *)

From S2P Require Import Prelude.
Local Open Scope Z_scope.

(** ** Digits *)

(** [digits[d]], for the two literals of [fmt_utoa]. *)
Definition digit_char (upper : bool) (d : Z) : Z :=
  if d <? 10 then 48 + d else (if upper then 55 else 87) + d.

(** [char tmp[20]]: the do-while loop that fills it, least significant digit
    first.  A store past the array is a failure, so 21 rounds cover every run. *)
Fixpoint utoa_loop (fuel : nat) (mag base : Z) (upper : bool) (tmp : list Z) (n : nat)
    : option (list Z * nat) :=
  match fuel with
  | O => None
  | S k =>
      tmp ← buf_set tmp n (digit_char upper (mag mod base));
      if mag / base =? 0 then Some (tmp, S n)
      else utoa_loop k (mag / base) base upper tmp (S n)
  end.

(** [for (i = 0; i < n; i++) buf[i] = tmp[n - 1 - i];] with [j] rounds to go. *)
Fixpoint unreverse (j n : nat) (tmp buf : list Z) : option (list Z) :=
  match j with
  | O => Some buf
  | S j' =>
      c ← tmp !! j';
      buf ← buf_set buf (n - S j') c;
      unreverse j' n tmp buf
  end.

Definition UTOA_MAX : nat := 20.

Definition fmt_utoa (mag base : Z) (upper : bool) (buf : list Z) : option (list Z * nat) :=
  '(tmp, n) ← utoa_loop (S UTOA_MAX) mag base upper (replicate UTOA_MAX 0) 0;
  buf ← unreverse n n tmp buf;
  Some (buf, n).

(** The reference: the digits of [mag], most significant first. *)
Fixpoint digits_n (k : nat) (base mag : Z) : list Z :=
  match k with
  | O => []
  | S k => (if mag / base =? 0 then [] else digits_n k base (mag / base)) ++ [mag mod base]
  end.
Definition digits (base mag : Z) : list Z := digits_n UTOA_MAX base mag.

(** The value a digit string denotes. *)
Definition digits_val (base : Z) (ds : list Z) : Z := fold_left (fun v d => v * base + d) ds 0.

Lemma digits_val_snoc base ds d : digits_val base (ds ++ [d]) = digits_val base ds * base + d.
Proof. unfold digits_val. by rewrite fold_left_app. Qed.

Lemma digits_n_val k base : 2 <= base ->
  forall mag, 0 <= mag < base ^ Z.of_nat k -> (0 < k)%nat -> digits_val base (digits_n k base mag) = mag.
Proof.
  intros Hb. induction k as [|k IH]; intros mag Hm Hk; [lia|]. simpl digits_n. rewrite digits_val_snoc.
  pose proof (Z.div_mod mag base ltac:(lia)) as Hd.
  destruct (Z.eqb_spec (mag / base) 0) as [E|E]; [cbn; lia|].
  destruct k as [|k].
  { exfalso. apply E. apply Z.div_small. simpl in Hm. rewrite Z.pow_1_r in Hm. lia. }
  rewrite IH; [lia| |lia]. rewrite Nat2Z.inj_succ, Z.pow_succ_r in Hm by lia.
  split; [apply Z.div_pos; lia|]. apply Z.div_lt_upper_bound; lia.
Qed.

Lemma digits_n_range k base mag : 2 <= base -> Forall (fun d => 0 <= d < base) (digits_n k base mag).
Proof.
  intros Hb. revert mag. induction k as [|k IH]; intros mag; simpl; [constructor|].
  apply Forall_app. split; [case_if; [constructor|apply IH]|].
  constructor; [|constructor]. apply Z.mod_pos_bound. lia.
Qed.

Lemma digits_n_length k base mag : (length (digits_n k base mag) <= k)%nat.
Proof.
  revert mag. induction k as [|k IH]; intros mag; simpl; [lia|]. rewrite length_app; simpl.
  case_if; simpl; [lia|]. specialize (IH (mag / base)). lia.
Qed.

Lemma digits_n_nonempty k base mag : digits_n (S k) base mag <> [].
Proof. simpl. by intros [_ H]%app_nil. Qed.

(** No leading zero, except for zero itself. *)
Lemma digits_n_head k base : 2 <= base -> forall mag,
  0 < mag < base ^ Z.of_nat k -> forall d ds, digits_n k base mag = d :: ds -> d <> 0.
Proof.
  intros Hb. induction k as [|k IH]; intros mag Hm d ds H; [done|]. simpl in H.
  pose proof (Z.div_mod mag base ltac:(lia)) as Hd.
  rewrite Nat2Z.inj_succ, Z.pow_succ_r in Hm by lia.
  destruct (Z.eqb_spec (mag / base) 0) as [E|E]; simpl in H; [injection H as <- _; lia|].
  assert (Hq : 0 < mag / base < base ^ Z.of_nat k).
  { split; [|apply Z.div_lt_upper_bound; lia]. pose proof (Z.div_pos mag base). lia. }
  destruct (digits_n k base (mag / base)) as [|d' ds'] eqn:Eds.
  { destruct k as [|k]; [simpl in Hq; lia|]. by apply digits_n_nonempty in Eds. }
  simpl in H. injection H as -> _. by apply (IH _ Hq d ds').
Qed.

Lemma utoa_loop_S k mag base upper tmp n :
  utoa_loop (S k) mag base upper tmp n =
    (tmp ← buf_set tmp n (digit_char upper (mag mod base));
     if mag / base =? 0 then Some (tmp, S n)
     else utoa_loop k (mag / base) base upper tmp (S n)).
Proof. done. Qed.

(** The loop writes the digits in reverse. *)
Lemma utoa_loop_spec k base upper : 2 <= base -> forall mag tmp n,
  0 <= mag < base ^ Z.of_nat k -> (0 < k)%nat -> (n + k <= length tmp)%nat ->
  let ds := map (digit_char upper) (digits_n k base mag) in
  utoa_loop (S k) mag base upper tmp n = Some (splice n (rev ds) tmp, (n + length ds)%nat).
Proof.
  intros Hb. induction k as [|k IH]; intros mag tmp n Hm Hk Hl ds; [lia|].
  unfold ds. rewrite utoa_loop_S, buf_set_Some by lia. cbn [mbind option_bind].
  simpl digits_n. rewrite map_app, rev_app_distr, length_app. simpl rev. simpl length.
  rewrite Nat2Z.inj_succ, Z.pow_succ_r in Hm by lia.
  assert (Hone : splice n [digit_char upper (mag mod base)] tmp =
                 <[n:=digit_char upper (mag mod base)]> tmp).
  { rewrite <-splice_insert, splice_nil by (rewrite ?length_insert; lia). done. }
  destruct (Z.eqb_spec (mag / base) 0) as [E|E].
  { simpl. rewrite Hone. do 2 f_equal. lia. }
  destruct k as [|k].
  { exfalso. apply E. apply Z.div_small. simpl in Hm. lia. }
  cbn [app]. rewrite IH; [|split; [apply Z.div_pos; lia|apply Z.div_lt_upper_bound; lia]|lia|
    rewrite length_insert; lia].
  rewrite splice_insert by lia. do 2 f_equal. lia.
Qed.

Lemma unreverse_spec (ds tmp : list Z) : forall j buf,
  (j <= length ds)%nat -> (length ds <= length buf)%nat ->
  take (length ds) tmp = rev ds -> (length ds <= length tmp)%nat ->
  unreverse j (length ds) tmp buf =
    Some (splice (length ds - j) (drop (length ds - j) ds) buf).
Proof.
  induction j as [|j IH]; intros buf Hj Hl Ht Htl; simpl.
  { rewrite Nat.sub_0_r, drop_all, splice_nil by lia. done. }
  assert (Hlk : tmp !! j = ds !! (length ds - S j)%nat).
  { rewrite <-(lookup_take_lt tmp (length ds)) by lia. rewrite Ht.
    rewrite rev_alt. fold (reverse ds). by rewrite reverse_lookup by lia. }
  destruct (lookup_lt_is_Some_2 ds (length ds - S j)) as [c Hc]; [lia|].
  rewrite Hlk, Hc. cbn [mbind option_bind]. rewrite buf_set_Some by lia. cbn [mbind option_bind].
  rewrite IH by (done || (rewrite ?length_insert; lia)).
  replace (length ds - j)%nat with (S (length ds - S j)) by lia.
  rewrite splice_insert by lia. by rewrite <-(drop_S _ _ _ Hc).
Qed.

Lemma utoa_fits base : base = 10 \/ base = 16 -> 2 <= base /\ 2 ^ 64 <= base ^ Z.of_nat UTOA_MAX.
Proof. intros [-> | ->]; split; vm_compute; done. Qed.

(** The characters [fmt_utoa] leaves at the start of the caller's buffer. *)
Definition utoa (mag base : Z) (upper : bool) : list Z := map (digit_char upper) (digits base mag).

Lemma utoa_length mag base upper : (length (utoa mag base upper) <= UTOA_MAX)%nat.
Proof. unfold utoa. rewrite length_map. apply digits_n_length. Qed.

Lemma utoa_nonempty mag base upper : (0 < length (utoa mag base upper))%nat.
Proof.
  unfold utoa. rewrite length_map. unfold digits, UTOA_MAX.
  destruct (digits_n 20 base mag) eqn:E; [by apply digits_n_nonempty in E|simpl; lia].
Qed.

Lemma fmt_utoa_eq mag base upper buf :
  base = 10 \/ base = 16 -> 0 <= mag < 2 ^ 64 -> (UTOA_MAX <= length buf)%nat ->
  fmt_utoa mag base upper buf =
    Some (splice 0 (utoa mag base upper) buf, length (utoa mag base upper)).
Proof.
  intros Hb Hm Hl. unfold fmt_utoa. pose proof (utoa_length mag base upper) as Hu.
  apply utoa_fits in Hb as [Hb Hfit].
  rewrite utoa_loop_spec; [|lia|lia|unfold UTOA_MAX; lia|rewrite length_replicate; lia].
  fold (digits base mag). fold (utoa mag base upper). cbn [mbind option_bind].
  rewrite Nat.add_0_l, unreverse_spec; [|lia|lia| |].
  - by rewrite Nat.sub_diag, drop_0.
  - unfold splice. rewrite take_0, app_nil_l, take_app_length'; [done|by rewrite length_rev].
  - rewrite length_splice, length_replicate; [done|]. rewrite length_rev, length_replicate. lia.
Qed.

(** What a digit character stands for. *)
Definition char_digit (c : Z) : Z :=
  if (48 <=? c) && (c <=? 57) then c - 48
  else if (65 <=? c) && (c <=? 70) then c - 55 else c - 87.

Lemma char_digit_char upper d : 0 <= d < 16 -> char_digit (digit_char upper d) = d.
Proof. intros. unfold char_digit, digit_char. destruct (Z.ltb_spec d 10), upper; ifs; lia. Qed.

Lemma utoa_digits mag base upper :
  base = 10 \/ base = 16 -> map char_digit (utoa mag base upper) = digits base mag.
Proof.
  intros Hb. unfold utoa. rewrite map_map. etrans; [|apply map_id].
  apply map_ext_Forall. unfold digits. eapply Forall_impl; [apply digits_n_range; lia|].
  simpl. intros d Hd. apply char_digit_char. destruct Hb; lia.
Qed.

(** [fmt_utoa] in decimal and hexadecimal, on every 64-bit magnitude: it
    stays inside its 20-byte scratch array and the caller's 20-byte buffer, and
    the characters it writes denote the magnitude exactly, in at most 20
    digits of the base and without a leading zero unless the value is zero. *)
Theorem fmt_utoa_correct (mag base : Z) (upper : bool) (buf : list Z) :
  base = 10 \/ base = 16 -> 0 <= mag < 2 ^ 64 -> (UTOA_MAX <= length buf)%nat ->
  exists ds, fmt_utoa mag base upper buf = Some (splice 0 ds buf, length ds) /\
    digits_val base (map char_digit ds) = mag /\
    Forall (fun c => exists d, 0 <= d < base /\ c = digit_char upper d) ds /\
    (0 < length ds <= UTOA_MAX)%nat /\
    (mag <> 0 -> head (map char_digit ds) <> Some 0).
Proof.
  intros Hb Hm Hl. exists (utoa mag base upper). pose proof (utoa_fits base Hb) as [Hb2 Hfit].
  rewrite utoa_digits by done. split; [by apply fmt_utoa_eq|]. split.
  { apply digits_n_val; unfold UTOA_MAX in *; lia. }
  split.
  { apply Forall_map. eapply Forall_impl; [apply digits_n_range; lia|]. intros d Hd. by exists d. }
  split; [split; [apply utoa_nonempty|apply utoa_length]|].
  intros Hnz. destruct (digits base mag) as [|d ds] eqn:E; [done|]. simpl. intros [= ->].
  apply digits_n_head in E; lia.
Qed.

Lemma fmt_utoa_correct_witness :
  exists ds, fmt_utoa 48879 16 false (replicate 20 0) = Some (splice 0 ds (replicate 20 0), length ds) /\
    digits_val 16 (map char_digit ds) = 48879 /\
    Forall (fun c => exists d, 0 <= d < 16 /\ c = digit_char false d) ds /\
    (0 < length ds <= UTOA_MAX)%nat /\
    (48879 <> 0 -> head (map char_digit ds) <> Some 0).
Proof. apply fmt_utoa_correct; [by right|lia|vm_compute; lia]. Defined.

(** ** The formatter over a sink *)

(** [enum len_mod]. *)
Inductive len_mod : Type := LM_INT | LM_LONG | LM_LLONG | LM_SIZE.

(** A variadic argument: an integer as the bit pattern of its C type ([int],
    [long] and [size_t] are 32 bits on the target), a string ([None] is NULL) or
    an address.  Reading an argument as another type is undefined. *)
Inductive va : Type :=
  | VInt (x : Z) | VLong (x : Z) | VLLong (x : Z) | VSize (x : Z)
  | VStr (s : option (list Z)) | VPtr (a : Z).

(** The signed reading of a bit pattern. *)
Definition s32 (x : Z) : Z := if x <? 2147483648 then x else x - 4294967296.
Definition s64 (x : Z) : Z := if x <? 9223372036854775808 then x else x - 18446744073709551616.

(** [GET_UNSIGNED] and [GET_SIGNED]; for [%zd] the [int] branch is the target's. *)
Definition get_unsigned (lm : len_mod) (ap : list va) : option (Z * list va) :=
  match lm, ap with
  | LM_LONG, VLong x :: ap | LM_SIZE, VSize x :: ap | LM_INT, VInt x :: ap => Some (u32 x, ap)
  | LM_LLONG, VLLong x :: ap => Some (x mod 18446744073709551616, ap)
  | _, _ => None
  end.
Definition get_signed (lm : len_mod) (ap : list va) : option (Z * list va) :=
  match lm, ap with
  | LM_LONG, VLong x :: ap | LM_SIZE, VSize x :: ap | LM_INT, VInt x :: ap => Some (s32 (u32 x), ap)
  | LM_LLONG, VLLong x :: ap => Some (s64 (x mod 18446744073709551616), ap)
  | _, _ => None
  end.

(** [mag]: "magnitude is unsigned so LLONG_MIN negates safely". *)
Definition magnitude (v : Z) : Z := if v <? 0 then - (v + 1) + 1 else v.

(** The flags, the width (capped at 4096) and the length modifier. *)
Fixpoint fmt_flags (p : list Z) (ljust zero : bool) : list Z * bool * bool :=
  match p with
  | c :: p' =>
      if c =? 45 then fmt_flags p' true zero
      else if c =? 48 then fmt_flags p' ljust true
      else (p, ljust, zero)
  | [] => (p, ljust, zero)
  end.
Fixpoint fmt_width (p : list Z) (width : Z) : list Z * Z :=
  match p with
  | c :: p' =>
      if (48 <=? c) && (c <=? 57) then
        let width := width * 10 + (c - 48) in
        fmt_width p' (if 4096 <? width then 4096 else width)
      else (p, width)
  | [] => (p, width)
  end.
Definition fmt_len_mod (p : list Z) : list Z * len_mod :=
  match p with
  | 108 :: 108 :: p' => (p', LM_LLONG)
  | 108 :: p' => (p', LM_LONG)
  | 122 :: p' => (p', LM_SIZE)
  | _ => (p, LM_INT)
  end.

Section formatter.
(** The sink: [put(ctx, c)]; a sink can fail, as a store out of bounds does. *)
Context {S : Type} (put : S -> Z -> option S).

Fixpoint out_str (ctx : S) (s : list Z) : option S :=
  match s with
  | [] => Some ctx
  | c :: s => ctx ← put ctx c; out_str ctx s
  end.

(** [while (pad-- > 0) put(ctx, c);] *)
Fixpoint out_pad (ctx : S) (pad : nat) (c : Z) : option S :=
  match pad with
  | O => Some ctx
  | Datatypes.S pad => ctx ← put ctx c; out_pad ctx pad c
  end.

Definition out_prefix (ctx : S) (prefix : option (list Z)) : option S :=
  match prefix with None => Some ctx | Some s => out_str ctx s end.

Definition fmt_padded (ctx : S) (prefix : option (list Z)) (body : list Z) (blen : nat)
    (width : Z) (zero ljust : bool) : option S :=
  let plen := match prefix with None => 0 | Some s => Z.of_nat (length s) end in
  let total := plen + Z.of_nat blen in
  let pad := Z.to_nat (if total <? width then width - total else 0) in
  if ljust then
    ctx ← out_prefix ctx prefix;
    ctx ← out_str ctx (take blen body);
    out_pad ctx pad 32
  else if zero then
    ctx ← out_prefix ctx prefix;
    ctx ← out_pad ctx pad 48;
    out_str ctx (take blen body)
  else
    ctx ← out_pad ctx pad 32;
    ctx ← out_prefix ctx prefix;
    out_str ctx (take blen body).

(** An unsigned conversion: [fmt_utoa] into [body], then [fmt_padded]. *)
Definition fmt_number (ctx : S) (prefix : option (list Z)) (mag base : Z) (upper : bool)
    (width : Z) (zero ljust : bool) : option S :=
  '(body, blen) ← fmt_utoa mag base upper (replicate UTOA_MAX 0);
  fmt_padded ctx prefix body blen width zero ljust.

(** One conversion specification, [p] at its conversion character; [None] in
    the second component is the [return] of a trailing ['%']. *)
Definition fmt_conversion (ctx : S) (p : list Z) (lm : len_mod) (width : Z) (zero ljust : bool)
    (ap : list va) : option (S * option (list Z * list va)) :=
  let next ap ctx := Some (ctx, Some (tail p, ap)) in
  match p with
  | [] => ctx ← put ctx 37; Some (ctx, None)
  | c :: _ =>
      if c =? 37 then put ctx 37 ≫= next ap
      else if c =? 99 then
        match ap with
        | VInt x :: ap => fmt_padded ctx None [u8 x] 1 width false ljust ≫= next ap
        | _ => None
        end
      else if c =? 115 then
        match ap with
        | VStr s :: ap =>
            let s := match s with None => str "(null)" | Some s => s end in
            fmt_padded ctx None s (length s) width false ljust ≫= next ap
        | _ => None
        end
      else if (c =? 100) || (c =? 105) then
        '(v, ap) ← get_signed lm ap;
        fmt_number ctx (if v <? 0 then Some (str "-") else None) (magnitude v) 10 false
          width zero ljust ≫= next ap
      else if c =? 117 then
        '(v, ap) ← get_unsigned lm ap;
        fmt_number ctx None v 10 false width zero ljust ≫= next ap
      else if c =? 120 then
        '(v, ap) ← get_unsigned lm ap;
        fmt_number ctx None v 16 false width zero ljust ≫= next ap
      else if c =? 88 then
        '(v, ap) ← get_unsigned lm ap;
        fmt_number ctx None v 16 true width zero ljust ≫= next ap
      else if c =? 112 then
        match ap with
        | VPtr a :: ap => fmt_number ctx (Some (str "0x")) (u32 a) 16 false width zero ljust ≫= next ap
        | _ => None
        end
      else ctx ← put ctx 37; put ctx c ≫= next ap
  end.

(** [for (p = fmt; *p; p++)]; a round consumes at least one character. *)
Fixpoint vformat_loop (fuel : nat) (ctx : S) (p : list Z) (ap : list va) : option S :=
  match fuel with
  | O => None
  | Datatypes.S k =>
      match p with
      | [] => Some ctx
      | c :: p =>
          if negb (c =? 37) then ctx ← put ctx c; vformat_loop k ctx p ap
          else
            let '(p, ljust, zero) := fmt_flags p false false in
            let '(p, width) := fmt_width p 0 in
            let '(p, lm) := fmt_len_mod p in
            '(ctx, next) ← fmt_conversion ctx p lm width zero ljust ap;
            match next with
            | None => Some ctx
            | Some (p, ap) => vformat_loop k ctx p ap
            end
      end
  end.
Definition fmt_vformat (ctx : S) (fmt : list Z) (ap : list va) : option S :=
  vformat_loop (Datatypes.S (length fmt)) ctx fmt ap.

Lemma put_str_app ctx s1 s2 : out_str ctx (s1 ++ s2) = (ctx ← out_str ctx s1; out_str ctx s2).
Proof.
  revert ctx. induction s1 as [|c s1 IH]; intros ctx; simpl; [done|].
  destruct (put ctx c) as [ctx'|]; simpl; [apply IH|done].
Qed.

Lemma out_pad_str ctx pad c : out_pad ctx pad c = out_str ctx (replicate pad c).
Proof.
  revert ctx. induction pad as [|pad IH]; intros ctx; simpl; [done|].
  destruct (put ctx c) as [ctx'|]; simpl; [apply IH|done].
Qed.
End formatter.

(** ** The text of a format

    The list sink collects the characters; [fmt_text] is what a format prints. *)
Definition collect (acc : list Z) (c : Z) : option (list Z) := Some (acc ++ [c]).
Definition fmt_text (fmt : list Z) (ap : list va) : option (list Z) := fmt_vformat collect [] fmt ap.

(** The text of a padded field: the prefix and the body, padded to the width. *)
Definition padded (prefix : option (list Z)) (body : list Z) (width : Z) (zero ljust : bool) : list Z :=
  let pre := default [] prefix in
  let pad := Z.to_nat (width - Z.of_nat (length pre + length body)) in
  if ljust then pre ++ body ++ replicate pad 32
  else if zero then pre ++ replicate pad 48 ++ body
  else replicate pad 32 ++ pre ++ body.

Lemma padded_length prefix body width zero ljust :
  Z.of_nat (length (padded prefix body width zero ljust)) =
    Z.max width (Z.of_nat (length (default [] prefix) + length body)).
Proof.
  unfold padded. destruct ljust; [|destruct zero]; rewrite !length_app, length_replicate; lia.
Qed.

Lemma padded_0 body zero ljust : padded None body 0 zero ljust = body.
Proof.
  unfold padded. cbn [default]. replace (Z.to_nat _) with 0%nat by lia.
  destruct ljust, zero; simpl; by rewrite ?app_nil_r.
Qed.

Lemma pad_nonneg width total :
  Z.to_nat (if total <? width then width - total else 0) = Z.to_nat (width - total).
Proof. case_if; lia. Qed.

Section sinks.
Context {S : Type} (put : S -> Z -> option S).

Lemma fmt_padded_text ctx prefix body blen width zero ljust :
  (blen <= length body)%nat ->
  fmt_padded put ctx prefix body blen width zero ljust =
    out_str put ctx (padded prefix (take blen body) width zero ljust).
Proof.
  intros Hb. unfold fmt_padded, padded. rewrite length_take_le by done.
  rewrite pad_nonneg.
  replace (_ + Z.of_nat blen) with (Z.of_nat (length (default [] prefix) + blen))
    by (destruct prefix; simpl; lia).
  set (pad := Z.to_nat (width - _)).
  assert (Hp : forall c s, out_prefix put c s = out_str put c (default [] s)) by by intros ? [].
  destruct ljust; [|destruct zero].
  - rewrite !put_str_app, Hp. destruct (out_str _ _ _) as [c|]; simpl; [|done].
    rewrite put_str_app. destruct (out_str _ _ _) as [c'|]; simpl; [|done]. apply out_pad_str.
  - rewrite !put_str_app, Hp. destruct (out_str _ _ _) as [c|]; simpl; [|done].
    rewrite put_str_app, out_pad_str. done.
  - rewrite !put_str_app, out_pad_str. destruct (out_str _ _ _) as [c|]; simpl; [|done].
    rewrite put_str_app, Hp. done.
Qed.
End sinks.

Lemma collect_str acc s : out_str collect acc s = Some (acc ++ s).
Proof.
  revert acc. induction s as [|c s IH]; intros acc; simpl; [by rewrite app_nil_r|].
  rewrite IH, <-app_assoc. done.
Qed.

Lemma get_unsigned_range lm ap v ap' : get_unsigned lm ap = Some (v, ap') -> 0 <= v < 2 ^ 64.
Proof.
  destruct lm, ap as [|[] ap]; simpl; intros H; simplify_eq; unfold u32;
    (eapply Z.lt_le_trans || idtac); split; try (apply Z.mod_pos_bound; lia);
    (eapply Z.lt_le_trans; [apply Z.mod_pos_bound; lia|lia]).
Qed.

Lemma magnitude_range lm ap v ap' : get_signed lm ap = Some (v, ap') -> 0 <= magnitude v < 2 ^ 64.
Proof.
  destruct lm, ap as [|[] ap]; simpl; intros H; simplify_eq; unfold magnitude, s32, s64, u32;
    match goal with |- context [?x mod ?m] => pose proof (Z.mod_pos_bound x m ltac:(lia)) end;
    repeat case_if; lia.
Qed.

Section sinks.
Context {S : Type} (put : S -> Z -> option S).

Lemma fmt_number_text ctx prefix mag base upper width zero ljust :
  base = 10 \/ base = 16 -> 0 <= mag < 2 ^ 64 ->
  fmt_number put ctx prefix mag base upper width zero ljust =
    out_str put ctx (padded prefix (utoa mag base upper) width zero ljust).
Proof.
  intros Hb Hm. unfold fmt_number. rewrite fmt_utoa_eq by (done || by rewrite length_replicate).
  cbn [mbind option_bind]. pose proof (utoa_length mag base upper).
  rewrite fmt_padded_text.
  - unfold splice. rewrite take_0, app_nil_l, take_app_length. done.
  - rewrite length_splice; rewrite ?length_replicate; simpl; lia.
Qed.
End sinks.

(** What a conversion prints does not depend on the sink. *)
Lemma fmt_conversion_text {S} (put : S -> Z -> option S) ctx p lm width zero ljust ap :
  fmt_conversion put ctx p lm width zero ljust ap =
    ('(t, next) ← fmt_conversion collect [] p lm width zero ljust ap;
     ctx ← out_str put ctx t; Some (ctx, next)).
Proof.
  unfold fmt_conversion. destruct p as [|c p]; [simpl; by destruct (put ctx 37)|].
  assert (Hone : forall c0, put ctx c0 = out_str put ctx [c0]).
  { intros c0. simpl. by destruct (put ctx c0). }
  repeat case_if.
  - simpl. by destruct (put ctx 37).
  - destruct ap as [|[] ap]; try done. rewrite !fmt_padded_text by (simpl; lia).
    rewrite collect_str. simpl. by destruct (out_str put ctx _).
  - destruct ap as [|[] ap]; try done. rewrite !fmt_padded_text by lia.
    rewrite collect_str. simpl. by destruct (out_str put ctx _).
  - destruct (get_signed lm ap) as [[v ap']|] eqn:E; simpl; [|done]. apply magnitude_range in E.
    rewrite !fmt_number_text by auto. rewrite collect_str. simpl. by destruct (out_str put ctx _).
  - destruct (get_unsigned lm ap) as [[v ap']|] eqn:E; simpl; [|done]. apply get_unsigned_range in E.
    rewrite !fmt_number_text by auto. rewrite collect_str. simpl. by destruct (out_str put ctx _).
  - destruct (get_unsigned lm ap) as [[v ap']|] eqn:E; simpl; [|done]. apply get_unsigned_range in E.
    rewrite !fmt_number_text by auto. rewrite collect_str. simpl. by destruct (out_str put ctx _).
  - destruct (get_unsigned lm ap) as [[v ap']|] eqn:E; simpl; [|done]. apply get_unsigned_range in E.
    rewrite !fmt_number_text by auto. rewrite collect_str. simpl. by destruct (out_str put ctx _).
  - destruct ap as [|[] ap]; try done.
    assert (0 <= u32 a < 2 ^ 64) by (pose proof (u32_range a); unfold is_u32 in *; lia).
    rewrite !fmt_number_text by auto. rewrite collect_str. simpl. by destruct (out_str put ctx _).
  - simpl. destruct (put ctx 37) as [ctx1|]; simpl; [|done]. by destruct (put ctx1 c).
Qed.

Lemma vformat_loop_text fuel : forall {S} (put : S -> Z -> option S) ctx p ap,
  vformat_loop put fuel ctx p ap = (t ← vformat_loop collect fuel [] p ap; out_str put ctx t).
Proof.
  induction fuel as [|k IH]; intros S put ctx p ap; [done|]. cbn [vformat_loop].
  destruct p as [|c p]; [done|]. destruct (negb (c =? 37)).
  - simpl. rewrite (IH _ collect [c]). destruct (put ctx c) as [ctx'|] eqn:E.
    + simpl. rewrite IH. destruct (vformat_loop collect k [] p ap) as [t|]; simpl; [|done].
      rewrite collect_str. simpl. by rewrite E.
    + destruct (vformat_loop collect k [] p ap) as [t|]; simpl; [|done].
      rewrite collect_str. simpl. by rewrite E.
  - destruct (fmt_flags p false false) as [[p1 ljust] zero]. destruct (fmt_width p1 0) as [p2 width].
    destruct (fmt_len_mod p2) as [p3 lm]. rewrite fmt_conversion_text.
    destruct (fmt_conversion collect [] p3 lm width zero ljust ap) as [[t next]|]; simpl; [|done].
    destruct next as [[p4 ap4]|].
    + rewrite (IH _ collect t). destruct (out_str put ctx t) as [ctx'|] eqn:E; simpl.
      * rewrite IH. destruct (vformat_loop collect k [] p4 ap4) as [t'|]; simpl; [|done].
        rewrite collect_str. simpl. by rewrite put_str_app, E.
      * destruct (vformat_loop collect k [] p4 ap4) as [t'|]; simpl; [|done].
        rewrite collect_str. simpl. by rewrite put_str_app, E.
    + cbn [mbind option_bind]. destruct (out_str put ctx t) as [ctx1|]; done.
Qed.

Lemma fmt_vformat_text {S} (put : S -> Z -> option S) ctx fmt ap :
  fmt_vformat put ctx fmt ap = (t ← fmt_text fmt ap; out_str put ctx t).
Proof. apply vformat_loop_text. Qed.

(** ** A reference semantics of formats

    A format as its author reads it: literal characters and directives, each
    with its flags, width and typed argument. *)
Inductive conv : Type :=
  | CPercent
  | CChar (c : Z)
  | CString (s : option (list Z))
  | CSigned (i : bool) (lm : len_mod) (v : Z)  (* [%i] rather than [%d] *)
  | CUnsigned (lm : len_mod) (v : Z)
  | CHex (upper : bool) (lm : len_mod) (v : Z)
  | CPointer (a : Z).

Inductive item : Type :=
  | Literal (c : Z)
  | Directive (ljust zero : bool) (width : Z) (c : conv).

Definition lm_bits (lm : len_mod) : Z := match lm with LM_LLONG => 64 | _ => 32 end.
Definition lm_text (lm : len_mod) : list Z :=
  match lm with LM_INT => [] | LM_LONG => str "l" | LM_LLONG => str "ll" | LM_SIZE => str "z" end.
Definition lm_arg (lm : len_mod) (x : Z) : va :=
  match lm with LM_INT => VInt x | LM_LONG => VLong x | LM_LLONG => VLLong x | LM_SIZE => VSize x end.

(** How an item is written, the arguments it takes, and what it prints. *)
Definition conv_lm (c : conv) : len_mod :=
  match c with CSigned _ lm _ | CUnsigned lm _ | CHex _ lm _ => lm | _ => LM_INT end.
Definition conv_char (c : conv) : Z :=
  match c with
  | CPercent => 37 | CChar _ => 99 | CString _ => 115 | CSigned i _ _ => if i then 105 else 100 | CUnsigned _ _ => 117
  | CHex upper _ _ => if upper then 88 else 120 | CPointer _ => 112
  end.
Definition conv_spec (c : conv) : list Z := lm_text (conv_lm c) ++ [conv_char c].
Definition conv_args (c : conv) : list va :=
  match c with
  | CPercent => [] | CChar c => [VInt c] | CString s => [VStr s]
  | CSigned _ lm v => [lm_arg lm (v mod 2 ^ lm_bits lm)]
  | CUnsigned lm v | CHex _ lm v => [lm_arg lm v]
  | CPointer a => [VPtr a]
  end.
Definition conv_text (c : conv) (width : Z) (zero ljust : bool) : list Z :=
  match c with
  | CPercent => str "%"
  | CChar c => padded None [c] width false ljust
  | CString s => padded None (default (str "(null)") s) width false ljust
  | CSigned _ _ v =>
      padded (if v <? 0 then Some (str "-") else None) (utoa (Z.abs v) 10 false) width zero ljust
  | CUnsigned _ v => padded None (utoa v 10 false) width zero ljust
  | CHex upper _ v => padded None (utoa v 16 upper) width zero ljust
  | CPointer a => padded (Some (str "0x")) (utoa a 16 false) width zero ljust
  end.
Definition conv_ok (c : conv) : Prop :=
  match c with
  | CPercent | CString _ => True
  | CChar c => is_u8 c
  | CSigned _ lm v => - 2 ^ (lm_bits lm - 1) <= v < 2 ^ (lm_bits lm - 1)
  | CUnsigned lm v | CHex _ lm v => 0 <= v < 2 ^ lm_bits lm
  | CPointer a => is_u32 a
  end.

Definition width_spec (width : Z) : list Z := if width =? 0 then [] else utoa width 10 false.
Definition item_spec (i : item) : list Z :=
  match i with
  | Literal c => [c]
  | Directive ljust zero width c =>
      str "%" ++ (if ljust then str "-" else []) ++ (if zero then str "0" else []) ++
      width_spec width ++ conv_spec c
  end.
Definition item_args (i : item) : list va :=
  match i with Literal _ => [] | Directive _ _ _ c => conv_args c end.
Definition item_text (i : item) : list Z :=
  match i with Literal c => [c] | Directive ljust zero width c => conv_text c width zero ljust end.
Definition item_ok (i : item) : Prop :=
  match i with
  | Literal c => c <> 37
  | Directive _ _ width c => 0 <= width <= 4096 /\ conv_ok c
  end.

Lemma digit_char_dec upper d : 0 <= d < 10 -> digit_char upper d = 48 + d.
Proof. intros. unfold digit_char. by if_true. Qed.

Lemma fmt_width_digits ds rest : forall w,
  Forall (fun d => 0 <= d < 10) ds -> 0 <= w ->
  fold_left (fun v d => v * 10 + d) ds w <= 4096 ->
  (forall c, head rest = Some c -> (48 <=? c) && (c <=? 57) = false) ->
  fmt_width (map (digit_char false) ds ++ rest) w = (rest, fold_left (fun v d => v * 10 + d) ds w).
Proof.
  induction ds as [|d ds IH]; intros w Hds Hw Hmax Hrest; simpl.
  - destruct rest as [|c rest]; [done|]. simpl. by rewrite Hrest.
  - inversion_clear Hds as [|? ? Hd Hds'].
    assert (Hge : forall l v, Forall (fun d => 0 <= d < 10) l -> 0 <= v ->
              v <= fold_left (fun v d => v * 10 + d) l v).
    { clear. induction l as [|e l IHl]; intros v Hl Hv; simpl; [lia|]. inversion_clear Hl.
      etrans; [|apply IHl]; [lia|done|lia]. }
    rewrite digit_char_dec by done. simpl in Hmax. pose proof (Hge ds (w * 10 + d) Hds' ltac:(lia)).
    if_true. replace (48 + d - 48) with d by lia. if_false. apply IH; done || lia.
Qed.

Lemma conv_head c rest d :
  head (conv_spec c ++ rest) = Some d -> d <> 45 /\ (48 <=? d) && (d <=? 57) = false.
Proof.
  unfold conv_spec. destruct c as [| | |[] []|[]|[] []|]; simpl; intros [= <-]; done.
Qed.

Lemma conv_len_mod c rest : fmt_len_mod (conv_spec c ++ rest) = (conv_char c :: rest, conv_lm c).
Proof. by destruct c as [| | |[] []|[]|[] []|]. Qed.

Lemma fmt_flags_spec (ljust zero : bool) rest :
  (forall c, head rest = Some c -> c <> 45 /\ c <> 48) ->
  fmt_flags ((if ljust then str "-" else []) ++ (if zero then str "0" else []) ++ rest) false false =
    (rest, ljust, zero).
Proof.
  intros H.
  assert (Hr : forall l z, fmt_flags rest l z = (rest, l, z)).
  { intros l z. destruct rest as [|c rest]; [done|]. simpl.
    destruct (H c eq_refl) as [H1 H2]. ifs. done. }
  destruct ljust, zero; simpl; apply Hr.
Qed.

Lemma fmt_width_spec width rest :
  0 <= width <= 4096 -> (forall c, head rest = Some c -> (48 <=? c) && (c <=? 57) = false) ->
  fmt_width (width_spec width ++ rest) 0 = (rest, width).
Proof.
  intros Hw Hrest. unfold width_spec. destruct (Z.eqb_spec width 0) as [-> |Hnz].
  { simpl. destruct rest as [|c rest]; [done|]. simpl. by rewrite Hrest. }
  pose proof (digits_n_val UTOA_MAX 10 ltac:(lia) width) as Hv. unfold digits_val in Hv.
  change (10 ^ Z.of_nat UTOA_MAX) with 100000000000000000000 in Hv.
  specialize (Hv ltac:(lia) ltac:(unfold UTOA_MAX; lia)).
  unfold utoa, digits. rewrite fmt_width_digits; rewrite ?Hv; try done; try lia.
  apply digits_n_range. lia.
Qed.

Lemma width_spec_head width rest c : 0 <= width <= 4096 ->
  (forall c, head rest = Some c -> c <> 45 /\ c <> 48) ->
  head (width_spec width ++ rest) = Some c -> c <> 45 /\ c <> 48.
Proof.
  intros Hw Hrest. unfold width_spec. destruct (Z.eqb_spec width 0) as [-> |Hnz]; [apply Hrest|].
  unfold utoa. pose proof (digits_n_range UTOA_MAX 10 width ltac:(lia)) as Hr.
  destruct (digits 10 width) as [|d ds] eqn:E; [by apply digits_n_nonempty in E|].
  unfold digits in E. rewrite E in Hr. inversion_clear Hr.
  apply digits_n_head in E; [|lia|change (10 ^ Z.of_nat UTOA_MAX) with 100000000000000000000; lia].
  simpl. intros [= <-]. rewrite digit_char_dec by done. lia.
Qed.

(** The magnitude of a signed value, from its bit pattern. *)
Lemma magnitude_abs v : magnitude v = Z.abs v.
Proof. unfold magnitude. case_if; lia. Qed.

Lemma s32_wrap v : - 2 ^ 31 <= v < 2 ^ 31 -> s32 (u32 (v mod 2 ^ 32)) = v.
Proof. intros. unfold s32. case_if; warith. Qed.
Lemma s64_wrap v : - 2 ^ 63 <= v < 2 ^ 63 -> s64 (v mod 2 ^ 64 mod 18446744073709551616) = v.
Proof. intros. unfold s64. case_if; warith. Qed.

Lemma get_signed_arg lm v ap : - 2 ^ (lm_bits lm - 1) <= v < 2 ^ (lm_bits lm - 1) ->
  get_signed lm (lm_arg lm (v mod 2 ^ lm_bits lm) :: ap) = Some (v, ap).
Proof.
  intros H. destruct lm; simpl in H |- *; do 2 f_equal; try (apply s32_wrap; simpl; lia).
  apply s64_wrap. simpl. lia.
Qed.

Lemma get_unsigned_arg lm v ap : 0 <= v < 2 ^ lm_bits lm ->
  get_unsigned lm (lm_arg lm v :: ap) = Some (v, ap).
Proof.
  intros H. destruct lm; simpl in H |- *; do 2 f_equal; try (apply u32_small; unfold is_u32; lia).
  apply Z.mod_small. lia.
Qed.

(** A directive of the reference semantics is printed as it says. *)
Lemma fmt_conversion_spec c rest ljust zero width ap :
  conv_ok c ->
  fmt_conversion collect [] (conv_char c :: rest) (conv_lm c) width zero ljust (conv_args c ++ ap) =
    Some (conv_text c width zero ljust, Some (rest, ap)).
Proof.
  assert (Hlm : forall lm, 2 ^ lm_bits lm <= 2 ^ 64 /\ 2 ^ (lm_bits lm - 1) <= 2 ^ 63) by by intros [].
  destruct c as [|c|s|i lm v|lm v|upper lm v|a]; intros Hok; unfold fmt_conversion;
    cbn [conv_char conv_lm conv_args app]; cbn [conv_ok] in Hok; ifs.
  - done.
  - rewrite fmt_padded_text by (simpl; lia). rewrite collect_str. simpl. by rewrite u8_small.
  - rewrite fmt_padded_text by lia. rewrite collect_str, firstn_all. by destruct s.
  - destruct i; ifs; rewrite get_signed_arg by done; cbn [mbind option_bind];
    rewrite fmt_number_text by (rewrite ?magnitude_abs; specialize (Hlm lm); auto; lia);
    by rewrite collect_str, magnitude_abs.
  - rewrite get_unsigned_arg by done. cbn [mbind option_bind].
    rewrite fmt_number_text by (specialize (Hlm lm); auto; lia). by rewrite collect_str.
  - destruct upper; ifs; rewrite get_unsigned_arg by done; cbn [mbind option_bind];
      rewrite fmt_number_text by (specialize (Hlm lm); auto; lia); by rewrite collect_str.
  - rewrite fmt_number_text; [|auto|pose proof (u32_range a); unfold is_u32 in *; lia].
    by rewrite collect_str, u32_small.
Qed.

Definition spec_text (its : list item) : list Z := concat (map item_text its).
Definition spec_fmt (its : list item) : list Z := concat (map item_spec its).
Definition spec_args (its : list item) : list va := concat (map item_args its).

Lemma item_spec_loop i rest ap k acc : item_ok i ->
  vformat_loop collect (S k) acc (item_spec i ++ rest) (item_args i ++ ap) =
    vformat_loop collect k (acc ++ item_text i) rest ap.
Proof.
  destruct i as [c|ljust zero width c]; intros Hok; cbn [vformat_loop item_spec item_args item_text item_ok] in *.
  { simpl. if_true. done. }
  destruct Hok as [Hw Hc]. cbn [str]. simpl app at 1. ifs.
  rewrite <-!app_assoc, fmt_flags_spec.
  2:{ intros d Hd. eapply width_spec_head in Hd; [done|done|]. intros e He.
      apply conv_head in He. lia. }
  rewrite fmt_width_spec; [|done|by intros d [_ Hd]%conv_head].
  rewrite conv_len_mod, fmt_conversion_text, fmt_conversion_spec by done.
  cbn [mbind option_bind]. by rewrite collect_str.
Qed.

Lemma fmt_text_spec (its : list item) :
  Forall item_ok its -> fmt_text (spec_fmt its) (spec_args its) = Some (spec_text its).
Proof.
  intros His. unfold fmt_text, fmt_vformat.
  assert (H : forall k acc, (length (spec_fmt its) < k)%nat ->
    vformat_loop collect k acc (spec_fmt its) (spec_args its) = Some (acc ++ spec_text its)).
  { induction His as [|i its Hi His IH]; intros k acc Hk; (destruct k as [|k]; [lia|]).
    { simpl. by rewrite app_nil_r. }
    unfold spec_fmt, spec_args, spec_text in *. cbn [map concat] in *.
    rewrite item_spec_loop by done. rewrite IH, <-app_assoc; [done|].
    rewrite length_app in Hk. assert (0 < length (item_spec i))%nat by (destruct i; simpl; lia). lia. }
  rewrite H by lia. done.
Qed.

(** C31: the formatter prints what its format says: for every format made of
    literal characters and directives -- flags, a width up to the 4096 cap, a documented
    conversion ([%], c, s, d, i, u, x, X, p; l, ll and z before d, i, u, x, X) with an
    argument of its type -- [fmt_vformat] into any sink
    consumes exactly those arguments and sends the sink exactly the reference
    text: in particular signed values down to [LLONG_MIN] print their digits,
    and the loop always terminates. *)
Theorem fmt_vformat_correct {T} (put : T -> Z -> option T) ctx (its : list item) :
  Forall item_ok its ->
  fmt_vformat put ctx (spec_fmt its) (spec_args its) = out_str put ctx (spec_text its).
Proof. intros His. by rewrite fmt_vformat_text, fmt_text_spec. Qed.

Lemma fmt_vformat_correct_witness :
  fmt_vformat collect []
    (str "x=%-6d|%08X|%lli|%s")
    (spec_args [Literal 120; Literal 61; Directive true false 6 (CSigned false LM_INT (-42)); Literal 124;
                Directive false true 8 (CHex true LM_INT 48879); Literal 124;
                Directive false false 0 (CSigned true LM_LLONG (-9223372036854775808)); Literal 124;
                Directive false false 0 (CString None)]) =
  out_str collect [] (str "x=-42   |0000BEEF|-9223372036854775808|(null)").
Proof.
  apply (fmt_vformat_correct collect []
    [Literal 120; Literal 61; Directive true false 6 (CSigned false LM_INT (-42)); Literal 124;
     Directive false true 8 (CHex true LM_INT 48879); Literal 124;
     Directive false false 0 (CSigned true LM_LLONG (-9223372036854775808)); Literal 124;
     Directive false false 0 (CString None)]).
  repeat constructor; simpl; try lia; done.
Defined.

(** ** The bounded buffer *)

(** [struct fmt_snbuf]. *)
Record fmt_snbuf : Type := SnBuf { sn_buf : list Z; sn_size : nat; sn_pos : nat }.

Definition snbuf_putc (s : fmt_snbuf) (c : Z) : option fmt_snbuf :=
  if (sn_pos s + 1 <? sn_size s)%nat then
    buf ← buf_set (sn_buf s) (sn_pos s) c;
    Some (SnBuf buf (sn_size s) (S (sn_pos s)))
  else Some s.

Definition fmt_vsnformat (buf : list Z) (size : nat) (fmt : list Z) (ap : list va)
    : option (list Z * nat) :=
  if (size =? 0)%nat then Some (buf, 0%nat)
  else
    s ← fmt_vformat snbuf_putc (SnBuf buf size 0) fmt ap;
    buf ← buf_set (sn_buf s) (sn_pos s) 0;
    Some (buf, sn_pos s).

Lemma snbuf_str t : forall buf size pos,
  (pos < size)%nat -> (size <= length buf)%nat ->
  out_str snbuf_putc (SnBuf buf size pos) t =
    let t' := take (size - 1 - pos) t in
    Some (SnBuf (splice pos t' buf) size (pos + length t')).
Proof.
  induction t as [|c t IH]; intros buf size pos Hp Hl; simpl.
  { rewrite take_nil, splice_nil, Nat.add_0_r by lia. done. }
  unfold snbuf_putc at 2. cbn [sn_pos sn_size sn_buf].
  destruct (Nat.ltb_spec (pos + 1) size).
  - rewrite buf_set_Some by lia. cbn [mbind option_bind].
    rewrite IH by (rewrite ?length_insert; lia). cbv zeta.
    replace (size - 1 - pos)%nat with (S (size - 1 - S pos)) by lia. cbn [take].
    rewrite splice_insert by lia. simpl. do 2 f_equal. lia.
  - cbn [mbind option_bind]. rewrite IH by lia. cbv zeta.
    by replace (size - 1 - pos)%nat with 0%nat by lia.
Qed.

Lemma fmt_vsnformat_text (buf : list Z) (size : nat) (fmt : list Z) ap text :
  fmt_text fmt ap = Some text -> (0 < size <= length buf)%nat ->
  let t := take (size - 1) text in
  fmt_vsnformat buf size fmt ap = Some (splice 0 (t ++ [0]) buf, length t).
Proof.
  intros Htext Hs t. assert (Ht : (length t < size)%nat) by (unfold t; rewrite length_take; lia).
  unfold fmt_vsnformat. destruct (Nat.eqb_spec size 0); [lia|].
  rewrite fmt_vformat_text, Htext. cbn [mbind option_bind].
  rewrite snbuf_str by lia. cbv zeta. cbn [mbind option_bind sn_buf sn_pos].
  rewrite Nat.sub_0_r. fold t. rewrite Nat.add_0_l, buf_set_Some by (rewrite length_splice; lia).
  cbn [mbind option_bind]. do 2 f_equal.
  rewrite <-(splice_splice_app 0 t [0]) by (simpl; lia). rewrite Nat.add_0_l.
  rewrite <-splice_insert, splice_nil by (rewrite ?length_insert, ?length_splice; lia). done.
Qed.

(** the bounded formatter never writes outside the [size] bytes it is
    given: it stores the longest prefix of the text that leaves room for the
    NUL, terminates it, changes no other byte and returns the stored length. *)
Theorem fmt_vsnformat_correct (buf : list Z) (size : nat) (its : list item) :
  Forall item_ok its -> (0 < size <= length buf)%nat ->
  let t := take (size - 1) (spec_text its) in
  fmt_vsnformat buf size (spec_fmt its) (spec_args its) =
    Some (splice 0 (t ++ [0]) buf, length t) /\ (length t < size)%nat.
Proof.
  intros His Hs t. split; [|unfold t; rewrite length_take; lia].
  apply fmt_vsnformat_text; [by apply fmt_text_spec|done].
Qed.

Lemma fmt_vsnformat_correct_witness :
  let t := take 7 (spec_text [Literal 61; Directive false true 9 (CUnsigned LM_INT 42)]) in
  fmt_vsnformat (replicate 10 255) 8 (str "=%09u") [VInt 42] =
    Some (splice 0 (t ++ [0]) (replicate 10 255), length t) /\ (length t < 8)%nat.
Proof.
  apply (fmt_vsnformat_correct (replicate 10 255) 8
           [Literal 61; Directive false true 9 (CUnsigned LM_INT 42)]).
  - repeat constructor; simpl; lia.
  - simpl; lia.
Defined.
