(* ===== verification/Values.v ===== *)
(** * Argument values ([src/shell/core/cli_parse.c], second half)

    The number and address parsers every command uses, over the characters of
    a token: a pointer into the token is the part of the token it points at,
    read as NUL at its end.  The theorems tie them to the digits the formatter
    [Fmt] prints. *)

From S2P Require Import Prelude Fmt.
Local Open Scope Z_scope.

(** [*p]. *)
Definition deref (p : list Z) : Z := match p with [] => 0 | c :: _ => c end.

(** The digit of one character, as [cli_parse_u32] decodes it. *)
Definition u32_digit (base c : Z) : option Z :=
  if (48 <=? c) && (c <=? 57) then Some (c - 48)
  else if (base =? 16) && (97 <=? c) && (c <=? 102) then Some (c - 97 + 10)
  else if (base =? 16) && (65 <=? c) && (c <=? 70) then Some (c - 65 + 10)
  else None.

Fixpoint u32_loop (base : Z) (p : list Z) (val : Z) : option Z :=
  match p with
  | [] => Some val
  | c :: p =>
      d ← u32_digit base c;
      if (4294967295 - d) / base <? val then None
      else u32_loop base p (u32 (val * base + d))
  end.

(** [None] is the return value -1. *)
Definition cli_parse_u32 (s : option (list Z)) : option Z :=
  match s with
  | None => None
  | Some p =>
      if deref p =? 0 then None
      else
        let hex := (deref p =? 48) && ((deref (tail p) =? 120) || (deref (tail p) =? 88)) in
        let base := if hex then 16 else 10 in
        let p := if hex then drop 2 p else p in
        if deref p =? 0 then None else u32_loop base p 0
  end.

(** The octet loop of [cli_parse_ipv4]: the value, the number of digits, and
    the rest. *)
Fixpoint octet_loop (p : list Z) (v : Z) (digits : nat) : option (Z * nat * list Z) :=
  match p with
  | c :: p' =>
      if (48 <=? c) && (c <=? 57) then
        let v := u32 (u32 (v * 10) + (c - 48)) in
        if 255 <? v then None else octet_loop p' v (S digits)
      else Some (v, digits, p)
  | [] => Some (v, digits, p)
  end.

(** [for (;;)]: every round but the last consumes a dot; [b] are the octets. *)
Fixpoint ipv4_loop (fuel : nat) (p : list Z) (b : list Z) : option (list Z) :=
  match fuel with
  | O => None
  | S k =>
      '(v, digits, p) ← octet_loop p 0 0;
      if (digits =? 0)%nat || (3 <? length b)%nat then None
      else
        let b := b ++ [v] in
        match p with
        | [] => Some b
        | c :: p => if c =? 46 then ipv4_loop k p b else None
        end
  end.

Definition cli_parse_ipv4 (s : option (list Z)) : option Z :=
  match s with
  | None => None
  | Some p =>
      b ← ipv4_loop (S (length p)) p [];
      if negb (length b =? 4)%nat then None
      else
        let at_ i := nth i b 0 in
        Some (Z.lor (Z.lor (Z.lor (u32 (Z.shiftl (at_ 0%nat) 24)) (u32 (Z.shiftl (at_ 1%nat) 16)))
                           (u32 (Z.shiftl (at_ 2%nat) 8))) (at_ 3%nat))
  end.

(** The copy loop of [cli_parse_ipv4_cidr]: at most 19 characters up to the
    slash; the result is the copy and, past a slash, what follows it. *)
Fixpoint cidr_scan (p : list Z) (buf : list Z) : option (list Z * option (list Z)) :=
  match p with
  | [] => Some (buf, None)
  | c :: p =>
      if c =? 47 then Some (buf, Some p)
      else if (20 - 1 <=? length buf)%nat then None
      else cidr_scan p (buf ++ [c])
  end.

Definition cli_parse_ipv4_cidr (s : option (list Z)) : option (Z * Z) :=
  match s with
  | None => None
  | Some p =>
      '(buf, slash) ← cidr_scan p [];
      slash ← slash;
      ip ← cli_parse_ipv4 (Some buf);
      bits ← cli_parse_u32 (Some slash);
      if 32 <? bits then None
      else Some (ip, if bits =? 0 then 0 else u32 (Z.shiftl 4294967295 (32 - bits)))
  end.

(** [while (mask & 0x80000000u) { n++; mask <<= 1; }] *)
Fixpoint mask_loop (fuel : nat) (mask : Z) (n : nat) : option nat :=
  match fuel with
  | O => None
  | S k => if Z.land mask 2147483648 =? 0 then Some n else mask_loop k (u32 (Z.shiftl mask 1)) (S n)
  end.
Definition cli_ipv4_mask_bits (mask : Z) : option nat := mask_loop 33 mask 0.

(** ** Numbers *)

(** The digits [cli_parse_u32] accepts in a base. *)
Definition u32_digits (base : Z) (p ds : list Z) : Prop := Forall2 (fun c d => u32_digit base c = Some d) p ds.

Lemma u32_digit_range base c d : base = 10 \/ base = 16 -> u32_digit base c = Some d -> 0 <= d < base.
Proof. unfold u32_digit. intros Hb H. repeat case_if_in H; simplify_eq; lia. Qed.

Lemma digits_val_ge base ds v : 2 <= base -> Forall (fun d => 0 <= d) ds -> 0 <= v ->
  v <= fold_left (fun v d => v * base + d) ds v.
Proof.
  intros Hb Hds. revert v. induction Hds as [|d ds Hd Hds IH]; intros v Hv; simpl; [lia|].
  etrans; [|apply IH]; nia.
Qed.

(** The overflow check is exact. *)
Lemma u32_loop_spec base p ds : base = 10 \/ base = 16 -> u32_digits base p ds ->
  forall v, 0 <= v < 4294967296 ->
  u32_loop base p v =
    let r := fold_left (fun v d => v * base + d) ds v in
    if r <? 4294967296 then Some r else None.
Proof.
  intros Hb. induction 1 as [|c d p ds Hd Hp IH]; intros v Hv; simpl.
  { by if_true. }
  rewrite Hd. cbn [mbind option_bind]. apply u32_digit_range in Hd as Hr; [|done].
  assert (Hds : Forall (fun d => 0 <= d) ds).
  { clear -Hp Hb. induction Hp as [|c d p ds Hd _ IH]; [constructor|].
    apply u32_digit_range in Hd; [|done]. constructor; [lia|done]. }
  pose proof (Z.div_mod (4294967295 - d) base ltac:(lia)).
  pose proof (Z.mod_pos_bound (4294967295 - d) base ltac:(lia)).
  destruct (Z.ltb_spec ((4294967295 - d) / base) v) as [Hov|Hov].
  - pose proof (digits_val_ge base ds (v * base + d) ltac:(lia) Hds ltac:(nia)).
    assert (4294967296 <= v * base + d) by nia. cbv zeta. by if_false.
  - assert (0 <= v * base + d < 4294967296) by nia.
    rewrite u32_small by done. by apply IH.
Qed.

Lemma u32_loop_bad base p v c : In c p -> u32_digit base c = None -> u32_loop base p v = None.
Proof.
  intros Hin Hc. revert v. induction p as [|c' p IH]; intros v; simpl; [done|].
  destruct Hin as [-> |Hin]; [by rewrite Hc|].
  destruct (u32_digit base c'); simpl; [|done]. case_if; [done|]. by apply IH.
Qed.

(** A text is all digits, or has a bad character. *)
Lemma u32_digits_dec base p : (exists ds, u32_digits base p ds) \/ exists c, In c p /\ u32_digit base c = None.
Proof.
  induction p as [|c p [[ds IH]|(c' & Hin & Hc')]].
  - left. exists []. constructor.
  - destruct (u32_digit base c) as [d|] eqn:E.
    + left. exists (d :: ds). by constructor.
    + right. exists c. split; [by left|done].
  - right. exists c'. split; [by right|done].
Qed.

(** How a number is written: decimal, or hexadecimal after a [0x]. *)
Definition number_text (s : list Z) (base : Z) (body : list Z) : Prop :=
  body <> [] /\
  (base = 10 /\ s = body /\ ~ (exists x r, s = 48 :: x :: r /\ (x = 120 \/ x = 88)) \/
   base = 16 /\ exists x, (x = 120 \/ x = 88) /\ s = 48 :: x :: body).

Lemma deref_zero p : Forall (fun c : Z => c <> 0) p -> (deref p =? 0) = true <-> p = [].
Proof. intros [|c p' Hc _]; simpl; [done|]. split; [lia|done]. Qed.

Lemma number_text_inj s b1 t1 b2 t2 : number_text s b1 t1 -> number_text s b2 t2 -> b1 = b2 /\ t1 = t2.
Proof.
  intros [_ [(-> & <- & H1)|(-> & x & Hx & E1)]] [_ [(-> & <- & H2)|(-> & y & Hy & E2)]]; simplify_eq.
  - done.
  - exfalso. apply H1. by exists y, t2.
  - exfalso. apply H2. by exists x, t1.
  - done.
Qed.

(** [cli_parse_u32] on the text of a number is the loop over its digits; on any
    other text it fails. *)
Lemma cli_parse_u32_text s : Forall (fun c : Z => c <> 0) s ->
  (exists base body, number_text s base body /\ cli_parse_u32 (Some s) = u32_loop base body 0) \/
  (forall base body, ~ number_text s base body) /\ cli_parse_u32 (Some s) = None.
Proof.
  intros Hs. unfold cli_parse_u32. destruct (deref s =? 0) eqn:E0.
  { apply deref_zero in E0 as ->; [|done]. right. split; [|done].
    intros b t [Hne [(_ & <- & _)|(_ & x & _ & [=])]]. done. }
  set (hex := _ && _). destruct hex eqn:Eh; subst hex; cbv zeta.
  - destruct s as [|c [|x r]]; simpl in *; try lia. assert (c = 48) as -> by lia.
    assert (Hx : x = 120 \/ x = 88) by lia. inversion_clear Hs as [|? ? _ Hs']. inversion_clear Hs'.
    rewrite drop_0. destruct (deref r =? 0) eqn:Er.
    + apply deref_zero in Er as ->; [|done]. right. split; [|done].
      intros b t [Hne [(_ & <- & Hnp)|(_ & y & _ & [= _ <-])]]; [|done]. apply Hnp. by exists x, [].
    + left. exists 16, r. split; [|done]. split; [by intros ->|]. right. split; [done|]. by exists x.
  - rewrite E0. left. exists 10, s. split; [|done]. split; [by intros ->|]. left. do 2 (split; [done|]).
    intros (x & r & -> & Hx). simpl in Eh. lia.
Qed.

(** [cli_parse_u32] is exact: it accepts precisely the decimal texts and
    the hexadecimal texts after [0x] or [0X] whose value fits 32 bits, and
    answers that value; empty text, a bare [0x], a stray character and an
    overflow are refused. *)
Theorem cli_parse_u32_correct (s : list Z) (v : Z) :
  Forall (fun c : Z => c <> 0) s ->
  cli_parse_u32 (Some s) = Some v <->
    exists base body ds, number_text s base body /\ u32_digits base body ds /\
      digits_val base ds = v /\ 0 <= v < 4294967296.
Proof.
  intros Hs. destruct (cli_parse_u32_text s Hs) as [(base & body & Ht & ->)|[Hno ->]].
  2:{ split; [done|]. intros (base & body & ds & Ht & _). by apply Hno in Ht. }
  assert (Hb : base = 10 \/ base = 16) by (destruct Ht as [_ [[-> _]|[-> _]]]; auto).
  split.
  - intros Hv. destruct (u32_digits_dec base body) as [[ds Hds]|(c & Hin & Hc)].
    2:{ by rewrite (u32_loop_bad _ _ _ _ Hin Hc) in Hv. }
    rewrite (u32_loop_spec _ _ _ Hb Hds) in Hv by lia. cbv zeta in Hv. fold (digits_val base ds) in Hv.
    exists base, body, ds. do 2 (split; [done|]). case_if_in Hv; simplify_eq. split; [done|].
    split; [|lia]. apply digits_val_ge; [lia| |lia]. clear -Hds Hb.
    induction Hds as [|c d p ds Hd _ IH]; [constructor|].
    apply u32_digit_range in Hd; [|done]. constructor; [lia|done].
  - intros (base' & body' & ds & Ht' & Hds & Hv & Hr).
    destruct (number_text_inj _ _ _ _ _ Ht Ht') as [<- <-].
    rewrite (u32_loop_spec _ _ _ Hb Hds) by lia. cbv zeta. fold (digits_val base ds). rewrite Hv. by if_true.
Qed.

Lemma cli_parse_u32_correct_witness :
  cli_parse_u32 (Some (str "0xFFFFFFFF")) = Some 4294967295 <->
    exists base body ds, number_text (str "0xFFFFFFFF") base body /\ u32_digits base body ds /\
      digits_val base ds = 4294967295 /\ 0 <= 4294967295 < 4294967296.
Proof. apply (cli_parse_u32_correct (str "0xFFFFFFFF")). repeat constructor; done. Defined.

Lemma u32_digit_char base upper d : base = 10 \/ base = 16 -> 0 <= d < base ->
  u32_digit base (digit_char upper d) = Some d.
Proof.
  intros Hb Hd. unfold u32_digit, digit_char. destruct (Z.ltb_spec d 10).
  - if_true. f_equal. lia.
  - assert (base = 16) as -> by lia. destruct upper; ifs; f_equal; lia.
Qed.

Lemma utoa_u32_digits base upper mag : base = 10 \/ base = 16 ->
  u32_digits base (utoa mag base upper) (digits base mag).
Proof.
  intros Hb. unfold u32_digits, utoa. pose proof (digits_n_range UTOA_MAX base mag ltac:(lia)) as Hr.
  unfold digits. induction Hr as [|d ds Hd _ IH]; simpl; constructor; [by apply u32_digit_char|done].
Qed.

Lemma digits_small base v : base = 10 \/ base = 16 -> 0 <= v < 4294967296 -> digits_val base (digits base v) = v.
Proof.
  intros Hb Hv. pose proof (utoa_fits base Hb) as [H2 H64].
  apply digits_n_val; [done| |unfold UTOA_MAX; lia]. lia.
Qed.

(** The decimal text of a number never reads as a [0x] prefix. *)
Lemma utoa_no_prefix v x r upper : utoa v 10 upper = x :: r ->
  Forall (fun c => 48 <= c <= 57) (x :: r).
Proof.
  intros <-. unfold utoa. apply Forall_map. eapply Forall_impl; [apply (digits_n_range UTOA_MAX 10 v); lia|].
  simpl. intros d Hd. rewrite digit_char_dec by done. lia.
Qed.

Lemma cli_parse_u32_hex p :
  cli_parse_u32 (Some (48 :: 120 :: p)) = if deref p =? 0 then None else u32_loop 16 p 0.
Proof. by destruct p. Qed.

(** print and parse round-trip: what [%u], [%x] after [0x], or [%X] after
    [0x] print of any 32-bit value, [cli_parse_u32] reads back as that value. *)
Theorem u32_print_parse (v : Z) (upper : bool) :
  0 <= v < 4294967296 ->
  (t ← fmt_text (str "%u") [VInt v]; cli_parse_u32 (Some t)) = Some v /\
  (t ← fmt_text (str "0x" ++ (if upper then str "%X" else str "%x")) [VInt v];
   cli_parse_u32 (Some t)) = Some v.
Proof.
  intros Hv. split.
  - pose proof (fmt_text_spec [Directive false false 0 (CUnsigned LM_INT v)]) as Ht.
    change (spec_fmt _) with (str "%u") in Ht. change (spec_args _) with [VInt v] in Ht.
    rewrite Ht by (repeat constructor; simpl; lia). clear Ht. cbn [mbind option_bind].
    unfold spec_text. cbn [map concat item_text conv_text]. rewrite app_nil_r.
    unfold padded. cbn [default]. rewrite app_nil_l, Nat.add_0_l.
    replace (Z.to_nat _) with 0%nat by lia. simpl replicate. rewrite app_nil_l.
    pose proof (utoa_nonempty v 10 false) as Hne. destruct (utoa v 10 false) as [|c r] eqn:E; [simpl in Hne; lia|].
    pose proof (utoa_no_prefix _ _ _ _ E) as Hd. unfold cli_parse_u32.
    inversion Hd as [|? ? Hc Hr]; subst. simpl deref. if_false.
    replace (_ && (_ || _)) with false.
    2:{ symmetry. apply andb_false_iff. right. destruct Hr; simpl; lia. }
    cbv iota zeta. simpl deref. if_false. rewrite <-E.
    rewrite (u32_loop_spec 10 _ _ (or_introl eq_refl) (utoa_u32_digits 10 false v (or_introl eq_refl))) by lia.
    cbv zeta. fold (digits_val 10 (digits 10 v)). rewrite digits_small by auto. by if_true.
  - pose proof (fmt_text_spec [Literal 48; Literal 120; Directive false false 0 (CHex upper LM_INT v)]) as Ht.
    replace (spec_fmt _) with (str "0x" ++ (if upper then str "%X" else str "%x")) in Ht by by destruct upper.
    change (spec_args _) with [VInt v] in Ht.
    rewrite Ht by (repeat constructor; simpl; lia). clear Ht. cbn [mbind option_bind].
    unfold spec_text. cbn [map concat item_text conv_text]. rewrite app_nil_r.
    unfold padded. cbn [default]. rewrite app_nil_l, Nat.add_0_l.
    replace (Z.to_nat _) with 0%nat by lia. simpl replicate. rewrite app_nil_l.
    cbn [app]. rewrite cli_parse_u32_hex.
    pose proof (utoa_u32_digits 16 upper v (or_intror eq_refl)) as Hd.
    pose proof (utoa_nonempty v 16 upper) as Hne.
    destruct (utoa v 16 upper) as [|c r] eqn:E; [simpl in Hne; lia|].
    assert (Hc : (deref (c :: r) =? 0) = false).
    { inversion Hd as [|? ? ? ? Hdc]; subst. simpl. apply Z.eqb_neq. intros ->. done. }
    rewrite Hc. rewrite (u32_loop_spec 16 _ _ (or_intror eq_refl) Hd) by lia.
    cbv zeta. fold (digits_val 16 (digits 16 v)). rewrite digits_small by auto. by if_true.
Qed.

Lemma u32_print_parse_witness :
  (t ← fmt_text (str "%u") [VInt 4026531840]; cli_parse_u32 (Some t)) = Some 4026531840 /\
  (t ← fmt_text (str "0x%X") [VInt 4026531840]; cli_parse_u32 (Some t)) = Some 4026531840.
Proof. apply (u32_print_parse 4026531840 true). lia. Defined.

(** ** Addresses *)

Definition octet (t : list Z) (v : Z) : Prop :=
  t <> [] /\ exists ds, u32_digits 10 t ds /\ digits_val 10 ds = v /\ v <= 255.

(** Texts joined by dots. *)
Fixpoint dotted (ts : list (list Z)) : list Z :=
  match ts with
  | [] => []
  | [t] => t
  | t :: ts => t ++ 46 :: dotted ts
  end.

Definition is_digit (c : Z) : bool := (48 <=? c) && (c <=? 57).

Lemma u32_digit_10 c : u32_digit 10 c = if is_digit c then Some (c - 48) else None.
Proof. unfold u32_digit, is_digit. case_if; [done|]. done. Qed.

Lemma span_digits p : exists t r ds, p = t ++ r /\ u32_digits 10 t ds /\
  (forall c, head r = Some c -> is_digit c = false).
Proof.
  induction p as [|c p (t & r & ds & -> & Hd & Hr)].
  { exists [], [], []. split; [done|]. split; [constructor|done]. }
  destruct (is_digit c) eqn:E.
  - exists (c :: t), r, (c - 48 :: ds). split; [done|]. split; [|done].
    constructor; [by rewrite u32_digit_10, E|done].
  - exists [], (c :: t ++ r), []. split; [done|]. split; [constructor|]. by intros ? [= <-].
Qed.

Lemma octet_loop_spec t ds r : u32_digits 10 t ds ->
  (forall c, head r = Some c -> is_digit c = false) ->
  forall v n, 0 <= v <= 255 ->
  octet_loop (t ++ r) v n =
    let x := fold_left (fun v d => v * 10 + d) ds v in
    if x <=? 255 then Some (x, (n + length t)%nat, r) else None.
Proof.
  intros Ht Hr. induction Ht as [|c d t ds Hd Ht IH]; intros v n Hv; simpl.
  - if_true. rewrite Nat.add_0_r. destruct r as [|c r]; [done|]. simpl.
    specialize (Hr c eq_refl). unfold is_digit in Hr. by rewrite Hr.
  - rewrite u32_digit_10 in Hd. destruct (is_digit c) eqn:E; [|done]. injection Hd as <-.
    unfold is_digit in E. rewrite E. rewrite (u32_small (v * 10)) by (unfold is_u32; lia).
    rewrite u32_small by (unfold is_u32; lia). cbv zeta.
    destruct (Z.ltb_spec 255 (v * 10 + (c - 48))) as [Hov|Hov].
    + assert (Hds : Forall (fun d => 0 <= d) ds).
      { clear -Ht. induction Ht as [|c' d' t ds Hd _ IH]; [constructor|].
        apply u32_digit_range in Hd; [|by left]. constructor; [lia|done]. }
      pose proof (digits_val_ge 10 ds (v * 10 + (c - 48)) ltac:(lia) Hds ltac:(lia)). by if_false.
    + rewrite IH by lia. cbv zeta. case_if; [|done]. do 3 f_equal. lia.
Qed.

Lemma span_unique t1 ds1 : u32_digits 10 t1 ds1 -> forall t2 ds2 r1 r2, u32_digits 10 t2 ds2 ->
  (forall c, head r1 = Some c -> is_digit c = false) ->
  (forall c, head r2 = Some c -> is_digit c = false) ->
  t1 ++ r1 = t2 ++ r2 -> t1 = t2 /\ ds1 = ds2 /\ r1 = r2.
Proof.
  induction 1 as [|c d t1 ds1 Hd _ IH]; intros t2 ds2 r1 r2 H2 Hr1 Hr2 E;
    destruct H2 as [|c' d' t2 ds2 Hd' H2]; simpl in E.
  - done.
  - exfalso. subst r1. specialize (Hr1 _ eq_refl). by rewrite u32_digit_10, Hr1 in Hd'.
  - exfalso. subst r2. specialize (Hr2 _ eq_refl). by rewrite u32_digit_10, Hr2 in Hd.
  - injection E as -> E. rewrite Hd in Hd'. injection Hd' as <-.
    by destruct (IH t2 ds2 r1 r2 H2 Hr1 Hr2 E) as (-> & -> & ->).
Qed.

(** Reading the first octet of a dotted text. *)
Lemma dotted_first t ds r ts vs :
  u32_digits 10 t ds -> (forall c, head r = Some c -> is_digit c = false) ->
  t ++ r = dotted ts -> ts <> [] -> Forall2 octet ts vs ->
  exists ts' vs', ts = t :: ts' /\ vs = digits_val 10 ds :: vs' /\ octet t (digits_val 10 ds) /\
    Forall2 octet ts' vs' /\ (r = [] /\ ts' = [] \/ r = 46 :: dotted ts' /\ ts' <> []).
Proof.
  intros Ht Hr E Hne Hf. destruct Hf as [|t1 v1 ts' vs' Ho Hf]; [done|].
  pose proof Ho as (Hne1 & ds1 & Hd1 & <- & Hv).
  assert (E' : t ++ r = t1 ++ match ts' with [] => [] | _ => 46 :: dotted ts' end).
  { rewrite E. destruct ts'; [by rewrite app_nil_r|done]. }
  assert (Hr' : forall c, head (match ts' with [] => [] | _ => 46 :: dotted ts' end) = Some c ->
                  is_digit c = false).
  { intros c. destruct ts'; simpl; [done|]. by intros [= <-]. }
  destruct (span_unique t ds Ht t1 ds1 _ _ Hd1 Hr Hr' E') as (-> & -> & ->).
  exists ts', vs'. do 4 (split; [done|]). destruct ts'; [by left|by right].
Qed.

(** The octet loop reads a dotted text and nothing else. *)
Lemma ipv4_loop_spec k : forall p b b', (length p < k)%nat ->
  ipv4_loop k p b = Some b' <->
    exists ts vs, p = dotted ts /\ ts <> [] /\ Forall2 octet ts vs /\ b' = b ++ vs /\ (length b' <= 4)%nat.
Proof.
  induction k as [|k IH]; intros p b b' Hk; [lia|]. cbn [ipv4_loop].
  destruct (span_digits p) as (t & r & ds & -> & Ht & Hr).
  rewrite (octet_loop_spec _ _ _ Ht Hr) by lia. cbv zeta. fold (digits_val 10 ds).
  assert (Hsplit : forall ts vs, t ++ r = dotted ts -> ts <> [] -> Forall2 octet ts vs -> _) by
    (intros ts vs; exact (dotted_first t ds r ts vs Ht Hr)).
  destruct (Z.leb_spec (digits_val 10 ds) 255) as [Hv|Hv]; cbn [mbind option_bind].
  2:{ split; [done|]. intros (ts & vs & E & Hne & Hf & _).
      destruct (Hsplit _ _ E Hne Hf) as (ts' & vs' & _ & _ & (_ & ds' & Hds' & Hval & Hle) & _). lia. }
  rewrite Nat.add_0_l. destruct ((length t =? 0)%nat || (3 <? length b)%nat) eqn:Eb.
  { split; [done|]. intros (ts & vs & E & Hne & Hf & -> & Hl).
    destruct (Hsplit _ _ E Hne Hf) as (ts' & vs' & -> & -> & (Hne' & _) & _).
    rewrite length_app in Hl. simpl in Hl. destruct t; [done|]. simpl in Eb. lia. }
  assert (Ho : octet t (digits_val 10 ds)).
  { split; [by intros ->|]. by exists ds. }
  destruct r as [|c r].
  - split.
    + intros [= <-]. exists [t], [digits_val 10 ds]. rewrite app_nil_r. do 2 (split; [done|]).
      split; [by constructor|]. split; [done|]. rewrite length_app. simpl. lia.
    + intros (ts & vs & E & Hne & Hf & -> & Hl).
      destruct (Hsplit _ _ E Hne Hf) as (ts' & vs' & -> & -> & _ & Hf' & [[_ ->]|[[=] _]]).
      by inversion Hf'.
  - destruct (Z.eqb_spec c 46) as [-> |Hc].
    + rewrite IH by (rewrite length_app in Hk; simpl in Hk; lia). split.
      * intros (ts & vs & -> & Hne & Hf & -> & Hl). exists (t :: ts), (digits_val 10 ds :: vs).
        split; [by destruct ts|]. split; [done|]. split; [by constructor|].
        by rewrite <-app_assoc in Hl |- *.
      * intros (ts & vs & E & Hne & Hf & -> & Hl).
        destruct (Hsplit _ _ E Hne Hf) as (ts' & vs' & -> & -> & _ & Hf' & [[[=] _]|[[= ->] Hne']]).
        exists ts', vs'. do 3 (split; [done|]). by rewrite <-app_assoc.
    + split; [done|]. intros (ts & vs & E & Hne & Hf & _).
      destruct (Hsplit _ _ E Hne Hf) as (ts' & vs' & _ & _ & _ & _ & [[[=] _]|[[= -> _] _]]). done.
Qed.

Definition ipv4_value (a b c d : Z) : Z := a * 16777216 + b * 65536 + c * 256 + d.

Lemma ipv4_pack a b c d : 0 <= a <= 255 -> 0 <= b <= 255 -> 0 <= c <= 255 -> 0 <= d <= 255 ->
  Z.lor (Z.lor (Z.lor (u32 (Z.shiftl a 24)) (u32 (Z.shiftl b 16))) (u32 (Z.shiftl c 8))) d =
    ipv4_value a b c d.
Proof.
  intros Ha Hb Hc Hd. rewrite !Z.shiftl_mul_pow2 by lia.
  rewrite !u32_small by (unfold is_u32; lia). rewrite <-!Z.shiftl_mul_pow2 by lia.
  rewrite Z.lor_comm, (Z.lor_comm _ (Z.shiftl c 8)), (Z.lor_comm (Z.shiftl a 24)), !Z.lor_assoc.
  rewrite (lor_shiftl_add 8), (lor_shiftl_add 16), (lor_shiftl_add 24) by (simpl; lia).
  unfold ipv4_value. simpl. lia.
Qed.

Lemma octet_range t v : octet t v -> 0 <= v <= 255.
Proof.
  intros (_ & ds & Hds & <- & Hle). split; [|done]. apply digits_val_ge; [lia| |lia].
  clear Hle. induction Hds as [|c d p ds Hd _ IH]; [constructor|].
  apply u32_digit_range in Hd; [|by left]. constructor; [lia|done].
Qed.

(** [cli_parse_ipv4] is exact: it accepts precisely four decimal octets
    between 0 and 255 joined by dots, and packs them most significant first. *)
Theorem cli_parse_ipv4_correct (s : list Z) (ip : Z) :
  cli_parse_ipv4 (Some s) = Some ip <->
    exists t0 t1 t2 t3 a b c d, s = dotted [t0; t1; t2; t3] /\
      octet t0 a /\ octet t1 b /\ octet t2 c /\ octet t3 d /\ ip = ipv4_value a b c d.
Proof.
  unfold cli_parse_ipv4. split.
  - destruct (ipv4_loop (S (length s)) s []) as [b'|] eqn:E; cbn [mbind option_bind]; [|done].
    apply ipv4_loop_spec in E as (ts & vs & -> & Hne & Hf & -> & Hl); [|lia]. rewrite app_nil_l in *.
    destruct (Nat.eqb_spec (length vs) 4) as [E4|E4]; cbn [negb]; [|done].
    destruct vs as [|a [|b [|c [|d [|]]]]]; try done.
    repeat match goal with
    | H : Forall2 octet _ (_ :: _) |- _ => inversion H; clear H; subst
    | H : Forall2 octet _ [] |- _ => inversion H; clear H; subst
    end.
    cbn [nth]. rewrite ipv4_pack by (eapply octet_range; done). intros [= <-].
    eexists _, _, _, _, a, b, c, d. by split_and!.
  - intros (t0 & t1 & t2 & t3 & a & b & c & d & -> & H0 & H1 & H2 & H3 & ->).
    assert (Hl : ipv4_loop (S (length (dotted [t0; t1; t2; t3]))) (dotted [t0; t1; t2; t3]) [] = Some [a; b; c; d]).
    { apply ipv4_loop_spec; [lia|]. exists [t0; t1; t2; t3], [a; b; c; d].
      split_and!; try done. constructor; [done|]; constructor; [done|]; constructor; [done|]; constructor; [done|constructor]. }
    rewrite Hl. cbn [mbind option_bind nth]. simpl negb. cbv iota.
    by rewrite ipv4_pack by (eapply octet_range; done).
Qed.

Lemma cli_parse_ipv4_correct_witness : cli_parse_ipv4 (Some (str "192.168.1.0")) = Some 3232235776.
Proof.
  apply (proj2 (cli_parse_ipv4_correct (str "192.168.1.0") 3232235776)).
  exists (str "192"), (str "168"), (str "1"), (str "0"), 192, 168, 1, 0.
  split_and!; try reflexivity; (split; [done|]).
  - exists [1; 9; 2]. split_and!; [by repeat constructor|done|lia].
  - exists [1; 6; 8]. split_and!; [by repeat constructor|done|lia].
  - exists [1]. split_and!; [by repeat constructor|done|lia].
  - exists [0]. split_and!; [by repeat constructor|done|lia].
Defined.

Lemma land_top x : Z.land x 2147483648 = if Z.testbit x 31 then 2147483648 else 0.
Proof.
  apply Z.bits_inj'. intros n Hn. rewrite Z.land_spec. change 2147483648 with (2 ^ 31).
  rewrite Z.pow2_bits_eqb by lia. destruct (Z.eqb_spec 31 n) as [<-|Hne].
  - destruct (Z.testbit x 31); [by rewrite Z.pow2_bits_true by lia|by rewrite Z.bits_0].
  - rewrite andb_false_r. destruct (Z.testbit x 31); [|by rewrite Z.bits_0].
    symmetry. apply Z.pow2_bits_false. lia.
Qed.

Lemma testbit_u32_shiftl x n i : 0 <= n -> 0 <= i < 32 -> Z.testbit (u32 (Z.shiftl x n)) i = Z.testbit x (i - n).
Proof.
  intros Hn Hi. unfold u32. change 4294967296 with (2 ^ 32).
  rewrite Z.mod_pow2_bits_low by lia. by rewrite Z.shiftl_spec by lia.
Qed.

Lemma mask_loop_spec mask : forall fuel n, (n + fuel = 33)%nat ->
  (forall i, 0 <= i < Z.of_nat n -> Z.testbit mask (31 - i) = true) ->
  exists m, mask_loop fuel (u32 (Z.shiftl mask (Z.of_nat n))) n = Some m /\ (m <= 32)%nat /\
    (forall i, 0 <= i < Z.of_nat m -> Z.testbit mask (31 - i) = true) /\
    ((m < 32)%nat -> Z.testbit mask (31 - Z.of_nat m) = false).
Proof.
  induction fuel as [|k IH]; intros n Hn Hbits.
  { exfalso. assert (H : Z.testbit mask (-1) = true) by (apply (Hbits 32); lia). done. }
  cbn [mask_loop]. rewrite land_top, testbit_u32_shiftl by lia.
  destruct (Z.testbit mask (31 - Z.of_nat n)) eqn:E.
  - simpl (_ =? 0). cbv iota.
    replace (u32 (Z.shiftl (u32 (Z.shiftl mask (Z.of_nat n))) 1))
      with (u32 (Z.shiftl mask (Z.of_nat (S n)))).
    { apply IH; [lia|]. intros i Hi. destruct (decide (i = Z.of_nat n)) as [-> |]; [done|].
      apply Hbits. lia. }
    rewrite !Z.shiftl_mul_pow2 by lia. unfold u32. rewrite Z.mul_mod_idemp_l by lia.
    rewrite Nat2Z.inj_succ, Z.pow_succ_r by lia. f_equal. lia.
  - simpl (_ =? 0). cbv iota. exists n. split; [done|]. split; [|done].
    destruct (decide (n = 33%nat)) as [-> |]; [|lia]. lia.
Qed.

(** [cli_ipv4_mask_bits] terminates on every 32-bit mask within 32 shifts
    and counts exactly its leading one bits. *)
Theorem cli_ipv4_mask_bits_correct (mask : Z) :
  is_u32 mask ->
  exists n, cli_ipv4_mask_bits mask = Some n /\ (n <= 32)%nat /\
    (forall i, 0 <= i < Z.of_nat n -> Z.testbit mask (31 - i) = true) /\
    ((n < 32)%nat -> Z.testbit mask (31 - Z.of_nat n) = false).
Proof.
  intros Hm. destruct (mask_loop_spec mask 33 0 eq_refl) as (n & Hn); [lia|].
  rewrite Z.shiftl_0_r, u32_small in Hn by done. by exists n.
Qed.

Lemma cli_ipv4_mask_bits_correct_witness :
  exists n, cli_ipv4_mask_bits 4294966272 = Some n /\ (n <= 32)%nat /\
    (forall i, 0 <= i < Z.of_nat n -> Z.testbit 4294966272 (31 - i) = true) /\
    ((n < 32)%nat -> Z.testbit 4294966272 (31 - Z.of_nat n) = false).
Proof. apply (cli_ipv4_mask_bits_correct 4294966272). unfold is_u32. lia. Defined.

Definition prefix_mask (bits : Z) : Z := 4294967296 - 2 ^ (32 - bits).

Lemma prefix_mask_bits bits : 0 <= bits <= 32 ->
  (if bits =? 0 then 0 else u32 (Z.shiftl 4294967295 (32 - bits))) = prefix_mask bits /\
  cli_ipv4_mask_bits (prefix_mask bits) = Some (Z.to_nat bits).
Proof.
  intros Hb.
  assert (H : forallb (fun n => let bits := Z.of_nat n in
      ((if bits =? 0 then 0 else u32 (Z.shiftl 4294967295 (32 - bits))) =? prefix_mask bits) &&
      match cli_ipv4_mask_bits (prefix_mask bits) with Some m => (m =? n)%nat | None => false end)
    (seq 0 33) = true) by (vm_compute; done).
  rewrite forallb_forall in H. specialize (H (Z.to_nat bits)).
  rewrite Z2Nat.id in H by lia. specialize (H ltac:(apply in_seq; lia)). cbv zeta in H.
  apply andb_true_iff in H as [H1 H2]. apply Z.eqb_eq in H1. split; [done|].
  destruct (cli_ipv4_mask_bits _) as [m|]; [|done]. apply Nat.eqb_eq in H2. by subst.
Qed.

Lemma cidr_scan_spec p : forall buf, (length buf <= 19)%nat -> forall buf' rest,
  cidr_scan p buf = Some (buf', Some rest) <->
    exists a, p = a ++ 47 :: rest /\ ~ In 47 a /\ buf' = buf ++ a /\ (length buf' <= 19)%nat.
Proof.
  induction p as [|c p IH]; intros buf Hl buf' rest; cbn [cidr_scan]; change (20 - 1)%nat with 19%nat.
  { split; [done|]. by intros ([] & ? & _). }
  destruct (Z.eqb_spec c 47) as [-> |Hc].
  - split.
    + intros [= <- <-]. exists []. rewrite app_nil_r. split_and!; [done|intros []|done|done].
    + intros ([|d a] & E & Hin & -> & _); simplify_eq/=; [by rewrite app_nil_r|].
      exfalso. apply Hin. by left.
  - destruct (Nat.leb_spec 19 (length buf)).
    + split; [done|]. intros ([|d a] & E & Hin & -> & Hl'); simplify_eq/=.
      rewrite length_app in Hl'. simpl in Hl'. lia.
    + rewrite IH by (rewrite length_app; simpl; lia). split.
      * intros (a & -> & Hin & -> & Hl'). exists (c :: a). split; [done|].
        split; [by intros [? |?]|]. by rewrite <-app_assoc in Hl' |- *.
      * intros ([|d a] & E & Hin & -> & Hl'); simplify_eq/=.
        exists a. split; [done|]. split; [intros ?; apply Hin; by right|].
        by rewrite <-app_assoc.
Qed.

Lemma u32_loop_range base p : forall v r, 0 <= v < 4294967296 -> u32_loop base p v = Some r ->
  0 <= r < 4294967296.
Proof.
  induction p as [|c p IH]; intros v r Hv H; simpl in H; [by simplify_eq|].
  destruct (u32_digit base c); simpl in H; [|done]. case_if_in H; [done|].
  eapply IH; [|exact H]. apply u32_range.
Qed.

Lemma cli_parse_u32_range s v : cli_parse_u32 s = Some v -> 0 <= v < 4294967296.
Proof.
  unfold cli_parse_u32. destruct s as [s|]; [|done]. case_if; [done|]. cbv zeta.
  case_if; case_if; try done; apply u32_loop_range; lia.
Qed.

(** [cli_parse_ipv4_cidr] accepts precisely an address of at most 19
    characters, a slash and a prefix length of at most 32; the mask it answers
    has that many leading ones and nothing else, and [cli_ipv4_mask_bits] reads
    the prefix length back from it. *)
Theorem cli_parse_ipv4_cidr_correct (s : list Z) (ip mask : Z) :
  cli_parse_ipv4_cidr (Some s) = Some (ip, mask) <->
    exists addr len bits, s = addr ++ 47 :: len /\ ~ In 47 addr /\ (length addr <= 19)%nat /\
      cli_parse_ipv4 (Some addr) = Some ip /\ cli_parse_u32 (Some len) = Some bits /\ bits <= 32 /\
      mask = prefix_mask bits /\ cli_ipv4_mask_bits mask = Some (Z.to_nat bits).
Proof.
  unfold cli_parse_ipv4_cidr. split.
  - destruct (cidr_scan s []) as [[a [len|]]|] eqn:E; cbn [mbind option_bind]; try done.
    apply cidr_scan_spec in E as (a' & -> & Hin & -> & Hl); [|simpl; lia]. rewrite app_nil_l in *.
    destruct (cli_parse_ipv4 (Some a')) as [ip'|] eqn:Ei; cbn [mbind option_bind]; [|done].
    destruct (cli_parse_u32 (Some len)) as [bits|] eqn:Eb; cbn [mbind option_bind]; [|done].
    destruct (Z.ltb_spec 32 bits) as [|Hb]; [done|]. apply cli_parse_u32_range in Eb as Hr.
    destruct (prefix_mask_bits bits ltac:(lia)) as [-> Hm]. intros [= <- <-].
    by exists a', len, bits.
  - intros (a & len & bits & -> & Hin & Hl & Hi & Hb & Hle & -> & _).
    assert (E : cidr_scan (a ++ 47 :: len) [] = Some (a, Some len)).
    { apply cidr_scan_spec; [simpl; lia|]. by exists a. }
    rewrite E. cbn [mbind option_bind]. rewrite Hi, Hb. cbn [mbind option_bind]. if_false.
    apply cli_parse_u32_range in Hb. by destruct (prefix_mask_bits bits ltac:(lia)) as [-> _].
Qed.

Lemma cli_parse_ipv4_cidr_correct_witness :
  cli_parse_ipv4_cidr (Some (str "10.0.0.2/24")) = Some (167772162, 4294967040).
Proof.
  apply (proj2 (cli_parse_ipv4_cidr_correct (str "10.0.0.2/24") 167772162 4294967040)).
  exists (str "10.0.0.2"), (str "24"), 24. split_and!; try (vm_compute; reflexivity).
  - intros H. vm_compute in H. intuition discriminate.
  - vm_compute. lia.
  - lia.
Defined.
