(* ===== verification/Parse.v ===== *)
(** * The command-line parser ([shell/core/cli_parse.c])

    The tokenizer works in place: [next_token] reads the line at one cursor and
    writes the unquoted token at another.  The model keeps both cursors and the
    one shared buffer, every read and store bounds-checked ([None] is undefined
    behaviour or exhausted fuel).  [split_words] is the reference splitter the
    tokenizer is proved to implement. *)

From S2P Require Import Prelude.

Local Open Scope Z_scope.

Definition NUL : Z := 0.
Definition TAB : Z := 9.
Definition SPACE : Z := 32.
Definition DQUOTE : Z := 34.
Definition AMP : Z := 38.
Definition SQUOTE : Z := 39.
Definition SEMI : Z := 59.
Definition BSLASH : Z := 92.

Definition CLI_MAX_ARGC : nat := 20.
Definition CLI_ARGV_CAP : nat := CLI_MAX_ARGC + 2.
Definition CLI_MAX_SUBCMD_DEPTH : nat := 8.
Definition CLI_ARG_RAW : Z := 255.

Inductive cli_parse_status : Type :=
  | CLI_PARSE_OK
  | CLI_PARSE_EMPTY
  | CLI_PARSE_NOT_FOUND
  | CLI_PARSE_NO_HANDLER
  | CLI_PARSE_WRONG_ARGS
  | CLI_PARSE_TOO_MANY_TOKENS
  | CLI_PARSE_NESTING_TOO_DEEP
  | CLI_PARSE_UNTERMINATED_QUOTE.

#[export] Instance cli_parse_status_eq_dec : EqDecision cli_parse_status.
Proof. solve_decision. Defined.

Definition is_space (c : Z) : bool := (c =? SPACE) || (c =? TAB).
#[global] Arguments is_space : simpl never.

(** ** The in-place tokenizer *)

(** [while (is_space( *rd)) rd++], at most [fuel] times. *)
Fixpoint skip_spaces (fuel : nat) (buf : list Z) (rd : nat) : option nat :=
  match fuel with
  | O => None
  | S k =>
      c ← buf !! rd;
      if is_space c then skip_spaces k buf (S rd) else Some rd
  end.

(** The [for (;;)] of [next_token]: how it leaves the loop. *)
Inductive lex_out : Type :=
  | LexBreak (buf : list Z) (rd wr : nat)
  | LexError (st : cli_parse_status).

Fixpoint token_loop (fuel : nat) (buf : list Z) (quote : Z) (rd wr : nat)
    : option lex_out :=
  match fuel with
  | O => None
  | S k =>
      c ← buf !! rd;
      if quote =? 0 then
        if c =? NUL then Some (LexBreak buf rd wr)
        else if is_space c then Some (LexBreak buf (S rd) wr)
        else if (c =? DQUOTE) || (c =? SQUOTE) then token_loop k buf c (S rd) wr
        else if c =? BSLASH then
          d ← buf !! S rd;
          if d =? NUL then
            b ← buf_set buf wr BSLASH; Some (LexBreak b (S rd) (S wr))
          else
            b ← buf_set buf wr d; token_loop k b quote (S (S rd)) (S wr)
        else
          b ← buf_set buf wr c; token_loop k b quote (S rd) (S wr)
      else if quote =? DQUOTE then
        if c =? NUL then Some (LexError CLI_PARSE_UNTERMINATED_QUOTE)
        else if c =? DQUOTE then token_loop k buf 0 (S rd) wr
        else if c =? BSLASH then
          d ← buf !! S rd;
          if d =? NUL then Some (LexError CLI_PARSE_UNTERMINATED_QUOTE)
          else b ← buf_set buf wr d; token_loop k b quote (S (S rd)) (S wr)
        else
          b ← buf_set buf wr c; token_loop k b quote (S rd) (S wr)
      else
        if c =? NUL then Some (LexError CLI_PARSE_UNTERMINATED_QUOTE)
        else if c =? SQUOTE then token_loop k buf 0 (S rd) wr
        else b ← buf_set buf wr c; token_loop k b quote (S rd) (S wr)
  end.

(** [next_token]'s three results: 0, 1 with the token's offset, negative. *)
Inductive token : Type :=
  | TokEnd (rd : nat)
  | Tok (buf : list Z) (rd wr tok : nat)
  | TokError (st : cli_parse_status).

Definition next_token (buf : list Z) (rd wr : nat) : option token :=
  rd ← skip_spaces (S (length buf)) buf rd;
  c ← buf !! rd;
  if c =? NUL then Some (TokEnd rd)
  else
    let tok := wr in
    r ← token_loop (S (length buf)) buf 0 rd wr;
    match r with
    | LexError st => Some (TokError st)
    | LexBreak buf rd wr => buf ← buf_set buf wr NUL; Some (Tok buf rd (S wr) tok)
    end.

(** [cli_tokenize]: the argv array (offsets into the line) or the error. *)
Inductive tokenize_out : Type :=
  | Tokens (buf : list Z) (argv : list nat)
  | TokenizeError (st : cli_parse_status).

Fixpoint tokenize_loop (fuel : nat) (buf : list Z) (rd wr : nat)
    (argv : list nat) (max_argc : nat) : option tokenize_out :=
  match fuel with
  | O => None
  | S k =>
      t ← next_token buf rd wr;
      match t with
      | TokEnd _ => Some (Tokens buf argv)
      | TokError st => Some (TokenizeError st)
      | Tok buf rd wr tok =>
          if (max_argc <=? length argv)%nat
          then Some (TokenizeError CLI_PARSE_TOO_MANY_TOKENS)
          else tokenize_loop k buf rd wr (argv ++ [tok]) max_argc
      end
  end.

Definition cli_tokenize (line : list Z) (max_argc : nat) : option tokenize_out :=
  tokenize_loop (S (length line)) line 0 0 [] max_argc.

(** ** The reference splitter *)

(** One token: what [s] contributes to the token being read in quote state
    [q], and what is left after it.  [None]: a quote is still open at the end. *)
Fixpoint lex (q : Z) (s : list Z) : option (list Z * list Z) :=
  match s with
  | [] => if q =? 0 then Some ([], []) else None
  | c :: s' =>
      if q =? 0 then
        if is_space c then Some ([], s')
        else if (c =? DQUOTE) || (c =? SQUOTE) then lex c s'
        else if c =? BSLASH then
          match s' with
          | [] => Some ([BSLASH], [])
          | d :: s'' => '(t, r) ← lex q s''; Some (d :: t, r)
          end
        else '(t, r) ← lex q s'; Some (c :: t, r)
      else if q =? DQUOTE then
        if c =? DQUOTE then lex 0 s'
        else if c =? BSLASH then
          match s' with
          | [] => None
          | d :: s'' => '(t, r) ← lex q s''; Some (d :: t, r)
          end
        else '(t, r) ← lex q s'; Some (c :: t, r)
      else
        if c =? SQUOTE then lex 0 s'
        else '(t, r) ← lex q s'; Some (c :: t, r)
  end.

Fixpoint trim (s : list Z) : list Z :=
  match s with
  | c :: s' => if is_space c then trim s' else s
  | [] => []
  end.

(** The words of a line. *)
Fixpoint words_n (n : nat) (s : list Z) : option (list (list Z)) :=
  match n with
  | O => Some []
  | S k =>
      match trim s with
      | [] => Some []
      | s' => '(t, r) ← lex 0 s'; ts ← words_n k r; Some (t :: ts)
      end
  end.
Definition split_words (s : list Z) : option (list (list Z)) := words_n (length s) s.

(** ** The tokenizer implements the splitter *)

Lemma lex_length q s t r :
  lex q s = Some (t, r) ->
  (length t + length r <= length s)%nat /\ (r <> [] -> (length t + length r < length s)%nat).
Proof.
  remember (length s) as n eqn:Hn. assert (Hl : (length s <= n)%nat) by lia. clear Hn.
  revert q s t r Hl. induction n as [|n IH]; intros q s t r Hl H.
  { destruct s; simpl in *; [|lia]. case_if_in H; simplify_eq/=. done. }
  destruct s as [|c s]; simpl in H; [case_if_in H; simplify_eq/=; split; [lia|done]|].
  simpl in Hl.
  repeat (case_if_in H; simplify_eq/=); try (split; [lia|intros; lia]).
  all: try (apply IH in H; [|lia]; destruct H as [H1 H2]; split; [lia|intros Hr; specialize (H2 Hr); lia]).
  all: repeat match type of H with
       | context [match ?l with [] => _ | _ => _ end] => destruct l as [|d s']; simplify_eq/=
       end; try (split; [lia|done]).
  all: destruct (lex _ _) as [[t' r']|] eqn:E; simplify_eq/=; apply IH in E; [|lia];
       destruct E as [E1 E2]; split; [lia|intros Hr; specialize (E2 Hr); lia].
Qed.

(** What a run of [token_loop] from write cursor [wr] does when the splitter
    answers [o]: the token is copied to [wr], and the unread tail is intact. *)
Definition token_post (buf : list Z) (wr : nat) (post : list Z)
    (o : option (list Z * list Z)) (res : option lex_out) : Prop :=
  match o with
  | None => res = Some (LexError CLI_PARSE_UNTERMINATED_QUOTE)
  | Some (t, r) => exists rd',
      res = Some (LexBreak (splice wr t buf) rd' (wr + length t)) /\
      (wr + length t <= rd')%nat /\ (r <> [] -> (wr + length t < rd')%nat) /\
      drop rd' buf = r ++ NUL :: post
  end.

Lemma token_post_store buf wr post d o res :
  (wr < length buf)%nat ->
  token_post (<[wr:=d]> buf) (S wr) post o res ->
  token_post buf wr post ('(t, r) ← o; Some (d :: t, r)) res.
Proof.
  intros Hl H. destruct o as [[t r]|]; simpl in *; [|done].
  destruct H as (rd' & -> & H1 & H2 & H3). exists rd'.
  rewrite splice_insert by done. rewrite drop_insert_lt in H3 by lia.
  split; [do 2 f_equal; simpl; lia|]. split; [simpl; lia|].
  split; [|done]. intros Hr; specialize (H2 Hr); simpl; lia.
Qed.

Lemma drop_cons_inv (b : list Z) i c l :
  drop i b = c :: l -> b !! i = Some c /\ drop (S i) b = l /\ (i < length b)%nat.
Proof.
  intros H. assert (Hi : b !! i = Some c) by (rewrite <-(Nat.add_0_r i), <-lookup_drop, H; done).
  repeat split; [done| |by eapply lookup_lt_Some].
  replace (S i) with (i + 1)%nat by lia. by rewrite <-drop_drop, H.
Qed.

Lemma token_loop_spec fuel : forall buf q rd wr s post,
  drop rd buf = s ++ NUL :: post -> no_nul s -> (wr <= rd)%nat -> (length s < fuel)%nat ->
  token_post buf wr post (lex q s) (token_loop fuel buf q rd wr).
Proof.
  induction fuel as [|k IH]; intros buf q rd wr s post Hd Hs Hw Hf; [lia|].
  simpl token_loop.
  (* the store of the next character, then the induction hypothesis *)
  assert (Hstore : forall d s' rd' q', drop rd' buf = s' ++ NUL :: post -> no_nul s' ->
    (wr < length buf)%nat -> (wr < rd')%nat -> (length s' < k)%nat ->
    token_post buf wr post ('(t, r) ← lex q' s'; Some (d :: t, r))
      (b ← buf_set buf wr d; token_loop k b q' rd' (S wr))).
  { intros d s' rd' q' Hd' Hs' Hl Hw' Hf'. rewrite buf_set_Some by done. simpl.
    apply token_post_store; [done|]. apply IH; try done; try lia.
    by rewrite drop_insert_lt by lia. }
  destruct s as [|c s]; simpl in Hd; apply drop_cons_inv in Hd as (Hc & Hd & Hl); rewrite Hc; simpl.
  { destruct (q =? 0); simpl; [|by destruct (q =? DQUOTE)].
    exists rd. rewrite splice_nil, Nat.add_0_r by lia. repeat split; try lia; try done.
    simpl. by rewrite (drop_S _ _ _ Hc), Hd. }
  inversion Hs as [|?? Hc0 Hs']; subst. simpl in Hf.
  replace (c =? NUL) with false by (symmetry; apply Z.eqb_neq; done).
  destruct (q =? 0) eqn:Eq.
  - destruct (is_space c) eqn:Esp.
    { exists (S rd). rewrite splice_nil, Nat.add_0_r by lia. repeat split; try lia; done. }
    destruct ((c =? DQUOTE) || (c =? SQUOTE)); [apply IH; try done; lia|].
    destruct (c =? BSLASH) eqn:Ebs; [|apply Hstore; try done; lia].
    destruct s as [|d s]; simpl in Hd; apply drop_cons_inv in Hd as (Hc1 & Hd & Hl1); rewrite Hc1; simpl.
    + rewrite buf_set_Some by lia. exists (S rd). simpl.
      assert (Hsp : splice wr [BSLASH] buf = <[wr:=BSLASH]> buf).
      { rewrite <-splice_insert by lia. apply splice_nil. rewrite length_insert; lia. }
      rewrite Hsp, Nat.add_1_r. repeat split; try lia; try done.
      by rewrite (drop_S _ _ _ Hc1), Hd.
    + inversion Hs' as [|?? Hd0 Hs'']; subst. simpl in Hf.
      replace (d =? NUL) with false by (symmetry; apply Z.eqb_neq; done).
      apply Hstore; try done; lia.
  - destruct (q =? DQUOTE) eqn:Edq.
    + destruct (c =? DQUOTE); [apply IH; try done; lia|].
      destruct (c =? BSLASH); [|apply Hstore; try done; lia].
      destruct s as [|d s]; simpl in Hd; apply drop_cons_inv in Hd as (Hc1 & Hd & Hl1); rewrite Hc1; simpl; [done|].
      inversion Hs' as [|?? Hd0 Hs'']; subst. simpl in Hf.
      replace (d =? NUL) with false by (symmetry; apply Z.eqb_neq; done).
      apply Hstore; try done; lia.
    + destruct (c =? SQUOTE); [apply IH; try done; lia|]. apply Hstore; try done; lia.
Qed.

Lemma skip_spaces_spec fuel : forall buf rd s post,
  drop rd buf = s ++ NUL :: post -> (length s < fuel)%nat ->
  exists rd', skip_spaces fuel buf rd = Some rd' /\ (rd <= rd')%nat /\
    drop rd' buf = trim s ++ NUL :: post.
Proof.
  induction fuel as [|k IH]; intros buf rd s post Hd Hf; [lia|].
  destruct s as [|c s]; simpl in *; apply drop_cons_inv in Hd as (Hc & Hd & Hl); rewrite Hc; simpl.
  { exists rd. by rewrite (drop_S _ _ _ Hc), Hd. }
  destruct (is_space c).
  - edestruct (IH buf (S rd)) as (rd' & ? & ? & ?); [done|lia|].
    exists rd'. repeat split; try done; lia.
  - exists rd. by rewrite (drop_S _ _ _ Hc), Hd.
Qed.

Lemma lex_no_nul q s t r : no_nul s -> lex q s = Some (t, r) -> no_nul t /\ no_nul r.
Proof.
  remember (length s) as n eqn:Hn. assert (Hl : (length s <= n)%nat) by lia. clear Hn.
  revert q s t r Hl. induction n as [|n IH]; intros q s t r Hl Hs H.
  { destruct s; simpl in *; [|lia]. case_if_in H; simplify_eq/=. done. }
  destruct s as [|c s]; simpl in H; [case_if_in H; simplify_eq/=; done|].
  simpl in Hl. inversion Hs as [|?? Hc Hs']; subst.
  assert (Hcons : forall d s' q', d <> 0 -> no_nul s' -> (length s' <= n)%nat ->
    ('(t, r) ← lex q' s'; Some (d :: t, r)) = Some (t, r) -> no_nul t /\ no_nul r).
  { intros d s' q' Hd Hns Hl' H'. destruct (lex q' s') as [[t' r']|] eqn:E; simplify_eq/=.
    apply IH in E as [? ?]; [|lia|done]. split; [by constructor|done]. }
  repeat case_if_in H; simplify_eq/=; try done.
  all: try (eapply IH; [| |done]; [lia|done]).
  all: try (eapply Hcons; [| | |exact H]; [done|done|lia]).
  all: destruct s as [|d s]; simplify_eq/=; try (split; [by repeat constructor|done]).
  all: inversion Hs'; subst; eapply Hcons; [| | |exact H]; [done|done|lia].
Qed.

Lemma trim_no_nul s : no_nul s -> no_nul (trim s).
Proof. induction 1; simpl; [done|]. case_if; [done|by constructor]. Qed.

Lemma trim_length s : (length (trim s) <= length s)%nat.
Proof. induction s; simpl; [lia|]. case_if; simpl; lia. Qed.

(** The cursors at a token boundary: the unread part of the line is [s]; the
    write cursor is behind the read cursor unless the line is exhausted. *)
Definition cursors_ok (buf : list Z) (rd wr : nat) (s post : list Z) : Prop :=
  drop rd buf = s ++ NUL :: post /\ no_nul s /\
  ((wr <= rd)%nat \/ s = [] /\ (wr <= S rd)%nat).

Lemma next_token_spec buf rd wr s post :
  cursors_ok buf rd wr s post ->
  match trim s with
  | [] => exists rd', next_token buf rd wr = Some (TokEnd rd') /\ cursors_ok buf rd' wr [] post
  | c :: s' =>
      match lex 0 (c :: s') with
      | None => next_token buf rd wr = Some (TokError CLI_PARSE_UNTERMINATED_QUOTE)
      | Some (t, r) => exists rd',
          next_token buf rd wr =
            Some (Tok (splice wr (t ++ [NUL]) buf) rd' (wr + length t + 1) wr) /\
          cursors_ok (splice wr (t ++ [NUL]) buf) rd' (wr + length t + 1) r post /\
          no_nul t /\ (wr + length t + 1 <= length buf)%nat
      end
  end.
Proof.
  intros (Hd & Hs & Hw). unfold next_token.
  assert (Hlen : (rd + length s < length buf)%nat).
  { apply (f_equal length) in Hd. rewrite length_drop, length_app in Hd. simpl in Hd. lia. }
  destruct (skip_spaces_spec (S (length buf)) buf rd s post Hd) as (rd1 & -> & Hle & Hd1); [lia|].
  cbn [mbind option_bind]. pose proof (trim_no_nul s Hs) as Hts.
  destruct (trim s) as [|c s'] eqn:Etrim.
  { simpl in Hd1. pose proof Hd1 as Hd2. apply drop_cons_inv in Hd2 as (-> & _ & _).
    exists rd1. split; [done|]. split; [done|]. split; [done|].
    destruct Hw as [|[-> ?]]; [left; lia|right; split; [done|lia]]. }
  assert (Hwr : (wr <= rd1)%nat) by (destruct Hw as [|[-> _]]; [lia|done]).
  pose proof Hd1 as Hd1'. simpl in Hd1'. apply drop_cons_inv in Hd1' as (-> & _ & Hl1). cbn [mbind option_bind].
  pose proof (Forall_inv Hts) as Hc0. replace (c =? NUL) with false by (symmetry; apply Z.eqb_neq; done).
  assert (Hf : (length (c :: s') < S (length buf))%nat).
  { rewrite <-Etrim. pose proof (trim_length s). lia. }
  pose proof (token_loop_spec _ buf 0 rd1 wr (c :: s') post Hd1 Hts Hwr Hf) as Htok.
  unfold token_post in Htok. destruct (lex 0 (c :: s')) as [[t r]|] eqn:Elex; [|by rewrite Htok].
  destruct Htok as (rd' & -> & H1 & H2 & H3). cbn [mbind option_bind].
  apply (lex_no_nul _ _ _ _ Hts) in Elex as [Ht Hr].
  assert (Hrd' : (rd' + length r < length buf)%nat).
  { apply (f_equal length) in H3. rewrite length_drop, length_app in H3. simpl in H3. lia. }
  rewrite buf_set_Some by (rewrite length_splice; lia). simpl.
  assert (Hsp : <[(wr + length t)%nat:=NUL]> (splice wr t buf) = splice wr (t ++ [NUL]) buf).
  { rewrite <-splice_splice_app by (simpl; lia).
    rewrite <-(splice_insert _ NUL []) by (rewrite length_splice; lia).
    rewrite splice_nil; [done|]. rewrite length_insert, length_splice; lia. }
  exists rd'. rewrite Hsp. split; [do 3 f_equal; lia|].
  split; [|split; [done|lia]]. repeat split; try done.
  - destruct (decide (wr + length t < rd')%nat) as [Hlt|Hge].
    + rewrite drop_splice; [done| |lia]. rewrite length_app; simpl; lia.
    + destruct r as [|x r]; [|exfalso; apply Hge, H2; done].
      simpl in *. apply drop_cons_inv in H3 as (Hc3 & H3 & _).
      assert (rd' = wr + length t)%nat as -> by lia.
      rewrite <-Hsp. erewrite drop_S by (apply list_lookup_insert_eq; rewrite length_splice; lia).
      rewrite drop_insert_lt by lia. rewrite drop_splice by lia. by rewrite H3.
  - destruct r as [|x r]; [right; split; [done|lia]|].
    left. assert (wr + length t < rd')%nat by (by apply H2). lia.
Qed.

#[local] Arguments lex : simpl never.

Lemma words_n_fuel n : forall s, (length s <= n)%nat -> words_n n s = split_words s.
Proof.
  unfold split_words.
  assert (H : forall m n s, (length s <= m)%nat -> (length s <= n)%nat -> words_n m s = words_n n s).
  { clear. induction m as [|m IH]; intros [|n] s Hm Hn; try (destruct s; simpl in *; [done|lia]).
    simpl. pose proof (trim_length s) as Ht. destruct (trim s) as [|c s'] eqn:E; [done|]; cbv beta iota.
    destruct (lex 0 (c :: s')) as [[t r]|] eqn:El; [|done].
    cbn [mbind option_bind]. pose proof (lex_length _ _ _ _ El) as [Hr1 Hr2].
    assert (Hlt : (length r < length (c :: s'))%nat) by (destruct r; [simpl; lia|specialize (Hr2 ltac:(done)); lia]).
    rewrite (IH n r) by (simpl in *; lia). done. }
  intros s Hs. by apply H.
Qed.

Lemma split_words_eq s :
  split_words s = match trim s with
                  | [] => Some []
                  | s' => '(t, r) ← lex 0 s'; ts ← split_words r; Some (t :: ts)
                  end.
Proof.
  rewrite <-(words_n_fuel (S (length s)) s) by lia. simpl.
  pose proof (trim_length s) as Ht. destruct (trim s) as [|c s'] eqn:E; [done|]; cbv beta iota.
  destruct (lex 0 (c :: s')) as [[t r]|] eqn:El; [|done]. cbn [mbind option_bind].
  rewrite words_n_fuel; [done|]. apply lex_length in El as [? ?]. lia.
Qed.

(** A token already produced: its string lies wholly below the write cursor,
    which is why later stores cannot touch it. *)
Definition token_below (buf : list Z) (wr : nat) (o : nat) (t : list Z) : Prop :=
  cstr_at buf o t /\ (o + length t + 1 <= wr)%nat.

Lemma token_below_splice buf wr wr' o t src :
  (wr <= wr')%nat -> (wr + length src <= length buf)%nat ->
  token_below buf wr o t -> token_below (splice wr src buf) wr' o t.
Proof.
  intros Hw Hl [[Hn Hs] Ho]. split; [split; [done|]|lia].
  rewrite slice_splice_ne; [done| |done]. left; lia.
Qed.

Lemma token_below_new buf wr t :
  no_nul t -> (wr + length t + 1 <= length buf)%nat ->
  token_below (splice wr (t ++ [NUL]) buf) (wr + length t + 1) wr t.
Proof.
  intros Hn Hl. split; [split; [done|]|lia].
  replace (length t + 1)%nat with (length (t ++ [NUL])) by (rewrite length_app; simpl; lia).
  apply slice_splice_eq. lia.
Qed.

(** The outcome of tokenizing when the splitter answers [o] and [argv] already
    holds the words [ws0]. *)
Definition tokenize_post (o : option (list (list Z))) (ws0 : list (list Z)) (max_argc : nat)
    (res : option tokenize_out) : Prop :=
  match o with
  | Some ws =>
      if (length (ws0 ++ ws) <=? max_argc)%nat
      then exists buf' argv, res = Some (Tokens buf' argv) /\ Forall2 (cstr_at buf') argv (ws0 ++ ws)
      else res = Some (TokenizeError CLI_PARSE_TOO_MANY_TOKENS)
  | None => exists st, res = Some (TokenizeError st) /\
      (st = CLI_PARSE_UNTERMINATED_QUOTE \/ st = CLI_PARSE_TOO_MANY_TOKENS)
  end.

Lemma tokenize_loop_spec fuel : forall buf rd wr s post argv ws0 max_argc,
  cursors_ok buf rd wr s post -> (length s < fuel)%nat ->
  Forall2 (token_below buf wr) argv ws0 -> (length ws0 <= max_argc)%nat ->
  tokenize_post (split_words s) ws0 max_argc (tokenize_loop fuel buf rd wr argv max_argc).
Proof.
  induction fuel as [|k IH]; intros buf rd wr s post argv ws0 mx Hc Hf Ha Hm; [lia|].
  simpl tokenize_loop. rewrite split_words_eq. unfold tokenize_post in *.
  pose proof (next_token_spec _ _ _ _ _ Hc) as Hnt.
  pose proof (Forall2_length _ _ _ Ha) as Hla.
  pose proof (trim_length s) as Hts. destruct (trim s) as [|c s'] eqn:Et; cbv beta iota in Hnt |- *.
  { destruct Hnt as (rd' & -> & _). simpl. rewrite app_nil_r. ifs.
    exists buf, argv. split; [done|]. eapply Forall2_impl; [exact Ha|]. by intros ?? []. }
  destruct (lex 0 (c :: s')) as [[t r]|] eqn:El.
  2:{ rewrite Hnt. simpl. eexists; split; [done|by left]. }
  destruct Hnt as (rd' & -> & Hc' & Ht & Hl). cbn [mbind option_bind].
  pose proof (lex_length _ _ _ _ El) as [Hr1 Hr2]. rewrite <-Hla in Hm.
  destruct (Nat.leb_spec mx (length argv)) as [Hmx|Hmx].
  - destruct (split_words r) as [ws|]; simpl; [|eexists; split; [done|by right]].
    rewrite length_app. simpl. ifs. done.
  - assert (Hk : (length r < k)%nat).
    { destruct r; [simpl in *; lia|]. specialize (Hr2 ltac:(done)). simpl in *; lia. }
    assert (Ha' : Forall2 (token_below (splice wr (t ++ [NUL]) buf) (wr + length t + 1))
                    (argv ++ [wr]) (ws0 ++ [t])).
    { apply Forall2_app; [|by constructor; [apply token_below_new|constructor]].
      eapply Forall2_impl; [exact Ha|]. intros o t'. apply token_below_splice; [lia|].
      rewrite length_app; simpl; lia. }
    specialize (IH _ _ _ _ _ _ _ mx Hc' Hk Ha').
    rewrite length_app in IH; simpl in IH. specialize (IH ltac:(lia)).
    destruct (split_words r) as [ws|]; simpl; [|done].
    by rewrite <-app_assoc in IH.
Qed.

(** the in-place tokenizer [cli_tokenize] implements the functional splitter
    [split_words]: on every line it terminates inside its buffer, and the argv
    it builds spells exactly the words of the line -- each with its quotes and
    escapes resolved and NUL-terminated --, or it reports the too many tokens or
    the open quote. *)
Theorem cli_tokenize_refines (s post : list Z) (max_argc : nat) :
  no_nul s ->
  match split_words s with
  | Some ws =>
      if (length ws <=? max_argc)%nat
      then exists buf' argv,
        cli_tokenize (s ++ NUL :: post) max_argc = Some (Tokens buf' argv) /\
        Forall2 (cstr_at buf') argv ws
      else cli_tokenize (s ++ NUL :: post) max_argc = Some (TokenizeError CLI_PARSE_TOO_MANY_TOKENS)
  | None => exists st,
      cli_tokenize (s ++ NUL :: post) max_argc = Some (TokenizeError st) /\
      (st = CLI_PARSE_UNTERMINATED_QUOTE \/ st = CLI_PARSE_TOO_MANY_TOKENS)
  end.
Proof.
  intros Hs. apply (tokenize_loop_spec _ _ 0 0 s post [] []); try done; simpl; try lia.
  - split; [done|]. split; [done|left; lia].
  - rewrite length_app; simpl; lia.
Qed.

Lemma cli_tokenize_refines_witness : exists buf' argv,
  cli_tokenize (str "ls 'a b' c\ d" ++ [NUL]) 20 = Some (Tokens buf' argv) /\
  Forall2 (cstr_at buf') argv [str "ls"; str "a b"; str "c d"].
Proof. apply (cli_tokenize_refines (str "ls 'a b' c\ d") [] 20). repeat constructor; done. Defined.

(** ** The quote/escape automaton

    The header of [cli_next_segment] says its state machine "MUST stay
    byte-for-byte in lockstep with next_token()".  This is the machine both are
    compared with. *)

Inductive qstate : Type := QPlain | QPlainEsc | QDouble | QDoubleEsc | QSingle.

#[export] Instance qstate_eq_dec : EqDecision qstate.
Proof. solve_decision. Defined.

Definition qstep (q : qstate) (c : Z) : qstate :=
  match q with
  | QPlain =>
      if c =? DQUOTE then QDouble else if c =? SQUOTE then QSingle
      else if c =? BSLASH then QPlainEsc else QPlain
  | QPlainEsc => QPlain
  | QDouble => if c =? DQUOTE then QPlain else if c =? BSLASH then QDoubleEsc else QDouble
  | QDoubleEsc => QDouble
  | QSingle => if c =? SQUOTE then QPlain else QSingle
  end.

Definition qrun (q : qstate) (s : list Z) : qstate := fold_left qstep s q.

(** A quote is still open. *)
Definition qopen (q : qstate) : bool :=
  match q with QPlain | QPlainEsc => false | _ => true end.

Lemma qrun_app q s1 s2 : qrun q (s1 ++ s2) = qrun (qrun q s1) s2.
Proof. apply fold_left_app. Qed.

(** The automaton's state for the tokenizer's [quote] variable. *)
Definition qstate_of (quote : Z) : qstate :=
  if quote =? 0 then QPlain else if quote =? DQUOTE then QDouble else QSingle.

Lemma lex_qrun q s :
  match lex q s with
  | Some (_, r) => qopen (qrun (qstate_of q) s) = qopen (qrun QPlain r)
  | None => qopen (qrun (qstate_of q) s) = true
  end.
Proof.
  remember (length s) as n eqn:Hn. assert (Hl : (length s <= n)%nat) by lia. clear Hn.
  revert q s Hl. induction n as [|n IH]; intros q s Hl.
  { destruct s; simpl in *; [|lia]. unfold lex, qstate_of. simpl.
    destruct (q =? 0) eqn:E0; [done|]. by destruct (q =? DQUOTE). }
  destruct s as [|c s].
  { unfold lex, qstate_of. destruct (q =? 0) eqn:E0; [done|]. by destruct (q =? DQUOTE). }
  simpl in Hl.
  assert (Hstore : forall d q' s', (length s' <= n)%nat ->
    match ('(t, r) ← lex q' s'; Some (d :: t, r)) with
    | Some (_, r) => qopen (qrun (qstate_of q') s') = qopen (qrun QPlain r)
    | None => qopen (qrun (qstate_of q') s') = true
    end).
  { intros d q' s' Hs'. specialize (IH q' s' Hs'). by destruct (lex q' s') as [[t r]|]. }
  unfold lex; fold lex. unfold qstate_of at 1 2. simpl qrun.
  destruct (q =? 0) eqn:E0; [|destruct (q =? DQUOTE) eqn:Edq].
  - assert (q = 0) as -> by lia. destruct (is_space c) eqn:Esp.
    { unfold qrun; simpl. unfold is_space, SPACE, TAB in Esp. unfold DQUOTE, SQUOTE, BSLASH.
      assert (c = 32 \/ c = 9) as [-> | ->] by lia; done. }
    unfold qrun; simpl. destruct (c =? DQUOTE) eqn:E1; simpl.
    { assert (c = DQUOTE) as -> by lia. apply (IH DQUOTE); lia. }
    destruct (c =? SQUOTE) eqn:E2; simpl.
    { assert (c = SQUOTE) as -> by lia. apply (IH SQUOTE); lia. }
    destruct (c =? BSLASH) eqn:E3; [|apply (Hstore _ 0); lia].
    destruct s as [|d s]; simpl; [done|]. apply (Hstore _ 0); simpl in *; lia.
  - assert (q = DQUOTE) as -> by lia. unfold qrun; simpl.
    destruct (c =? DQUOTE); [apply (IH 0); lia|].
    destruct (c =? BSLASH); [|apply (Hstore _ DQUOTE); lia].
    destruct s as [|d s]; simpl; [done|]. apply (Hstore _ DQUOTE); simpl in *; lia.
  - unfold qrun; simpl. destruct (c =? SQUOTE); [apply (IH 0); lia|].
    specialize (Hstore c q s ltac:(lia)). unfold qstate_of in Hstore. by rewrite E0, Edq in Hstore.
Qed.

Lemma qrun_trim s : qrun QPlain (trim s) = qrun QPlain s.
Proof.
  induction s as [|c s IH]; simpl; [done|].
  destruct (is_space c) eqn:E; [|done]. rewrite IH. unfold qrun; simpl.
  unfold is_space, SPACE, TAB in E. assert (c = 32 \/ c = 9) as [-> | ->] by lia; done.
Qed.

(** The tokenizer and the segment scanner agree on the quotes: a text that does
    not split is one that ends inside quotes. *)
Lemma split_words_lockstep s : split_words s = None <-> qopen (qrun QPlain s) = true.
Proof.
  remember (length s) as n eqn:Hn. assert (Hl : (length s <= n)%nat) by lia. clear Hn.
  revert s Hl. induction n as [|n IH]; intros s Hl.
  { destruct s; simpl in *; [done|lia]. }
  rewrite split_words_eq, <-qrun_trim. pose proof (trim_length s) as Ht.
  destruct (trim s) as [|c s'] eqn:E; [done|]. cbv beta iota.
  pose proof (lex_qrun 0 (c :: s')) as Hq. change (qstate_of 0) with QPlain in Hq.
  destruct (lex 0 (c :: s')) as [[t r]|] eqn:El; cbn [mbind option_bind].
  - rewrite Hq. apply lex_length in El as [H1 H2].
    rewrite <-(IH r) by (destruct r; [simpl in *; lia|specialize (H2 ltac:(done)); simpl in *; lia]).
    by destruct (split_words r).
  - by rewrite Hq.
Qed.

(** ** Command sequencing: [cli_next_segment] *)

(** The scan: [Some p], the offset of the top-level [';'], or end of line. *)
Fixpoint segment_scan (fuel : nat) (buf : list Z) (quote : Z) (p : nat)
    : option (option nat) :=
  match fuel with
  | O => None
  | S k =>
      c ← buf !! p;
      if c =? NUL then Some None
      else if quote =? 0 then
        if c =? SEMI then Some (Some p)
        else if (c =? DQUOTE) || (c =? SQUOTE) then segment_scan k buf c (S p)
        else if c =? BSLASH then
          d ← buf !! S p;
          if d =? NUL then Some None else segment_scan k buf quote (S (S p))
        else segment_scan k buf quote (S p)
      else if quote =? DQUOTE then
        if c =? DQUOTE then segment_scan k buf 0 (S p)
        else if c =? BSLASH then
          d ← buf !! S p;
          if d =? NUL then Some None else segment_scan k buf quote (S (S p))
        else segment_scan k buf quote (S p)
      else
        if c =? SQUOTE then segment_scan k buf 0 (S p)
        else segment_scan k buf quote (S p)
  end.

(** The cursor is [None] for NULL.  The result is the new buffer, the new
    cursor and the segment's start (NULL when exhausted). *)
Definition cli_next_segment (buf : list Z) (cursor : option nat)
    : option (list Z * option nat * option nat) :=
  match cursor with
  | None => Some (buf, None, None)
  | Some p =>
      r ← segment_scan (S (length buf)) buf 0 p;
      match r with
      | Some e => b ← buf_set buf e NUL; Some (b, Some (S e), Some p)
      | None => Some (buf, None, Some p)
      end
  end.

(** The reference: cut the line at its first [';'] in state [QPlain]. *)
Fixpoint cut_segment (q : qstate) (s : list Z) : option (list Z * list Z) :=
  match s with
  | [] => None
  | c :: s' =>
      if decide (q = QPlain /\ c = SEMI) then Some ([], s')
      else '(a, b) ← cut_segment (qstep q c) s'; Some (c :: a, b)
  end.

Lemma cut_segment_spec s q a b :
  cut_segment q s = Some (a, b) -> s = a ++ SEMI :: b /\ qrun q a = QPlain.
Proof.
  revert q a b; induction s as [|c s IH]; intros q a b H; simpl in H; [done|].
  case_decide as Hd; [destruct Hd as [-> ->]; by simplify_eq/=|].
  destruct (cut_segment (qstep q c) s) as [[a' b']|] eqn:E; simplify_eq/=.
  apply IH in E as [-> Hq]. by split.
Qed.

Lemma segment_scan_spec fuel : forall buf quote p s post,
  drop p buf = s ++ NUL :: post -> no_nul s -> (length s < fuel)%nat ->
  segment_scan fuel buf quote p =
    Some (match cut_segment (qstate_of quote) s with
          | Some (a, _) => Some (p + length a)%nat
          | None => None
          end).
Proof.
  induction fuel as [|k IH]; intros buf quote p s post Hd Hs Hf; [lia|].
  simpl segment_scan.
  destruct s as [|c s]; simpl in Hd; apply drop_cons_inv in Hd as (Hc & Hd & Hl); rewrite Hc; [done|].
  cbn [mbind option_bind]. inversion Hs as [|?? Hc0 Hs']; subst. simpl in Hf.
  replace (c =? NUL) with false by (symmetry; apply Z.eqb_neq; done).
  (* the scan continues past one character, or past an escaped pair *)
  assert (Hone : forall q', qstep (qstate_of quote) c = qstate_of q' ->
    ~ (qstate_of quote = QPlain /\ c = SEMI) ->
    segment_scan k buf q' (S p) =
    Some (match cut_segment (qstate_of quote) (c :: s) with
          | Some (a, _) => Some (p + length a)%nat | None => None end)).
  { intros q' Hq Hn. rewrite (IH _ _ _ s post) by (done || lia). simpl.
    rewrite decide_False by done. rewrite Hq.
    destruct (cut_segment (qstate_of q') s) as [[a b]|]; simpl; [|done]. do 2 f_equal. lia. }
  assert (Htwo : qstate_of quote <> QSingle -> c = BSLASH ->
    (d ← buf !! S p; if d =? NUL then Some None else segment_scan k buf quote (S (S p))) =
    Some (match cut_segment (qstate_of quote) (c :: s) with
          | Some (a, _) => Some (p + length a)%nat | None => None end)).
  { intros Hq ->. simpl. rewrite decide_False by (by intros [_ ?]).
    destruct s as [|d s]; simpl in Hd; apply drop_cons_inv in Hd as (Hc1 & Hd & Hl1); rewrite Hc1; [done|].
    cbn [mbind option_bind]. inversion Hs' as [|?? Hd0 Hs'']; subst. simpl in Hf.
    replace (d =? NUL) with false by (symmetry; apply Z.eqb_neq; done).
    rewrite (IH _ _ _ s post) by (done || lia). simpl.
    assert (He : exists q1, qstep (qstate_of quote) BSLASH = q1 /\ q1 <> QPlain /\
                   qstep q1 d = qstate_of quote).
    { unfold qstate_of in *. destruct (quote =? 0); [by exists QPlainEsc|].
      destruct (quote =? DQUOTE); [by exists QDoubleEsc|done]. }
    destruct He as (q1 & -> & Hq1 & ->). rewrite decide_False by (by intros [? _]).
    destruct (cut_segment (qstate_of quote) s) as [[a b]|]; simpl; [|done]. do 2 f_equal. lia. }
  unfold qstate_of in Hone, Htwo |- *.
  destruct (quote =? 0) eqn:E0; [|destruct (quote =? DQUOTE) eqn:Edq].
  - assert (quote = 0) as -> by lia. destruct (c =? SEMI) eqn:Es.
    { simpl. rewrite decide_True by (split; [done|lia]). simpl. do 2 f_equal; lia. }
    destruct (c =? DQUOTE) eqn:E1; [apply Hone; [|lia]; simpl; by rewrite E1, (proj1 (Z.eqb_eq _ _) E1)|].
    destruct (c =? SQUOTE) eqn:E2; cbn [orb]; [apply Hone; [|lia]; simpl; by rewrite E1, E2, (proj1 (Z.eqb_eq _ _) E2)|].
    destruct (c =? BSLASH) eqn:E3; [apply Htwo; [done|lia]|].
    apply Hone; [|lia]. simpl. by rewrite E1, E2, E3.
  - destruct (c =? DQUOTE) eqn:E1; [apply Hone; [|by intros [? _]]; simpl; by rewrite E1|].
    destruct (c =? BSLASH) eqn:E3; [apply Htwo; [done|lia]|].
    apply Hone; [|by intros [? _]]. rewrite E0, Edq. simpl. by rewrite E1, E3.
  - destruct (c =? SQUOTE) eqn:E2; [apply Hone; [|by intros [? _]]; simpl; by rewrite E2|].
    apply Hone; [|by intros [? _]]. rewrite E0, Edq. simpl. by rewrite E2.
Qed.

Lemma cut_segment_balanced a b s : cut_segment QPlain s = Some (a, b) -> split_words a <> None.
Proof.
  intros H%cut_segment_spec Hn. destruct H as [_ Hq].
  apply split_words_lockstep in Hn. by rewrite Hq in Hn.
Qed.

Lemma next_segment_cut (pre s post : list Z) :
  no_nul s ->
  let buf := pre ++ s ++ NUL :: post in
  match cut_segment QPlain s with
  | Some (a, b) =>
      cli_next_segment buf (Some (length pre)) =
        Some (pre ++ a ++ NUL :: b ++ NUL :: post, Some (length (pre ++ a ++ [NUL])), Some (length pre)) /\
      s = a ++ SEMI :: b /\ split_words a <> None
  | None => cli_next_segment buf (Some (length pre)) = Some (buf, None, Some (length pre))
  end.
Proof.
  intros Hs buf. unfold cli_next_segment.
  rewrite (segment_scan_spec _ _ 0 _ s post); unfold buf;
    [|by rewrite drop_app_length|done|rewrite !length_app; simpl; lia].
  change (qstate_of 0) with QPlain. cbn [mbind option_bind].
  destruct (cut_segment QPlain s) as [[a b]|] eqn:E; [|done].
  pose proof (cut_segment_balanced _ _ _ E) as Hb. apply cut_segment_spec in E as [-> _].
  split; [|done].
  assert (Hlen : length (pre ++ a) = (length pre + length a)%nat) by apply length_app.
  rewrite buf_set_Some by (rewrite !length_app; simpl; lia). simpl.
  replace (S (length pre + length a)) with (length (pre ++ a ++ [NUL]))
    by (rewrite !length_app; simpl; lia).
  do 3 f_equal. rewrite <-Hlen, <-!app_assoc, app_assoc. simpl.
  rewrite insert_length_app. by rewrite <-app_assoc.
Qed.

(** one call of [cli_next_segment] on the text [s] at the cursor: it cuts
    [s] at its first top-level [;] -- quotes and escapes respected, so that the
    part before it has its quotes closed -- ends that part with a NUL and moves
    the cursor past it; without one it returns the whole text, unchanged, and
    exhausts the cursor.  Nothing before the cursor or after [s] is touched. *)
Theorem cli_next_segment_spec (pre s post : list Z) :
  no_nul s ->
  let buf := pre ++ s ++ NUL :: post in
  match cut_segment QPlain s with
  | Some (a, b) =>
      cli_next_segment buf (Some (length pre)) =
        Some (pre ++ a ++ NUL :: b ++ NUL :: post, Some (length (pre ++ a ++ [NUL])), Some (length pre)) /\
      s = a ++ SEMI :: b /\ split_words a <> None
  | None => cli_next_segment buf (Some (length pre)) = Some (buf, None, Some (length pre))
  end.
Proof. apply next_segment_cut. Qed.

Lemma cli_next_segment_spec_witness :
  cli_next_segment (str "x;" ++ str "a\;b;c" ++ [NUL]) (Some 2%nat) =
    Some (str "x;" ++ str "a\;b" ++ NUL :: str "c" ++ [NUL], Some 7%nat, Some 2%nat) /\
  str "a\;b;c" = str "a\;b" ++ SEMI :: str "c" /\ split_words (str "a\;b") <> None.
Proof. apply (cli_next_segment_spec (str "x;") (str "a\;b;c") []). repeat constructor; done. Defined.

(** ** Background commands: [cli_segment_is_background] *)

(** The scan keeps the candidate ['&'] ([amp]), whether it directly follows
    another one ([after]) and whether the previous significant character was a
    top-level ['&'] ([prev]). *)
Fixpoint background_scan (fuel : nat) (seg : list Z) (quote : Z) (i : nat)
    (amp : option nat) (after prev : bool) : option (option nat * bool) :=
  match fuel with
  | O => None
  | S k =>
      c ← seg !! i;
      if c =? NUL then Some (amp, after)
      else if quote =? 0 then
        if is_space c then background_scan k seg quote (S i) amp after prev
        else if c =? BSLASH then
          d ← seg !! S i;
          if d =? NUL then Some (amp, after)
          else background_scan k seg quote (S (S i)) None after false
        else if (c =? DQUOTE) || (c =? SQUOTE) then
          background_scan k seg c (S i) None after false
        else if c =? AMP then background_scan k seg quote (S i) (Some i) prev true
        else background_scan k seg quote (S i) None after false
      else if quote =? DQUOTE then
        esc ← (if c =? BSLASH then d ← seg !! S i; Some (negb (d =? NUL)) else Some false);
        if esc : bool then
          background_scan k seg quote (S (S i)) None after false
        else if c =? DQUOTE then background_scan k seg 0 (S i) None after false
        else background_scan k seg quote (S i) None after false
      else
        background_scan k seg (if c =? SQUOTE then 0 else quote) (S i) None after false
  end.

(** [for (j = amp - 1; j >= 0 && is_space(seg[j]); j--) seg[j] = '\0']. *)
Fixpoint strip_back (amp : nat) (seg : list Z) : option (list Z) :=
  match amp with
  | O => Some seg
  | S j =>
      c ← seg !! j;
      if is_space c then seg ← buf_set seg j NUL; strip_back j seg else Some seg
  end.

Definition cli_segment_is_background (seg : list Z) : option (list Z * bool) :=
  '(amp, after) ← background_scan (S (length seg)) seg 0 0 None false false;
  match amp with
  | Some a =>
      if after : bool then Some (seg, false)
      else
        seg ← buf_set seg a NUL;
        seg ← strip_back a seg;
        Some (seg, true)
  | None => Some (seg, false)
  end.

(** The same scan one character at a time, over the automaton. *)
Fixpoint background_fold (q : qstate) (i : nat) (amp : option nat) (after prev : bool)
    (s : list Z) : option nat * bool :=
  match s with
  | [] => (amp, after)
  | c :: s' =>
      match q with
      | QPlain =>
          if is_space c || (c =? BSLASH) then background_fold (qstep q c) (S i) amp after prev s'
          else if c =? AMP then background_fold (qstep q c) (S i) (Some i) prev true s'
          else background_fold (qstep q c) (S i) None after false s'
      | _ => background_fold (qstep q c) (S i) None after false s'
      end
  end.

Lemma background_scan_spec fuel : forall seg quote i amp after prev s post,
  drop i seg = s ++ NUL :: post -> no_nul s -> (length s < fuel)%nat ->
  background_scan fuel seg quote i amp after prev =
    Some (background_fold (qstate_of quote) i amp after prev s).
Proof.
  induction fuel as [|k IH]; intros seg quote i amp after prev s post Hd Hs Hf; [lia|].
  simpl background_scan.
  destruct s as [|c s]; simpl in Hd; apply drop_cons_inv in Hd as (Hc & Hd & Hl); rewrite Hc; [done|].
  cbn [mbind option_bind]. inversion Hs as [|?? Hc0 Hs']; subst. simpl in Hf.
  replace (c =? NUL) with false by (symmetry; apply Z.eqb_neq; done).
  assert (Hone : forall q' amp after prev, background_scan k seg q' (S i) amp after prev =
            Some (background_fold (qstate_of q') (S i) amp after prev s)).
  { intros; eapply IH; [done|done|lia]. }
  assert (Htwo : forall amp after prev d s1, s = d :: s1 ->
            background_scan k seg quote (S (S i)) amp after prev =
            Some (background_fold (qstate_of quote) (S (S i)) amp after prev s1)).
  { intros amp' after' prev' d s1 ->. inversion Hs'; subst. simpl in Hd, Hf.
    apply drop_cons_inv in Hd as (_ & Hd & _). eapply IH; [done|done|lia]. }
  assert (Hnext : seg !! S i = match s with d :: _ => Some d | [] => Some NUL end).
  { destruct s; simpl in Hd; by apply drop_cons_inv in Hd as (? & _). }
  simpl background_fold. unfold qstate_of at 1. destruct (quote =? 0) eqn:E0.
  - assert (quote = 0) as -> by lia. destruct (is_space c) eqn:Esp.
    { rewrite Hone. unfold is_space, SPACE, TAB in Esp. simpl.
      by assert (c = 32 \/ c = 9) as [-> | ->] by lia. }
    destruct (c =? BSLASH) eqn:E3; simpl.
    { rewrite Hnext. assert (c = BSLASH) as -> by lia. destruct s as [|d s]; [done|]. simpl.
      inversion Hs'; subst. replace (d =? NUL) with false by (symmetry; apply Z.eqb_neq; done).
      by rewrite (Htwo _ _ _ d s). }
    destruct ((c =? DQUOTE) || (c =? SQUOTE)) eqn:E1.
    { rewrite Hone. replace (c =? AMP) with false by (unfold DQUOTE, SQUOTE, AMP in *; lia).
      destruct (c =? DQUOTE) eqn:E4; [by assert (c = DQUOTE) as -> by lia|].
      simpl in E1. rewrite E1. by assert (c = SQUOTE) as -> by lia. }
    apply orb_false_iff in E1 as [E4 E5]. unfold qstep. rewrite ?E4, ?E5, ?E3. destruct (c =? AMP); by rewrite Hone.
  - destruct (quote =? DQUOTE) eqn:Edq.
    + assert (quote = DQUOTE) as -> by lia. destruct (c =? BSLASH) eqn:E3.
      * assert (c = BSLASH) as -> by lia. rewrite Hnext. destruct s as [|d s]; simpl; [by rewrite Hone|].
        inversion Hs'; subst. replace (d =? NUL) with false by (symmetry; apply Z.eqb_neq; done).
        by rewrite (Htwo _ _ _ d s).
      * simpl. rewrite E3. destruct (c =? DQUOTE); by rewrite Hone.
    + assert (Hq : qstate_of quote = QSingle) by (unfold qstate_of; by rewrite E0, Edq).
      rewrite Hone. unfold qstep. rewrite Hq. destruct (c =? SQUOTE); [done|]. by rewrite Hq.
Qed.

Abbreviation blank := (Forall (fun c : Z => is_space c = true)).

(** [background_at s s1]: [s] is [s1] followed by a top-level ['&'] and
    nothing significant -- blanks, and possibly a final lone backslash, which
    the scan leaves without looking at. *)
Definition background_at (s s1 : list Z) : Prop :=
  qrun QPlain s1 = QPlain /\
  exists w, blank w /\ (s = s1 ++ AMP :: w \/ s = s1 ++ AMP :: w ++ [BSLASH]).

Definition rtrim (s : list Z) : list Z := rev (trim (rev s)).

Lemma qrun_blank w : blank w -> qrun QPlain w = QPlain.
Proof.
  induction 1 as [|c w Hc Hw IH]; [done|]. unfold qrun in *; simpl.
  unfold is_space, SPACE, TAB in Hc. by assert (c = 32 \/ c = 9) as [-> | ->] by lia.
Qed.

Lemma qrun_amp s1 w : qrun QPlain s1 = QPlain -> blank w -> qrun QPlain (s1 ++ AMP :: w) = QPlain.
Proof. intros H Hw. rewrite qrun_app, H. by apply (qrun_blank w). Qed.

Lemma snoc_amp_inv u c s1 w : u ++ [c] = s1 ++ AMP :: w ->
  (w = [] /\ c = AMP /\ u = s1) \/ exists w0, w = w0 ++ [c] /\ u = s1 ++ AMP :: w0.
Proof.
  destruct w as [|d w _] using rev_ind; intros H.
  - apply app_inj_2 in H as [-> H]; [|done]. left. by simplify_eq/=.
  - right. exists w. rewrite app_comm_cons, app_assoc in H.
    apply app_inj_2 in H as [-> H]; [|done]. by simplify_eq/=.
Qed.

(** What the scan's variables mean after it has read [u]. *)
Definition background_inv (u : list Z) (amp : option nat) (after prev : bool) : Prop :=
  (prev = true <-> is_Some amp) /\
  match amp with
  | Some k => exists s1, length s1 = k /\ background_at u s1 /\
                (after = true <-> exists s2, background_at s1 s2)
  | None => forall s1, ~ background_at u s1
  end.

(** One more blank, or the first backslash after the candidate: still there. *)
Lemma background_at_keep u c s1 :
  qrun QPlain u = QPlain -> is_space c || (c =? BSLASH) = true ->
  (background_at (u ++ [c]) s1 <-> background_at u s1).
Proof.
  intros Hu Hc. split; intros (Hq & w & Hw & Hs); (split; [done|]).
  - destruct Hs as [Hs|Hs].
    + apply snoc_amp_inv in Hs as [(-> & -> & ->)|(w0 & -> & ->)]; [done|].
      apply Forall_app in Hw as [Hw _]. exists w0. by auto.
    + rewrite app_comm_cons, app_assoc in Hs. apply app_inj_2 in Hs as [-> _]; [|done].
      exists w. by auto.
  - destruct Hs as [->| ->].
    + destruct (is_space c) eqn:E.
      * exists (w ++ [c]). split; [|left; by rewrite <-app_assoc].
        apply Forall_app; split; [done|]. by constructor.
      * assert (c = BSLASH) as -> by (simpl in Hc; lia).
        exists w. split; [done|right]. by rewrite <-app_assoc.
    + exfalso. rewrite app_comm_cons, app_assoc, qrun_app in Hu.
      rewrite qrun_amp in Hu by done. done.
Qed.

(** Any other character ends the candidacy. *)
Lemma background_at_reset u c s1 :
  (qrun QPlain u = QPlain -> is_space c || (c =? BSLASH) = false /\ c <> AMP) ->
  (qrun QPlain u <> QPlain -> qopen (qrun QPlain u) = true \/ qrun QPlain u = QPlainEsc) ->
  ~ background_at (u ++ [c]) s1.
Proof.
  intros Hp _ (Hq & w & Hw & Hs).
  assert (Hin : exists w0, blank w0 /\ (u = s1 ++ AMP :: w0 /\ (is_space c = true \/ c = BSLASH) \/ (u = s1 /\ c = AMP))).
  { destruct Hs as [Hs|Hs].
    - apply snoc_amp_inv in Hs as [(-> & -> & ->)|(w0 & -> & ->)]; [exists []; auto|].
      apply Forall_app in Hw as [Hw Hc]. exists w0. split; [done|].
      left. split; [done|]. left. by inversion Hc.
    - rewrite app_comm_cons, app_assoc in Hs. apply app_inj_2 in Hs as [-> Hs]; [|done].
      simplify_eq/=. exists w. auto. }
  destruct Hin as (w0 & Hw0 & [[-> Hc]|[-> ->]]).
  - destruct Hp as [Hp _]; [by apply qrun_amp|]. apply orb_false_iff in Hp as [H1 H2].
    destruct Hc as [Hc|Hc]; [congruence|lia].
  - by destruct Hp as [_ Hp].
Qed.

Lemma background_fold_inv s : forall u amp after prev,
  background_inv u amp after prev ->
  exists amp' after' prev',
    background_fold (qrun QPlain u) (length u) amp after prev s = (amp', after') /\
    background_inv (u ++ s) amp' after' prev'.
Proof.
  induction s as [|c s IH]; intros u amp after prev Hi.
  { exists amp, after, prev. by rewrite app_nil_r. }
  assert (Hstep : forall amp1 after1 prev1, background_inv (u ++ [c]) amp1 after1 prev1 ->
    exists amp' after' prev',
      background_fold (qstep (qrun QPlain u) c) (S (length u)) amp1 after1 prev1 s = (amp', after') /\
      background_inv (u ++ c :: s) amp' after' prev').
  { intros a1 f1 p1 H1. apply IH in H1. rewrite qrun_app, length_app in H1. simpl in H1.
    rewrite Nat.add_comm, <-app_assoc in H1. exact H1. }
  assert (Hreset : (qrun QPlain u = QPlain -> is_space c || (c =? BSLASH) = false /\ c <> AMP) ->
    forall after, background_inv (u ++ [c]) None after false).
  { intros Hp after'. split; [by split; [|intros [? ?]]|].
    intros s1. apply background_at_reset; [done|]. by destruct (qrun QPlain u); auto. }
  simpl. destruct (qrun QPlain u) eqn:Eq; try (apply Hstep, Hreset; done).
  destruct (is_space c || (c =? BSLASH)) eqn:Ec; [|destruct (c =? AMP) eqn:Ea].
  - apply Hstep. destruct Hi as [Hp Hi]. split; [done|].
    destruct amp as [k|].
    + destruct Hi as (s1 & Hk & Hb & Ha). exists s1. split; [done|]. split; [|done].
      by apply background_at_keep.
    + intros s1 Hb. by apply background_at_keep, Hi in Hb.
  - apply Hstep. assert (c = AMP) as -> by lia. split; [done|]. exists u. split; [done|].
    split; [split; [done|]; exists []; by auto|].
    destruct Hi as [Hp Hi]. rewrite Hp. destruct amp as [k|].
    + destruct Hi as (s1 & _ & Hb & _). split; [by exists s1|done].
    + split; [by intros [? ?]|]. intros [s2 Hs2]. by apply Hi in Hs2.
  - apply Hstep, Hreset. split; [done|lia].
Qed.

Lemma rtrim_snoc s c : rtrim (s ++ [c]) = if is_space c then rtrim s else s ++ [c].
Proof.
  unfold rtrim. rewrite rev_app_distr. simpl. destruct (is_space c); [done|].
  simpl. by rewrite rev_involutive.
Qed.

Lemma rtrim_prefix s : exists w, blank w /\ s = rtrim s ++ w.
Proof.
  induction s as [|c s IH] using rev_ind; [by exists []|]. rewrite rtrim_snoc.
  destruct (is_space c) eqn:E; [|exists []; by rewrite app_nil_r].
  destruct IH as (w & Hw & IH). exists (w ++ [c]). rewrite app_assoc, <-IH. split; [|done].
  apply Forall_app; split; [done|by constructor].
Qed.

Lemma strip_back_spec s1 r : exists z,
  strip_back (length s1) (s1 ++ NUL :: r) = Some (rtrim s1 ++ NUL :: z) /\
  length (rtrim s1 ++ NUL :: z) = length (s1 ++ NUL :: r).
Proof.
  revert r; induction s1 as [|c s IH] using rev_ind; intros r; [by exists r|].
  rewrite length_app, Nat.add_1_r, <-app_assoc, rtrim_snoc. simpl.
  rewrite lookup_app_r, Nat.sub_diag by lia. simpl. destruct (is_space c).
  - rewrite buf_set_Some by (rewrite length_app; simpl; lia).
    cbn [mbind option_bind]. rewrite insert_length_app.
    destruct (IH (NUL :: r)) as (z & -> & Hz). exists z. by rewrite Hz, !length_app.
  - exists r. by rewrite <-!app_assoc.
Qed.

Lemma background_spec (s post : list Z) :
  no_nul s ->
  exists buf' r, cli_segment_is_background (s ++ NUL :: post) = Some (buf', r) /\
    (if r : bool
     then exists s1, background_at s s1 /\ (forall s2, ~ background_at s1 s2) /\
            cstr_at buf' 0 (rtrim s1) /\ length buf' = length (s ++ NUL :: post)
     else buf' = s ++ NUL :: post /\
          ((forall s1, ~ background_at s s1) \/
           exists s1 s2, background_at s s1 /\ background_at s1 s2)).
Proof.
  intros Hs. unfold cli_segment_is_background.
  rewrite (background_scan_spec _ _ _ _ _ _ _ s post) by (done || (rewrite length_app; simpl; lia)).
  destruct (background_fold_inv s [] None false false) as (amp & after & prev & Hf & _ & Hi).
  { split; [by split; [|intros [? ?]]|]. intros s1 (_ & w & _ & [H|H]); by destruct s1. }
  change (qstate_of 0) with (qrun QPlain []). change 0%nat with (@length Z []) at 1.
  rewrite Hf. cbn [mbind option_bind]. simpl in Hi. clear Hf.
  destruct amp as [k|]; [|by eexists _, false; auto].
  destruct Hi as (s1 & <- & Hb & Ha). destruct after.
  { eexists _, false. split; [done|]. split; [done|]. right.
    destruct Ha as [Ha _]. destruct (Ha eq_refl) as [s2 ?]. by exists s1, s2. }
  assert (Hl : exists w, s = s1 ++ AMP :: w).
  { destruct Hb as (_ & w & _ & [->| ->]); by eexists. }
  destruct Hl as [w ->]. rewrite buf_set_Some by (rewrite !length_app; simpl; lia).
  cbn [mbind option_bind]. rewrite <-app_assoc.
  simpl app. rewrite insert_length_app.
  destruct (strip_back_spec s1 (w ++ NUL :: post)) as (z & Hz & Hlz). rewrite Hz. simpl.
  eexists _, true. split; [done|]. exists s1. split; [done|]. split.
  { intros s2 Hs2. by destruct Ha as [_ Ha]; discriminate Ha; exists s2. }
  split; [|rewrite Hlz, !length_app; done].
  eapply drop_cstr_at; [|done]. apply Forall_app in Hs as [Hs _].
  destruct (rtrim_prefix s1) as (w' & _ & Hw'). rewrite Hw' in Hs. by apply Forall_app in Hs as [? _].
Qed.

(** Appending a blank to a line whose quotes are closed changes no word. *)
Lemma lex_snoc_blank c q s t r :
  is_space c = true -> qrun (qstate_of q) s = QPlain -> lex q s = Some (t, r) ->
  qrun QPlain r = QPlain /\
  (lex q (s ++ [c]) = Some (t, r ++ [c]) \/ r = [] /\ lex q (s ++ [c]) = Some (t, [])).
Proof.
  intros Hsp. remember (length s) as n eqn:Hn. assert (Hl : (length s <= n)%nat) by lia. clear Hn.
  revert q s t r Hl. induction n as [|n IH]; intros q s t r Hl Hq H.
  all: destruct s as [|d s]; [|simpl in Hl; try lia].
  1,2: unfold lex in H |- *; simpl in *; destruct (q =? 0); [|done];
    injection H as <- <-; rewrite Hsp; by auto.
  assert (Hstore : forall e q' s', (length s' <= n)%nat -> qrun (qstate_of q') s' = QPlain ->
    ('(t, r) ← lex q' s'; Some (e :: t, r)) = Some (t, r) ->
    qrun QPlain r = QPlain /\
    (('(t, r) ← lex q' (s' ++ [c]); Some (e :: t, r)) = Some (t, r ++ [c]) \/
     r = [] /\ ('(t, r) ← lex q' (s' ++ [c]); Some (e :: t, r)) = Some (t, []))).
  { intros e q' s' Hl' Hq' H'. destruct (lex q' s') as [[t' r']|] eqn:E; simplify_eq/=.
    destruct (IH q' s' t' r Hl' Hq' E) as [Hr [-> | [-> ->]]]; split; auto. }
  cbn [app]. unfold lex in H |- *; fold lex in H |- *.
  destruct (q =? 0) eqn:E0; [|destruct (q =? DQUOTE) eqn:Edq].
  - assert (q = 0) as -> by lia. unfold qrun in Hq; simpl in Hq. destruct (is_space d) eqn:Esp.
    { simplify_eq. split; [|by left]. unfold is_space, SPACE, TAB in Esp.
      by assert (d = 32 \/ d = 9) as [-> | ->] by lia. }
    destruct (d =? DQUOTE) eqn:E1; simpl in H |- *.
    { assert (d = DQUOTE) as -> by lia. apply IH; [lia|done|done]. }
    destruct (d =? SQUOTE) eqn:E2; simpl in H |- *.
    { assert (d = SQUOTE) as -> by lia. apply IH; [lia|done|done]. }
    destruct (d =? BSLASH) eqn:E3; [|apply (Hstore _ 0); [lia|done|done]].
    destruct s as [|e s]; [done|]. simpl in H |- *. apply (Hstore _ 0); [simpl in *; lia|done|done].
  - assert (q = DQUOTE) as -> by lia. unfold qrun in Hq; simpl in Hq.
    destruct (d =? DQUOTE); [apply IH; [lia|done|done]|].
    destruct (d =? BSLASH); [|apply (Hstore _ DQUOTE); [lia|done|done]].
    destruct s as [|e s]; [done|]. simpl in H |- *. apply (Hstore _ DQUOTE); [simpl in *; lia|done|done].
  - assert (Hqs : qstate_of q = QSingle) by (unfold qstate_of; by rewrite E0, Edq).
    rewrite Hqs in Hq. unfold qrun in Hq; simpl in Hq.
    destruct (d =? SQUOTE); [apply IH; [lia|done|done]|]. apply Hstore; [lia|by rewrite Hqs|done].
Qed.

Lemma trim_snoc_blank c s : is_space c = true ->
  trim (s ++ [c]) = match trim s with [] => [] | _ => trim s ++ [c] end.
Proof. intros Hc. induction s as [|d s IH]; simpl; [by rewrite Hc|]. by destruct (is_space d). Qed.

Lemma split_words_snoc_blank c s :
  is_space c = true -> qrun QPlain s = QPlain -> split_words (s ++ [c]) = split_words s.
Proof.
  intros Hc. remember (length s) as n eqn:Hn. assert (Hl : (length s <= n)%nat) by lia. clear Hn.
  revert s Hl. induction n as [|n IH]; intros s Hl Hq.
  { destruct s; simpl in *; [|lia]. rewrite split_words_eq. simpl. by rewrite Hc. }
  rewrite !split_words_eq, trim_snoc_blank by done. rewrite <-qrun_trim in Hq.
  pose proof (trim_length s) as Ht. destruct (trim s) as [|d s'] eqn:E; [done|].
  change ((d :: s') ++ [c]) with (d :: (s' ++ [c])). cbv beta iota.
  change (d :: (s' ++ [c])) with ((d :: s') ++ [c]).
  destruct (lex 0 (d :: s')) as [[t r]|] eqn:El.
  - destruct (lex_snoc_blank c 0 (d :: s') t r Hc Hq El) as [Hr [-> | [-> ->]]]; [|done].
    cbn [mbind option_bind]. rewrite IH; [done| |done].
    apply lex_length in El as [H1 H2]. destruct r; [simpl; lia|]. specialize (H2 ltac:(done)). simpl in *; lia.
  - pose proof (lex_qrun 0 (d :: s')) as H. rewrite El in H.
    change (qstate_of 0) with QPlain in H. by rewrite Hq in H.
Qed.

Lemma split_words_blank w s :
  blank w -> qrun QPlain s = QPlain -> split_words (s ++ w) = split_words s.
Proof.
  intros Hw Hq. induction w as [|c w IH] using rev_ind; [by rewrite app_nil_r|].
  apply Forall_app in Hw as [Hw Hc]. inversion Hc; subst.
  rewrite app_assoc, split_words_snoc_blank; [by apply IH|done|].
  rewrite qrun_app, Hq. by apply qrun_blank.
Qed.

(** [cli_segment_is_background] answers 1 exactly for a trailing top-level
    ['&'] that is not the second of a pair, and then leaves the command before
    it, stripped; otherwise the segment is untouched. *)
Theorem cli_segment_is_background_correct (s post : list Z) :
  no_nul s ->
  exists buf' r, cli_segment_is_background (s ++ NUL :: post) = Some (buf', r) /\
    (if r : bool
     then exists s1, background_at s s1 /\ (forall s2, ~ background_at s1 s2) /\
            cstr_at buf' 0 (rtrim s1) /\ length buf' = length (s ++ NUL :: post)
     else buf' = s ++ NUL :: post /\
          ((forall s1, ~ background_at s s1) \/
           exists s1 s2, background_at s s1 /\ background_at s1 s2)).
Proof. apply background_spec. Qed.

(** what the header promises of a stripped command: it "re-tokenizes
    normally", provided the blanks stripped before the ['&'] were not escaped. *)
Theorem background_retokenizes (s1 post : list Z) :
  no_nul s1 -> qrun QPlain s1 = QPlain -> qrun QPlain (rtrim s1) = QPlain ->
  (forall s2, ~ background_at s1 s2) ->
  exists buf', cli_segment_is_background (s1 ++ AMP :: NUL :: post) = Some (buf', true) /\
    cstr_at buf' 0 (rtrim s1) /\ split_words (rtrim s1) = split_words s1.
Proof.
  intros Hn Hq Hr Hb.
  destruct (background_spec (s1 ++ [AMP]) post) as (buf' & r & H & Hs).
  { apply Forall_app; split; [done|]. by constructor. }
  assert (Hat : forall s, background_at (s1 ++ [AMP]) s -> s = s1).
  { intros s (_ & w & Hw & [E|E]).
    - apply snoc_amp_inv in E as [(_ & _ & ->)|(w0 & -> & _)]; [done|].
      by apply Forall_app in Hw as [_ Hw]; inversion Hw.
    - rewrite app_comm_cons, app_assoc in E. by apply app_inj_2 in E as [_ E]. }
  assert (Hat1 : background_at (s1 ++ [AMP]) s1) by (split; [done|]; exists []; auto).
  rewrite <-app_assoc in H. exists buf'. destruct r.
  - destruct Hs as (s & Hs & _ & Hc & _). apply Hat in Hs as ->. split; [done|]. split; [done|].
    destruct (rtrim_prefix s1) as (w & Hw & Hs). rewrite Hs at 2. symmetry. by apply split_words_blank.
  - destruct Hs as [_ [Hs|(s & s2 & Hs & Hs2)]]; [by apply Hs in Hat1|].
    apply Hat in Hs as ->. by apply Hb in Hs2.
Qed.

Lemma background_retokenizes_witness : exists buf',
  cli_segment_is_background (str "run x " ++ [AMP; NUL]) = Some (buf', true) /\
  cstr_at buf' 0 (str "run x") /\ split_words (str "run x") = split_words (str "run x ").
Proof.
  apply (background_retokenizes (str "run x ") []); [repeat constructor; done|done|done|].
  intros s2 (_ & w & _ & [H|H]); apply (f_equal (fun l => existsb (Z.eqb AMP) l)) in H;
    revert H; rewrite ?existsb_app; simpl; rewrite ?orb_true_r; done.
Defined.

Lemma cli_segment_is_background_correct_witness : exists buf' r,
  cli_segment_is_background (str "a \& &" ++ [NUL]) = Some (buf', r) /\
    (if r : bool
     then exists s1, background_at (str "a \& &") s1 /\ (forall s2, ~ background_at s1 s2) /\
            cstr_at buf' 0 (rtrim s1) /\ length buf' = length (str "a \& &" ++ [NUL])
     else buf' = str "a \& &" ++ [NUL] /\
          ((forall s1, ~ background_at (str "a \& &") s1) \/
           exists s1 s2, background_at (str "a \& &") s1 /\ background_at s1 s2)).
Proof. apply (cli_segment_is_background_correct (str "a \& &") []). repeat constructor; done. Defined.

(** *** The operator as documented ([src/shell/core/cli_internal.h]) *)

(** ['&'] is the last character of [s] but for blanks, outside quotes and not
    escaped; [s1] is the text before it. *)
Definition amp_last (s s1 : list Z) : Prop :=
  qrun QPlain s1 = QPlain /\ exists w, blank w /\ s = s1 ++ AMP :: w.

(** [s] asks for [cmd] in the background: it ends with ['&'], which does not
    follow another one, and [cmd], what is left without the blanks before the
    ['&'], splits into the same words. *)
Definition background_cmd (s cmd : list Z) : Prop :=
  exists s1, amp_last s s1 /\ (forall s2, ~ amp_last s1 s2) /\
    (exists w, blank w /\ s1 = cmd ++ w) /\ split_words cmd = split_words s1.

(** The two forms the code misreads: a text that ends with a lone backslash is
    read without it; and the blank before the ['&'] is cut off even when it is
    escaped, which leaves its backslash. *)
Definition misread_cmd (s cmd : list Z) : Prop :=
  (exists s' s1, s = s' ++ [BSLASH] /\ amp_last s' s1 /\ (forall s2, ~ amp_last s1 s2) /\ cmd = rtrim s1) \/
  (exists s1, amp_last s s1 /\ (forall s2, ~ amp_last s1 s2) /\ qrun QPlain (rtrim s1) <> QPlain /\ cmd = rtrim s1).

(** Not a request for the background: no ['&'] at the end, or a pair. *)
Definition foreground (s : list Z) : Prop :=
  (forall s1, amp_last s s1 -> exists s2, amp_last s1 s2) /\ (forall cmd, ~ misread_cmd s cmd).

Lemma background_at_amp s s1 :
  background_at s s1 <-> amp_last s s1 \/ exists s', s = s' ++ [BSLASH] /\ amp_last s' s1.
Proof.
  unfold background_at, amp_last. split.
  - intros (Hq & w & Hw & [->| ->]); [left; eauto|right]. exists (s1 ++ AMP :: w).
    rewrite <-app_assoc. simpl. split; [done|]. split; [done|]. by exists w.
  - intros [(Hq & w & Hw & ->)|(s' & -> & Hq & w & Hw & ->)]; (split; [done|]); exists w; (split; [done|]).
    + by left.
    + right. by rewrite <-app_assoc.
Qed.

(** A text whose quotes and escapes are complete does not end with the lone
    backslash. *)
Lemma background_at_plain s s1 : qrun QPlain s = QPlain -> background_at s s1 -> amp_last s s1.
Proof.
  intros Hq [Ha|(s' & -> & Hs1 & w & Hw & ->)]%background_at_amp; [done|].
  rewrite qrun_app, qrun_amp in Hq by done. done.
Qed.

Lemma blank_last w c (u : list Z) : blank w -> w = u ++ [c] -> is_space c = true.
Proof. intros Hw ->. apply Forall_app in Hw as [_ Hw]. by inversion Hw. Qed.

Lemma amp_last_inj s s1 s2 : amp_last s s1 -> amp_last s s2 -> s1 = s2.
Proof.
  intros (_ & w1 & Hw1 & ->) (_ & w2 & Hw2 & E). revert w2 Hw2 E.
  induction w1 as [|c w1 IH] using rev_ind; intros w2 Hw2 E.
  - apply snoc_amp_inv in E as [(_ & _ & ->)|(w0 & -> & _)]; [done|].
    by apply Forall_app in Hw2 as [_ Hw2]; inversion Hw2.
  - rewrite app_comm_cons, app_assoc in E. apply Forall_app in Hw1 as [Hw1 Hc]. inversion Hc as [|?? Hsp]; subst.
    apply snoc_amp_inv in E as [(_ & -> & _)|(w0 & -> & E)]; [done|].
    apply Forall_app in Hw2 as [Hw2 _]. by apply (IH Hw1 w0).
Qed.

Lemma amp_last_not_bslash s s1 : ~ amp_last (s ++ [BSLASH]) s1.
Proof.
  intros (_ & w & Hw & E). apply snoc_amp_inv in E as [(_ & E & _)|(w0 & -> & _)]; [done|].
  by apply Forall_app in Hw as [_ Hw]; inversion Hw.
Qed.

(** The detector's answer 1: the documented request or a misread form. *)
Lemma background_yes s s1 : background_at s s1 -> (forall s2, ~ background_at s1 s2) ->
  background_cmd s (rtrim s1) \/ misread_cmd s (rtrim s1).
Proof.
  intros Hat Hno. assert (Hno' : forall s2, ~ amp_last s1 s2).
  { intros s2 Ha. apply (Hno s2), background_at_amp. by left. }
  apply background_at_amp in Hat as [Ha|(s' & -> & Ha)].
  - destruct (decide (qrun QPlain (rtrim s1) = QPlain)) as [Hq|Hq].
    + left. exists s1. destruct (rtrim_prefix s1) as (w & Hw & Hs1). split; [done|]. split; [done|].
      split; [by exists w|]. rewrite Hs1 at 2. symmetry. by apply split_words_blank.
    + right. right. by exists s1.
  - right. left. by exists s', s1.
Qed.

(** Its answer 0. *)
Lemma background_no s :
  (forall s1, ~ background_at s s1) \/ (exists s1 s2, background_at s s1 /\ background_at s1 s2) -> foreground s.
Proof.
  intros Hfg.
  assert (Hpair : forall s1, background_at s s1 -> exists s2, amp_last s1 s2).
  { intros s1 Hat. destruct Hfg as [Hfg|(s1' & s2 & Hat' & Hat2)]; [by apply Hfg in Hat|]. exists s2.
    assert (Hp : qrun QPlain s1' = QPlain) by apply Hat'. apply (background_at_plain _ _ Hp) in Hat2.
    apply background_at_amp in Hat, Hat'.
    destruct Hat as [Ha|(s' & -> & Ha)], Hat' as [Ha'|(s'' & E & Ha')].
    - by rewrite (amp_last_inj _ _ _ Ha Ha').
    - rewrite E in Ha. by apply amp_last_not_bslash in Ha.
    - by apply amp_last_not_bslash in Ha'.
    - apply app_inj_2 in E as [-> _]; [|done]. by rewrite (amp_last_inj _ _ _ Ha Ha'). }
  split.
  - intros s1 Ha. apply Hpair, background_at_amp. by left.
  - intros cmd [(s' & s1 & -> & Ha & Hno & _)|(s1 & Ha & Hno & _)].
    + destruct (Hpair s1) as [s2 Hs2]; [apply background_at_amp; right; by exists s'|]. by apply Hno in Hs2.
    + destruct (Hpair s1) as [s2 Hs2]; [apply background_at_amp; by left|]. by apply Hno in Hs2.
Qed.

(** three corners of the background operator.  An escaped blank before the
    ['&'] is stripped with the others -- in [a\ &] the word is "a ", but what is
    left is [a\], a word with a literal backslash --, so the proviso of
    [background_retokenizes] is needed.  A final lone backslash, a literal
    character to the tokenizer, stops the scan with its candidate still set: the
    command is put in the background although ['&'] is not the last significant
    character.  Two ['&'] separated by a blank count as a pair. *)
Theorem background_edge_cases :
  (cli_segment_is_background (str "a\ &" ++ [NUL]) = Some (str "a\" ++ [NUL; NUL; NUL], true) /\
   split_words (str "a\ ") = Some [str "a "] /\ split_words (str "a\") = Some [str "a\"]) /\
  (cli_segment_is_background (str "a &\" ++ [NUL]) = Some (str "a" ++ [NUL; NUL; BSLASH; NUL], true) /\
   split_words (str "a &\") = Some [str "a"; str "&\"]) /\
  cli_segment_is_background (str "a & &" ++ [NUL]) = Some (str "a & &" ++ [NUL], false).
Proof. by vm_compute. Qed.

(** ** The command tree and [cli_parse] *)

(** [struct cli_cmd]; [None] is a NULL pointer.  A subcommand array is the list
    of its entries, its sentinel being the entry whose name is NULL. *)
Inductive cli_cmd : Type := Cmd {
  name : option (list Z);
  help : option (list Z);
  subcmds : option (list cli_cmd);
  handler : option nat;
  mandatory : nat;
  optional : nat;
}.

(** [cli_parse_result]; [out_argv] is the index of the handler's [argv[0]]. *)
Record cli_parse_result : Type := ParseResult {
  out_cmd : option cli_cmd;
  out_argv : option nat;
  out_argc : nat;
  out_level : nat;
}.
Definition out_zero : cli_parse_result := ParseResult None None 0 0.

(** [match_root]: entries with a NULL name are skipped. *)
Fixpoint match_root (roots : list cli_cmd) (s : list Z) : option cli_cmd :=
  match roots with
  | [] => None
  | c :: rs => if decide (name c = Some s) then Some c else match_root rs s
  end.

(** [match_sub]: a NULL name ends the set. *)
Fixpoint match_sub (set : list cli_cmd) (s : list Z) : option cli_cmd :=
  match set with
  | [] => None
  | c :: rs =>
      match name c with
      | None => None
      | Some n => if decide (n = s) then Some c else match_sub rs s
      end
  end.

(** The parser's locals: the line with its two cursors, [argv] and [argc]. *)
Record pstate : Type := PState {
  p_buf : list Z; p_rd : nat; p_wr : nat; p_argv : list (option nat); p_argc : nat;
}.

(** [t = next_token(...)], the two error returns and [argv[argc++] = tok], the
    sequence every loop of [cli_parse] starts with. *)
Inductive fetch : Type :=
  | FetchEnd (s : pstate)
  | FetchError (st : cli_parse_status)
  | Fetched (s : pstate) (tok : nat).

Definition fetch_token (s : pstate) : option fetch :=
  t ← next_token (p_buf s) (p_rd s) (p_wr s);
  match t with
  | TokEnd rd => Some (FetchEnd (PState (p_buf s) rd (p_wr s) (p_argv s) (p_argc s)))
  | TokError st => Some (FetchError st)
  | Tok buf rd wr tok =>
      if (CLI_MAX_ARGC <=? p_argc s)%nat then Some (FetchError CLI_PARSE_TOO_MANY_TOKENS)
      else
        argv ← buf_set (p_argv s) (p_argc s) (Some tok);
        Some (Fetched (PState buf rd wr argv (S (p_argc s))) tok)
  end.

(** A loop of the parser goes on with the state or returns a status. *)
Inductive step_out (A : Type) : Type := Return (st : cli_parse_status) | Go (a : A).
Arguments Return {A} st.
Arguments Go {A} a.

(** [while (cmd->subcmds != NULL)]. *)
Fixpoint descend (fuel : nat) (cmd : cli_cmd) (level : nat) (s : pstate)
    : option (step_out (cli_cmd * nat * pstate)) :=
  match fuel with
  | O => None
  | S k =>
      match subcmds cmd with
      | None => Some (Go (cmd, level, s))
      | Some set =>
          f ← fetch_token s;
          match f with
          | FetchEnd s => Some (Go (cmd, level, s))
          | FetchError st => Some (Return st)
          | Fetched s tok =>
              w ← cstr (p_buf s) tok;
              match match_sub set w with
              | Some sub =>
                  if (CLI_MAX_SUBCMD_DEPTH <=? level - 1)%nat
                  then Some (Return CLI_PARSE_NESTING_TOO_DEEP)
                  else descend k sub (S level) s
              | None => Some (Go (cmd, level, s))
              end
          end
      end
  end.

(** [while (need > 0)]: the mandatory tokens of a RAW command. *)
Fixpoint fetch_need (need : nat) (s : pstate) : option (step_out pstate) :=
  match need with
  | O => Some (Go s)
  | S n =>
      f ← fetch_token s;
      match f with
      | FetchEnd s => Some (Go s)
      | FetchError st => Some (Return st)
      | Fetched s _ => fetch_need n s
      end
  end.

(** "Normal: every remaining token is an argument." *)
Fixpoint fetch_rest (fuel : nat) (s : pstate) : option (step_out pstate) :=
  match fuel with
  | O => None
  | S k =>
      f ← fetch_token s;
      match f with
      | FetchEnd s => Some (Go s)
      | FetchError st => Some (Return st)
      | Fetched s _ => fetch_rest k s
      end
  end.

(** The RAW tail: the rest of the line, verbatim, as one more argument. *)
Definition raw_tail (argv_cap handler_base : nat) (cmd : cli_cmd) (s : pstate)
    : option (step_out pstate) :=
  if (mandatory cmd <=? p_argc s - handler_base)%nat then
    rd ← skip_spaces (S (length (p_buf s))) (p_buf s) (p_rd s);
    c ← p_buf s !! rd;
    if c =? NUL then Some (Go (PState (p_buf s) rd (p_wr s) (p_argv s) (p_argc s)))
    else if (argv_cap - 1 <=? p_argc s)%nat then Some (Return CLI_PARSE_TOO_MANY_TOKENS)
    else
      argv ← buf_set (p_argv s) (p_argc s) (Some rd);
      Some (Go (PState (p_buf s) rd (p_wr s) argv (S (p_argc s))))
  else Some (Go s).

Definition is_raw (cmd : cli_cmd) : bool :=
  bool_decide (Z.of_nat (optional cmd) = CLI_ARG_RAW /\ subcmds cmd = None).

(** What the caller sees: the status, [*out], and -- when [*out] refers to
    them -- the line and the argv array as they are left. *)
Record parse_ret : Type := Ret {
  r_status : cli_parse_status; r_out : cli_parse_result;
  r_mem : option (list Z * list (option nat));
}.

Definition cli_parse (roots : list cli_cmd) (line : list Z)
    (argv : list (option nat)) : option parse_ret :=
  let argv_cap := length argv in
  let s := PState line 0 0 argv 0 in
  f ← fetch_token s;
  match f with
  | FetchEnd _ => Some (Ret CLI_PARSE_EMPTY out_zero None)
  | FetchError st => Some (Ret st out_zero None)
  | Fetched s tok =>
      w ← cstr (p_buf s) tok;
      match match_root roots w with
      | None =>
          argv ← buf_set (p_argv s) 1 None;
          Some (Ret CLI_PARSE_NOT_FOUND (ParseResult None (Some 0%nat) 1 0) (Some (p_buf s, argv)))
      | Some cmd =>
          d ← descend (S (length line)) cmd 1 s;
          match d with
          | Return st => Some (Ret st out_zero None)
          | Go (cmd, cmd_level, s) =>
              let handler_base := (cmd_level - 1)%nat in
              let out (s : pstate) := ParseResult (Some cmd) (Some handler_base)
                                        (p_argc s - handler_base) cmd_level in
              if decide (handler cmd = None) then
                argv ← buf_set (p_argv s) (p_argc s) None;
                Some (Ret CLI_PARSE_NO_HANDLER (out s) (Some (p_buf s, argv)))
              else
                let need := if (0 <? mandatory cmd)%nat then (mandatory cmd - 1)%nat else 0%nat in
                r ← (if is_raw cmd then
                       n ← fetch_need need s;
                       match n with
                       | Return st => Some (Return st)
                       | Go s => raw_tail argv_cap handler_base cmd s
                       end
                     else fetch_rest (S (length line)) s);
                match r with
                | Return st => Some (Ret st out_zero None)
                | Go s =>
                    argv ← buf_set (p_argv s) (p_argc s) None;
                    let st :=
                      if (out_argc (out s) <? mandatory cmd)%nat then CLI_PARSE_WRONG_ARGS
                      else if negb (is_raw cmd) && (mandatory cmd + optional cmd <? out_argc (out s))%nat
                      then CLI_PARSE_WRONG_ARGS
                      else CLI_PARSE_OK in
                    Some (Ret st (out s) (Some (p_buf s, argv)))
                end
          end
      end
  end.

Lemma trim_trim s : trim (trim s) = trim s.
Proof.
  induction s as [|c s IH]; simpl; [done|]. destruct (is_space c) eqn:E; [done|]. simpl. by rewrite E.
Qed.

(** The command a path of words names: descend while the current node has
    subcommands and the next word is one of them. *)
Fixpoint resolve (cmd : cli_cmd) (level : nat) (ws : list (list Z)) : cli_cmd * nat :=
  match subcmds cmd, ws with
  | Some set, w :: ws' =>
      match match_sub set w with
      | Some sub => resolve sub (S level) ws'
      | None => (cmd, level)
      end
  | _, _ => (cmd, level)
  end.

(** *** The parser's invariant *)

(** Reading [n] words off a line: the words and the text after them. *)
Fixpoint take_words (n : nat) (s : list Z) : option (list (list Z) * list Z) :=
  match n with
  | O => Some ([], s)
  | S k =>
      match trim s with
      | [] => None
      | s' => '(w, r) ← lex 0 s'; '(ws, r) ← take_words k r; Some (w :: ws, r)
      end
  end.

(** [ws] are the first words of [s], and [rest] is what follows them. *)
Definition words_read (s : list Z) (ws : list (list Z)) (rest : list Z) : Prop :=
  take_words (length ws) s = Some (ws, rest).

Definition leaf (cmd : cli_cmd) : bool := match subcmds cmd with None => true | Some _ => false end.

(** The words of a raw command before its tail, its own name included. *)
Definition raw_args (cmd : cli_cmd) : nat := Nat.max 1 (mandatory cmd).

(** The words [ws] settle the parse, whatever follows them: the first names no
    command; or they name one too deep; or they cannot be followed further down
    the tree, and the command reached has no handler or is a raw one whose
    mandatory words they hold. *)
Definition decided (roots : list cli_cmd) (ws : list (list Z)) : bool :=
  match ws with
  | [] => false
  | w :: ws' =>
      match match_root roots w with
      | None => true
      | Some root =>
          let '(cmd, level) := resolve root 1 ws' in
          (S CLI_MAX_SUBCMD_DEPTH <? level)%nat ||
          ((leaf cmd || (level <? length ws)%nat) &&
           (bool_decide (handler cmd = None) || (is_raw cmd && (raw_args cmd <=? length ws - (level - 1))%nat)))
      end
  end.

(** The line has one word more than [CLI_MAX_ARGC], and the first
    [CLI_MAX_ARGC] do not settle the parse. *)
Definition too_many (roots : list cli_cmd) (s : list Z) : Prop :=
  exists ws w rest, words_read s (ws ++ [w]) rest /\ length ws = CLI_MAX_ARGC /\ decided roots ws = false.

(** A quote is opened and not closed in the word after [ws], which do not settle
    the parse. *)
Definition open_quote (roots : list cli_cmd) (s : list Z) : Prop :=
  exists ws rest, words_read s ws rest /\ lex 0 (trim rest) = None /\
    (length ws <= CLI_MAX_ARGC)%nat /\ decided roots ws = false.

(** The first words name a command below [CLI_MAX_SUBCMD_DEPTH] subcommands. *)
Definition too_deep (roots : list cli_cmd) (s : list Z) : Prop :=
  exists w ws rest root, words_read s (w :: ws) rest /\ match_root roots w = Some root /\
    (S CLI_MAX_SUBCMD_DEPTH < snd (resolve root 1 ws))%nat.

(** [args] are the words up to the first that settles the parse, or all. *)
Definition read_until_decided (roots : list cli_cmd) (s : list Z) (args : list (list Z)) : Prop :=
  exists rest, words_read s args rest /\ decided roots (removelast args) = false /\
    (trim rest = [] \/ decided roots args = true).

(** The arguments are the words of the text or, for a raw command found at word
    [level], its name, its mandatory words and the rest of the text verbatim. *)
Definition spelled (cmd : cli_cmd) (level : nat) (s : list Z) (args : list (list Z)) : Prop :=
  split_words s = Some args \/
  is_raw cmd = true /\ exists ws rest, args = ws ++ [trim rest] /\ trim rest <> [] /\
    words_read s ws rest /\ (length ws - (level - 1))%nat = raw_args cmd.

Lemma split_words_trim s : split_words (trim s) = split_words s.
Proof. by rewrite (split_words_eq (trim s)), (split_words_eq s), trim_trim. Qed.

Lemma take_words_split n : forall s ws r, take_words n s = Some (ws, r) ->
  length ws = n /\ split_words s = (ws' ← split_words r; Some (ws ++ ws')).
Proof.
  induction n as [|n IH]; intros s ws r Hw; simpl in Hw.
  { simplify_eq/=. split; [done|]. by destruct (split_words r). }
  rewrite split_words_eq. destruct (trim s) as [|c s'] eqn:Es; [done|]. rewrite <-Es in *.
  destruct (lex 0 (trim s)) as [[w r1]|]; [|done]. cbn [mbind option_bind] in *.
  destruct (take_words n r1) as [[ws1 r2]|] eqn:E; [|done]. cbn in Hw. injection Hw as <- <-.
  destruct (IH _ _ _ E) as [<- ->]. split; [done|]. by destruct (split_words r2).
Qed.

Lemma take_words_snoc n : forall s ws r w r', take_words n s = Some (ws, r) ->
  trim r <> [] -> lex 0 (trim r) = Some (w, r') -> take_words (S n) s = Some (ws ++ [w], r').
Proof.
  induction n as [|n IH]; intros s ws r w r' Hw Hr Hl; simpl in Hw.
  { simplify_eq/=. destruct (trim r); [done|]. by rewrite Hl. }
  remember (S n) as m. cbn [take_words]. destruct (trim s) as [|c s']; [done|].
  destruct (lex 0 (c :: s')) as [[w1 r1]|]; [|done]. cbn [mbind option_bind] in *.
  destruct (take_words n r1) as [[ws1 r2]|] eqn:E; [|done]. cbn in Hw. injection Hw as <- <-.
  subst m. by rewrite (IH _ _ _ _ _ E Hr Hl).
Qed.

Lemma words_read_nil s : words_read s [] s.
Proof. done. Qed.

Lemma words_read_snoc s ws r w r' : words_read s ws r -> trim r <> [] -> lex 0 (trim r) = Some (w, r') ->
  words_read s (ws ++ [w]) r'.
Proof.
  unfold words_read. intros Hw Hr Hl. rewrite length_app, Nat.add_1_r. by eapply take_words_snoc.
Qed.

Lemma words_read_all s ws r : words_read s ws r -> trim r = [] -> split_words s = Some ws.
Proof.
  intros Hw Hr. apply take_words_split in Hw as [_ ->]. rewrite <-split_words_trim, Hr.
  change (split_words []) with (Some (@nil (list Z))). cbn. by rewrite app_nil_r.
Qed.

Lemma words_read_prefix s ws r all : words_read s ws r -> split_words s = Some all ->
  exists ws', split_words r = Some ws' /\ all = ws ++ ws'.
Proof.
  intros Hw Hall. apply take_words_split in Hw as [_ Hw]. rewrite Hall in Hw.
  destruct (split_words r) as [ws'|]; simplify_eq/=. by exists ws'.
Qed.

Lemma decided_eq roots w ws root cmd level :
  match_root roots w = Some root -> resolve root 1 ws = (cmd, level) -> (level <= S CLI_MAX_SUBCMD_DEPTH)%nat ->
  decided roots (w :: ws) = (leaf cmd || (level <? S (length ws))%nat) &&
    (bool_decide (handler cmd = None) || (is_raw cmd && (raw_args cmd <=? S (length ws) - (level - 1))%nat)).
Proof.
  intros Hr Hc Hl. unfold decided. rewrite Hr, Hc. cbn [length].
  destruct (Nat.ltb_spec (S CLI_MAX_SUBCMD_DEPTH) level); [lia|done].
Qed.

Lemma is_raw_leaf cmd : is_raw cmd = true -> leaf cmd = true.
Proof. unfold is_raw, leaf. intros H%bool_decide_eq_true. by destruct H as [_ ->]. Qed.

Lemma resolve_level ws : forall cmd level, (level <= snd (resolve cmd level ws))%nat.
Proof.
  induction ws as [|w ws IH]; intros cmd level; simpl; destruct (subcmds cmd); simpl; try lia.
  destruct (match_sub l w); simpl; [|lia]. etrans; [|apply IH]. lia.
Qed.

Section cli_parse_spec.
Context (roots : list cli_cmd) (s0 post : list Z) (cap : nat).
Hypothesis (Hcap : (CLI_ARGV_CAP <= cap)%nat).

(** [done] are the words read so far, [rem] the text still unread: the argv
    slots in use spell [done], the first words of the line, and [rem] is what
    follows them, up to blanks. *)
Definition parsing (s : pstate) (rem : list Z) (done : list (list Z)) : Prop :=
  cursors_ok (p_buf s) (p_rd s) (p_wr s) rem post /\
  length (p_argv s) = cap /\ p_argc s = length done /\ (p_argc s <= CLI_MAX_ARGC)%nat /\
  (exists offs, take (p_argc s) (p_argv s) = map Some offs /\
     Forall2 (token_below (p_buf s) (p_wr s)) offs done) /\
  (exists rest, words_read s0 done rest /\ trim rest = trim rem) /\
  length (p_buf s) = length (s0 ++ NUL :: post).

Lemma parsing_end s rem done : parsing s rem done -> trim rem = [] -> split_words s0 = Some done.
Proof.
  intros (_ & _ & _ & _ & _ & (rest & Hw & Ht) & _) Hr. eapply words_read_all; [exact Hw|]. congruence.
Qed.

Lemma parsing_prefix s rem done ws :
  parsing s rem done -> split_words s0 = Some ws ->
  exists ws', ws = done ++ ws' /\ (rem = [] -> ws' = []).
Proof.
  intros (_ & _ & _ & _ & _ & (rest & Hw & Ht) & _) Hws.
  destruct (words_read_prefix _ _ _ _ Hw Hws) as (ws' & Hr & ->). exists ws'. split; [done|].
  intros ->. rewrite <-split_words_trim, Ht in Hr. change (split_words (trim [])) with (Some (@nil (list Z))) in Hr. by simplify_eq.
Qed.

(** Once the text is used up no more words come out of it. *)
Lemma parsing_no_more s done s' rem' more :
  parsing s [] done -> parsing s' rem' (done ++ more) -> more = [] /\ trim rem' = [].
Proof.
  intros H H'. pose proof (parsing_end _ _ _ H eq_refl) as Hall.
  destruct H' as (_ & _ & _ & _ & _ & (rest & Hw & Ht) & _).
  destruct (words_read_prefix _ _ _ _ Hw Hall) as (ws' & Hr & Hl).
  apply (f_equal length) in Hl. rewrite !length_app in Hl.
  assert (more = [] /\ ws' = []) as [-> ->] by (split; apply length_zero_iff_nil; lia). split; [done|].
  rewrite <-Ht. rewrite split_words_eq in Hr. destruct (trim rest) as [|c r]; [done|].
  cbv beta iota in Hr. destruct (lex 0 (c :: r)) as [[t r']|]; [|done]. cbn [mbind option_bind] in Hr.
  by destruct (split_words r').
Qed.

Lemma parsing_rem s rem done : parsing s rem done -> (length rem < length (s0 ++ NUL :: post))%nat.
Proof.
  intros ((Hd & _) & _ & _ & _ & _ & _ & <-). apply (f_equal length) in Hd.
  rewrite length_drop, length_app in Hd. simpl in Hd. lia.
Qed.

(** What makes the read of the word after [done] fail. *)
Definition read_fault (done : list (list Z)) (st : cli_parse_status) : Prop :=
  st = CLI_PARSE_UNTERMINATED_QUOTE /\ (length done <= CLI_MAX_ARGC)%nat /\
    (exists rest, words_read s0 done rest /\ lex 0 (trim rest) = None) \/
  st = CLI_PARSE_TOO_MANY_TOKENS /\ length done = CLI_MAX_ARGC /\ exists w rest, words_read s0 (done ++ [w]) rest.

Definition stopped (st : cli_parse_status) : Prop :=
  st = CLI_PARSE_UNTERMINATED_QUOTE /\ open_quote roots s0 \/ st = CLI_PARSE_TOO_MANY_TOKENS /\ too_many roots s0.

Lemma read_fault_stopped done st : read_fault done st -> decided roots done = false -> stopped st.
Proof.
  intros [(-> & Hl & rest & Hw & He)|(-> & Hl & w & rest & Hw)] Hd; [left|right]; (split; [done|]).
  - by exists done, rest.
  - by exists done, w, rest.
Qed.

Lemma fetch_token_spec s rem done :
  parsing s rem done ->
  exists f, fetch_token s = Some f /\
    match f with
    | FetchEnd s' => parsing s' [] done /\ trim rem = []
    | FetchError st => read_fault done st /\ trim rem <> []
    | Fetched s' tok => exists t r, parsing s' r (done ++ [t]) /\ cstr (p_buf s') tok = Some t /\
                          (length r < length rem)%nat /\ trim rem <> []
    end.
Proof.
  intros (Hc & Hla & Hn & Hm & (offs & Ho & Hf) & (rest & Hw & Htr0) & Hb). unfold fetch_token.
  pose proof (next_token_spec _ _ _ _ _ Hc) as Hnt.
  pose proof (trim_length rem) as Htr. destruct (trim rem) as [|c rem'] eqn:Et.
  { destruct Hnt as (rd' & -> & Hc'). eexists; split; [done|]. split; [|done].
    split; [done|]. do 3 (split; [done|]). split; [by exists offs|].
    split; [by exists rest|done]. }
  cbv beta iota in Hnt. assert (Hne : trim rest <> []) by (by rewrite Htr0).
  destruct (lex 0 (c :: rem')) as [[t r]|] eqn:El.
  2:{ rewrite Hnt. eexists; split; [done|]. split; [|done]. left. split; [done|]. split; [lia|].
      exists rest. by rewrite Htr0. }
  rewrite <-Htr0 in El. pose proof (words_read_snoc _ _ _ _ _ Hw Hne El) as Hw'.
  destruct Hnt as (rd' & -> & Hc' & Ht & Hl). cbn [mbind option_bind].
  destruct (Nat.leb_spec CLI_MAX_ARGC (p_argc s)) as [Hmx|Hmx].
  { eexists; split; [done|]. split; [|done]. right. split; [done|]. split; [lia|]. by exists t, r. }
  assert (Hcap' : (p_argc s < length (p_argv s))%nat) by (unfold CLI_ARGV_CAP in *; lia).
  rewrite buf_set_Some by done. eexists; split; [done|]. exists t, r.
  pose proof (token_below_new (p_buf s) (p_wr s) t Ht Hl) as Hnew.
  assert (Hspl : length (splice (p_wr s) (t ++ [NUL]) (p_buf s)) = length (p_buf s)).
  { apply length_splice. rewrite length_app; simpl; lia. }
  rewrite Htr0 in El. apply lex_length in El as [El1 El2].
  assert (Hlt : (length r < length (c :: rem'))%nat).
  { destruct r; [simpl; lia|]. specialize (El2 ltac:(done)). lia. }
  split; [|split; [|split; [simpl in *; lia|done]]]; unfold parsing; cbn [p_buf p_rd p_wr p_argv p_argc].
  - split; [done|]. split; [by rewrite length_insert|].
    split; [rewrite length_app; simpl; lia|]. split; [lia|].
    split; [|split; [by exists r|by rewrite Hspl]].
    exists (offs ++ [p_wr s]). split.
    + rewrite (take_S_r _ _ (Some (p_wr s))) by (by apply list_lookup_insert_eq).
      rewrite take_insert_ge by lia. by rewrite Ho, map_app.
    + apply Forall2_app; [|by constructor].
      eapply Forall2_impl; [exact Hf|]. intros o t'. apply token_below_splice; [lia|].
      rewrite length_app; simpl; lia.
  - apply cstr_at_cstr. apply Hnew.
Qed.

Lemma fetch_rest_spec fuel : forall s rem done,
  parsing s rem done -> (length rem < fuel)%nat ->
  trim rem = [] \/ (forall more, decided roots (done ++ more) = false) ->
  exists o, fetch_rest fuel s = Some o /\
    match o with
    | Go s' => exists ws, parsing s' [] (done ++ ws) /\ split_words s0 = Some (done ++ ws)
    | Return st => stopped st
    end.
Proof.
  induction fuel as [|k IH]; intros s rem done Hp Hf Hund; [lia|]. simpl.
  destruct (fetch_token_spec s rem done Hp) as (f & -> & H). simpl.
  destruct f as [s'|st|s' tok].
  - destruct H as [H1 H2]. eexists; split; [done|]. exists []. rewrite app_nil_r.
    split; [done|]. by apply (parsing_end _ _ _ Hp).
  - destruct H as [H Hne]. destruct Hund as [|Hund]; [done|]. eexists; split; [done|].
    eapply read_fault_stopped; [exact H|]. by rewrite <-(Hund []), app_nil_r.
  - destruct H as (t & r & H1 & _ & H2 & Hne). destruct Hund as [|Hund]; [done|].
    destruct (IH s' r (done ++ [t]) H1) as (o & -> & Ho); [lia|right; intros more; by rewrite <-app_assoc|].
    exists o. split; [done|].
    destruct o as [st|s'']; [done|]. destruct Ho as (ws & Ho). exists (t :: ws).
    by rewrite <-app_assoc in Ho.
Qed.

Lemma fetch_need_spec need : forall s rem done,
  parsing s rem done ->
  trim rem = [] \/ (forall more, (length more < need)%nat -> decided roots (done ++ more) = false) ->
  exists o, fetch_need need s = Some o /\
    match o with
    | Go s' => exists ws rem', parsing s' rem' (done ++ ws) /\
                 (length ws = need \/ trim rem' = [])
    | Return st => stopped st
    end.
Proof.
  induction need as [|n IH]; intros s rem done Hp Hund; simpl.
  { eexists; split; [done|]. exists [], rem. rewrite app_nil_r. auto. }
  destruct (fetch_token_spec s rem done Hp) as (f & -> & H). simpl.
  destruct f as [s'|st|s' tok].
  - destruct H as [H1 H2]. eexists; split; [done|]. exists [], []. rewrite app_nil_r. auto.
  - destruct H as [H Hne]. destruct Hund as [|Hund]; [done|]. eexists; split; [done|].
    eapply read_fault_stopped; [exact H|]. rewrite <-(Hund []), app_nil_r; [done|simpl; lia].
  - destruct H as (t & r & H1 & _ & H2 & Hne). destruct Hund as [|Hund]; [done|].
    destruct (IH s' r (done ++ [t]) H1) as (o & -> & Ho).
    { right. intros more Hl. rewrite <-app_assoc. apply Hund. simpl. lia. }
    exists o. split; [done|].
    destruct o as [st|s'']; [done|]. destruct Ho as (ws & rem' & Ho & Hn).
    exists (t :: ws), rem'. rewrite <-app_assoc in Ho. split; [done|].
    simpl. destruct Hn; [left; lia|by right].
Qed.

(** Where the descent from the words [done] may end: at [cmd], found at word
    [level] by [words], with the text [rem] left. *)
Definition descended (root : cli_cmd) (cmd : cli_cmd) (level : nat) (words : list (list Z)) (rem : list Z) : Prop :=
  (1 <= level <= length words)%nat /\ (level <= S CLI_MAX_SUBCMD_DEPTH)%nat /\
  resolve root 1 (tail words) = (cmd, level) /\
  decided roots (removelast words) = false /\ (leaf cmd = true -> length words = level) /\
  (rem = [] \/ leaf cmd || (level <? length words)%nat = true /\
               forall ws', resolve root 1 (tail words ++ ws') = (cmd, level)).

Lemma descend_spec root w0 fuel : forall cmd level s rem ws0,
  match_root roots w0 = Some root ->
  parsing s rem (w0 :: ws0) -> (length rem < fuel)%nat ->
  level = S (length ws0) -> (level <= S CLI_MAX_SUBCMD_DEPTH)%nat ->
  decided roots (removelast (w0 :: ws0)) = false ->
  (forall ws, resolve root 1 (ws0 ++ ws) = resolve cmd level ws) ->
  exists o, descend fuel cmd level s = Some o /\
    match o with
    | Go (cmd', level', s') => exists ws rem',
        parsing s' rem' (w0 :: ws) /\ descended root cmd' level' (w0 :: ws) rem'
    | Return st => stopped st \/ st = CLI_PARSE_NESTING_TOO_DEEP /\ too_deep roots s0
    end.
Proof.
  induction fuel as [|k IH]; intros cmd level s rem ws0 Hroot Hp Hf Hlv Hmax Hrl Hres; [lia|]. cbn [descend].
  pose proof (Hres []) as Hnow. rewrite app_nil_r in Hnow.
  destruct (subcmds cmd) as [set|] eqn:Esub.
  2:{ eexists; split; [done|]. exists ws0, rem. split; [done|]. unfold descended, leaf. rewrite Esub. cbn [tail length].
      assert (H : forall ws, resolve cmd level ws = (cmd, level)) by (intros [|w ws]; simpl; by rewrite Esub).
      rewrite Hnow, H. split; [lia|]. do 3 (split; [done|]). split; [lia|]. right. split; [done|]. intros ws'. by rewrite Hres. }
  assert (Hcl : resolve root 1 ws0 = (cmd, level)) by (rewrite Hnow; simpl; by rewrite Esub).
  assert (Hund : decided roots (w0 :: ws0) = false).
  { rewrite (decided_eq _ _ _ _ _ _ Hroot Hcl Hmax). unfold leaf. rewrite Esub.
    destruct (Nat.ltb_spec level (S (length ws0))); [lia|done]. }
  destruct (fetch_token_spec s rem _ Hp) as (f & -> & H). cbn [mbind option_bind].
  destruct f as [s'|st|s' tok].
  - destruct H as [H1 H2]. eexists; split; [done|]. exists ws0, []. split; [done|]. unfold descended, leaf.
    rewrite Esub. cbn [tail length]. split; [lia|]. do 3 (split; [done|]). split; [done|by left].
  - destruct H as [H _]. eexists; split; [done|]. left. by eapply read_fault_stopped.
  - destruct H as (t & r & H1 & H3 & H2 & _). rewrite H3. cbn [mbind option_bind].
    change ((w0 :: ws0) ++ [t]) with (w0 :: (ws0 ++ [t])) in H1.
    assert (Hrl' : decided roots (removelast (w0 :: (ws0 ++ [t]))) = false).
    { change (w0 :: (ws0 ++ [t])) with ((w0 :: ws0) ++ [t]). by rewrite removelast_last. }
    assert (Hnext : forall ws, resolve root 1 ((ws0 ++ [t]) ++ ws) = resolve cmd level (t :: ws)).
    { intros ws. by rewrite <-app_assoc, Hres. }
    assert (Hlen : length (ws0 ++ [t]) = S (length ws0)) by (rewrite length_app; simpl; lia).
    destruct (match_sub set t) as [sub|] eqn:Em.
    + assert (Hdown : forall ws, resolve root 1 ((ws0 ++ [t]) ++ ws) = resolve sub (S level) ws).
      { intros ws. rewrite Hnext. simpl. by rewrite Esub, Em. }
      destruct (Nat.leb_spec CLI_MAX_SUBCMD_DEPTH (level - 1)).
      { eexists; split; [done|]. right. split; [done|].
        destruct H1 as (_ & _ & _ & _ & _ & (rest & Hw & _) & _). exists w0, (ws0 ++ [t]), rest, root.
        split; [done|]. split; [done|]. pose proof (Hdown []) as Hn. rewrite app_nil_r in Hn. rewrite Hn.
        pose proof (resolve_level [] sub (S level)). lia. }
      apply (IH sub (S level) s' r (ws0 ++ [t])); try done; lia.
    + eexists; split; [done|]. exists (ws0 ++ [t]), r. split; [done|].
      assert (H : forall ws, resolve cmd level (t :: ws) = (cmd, level)).
      { intros ws. simpl. by rewrite Esub, Em. }
      unfold descended, leaf. rewrite Esub. cbn [tail length]. rewrite Hlen. split; [lia|]. split; [done|].
      pose proof (Hnext []) as Hn. rewrite app_nil_r, H in Hn. split; [exact Hn|]. split; [done|]. split; [done|].
      right. split; [cbn [orb]; apply Nat.ltb_lt; lia|]. intros ws'. by rewrite Hnext.
Qed.

(** [argv] holds exactly the strings [args], and its NULL sentinel. *)
Definition published (buf : list Z) (argv : list (option nat)) (args : list (list Z)) : Prop :=
  argv !! length args = Some None /\
  exists offs, take (length args) argv = map Some offs /\ Forall2 (cstr_at buf) offs args.

Lemma publish s args offs :
  length (p_argv s) = cap -> (length args < cap)%nat ->
  take (length args) (p_argv s) = map Some offs -> Forall2 (cstr_at (p_buf s)) offs args ->
  exists argv, buf_set (p_argv s) (length args) None = Some argv /\ published (p_buf s) argv args.
Proof.
  intros Hl Hlt Ho Hf. rewrite buf_set_Some by lia. eexists; split; [done|].
  split; [apply list_lookup_insert_eq; lia|]. exists offs. by rewrite take_insert_ge by lia.
Qed.

Lemma parsing_publish s rem done : parsing s rem done ->
  exists argv, buf_set (p_argv s) (p_argc s) None = Some argv /\ published (p_buf s) argv done.
Proof.
  intros (_ & Hl & Hn & Hm & (offs & Ho & Hf) & _). rewrite Hn in *.
  eapply publish; [done| |done|].
  - unfold CLI_ARGV_CAP in *; lia.
  - eapply Forall2_impl; [exact Hf|]. by intros ?? [? _].
Qed.

(** The RAW branch: afterwards argv spells the words read and, when enough of
    them were there and text is left, that text verbatim. *)
Lemma raw_tail_spec s rem done cmd base :
  parsing s rem done ->
  exists s' args argv, raw_tail cap base cmd s = Some (Go s') /\
    p_argc s' = length args /\ buf_set (p_argv s') (p_argc s') None = Some argv /\
    published (p_buf s') argv args /\
    (args = done /\ (trim rem = [] \/ (p_argc s - base < mandatory cmd)%nat) \/
     exists rest, args = done ++ [trim rest] /\ trim rest <> [] /\ trim rest = trim rem /\ words_read s0 done rest).
Proof.
  intros Hp. pose proof Hp as (Hc & Hl & Hn & Hm & (offs & Ho & Hf) & (rest & Hws & Htr) & Hb).
  destruct (parsing_publish _ _ _ Hp) as (argv & Hset & Hpub). unfold raw_tail.
  destruct (Nat.leb_spec (mandatory cmd) (p_argc s - base)).
  2:{ exists s, done, argv. do 4 (split; [done|]). left. split; [done|by right]. }
  destruct Hc as (Hd & Hnn & Hw).
  assert (Hlen : (length rem < S (length (p_buf s)))%nat).
  { apply (f_equal length) in Hd. rewrite length_drop, length_app in Hd. simpl in Hd. lia. }
  destruct (skip_spaces_spec _ _ _ _ _ Hd Hlen) as (rd' & -> & Hrd & Hd'). cbn [mbind option_bind].
  assert (Hlk : p_buf s !! rd' = Some (match trim rem with [] => NUL | c :: _ => c end)).
  { destruct (trim rem); simpl in Hd'; by apply drop_cons_inv in Hd' as [? _]. }
  rewrite Hlk. cbn [mbind option_bind]. pose proof (trim_no_nul _ Hnn) as Htn.
  destruct (trim rem) as [|c tl] eqn:Et.
  { eexists _, done, argv. do 4 (split; [done|]). left. split; [done|by left]. }
  replace (c =? NUL) with false by (symmetry; apply Z.eqb_neq; by inversion Htn).
  assert (Hmx : (p_argc s < cap - 1)%nat) by (unfold CLI_ARGV_CAP in *; lia).
  destruct (Nat.leb_spec (cap - 1) (p_argc s)); [lia|].
  rewrite buf_set_Some by lia. cbn [mbind option_bind].
  edestruct (publish (PState (p_buf s) rd' (p_wr s) (<[p_argc s:=Some rd']> (p_argv s)) (S (p_argc s)))
               (done ++ [c :: tl]) (offs ++ [rd'])) as (argv' & Ha & Hpub').
  - cbn [p_argv]. by rewrite length_insert.
  - rewrite length_app; simpl; lia.
  - cbn [p_argv]. rewrite length_app, <-Hn; simpl. rewrite Nat.add_1_r.
    rewrite (take_S_r _ _ (Some rd')) by (apply list_lookup_insert_eq; lia).
    rewrite take_insert_ge by lia. by rewrite Ho, map_app.
  - apply Forall2_app; [eapply Forall2_impl; [exact Hf|]; by intros ?? [? _]|].
    constructor; [|done]. by eapply drop_cstr_at.
  - eexists _, (done ++ [c :: tl]), argv'. split; [done|]. cbn [p_argc p_argv p_buf] in *.
    rewrite length_app, Nat.add_1_r, <-Hn in Ha; simpl in Ha.
    split; [rewrite length_app; simpl; lia|]. split; [done|]. split; [done|].
    right. exists rest. by rewrite Htr.
Qed.
End cli_parse_spec.

(** What the result of a parse that resolved a command says. *)
Record resolved (roots : list cli_cmd) (s : list Z) (r : parse_ret) (cmd : cli_cmd)
    (root : cli_cmd) (buf : list Z) (argv : list (option nat)) (args : list (list Z)) : Prop := {
  res_root : exists w ws, args = w :: ws /\ match_root roots w = Some root;
  res_out : exists level, resolve root 1 (tail args) = (cmd, level) /\
              (1 <= level <= length args)%nat /\
              r_out r = ParseResult (Some cmd) (Some (level - 1)%nat) (length args - (level - 1)) level;
  res_mem : r_mem r = Some (buf, argv);
  res_args : published buf argv args;
}.

Definition args_ok (cmd : cli_cmd) (n : nat) : bool :=
  (mandatory cmd <=? n)%nat && (is_raw cmd || (n <=? mandatory cmd + optional cmd)%nat).

(** Everything [cli_parse] guarantees, status by status. *)
Definition parse_post (roots : list cli_cmd) (s : list Z) (r : parse_ret) : Prop :=
  match r_status r with
  | CLI_PARSE_EMPTY => trim s = [] /\ r_out r = out_zero
  | CLI_PARSE_UNTERMINATED_QUOTE => open_quote roots s /\ r_out r = out_zero
  | CLI_PARSE_TOO_MANY_TOKENS => too_many roots s /\ r_out r = out_zero
  | CLI_PARSE_NESTING_TOO_DEEP => too_deep roots s /\ r_out r = out_zero
  | CLI_PARSE_NOT_FOUND => exists w rest buf argv, words_read s [w] rest /\ match_root roots w = None /\
      r_out r = ParseResult None (Some 0%nat) 1 0 /\ r_mem r = Some (buf, argv) /\
      published buf argv [w]
  | CLI_PARSE_NO_HANDLER => exists cmd root buf argv args,
      resolved roots s r cmd root buf argv args /\ handler cmd = None /\ read_until_decided roots s args
  | st => exists cmd root buf argv args,
      resolved roots s r cmd root buf argv args /\ handler cmd <> None /\
      (st = CLI_PARSE_OK <-> args_ok cmd (out_argc (r_out r)) = true) /\
      spelled cmd (out_level (r_out r)) s args
  end.

Lemma args_ok_raw cmd n : is_raw cmd = true -> args_ok cmd n = negb (n <? mandatory cmd)%nat.
Proof. unfold args_ok. intros ->. lia. Qed.

(** The last step of a parse: argv terminated, the counts checked. *)
Lemma finish_post roots s r0 cmd root buf argv args :
  resolved roots s r0 cmd root buf argv args -> handler cmd <> None ->
  spelled cmd (out_level (r_out r0)) s args ->
  parse_post roots s
    (Ret (if (out_argc (r_out r0) <? mandatory cmd)%nat then CLI_PARSE_WRONG_ARGS
          else if negb (is_raw cmd) && (mandatory cmd + optional cmd <? out_argc (r_out r0))%nat
          then CLI_PARSE_WRONG_ARGS else CLI_PARSE_OK) (r_out r0) (r_mem r0)).
Proof.
  intros Hr Hh Hs. unfold parse_post. cbn [r_status r_out].
  assert (Hr' : forall st, resolved roots s (Ret st (r_out r0) (r_mem r0)) cmd root buf argv args).
  { intros st. by destruct Hr. }
  assert (Hok : args_ok cmd (out_argc (r_out r0)) =
            negb (out_argc (r_out r0) <? mandatory cmd)%nat &&
            negb (negb (is_raw cmd) && (mandatory cmd + optional cmd <? out_argc (r_out r0))%nat)).
  { unfold args_ok. destruct (is_raw cmd); lia. }
  destruct (_ <? mandatory cmd)%nat; [|destruct (negb (is_raw cmd) && _)]; simpl in Hok;
    exists cmd, root, buf, argv, args; split; [done| |done| |done|]; split; try done; split; try done;
    rewrite Hok; split; done.
Qed.

(** The answer to a parse that a read ended. *)
Lemma stopped_post roots s st : stopped roots s st \/ st = CLI_PARSE_NESTING_TOO_DEEP /\ too_deep roots s ->
  parse_post roots s (Ret st out_zero None).
Proof. by intros [[[-> H]|[-> H]]|[-> H]]. Qed.

(** The result for the command that [descended] reached, [more] words on. *)
Lemma descended_resolved roots s root w0 ws cmd level rem more st buf argv args :
  match_root roots w0 = Some root -> descended roots root cmd level (w0 :: ws) rem ->
  args = (w0 :: ws) ++ more -> (rem = [] -> more = []) -> published buf argv args ->
  resolved roots s (Ret st (ParseResult (Some cmd) (Some (level - 1)%nat) (length args - (level - 1)) level)
    (Some (buf, argv))) cmd root buf argv args.
Proof.
  intros Hroot (Hlev & _ & Hres & _ & _ & Hend) -> Hmore Hpub. constructor; [|exists level| |done].
  - by exists w0, (ws ++ more).
  - split; [|split; [|done]].
    + destruct Hend as [Hr|[_ Hr]]; [rewrite (Hmore Hr), app_nil_r; exact Hres|by apply Hr].
    + rewrite length_app. lia.
  - done.
Qed.

(** A command with a handler is not settled before its words are read. *)
Lemma descended_undecided roots root w0 ws cmd level rem : match_root roots w0 = Some root ->
  descended roots root cmd level (w0 :: ws) rem -> handler cmd <> None ->
  trim rem = [] \/ forall more,
    is_raw cmd = false \/ (length more < raw_args cmd - 1)%nat -> decided roots ((w0 :: ws) ++ more) = false.
Proof.
  intros Hroot (Hlev & Hmax & _ & _ & Hleaf & [->|[_ Hres]]) Hh; [by left|right]. intros more Hm.
  change ((w0 :: ws) ++ more) with (w0 :: (ws ++ more)).
  rewrite (decided_eq _ _ (ws ++ more) _ _ _ Hroot (Hres more) Hmax), (bool_decide_eq_false_2 _ Hh). cbn [orb].
  destruct (is_raw cmd) eqn:Er; [|apply andb_false_r]. destruct Hm as [|Hm]; [done|].
  specialize (Hleaf (is_raw_leaf _ Er)). cbn [length] in *. rewrite length_app. cbn [andb].
  destruct (Nat.leb_spec (raw_args cmd) (S (length ws + length more) - (level - 1))); [lia|apply andb_false_r].
Qed.

(** The branch of a raw command. *)
Lemma raw_branch_spec roots s post cap root w0 ws cmd level s2 rem2 : (CLI_ARGV_CAP <= cap)%nat ->
  match_root roots w0 = Some root -> parsing s post cap s2 rem2 (w0 :: ws) ->
  descended roots root cmd level (w0 :: ws) rem2 -> handler cmd <> None -> is_raw cmd = true ->
  exists o, (n ← fetch_need (if (0 <? mandatory cmd)%nat then (mandatory cmd - 1)%nat else 0%nat) s2;
             match n with
             | Return st => Some (Return st)
             | Go s => raw_tail cap (level - 1) cmd s
             end) = Some o /\
    match o with
    | Return st => stopped roots s st
    | Go s4 => exists more argv, buf_set (p_argv s4) (p_argc s4) None = Some argv /\
        published (p_buf s4) argv ((w0 :: ws) ++ more) /\ p_argc s4 = length ((w0 :: ws) ++ more) /\
        (rem2 = [] -> more = []) /\ spelled cmd level s ((w0 :: ws) ++ more)
    end.
Proof.
  intros Hcap Hroot Hp2 Hd Hh Eraw. set (need := if (0 <? mandatory cmd)%nat then _ else _).
  assert (Hneed0 : need = (raw_args cmd - 1)%nat).
  { unfold need, raw_args. destruct (Nat.ltb_spec 0 (mandatory cmd)); lia. }
  destruct (fetch_need_spec roots _ _ _ Hcap need _ _ _ Hp2) as (o & -> & Ho).
  { destruct (descended_undecided _ _ _ _ _ _ _ Hroot Hd Hh) as [|Hund]; [by left|right].
    intros more Hm. apply Hund. right. lia. }
  cbn [mbind option_bind]. destruct o as [st|s3]; [by eexists|].
  destruct Ho as (more & rem3 & Hp3 & Hneed).
  destruct (raw_tail_spec _ _ _ Hcap _ _ _ cmd (level - 1) Hp3)
    as (s4 & args & argv' & -> & Hn4 & Ha4 & Hpub & Hargs).
  eexists; split; [done|].
  assert (Hmn : rem2 = [] -> more = [] /\ trim rem3 = []) by (intros ->; by eapply parsing_no_more).
  destruct Hd as (Hlev & _ & _ & _ & Hleaf & _). specialize (Hleaf (is_raw_leaf _ Eraw)).
  assert (Hn3 : p_argc s3 = length ((w0 :: ws) ++ more)) by apply Hp3.
  destruct Hargs as [[-> Hend]|(rest & -> & Hne & Htr & Hw)].
  - exists more, argv'. do 3 (split; [done|]). split; [intros E; by apply Hmn|].
    left. apply (parsing_end _ _ _ _ _ _ Hp3). destruct Hend as [|Hend]; [done|].
    destruct Hneed as [Hneed|]; [|done]. exfalso. unfold raw_args in *.
    rewrite Hn3, length_app in Hend. lia.
  - exists (more ++ [trim rest]), argv'. rewrite app_assoc. do 3 (split; [done|]). split.
    { intros E. destruct (Hmn E) as [_ E']. congruence. }
    right. split; [done|]. exists ((w0 :: ws) ++ more), rest. do 3 (split; [done|]).
    destruct Hneed as [Hneed|Hneed]; [|congruence]. rewrite length_app, Hleaf. unfold raw_args in *. lia.
Qed.

(** The branch of any other command with a handler. *)
Lemma rest_branch_spec roots s post cap root w0 ws cmd level s2 rem2 fuel : (CLI_ARGV_CAP <= cap)%nat ->
  match_root roots w0 = Some root -> parsing s post cap s2 rem2 (w0 :: ws) -> (length rem2 < fuel)%nat ->
  descended roots root cmd level (w0 :: ws) rem2 -> handler cmd <> None -> is_raw cmd = false ->
  exists o, fetch_rest fuel s2 = Some o /\
    match o with
    | Return st => stopped roots s st
    | Go s4 => exists more argv, buf_set (p_argv s4) (p_argc s4) None = Some argv /\
        published (p_buf s4) argv ((w0 :: ws) ++ more) /\ p_argc s4 = length ((w0 :: ws) ++ more) /\
        (rem2 = [] -> more = []) /\ spelled cmd level s ((w0 :: ws) ++ more)
    end.
Proof.
  intros Hcap Hroot Hp2 Hf Hd Hh Eraw.
  destruct (fetch_rest_spec roots _ _ _ Hcap fuel _ _ _ Hp2 Hf) as (o & -> & Ho).
  { destruct (descended_undecided _ _ _ _ _ _ _ Hroot Hd Hh) as [|Hund]; [by left|right].
    intros more. apply Hund. by left. }
  eexists; split; [done|]. destruct o as [st|s3]; [done|]. destruct Ho as (more & Hp3 & Hw).
  destruct (parsing_publish _ _ _ Hcap _ _ _ Hp3) as (argv' & Ha & Hpub). exists more, argv'.
  do 2 (split; [done|]). split; [by apply Hp3|]. split; [|by left].
  intros ->. eapply proj1, parsing_no_more; [exact Hcap|exact Hp2|exact Hp3].
Qed.

Lemma cli_parse_spec roots s post argv :
  no_nul s -> (CLI_ARGV_CAP <= length argv)%nat ->
  exists r, cli_parse roots (s ++ NUL :: post) argv = Some r /\ parse_post roots s r.
Proof.
  intros Hs Hcap. unfold cli_parse. cbv zeta.
  set (st0 := PState (s ++ NUL :: post) 0 0 argv 0).
  assert (H0 : parsing s post (length argv) st0 s []).
  { split; [split; [done|]; split; [done|left; simpl; lia]|].
    do 2 (split; [done|]). split; [simpl; lia|]. split; [by exists []|].
    split; [|done]. exists s. split; [apply words_read_nil|done]. }
  destruct (fetch_token_spec _ _ _ Hcap _ _ _ H0) as (f & -> & Hf). cbn [mbind option_bind].
  destruct f as [s1|st|s1 tok].
  { eexists; split; [done|]. split; [|done]. apply Hf. }
  { eexists; split; [done|]. apply stopped_post. left. by eapply read_fault_stopped; [apply Hf|]. }
  destruct Hf as (w0 & rem & Hp1 & -> & Hlt & _). cbn [mbind option_bind]. simpl app in Hp1.
  destruct (match_root roots w0) as [root|] eqn:Er.
  2:{ destruct (parsing_publish _ _ _ Hcap _ _ _ Hp1) as (argv' & Ha & Hpub).
      assert (Hn : p_argc s1 = 1%nat) by apply Hp1. rewrite Hn in Ha. rewrite Ha.
      destruct Hp1 as (_ & _ & _ & _ & _ & (rest & Hw & _) & _).
      eexists; split; [done|]. by exists w0, rest, (p_buf s1), argv'. }
  assert (Hfuel : (length rem < S (length (s ++ NUL :: post)))%nat) by (rewrite length_app; lia).
  destruct (descend_spec roots _ _ _ Hcap root w0 (S (length (s ++ NUL :: post))) root 1%nat s1 rem [] Er Hp1)
    as (o & -> & Ho); [done|done|unfold CLI_MAX_SUBCMD_DEPTH; lia|done|done|]. cbn [mbind option_bind].
  destruct o as [st|[[cmd level] s2]].
  { eexists; split; [done|]. by apply stopped_post. }
  destruct Ho as (ws & rem2 & Hp2 & Hd).
  case_decide as Hh.
  { destruct (parsing_publish _ _ _ Hcap _ _ _ Hp2) as (argv' & -> & Hpub). cbn [mbind option_bind].
    assert (Hn : p_argc s2 = length (w0 :: ws)) by apply Hp2. rewrite Hn.
    eexists; split; [done|]. exists cmd, root, (p_buf s2), argv', (w0 :: ws).
    split; [by apply (descended_resolved roots s root w0 ws cmd level rem2 []); rewrite ?app_nil_r|].
    split; [done|]. destruct Hp2 as (_ & _ & _ & _ & _ & (rest & Hw & Htr) & _). exists rest. split; [done|].
    destruct Hd as (_ & Hmax & Hres & Hrl & _ & Hend). split; [done|]. rewrite Htr.
    destruct Hend as [->|[Hend _]]; [by left|right].
    rewrite (decided_eq _ _ ws _ _ _ Er Hres Hmax), (bool_decide_eq_true_2 _ Hh), andb_true_r. exact Hend. }
  assert (Hf2 : (length rem2 < S (length (s ++ NUL :: post)))%nat).
  { eapply parsing_rem in Hp2; [lia|done]. }
  assert (Hbr : exists o, (if is_raw cmd
      then n ← fetch_need (if (0 <? mandatory cmd)%nat then (mandatory cmd - 1)%nat else 0%nat) s2;
           match n with
           | Return st => Some (Return st)
           | Go s => raw_tail (length argv) (level - 1) cmd s
           end
      else fetch_rest (S (length (s ++ NUL :: post))) s2) = Some o /\
    match o with
    | Return st => stopped roots s st
    | Go s4 => exists more argv, buf_set (p_argv s4) (p_argc s4) None = Some argv /\
        published (p_buf s4) argv ((w0 :: ws) ++ more) /\ p_argc s4 = length ((w0 :: ws) ++ more) /\
        (rem2 = [] -> more = []) /\ spelled cmd level s ((w0 :: ws) ++ more)
    end).
  { destruct (is_raw cmd) eqn:Eraw; [by eapply raw_branch_spec|by eapply rest_branch_spec]. }
  destruct Hbr as (o & -> & Ho). cbn [mbind option_bind]. destruct o as [st|s4].
  { eexists; split; [done|]. apply stopped_post. by left. }
  destruct Ho as (more & argv' & -> & Hpub & Hn & Hmore & Hsp). cbn [mbind option_bind]. rewrite Hn.
  eexists; split; [done|]. eapply (finish_post _ _ (Ret CLI_PARSE_OK _ (Some (p_buf s4, argv'))));
    [by eapply (descended_resolved roots s root w0 ws cmd level rem2 more)|done|exact Hsp].
Qed.

(** C27: soundness and safety of [cli_parse] on every line, its quotes closed or
    not: with the argv array the header asks for, the parser terminates, never
    reads or writes outside the line or the array, and its status, its result
    and the argv it leaves say what [parse_post] says.  It reads words off the
    line only until they settle the answer ([decided]), so an open quote or a
    21st word is reported exactly when it is met before that.  [CLI_PARSE_OK] is
    answered for a command with a handler whose argument count is accepted, and
    its arguments are all the words of the line or, for a raw command, its name,
    its mandatory words and the rest of the line verbatim, open quotes
    included. *)
Theorem cli_parse_sound roots (s post : list Z) (argv : list (option nat)) :
  no_nul s -> (CLI_ARGV_CAP <= length argv)%nat ->
  exists r, cli_parse roots (s ++ NUL :: post) argv = Some r /\ parse_post roots s r.
Proof. apply cli_parse_spec. Qed.

Lemma resolve_stop ws : forall cmd level c l more, resolve cmd level ws = (c, l) ->
  leaf c = true \/ (l < level + length ws)%nat -> resolve cmd level (ws ++ more) = (c, l).
Proof.
  unfold leaf. induction ws as [|w ws IH]; intros cmd level c l more Hr Hs; simpl in *.
  - assert (Hcl : (cmd, level) = (c, l)) by (by destruct (subcmds cmd)). injection Hcl as <- <-.
    destruct Hs as [Hs|Hs]; [|lia]. destruct more; simpl; by destruct (subcmds cmd).
  - destruct (subcmds cmd) as [set|] eqn:Es; [|done]. destruct (match_sub set w) as [sub|] eqn:Em; [|done].
    apply IH; [done|]. destruct Hs; [by left|right; lia].
Qed.

(** A leaf reached before the last word is reached without it. *)
Lemma resolve_leaf_prefix ws : forall cmd level tl more c l, resolve cmd level (ws ++ [tl]) = (c, l) ->
  leaf c = true -> (l <= level + length ws)%nat -> resolve cmd level (ws ++ more) = (c, l).
Proof.
  unfold leaf. induction ws as [|w ws IH]; intros cmd level tl more c l Hr Hc Hl; simpl in *.
  - destruct (subcmds cmd) as [set|] eqn:Es.
    + destruct (match_sub set tl) as [sub|] eqn:Em; [|injection Hr as <- <-; by rewrite Es in Hc].
      pose proof (resolve_level [] sub (S level)) as Hlv. simpl in Hlv.
      destruct (subcmds sub); injection Hr as <- <-; lia.
    + destruct more; simpl; rewrite Es; exact Hr.
  - destruct (subcmds cmd) as [set|] eqn:Es; [|done]. destruct (match_sub set w) as [sub|] eqn:Em; [|done].
    apply (IH sub (S level) tl); [done|done|lia].
Qed.

Lemma resolve_app_level ws : forall cmd level more,
  (snd (resolve cmd level ws) <= snd (resolve cmd level (ws ++ more)))%nat.
Proof.
  induction ws as [|w ws IH]; intros cmd level more; simpl.
  - assert (snd (match subcmds cmd with Some _ | _ => (cmd, level) end) = level) as -> by (by destruct (subcmds cmd)).
    apply resolve_level.
  - destruct (subcmds cmd) as [set|]; [|done]. destruct (match_sub set w); [apply IH|done].
Qed.

(** On a line without an open quote the answer is about its command. *)
Section ordinary.
Context (roots : list cli_cmd) (s : list Z) (w : list Z) (ws : list (list Z)) (root cmd : cli_cmd) (level : nat).
Hypothesis Hw : split_words s = Some (w :: ws).
Hypothesis Hroot : match_root roots w = Some root.
Hypothesis Hres : resolve root 1 ws = (cmd, level).

Lemma ordinary_prefix args rest : words_read s args rest -> args <> [] -> exists args' more,
  args = w :: args' /\ ws = args' ++ more.
Proof.
  intros Hr Hne. destruct (words_read_prefix _ _ _ _ Hr Hw) as (ws' & _ & E).
  destruct args as [|w1 args']; [done|]. injection E as <- E. by exists args', ws'.
Qed.

Lemma ordinary_not_open : ~ open_quote roots s.
Proof.
  intros (args & rest & Hr & Hq & _). destruct (words_read_prefix _ _ _ _ Hr Hw) as (ws' & E & _).
  rewrite split_words_eq in E. destruct (trim rest) as [|c r]; [done|]. by rewrite Hq in E.
Qed.

Lemma ordinary_not_deep : (level <= S CLI_MAX_SUBCMD_DEPTH)%nat -> ~ too_deep roots s.
Proof.
  intros Hl (w1 & args & rest & root1 & Hr & Hr1 & Hd).
  destruct (ordinary_prefix _ _ Hr) as (args' & more & [= -> <-] & E); [done|].
  pose proof (resolve_app_level args root 1 more) as Hlev. rewrite <-E, Hres in Hlev. simpl in Hlev.
  rewrite Hroot in Hr1. injection Hr1 as ->. lia.
Qed.

Lemma ordinary_spelled r c root' buf argv args : resolved roots s r c root' buf argv args ->
  spelled c (out_level (r_out r)) s args -> is_raw cmd = false ->
  c = cmd /\ args = w :: ws /\ out_level (r_out r) = level.
Proof.
  intros [(w1 & ws1 & -> & Hr1) (l & Hl & Hb & Ho) _ _] Hsp Hraw. rewrite Ho in *. cbn [out_level tail length] in *.
  destruct Hsp as [Hsp|(Hraw' & ws2 & rest & E & _ & Hr & Hn)].
  { rewrite Hw in Hsp. injection Hsp as <- <-. rewrite Hroot in Hr1. injection Hr1 as <-. rewrite Hres in Hl. by simplify_eq. }
  unfold raw_args in Hn. destruct ws2 as [|w2 ws2]; [simpl in Hn; lia|]. injection E as <- ->.
  destruct (ordinary_prefix _ _ Hr) as (args' & more & [= -> <-] & E); [done|].
  rewrite Hroot in Hr1. injection Hr1 as <-. simpl in Hn.
  eapply resolve_leaf_prefix in Hl; [|by apply is_raw_leaf|lia].
  rewrite <-E, Hres in Hl. injection Hl as <- <-. by rewrite Hraw in Hraw'.
Qed.

Lemma ordinary_has_handler r c root' buf argv args : resolved roots s r c root' buf argv args ->
  read_until_decided roots s args -> (level <= S CLI_MAX_SUBCMD_DEPTH)%nat -> c = cmd.
Proof.
  intros [(w1 & ws1 & -> & Hr1) (l & Hl & Hb & Ho) _ _] (rest & Hr & _ & Hend) Hmax. cbn [tail length] in *.
  destruct (ordinary_prefix _ _ Hr) as (args' & more & [= -> <-] & E); [done|].
  rewrite Hroot in Hr1. injection Hr1 as <-.
  destruct Hend as [Hend|Hd]; [rewrite (words_read_all _ _ _ Hr Hend) in Hw; injection Hw as Hw; rewrite Hw in Hl; congruence|].
  pose proof (resolve_app_level ws1 root 1 more) as Hlev. rewrite <-E, Hl, Hres in Hlev. simpl in Hlev.
  rewrite (decided_eq _ _ _ _ _ _ Hroot Hl) in Hd by lia. apply andb_true_iff in Hd as [Hd _].
  apply orb_true_iff in Hd. rewrite E in Hres. rewrite (resolve_stop _ _ _ _ _ more Hl) in Hres; [by simplify_eq|].
  destruct Hd as [Hd|Hd%Nat.ltb_lt]; [by left|right; lia].
Qed.
End ordinary.

(** completeness for ordinary commands: when the words of the line name a
    command with a handler, within the depth and token limits and with an
    accepted number of arguments, [cli_parse] answers [CLI_PARSE_OK] for that
    command, at that level, with exactly those words in argv. *)
Theorem cli_parse_accepts roots (s post : list Z) (argv : list (option nat))
    (w : list Z) (ws : list (list Z)) (root cmd : cli_cmd) (level : nat) :
  no_nul s -> (CLI_ARGV_CAP <= length argv)%nat ->
  split_words s = Some (w :: ws) -> (length (w :: ws) <= CLI_MAX_ARGC)%nat ->
  match_root roots w = Some root -> resolve root 1 ws = (cmd, level) ->
  (level <= S CLI_MAX_SUBCMD_DEPTH)%nat -> handler cmd <> None -> is_raw cmd = false ->
  args_ok cmd (S (length ws) - (level - 1)) = true ->
  exists buf argv', cli_parse roots (s ++ NUL :: post) argv =
      Some (Ret CLI_PARSE_OK
              (ParseResult (Some cmd) (Some (level - 1)%nat) (S (length ws) - (level - 1)) level)
              (Some (buf, argv'))) /\
    published buf argv' (w :: ws).
Proof.
  intros Hs Hcap Hw Hn Hroot Hres Hlev Hh Hraw Hok.
  destruct (cli_parse_spec roots s post argv Hs Hcap) as (r & -> & Hpost).
  unfold parse_post in Hpost. destruct (r_status r) eqn:Est.
  - destruct Hpost as (c & root' & buf & argv' & args & Hr & Hhc & Hst & Hsp).
    destruct (ordinary_spelled _ _ _ _ _ _ _ Hw Hroot Hres _ _ _ _ _ _ Hr Hsp Hraw) as (-> & -> & Hl).
    exists buf, argv'. destruct Hr as [_ (l & _ & _ & Hout) Hm Hp]. rewrite Hout in Hl. simpl in Hl. subst l.
    split; [|done]. destruct r; simpl in *; by subst.
  - destruct Hpost as [Ht _]. by rewrite split_words_eq, Ht in Hw.
  - destruct Hpost as (w' & rest & buf & argv' & Hr & Hno & _).
    destruct (words_read_prefix _ _ _ _ Hr Hw) as (ws' & _ & [= <- _]). congruence.
  - destruct Hpost as (c & root' & buf & argv' & args & Hr & Hhc & Hd).
    pose proof (ordinary_has_handler _ _ _ _ _ _ _ Hw Hroot Hres _ _ _ _ _ _ Hr Hd Hlev) as ->. done.
  - destruct Hpost as (c & root' & buf & argv' & args & Hr & Hhc & Hst & Hsp).
    destruct (ordinary_spelled _ _ _ _ _ _ _ Hw Hroot Hres _ _ _ _ _ _ Hr Hsp Hraw) as (-> & -> & Hl).
    destruct Hr as [_ (l & _ & _ & Hout) _ _]. rewrite Hout in Hl, Hst. simpl in Hl, Hst. subst l.
    by apply (proj2 Hst) in Hok.
  - destruct Hpost as [(args & w1 & rest & Hr & Hl & _) _].
    destruct (words_read_prefix _ _ _ _ Hr Hw) as (ws' & _ & E). apply (f_equal length) in E.
    rewrite !length_app in E. simpl in E, Hn. lia.
  - destruct Hpost as [Hd _]. by eapply ordinary_not_deep in Hd.
  - destruct Hpost as [Hq _]. by eapply ordinary_not_open in Hq.
Qed.

(** The buffer of a parse keeps its length. *)
Lemma buf_set_length {A} (b b' : list A) i x : buf_set b i x = Some b' -> length b' = length b.
Proof. unfold buf_set. case_decide; [|done]. intros [= <-]. apply length_insert. Qed.

Ltac run_option :=
  repeat first
    [ match goal with H : Some _ = Some _ |- _ => injection H as H; try subst end
    | match goal with H : (_ ≫= _) = Some _ |- _ => apply bind_Some in H as (? & ? & H) end
    | match goal with H : buf_set _ _ _ = Some _ |- _ => apply buf_set_length in H end
    | match goal with H : (if ?b then _ else _) = Some _ |- _ => destruct b end
    | match goal with H : None = Some _ |- _ => discriminate H end
    | match goal with H : (match ?x with _ => _ end) = Some _ |- _ => destruct x end ].

Lemma token_loop_length fuel : forall buf q rd wr b rd' wr',
  token_loop fuel buf q rd wr = Some (LexBreak b rd' wr') -> length b = length buf.
Proof.
  induction fuel as [|k IH]; intros buf q rd wr b rd' wr' E; [done|]. cbn [token_loop] in E.
  run_option; simplify_eq; try (apply IH in E); try lia; congruence.
Qed.

Lemma next_token_length buf rd wr b rd' wr' tok :
  next_token buf rd wr = Some (Tok b rd' wr' tok) -> length b = length buf.
Proof.
  unfold next_token. intros E. run_option; simplify_eq.
  match goal with H : token_loop _ _ _ _ _ = _ |- _ => apply token_loop_length in H end. congruence.
Qed.

Lemma fetch_token_length s f : fetch_token s = Some f ->
  match f with FetchEnd s' | Fetched s' _ => length (p_buf s') = length (p_buf s) | _ => True end.
Proof.
  unfold fetch_token. intros E. apply bind_Some in E as (t & Et & E).
  destruct t as [rd|b rd wr tok|st]; simplify_eq/=; [done| |done].
  apply next_token_length in Et. run_option; simplify_eq/=; done.
Qed.

Lemma descend_length fuel : forall cmd level s cmd' level' s',
  descend fuel cmd level s = Some (Go (cmd', level', s')) -> length (p_buf s') = length (p_buf s).
Proof.
  induction fuel as [|k IH]; intros cmd level s cmd' level' s' E; [done|]. cbn [descend] in E.
  destruct (subcmds cmd); [|by simplify_eq]. apply bind_Some in E as (f & Ef & E).
  apply fetch_token_length in Ef. destruct f; simplify_eq/=; [done|].
  run_option; simplify_eq; [|done]. apply IH in E. congruence.
Qed.

Lemma fetch_need_length need : forall s s', fetch_need need s = Some (Go s') -> length (p_buf s') = length (p_buf s).
Proof.
  induction need as [|n IH]; intros s s' E; cbn [fetch_need] in E; [by simplify_eq|].
  apply bind_Some in E as (f & Ef & E). apply fetch_token_length in Ef.
  destruct f; simplify_eq/=; [done|]. apply IH in E. congruence.
Qed.

Lemma fetch_rest_length fuel : forall s s', fetch_rest fuel s = Some (Go s') -> length (p_buf s') = length (p_buf s).
Proof.
  induction fuel as [|n IH]; intros s s' E; cbn [fetch_rest] in E; [done|].
  apply bind_Some in E as (f & Ef & E). apply fetch_token_length in Ef.
  destruct f; simplify_eq/=; [done|]. apply IH in E. congruence.
Qed.

Lemma raw_tail_length cap base cmd s s' : raw_tail cap base cmd s = Some (Go s') -> length (p_buf s') = length (p_buf s).
Proof. unfold raw_tail. intros E. run_option; simplify_eq; done. Qed.

Lemma cli_parse_length roots line argv r buf argv' :
  cli_parse roots line argv = Some r -> r_mem r = Some (buf, argv') -> length buf = length line.
Proof.
  unfold cli_parse. cbv zeta. intros E Hm. apply bind_Some in E as (f & Ef & E). apply fetch_token_length in Ef.
  destruct f as [s1|st|s1 tok]; [by simplify_eq/=|by simplify_eq/=|]. simpl in Ef.
  apply bind_Some in E as (w & _ & E). destruct (match_root roots w) as [cmd|].
  2:{ run_option; simplify_eq/=. done. }
  apply bind_Some in E as (d & Ed & E). destruct d as [st|[[cmd' level] s2]]; [by simplify_eq/=|].
  apply descend_length in Ed. case_decide.
  { run_option; simplify_eq/=. congruence. }
  apply bind_Some in E as (q & Eq & E). destruct q as [st|s3]; [by simplify_eq/=|].
  assert (length (p_buf s3) = length (p_buf s2)) as Es3.
  { destruct (is_raw cmd').
    - apply bind_Some in Eq as (n & En & Eq). destruct n as [st|s4]; [by simplify_eq/=|].
      apply fetch_need_length in En. apply raw_tail_length in Eq. congruence.
    - by apply fetch_rest_length in Eq. }
  run_option; simplify_eq/=; congruence.
Qed.

(** A small command tree: [led on|off] and the raw [echo]. *)
Definition cmd_on : cli_cmd := Cmd (Some (str "on")) None None (Some 1%nat) 1 1.
Definition cmd_off : cli_cmd := Cmd (Some (str "off")) None None (Some 2%nat) 1 0.
Definition cmd_led : cli_cmd := Cmd (Some (str "led")) None (Some [cmd_on; cmd_off]) None 0 0.
Definition cmd_echo : cli_cmd := Cmd (Some (str "echo")) (Some (str "print the arguments")) None (Some 3%nat) 1 (Z.to_nat CLI_ARG_RAW).

Lemma cli_parse_sound_witness :
  exists r, cli_parse [cmd_led; cmd_echo] (str "echo a;   b" ++ [NUL]) (replicate CLI_ARGV_CAP None) = Some r /\
    parse_post [cmd_led; cmd_echo] (str "echo a;   b") r.
Proof.
  apply (cli_parse_sound [cmd_led; cmd_echo] (str "echo a;   b") [] (replicate CLI_ARGV_CAP None)).
  - repeat constructor; done.
  - rewrite length_replicate. lia.
Defined.

Lemma cli_parse_accepts_witness : exists buf argv',
  cli_parse [cmd_led; cmd_echo] (str "led on 'x y'" ++ [NUL]) (replicate CLI_ARGV_CAP None) =
    Some (Ret CLI_PARSE_OK (ParseResult (Some cmd_on) (Some 1%nat) 2 2) (Some (buf, argv'))) /\
  published buf argv' [str "led"; str "on"; str "x y"].
Proof.
  apply (cli_parse_accepts [cmd_led; cmd_echo] (str "led on 'x y'") [] (replicate CLI_ARGV_CAP None)
           (str "led") [str "on"; str "x y"] cmd_led cmd_on 2).
  all: first [vm_compute; reflexivity | repeat constructor; done | vm_compute; lia | done].
Defined.
