(* ===== verification/Instance.v ===== *)
(** * The shell instance and its output ([src/shell/core/cli_instance.h],
    [cli_printf.c], and the cancel poll of [cli_session.c])

    The state of a [struct cli_instance] in the parts that own it -- the input
    line, the history, the escape parser, the render, the console -- and the
    output path: 32-byte staging, flush, the bracket with its line break for
    background jobs, and the public print calls over the formatter of [Fmt].
    The transport, the lock and the flow-controlled send are the interface
    [Port]. *)

From S2P Require Import Prelude Fmt.
Local Open Scope Z_scope.

Definition CLI_CMD_BUFFER_SIZE : nat := 256.
Definition CLI_HISTORY_BUFFER_SIZE : nat := 512.
Definition CLI_PRINTF_BUFFER_SIZE : nat := 32.
Definition CLI_PROMPT_BUFFER_SIZE : nat := 20.
Definition CLI_RX_DRAIN_CHUNK : nat := 32.
Definition CLI_TERM_WIDTH : Z := 80.

(** [memmove] within a buffer and [memcpy] into it; out of bounds they fail. *)
Definition buf_move (dst src n : nat) (b : list Z) : option (list Z) :=
  if (src + n <=? length b)%nat && (dst + n <=? length b)%nat then Some (splice dst (slice src n b) b) else None.
Definition buf_copy (dst : nat) (d b : list Z) : option (list Z) :=
  if (dst + length d <=? length b)%nat then Some (splice dst d b) else None.

(** ** State *)

Inductive cli_rx_state : Type := CLI_RX_NORMAL | CLI_RX_ESC | CLI_RX_CSI | CLI_RX_SS3.
#[export] Instance cli_rx_state_eq_dec : EqDecision cli_rx_state.
Proof. solve_decision. Defined.

(** [line], [len], [cur]. *)
Record input : Type := Input { line : list Z; len : nat; cur : nat }.

(** [hist], [hist_used], [hist_nav_on], [hist_nav]. *)
Record history : Type := History { hist : list Z; hist_used : nat; hist_nav_on : bool; hist_nav : nat }.

(** [rx], [esc_p[0]], [esc_p[1]], [esc_np], [esc_bad]. *)
Record escape : Type := Escape { rx : cli_rx_state; esc_p0 : Z; esc_p1 : Z; esc_np : nat; esc_bad : bool }.

(** [old_rows], [draw_row], [render_dirty]. *)
Record render : Type := Render { old_rows : Z; draw_row : Z; render_dirty : bool }.

(** The output part: the staged bytes [out_buf[0..out_len)], [tx_failed],
    [dispatching], [cancel_req], [last_result], the render fields of the
    foreground instance that [fg] points to, and what is outside the shell. *)
Record console (W : Type) : Type := Console {
  out_buf : list Z; tx_failed : bool; dispatching : bool; cancel_req : bool; last_result : Z;
  fg : option render; env : W;
}.
Arguments Console {W}. Arguments out_buf {W}. Arguments tx_failed {W}. Arguments dispatching {W}.
Arguments cancel_req {W}. Arguments last_result {W}. Arguments fg {W}. Arguments env {W}.

(** [prompt] is the string in the prompt buffer. *)
Record cli_instance (W : Type) : Type := Instance_ {
  inp : input; his : history; esc : escape; rend : render;
  overwrite : bool; prev_cr : bool; bs_swap : bool; term_width : Z; probing_cpr : bool; tab_list_armed : bool;
  prompt : list Z; con : console W;
}.
Arguments Instance_ {W}. Arguments inp {W}. Arguments his {W}. Arguments esc {W}. Arguments rend {W}.
Arguments overwrite {W}. Arguments prev_cr {W}. Arguments bs_swap {W}. Arguments term_width {W}.
Arguments probing_cpr {W}. Arguments tab_list_armed {W}. Arguments prompt {W}. Arguments con {W}.

(** The transport, the output lock and the blocking send ([cli_core.c] and the
    backends).  [wire] is what has left for the terminal, [rx_len] bounds what
    is still to be read. *)
Class Port (W : Type) := {
  cli_lock : W -> option W;
  cli_unlock : W -> W;
  cli_tx_send_blocking : console W -> list Z -> bool * bool * W;
  tr_read : nat -> W -> list Z * W;
  wire : W -> list Z;
  rx_len : W -> nat;
  lock_wire : forall w w', cli_lock w = Some w' -> wire w' = wire w;
  unlock_wire : forall w, wire (cli_unlock w) = wire w;
  send_ok : forall c d x w, cli_tx_send_blocking c d = (true, x, w) -> wire w = wire (env c) ++ d;
  send_fails : forall c d x w, cli_tx_send_blocking c d = (false, x, w) ->
    exists p, p `prefix_of` d /\ wire w = wire (env c) ++ p;
  read_wire : forall n w, wire (tr_read n w).2 = wire w;
  read_len : forall n w l w', tr_read n w = (l, w') -> l <> [] -> (rx_len w' < rx_len w)%nat;
}.

Section setters.
Context {W : Type}.
Implicit Types (c : console W) (sh : cli_instance W).

Definition set_out_buf l c := Console l (tx_failed c) (dispatching c) (cancel_req c) (last_result c) (fg c) (env c).
Definition set_tx_failed b c := Console (out_buf c) b (dispatching c) (cancel_req c) (last_result c) (fg c) (env c).
Definition set_dispatching b c := Console (out_buf c) (tx_failed c) b (cancel_req c) (last_result c) (fg c) (env c).
Definition set_cancel_req b c := Console (out_buf c) (tx_failed c) (dispatching c) b (last_result c) (fg c) (env c).
Definition set_last_result r c := Console (out_buf c) (tx_failed c) (dispatching c) (cancel_req c) r (fg c) (env c).
Definition set_fg r c := Console (out_buf c) (tx_failed c) (dispatching c) (cancel_req c) (last_result c) r (env c).
Definition set_env (w : W) c := Console (out_buf c) (tx_failed c) (dispatching c) (cancel_req c) (last_result c) (fg c) w.

Definition set_inp i sh := Instance_ i (his sh) (esc sh) (rend sh) (overwrite sh) (prev_cr sh) (bs_swap sh)
  (term_width sh) (probing_cpr sh) (tab_list_armed sh) (prompt sh) (con sh).
Definition set_his h sh := Instance_ (inp sh) h (esc sh) (rend sh) (overwrite sh) (prev_cr sh) (bs_swap sh)
  (term_width sh) (probing_cpr sh) (tab_list_armed sh) (prompt sh) (con sh).
Definition set_esc e sh := Instance_ (inp sh) (his sh) e (rend sh) (overwrite sh) (prev_cr sh) (bs_swap sh)
  (term_width sh) (probing_cpr sh) (tab_list_armed sh) (prompt sh) (con sh).
Definition set_rend r sh := Instance_ (inp sh) (his sh) (esc sh) r (overwrite sh) (prev_cr sh) (bs_swap sh)
  (term_width sh) (probing_cpr sh) (tab_list_armed sh) (prompt sh) (con sh).
Definition set_overwrite b sh := Instance_ (inp sh) (his sh) (esc sh) (rend sh) b (prev_cr sh) (bs_swap sh)
  (term_width sh) (probing_cpr sh) (tab_list_armed sh) (prompt sh) (con sh).
Definition set_prev_cr b sh := Instance_ (inp sh) (his sh) (esc sh) (rend sh) (overwrite sh) b (bs_swap sh)
  (term_width sh) (probing_cpr sh) (tab_list_armed sh) (prompt sh) (con sh).
Definition set_bs_swap b sh := Instance_ (inp sh) (his sh) (esc sh) (rend sh) (overwrite sh) (prev_cr sh) b
  (term_width sh) (probing_cpr sh) (tab_list_armed sh) (prompt sh) (con sh).
Definition set_term_width x sh := Instance_ (inp sh) (his sh) (esc sh) (rend sh) (overwrite sh) (prev_cr sh) (bs_swap sh)
  x (probing_cpr sh) (tab_list_armed sh) (prompt sh) (con sh).
Definition set_probing_cpr b sh := Instance_ (inp sh) (his sh) (esc sh) (rend sh) (overwrite sh) (prev_cr sh) (bs_swap sh)
  (term_width sh) b (tab_list_armed sh) (prompt sh) (con sh).
Definition set_tab_list_armed b sh := Instance_ (inp sh) (his sh) (esc sh) (rend sh) (overwrite sh) (prev_cr sh) (bs_swap sh)
  (term_width sh) (probing_cpr sh) b (prompt sh) (con sh).
Definition set_con c sh := Instance_ (inp sh) (his sh) (esc sh) (rend sh) (overwrite sh) (prev_cr sh) (bs_swap sh)
  (term_width sh) (probing_cpr sh) (tab_list_armed sh) (prompt sh) c.

Definition on_con (f : console W -> console W) sh := set_con (f (con sh)) sh.
Definition set_rx x sh :=
  set_esc (Escape x (esc_p0 (esc sh)) (esc_p1 (esc sh)) (esc_np (esc sh)) (esc_bad (esc sh))) sh.
End setters.

(** ** Staging *)

(** The VT100 sequences of [cli_vt100.h]. *)
Definition ESC_ : Z := 27.
Definition CLI_VT100_RED : list Z := ESC_ :: str "[31m".
Definition CLI_VT100_YELLOW : list Z := ESC_ :: str "[33m".
Definition CLI_VT100_GREEN : list Z := ESC_ :: str "[32m".
Definition CLI_VT100_RESET : list Z := ESC_ :: str "[0m".
Definition CLI_VT100_CLR_LINE : list Z := ESC_ :: str "[2K".
Definition CLI_VT100_CLR_SCREEN : list Z := (ESC_ :: str "[2J") ++ (ESC_ :: str "[H").
Definition CLI_VT100_CPR_PROBE : list Z := (ESC_ :: str "[999C") ++ (ESC_ :: str "[6n").
Definition CRLF : list Z := [13; 10].

Section output.
Context {W : Type} `{Port W}.
Implicit Types (c : console W) (sh : cli_instance W).

(** A call of [cli_tx_send_blocking]: whether it sent everything. *)
Definition send (d : list Z) c : bool * console W :=
  let '(ok, cancel, w) := cli_tx_send_blocking c d in (ok, set_env w (set_cancel_req cancel c)).

Definition cli_out_flush c : console W :=
  match out_buf c with
  | [] => c
  | d =>
      let c := if tx_failed c then c
               else let '(ok, c) := send d c in if ok : bool then c else set_tx_failed true c in
      set_out_buf [] c
  end.

Definition cli_out_putc c (b : Z) : console W :=
  if tx_failed c then c
  else
    let c := set_out_buf (out_buf c ++ [b]) c in
    if (CLI_PRINTF_BUFFER_SIZE <=? length (out_buf c))%nat then cli_out_flush c else c.

Definition inst_putc c (b : Z) : option (console W) := Some (cli_out_putc c b).

Definition out_str (s : list Z) c : console W := fold_left cli_out_putc s c.

(** [cli_out_begin]: [true] is its 0. *)
Definition cli_out_begin c : bool * console W :=
  match cli_lock (env c) with
  | None => (false, set_tx_failed true c)
  | Some w =>
      let c := set_env w c in
      match fg c with
      | Some r =>
          if negb (render_dirty r) then
            let c := (send CRLF c).2 in (true, set_fg (Some (Render 0 0 true)) c)
          else (true, c)
      | None => (true, c)
      end
  end.

Definition cli_out_end c : console W := set_env (cli_unlock (env c)) c.

(** ** The public calls: 0 or -1 *)

Definition result c : Z := if tx_failed c then -1 else 0.

Definition vemit (color fmt : list Z) (ap : list va) c : option (Z * console W) :=
  match cli_out_begin c with
  | (false, c) => Some (-1, c)
  | (true, c) =>
      c ← fmt_vformat inst_putc (out_str color c) fmt ap;
      let c := match color with [] => c | _ => out_str CLI_VT100_RESET c end in
      let c := cli_out_flush c in
      Some (result c, cli_out_end c)
  end.

Definition cli_print := vemit [].
Definition cli_error := vemit CLI_VT100_RED.
Definition cli_warn := vemit CLI_VT100_YELLOW.
Definition cli_info := vemit CLI_VT100_GREEN.

Definition cli_write (data : list Z) c : Z * console W :=
  match cli_out_begin c with
  | (false, c) => (-1, c)
  | (true, c) => let c := cli_out_flush (out_str data c) in (result c, cli_out_end c)
  end.

(** ** The cancel poll *)

(** [while ((n = read(tr, buf, sizeof buf)) > 0)]; each round reads. *)
Fixpoint cancel_drain (fuel : nat) c : option (console W) :=
  match fuel with
  | O => None
  | S k =>
      let '(l, w) := tr_read CLI_RX_DRAIN_CHUNK (env c) in
      let c := set_env w c in
      match l with
      | [] => Some c
      | _ => cancel_drain k (if bool_decide (3 ∈ l) then set_cancel_req true c else c)
      end
  end.

Definition cli_cancel_poll c : option (bool * console W) :=
  match fg c with
  | Some _ => Some (cancel_req c, c)
  | None => c ← cancel_drain (S (rx_len (env c))) c; Some (cancel_req c, c)
  end.
Definition cli_cancel_requested := cli_cancel_poll.

(** ** [cli_hexdump_base] *)

(** One row: 16 hex columns, then the characters. *)
Definition hex_column (data : list Z) (off : nat) c (j : nat) : option (console W) :=
  match data !! (off + j)%nat with
  | Some x =>
      '(body, h) ← fmt_utoa x 16 false (replicate UTOA_MAX 0);
      c ← fmt_padded inst_putc c None body h 2 true false;
      Some (cli_out_putc c 32)
  | None => Some (out_str (str "   ") c)
  end.
Definition hex_char (data : list Z) (off : nat) c (j : nat) : console W :=
  match data !! (off + j)%nat with
  | Some b => cli_out_putc c (if (32 <=? b) && (b <=? 126) then b else 46)
  | None => c
  end.
Definition hex_row (data : list Z) (base : Z) (off : nat) c : option (console W) :=
  '(body, n) ← fmt_utoa ((base + Z.of_nat off) mod 18446744073709551616) 16 false (replicate UTOA_MAX 0);
  c ← fmt_padded inst_putc c None body n 8 true false;
  let c := out_str (str "  ") c in
  c ← foldl (fun (o : option (console W)) j => o ≫= fun c => hex_column data off c j) (Some c) (seq 0 16);
  let c := cli_out_putc c 32 in
  let c := fold_left (hex_char data off) (seq 0 16) c in
  Some (out_str CRLF c).

(** The rows; [false] is the return on a cancel between them. *)
Fixpoint hex_rows (fuel : nat) (data : list Z) (base : Z) (off : nat) c : option (bool * console W) :=
  match fuel with
  | O => None
  | S k =>
      if (off <? length data)%nat then
        '(cancelled, c) ← cli_cancel_requested c;
        if cancelled : bool then Some (false, c)
        else c ← hex_row data base off c; hex_rows k data base (off + 16) c
      else Some (true, c)
  end.

Definition cli_hexdump_base (data : list Z) (base : Z) c : option (Z * console W) :=
  match cli_out_begin c with
  | (false, c) => Some (-1, c)
  | (true, c) =>
      '(done, c) ← hex_rows (S (length data)) data base 0 c;
      if done : bool then
        let c := cli_out_flush c in Some (result c, cli_out_end c)
      else Some (-1, cli_out_end c)
  end.
Definition cli_hexdump (data : list Z) := cli_hexdump_base data 0.
End output.

(** ** What a call puts on the wire *)

Section output_facts.
Context {W : Type} `{Port W}.
Implicit Types (c : console W) (d p q : list Z).

(** [c'] is [c] after [d] was put out: all of it sent or staged while no send
    has failed, a prefix of it sent when one has. *)
Record emits c d c' : Prop := {
  em_stage : (length (out_buf c') < CLI_PRINTF_BUFFER_SIZE)%nat;
  em_mono : wire (env c) `prefix_of` wire (env c');
  em_ok : tx_failed c' = false ->
    tx_failed c = false /\ wire (env c') ++ out_buf c' = wire (env c) ++ out_buf c ++ d;
  em_fail : tx_failed c' = true ->
    exists p, p `prefix_of` out_buf c ++ d /\ wire (env c') = wire (env c) ++ p;
  em_stuck : tx_failed c = true -> tx_failed c' = true /\ wire (env c') = wire (env c);
  em_same : fg c' = fg c /\ dispatching c' = dispatching c /\ last_result c' = last_result c;
}.

Lemma emits_nil c : (length (out_buf c) < CLI_PRINTF_BUFFER_SIZE)%nat -> emits c [] c.
Proof.
  intros. split; try done.
  - by rewrite app_nil_r.
  - intros _. exists []. split; [apply prefix_nil|by rewrite app_nil_r].
Qed.

Lemma emits_app c d1 c1 d2 c2 : emits c d1 c1 -> emits c1 d2 c2 -> emits c (d1 ++ d2) c2.
Proof.
  intros [_ M1 O1 F1 S1 (X1 & Y1 & Z1)] [G2 M2 O2 F2 S2 (X2 & Y2 & Z2)]. split; [done|by etrans|..].
  - intros E2. destruct (O2 E2) as [E1 H2]. destruct (O1 E1) as [E H1]. split; [done|].
    by rewrite H2, app_assoc, H1, <-!app_assoc.
  - intros E2. destruct (tx_failed c1) eqn:E1.
    + destruct (S2 eq_refl) as [_ ->]. destruct (F1 eq_refl) as (p & Hp & ->). exists p. split; [|done].
      rewrite app_assoc. by apply prefix_app_r.
    + destruct (O1 eq_refl) as [_ H1]. destruct (F2 E2) as (p & Hp & ->). destruct M1 as [q Hq].
      exists (q ++ p). rewrite Hq in H1 |- *. rewrite <-app_assoc in H1. apply app_inv_head in H1.
      split; [|by rewrite app_assoc]. rewrite app_assoc, <-H1, <-app_assoc. by apply prefix_app.
  - intros E. destruct (S1 E) as [E1 Hw]. destruct (S2 E1) as [-> ->]. done.
  - repeat split; congruence.
Qed.

Lemma send_spec d c ok c' : send d c = (ok, c') ->
  out_buf c' = out_buf c /\ tx_failed c' = tx_failed c /\ fg c' = fg c /\ dispatching c' = dispatching c /\
  last_result c' = last_result c /\
  exists p, wire (env c') = wire (env c) ++ p /\ if ok then p = d else p `prefix_of` d.
Proof.
  unfold send. destruct (cli_tx_send_blocking c d) as [[ok' x] w] eqn:E. intros [= <- <-].
  repeat split; [done..|]. simpl. destruct ok'; [exists d; by rewrite (send_ok _ _ _ _ E)|].
  destruct (send_fails _ _ _ _ E) as (p & ? & ->). by exists p.
Qed.

Lemma emits_flush c : emits c [] (cli_out_flush c) /\ out_buf (cli_out_flush c) = [].
Proof.
  assert (H32 : (length (@nil Z) < CLI_PRINTF_BUFFER_SIZE)%nat) by (simpl; unfold CLI_PRINTF_BUFFER_SIZE; lia).
  unfold cli_out_flush. destruct (out_buf c) as [|b l] eqn:Eb.
  { split; [|done]. apply emits_nil. by rewrite Eb. }
  split; [|done]. destruct (tx_failed c) eqn:Ef.
  - split; simpl; try done; try congruence. intros _. exists []. split; [apply prefix_nil|by rewrite app_nil_r].
  - destruct (send _ c) as [ok c'] eqn:Es. destruct (send_spec _ _ _ _ Es) as (B & F & ? & ? & ? & p & Hw & Hp).
    assert (Hmono : wire (env c) `prefix_of` wire (env c')) by (rewrite Hw; by apply prefix_app_r).
    destruct ok; split; cbn [out_buf tx_failed env fg dispatching last_result set_out_buf set_tx_failed]; try done.
    + intros _. split; [done|]. subst p. by rewrite Eb, !app_nil_r.
    + intros; congruence.
    + intros; congruence.
    + intros _. exists p. by rewrite Eb, app_nil_r.
    + intros; congruence.
Qed.

Lemma emits_putc c b : (length (out_buf c) < CLI_PRINTF_BUFFER_SIZE)%nat -> emits c [b] (cli_out_putc c b).
Proof.
  intros Hl. unfold cli_out_putc. destruct (tx_failed c) eqn:Ef.
  { split; try done; try congruence. intros _. exists []. split; [apply prefix_nil|by rewrite app_nil_r]. }
  set (c1 := set_out_buf (out_buf c ++ [b]) c).
  assert (Hlast : forall c2, emits c1 [] c2 -> emits c [b] c2).
  { intros c2 [G M O F S X]. split; try done.
    - intros E. destruct (O E) as [_ ->]. simpl. rewrite app_nil_r. done.
    - intros E. destruct (F E) as (p & Hp & ->). exists p. simpl in Hp. rewrite app_nil_r in Hp. done. }
  case_if; apply Hlast; [apply emits_flush|]. apply emits_nil. apply Nat.leb_gt. done.
Qed.

Lemma emits_str d c : (length (out_buf c) < CLI_PRINTF_BUFFER_SIZE)%nat -> emits c d (out_str d c).
Proof.
  revert c. induction d as [|b d IH]; intros c Hl; [by apply emits_nil|].
  pose proof (emits_putc c b Hl) as Hb. apply (emits_app c [b] (cli_out_putc c b) d); [done|]. apply IH. apply Hb.
Qed.

Lemma fmt_out_str d c : Fmt.out_str inst_putc c d = Some (out_str d c).
Proof. revert c. induction d as [|b d IH]; intros c; [done|]. apply IH. Qed.

(** The bracket: what a call that puts out [d] leaves. *)
Definition call_post (d : list Z) c (r : Z) c' : Prop :=
  out_buf c' = [] /\
  exists brk, (fg c = None -> brk = []) /\ brk `prefix_of` CRLF /\
    if decide (r = 0) then tx_failed c' = false /\ wire (env c') = wire (env c) ++ brk ++ d
    else r = -1 /\ tx_failed c' = true /\ exists p, p `prefix_of` d /\ wire (env c') = wire (env c) ++ brk ++ p.

Lemma begin_spec c :
  out_buf c = [] -> tx_failed c = false ->
  let '(ok, c') := cli_out_begin c in
  out_buf c' = [] /\ tx_failed c' = negb ok /\
  exists brk, (fg c = None -> brk = []) /\ (ok = false -> brk = []) /\ brk `prefix_of` CRLF /\
    wire (env c') = wire (env c) ++ brk.
Proof.
  intros Hb Hf. unfold cli_out_begin. destruct (cli_lock (env c)) as [w|] eqn:El.
  2:{ split_and!; [done|done|]. exists []. split_and!; [done|done|apply prefix_nil|by rewrite app_nil_r]. }
  apply lock_wire in El.
  assert (Hnone : exists brk, (fg c = None -> brk = []) /\ (true = false -> brk = []) /\ brk `prefix_of` CRLF /\
            wire w = wire (env c) ++ brk).
  { exists []. split_and!; [done|done|apply prefix_nil|by rewrite app_nil_r]. }
  cbn [fg set_env]. destruct (fg c) as [r|] eqn:Eg; [|done]. destruct (negb (render_dirty r)); [|done].
  destruct (send CRLF (set_env w c)) as [ok c'] eqn:Es.
  destruct (send_spec _ _ _ _ Es) as (B & F & _ & _ & _ & p & Hw & Hp). simpl in *.
  split_and!; [congruence|congruence|]. exists p. split_and!; [done|done| |by rewrite Hw, El].
  destruct ok; [by subst|done].
Qed.

Lemma bracket_spec c c1 c2 d :
  out_buf c1 = [] -> tx_failed c1 = false -> emits c1 d c2 ->
  (exists brk, (fg c = None -> brk = []) /\ brk `prefix_of` CRLF /\ wire (env c1) = wire (env c) ++ brk) ->
  let c3 := cli_out_flush c2 in
  call_post d c (result c3) (cli_out_end c3).
Proof.
  intros Hb Hf He (brk & Hg & Hc & Hw) c3. destruct (emits_flush c2) as [Hfl Hb3]. fold c3 in Hfl, Hb3.
  pose proof (emits_app _ _ _ _ _ He Hfl) as [_ _ Ok Fail _ _]. rewrite app_nil_r, Hb in *.
  split; [done|]. exists brk. split_and!; [done|done|].
  unfold result, cli_out_end. simpl. rewrite unlock_wire. destruct (tx_failed c3) eqn:E3; simpl.
  - destruct (Fail eq_refl) as (p & Hp & ->). split_and!; [done|done|]. exists p. split; [done|]. by rewrite Hw, app_assoc.
  - destruct (Ok eq_refl) as [_ Hs]. rewrite Hb3, app_nil_r in Hs. split; [done|]. by rewrite Hs, Hw, <-app_assoc.
Qed.

Lemma cli_write_spec (data : list Z) c :
  out_buf c = [] -> tx_failed c = false ->
  let '(r, c') := cli_write data c in call_post data c r c'.
Proof.
  intros Hb Hf. pose proof (begin_spec c Hb Hf) as Hbeg. unfold cli_write.
  destruct (cli_out_begin c) as [ok c1]. destruct Hbeg as (Hb1 & Hf1 & brk & Hg & Hno & Hc & Hw).
  destruct ok; simpl in Hf1.
  - apply (bracket_spec c c1); [done|done| |by exists brk]. apply emits_str.
    rewrite Hb1. simpl. unfold CLI_PRINTF_BUFFER_SIZE. lia.
  - split; [done|]. exists []. split_and!; [done|apply prefix_nil|]. simpl. split_and!; [done|done|].
    exists []. split; [apply prefix_nil|]. rewrite (Hno eq_refl) in Hw. by rewrite Hw.
Qed.

Lemma vemit_spec (color : list Z) (its : list item) c :
  Forall item_ok its -> out_buf c = [] -> tx_failed c = false ->
  exists r c', vemit color (spec_fmt its) (spec_args its) c = Some (r, c') /\
    call_post (color ++ spec_text its ++ match color with [] => [] | _ => CLI_VT100_RESET end) c r c'.
Proof.
  intros His Hb Hf. pose proof (begin_spec c Hb Hf) as Hbeg. unfold vemit.
  destruct (cli_out_begin c) as [ok c1]. destruct Hbeg as (Hb1 & Hf1 & brk & Hg & Hno & Hc & Hw).
  destruct ok; simpl in Hf1.
  - rewrite fmt_vformat_text, fmt_text_spec by done. cbn [mbind option_bind]. rewrite fmt_out_str.
    cbn [mbind option_bind]. do 2 eexists. split; [done|].
    apply (bracket_spec c c1); [done|done| |by exists brk].
    assert (H0 : (length (out_buf c1) < CLI_PRINTF_BUFFER_SIZE)%nat)
      by (rewrite Hb1; simpl; unfold CLI_PRINTF_BUFFER_SIZE; lia).
    pose proof (emits_str color c1 H0) as E1.
    pose proof (emits_str (spec_text its) _ (em_stage _ _ _ E1)) as E2.
    eapply emits_app; [exact E1|]. eapply emits_app; [exact E2|].
    destruct color; [apply emits_nil, E2|apply emits_str, E2].
  - do 2 eexists. split; [done|]. split; [done|]. exists []. split_and!; [done|apply prefix_nil|]. simpl. split_and!; [done|done|].
    exists []. split; [apply prefix_nil|]. rewrite (Hno eq_refl) in Hw. by rewrite Hw.
Qed.
(** Whatever the console: a print with a specified format comes back. *)
Lemma vemit_total (color : list Z) (its : list item) c :
  Forall item_ok its -> exists r c', vemit color (spec_fmt its) (spec_args its) c = Some (r, c').
Proof.
  intros His. unfold vemit. destruct (cli_out_begin c) as [[] c1]; [|by eauto].
  rewrite fmt_vformat_text, fmt_text_spec by done. cbn [mbind option_bind]. rewrite fmt_out_str. by eauto.
Qed.

(** A formatted print, on any transport: it answers 0 or -1; with 0 the
    terminal got exactly the text of the format between the colour and its
    reset, with -1 (the lock was refused, or a send failed) a prefix of it and
    the failure is latched; either way the staging buffer is empty again.  A
    background job's first output is preceded by (at most) a line break. *)
Theorem vemit_correct (color : list Z) (its : list item) c :
  Forall item_ok its -> out_buf c = [] -> tx_failed c = false ->
  exists r c', vemit color (spec_fmt its) (spec_args its) c = Some (r, c') /\
    call_post (color ++ spec_text its ++ match color with [] => [] | _ => CLI_VT100_RESET end) c r c'.
Proof. intros. by apply vemit_spec. Qed.
End output_facts.

(** ** The input line as a text with a cursor

    [holds i p q]: the buffer holds [p] before the cursor, [q] after it, and the
    terminating NUL. *)
Section holds.
Implicit Types (i : input) (p q d : list Z).

Record holds i p q : Prop := {
  ho_line : exists r, line i = p ++ q ++ 0 :: r;
  ho_size : length (line i) = CLI_CMD_BUFFER_SIZE;
  ho_len : len i = length (p ++ q);
  ho_cur : cur i = length p;
}.

Lemma holds_fits i p q : holds i p q -> (length p + length q < CLI_CMD_BUFFER_SIZE)%nat.
Proof. intros [(r & E) <- _ _]. rewrite E, !length_app. simpl. lia. Qed.

Lemma holds_text i p q : holds i p q -> take (len i) (line i) = p ++ q.
Proof. intros [(r & ->) _ -> _]. rewrite app_assoc. apply take_app_length. Qed.

Lemma holds_move i p q p' q' : holds i p q -> p' ++ q' = p ++ q -> holds (Input (line i) (len i) (length p')) p' q'.
Proof.
  intros [(r & E) Hs Hl Hc] Epq. split; simpl; [|done|by rewrite Epq|done].
  exists r. by rewrite E, !app_assoc, Epq.
Qed.

(** A text with its cursor, out of the fields. *)
Lemma holds_intro i : (cur i <= len i)%nat -> (len i < length (line i))%nat ->
  length (line i) = CLI_CMD_BUFFER_SIZE -> line i !! len i = Some 0 ->
  holds i (take (cur i) (line i)) (take (len i - cur i) (drop (cur i) (line i))).
Proof.
  intros Hc Hl Hs Hn.
  assert (E : take (cur i) (line i) ++ take (len i - cur i) (drop (cur i) (line i)) = take (len i) (line i)).
  { rewrite <-(take_drop (cur i) (take (len i) (line i))) at 1. rewrite take_take, Nat.min_l, take_drop_commute by lia. do 2 f_equal. f_equal. lia. }
  split; [|done| |].
  - exists (drop (S (len i)) (line i)). rewrite app_assoc, E, <-(drop_S _ _ _ Hn). by rewrite take_drop.
  - rewrite E, length_take. lia.
  - rewrite length_take. lia.
Qed.

(** A store of the NUL ends the text. *)
Lemma set_end a x r l : l = a ++ x :: r -> buf_set l (length a) 0 = Some (a ++ 0 :: r).
Proof. intros ->. rewrite buf_set_Some by (rewrite length_app; simpl; lia). by rewrite insert_length_app. Qed.

(** [memmove] down over a gap [d], and up to open one of [n] bytes. *)
Lemma memmove_down a d q r :
  exists x, buf_move (length a) (length a + length d) (length q) (a ++ d ++ q ++ 0 :: r) = Some (a ++ q ++ x) /\
    length x = (length d + 1 + length r)%nat.
Proof.
  unfold buf_move. rewrite !length_app. cbn [length].
  rewrite !(proj2 (Nat.leb_le _ _)) by lia. cbn [andb].
  exists (drop (length a + length q) (a ++ d ++ q ++ 0 :: r)). split; [|rewrite length_drop, !length_app; simpl; lia].
  unfold splice, slice. rewrite take_app_length.
  rewrite <-length_app, (app_assoc a d), drop_app_length, take_app_length. by rewrite <-app_assoc.
Qed.

Lemma memmove_up p q r n : (n <= length r)%nat ->
  buf_move (length p + n) (length p) (length q) (p ++ q ++ r) = Some (p ++ take n (q ++ r) ++ q ++ drop n r).
Proof.
  intros Hn. unfold buf_move. rewrite !length_app. rewrite !(proj2 (Nat.leb_le _ _)) by lia. cbn [andb].
  unfold splice, slice. rewrite drop_app_length, take_app_length. rewrite take_app_add, drop_app_ge by lia.
  rewrite <-!app_assoc. do 4 f_equal. replace (_ - length p)%nat with (length q + n)%nat by lia. by rewrite drop_app_add.
Qed.

Lemma copy_in p (src x : list Z) r : length x = length src -> buf_copy (length p) src (p ++ x ++ r) = Some (p ++ src ++ r).
Proof.
  intros Hx. unfold buf_copy. rewrite !length_app, (proj2 (Nat.leb_le _ _)) by lia.
  unfold splice. rewrite take_app_length. by rewrite <-Hx, drop_app_add', drop_app_length.
Qed.
End holds.

(** ** A transport that takes everything

    The instance the examples run on: a lock that is always free, a send that
    delivers, and input queued in advance. *)
Module Loopback.
Record host : Type := Host { sent : list Z; pending : list Z }.

#[export] Program Instance host_port : Port host := {
  cli_lock w := Some w;
  cli_unlock w := w;
  cli_tx_send_blocking c d := (true, cancel_req c, Host (sent (env c) ++ d) (pending (env c)));
  tr_read n w := (take n (pending w), Host (sent w) (drop n (pending w)));
  wire := sent;
  rx_len w := length (pending w);
}.
Next Obligation. by intros ?? [= ->]. Qed.
Next Obligation. done. Qed.
Next Obligation. by intros ???? [= ? <-]. Qed.
Next Obligation. done. Qed.
Next Obligation. done. Qed.
Next Obligation.
  intros n w l w' [= <- <-] Hl. simpl. rewrite length_drop.
  destruct n; [done|]. destruct (pending w); [done|]. simpl. lia.
Qed.

Definition idle (out rx : list Z) : console host := Console [] false false false 0 None (Host out rx).

(** A shell with [p] before the cursor and [q] after it. *)
Definition demo (p q : list Z) (h : history) : cli_instance host :=
  Instance_ (Input ((p ++ q) ++ replicate (CLI_CMD_BUFFER_SIZE - length (p ++ q)) 0) (length (p ++ q)) (length p))
    h (Escape CLI_RX_NORMAL 0 0 0 false) (Render 1 0 false) false false false 80 false false (str "> ") (idle [] []).

Definition hello : list item :=
  map Literal (str "n=") ++ [Directive false true 4 (CUnsigned LM_INT 42)] ++ map Literal CRLF.

Lemma vemit_correct_witness :
  Forall item_ok hello /\
  exists r c', vemit CLI_VT100_RED (spec_fmt hello) (spec_args hello) (idle [] []) = Some (r, c') /\
    call_post (CLI_VT100_RED ++ spec_text hello ++ CLI_VT100_RESET) (idle [] []) r c'.
Proof.
  assert (Hok : Forall item_ok hello) by (repeat constructor; done).
  split; [exact Hok|]. apply (vemit_correct CLI_VT100_RED hello (idle [] []) Hok); reflexivity.
Defined.
End Loopback.
