(* ===== verification/Redraw.v ===== *)
(** * Redrawing the input line ([src/shell/core/cli_edit.c], the redraw part)

    The staged-output helpers, the full repaint and the cursor-only move of the
    line editor, and a model of the terminal they are written for: a screen of
    fixed width whose cursor waits at the right margin before it wraps.  The
    theorem is that the repaint shows the prompt and the line, and nothing of
    the render before, with the cursor on its character. *)

From S2P Require Import Prelude Fmt Instance.
Local Open Scope Z_scope.

Section redraw.
Context {W : Type} `{Port W}.
Implicit Types (c : console W) (sh : cli_instance W).

(** [edit_cols]. *)
Definition edit_cols sh : Z := if term_width sh =? 0 then CLI_TERM_WIDTH else term_width sh.

Definition e_putn := @out_str W _.
Definition e_puts := @out_str W _.

(** [e_csi_n]: the digits of [n], the last first, in [d[3]]. *)
Fixpoint csi_digits (k : nat) (n : Z) : list Z :=
  match k with
  | O => []
  | S k => if n =? 0 then [] else (48 + n mod 10) :: csi_digits k (n / 10)
  end.
Definition csi (n : Z) (final : Z) : list Z :=
  [27; 91] ++ (if n =? 0 then [48] else rev (csi_digits 3 n)) ++ [final].
Definition e_csi_n (n : Z) (final : Z) c : console W := out_str (csi n final) c.

(** [for (r = old_rows; r > 1; r--)], with the body [f]. *)
Fixpoint times (rows : nat) (f : console W -> console W) c : console W :=
  match rows with O => c | S k => times k f (f c) end.
Definition erase_row c : console W := e_csi_n 1 65 (e_puts CLI_VT100_CLR_LINE (cli_out_putc c 13)).
Definition erase_up (rows : nat) c : console W := times rows erase_row c.

(** Step 1: the previous render erased. *)
Definition erase_render (r : render) c : console W :=
  if 0 <? old_rows r then
    let down := u32 (old_rows r - 1 - draw_row r) in
    let c := if down =? 0 then c else e_csi_n down 66 c in
    let c := erase_up (Z.to_nat (old_rows r - 1)) c in
    e_puts CLI_VT100_CLR_LINE (cli_out_putc c 13)
  else cli_out_putc c 13.

Definition cli_edit_refresh sh : cli_instance W :=
  let cols := edit_cols sh in
  let plen := Z.of_nat (length (prompt sh)) in
  let pend := plen + Z.of_nat (len (inp sh)) in
  let pcur := plen + Z.of_nat (cur (inp sh)) in
  let end_row := pend / cols in
  let tgt_row := pcur / cols in
  let tgt_col := pcur mod cols in
  match cli_lock (env (con sh)) with
  | None => on_con (set_tx_failed true) sh
  | Some w =>
      let c := set_env w (con sh) in
      let c := erase_render (rend sh) c in
      let c := e_putn (prompt sh) c in
      let c := e_putn (take (len (inp sh)) (line (inp sh))) c in
      let c := if (0 <? pend) && (pend mod cols =? 0) then e_puts CRLF c else c in
      let c := if tgt_row <? end_row then e_csi_n (end_row - tgt_row) 65 c else c in
      let c := cli_out_putc c 13 in
      let c := if tgt_col =? 0 then c else e_csi_n tgt_col 67 c in
      let sh := set_rend (Render (u8 (end_row + 1)) (u8 tgt_row) (render_dirty (rend sh))) sh in
      let c := cli_out_flush c in
      set_con (cli_out_end c) sh
  end.

Definition cli_edit_redraw := cli_edit_refresh.

Definition edit_reposition sh : cli_instance W :=
  let cols := edit_cols sh in
  let plen := Z.of_nat (length (prompt sh)) in
  let pcur := plen + Z.of_nat (cur (inp sh)) in
  let cur_row := draw_row (rend sh) in
  let tgt_row := pcur / cols in
  let tgt_col := pcur mod cols in
  match cli_lock (env (con sh)) with
  | None => on_con (set_tx_failed true) sh
  | Some w =>
      let c := set_env w (con sh) in
      let c := if tgt_row <? cur_row then e_csi_n (cur_row - tgt_row) 65 c
               else if cur_row <? tgt_row then e_csi_n (tgt_row - cur_row) 66 c else c in
      let c := cli_out_putc c 13 in
      let c := if tgt_col =? 0 then c else e_csi_n tgt_col 67 c in
      let sh := set_rend (Render (old_rows (rend sh)) (u8 tgt_row) (render_dirty (rend sh))) sh in
      let c := cli_out_flush c in
      set_con (cli_out_end c) sh
  end.
End redraw.

(** ** The bytes of a redraw *)

Definition erase_bytes (r : render) : list Z :=
  if 0 <? old_rows r then
    (if u32 (old_rows r - 1 - draw_row r) =? 0 then [] else csi (u32 (old_rows r - 1 - draw_row r)) 66) ++
    concat (replicate (Z.to_nat (old_rows r - 1)) ([13] ++ CLI_VT100_CLR_LINE ++ csi 1 65)) ++
    [13] ++ CLI_VT100_CLR_LINE
  else [13].

(** The text from the start of the render, then the cursor to offset [pcur]. *)
Definition paint_bytes (cols : Z) (text : list Z) (pcur : Z) : list Z :=
  let pend := Z.of_nat (length text) in
  text ++
  (if (0 <? pend) && (pend mod cols =? 0) then CRLF else []) ++
  (if pcur / cols <? pend / cols then csi (pend / cols - pcur / cols) 65 else []) ++
  [13] ++ (if pcur mod cols =? 0 then [] else csi (pcur mod cols) 67).

Definition move_bytes (cols row pcur : Z) : list Z :=
  (if pcur / cols <? row then csi (row - pcur / cols) 65
   else if row <? pcur / cols then csi (pcur / cols - row) 66 else []) ++
  [13] ++ (if pcur mod cols =? 0 then [] else csi (pcur mod cols) 67).

Section redraw_bytes.
Context {W : Type} `{Port W}.
Implicit Types (c : console W) (sh : cli_instance W).

Lemma out_str_app d1 d2 c : out_str (d1 ++ d2) c = out_str d2 (out_str d1 c).
Proof. apply fold_left_app. Qed.
Lemma out_str_1 b c : cli_out_putc c b = out_str [b] c.
Proof. done. Qed.
Lemma out_str_if (b : bool) d c : (if b then out_str d c else c) = out_str (if b then d else []) c.
Proof. by destruct b. Qed.
Lemma out_str_if' (b : bool) d c : (if b then c else out_str d c) = out_str (if b then [] else d) c.
Proof. by destruct b. Qed.

Lemma times_bytes k f d c : (forall c, f c = out_str d c) -> times k f c = out_str (concat (replicate k d)) c.
Proof.
  intros Hf. revert c. induction k as [|k IH]; intros c; [done|].
  simpl. by rewrite IH, Hf, out_str_app.
Qed.
Definition erase_row_bytes : list Z := [13] ++ CLI_VT100_CLR_LINE ++ csi 1 65.
Lemma erase_row_out c : erase_row c = out_str erase_row_bytes c.
Proof. unfold erase_row, erase_row_bytes, e_csi_n, e_puts. by rewrite !out_str_app, out_str_1. Qed.
Lemma erase_up_bytes k c : erase_up k c = out_str (concat (replicate k erase_row_bytes)) c.
Proof. apply times_bytes, erase_row_out. Qed.
Lemma erase_render_bytes r c : erase_render r c = out_str (erase_bytes r) c.
Proof.
  unfold erase_render, erase_bytes. destruct (0 <? old_rows r); [|apply out_str_1].
  cbv zeta. unfold e_csi_n, e_puts. rewrite out_str_if', erase_up_bytes, out_str_1, !out_str_app. reflexivity.
Qed.

(** The text of the render. *)
Definition shown sh : list Z := prompt sh ++ take (len (inp sh)) (line (inp sh)).
Definition pcur_of sh : Z := Z.of_nat (length (prompt sh)) + Z.of_nat (cur (inp sh)).

Definition line_ok (i : input) : Prop := (cur i <= len i)%nat /\ (len i < length (line i))%nat.

Lemma length_shown sh : line_ok (inp sh) ->
  Z.of_nat (length (shown sh)) = Z.of_nat (length (prompt sh)) + Z.of_nat (len (inp sh)).
Proof. intros [_ Hl]. unfold shown. rewrite length_app, length_take. lia. Qed.

Lemma refresh_eq sh w : line_ok (inp sh) -> cli_lock (env (con sh)) = Some w ->
  cli_edit_refresh sh =
    set_con (cli_out_end (cli_out_flush (out_str (erase_bytes (rend sh) ++ paint_bytes (edit_cols sh) (shown sh) (pcur_of sh))
               (set_env w (con sh)))))
      (set_rend (Render (u8 (Z.of_nat (length (shown sh)) / edit_cols sh + 1)) (u8 (pcur_of sh / edit_cols sh))
                   (render_dirty (rend sh))) sh).
Proof.
  intros Hl Hw. unfold cli_edit_refresh. rewrite Hw. cbv zeta.
  unfold e_csi_n, e_putn, e_puts. rewrite <-(length_shown sh Hl). fold (pcur_of sh).
  rewrite <-(out_str_app (prompt sh)). fold (shown sh).
  rewrite !out_str_if, out_str_if', out_str_1, erase_render_bytes, <-!out_str_app. reflexivity.
Qed.

Lemma reposition_eq sh w : cli_lock (env (con sh)) = Some w ->
  edit_reposition sh =
    set_con (cli_out_end (cli_out_flush (out_str (move_bytes (edit_cols sh) (draw_row (rend sh)) (pcur_of sh))
               (set_env w (con sh)))))
      (set_rend (Render (old_rows (rend sh)) (u8 (pcur_of sh / edit_cols sh)) (render_dirty (rend sh))) sh).
Proof.
  intros Hw. unfold edit_reposition. rewrite Hw. cbv zeta. unfold move_bytes, e_csi_n.
  change (Z.of_nat (length (prompt sh)) + Z.of_nat (cur (inp sh))) with (pcur_of sh).
  rewrite !out_str_if, out_str_if', out_str_1, <-!out_str_app. 
  repeat case_if; by rewrite ?out_str_app.
Qed.
End redraw_bytes.

(** ** The terminal

    A VT100 of [cols] columns.  A character written in the last column leaves
    the cursor there, with the wrap pending; rows are counted from an arbitrary
    origin, so that scrolling, which moves every row alike, does not show. *)

Inductive tstate : Type := TText | TEsc | TCsi (n : Z).
Record term : Type := Term { cell : Z -> Z -> Z; trow : Z; tcol : Z; twrap : bool; tesc : tstate }.
Definition BLANK : Z := 32.

Section terminal.
Context (cols : Z).

Definition put_cell (r c x : Z) (f : Z -> Z -> Z) : Z -> Z -> Z :=
  fun r' c' => if (r' =? r) && (c' =? c) then x else f r' c'.
Definition clear_row (r : Z) (f : Z -> Z -> Z) : Z -> Z -> Z :=
  fun r' c' => if r' =? r then BLANK else f r' c'.

Definition term_char (x : Z) (t : term) : term :=
  let '(r, c) := if twrap t then (trow t + 1, 0) else (trow t, tcol t) in
  let f := put_cell r c x (cell t) in
  if c =? cols - 1 then Term f r c true TText else Term f r (c + 1) false TText.

Definition term_csi (n f : Z) (t : term) : term :=
  if f =? 65 then Term (cell t) (trow t - Z.max 1 n) (tcol t) false TText
  else if f =? 66 then Term (cell t) (trow t + Z.max 1 n) (tcol t) false TText
  else if f =? 67 then Term (cell t) (trow t) (Z.min (cols - 1) (tcol t + Z.max 1 n)) false TText
  else if (f =? 75) && (n =? 2) then Term (clear_row (trow t) (cell t)) (trow t) (tcol t) false TText
  else Term (cell t) (trow t) (tcol t) (twrap t) TText.

Definition term_byte (t : term) (b : Z) : term :=
  match tesc t with
  | TText =>
      if b =? 27 then Term (cell t) (trow t) (tcol t) (twrap t) TEsc
      else if b =? 13 then Term (cell t) (trow t) 0 false TText
      else if b =? 10 then Term (cell t) (trow t + 1) (tcol t) false TText
      else if b =? 8 then Term (cell t) (trow t) (Z.max 0 (tcol t - 1)) false TText
      else if (32 <=? b) && (b <=? 126) then term_char b t
      else t
  | TEsc => Term (cell t) (trow t) (tcol t) (twrap t) (if b =? 91 then TCsi 0 else TText)
  | TCsi n =>
      if (48 <=? b) && (b <=? 57) then Term (cell t) (trow t) (tcol t) (twrap t) (TCsi (n * 10 + (b - 48)))
      else term_csi n b t
  end.
Definition term_run (d : list Z) (t : term) : term := fold_left term_byte d t.

(** The screen from row [b] on shows [text] and is blank after it. *)
Definition shows_from (b : Z) (text : list Z) (t : term) : Prop :=
  forall r c, b <= r -> 0 <= c < cols -> cell t r c = nth (Z.to_nat ((r - b) * cols + c)) text BLANK.
Definition same_above (b : Z) (t t' : term) : Prop := forall r c, r < b -> cell t' r c = cell t r c.
(** The cursor rests at offset [i] of the text. *)
Definition cursor_at (b i : Z) (t : term) : Prop :=
  trow t = b + i / cols /\ tcol t = i mod cols /\ twrap t = false /\ tesc t = TText.
End terminal.
Abbreviation printable := (Forall (fun x => 32 <= x <= 126)).

Section terminal_facts.
Context (cols : Z) (Hcols : 2 <= cols < 1000).
Implicit Types (t : term).

Lemma term_run_app d1 d2 t : term_run cols (d1 ++ d2) t = term_run cols d2 (term_run cols d1 t).
Proof. apply fold_left_app. Qed.

(** A control sequence of up to three digits. *)
Lemma run_csi n f t : 0 <= n < 1000 -> (f < 48 \/ 57 < f) -> tesc t = TText ->
  term_run cols (csi n f) t = term_csi cols n f (Term (cell t) (trow t) (tcol t) (twrap t) (TCsi n)).
Proof.
  intros Hn Hf Ht.
  assert (Hfin : forall m, term_byte cols (Term (cell t) (trow t) (tcol t) (twrap t) (TCsi m)) f =
            term_csi cols m f (Term (cell t) (trow t) (tcol t) (twrap t) (TCsi m))).
  { intros m. unfold term_byte. simpl. by if_false. }
  assert (Hdig : forall m d, 0 <= d <= 9 ->
            term_byte cols (Term (cell t) (trow t) (tcol t) (twrap t) (TCsi m)) (48 + d) =
            Term (cell t) (trow t) (tcol t) (twrap t) (TCsi (m * 10 + d))).
  { intros m d Hd. unfold term_byte. simpl. if_true. do 2 f_equal. lia. }
  assert (Hcsi : forall l, term_run cols ([27; 91] ++ l ++ [f]) t =
            term_byte cols (fold_left (term_byte cols) l (Term (cell t) (trow t) (tcol t) (twrap t) (TCsi 0))) f).
  { intros l. unfold term_run. rewrite !fold_left_app. cbn [fold_left].
    assert (term_byte cols (term_byte cols t 27) 91 = Term (cell t) (trow t) (tcol t) (twrap t) (TCsi 0)) as ->; [|done].
    unfold term_byte at 2. by rewrite Ht. }
  unfold csi. rewrite Hcsi. clear Hcsi. unfold csi_digits.
  destruct (Z.eqb_spec n 0) as [->|Hn0].
  { change 48 with (48 + 0) at 1. simpl fold_left. by rewrite (Hdig 0 0), Hfin by lia. }
  assert (Hd : forall x, 0 <= x mod 10 <= 9) by (intros x; pose proof (Z.mod_pos_bound x 10 ltac:(lia)); lia).
  destruct (Z.eqb_spec (n / 10) 0) as [E1|E1].
  { simpl fold_left. rewrite Hdig, Hfin by done. replace (0 * 10 + n mod 10) with n by (Z.div_mod_to_equations; lia). done. }
  destruct (Z.eqb_spec (n / 10 / 10) 0) as [E2|E2]; simpl fold_left; rewrite !Hdig, Hfin by done.
  - replace ((0 * 10 + (n / 10) mod 10) * 10 + n mod 10) with n by (Z.div_mod_to_equations; lia). done.
  - replace (((0 * 10 + (n / 10 / 10) mod 10) * 10 + (n / 10) mod 10) * 10 + n mod 10) with n
      by (Z.div_mod_to_equations; lia). done.
Qed.

Lemma run_cr t : tesc t = TText -> term_run cols [13] t = Term (cell t) (trow t) 0 false TText.
Proof. intros Ht. unfold term_run, term_byte. simpl. by rewrite Ht. Qed.

Lemma run_clear t : tesc t = TText ->
  term_run cols CLI_VT100_CLR_LINE t = Term (clear_row (trow t) (cell t)) (trow t) (tcol t) false TText.
Proof.
  intros Ht. change CLI_VT100_CLR_LINE with (csi 2 75). rewrite run_csi by (lia || done). reflexivity.
Qed.
End terminal_facts.

Section painting.
Context (cols : Z) (Hcols : 2 <= cols < 1000).
Implicit Types (t : term) (text d : list Z).

(** While text is written the cursor is at offset [i], or waits to wrap. *)
Definition writing (b i : Z) t : Prop :=
  tesc t = TText /\
  if (0 <? i) && (i mod cols =? 0) then trow t = b + i / cols - 1 /\ tcol t = cols - 1 /\ twrap t = true
  else trow t = b + i / cols /\ tcol t = i mod cols /\ twrap t = false.

Lemma writing_row b i t : 0 <= i -> writing b i t ->
  (if twrap t then (trow t + 1, 0) else (trow t, tcol t)) = (b + i / cols, i mod cols).
Proof.
  intros Hi [_ Hw]. case_if_in Hw; destruct Hw as (-> & -> & ->); [|done].
  split_bools. f_equal; lia.
Qed.

Lemma cell_offset i r c : 0 <= i -> 0 <= c < cols -> (r - i / cols) * 1 = 0 /\ c = i mod cols <-> r * cols + c = i.
Proof.
  intros Hi Hc. pose proof (Z.div_mod i cols ltac:(lia)). pose proof (Z.mod_pos_bound i cols ltac:(lia)).
  split; [intros [? ->]; nia|]. intros E. assert (r = i / cols) by (apply (Z.div_unique i cols r c); lia). lia.
Qed.

(** The text so far, blank elsewhere, in the rows from [b]. *)
Lemma write_char b text x t :
  32 <= x <= 126 -> writing b (Z.of_nat (length text)) t -> shows_from cols b text t ->
  let t' := term_byte cols t x in
  writing b (Z.of_nat (length (text ++ [x]))) t' /\ shows_from cols b (text ++ [x]) t' /\ same_above b t t'.
Proof.
  intros Hx Hw Hs t'. set (i := Z.of_nat (length text)) in *.
  pose proof (writing_row b i t ltac:(lia) Hw) as Hrow. destruct Hw as [Ht _].
  assert (Ei : Z.of_nat (length (text ++ [x])) = i + 1) by (rewrite length_app; simpl; lia). rewrite Ei.
  pose proof (Z.div_mod i cols ltac:(lia)) as Hdm. pose proof (Z.mod_pos_bound i cols ltac:(lia)) as Hmb.
  pose proof (Z.div_pos i cols ltac:(lia) ltac:(lia)) as Hdp.
  assert (Et : t' = term_char cols x t).
  { unfold t', term_byte. rewrite Ht. ifs. done. }
  unfold term_char in Et. rewrite Hrow in Et. clearbody t'.
  assert (Hcell : cell t' = put_cell (b + i / cols) (i mod cols) x (cell t)) by (subst t'; by case_if).
  split_and!.
  - split; [subst t'; by case_if|]. subst t'. destruct (i mod cols =? cols - 1) eqn:Elast; simpl.
    + assert ((i + 1) / cols = i / cols + 1 /\ (i + 1) mod cols = 0) as [-> ->].
      { split; [symmetry; apply (Z.div_unique _ _ _ 0); lia|symmetry; apply (Z.mod_unique _ _ (i / cols + 1)); lia]. }
      if_true. lia.
    + assert ((i + 1) / cols = i / cols /\ (i + 1) mod cols = i mod cols + 1) as [-> ->].
      { split; [symmetry; apply (Z.div_unique _ _ _ (i mod cols + 1)); lia|
                symmetry; apply (Z.mod_unique _ _ (i / cols)); lia]. }
      if_false. done.
  - intros r c Hr Hc. rewrite Hcell. unfold put_cell. pose proof (cell_offset i (r - b) c ltac:(lia) Hc) as Hoff.
    assert (0 <= (r - b) * cols) by nia. case_if.
    + assert ((r - b) * cols + c = i) as -> by (apply Hoff; lia).
      unfold i. by rewrite Nat2Z.id, nth_middle.
    + rewrite Hs by done. assert ((r - b) * cols + c <> i) by (intros E; apply Hoff in E; lia).
      destruct (Z.ltb_spec ((r - b) * cols + c) i).
      * rewrite app_nth1 by lia. done.
      * rewrite !nth_overflow; [done|rewrite length_app; simpl; lia|lia].
  - intros r c Hr. rewrite Hcell. unfold put_cell. if_false. done.
Qed.

Lemma same_above_trans b t1 t2 t3 : same_above b t1 t2 -> same_above b t2 t3 -> same_above b t1 t3.
Proof. intros H1 H2 r c Hr. by rewrite H2, H1. Qed.

Lemma write_text b d text t :
  printable d -> writing b (Z.of_nat (length text)) t -> shows_from cols b text t ->
  let t' := term_run cols d t in
  writing b (Z.of_nat (length (text ++ d))) t' /\ shows_from cols b (text ++ d) t' /\ same_above b t t'.
Proof.
  intros Hd. revert text t. induction Hd as [|x d Hx Hd IH]; intros text t Hw Hs.
  { simpl. rewrite app_nil_r. done. }
  destruct (write_char b text x t Hx Hw Hs) as (Hw1 & Hs1 & Ha1).
  destruct (IH (text ++ [x]) (term_byte cols t x) Hw1 Hs1) as (Hw2 & Hs2 & Ha2).
  rewrite <-app_assoc in *. split_and!; [done|done|]. by eapply same_above_trans.
Qed.

(** The end of the text: the forced newline at the right margin. *)
Lemma write_end b text t :
  writing b (Z.of_nat (length text)) t ->
  let n := Z.of_nat (length text) in
  let t' := term_run cols (if (0 <? n) && (n mod cols =? 0) then CRLF else []) t in
  cell t' = cell t /\ cursor_at cols b n t'.
Proof.
  intros [Ht Hw] n t'. fold n in Hw. unfold t'. case_if_in Hw; destruct Hw as (Hr & Hc & Hw).
  - unfold term_run, term_byte. simpl. rewrite Ht. simpl. split; [done|]. split_bools.
    split_and!; simpl; [lia|lia|done|done].
  - by split.
Qed.

(** The cursor brought from one offset to another, rows first. *)
Lemma move_cursor b pcur t : 0 <= pcur -> tesc t = TText -> trow t = b + pcur / cols ->
  let t' := term_run cols ([13] ++ if pcur mod cols =? 0 then [] else csi (pcur mod cols) 67) t in
  cell t' = cell t /\ cursor_at cols b pcur t'.
Proof.
  intros Hp Ht Hr t'. pose proof (Z.mod_pos_bound pcur cols ltac:(lia)). unfold t'.
  rewrite term_run_app, run_cr by done. case_if.
  - split; [done|]. split_and!; simpl; lia || done.
  - rewrite run_csi by (simpl; lia || done). split; [done|]. split_and!; simpl; lia || done.
Qed.

Lemma move_up n t : 0 <= n < 1000 -> tesc t = TText ->
  term_run cols (if n =? 0 then [] else csi n 65) t =
    if n =? 0 then t else Term (cell t) (trow t - n) (tcol t) false TText.
Proof.
  intros Hn Ht. case_if; [done|]. rewrite run_csi by (lia || done). unfold term_csi. simpl. f_equal; lia.
Qed.

Lemma div_bounds i n : 0 <= i <= n -> n < 1000 -> 0 <= i / cols <= n / cols /\ n / cols < 1000.
Proof.
  intros Hi Hn. split_and!; [apply Z.div_pos; lia|apply Z.div_le_mono; lia|].
  apply Z.div_lt_upper_bound; nia.
Qed.

(** Painting from a blank row [b]. *)
Lemma paint_shows b text pcur t :
  printable text -> (length text < 1000)%nat -> 0 <= pcur <= Z.of_nat (length text) ->
  tesc t = TText -> trow t = b -> tcol t = 0 -> twrap t = false -> shows_from cols b [] t ->
  let t' := term_run cols (paint_bytes cols text pcur) t in
  shows_from cols b text t' /\ same_above b t t' /\ cursor_at cols b pcur t'.
Proof.
  intros Hp Hlen Hpc Ht Hr Hc Hw Hb. cbv zeta. unfold paint_bytes. set (n := Z.of_nat (length text)) in *.
  assert (Hw0 : writing b 0 t).
  { split; [done|]. rewrite Hr, Hc, Z.div_0_l, Z.mod_0_l by lia. simpl. split_and!; lia || done. }
  destruct (write_text b text [] t Hp Hw0 Hb) as (Hw1 & Hs1 & Ha1). cbn [app] in Hw1, Hs1.
  rewrite term_run_app. set (t1 := term_run cols text t) in *. clearbody t1.
  destruct (write_end b text t1 Hw1) as [Hc2 (Hr2 & _ & Hw2 & Ht2)]. fold n in Hc2, Hr2, Hw2, Ht2.
  rewrite term_run_app. set (t2 := term_run cols (if (0 <? n) && _ then _ else _) t1) in *. clearbody t2.
  destruct (div_bounds pcur n ltac:(lia) ltac:(lia)) as [? ?].
  assert (Hup : term_run cols (if pcur / cols <? n / cols then csi (n / cols - pcur / cols) 65 else []) t2 =
            term_run cols (if n / cols - pcur / cols =? 0 then [] else csi (n / cols - pcur / cols) 65) t2).
  { do 2 case_if; done || lia. }
  rewrite term_run_app, Hup, move_up by (lia || done). clear Hup.
  set (t3 := if _ =? 0 then t2 else _).
  assert (H3 : cell t3 = cell t1 /\ trow t3 = b + pcur / cols /\ tesc t3 = TText).
  { unfold t3. case_if; simpl; rewrite ?Hc2, ?Hr2; split_and!; done || lia. }
  clearbody t3. destruct H3 as (Hc3 & Hr3 & Ht3).
  destruct (move_cursor b pcur t3 ltac:(lia) Ht3 Hr3) as [Hc4 Hcur].
  split_and!; [..|done].
  - intros r c ??. rewrite Hc4, Hc3. by apply Hs1.
  - intros r c ?. rewrite Hc4, Hc3. by apply Ha1.
Qed.
End painting.

Section redrawing.
Context (cols : Z) (Hcols : 2 <= cols < 1000).
Implicit Types (t : term) (text d : list Z).

Lemma blank_cell b t : shows_from cols b [] t <-> forall r c, b <= r -> 0 <= c < cols -> cell t r c = BLANK.
Proof. split; intros Hb r c ??; rewrite Hb by done; by destruct (Z.to_nat _). Qed.

(** One row erased, and the cursor on the row above. *)
Lemma erase_row_run t : tesc t = TText ->
  term_run cols erase_row_bytes t = Term (clear_row (trow t) (cell t)) (trow t - 1) 0 false TText.
Proof.
  intros Ht. unfold erase_row_bytes.
  rewrite !term_run_app, run_cr, run_clear, run_csi by (lia || done). reflexivity.
Qed.

Lemma erase_rows_run k : forall b t, tesc t = TText -> trow t = b + Z.of_nat k ->
  shows_from cols (trow t + 1) [] t ->
  let t' := term_run cols (concat (replicate k erase_row_bytes)) t in
  tesc t' = TText /\ trow t' = b /\ shows_from cols (b + 1) [] t' /\ same_above b t t'.
Proof.
  induction k as [|k IH]; intros b t Ht Hr Hb.
  { simpl. replace (trow t) with b in * by lia. done. }
  cbn [replicate concat]. cbv zeta. rewrite term_run_app, erase_row_run by done.
  set (t1 := Term _ _ _ _ _).
  assert (Hb1 : shows_from cols (trow t1 + 1) [] t1).
  { apply blank_cell. intros r c ??. simpl in *. unfold clear_row. case_if; [done|].
    rewrite blank_cell in Hb. apply Hb; lia. }
  destruct (IH b t1 eq_refl ltac:(simpl; lia) Hb1) as (? & ? & ? & Ha). split_and!; [done..|].
  intros r c ?. rewrite Ha by done. simpl. unfold clear_row. if_false. done.
Qed.

(** Erasing a render of [old_rows] rows from row [b]. *)
Definition render_at (b : Z) (r : render) t : Prop :=
  trow t = b + draw_row r /\ tesc t = TText /\ 0 <= old_rows r < 256 /\
  (if 0 <? old_rows r then 0 <= draw_row r < old_rows r else draw_row r = 0) /\
  shows_from cols (b + old_rows r) [] t.

Lemma erase_blanks b r t : render_at b r t ->
  let t' := term_run cols (erase_bytes r) t in
  tesc t' = TText /\ trow t' = b /\ tcol t' = 0 /\ twrap t' = false /\ shows_from cols b [] t' /\ same_above b t t'.
Proof.
  intros (Hr & Ht & Hold & Hdraw & Hb). cbv zeta. unfold erase_bytes. case_if_in Hdraw.
  2:{ rewrite run_cr by done. replace (b + old_rows r) with b in Hb by lia. split_and!; simpl; done || lia. }
  rewrite u32_small by (unfold is_u32; lia). rewrite !term_run_app.
  set (down := old_rows r - 1 - draw_row r).
  set (t1 := term_run cols (if down =? 0 then [] else csi down 66) t).
  assert (H1 : cell t1 = cell t /\ trow t1 = b + old_rows r - 1 /\ tesc t1 = TText).
  { unfold t1. case_if; [simpl; split_and!; done || lia|]. rewrite run_csi by (lia || done).
    simpl. split_and!; done || lia. }
  clearbody t1. destruct H1 as (Hc1 & Hr1 & Ht1).
  destruct (erase_rows_run (Z.to_nat (old_rows r - 1)) b t1 Ht1 ltac:(lia)) as (Ht2 & Hr2 & Hb2 & Ha2).
  { apply blank_cell. intros r' c' ??. rewrite Hc1. rewrite blank_cell in Hb. apply Hb; lia. }
  set (t2 := term_run cols (concat _) t1) in *. clearbody t2.
  rewrite run_cr, run_clear by done. simpl. split_and!; [done..| |].
  - apply blank_cell. intros r' c' ??. simpl. unfold clear_row. case_if; [done|].
    rewrite blank_cell in Hb2. apply Hb2; lia.
  - intros r' c' ?. simpl. unfold clear_row. if_false. by rewrite Ha2, Hc1.
Qed.

(** The repaint: whatever the old render showed, the new one shows the text. *)
Lemma repaint_shows b r text pcur t :
  printable text -> (length text < 1000)%nat -> 0 <= pcur <= Z.of_nat (length text) -> render_at b r t ->
  let t' := term_run cols (erase_bytes r ++ paint_bytes cols text pcur) t in
  shows_from cols b text t' /\ same_above b t t' /\ cursor_at cols b pcur t'.
Proof.
  intros Hp Hl Hpc Hr. cbv zeta. rewrite term_run_app.
  destruct (erase_blanks b r t Hr) as (? & ? & ? & ? & ? & Ha).
  destruct (paint_shows cols Hcols b text pcur (term_run cols (erase_bytes r) t)) as (? & Ha' & ?); [done..|].
  split_and!; [done| |done]. by eapply same_above_trans.
Qed.

(** The cursor-only move. *)
Lemma move_shows b row pcur text t :
  0 <= pcur < 1000 -> 0 <= row < 1000 -> tesc t = TText -> trow t = b + row -> shows_from cols b text t ->
  let t' := term_run cols (move_bytes cols row pcur) t in
  shows_from cols b text t' /\ same_above b t t' /\ cursor_at cols b pcur t'.
Proof.
  intros Hp Hrow Ht Hr Hs. cbv zeta. unfold move_bytes. rewrite term_run_app.
  assert (0 <= pcur / cols < 1000) by (split; [apply Z.div_pos; lia|apply Z.div_lt_upper_bound; nia]).
  set (t1 := term_run cols (if _ <? row then _ else _) t).
  assert (H1 : cell t1 = cell t /\ trow t1 = b + pcur / cols /\ tesc t1 = TText).
  { unfold t1. repeat case_if; rewrite ?run_csi by (lia || done); simpl; split_and!; done || lia. }
  clearbody t1. destruct H1 as (Hc1 & Hr1 & Ht1).
  destruct (move_cursor cols Hcols b pcur t1 ltac:(lia) Ht1 Hr1) as [Hc Hcur].
  split_and!; [intros r c ??|intros r c ?|done]; rewrite Hc, Hc1; [by apply Hs|done].
Qed.
End redrawing.

(** ** What the terminal shows *)

Section on_screen.
Context {W : Type} `{Port W} (t0 : term).
Implicit Types (c : console W) (sh : cli_instance W).

(** The terminal, started at [t0], after what has been sent. *)
Definition screen sh : term := term_run (edit_cols sh) (wire (env (con sh))) t0.

Definition sizes_ok sh : Prop :=
  line_ok (inp sh) /\ length (line (inp sh)) = CLI_CMD_BUFFER_SIZE /\
  (length (prompt sh) < CLI_PROMPT_BUFFER_SIZE)%nat /\ (term_width sh = 0 \/ 20 <= term_width sh <= 255).

Definition quiet sh : Prop := out_buf (con sh) = [] /\ tx_failed (con sh) = false.

(** The render from row [b] is the prompt and the line, and nothing else. *)
Record displayed (b : Z) sh : Prop := {
  di_text : shows_from (edit_cols sh) b (shown sh) (screen sh);
  di_cursor : cursor_at (edit_cols sh) b (pcur_of sh) (screen sh);
  di_rows : old_rows (rend sh) = Z.of_nat (length (shown sh)) / edit_cols sh + 1;
  di_row : draw_row (rend sh) = pcur_of sh / edit_cols sh;
}.

Lemma cols_bounds sh : sizes_ok sh -> 20 <= edit_cols sh <= 255.
Proof. intros (_ & _ & _ & Hw). unfold edit_cols, CLI_TERM_WIDTH. case_if; lia. Qed.

Lemma shown_bounds sh : sizes_ok sh ->
  0 <= pcur_of sh <= Z.of_nat (length (shown sh)) /\ (length (shown sh) < 276)%nat.
Proof.
  intros ([Hc Hl] & Hsz & Hp & _). pose proof (length_shown sh (conj Hc Hl)) as E.
  unfold pcur_of, CLI_CMD_BUFFER_SIZE, CLI_PROMPT_BUFFER_SIZE in *. lia.
Qed.

Lemma rows_small sh n : sizes_ok sh -> 0 <= n <= Z.of_nat (length (shown sh)) -> 0 <= n / edit_cols sh < 14.
Proof.
  intros Hs Hn. pose proof (cols_bounds sh Hs). pose proof (shown_bounds sh Hs).
  split; [apply Z.div_pos; lia|]. apply Z.div_lt_upper_bound; nia.
Qed.

Lemma displayed_render b sh : sizes_ok sh -> displayed b sh -> render_at (edit_cols sh) b (rend sh) (screen sh).
Proof.
  intros Hs [Ht (Hr & Hc & Hw & He) Ho Hd]. pose proof (cols_bounds sh Hs) as Hcol. pose proof (shown_bounds sh Hs) as [Hp Hl].
  pose proof (rows_small sh _ Hs Hp). pose proof (rows_small sh (Z.of_nat (length (shown sh))) Hs ltac:(lia)).
  assert (pcur_of sh / edit_cols sh <= Z.of_nat (length (shown sh)) / edit_cols sh) by (apply Z.div_le_mono; lia).
  split_and!; [congruence|done|lia|lia|rewrite Ho; if_true; lia|].
  apply blank_cell. intros r c ??. rewrite Ht by lia. apply nth_overflow.
  pose proof (Z.div_mod (Z.of_nat (length (shown sh))) (edit_cols sh) ltac:(lia)).
  pose proof (Z.mod_pos_bound (Z.of_nat (length (shown sh))) (edit_cols sh) ltac:(lia)). nia.
Qed.

(** A unit of output under the lock. *)
Lemma emit_locked c w d : out_buf c = [] -> tx_failed c = false -> cli_lock (env c) = Some w ->
  let c' := cli_out_end (cli_out_flush (out_str d (set_env w c))) in
  out_buf c' = [] /\ (tx_failed c' = false -> wire (env c') = wire (env c) ++ d).
Proof.
  intros Hb Hf Hw. set (c1 := set_env w c).
  assert (He : emits c1 d (out_str d c1)).
  { apply emits_str. simpl. rewrite Hb. simpl. unfold CLI_PRINTF_BUFFER_SIZE. lia. }
  destruct (emits_flush (out_str d c1)) as [Hfl Hb']. pose proof (emits_app _ _ _ _ _ He Hfl) as [_ _ Hok _ _ _].
  intros c'. split; [exact Hb'|]. intros Hf'. destruct (Hok Hf') as [_ E].
  rewrite Hb', app_nil_r in E. simpl in E. rewrite Hb, app_nil_r in E.
  unfold c', cli_out_end. simpl. rewrite unlock_wire. simpl. by rewrite E, (lock_wire _ _ Hw).
Qed.

(** The repaint leaves the line alone and, unless its output failed, shows it:
    in the rows from [b], whatever a render [rend sh] showed there before. *)
Lemma refresh_displays b sh :
  sizes_ok sh -> quiet sh -> printable (shown sh) -> render_at (edit_cols sh) b (rend sh) (screen sh) ->
  let sh' := cli_edit_refresh sh in
  set_con (con sh) (set_rend (rend sh) sh') = sh /\ render_dirty (rend sh') = render_dirty (rend sh) /\
  out_buf (con sh') = [] /\
  (tx_failed (con sh') = false -> displayed b sh' /\ same_above b (screen sh) (screen sh')).
Proof.
  intros Hs [Hb Hf] Hp Hr. cbv zeta. destruct (cli_lock (env (con sh))) as [w|] eqn:Hw.
  2:{ unfold cli_edit_refresh. rewrite Hw. split_and!; [by destruct sh|done|done|done]. }
  rewrite (refresh_eq sh w (proj1 Hs) Hw).
  set (d := erase_bytes _ ++ paint_bytes _ _ _). destruct (emit_locked (con sh) w d Hb Hf Hw) as [Hb' Hwire].
  set (c' := cli_out_end _) in *. clearbody c'. split_and!; [by destruct sh|done|done|]. intros Hf'. simpl in Hf'.
  specialize (Hwire Hf'). pose proof (cols_bounds sh Hs). destruct (shown_bounds sh Hs).
  destruct (repaint_shows (edit_cols sh) ltac:(lia) b (rend sh) (shown sh) (pcur_of sh) (screen sh)) as (T & A & C);
    [done|lia|lia|done|]. fold d in T, A, C.
  set (sh1 := set_con c' _).
  assert (E : screen sh1 = term_run (edit_cols sh) d (screen sh)).
  { unfold screen. change (edit_cols sh1) with (edit_cols sh). simpl. by rewrite Hwire, term_run_app. }
  split; [|by rewrite E].
  pose proof (rows_small sh (pcur_of sh) Hs ltac:(lia)). pose proof (rows_small sh (Z.of_nat (length (shown sh))) Hs ltac:(lia)).
  split; rewrite ?E; [done|done| |].
  - apply (u8_small (Z.of_nat (length (shown sh)) / edit_cols sh + 1)). unfold is_u8. lia.
  - apply (u8_small (pcur_of sh / edit_cols sh)). unfold is_u8. lia.
Qed.

(** The cursor-only move, from a line displayed with the cursor elsewhere. *)
Lemma reposition_displays b sh n :
  sizes_ok sh -> quiet sh -> (n <= len (inp sh))%nat ->
  displayed b (set_inp (Input (line (inp sh)) (len (inp sh)) n) sh) ->
  let sh' := edit_reposition sh in
  set_con (con sh) (set_rend (rend sh) sh') = sh /\ render_dirty (rend sh') = render_dirty (rend sh) /\
  out_buf (con sh') = [] /\
  (tx_failed (con sh') = false -> displayed b sh' /\ same_above b (screen sh) (screen sh')).
Proof.
  intros Hs [Hb Hf] Hn Hd. cbv zeta. destruct (cli_lock (env (con sh))) as [w|] eqn:Hw.
  2:{ unfold edit_reposition. rewrite Hw. split_and!; [by destruct sh|done|done|done]. }
  rewrite (reposition_eq sh w Hw).
  set (d := move_bytes _ _ _). destruct (emit_locked (con sh) w d Hb Hf Hw) as [Hb' Hwire].
  set (c' := cli_out_end _) in *. clearbody c'. split_and!; [by destruct sh|done|done|]. intros Hf'. simpl in Hf'.
  specialize (Hwire Hf'). pose proof (cols_bounds sh Hs). destruct (shown_bounds sh Hs).
  set (sh0 := set_inp _ sh) in Hd. destruct Hd as [T (R & _ & _ & Ht) O D].
  change (edit_cols sh0) with (edit_cols sh) in *. change (shown sh0) with (shown sh) in *.
  change (screen sh0) with (screen sh) in *. change (rend sh0) with (rend sh) in *.
  assert (Hs0 : sizes_ok sh0).
  { destruct Hs as ([??]&?&?&?). split_and!; try done. }
  pose proof (rows_small sh0 (pcur_of sh0) Hs0 (proj1 (shown_bounds sh0 Hs0))) as Hrow0.
  change (edit_cols sh0) with (edit_cols sh) in *.
  destruct (move_shows (edit_cols sh) ltac:(lia) b (draw_row (rend sh)) (pcur_of sh) (shown sh) (screen sh))
    as (T' & A & C); [lia|lia|done|by rewrite D|done|]. fold d in T', A, C.
  set (sh1 := set_con c' _).
  assert (E : screen sh1 = term_run (edit_cols sh) d (screen sh)).
  { unfold screen. change (edit_cols sh1) with (edit_cols sh). simpl. by rewrite Hwire, term_run_app. }
  split; [|by rewrite E].
  pose proof (rows_small sh (pcur_of sh) Hs ltac:(lia)).
  split; rewrite ?E; [done|done|done|].
  apply (u8_small (pcur_of sh / edit_cols sh)). unfold is_u8. lia.
Qed.
End on_screen.
