(* ===== verification/History.v ===== *)
(** * Command history ([src/shell/core/cli_history.c])

    The byte ring of submitted lines: entries packed oldest to newest, each
    ended by a NUL, the oldest evicted to make room, and the recall that loads
    an entry into the input line and repaints.  Loads and copies fail out of
    bounds; the theorems say that none does, and that the ring is the list of
    its entries. *)

From S2P Require Import Prelude Instance Redraw.
Local Open Scope Z_scope.

(** ** Offsets *)

(** [while (i < hist_used && hist[i] != 0) i++]; each round moves [i]. *)
Fixpoint scan_entry (fuel : nat) (h : history) (i : nat) : nat :=
  match fuel with
  | O => i
  | S k =>
      if (i <? hist_used h)%nat && negb (bool_decide (hist h !! i = Some 0)) then scan_entry k h (S i) else i
  end.
Definition hist_next_off (h : history) (off : nat) : nat :=
  let i := scan_entry (hist_used h - off) h off in
  if (i <? hist_used h)%nat then S i else hist_used h.

(** [while ((next = hist_next_off(start)) < limit) start = next]; the offset
    grows in every round. *)
Fixpoint last_before (fuel : nat) (h : history) (limit start : nat) : nat :=
  match fuel with
  | O => start
  | S k =>
      let next := hist_next_off h start in
      if (next <? limit)%nat then last_before k h limit next else start
  end.
Definition hist_newest_off (h : history) : nat := last_before (hist_used h) h (hist_used h) 0.
Definition hist_prev_off (h : history) (off : nat) : nat := last_before off h off 0.

(** ** Recall *)

(** [hist_load]: [strlen] of the entry, and the copy into [line]. *)
Definition hist_load (h : history) (off : nat) (i : input) : option input :=
  s ← cstr (hist h) off;
  if (length s + 1 <=? length (line i))%nat
  then Some (Input (splice 0 (s ++ [0]) (line i)) (length s) (length s))
  else None.

Definition set_nav (on : bool) (n : nat) (h : history) : history := History (hist h) (hist_used h) on n.

Section recall.
Context {W : Type} `{Port W}.
Implicit Types (sh : cli_instance W).

Definition cli_history_prev sh : option (cli_instance W) :=
  let h := his sh in
  if (hist_used h =? 0)%nat then Some sh
  else
    let recall target :=
      let h := set_nav true target h in
      i ← hist_load h target (inp sh);
      Some (cli_edit_redraw (set_inp i (set_his h sh))) in
    if negb (hist_nav_on h) then recall (hist_newest_off h)
    else if (hist_nav h =? 0)%nat then Some sh
    else recall (hist_prev_off h (hist_nav h)).

Definition cli_history_next sh : option (cli_instance W) :=
  let h := his sh in
  if negb (hist_nav_on h) then Some sh
  else
    let next := hist_next_off h (hist_nav h) in
    if (next <? hist_used h)%nat then
      let h := set_nav true next h in
      i ← hist_load h next (inp sh);
      Some (cli_edit_redraw (set_inp i (set_his h sh)))
    else
      l ← buf_set (line (inp sh)) 0 0;
      Some (cli_edit_redraw (set_inp (Input l 0 0) (set_his (set_nav false (hist_nav h) h) sh))).
End recall.

(** ** Recording *)

(** [while (hist_used + l + 1 > CLI_HISTORY_BUFFER_SIZE)]; a round evicts. *)
Fixpoint evict_loop (fuel : nat) (l : nat) (h : history) : option history :=
  if (hist_used h + l + 1 <=? CLI_HISTORY_BUFFER_SIZE)%nat then Some h
  else
    match fuel with
    | O => None
    | S k =>
        let first := hist_next_off h 0 in
        let n := (hist_used h - first)%nat in
        evict_loop k l (History (splice 0 (slice first n (hist h)) (hist h)) n (hist_nav_on h) (hist_nav h))
    end.

Definition cli_history_add (s : list Z) (h : history) : option history :=
  let l := length s in
  if (l =? 0)%nat || (CLI_CMD_BUFFER_SIZE <=? l)%nat || (CLI_HISTORY_BUFFER_SIZE <? l + 1)%nat then Some h
  else
    same ← (if (0 <? hist_used h)%nat
            then e ← cstr (hist h) (hist_newest_off h); Some (bool_decide (e = s)) else Some false);
    if same : bool then Some h
    else
      h ← evict_loop (S (hist_used h)) l h;
      if (hist_used h + l + 1 <=? length (hist h))%nat
      then Some (History (splice (hist_used h) (s ++ [0]) (hist h)) (hist_used h + l + 1) (hist_nav_on h) (hist_nav h))
      else None.

(** ** The ring as a list of lines *)

Definition packed (es : list (list Z)) : list Z := concat (map (fun e => e ++ [0]) es).
Definition entry_ok (e : list Z) : Prop := no_nul e /\ (0 < length e < CLI_CMD_BUFFER_SIZE)%nat.

Record hist_rep (h : history) (es : list (list Z)) : Prop := {
  hr_len : length (hist h) = CLI_HISTORY_BUFFER_SIZE;
  hr_used : hist_used h = length (packed es);
  hr_fit : (hist_used h <= CLI_HISTORY_BUFFER_SIZE)%nat;
  hr_bytes : take (hist_used h) (hist h) = packed es;
  hr_ok : Forall entry_ok es;
}.

Lemma packed_app es es' : packed (es ++ es') = packed es ++ packed es'.
Proof. unfold packed. by rewrite map_app, concat_app. Qed.
Lemma packed_cons e es : packed (e :: es) = e ++ 0 :: packed es.
Proof. unfold packed. simpl. by rewrite <-app_assoc. Qed.

Lemma rep_lookup h es i : hist_rep h es -> (i < hist_used h)%nat -> hist h !! i = packed es !! i.
Proof. intros [_ _ _ <- _] Hi. by rewrite lookup_take_lt. Qed.

(** The scan stops at the NUL of the entry. *)
Lemma scan_entry_spec h es1 e es2 k i :
  hist_rep h (es1 ++ e :: es2) -> i = (length (packed es1) + k)%nat -> (k <= length e)%nat ->
  scan_entry (hist_used h - i) h i = (length (packed es1) + length e)%nat.
Proof.
  intros Hr -> Hk. pose proof (hr_used _ _ Hr) as Hu. rewrite packed_app, packed_cons, !length_app in Hu.
  simpl in Hu. pose proof (hr_ok _ _ Hr) as Hok. apply Forall_app in Hok as [_ Hok].
  apply Forall_cons in Hok as [[He _] _].
  remember (length e - k)%nat as m eqn:Hm. revert k Hk Hm. induction m as [|m IH]; intros k Hk Hm.
  - replace k with (length e) by lia. destruct (hist_used h - _)%nat eqn:E; [lia|]. simpl.
    rewrite (rep_lookup _ _ _ Hr) by lia.
    rewrite packed_app, packed_cons, lookup_app_r, Nat.add_comm, Nat.add_sub, list_lookup_middle by lia.
    rewrite bool_decide_eq_true_2, andb_false_r by done. lia.
  - destruct (hist_used h - _)%nat eqn:E; [lia|]. cbn [scan_entry].
    assert (Hlt : (k < length e)%nat) by lia. apply lookup_lt_is_Some in Hlt as [x Hx].
    rewrite (rep_lookup _ _ _ Hr) by lia.
    rewrite packed_app, packed_cons, lookup_app_r by lia.
    replace (length (packed es1) + k - length (packed es1))%nat with k by lia.
    rewrite lookup_app_l, Hx by (by eapply lookup_lt_Some).
    rewrite bool_decide_eq_false_2 by (intros [= ->]; by eapply (Forall_lookup_1 _ _ _ _ He Hx)).
    rewrite (proj2 (Nat.ltb_lt _ _)) by lia. cbn [negb andb].
    replace (S (length (packed es1) + k)) with (length (packed es1) + S k)%nat by lia.
    replace n with (hist_used h - (length (packed es1) + S k))%nat by lia. apply IH; lia.
Qed.

Lemma next_off_spec h es1 e es2 :
  hist_rep h (es1 ++ e :: es2) -> hist_next_off h (length (packed es1)) = length (packed (es1 ++ [e])).
Proof.
  intros Hr. unfold hist_next_off.
  rewrite (scan_entry_spec h es1 e es2 0 _ Hr) by lia.
  pose proof (hr_used _ _ Hr) as Hu. rewrite packed_app, packed_cons, !length_app in Hu. simpl in Hu.
  rewrite packed_app, packed_cons, !length_app. simpl. rewrite (proj2 (Nat.ltb_lt _ _)) by lia. lia.
Qed.

Lemma packed_pos e es : (0 < length (packed (e :: es)))%nat.
Proof. rewrite packed_cons, length_app. simpl. lia. Qed.
Lemma packed_ge es : (length es <= length (packed es))%nat.
Proof. induction es as [|e es IH]; [done|]. rewrite packed_cons, length_app. simpl. lia. Qed.

(** Walking from the front to the entry before a limit. *)
Lemma last_before_spec h es1 e es2 :
  hist_rep h (es1 ++ e :: es2) ->
  forall fuel es0 es', es1 = es0 ++ es' -> (length es' <= fuel)%nat ->
  last_before fuel h (length (packed (es1 ++ [e]))) (length (packed es0)) = length (packed es1).
Proof.
  intros Hr. induction fuel as [|k IH]; intros es0 es' -> Hf.
  - destruct es'; [|simpl in Hf; lia]. by rewrite app_nil_r.
  - cbn [last_before]. destruct es' as [|e' es'].
    + rewrite app_nil_r in *. rewrite (next_off_spec h es0 e es2 Hr). by rewrite Nat.ltb_irrefl.
    + rewrite <-app_assoc in Hr. cbn [app] in Hr. rewrite (next_off_spec h es0 e' (es' ++ e :: es2) Hr).
      rewrite (proj2 (Nat.ltb_lt _ _)).
      2:{ rewrite !packed_app, !length_app, packed_cons, !length_app, packed_cons, length_app. simpl.
          pose proof (packed_pos e []). rewrite packed_cons, length_app in *. simpl in *. lia. }
      apply (IH (es0 ++ [e']) es'); [by rewrite <-app_assoc|simpl in Hf; lia].
Qed.

Lemma newest_spec h es e : hist_rep h (es ++ [e]) -> hist_newest_off h = length (packed es).
Proof.
  intros Hr. unfold hist_newest_off. rewrite (hr_used _ _ Hr).
  apply (last_before_spec h es e [] Hr _ [] es); [done|].
  rewrite packed_app, length_app. pose proof (packed_ge es). lia.
Qed.
Lemma prev_spec h es1 e es2 : hist_rep h (es1 ++ e :: es2) ->
  hist_prev_off h (length (packed (es1 ++ [e]))) = length (packed es1).
Proof.
  intros Hr. apply (last_before_spec h es1 e es2 Hr _ [] es1); [done|].
  rewrite packed_app, length_app. pose proof (packed_ge es1). lia.
Qed.

(** An entry read back as a C string. *)
Lemma entry_cstr h es1 e es2 : hist_rep h (es1 ++ e :: es2) -> cstr (hist h) (length (packed es1)) = Some e.
Proof.
  intros Hr. pose proof (hr_ok _ _ Hr) as Hok. apply Forall_app in Hok as [_ Hok].
  apply Forall_cons in Hok as [[He _] _]. unfold cstr.
  rewrite <-(take_drop (hist_used h) (hist h)), (hr_bytes _ _ Hr), packed_app, packed_cons, <-!app_assoc.
  rewrite drop_app_length. cbn [app]. by apply cstr_scan_app.
Qed.

Lemma exists_last_or_nil {A} (l : list A) : l = [] \/ exists l' x, l = l' ++ [x].
Proof. destruct l as [|x l] using rev_ind; [by left|right; eauto]. Qed.

(** ** What the operations do to the list *)

(** The state of the recall: on the live line, or on the [i]-th entry. *)
Definition nav_rep (h : history) (es : list (list Z)) (nav : option nat) : Prop :=
  match nav with
  | None => hist_nav_on h = false
  | Some i => (i < length es)%nat /\ hist_nav_on h = true /\ hist_nav h = length (packed (take i es))
  end.

(** One step towards the oldest entry, and towards the live line. *)
Definition nav_prev (n : nat) (nav : option nat) : option nat :=
  match nav with
  | None => match n with O => None | S k => Some k end
  | Some i => Some (i - 1)%nat
  end.
Definition nav_next (n : nat) (nav : option nat) : option nat :=
  match nav with
  | None => None
  | Some i => if (S i <? n)%nat then Some (S i) else None
  end.

(** [i] holds the line [s] with the cursor at its end. *)
Definition holds_line (i : input) (s : list Z) : Prop :=
  length (line i) = CLI_CMD_BUFFER_SIZE /\ len i = length s /\ cur i = length s /\
  take (length s + 1) (line i) = s ++ [0].

Lemma hist_load_spec h es1 e es2 i :
  hist_rep h (es1 ++ e :: es2) -> length (line i) = CLI_CMD_BUFFER_SIZE ->
  exists i', hist_load h (length (packed es1)) i = Some i' /\ holds_line i' e.
Proof.
  intros Hr Hl. unfold hist_load. rewrite (entry_cstr h es1 e es2 Hr). cbn [mbind option_bind].
  pose proof (hr_ok _ _ Hr) as Hok. apply Forall_app in Hok as [_ Hok]. apply Forall_cons in Hok as [[_ He] _].
  rewrite (proj2 (Nat.leb_le _ _)) by lia. eexists. split; [done|].
  split_and!; simpl; [|done|done|].
  - rewrite length_splice; [done|]. rewrite length_app. simpl. lia.
  - unfold splice. simpl. apply take_app_length'. rewrite length_app. simpl. lia.
Qed.

Lemma rep_set_nav h es on n : hist_rep h es -> hist_rep (set_nav on n h) es.
Proof. by intros [? ? ? ? ?]. Qed.

(** The nth entry, at its offset. *)
Lemma rep_split (es : list (list Z)) i : (i < length es)%nat -> exists e, es !! i = Some e /\ es = take i es ++ e :: drop (S i) es.
Proof.
  intros Hi. apply lookup_lt_is_Some in Hi as [e He]. exists e. split; [done|].
  by rewrite <-drop_S, take_drop.
Qed.

Section recall_facts.
Context {W : Type} `{Port W}.
Implicit Types (sh : cli_instance W).

(** A recall of the [i]-th entry, and the repaint of what is loaded. *)
Definition recalled sh sh' (es : list (list Z)) (i : nat) : Prop :=
  exists e i' h', es !! i = Some e /\ sh' = cli_edit_redraw (set_inp i' (set_his h' sh)) /\
    holds_line i' e /\ hist_rep h' es /\ nav_rep h' es (Some i).

Lemma recall_at sh h es i :
  hist_rep h es -> length (line (inp sh)) = CLI_CMD_BUFFER_SIZE -> (i < length es)%nat ->
  exists sh', (i' ← hist_load (set_nav true (length (packed (take i es))) h) (length (packed (take i es))) (inp sh);
               Some (cli_edit_redraw (set_inp i' (set_his (set_nav true (length (packed (take i es))) h) sh)))) = Some sh' /\
    recalled sh sh' es i.
Proof.
  intros Hr Hl Hi. destruct (rep_split es i Hi) as (e & He & Es).
  set (n := length (packed (take i es))). pose proof (rep_set_nav h es true n Hr) as Hr'.
  rewrite Es in Hr'. destruct (hist_load_spec (set_nav true n h) _ _ _ (inp sh) Hr' Hl) as (i' & E & Hh).
  fold n in E. rewrite E. cbn [mbind option_bind]. eexists. split; [done|].
  rewrite <-Es in Hr'. exists e, i', (set_nav true n h). by split_and!.
Qed.

Lemma history_prev_spec sh es nav :
  hist_rep (his sh) es -> nav_rep (his sh) es nav -> length (line (inp sh)) = CLI_CMD_BUFFER_SIZE ->
  exists sh', cli_history_prev sh = Some sh' /\
    match nav_prev (length es) nav with
    | Some i => if decide (nav = Some i) then sh' = sh else recalled sh sh' es i
    | None => sh' = sh
    end.
Proof.
  intros Hr Hn Hl. unfold cli_history_prev. cbv zeta.
  destruct (Nat.eqb_spec (hist_used (his sh)) 0) as [E0|E0].
  { exists sh. split; [done|]. assert (es = []) as ->.
    { rewrite (hr_used _ _ Hr) in E0. destruct es as [|e es]; [done|]. pose proof (packed_pos e es). lia. }
    destruct nav as [i|]; [|done]. destruct Hn as [Hn _]. simpl in Hn. lia. }
  destruct nav as [i|]; cbn [nav_prev].
  - destruct Hn as (Hi & -> & Hoff). cbn [negb]. rewrite Hoff.
    destruct i as [|i].
    + exists sh. split; [done|]. by rewrite decide_True.
    + destruct (rep_split es i ltac:(lia)) as (e & He & Es).
      assert (Et : take (S i) es = take i es ++ [e]) by (by apply take_S_r).
      pose proof (packed_pos e []) as Hpos. rewrite Et, packed_app, length_app.
      rewrite (proj2 (Nat.eqb_neq _ _)) by (unfold packed in *; simpl in *; lia).
      rewrite <-length_app, <-packed_app. rewrite Es in Hr at 1.
      rewrite (prev_spec (his sh) _ _ _ Hr). rewrite <-Es in Hr.
      destruct (recall_at sh (his sh) es i Hr Hl ltac:(lia)) as (sh' & E & Hrec).
      exists sh'. split; [exact E|]. replace (S i - 1)%nat with i by lia.
      rewrite decide_False by (intros [= ?]; lia). done.
  - cbn [nav_rep] in Hn. rewrite Hn. cbn [negb].
    destruct (exists_last_or_nil es) as [->|(es1 & e & ->)]; [by rewrite (hr_used _ _ Hr) in E0|].
    rewrite (newest_spec (his sh) es1 e Hr). rewrite length_app. simpl. rewrite Nat.add_comm. simpl.
    destruct (recall_at sh (his sh) (es1 ++ [e]) (length es1) Hr Hl) as (sh' & E & Hrec).
    { rewrite length_app. simpl. lia. }
    rewrite take_app_length in E. exists sh'. split; [exact E|done].
Qed.

Lemma history_next_spec sh es nav :
  hist_rep (his sh) es -> nav_rep (his sh) es nav -> length (line (inp sh)) = CLI_CMD_BUFFER_SIZE ->
  exists sh', cli_history_next sh = Some sh' /\
    match nav, nav_next (length es) nav with
    | None, _ => sh' = sh
    | Some _, Some i => recalled sh sh' es i
    | Some _, None =>
        exists i' h', sh' = cli_edit_redraw (set_inp i' (set_his h' sh)) /\ holds_line i' [] /\
          hist_rep h' es /\ nav_rep h' es None
    end.
Proof.
  intros Hr Hn Hl. unfold cli_history_next. cbv zeta. destruct nav as [i|]; cbn [nav_rep nav_next] in *.
  2:{ rewrite Hn. simpl. by exists sh. }
  destruct Hn as (Hi & -> & Hoff). cbn [negb]. rewrite Hoff.
  destruct (rep_split es i Hi) as (e & He & Es). rewrite Es in Hr at 1.
  rewrite (next_off_spec (his sh) _ _ _ Hr). rewrite <-Es in Hr.
  rewrite <-(take_S_r es i e He). rewrite (hr_used _ _ Hr).
  destruct (Nat.ltb_spec (S i) (length es)) as [Hlt|Hge].
  - rewrite (proj2 (Nat.ltb_lt _ _)).
    2:{ rewrite <-(take_drop (S i) es) at 2. rewrite packed_app, length_app.
        destruct (drop (S i) es) as [|e' l] eqn:Ed; [apply (f_equal length) in Ed; rewrite length_drop in Ed; simpl in Ed; lia|].
        pose proof (packed_pos e' l). lia. }
    destruct (recall_at sh (his sh) es (S i) Hr Hl Hlt) as (sh' & E & Hrec).
    exists sh'. split; [exact E|done].
  - rewrite take_ge, Nat.ltb_irrefl by lia.
    rewrite buf_set_Some by (rewrite Hl; unfold CLI_CMD_BUFFER_SIZE; lia). cbn [mbind option_bind].
    eexists. split; [done|]. do 2 eexists. split; [done|]. split_and!; [|by apply rep_set_nav|done].
    split_and!; simpl; [by rewrite length_insert|done|done|].
    destruct (line (inp sh)); [by simpl in Hl|done].
Qed.
End recall_facts.

(** ** Recording a line *)

Lemma rep_drop_first h e es : hist_rep h (e :: es) ->
  let first := hist_next_off h 0 in
  let n := (hist_used h - first)%nat in
  hist_rep (History (splice 0 (slice first n (hist h)) (hist h)) n (hist_nav_on h) (hist_nav h)) es.
Proof.
  intros Hr first n. assert (Ef : first = length (packed [e])) by exact (next_off_spec h [] e es Hr).
  pose proof Hr as [Hl Hu Hf Hb Hok]. change (e :: es) with ([e] ++ es) in Hu, Hb. rewrite packed_app, length_app in Hu.
  assert (En : n = length (packed es)) by (unfold n; lia).
  assert (Es : slice first n (hist h) = packed es).
  { unfold slice. rewrite <-(take_drop (hist_used h) (hist h)), Hb, packed_app, <-app_assoc, Ef.
    rewrite drop_app_length, En. apply take_app_length. }
  rewrite Es, En. split; simpl.
  - rewrite length_splice; [done|]. lia.
  - done.
  - lia.
  - unfold splice. simpl. apply take_app_length.
  - by inversion Hok.
Qed.

Lemma evict_loop_spec fuel l : forall h es,
  hist_rep h es -> (l + 1 <= CLI_HISTORY_BUFFER_SIZE)%nat -> (length es < fuel)%nat ->
  exists h' k, evict_loop fuel l h = Some h' /\ hist_rep h' (drop k es) /\
    (hist_used h' + l + 1 <= CLI_HISTORY_BUFFER_SIZE)%nat /\
    (forall j, (j < k)%nat -> (CLI_HISTORY_BUFFER_SIZE < length (packed (drop j es)) + l + 1)%nat) /\
    hist_nav_on h' = hist_nav_on h /\ hist_nav h' = hist_nav h.
Proof.
  induction fuel as [|fuel IH]; intros h es Hr Hl Hf; [lia|]. cbn [evict_loop].
  destruct (Nat.leb_spec (hist_used h + l + 1) CLI_HISTORY_BUFFER_SIZE) as [Hfit|Hbig].
  { exists h, 0%nat. split_and!; [done|done|done|intros; lia|done|done]. }
  destruct es as [|e es].
  { rewrite (hr_used _ _ Hr) in Hbig. simpl in Hbig. lia. }
  destruct (IH _ _ (rep_drop_first h e es Hr) Hl) as (h' & k & E & Hr' & Hfit & Hmin & ? & ?); [simpl in Hf; lia|].
  exists h', (S k). split_and!; [exact E|done|done| |done|done].
  intros [|j] Hj; [rewrite drop_0, <-(hr_used _ _ Hr); lia|]. apply Hmin. lia.
Qed.

Lemma history_add_spec h es s :
  hist_rep h es -> no_nul s ->
  exists h', cli_history_add s h = Some h' /\ hist_nav_on h' = hist_nav_on h /\ hist_nav h' = hist_nav h /\
    if decide (s = [] \/ (CLI_CMD_BUFFER_SIZE <= length s)%nat \/ last es = Some s) then h' = h
    else exists k, hist_rep h' (drop k es ++ [s]) /\
           (forall j, (j < k)%nat -> (CLI_HISTORY_BUFFER_SIZE < length (packed (drop j es ++ [s])))%nat).
Proof.
  intros Hr Hs. unfold cli_history_add.
  assert (Hlt : forall k, (CLI_CMD_BUFFER_SIZE <=? k)%nat = false -> (CLI_HISTORY_BUFFER_SIZE <? k + 1)%nat = false).
  { intros k. unfold CLI_CMD_BUFFER_SIZE, CLI_HISTORY_BUFFER_SIZE. lia. }
  destruct (Nat.eqb_spec (length s) 0) as [E0|E0].
  { exists h. split_and!; [done..|]. rewrite decide_True; [done|]. left. by destruct s. }
  destruct (CLI_CMD_BUFFER_SIZE <=? length s)%nat eqn:Ebig.
  { exists h. split_and!; [done..|]. rewrite decide_True; [done|]. right; left. by apply Nat.leb_le. }
  rewrite (Hlt _ Ebig). cbn [orb]. apply Nat.leb_gt in Ebig.
  assert (Hsame : (if (0 <? hist_used h)%nat
             then e ← cstr (hist h) (hist_newest_off h); Some (bool_decide (e = s)) else Some false) =
            Some (bool_decide (last es = Some s))).
  { destruct (exists_last_or_nil es) as [->|(es1 & e & ->)].
    - by rewrite (hr_used _ _ Hr).
    - rewrite (newest_spec h es1 e Hr), (entry_cstr h es1 e [] Hr), last_snoc.
      rewrite (proj2 (Nat.ltb_lt _ _)).
      + cbn [mbind option_bind]. f_equal. apply bool_decide_ext. naive_solver.
      + rewrite (hr_used _ _ Hr), packed_app, length_app. pose proof (packed_pos e []). lia. }
  rewrite Hsame. cbn [mbind option_bind]. clear Hsame. case_bool_decide as Hlast.
  { exists h. split_and!; [done..|]. rewrite decide_True; [done|]. tauto. }
  destruct (evict_loop_spec (S (hist_used h)) (length s) h es Hr) as (h1 & k & E & Hr1 & Hfit & Hmin & Hon & Hnav).
  { unfold CLI_CMD_BUFFER_SIZE, CLI_HISTORY_BUFFER_SIZE in *. lia. }
  { rewrite (hr_used _ _ Hr). pose proof (packed_ge es). lia. }
  rewrite E. cbn [mbind option_bind]. pose proof Hr1 as [Hl1 Hu1 _ Hb1 Hok1].
  rewrite Hl1, (proj2 (Nat.leb_le _ _) Hfit). eexists. split_and!; [done|done|done|].
  rewrite decide_False.
  2:{ intros [->|[?|?]]; [by apply E0|lia|done]. }
  exists k. split.
  - split; simpl.
    + rewrite length_splice; [done|]. rewrite length_app. simpl. lia.
    + rewrite packed_app, length_app, <-Hu1. unfold packed. simpl. rewrite app_nil_r, length_app. simpl. lia.
    + lia.
    + unfold splice. rewrite packed_app, <-Hb1, app_assoc. unfold packed. simpl. rewrite app_nil_r.
      apply take_app_length'. rewrite !length_app, length_take. simpl. lia.
    + apply Forall_app. split; [done|]. constructor; [|done]. split; [done|lia].
  - intros j Hj. specialize (Hmin j Hj). rewrite packed_app, length_app. unfold packed at 2. simpl.
    rewrite app_nil_r, length_app. simpl. lia.
Qed.

(** ** The properties *)

Section properties.
Context {W : Type} `{Port W}.
Implicit Types (sh : cli_instance W).

(** Recalling an older line: with [n] entries the first Up shows the
    newest, each further Up the one before it and the oldest stays; the line is
    loaded whole, in bounds, with the cursor at its end, and repainted.  An empty
    history changes nothing. *)
Theorem cli_history_prev_correct sh es nav :
  hist_rep (his sh) es -> nav_rep (his sh) es nav -> length (line (inp sh)) = CLI_CMD_BUFFER_SIZE ->
  exists sh', cli_history_prev sh = Some sh' /\
    match nav_prev (length es) nav with
    | Some i => if decide (nav = Some i) then sh' = sh else recalled sh sh' es i
    | None => sh' = sh
    end.
Proof. intros. by apply history_prev_spec. Qed.

(** Recalling a newer line: Down shows the entry after the recalled one,
    and past the newest returns to an empty live line; on the live line it does
    nothing. *)
Theorem cli_history_next_correct sh es nav :
  hist_rep (his sh) es -> nav_rep (his sh) es nav -> length (line (inp sh)) = CLI_CMD_BUFFER_SIZE ->
  exists sh', cli_history_next sh = Some sh' /\
    match nav, nav_next (length es) nav with
    | None, _ => sh' = sh
    | Some _, Some i => recalled sh sh' es i
    | Some _, None =>
        exists i' h', sh' = cli_edit_redraw (set_inp i' (set_his h' sh)) /\ holds_line i' [] /\
          hist_rep h' es /\ nav_rep h' es None
    end.
Proof. intros. by apply history_next_spec. Qed.
End properties.

(** Recording a submitted line: empty and overlong lines are not
    recorded, nor is a repeat of the newest; any other line becomes the newest
    entry, in bounds, and exactly as many of the oldest entries as it needs the
    room of are evicted.  The recall position is not touched. *)
Theorem cli_history_add_correct h es s :
  hist_rep h es -> no_nul s ->
  exists h', cli_history_add s h = Some h' /\ hist_nav_on h' = hist_nav_on h /\ hist_nav h' = hist_nav h /\
    if decide (s = [] \/ (CLI_CMD_BUFFER_SIZE <= length s)%nat \/ last es = Some s) then h' = h
    else exists k, hist_rep h' (drop k es ++ [s]) /\
           (forall j, (j < k)%nat -> (CLI_HISTORY_BUFFER_SIZE < length (packed (drop j es ++ [s])))%nat).
Proof. intros. by apply history_add_spec. Qed.

(** ** Examples *)

Module HistoryExample.
Import Loopback.

Definition ring (es : list (list Z)) (on : bool) (off : nat) : history :=
  History (packed es ++ replicate (CLI_HISTORY_BUFFER_SIZE - length (packed es)) 0) (length (packed es)) on off.

Lemma ring_rep es on off : (length (packed es) <= CLI_HISTORY_BUFFER_SIZE)%nat -> Forall entry_ok es ->
  hist_rep (ring es on off) es.
Proof.
  intros Hl Hok. split; [|done|done| |done]; simpl.
  - rewrite length_app, length_replicate. lia.
  - apply take_app_length.
Qed.

Definition lines : list (list Z) := [str "led on"; str "echo x"; str "log"].
Lemma lines_ok : Forall entry_ok lines.
Proof. repeat constructor; (apply Nat.ltb_lt; reflexivity) || done. Qed.

(** On the middle entry, one step up and one step down. *)
Lemma cli_history_prev_correct_witness :
  exists sh', cli_history_prev (demo [] [] (ring lines true 7)) = Some sh' /\
    recalled (demo [] [] (ring lines true 7)) sh' lines 0.
Proof.
  apply (cli_history_prev_correct (demo [] [] (ring lines true 7)) lines (Some 1%nat)).
  - apply ring_rep; [apply Nat.leb_le; reflexivity|apply lines_ok].
  - split_and!; [apply Nat.ltb_lt; reflexivity|reflexivity|reflexivity].
  - reflexivity.
Defined.

Lemma cli_history_next_correct_witness :
  exists sh', cli_history_next (demo [] [] (ring lines true 7)) = Some sh' /\
    recalled (demo [] [] (ring lines true 7)) sh' lines 2.
Proof.
  apply (cli_history_next_correct (demo [] [] (ring lines true 7)) lines (Some 1%nat)).
  - apply ring_rep; [apply Nat.leb_le; reflexivity|apply lines_ok].
  - split_and!; [apply Nat.ltb_lt; reflexivity|reflexivity|reflexivity].
  - reflexivity.
Defined.

(** A full ring: three entries of 150, 150 and 200 bytes; 20 more evict one. *)
Definition full : list (list Z) := [replicate 150 97; replicate 150 98; replicate 200 99].
Lemma cli_history_add_correct_witness :
  exists h', cli_history_add (replicate 20 100) (ring full false 0) = Some h' /\ hist_nav_on h' = false /\ hist_nav h' = 0%nat /\
    exists k, hist_rep h' (drop k full ++ [replicate 20 100]) /\
      (forall j, (j < k)%nat -> (CLI_HISTORY_BUFFER_SIZE < length (packed (drop j full ++ [replicate 20 100%Z])))%nat).
Proof.
  apply (cli_history_add_correct (ring full false 0) full (replicate 20 100)).
  - apply ring_rep; [apply Nat.leb_le; reflexivity|].
    repeat (apply Forall_cons_2; [split; [apply Forall_replicate; done|split; apply Nat.ltb_lt; reflexivity]|]).
    apply Forall_nil_2.
  - apply Forall_replicate. done.
Defined.
End HistoryExample.
