(* ===== verification/Complete.v ===== *)
(** * Tab completion ([src/shell/core/cli_complete.c])

    The word before the cursor is completed against the command set that the
    words before it select.  The line is read, never cut, by the search; what is
    inserted is the rest of the only candidate or the longest common prefix of
    the candidates, and a second Tab lists them. *)

From S2P Require Import Prelude Parse Instance Redraw.
Local Open Scope Z_scope.

Section complete.
Context {W : Type} `{Port W} (roots : list cli_cmd).
Implicit Types (c : console W) (sh : cli_instance W).

(** [struct cmd_set]: the entries from [base], and the way their array ends. *)
Record cmd_set : Type := CmdSet { base : list cli_cmd; is_root : bool }.

Definition bel sh : cli_instance W := on_con (fun c => (cli_write [7] c).2) sh.

Definition complete_cols sh : Z := edit_cols sh.
Definition c_csi_n := @e_csi_n W _.

(** [complete_word_start], from [cur]. *)
Fixpoint complete_word_start (l : list Z) (i : nat) : nat :=
  match i with
  | O => O
  | S j =>
      match l !! j with
      | Some c => if negb (c =? SPACE) && negb (c =? TAB) then complete_word_start l j else i
      | None => i
      end
  end.

(** The loops of [next_ro_token]; [b] is whether they run over blanks. *)
Fixpoint ro_scan (fuel : nat) (blanks : bool) (l : list Z) (i limit : nat) : nat :=
  match fuel with
  | O => i
  | S k =>
      match l !! i with
      | Some c => if (i <? limit)%nat && Bool.eqb (is_space c) blanks then ro_scan k blanks l (S i) limit else i
      | None => i
      end
  end.

(** The token's begin and length, and the new position. *)
Definition next_ro_token (l : list Z) (pos limit : nat) : option (nat * nat) * nat :=
  let i := ro_scan (limit - pos) true l pos limit in
  if (limit <=? i)%nat then (None, i)
  else
    let e := ro_scan (limit - i) false l i limit in
    (Some (i, e - i)%nat, e).

(** Length-bounded exact matches. *)
Definition ro_match_root (s : list Z) : option cli_cmd := match_root roots s.
Definition ro_match_sub (set : list cli_cmd) (s : list Z) : option cli_cmd := match_sub set s.

(** [set_next]: the next named entry, and the entries after it. *)
Fixpoint set_next (root : bool) (l : list cli_cmd) : option (cli_cmd * list cli_cmd) :=
  match l with
  | [] => None
  | c :: l => match name c with
              | Some _ => Some (c, l)
              | None => if root then set_next root l else None
              end
  end.

(** The walk of [resolve_set] over the tokens before the word; [None] is its
    return 0. *)
Fixpoint resolve_walk (fuel : nat) (l : list Z) (pos ws : nat) (cmd : option cli_cmd) : option (option cli_cmd) :=
  match fuel with
  | O => None
  | S k =>
      let '(t, pos) := next_ro_token l pos ws in
      match t with
      | None => Some cmd
      | Some (tb, tl) =>
          let m := match cmd with
                   | None => ro_match_root (slice tb tl l)
                   | Some c => ro_match_sub (default [] (subcmds c)) (slice tb tl l)
                   end in
          match m with
          | Some m => if decide (subcmds m = None) then None else resolve_walk k l pos ws (Some m)
          | None => None
          end
      end
  end.
Definition resolve_set (l : list Z) (ws : nat) : option cmd_set :=
  cmd ← resolve_walk (S ws) l 0 ws None;
  match cmd with
  | None => Some (CmdSet roots true)
  | Some c => Some (CmdSet (default [] (subcmds c)) false)
  end.

(** [strncmp(c->name, prefix, plen) == 0]. *)
Definition name_of (c : cli_cmd) : list Z := default [] (name c).
Definition matches (prefix : list Z) (c : cli_cmd) : bool := bool_decide (take (length prefix) (name_of c) = prefix).

(** The inner loop of [scan_candidates], on the two tails. *)
Fixpoint common_len (lcp : nat) (a b : list Z) : nat :=
  match lcp, a, b with
  | S n, x :: a, y :: b => if x =? y then S (common_len n a b) else O
  | _, _, _ => O
  end.

(** [scan_candidates]: the count, the first match, the length of the common
    prefix beyond the typed one. *)
Fixpoint scan_loop (fuel : nat) (root : bool) (l : list cli_cmd) (prefix : list Z)
    (count : nat) (first : option cli_cmd) (lcp : nat) : nat * option cli_cmd * nat :=
  match fuel with
  | O => (count, first, lcp)
  | S k =>
      match set_next root l with
      | None => (count, first, lcp)
      | Some (c, l) =>
          if negb (matches prefix c) then scan_loop k root l prefix count first lcp
          else
            match first with
            | None => scan_loop k root l prefix (S count) (Some c) (length (name_of c) - length prefix)
            | Some f =>
                let n := common_len lcp (drop (length prefix) (name_of c)) (drop (length prefix) (name_of f)) in
                scan_loop k root l prefix (S count) first n
            end
      end
  end.
Definition scan_candidates (s : cmd_set) (prefix : list Z) : nat * option cli_cmd * nat :=
  scan_loop (S (length (base s))) (is_root s) (base s) prefix 0 None 0.

(** [insert_at_cursor]: whether it inserted. *)
Definition insert_at_cursor (src : list Z) sh : option (bool * cli_instance W) :=
  let i := inp sh in
  let n := length src in
  if (n =? 0)%nat then Some (true, sh)
  else if (CLI_CMD_BUFFER_SIZE - 1 <? len i + n)%nat then Some (false, bel sh)
  else
    l ← buf_move (cur i + n) (cur i) (len i - cur i) (line i);
    l ← buf_copy (cur i) src l;
    l ← buf_set l (len i + n) 0;
    Some (true, set_inp (Input l (len i + n) (cur i + n)) sh).

(** ** The list *)

(** Pass 1. *)
Fixpoint longest_name (fuel : nat) (root : bool) (l : list cli_cmd) (prefix : list Z) (longest : nat) : nat :=
  match fuel with
  | O => longest
  | S k =>
      match set_next root l with
      | None => longest
      | Some (c, l) =>
          longest_name k root l prefix
            (if matches prefix c && (longest <? length (name_of c))%nat then length (name_of c) else longest)
      end
  end.

(** Pass 2: the names, padded to [colw], [per_row] of them in a row. *)
Fixpoint list_names (fuel : nat) (root : bool) (l : list cli_cmd) (prefix : list Z) (colw per_row : Z) (n : Z) c
    : Z * console W :=
  match fuel with
  | O => (n, c)
  | S k =>
      match set_next root l with
      | None => (n, c)
      | Some (cmd, l) =>
          if negb (matches prefix cmd) then list_names k root l prefix colw per_row n c
          else
            let c := out_str (name_of cmd) c in
            let n := n + 1 in
            let c := if n mod per_row =? 0 then out_str CRLF c
                     else out_str (replicate (Z.to_nat (colw - Z.of_nat (length (name_of cmd)))) 32) c in
            list_names k root l prefix colw per_row n c
      end
  end.

Definition show_list (s : cmd_set) (prefix : list Z) sh : cli_instance W :=
  let cols := complete_cols sh in
  let longest := longest_name (S (length (base s))) (is_root s) (base s) prefix 0 in
  if (longest =? 0)%nat then sh
  else
    let colw := Z.of_nat longest + 2 in
    let colw := if cols <? colw then cols else colw in
    let per_row := cols / colw in
    let per_row := if per_row =? 0 then 1 else per_row in
    match cli_lock (env (con sh)) with
    | None => on_con (set_tx_failed true) sh
    | Some w =>
        let c := set_env w (con sh) in
        let r := rend sh in
        let c := if 0 <? old_rows r then
                   let down := u32 (old_rows r - 1 - draw_row r) in
                   if down =? 0 then c else c_csi_n down 66 c
                 else c in
        let c := out_str CRLF c in
        let '(n, c) := list_names (S (length (base s))) (is_root s) (base s) prefix colw per_row 0 c in
        let c := if n mod per_row =? 0 then c else out_str CRLF c in
        let c := cli_out_end (cli_out_flush c) in
        cli_edit_redraw (set_rend (Render 0 0 (render_dirty r)) (set_con c sh))
    end.

(** ** The Tab key *)

Definition cli_tab_complete sh : option (cli_instance W) :=
  let i := inp sh in
  let ws := complete_word_start (line i) (cur i) in
  let prefix := slice ws (cur i - ws) (line i) in
  match resolve_set (line i) ws with
  | None => Some (bel (set_tab_list_armed false sh))
  | Some s =>
      let '(count, first, lcp) := scan_candidates s prefix in
      let rest := match first with Some f => drop (length prefix) (name_of f) | None => [] end in
      if (count =? 0)%nat then Some (bel (set_tab_list_armed false sh))
      else if (count =? 1)%nat then
        '(ok, sh) ← insert_at_cursor rest (set_tab_list_armed false sh);
        '(_, sh) ← (if ok && (cur (inp sh) =? len (inp sh))%nat then insert_at_cursor [SPACE] sh
                    else Some (true, sh));
        Some (cli_edit_redraw sh)
      else
        '(extended, sh) ← (if (0 <? lcp)%nat then insert_at_cursor (take lcp rest) sh else Some (false, sh));
        if extended : bool then Some (set_tab_list_armed true (cli_edit_redraw sh))
        else if tab_list_armed sh then Some (show_list s prefix sh)
        else
          let sh := set_tab_list_armed true sh in
          Some (if (lcp =? 0)%nat then bel sh else sh)
  end.
End complete.

(** ** The candidates *)

Section candidates.
Implicit Types (l : list cli_cmd) (prefix : list Z).

(** The entries an array shows: those before its terminator, for the root array
    (which has none) those that are named. *)
Fixpoint entries (root : bool) l : list cli_cmd :=
  match l with
  | [] => []
  | c :: l => match name c with
              | Some _ => c :: entries root l
              | None => if root then entries root l else []
              end
  end.
Definition candidates (s : cmd_set) prefix : list cli_cmd := List.filter (matches prefix) (entries (is_root s) (base s)).

Lemma set_next_entries root l :
  match set_next root l with
  | None => entries root l = []
  | Some (c, l') => entries root l = c :: entries root l' /\ (length l' < length l)%nat
  end.
Proof.
  induction l as [|c l IH]; [done|]. simpl. destruct (name c); [split; [done|lia]|].
  destruct root; [|done]. destruct (set_next true l) as [[c' l']|]; [|done]. destruct IH as [-> ?]. split; [done|lia].
Qed.

(** [n] characters of the names beyond the prefix agree with those of [f]. *)
Definition agree (k n : nat) (f m : cli_cmd) : Prop := take n (drop k (name_of m)) = take n (drop k (name_of f)).

(** The largest such [n], up to the rest of [f]. *)
Definition longest_common (k : nat) (f : cli_cmd) (ms : list cli_cmd) (n : nat) : Prop :=
  (n <= length (drop k (name_of f)))%nat /\ (forall m, m ∈ ms -> agree k n f m) /\
  (forall n', (n' <= length (drop k (name_of f)))%nat -> (forall m, m ∈ ms -> agree k n' f m) -> (n' <= n)%nat).

Lemma common_len_spec k : forall a b, (k <= length b)%nat ->
  (common_len k a b <= k)%nat /\ take (common_len k a b) a = take (common_len k a b) b /\
  (forall n, (n <= k)%nat -> take n a = take n b -> (n <= common_len k a b)%nat).
Proof.
  induction k as [|k IH]; intros a b Hk; [split_and!; [done|done|lia]|].
  destruct b as [|y b]; [simpl in Hk; lia|]. destruct a as [|x a].
  - split_and!; [simpl; lia|done|]. intros [|n] _ E; [lia|done].
  - simpl. destruct (Z.eqb_spec x y) as [->|Hne].
    + destruct (IH a b ltac:(simpl in Hk; lia)) as (H1 & H2 & H3). split_and!; [lia|simpl; by rewrite H2|].
      intros [|n] Hn E; [lia|]. injection E as E. specialize (H3 n ltac:(lia) E). lia.
    + split_and!; [lia|done|]. intros [|n] Hn E; [lia|]. by injection E as ->.
Qed.

Lemma agree_le k n n' f m : (n' <= n)%nat -> agree k n f m -> agree k n' f m.
Proof.
  unfold agree. intros Hn E. apply (f_equal (take n')) in E. rewrite !take_take, !Nat.min_l in E by lia. done.
Qed.

(** One more candidate. *)
Lemma longest_common_snoc k f ms m lcp : longest_common k f ms lcp ->
  longest_common k f (ms ++ [m]) (common_len lcp (drop k (name_of m)) (drop k (name_of f))).
Proof.
  intros (Hl & Hag & Hmax). destruct (common_len_spec lcp (drop k (name_of m)) (drop k (name_of f)) Hl) as (H1 & H2 & H3).
  split_and!; [lia| |].
  - intros m' [Hm|Hm%list_elem_of_singleton]%elem_of_app; [|by subst m'].
    eapply agree_le; [exact H1|by apply Hag].
  - intros n' Hn' Hall. apply H3; [|apply (Hall m), elem_of_app; right; apply list_elem_of_singleton; done].
    apply Hmax; [done|]. intros m' Hm. apply Hall, elem_of_app. by left.
Qed.

Lemma longest_common_one k f : longest_common k f [f] (length (name_of f) - k).
Proof. split_and!; [by rewrite length_drop| |intros n'; by rewrite length_drop]. by intros m ->%list_elem_of_singleton. Qed.

Lemma scan_loop_spec prefix root fuel : forall l ms f lcp,
  (length l < fuel)%nat ->
  (match ms with [] => f = None /\ lcp = 0%nat
   | m :: _ => f = Some m /\ longest_common (length prefix) m ms lcp end) ->
  let ms' := ms ++ List.filter (matches prefix) (entries root l) in
  exists lcp', scan_loop fuel root l prefix (length ms) f lcp = (length ms', head ms', lcp') /\
    match ms' with [] => lcp' = 0%nat | m :: _ => longest_common (length prefix) m ms' lcp' end.
Proof.
  induction fuel as [|fuel IH]; intros l ms f lcp Hf Hms; [lia|]. cbn [scan_loop].
  pose proof (set_next_entries root l) as Hnext. destruct (set_next root l) as [[c l']|].
  2:{ rewrite Hnext. cbn. rewrite app_nil_r. exists lcp. destruct ms; destruct Hms as [-> Hl]; done. }
  destruct Hnext as [-> Hlt]. cbn [List.filter]. destruct (matches prefix c) eqn:Em; cbn [negb].
  2:{ apply IH; [lia|done]. }
  replace (ms ++ c :: _) with ((ms ++ [c]) ++ List.filter (matches prefix) (entries root l')) by (by rewrite <-app_assoc).
  destruct ms as [|m ms]; destruct Hms as [-> Hl].
  - apply (IH l' [c]); [lia|]. split; [done|]. apply longest_common_one.
  - cbv zeta. replace (S (length (m :: ms))) with (length ((m :: ms) ++ [c])) by (rewrite length_app; simpl; lia).
    apply IH; [lia|]. split; [done|]. by apply (longest_common_snoc _ m (m :: ms)).
Qed.

Lemma scan_candidates_spec (s : cmd_set) prefix :
  exists lcp, scan_candidates s prefix = (length (candidates s prefix), head (candidates s prefix), lcp) /\
    match candidates s prefix with
    | [] => lcp = 0%nat
    | f :: _ => longest_common (length prefix) f (candidates s prefix) lcp
    end.
Proof. apply (scan_loop_spec prefix (is_root s) (S (length (base s))) (base s) [] None 0); [lia|done]. Qed.
End candidates.

(** ** The Tab key *)

Section tab_facts.
Context {W : Type} `{Port W} (roots : list cli_cmd).
Implicit Types (sh : cli_instance W) (p q w : list Z).

Definition blank_char (x : Z) : bool := (x =? SPACE) || (x =? TAB).
(** [w] is the word that ends at the end of [p]. *)
Definition last_word (p before w : list Z) : Prop :=
  p = before ++ w /\ Forall (fun x => blank_char x = false) w /\
  (before = [] \/ exists b x, before = b ++ [x] /\ blank_char x = true).

Lemma word_start_spec p r : exists before w,
  complete_word_start (p ++ r) (length p) = length before /\ last_word p before w.
Proof.
  revert r. induction p as [|x p IH] using rev_ind; intros r.
  { exists [], []. split_and!; [done|]. split_and!; [done|constructor|by left]. }
  rewrite length_app, Nat.add_comm. cbn [length Nat.add complete_word_start]. rewrite <-app_assoc. cbn [app].
  rewrite list_lookup_middle by done.
  destruct (negb (x =? SPACE) && negb (x =? TAB)) eqn:E.
  - destruct (IH (x :: r)) as (before & w & Hw & -> & Hb & Hbef). rewrite Hw. exists before, (w ++ [x]).
    split; [done|]. split_and!; [by rewrite app_assoc| |done].
    apply Forall_app. split; [done|]. constructor; [|constructor]. unfold blank_char. split_bools. lia.
  - exists (p ++ [x]), []. split; [rewrite length_app; simpl; lia|].
    split_and!; [by rewrite app_nil_r|constructor|]. right. exists p, x. split; [done|]. unfold blank_char. lia.
Qed.

Lemma matches_name w f : matches w f = true -> name_of f = w ++ drop (length w) (name_of f).
Proof. unfold matches. intros E%bool_decide_eq_true. rewrite <-E at 1. by rewrite take_drop. Qed.

Definition room p q (t : list Z) : bool := (length p + length q + length t <=? CLI_CMD_BUFFER_SIZE - 1)%nat.

Lemma insert_at_cursor_spec t p q sh : holds (inp sh) p q ->
  if room p q t then exists i, insert_at_cursor t sh = Some (true, set_inp i sh) /\ holds i (p ++ t) q
  else insert_at_cursor t sh = Some (false, bel sh).
Proof.
  intros Hh. pose proof (holds_fits _ _ _ Hh) as Hfit. pose proof Hh as [(r & El) Hs Hl Hc]. unfold insert_at_cursor. cbv zeta.
  unfold room. destruct (Nat.eqb_spec (length t) 0) as [Et|Et].
  { rewrite (proj2 (Nat.leb_le _ _)) by (unfold CLI_CMD_BUFFER_SIZE in *; lia). destruct t; [|done].
    exists (inp sh). rewrite app_nil_r. split; [by destruct sh|done]. }
  rewrite Hl, length_app. case_if.
  - apply Nat.leb_le in Heqb. rewrite (proj2 (Nat.ltb_ge _ _)) by lia. rewrite Hc.
    assert (Hr : (length t <= length r)%nat).
    { rewrite El, !length_app in Hs. simpl in Hs. unfold CLI_CMD_BUFFER_SIZE in *. lia. }
    assert (Hr1 : (length t < length (0%Z :: r))%nat) by (simpl; lia).
    replace (length p + length q - length p)%nat with (length q) by lia.
    rewrite El, memmove_up by lia. cbn [mbind option_bind].
    rewrite copy_in by (rewrite length_take, length_app; simpl; lia). cbn [mbind option_bind].
    destruct (drop (length t) (0 :: r)) as [|x r'] eqn:Ed.
    { apply (f_equal length) in Ed. rewrite length_drop in Ed. simpl in *. lia. }
    replace (length p + length q + length t)%nat with (length (p ++ t ++ q)) by (rewrite !length_app; lia).
    rewrite (set_end (p ++ t ++ q) x r') by (by rewrite <-!app_assoc). cbn [mbind option_bind].
    eexists. split; [done|]. split; simpl.
    + exists r'. by rewrite <-!app_assoc.
    + apply (f_equal length) in Ed. rewrite length_drop in Ed. rewrite El, !length_app in Hs. simpl in *.
      rewrite !length_app. simpl. lia.
    + by rewrite <-app_assoc.
    + by rewrite length_app.
  - apply Nat.leb_gt in Heqb. by rewrite (proj2 (Nat.ltb_lt _ _)) by lia.
Qed.

(** [sh'] is [sh] with the line [i]; besides it only what is drawn differs. *)
Definition relined sh (i : input) sh' : Prop :=
  exists r c b, sh' = set_con c (set_rend r (set_tab_list_armed b (set_inp i sh))).

Lemma relined_refl sh : relined sh (inp sh) sh.
Proof. exists (rend sh), (con sh), (tab_list_armed sh). by destruct sh. Qed.
Lemma relined_con c sh i sh' : relined sh i sh' -> relined sh i (set_con c sh').
Proof. intros (r & c' & b & ->). by exists r, c, b. Qed.
Lemma relined_rend r sh i sh' : relined sh i sh' -> relined sh i (set_rend r sh').
Proof. intros (r' & c & b & ->). by exists r, c, b. Qed.
Lemma relined_armed b sh i sh' : relined sh i sh' -> relined sh i (set_tab_list_armed b sh').
Proof. intros (r & c & b' & ->). by exists r, c, b. Qed.
Lemma relined_inp i' sh i sh' : relined sh i sh' -> relined sh i' (set_inp i' sh').
Proof. intros (r & c & b' & ->). by exists r, c, b'. Qed.
Lemma relined_bel sh i sh' : relined sh i sh' -> relined sh i (bel sh').
Proof. apply relined_con. Qed.

Lemma relined_redraw sh i sh' : relined sh i sh' -> relined sh i (cli_edit_redraw sh').
Proof.
  intros Hr. unfold cli_edit_redraw, cli_edit_refresh. cbv zeta.
  destruct (cli_lock _); [by apply relined_con, relined_rend|by apply relined_con].
Qed.
Lemma relined_list s w sh i sh' : relined sh i sh' -> relined sh i (show_list s w sh').
Proof.
  intros Hr. unfold show_list. cbv zeta. destruct (longest_name _ _ _ _ _ =? 0)%nat; [done|].
  destruct (cli_lock _); [|by apply relined_con].
  destruct (list_names _ _ _ _ _ _ _) as [n c]. by apply relined_redraw, relined_rend, relined_con.
Qed.
Lemma relined_i sh i sh' : relined sh i sh' -> inp sh' = i.
Proof. by intros (r & c & b & ->). Qed.

(** What Tab inserts at the cursor. *)
Definition tab_inserts (o : option cmd_set) (w p q t : list Z) : Prop :=
  match o with
  | None => t = []
  | Some s =>
      match candidates s w with
      | [] => t = []
      | [f] =>
          let rest := drop (length w) (name_of f) in
          name_of f = w ++ rest /\
          t = if room p q rest then rest ++ (if bool_decide (q = []) && room (p ++ rest) q [SPACE] then [SPACE] else []) else []
      | f :: _ =>
          let rest := drop (length w) (name_of f) in
          exists n, longest_common (length w) f (candidates s w) n /\ t = if room p q (take n rest) then take n rest else []
      end
  end.

Lemma room_nil p q i : holds i p q -> room p q [] = true.
Proof. intros Hh%holds_fits. unfold room. simpl. unfold CLI_CMD_BUFFER_SIZE in *. lia. Qed.

(** The only candidate: the rest of its name, and a space at the line's end. *)
Lemma complete_one rest p q sh : holds (inp sh) p q ->
  exists sh' i t,
    ('(ok, sh) ← insert_at_cursor rest (set_tab_list_armed false sh);
     '(_, sh) ← (if ok && (cur (inp sh) =? len (inp sh))%nat then insert_at_cursor [SPACE] sh else Some (true, sh));
     Some (cli_edit_redraw sh)) = Some sh' /\
    t = (if room p q rest then rest ++ (if bool_decide (q = []) && room (p ++ rest) q [SPACE] then [SPACE] else []) else []) /\
    relined sh i sh' /\ holds i (p ++ t) q.
Proof.
  intros Hh. assert (Hh0 : holds (inp (set_tab_list_armed false sh)) p q) by done.
  pose proof (insert_at_cursor_spec rest p q _ Hh0) as Hins. destruct (room p q rest).
  2:{ rewrite Hins. cbn [mbind option_bind andb].
      eexists _, (inp sh), []. rewrite app_nil_r. split_and!; [done|done| |done].
      apply relined_redraw, relined_bel, relined_armed, relined_refl. }
  destruct Hins as (i & -> & Hi). cbn [mbind option_bind andb]. set (sh1 := set_inp i _).
  assert (Hrel : relined sh i sh1) by eapply relined_inp, relined_armed, relined_refl.
  change (inp sh1) with i. rewrite (ho_cur _ _ _ Hi), (ho_len _ _ _ Hi).
  assert ((length (p ++ rest) =? length ((p ++ rest) ++ q))%nat = bool_decide (q = [])) as ->.
  { rewrite (length_app _ q). case_bool_decide as Hq; [subst q; simpl; lia|]. destruct q; [done|]. simpl. lia. }
  case_bool_decide as Hq; cbn [andb].
  2:{ eexists _, i, rest. rewrite app_nil_r. split_and!; [done|done| |done]. by apply relined_redraw. }
  pose proof (insert_at_cursor_spec [SPACE] (p ++ rest) q sh1 Hi) as Hsp. destruct (room (p ++ rest) q [SPACE]).
  - destruct Hsp as (i' & -> & Hi'). cbn [mbind option_bind]. eexists _, i', (rest ++ [SPACE]).
    split_and!; [done|done| |by rewrite app_assoc]. by eapply relined_redraw, relined_inp.
  - rewrite Hsp. cbn [mbind option_bind]. eexists _, i, rest. rewrite app_nil_r.
    split_and!; [done|done| |done]. by apply relined_redraw, relined_bel.
Qed.

(** Several: their common continuation, then the list. *)
Lemma complete_many s rest w n p q sh : holds (inp sh) p q ->
  exists sh' i,
    ('(extended, sh) ← (if (0 <? n)%nat then insert_at_cursor (take n rest) sh else Some (false, sh));
     if extended : bool then Some (set_tab_list_armed true (cli_edit_redraw sh))
     else if tab_list_armed sh then Some (show_list s w sh)
     else
       let sh := set_tab_list_armed true sh in
       Some (if (n =? 0)%nat then bel sh else sh)) = Some sh' /\
    relined sh i sh' /\ holds i (p ++ if room p q (take n rest) then take n rest else []) q.
Proof.
  intros Hh.
  assert (Hno : forall sh1, relined sh (inp sh) sh1 -> exists sh' i,
    (if tab_list_armed sh1 then Some (show_list s w sh1)
     else let sh := set_tab_list_armed true sh1 in Some (if (n =? 0)%nat then bel sh else sh)) = Some sh' /\
    relined sh i sh' /\ holds i (p ++ []) q).
  { intros sh1 Hrel. rewrite app_nil_r. destruct (tab_list_armed sh1).
    - eexists _, (inp sh). split_and!; [done| |done]. by apply relined_list.
    - eexists _, (inp sh). split_and!; [done| |done]. destruct (n =? 0)%nat; [by apply relined_bel, relined_armed|by apply relined_armed]. }
  destruct (Nat.ltb_spec 0 n) as [Hn|Hn].
  - pose proof (insert_at_cursor_spec (take n rest) p q sh Hh) as Hins. destruct (room p q _).
    + destruct Hins as (i & -> & Hi). cbn [mbind option_bind]. eexists _, i. split_and!; [done| |done].
      eapply relined_armed, relined_redraw, relined_inp, relined_refl.
    + rewrite Hins. cbn [mbind option_bind]. apply Hno, relined_bel, relined_refl.
  - assert (n = 0%nat) as -> by lia. cbn [mbind option_bind]. rewrite take_0, (room_nil _ _ _ Hh).
    apply Hno, relined_refl.
Qed.

Lemma tab_complete_spec p q sh : holds (inp sh) p q ->
  exists sh' before w t i, cli_tab_complete roots sh = Some sh' /\ last_word p before w /\
    tab_inserts (resolve_set roots (line (inp sh)) (length before)) w p q t /\
    relined sh i sh' /\ holds i (p ++ t) q.
Proof.
  intros Hh. pose proof Hh as [(r & El) Hs Hl Hc].
  destruct (word_start_spec p (q ++ 0 :: r)) as (before & w & Hw & Hlw). rewrite <-El, <-Hc in Hw.
  assert (Hpre : slice (length before) (cur (inp sh) - length before) (line (inp sh)) = w).
  { rewrite El, Hc. destruct Hlw as (-> & _ & _). rewrite length_app, <-app_assoc. unfold slice.
    rewrite drop_app_length, Nat.add_comm, Nat.add_sub. apply take_app_length. }
  unfold cli_tab_complete. cbv zeta. rewrite Hw, Hpre.
  assert (Hnone : relined sh (inp sh) (bel (set_tab_list_armed false sh)) /\ holds (inp sh) (p ++ []) q).
  { rewrite app_nil_r. split; [|done]. apply relined_bel, relined_armed, relined_refl. }
  destruct (resolve_set roots (line (inp sh)) (length before)) as [s|] eqn:Er.
  2:{ eexists _, before, w, [], (inp sh). rewrite Er. split_and!; [done|done|done|apply Hnone|apply Hnone]. }
  destruct (scan_candidates_spec s w) as (lcp & -> & Hlcp).
  destruct (candidates s w) as [|f cs] eqn:Ecs.
  { eexists _, before, w, [], (inp sh). rewrite Er. cbn. rewrite Ecs.
    split_and!; [done|done|done|apply Hnone|apply Hnone]. }
  assert (Hf : matches w f = true).
  { assert (In f (candidates s w)) as Hin by (rewrite Ecs; by left). unfold candidates in Hin. by apply filter_In in Hin as [_ ?]. }
  destruct cs as [|f2 cs]; cbn [length head Nat.eqb].
  - destruct (complete_one (drop (length w) (name_of f)) p q sh Hh) as (sh' & i & t & E & Ht & Hrel & Hi).
    exists sh', before, w, t, i. rewrite Er. split_and!; [exact E|done| |done|done].
    cbn. rewrite Ecs. cbv zeta. split; [by apply matches_name|done].
  - destruct (complete_many s (drop (length w) (name_of f)) w lcp p q sh Hh) as (sh' & i & E & Hrel & Hi).
    eexists sh', before, w, _, i. rewrite Er. split_and!; [exact E|done| |done|exact Hi].
    cbn. rewrite Ecs. cbv zeta. exists lcp. by split.
Qed.
End tab_facts.

(** ** The names of a command tree are printable text *)

Fixpoint names_ok (c : cli_cmd) : Prop :=
  match c with
  | Cmd n _ sub _ _ _ =>
      printable (default [] n) /\
      match sub with
      | None => True
      | Some l => (fix all (l : list cli_cmd) := match l with [] => True | c :: l => names_ok c /\ all l end) l
      end
  end.

Section names.
Context (roots : list cli_cmd) (Hroots : Forall names_ok roots).

Lemma names_ok_name c : names_ok c -> printable (name_of c).
Proof. by destruct c; intros [? _]. Qed.
Lemma names_ok_subs c l : names_ok c -> subcmds c = Some l -> Forall names_ok l.
Proof.
  destruct c as [n h sub hd m o]. simpl. intros [_ Hs] ->.
  induction l as [|c l IH]; [constructor|]. destruct Hs as [Hc Hl]. constructor; [done|]. by apply IH.
Qed.

Lemma match_root_elem l s c : match_root l s = Some c -> c ∈ l.
Proof.
  induction l as [|c' l IH]; [done|]. simpl. case_decide; [intros [= ->]; apply list_elem_of_here|].
  intros ?. by apply list_elem_of_further, IH.
Qed.
Lemma match_sub_elem l s c : match_sub l s = Some c -> c ∈ l.
Proof.
  induction l as [|c' l IH]; [done|]. simpl. destruct (name c'); [|done].
  case_decide; [intros [= ->]; apply list_elem_of_here|]. intros ?. by apply list_elem_of_further, IH.
Qed.

Lemma resolve_walk_names fuel l : forall pos ws cmd r, (forall c, cmd = Some c -> names_ok c) ->
  resolve_walk roots fuel l pos ws cmd = Some r -> forall c, r = Some c -> names_ok c.
Proof.
  induction fuel as [|k IH]; intros pos ws cmd r Hc E; [done|]. cbn [resolve_walk] in E.
  destruct (next_ro_token l pos ws) as [[[tb tl]|] pos'].
  2:{ injection E as <-. exact Hc. }
  destruct (match cmd with None => _ | Some c => _ end) as [m|] eqn:Em; [|done].
  destruct (decide (subcmds m = None)); [done|].
  eapply IH; [|exact E]. intros c [= ->]. destruct cmd as [c0|].
  - apply match_sub_elem in Em. destruct (subcmds c0) as [l0|] eqn:El; [|by apply elem_of_nil in Em].
    eapply Forall_forall; [|exact Em]. eapply names_ok_subs; [by apply Hc|done].
  - apply match_root_elem in Em. by eapply Forall_forall.
Qed.

Lemma resolve_set_names l ws s : resolve_set roots l ws = Some s -> Forall names_ok (base s).
Proof.
  unfold resolve_set. destruct (resolve_walk _ _ _ _ _ _) as [[c|]|] eqn:E; cbn [mbind option_bind]; [| |done]; intros [= <-].
  - assert (Hc : names_ok c) by (eapply (resolve_walk_names _ _ _ _ None); [|exact E|]; done).
    simpl. destruct (subcmds c) as [l0|] eqn:El; [|constructor]. by eapply names_ok_subs.
  - exact Hroots.
Qed.

Lemma candidates_names s w f : Forall names_ok (base s) -> f ∈ candidates s w -> names_ok f.
Proof.
  intros Hs Hf. unfold candidates in Hf. apply list_elem_of_In, filter_In in Hf as [Hf _]. apply list_elem_of_In in Hf.
  revert Hf. generalize (is_root s). induction (base s) as [|c l IH]; intros root Hf; [by apply elem_of_nil in Hf|].
  apply Forall_cons in Hs as [Hc Hl]. simpl in Hf. destruct (name c).
  - apply elem_of_cons in Hf as [->|Hf]; [done|]. by eapply IH.
  - destruct root; [by eapply IH|by apply elem_of_nil in Hf].
Qed.

Lemma tab_inserts_printable l ws w p q t : tab_inserts (resolve_set roots l ws) w p q t -> printable t.
Proof.
  unfold tab_inserts. destruct (resolve_set roots l ws) as [s|] eqn:Er; [|by intros ->].
  apply resolve_set_names in Er. destruct (candidates s w) as [|f cs] eqn:Ecs; [by intros ->|].
  assert (Hf : printable (drop (length w) (name_of f))).
  { apply Forall_drop, names_ok_name, (candidates_names s w); [done|]. rewrite Ecs. apply list_elem_of_here. }
  destruct cs.
  - intros [_ ->]. destruct (room _ _ _); [|constructor]. apply Forall_app. split; [done|].
    destruct (_ && _); [|constructor]. repeat constructor; done.
  - intros (n & _ & ->). destruct (room _ _ _); [by apply Forall_take|constructor].
Qed.
End names.

(** ** The properties *)

(** The search over a command set, terminated or compacted around NULL
    names: it counts exactly the named entries that start with the prefix,
    returns the first of them, and the longest continuation of the prefix that
    they all share. *)
Theorem scan_candidates_correct (s : cmd_set) prefix :
  exists lcp, scan_candidates s prefix = (length (candidates s prefix), head (candidates s prefix), lcp) /\
    match candidates s prefix with
    | [] => lcp = 0%nat
    | f :: _ => longest_common (length prefix) f (candidates s prefix) lcp
    end.
Proof. apply scan_candidates_spec. Qed.

(** Tab, on any line and with the cursor anywhere: it comes back without an
    access outside the line, and all it does to the line is to insert, at the
    cursor, what completes the word before it -- the rest of the only
    candidate's name, and a space at the end of the line; the longest common
    continuation of several candidates; nothing when there is none, when the
    words before do not lead to a set of subcommands, or when it does not fit. *)
Theorem cli_tab_complete_correct {W : Type} `{Port W} (roots : list cli_cmd) p q (sh : cli_instance W) :
  holds (inp sh) p q ->
  exists sh' before w t i, cli_tab_complete roots sh = Some sh' /\ last_word p before w /\
    tab_inserts (resolve_set roots (line (inp sh)) (length before)) w p q t /\
    relined sh i sh' /\ holds i (p ++ t) q.
Proof. apply tab_complete_spec. Qed.

Module CompleteExample.
Import Loopback.

Definition tree : list cli_cmd := [cmd_led; cmd_echo].
Lemma cli_tab_complete_correct_witness :
  exists sh' before w t i, cli_tab_complete tree (demo (str "led o") [] (History [] 0 false 0)) = Some sh' /\
    last_word (str "led o") before w /\
    tab_inserts (resolve_set tree (line (inp (demo (str "led o") [] (History [] 0 false 0)))) (length before)) w (str "led o") [] t /\
    relined (demo (str "led o") [] (History [] 0 false 0)) i sh' /\ holds i (str "led o" ++ t) [].
Proof. apply (cli_tab_complete_correct tree (str "led o") []). split; [eexists|..]; reflexivity. Defined.

(** "led o" has two continuations and nothing to insert; "ec" has one. *)
Example tab_echo : option_map (fun sh => take 6 (line (inp sh))) (cli_tab_complete tree (demo (str "ec") [] (History [] 0 false 0))) =
  Some (str "echo " ++ [0]).
Proof. vm_compute. reflexivity. Qed.
End CompleteExample.
