(* ===== verification/Session.v ===== *)
(** * The line pipeline ([src/shell/core/cli_session.c])

    A submitted line is recorded, cut at its top-level semicolons, and each
    segment is put in the background or parsed and run; then the editor is reset
    and the prompt written.  Command handlers and background jobs are the
    interface [Commands]; the parser is [Parse], the history [History]. *)

From S2P Require Import Prelude Fmt Parse Instance Redraw History.
Local Open Scope Z_scope.

Definition CLI_DISPATCH_ERR : Z := -1.
Definition CLI_DISPATCH_CANCELLED : Z := -2.

(** What runs behind the dispatcher: the registered commands' handlers, which
    get their argv as strings, and the background jobs ([cli_job.c]).  They work
    on the console; none of them has access to the editor. *)
Class Commands (W : Type) := {
  root_cmds : list cli_cmd;
  run_handler : nat -> list (list Z) -> console W -> Z * console W;
  cli_jobs_reap : console W -> console W;
  cli_job_launch : list Z -> console W -> console W;
}.

Section session.
Context {W : Type} `{Port W} `{Commands W}.
Implicit Types (c : console W) (sh : cli_instance W).

Definition cli_session_reset_state sh : option (cli_instance W) :=
  l ← buf_set (line (inp sh)) 0 0;
  let c := con sh in
  Some (Instance_ (Input l 0 0) (History (hist (his sh)) 0 false 0) (Escape CLI_RX_NORMAL 0 0 0 false)
          (Render 0 0 false) false false (bs_swap sh) CLI_TERM_WIDTH false false (prompt sh)
          (Console [] false false false (last_result c) (fg c) (env c))).

Definition cli_prompt sh : cli_instance W := on_con (fun c => (cli_write (prompt sh) c).2) sh.

(** ** One segment *)

(** The strings of [argv[first .. first + n)] in the parsed buffer. *)
Fixpoint argv_strings (buf : list Z) (argv : list (option nat)) (first n : nat) : option (list (list Z)) :=
  match n with
  | O => Some []
  | S k =>
      a ← argv !! first;
      o ← a;
      s ← cstr buf o;
      r ← argv_strings buf argv (S first) k;
      Some (s :: r)
  end.

(** The command path of the usage line, in [path[CLI_CMD_BUFFER_SIZE]]. *)
Fixpoint join_path (ws : list (list Z)) : list Z :=
  match ws with
  | [] => []
  | [w] => w
  | w :: ws => w ++ [SPACE] ++ join_path ws
  end.
Definition usage_path (ws : list (list Z)) : list Z := take (CLI_CMD_BUFFER_SIZE - 1) (join_path ws).

Definition say (fmt : list Z) (arg : list (list Z)) c : option (console W) :=
  '(_, c) ← cli_error (fmt ++ CRLF) (map (fun s => VStr (Some s)) arg) c;
  Some (set_last_result CLI_DISPATCH_ERR c).

(** [cli_dispatch_segment]: the console, and the segment as the parser left it
    (a failed parse leaves the segment half rewritten; nothing reads it). *)
Definition cli_dispatch_segment (seg : list Z) c : option (console W * list Z) :=
  let c := set_tx_failed false c in
  r ← cli_parse root_cmds seg (replicate CLI_ARGV_CAP None);
  let seg := from_option fst seg (r_mem r) in
  let argv := from_option snd [] (r_mem r) in
  let o := r_out r in
  let arg0 := (first ← out_argv o; argv_strings seg argv first 1) in
  c ← match r_status r with
      | CLI_PARSE_OK =>
          cmd ← out_cmd o;
          h ← handler cmd;
          first ← out_argv o;
          args ← argv_strings seg argv first (out_argc o);
          let c := if fg c then c else set_cancel_req false c in
          let '(ret, c) := run_handler h args (set_dispatching true c) in
          let c := set_dispatching false c in
          Some (set_last_result (if (ret =? 0) && tx_failed c then CLI_DISPATCH_ERR else ret) c)
      | CLI_PARSE_EMPTY => Some c
      | CLI_PARSE_NOT_FOUND => a ← arg0; say (str "%s: command not found") a c
      | CLI_PARSE_NO_HANDLER => a ← arg0; say (str "%s: missing or unknown subcommand") a c
      | CLI_PARSE_WRONG_ARGS =>
          a ← arg0;
          c ← say (str "%s: invalid number of arguments") a c;
          match out_cmd o ≫= help with
          | Some help =>
              path ← argv_strings seg argv 0 (out_level o);
              '(_, c) ← cli_print (str "usage: %s  (%s)" ++ CRLF) [VStr (Some (usage_path path)); VStr (Some help)] c;
              Some (set_last_result CLI_DISPATCH_ERR c)
          | None => Some c
          end
      | CLI_PARSE_TOO_MANY_TOKENS => say (str "too many arguments") [] c
      | CLI_PARSE_NESTING_TOO_DEEP => say (str "command nesting too deep") [] c
      | CLI_PARSE_UNTERMINATED_QUOTE => say (str "unterminated quote") [] c
      end;
  Some (c, seg).

(** ** The line *)

(** [while ((seg = cli_next_segment(&cursor)) != NULL)]; a segment is the part
    of the line up to its NUL. *)
Fixpoint segment_loop (fuel : nat) (buf : list Z) (cursor : option nat) c : option (list Z * console W) :=
  match fuel with
  | O => None
  | S k =>
      '(buf, cursor, p) ← cli_next_segment buf cursor;
      match p with
      | None => Some (buf, c)
      | Some p =>
          s ← cstr buf p;
          '(seg, bg) ← cli_segment_is_background (s ++ [NUL]);
          if bg : bool then
            cmd ← cstr seg 0;
            segment_loop k (splice p seg buf) cursor (cli_job_launch cmd c)
          else
            '(c, seg) ← cli_dispatch_segment seg c;
            let buf := splice p seg buf in
            if cancel_req c then Some (buf, c) else segment_loop k buf cursor c
      end
  end.

(** [while (read(tr, &b, 1) > 0)]. *)
Fixpoint discard_rx (fuel : nat) (w : W) : option W :=
  match fuel with
  | O => None
  | S k => let '(l, w) := tr_read 1 w in match l with [] => Some w | _ => discard_rx k w end
  end.

Definition report_cancel c : option (console W) :=
  if cancel_req c then
    let c := set_out_buf [] (set_tx_failed false (set_cancel_req false c)) in
    w ← discard_rx (S (rx_len (env c))) (env c);
    let '(_, c) := cli_write (str "^C" ++ CRLF) (set_env w c) in
    Some (set_last_result CLI_DISPATCH_CANCELLED c)
  else Some c.

(** The editor after a line: an empty line, a fresh render baseline. *)
Definition fresh_line (l : list Z) (c : console W) sh : cli_instance W :=
  let w := edit_cols sh in
  Instance_ (Input l 0 0) (set_nav false 0 (his sh))
    (Escape CLI_RX_NORMAL (esc_p0 (esc sh)) (esc_p1 (esc sh)) (esc_np (esc sh)) (esc_bad (esc sh)))
    (Render (u8 (Z.of_nat (length (prompt sh)) / w + 1)) 0 (render_dirty (rend sh)))
    (overwrite sh) (prev_cr sh) (bs_swap sh) (term_width sh) (probing_cpr sh) (tab_list_armed sh) (prompt sh) c.

Definition cli_dispatch_line sh : option (cli_instance W) :=
  let c := (cli_write CRLF (set_tx_failed false (con sh))).2 in
  l ← buf_set (line (inp sh)) (len (inp sh)) 0;
  let c := cli_jobs_reap c in
  h ← (if (0 <? len (inp sh))%nat then s ← cstr l 0; cli_history_add s (his sh) else Some (his sh));
  '(l, c) ← segment_loop (S (length l)) l (Some 0%nat) c;
  c ← report_cancel c;
  l ← buf_set l 0 0;
  Some (cli_prompt (fresh_line l c (set_his h sh))).
End session.

(** ** Messages *)

Section messages.
Context {W : Type} `{Port W}.
Implicit Types (c : console W).

Definition lits (s : list Z) : list item := map Literal s.
Definition IStr (s : list Z) : item := Directive false false 0 (CString (Some s)).

Lemma lits_spec s : spec_fmt (lits s) = s /\ spec_args (lits s) = [] /\ spec_text (lits s) = s.
Proof.
  unfold spec_fmt, spec_args, spec_text, lits.
  induction s as [|x s (I1 & I2 & I3)]; [done|]. simpl. by rewrite I1, I2, I3.
Qed.
Lemma lits_ok s : Forall (fun x => x <> 37) s -> Forall item_ok (lits s).
Proof. intros Hs. apply Forall_map. exact Hs. Qed.

Lemma IStr_text a : item_text (IStr a) = a.
Proof.
  unfold IStr, item_text, conv_text, padded. cbn [default].
  replace (Z.to_nat _) with 0%nat by lia. done.
Qed.

(** A message with its text, and what it leaves of the latches. *)
Definition says (color text : list Z) c c' : Prop :=
  out_buf c = [] -> tx_failed c = false ->
  exists r, call_post (color ++ text ++ match color with [] => [] | _ => CLI_VT100_RESET end) c r c'.

Lemma vemit_says color its c : Forall item_ok its ->
  exists r c', vemit color (spec_fmt its) (spec_args its) c = Some (r, c') /\ says color (spec_text its) c c'.
Proof.
  intros His. destruct (vemit_total color its c His) as (r & c' & E). exists r, c'. split; [done|].
  intros Hb Hf. destruct (vemit_spec color its c His Hb Hf) as (r2 & c2 & E2 & Hp). rewrite E in E2.
  injection E2 as <- <-. by exists r.
Qed.

(** The error messages: a word, if the message names one, and a text. *)
Lemma say_spec (arg : list (list Z)) (text : list Z) c :
  Forall (fun x => x <> 37) text -> (length arg <= 1)%nat ->
  exists c1, say ((match arg with [] => [] | _ => str "%s" end) ++ text) arg c = Some (set_last_result CLI_DISPATCH_ERR c1) /\
    says CLI_VT100_RED (concat arg ++ text ++ CRLF) c c1.
Proof.
  intros Ht Ha. set (its := map IStr arg ++ lits (text ++ CRLF)).
  assert (Hok : Forall item_ok its).
  { apply Forall_app. split; [apply Forall_map, Forall_forall; intros ? _; simpl; lia|].
    apply lits_ok, Forall_app. split; [done|]. repeat constructor; done. }
  destruct (lits_spec (text ++ CRLF)) as (E1 & E2 & E3).
  destruct (vemit_says CLI_VT100_RED its c Hok) as (r & c1 & E & Hs).
  exists c1. unfold say, cli_error. unfold its in *. clear its.
  destruct arg as [|a [|]]; simpl in Ha; [| |lia];
    cbn [map app] in *; unfold spec_fmt, spec_args, spec_text in *; cbn [map concat app] in *;
    rewrite ?E1, ?E2, ?E3, ?app_nil_r in *.
  - rewrite E. done.
  - change (item_spec (IStr a)) with (str "%s") in E. rewrite app_assoc in E. cbn [map].
    change (item_args (IStr a)) with [VStr (Some a)] in E. rewrite E. split; [done|]. by rewrite IStr_text in Hs.
Qed.
End messages.

(** ** A segment, by its text *)

Section segment_spec.
Context {W : Type} `{Port W} `{Commands W}.
Implicit Types (c : console W).

(** The words select [cmd], found at word [level]. *)
Definition selects (args : list (list Z)) (cmd : cli_cmd) (level : nat) : Prop :=
  exists w ws root, args = w :: ws /\ match_root root_cmds w = Some root /\ resolve root 1 ws = (cmd, level) /\
    (1 <= level <= length args)%nat.

(** A handler run between the latches. *)
Definition ran (h : nat) (args : list (list Z)) c : console W :=
  let c := set_tx_failed false c in
  let c := if fg c then c else set_cancel_req false c in
  let '(ret, c) := run_handler h args (set_dispatching true c) in
  set_last_result (if (ret =? 0) && tx_failed c then CLI_DISPATCH_ERR else ret) (set_dispatching false c).

Definition fails (text : list Z) c c' : Prop :=
  exists c1, says CLI_VT100_RED (text ++ CRLF) (set_tx_failed false c) c1 /\ c' = set_last_result CLI_DISPATCH_ERR c1.

Inductive runs_segment (s : list Z) c : console W -> Prop :=
  | seg_blank : trim s = [] -> runs_segment s c (set_tx_failed false c)
  | seg_runs args cmd level h :
      spelled cmd level s args -> selects args cmd level -> handler cmd = Some h ->
      args_ok cmd (length args - (level - 1)) = true ->
      runs_segment s c (ran h (drop (level - 1) args) c)
  | seg_unknown w rest c' :
      words_read s [w] rest -> match_root root_cmds w = None ->
      fails (w ++ str ": command not found") c c' -> runs_segment s c c'
  | seg_no_handler args cmd level w c' :
      read_until_decided root_cmds s args -> selects args cmd level -> handler cmd = None -> args !! (level - 1)%nat = Some w ->
      fails (w ++ str ": missing or unknown subcommand") c c' -> runs_segment s c c'
  | seg_wrong_args args cmd level w c1 c2 :
      spelled cmd level s args -> selects args cmd level -> handler cmd <> None ->
      args_ok cmd (length args - (level - 1)) = false -> args !! (level - 1)%nat = Some w ->
      fails (w ++ str ": invalid number of arguments") c c1 ->
      match help cmd with
      | Some h => says [] (str "usage: " ++ usage_path (take level args) ++ str "  (" ++ h ++ str ")" ++ CRLF) c1 c2
      | None => c2 = c1
      end ->
      runs_segment s c (set_last_result CLI_DISPATCH_ERR c2)
  | seg_too_many c' : too_many root_cmds s -> fails (str "too many arguments") c c' -> runs_segment s c c'
  | seg_too_deep c' : too_deep root_cmds s -> fails (str "command nesting too deep") c c' -> runs_segment s c c'
  | seg_unterminated c' : open_quote root_cmds s -> fails (str "unterminated quote") c c' -> runs_segment s c c'.

Lemma argv_strings_spec buf argv args : published buf argv args -> forall n first,
  (first + n <= length args)%nat -> argv_strings buf argv first n = Some (take n (drop first args)).
Proof.
  intros (_ & offs & Ht & Hf). induction n as [|n IH]; intros first Hn; [done|]. cbn [argv_strings].
  assert (Hlt : (first < length args)%nat) by lia. apply lookup_lt_is_Some in Hlt as [a Ha].
  destruct (Forall2_lookup_r _ _ _ _ _ Hf Ha) as (o & Ho & Hat).
  assert (argv !! first = Some (Some o)) as ->.
  { rewrite <-(lookup_take_lt _ (length args)) by lia. rewrite Ht, list_lookup_fmap, Ho. done. }
  cbn [mbind option_bind]. rewrite (cstr_at_cstr _ _ _ Hat). cbn [mbind option_bind].
  rewrite IH by lia. cbn [mbind option_bind]. by rewrite (drop_S _ _ _ Ha).
Qed.

Lemma argv_first buf argv args first : published buf argv args -> (first < length args)%nat ->
  exists w, args !! first = Some w /\ argv_strings buf argv first 1 = Some [w].
Proof.
  intros Hp Hlt. rewrite (argv_strings_spec _ _ _ Hp) by lia.
  apply lookup_lt_is_Some in Hlt as [a Ha]. exists a. by rewrite (drop_S _ _ _ Ha).
Qed.

Lemma resolved_selects s r cmd root buf argv args :
  resolved root_cmds s r cmd root buf argv args ->
  exists level, selects args cmd level /\
    r_out r = ParseResult (Some cmd) (Some (level - 1)%nat) (length args - (level - 1)) level.
Proof.
  intros [(w & ws & -> & Hr) (level & Hl & Hb & Ho) _ _]. exists level. split; [|done].
  by exists w, ws, root.
Qed.

Lemma usage_text path h c :
  exists r c', cli_print (str "usage: %s  (%s)" ++ CRLF) [VStr (Some path); VStr (Some h)] c = Some (r, c') /\
    says [] (str "usage: " ++ path ++ str "  (" ++ h ++ str ")" ++ CRLF) c c'.
Proof.
  set (its := lits (str "usage: ") ++ IStr path :: lits (str "  (") ++ IStr h :: lits (str ")" ++ CRLF)).
  assert (Hok : Forall item_ok its).
  { unfold its. repeat first [apply Forall_app_2 | apply Forall_cons_2 | apply lits_ok]; simpl; try lia;
      repeat constructor; done. }
  destruct (vemit_says [] its c Hok) as (r & c' & E & Hs). exists r, c'. split; [exact E|].
  assert (Ht : spec_text its = str "usage: " ++ path ++ str "  (" ++ h ++ str ")" ++ CRLF).
  { unfold its, spec_text. rewrite map_app, concat_app. cbn [map concat]. rewrite map_app, concat_app. cbn [map concat].
    rewrite !IStr_text. reflexivity. }
  by rewrite Ht in Hs.
Qed.

Ltac text_ok := vm_compute; repeat constructor; done.
Ltac use_mem := match goal with Em : r_mem ?r = Some (?b, _), s := _ : list Z |- _ =>
  assert (s = b) by (unfold s; by rewrite Em); clearbody s; subst s end.

Lemma dispatch_segment_spec (s : list Z) c : no_nul s ->
  exists c' seg, cli_dispatch_segment (s ++ [NUL]) c = Some (c', seg) /\ length seg = S (length s) /\ runs_segment s c c'.
Proof.
  intros Hs.
  assert (Hcap : (CLI_ARGV_CAP <= length (replicate CLI_ARGV_CAP (@None nat)))%nat) by (by rewrite length_replicate).
  destruct (cli_parse_spec root_cmds s [] _ Hs Hcap) as (r & Er & Hpost).
  unfold cli_dispatch_segment. cbv zeta. rewrite Er. cbn [mbind option_bind].
  assert (Hlen : length (from_option fst (s ++ [NUL]) (r_mem r)) = S (length s)).
  { destruct (r_mem r) as [[buf argv]|] eqn:Em; simpl.
    - rewrite (cli_parse_length _ _ _ _ _ _ Er Em), length_app. simpl. lia.
    - rewrite length_app. simpl. lia. }
  set (seg := from_option fst _ _) in *. set (c0 := set_tx_failed false c).
  assert (Hsay : forall arg text, Forall (fun x => x <> 37) text -> (length arg <= 1)%nat ->
    exists c', say ((match arg with [] => [] | _ => str "%s" end) ++ text) arg c0 = Some c' /\ fails (concat arg ++ text) c c').
  { intros arg text Ht Ha. destruct (say_spec arg text c0 Ht Ha) as (c1 & E & Hsays). eexists. split; [exact E|].
    exists c1. by rewrite <-app_assoc. }
  assert (Hdone : forall (o : option (console W)) c', o = Some c' -> runs_segment s c c' ->
    exists c' seg', (c ← o; Some (c, seg)) = Some (c', seg') /\ length seg' = S (length s) /\ runs_segment s c c').
  { intros o c' -> Hrun. by exists c', seg. }
  unfold parse_post in Hpost. destruct (r_status r) eqn:Est.
  - destruct Hpost as (cmd & root & buf & argv & args & Hres & Hh & Hst & Hsp).
    destruct (resolved_selects _ _ _ _ _ _ _ Hres) as (level & Hsel & Ho).
    pose proof (res_mem _ _ _ _ _ _ _ _ Hres) as Em. pose proof (res_args _ _ _ _ _ _ _ _ Hres) as Hp.
    rewrite Ho in Hsp. destruct (handler cmd) as [h|] eqn:Eh; [|done]. use_mem. rewrite Em, Ho in *. cbn [from_option fst snd].
    cbn [out_cmd out_argv out_argc mbind option_bind]. rewrite Eh. cbn [mbind option_bind].
    pose proof Hsel as (w & ws & root' & _ & _ & _ & Hlev).
    rewrite (argv_strings_spec _ _ _ Hp) by lia. cbn [mbind option_bind].
    rewrite take_ge by (rewrite length_drop; lia).
    match goal with |- context [mbind (M := option) _ ?o] =>
      assert (Eo : o = Some (ran h (drop (level - 1) args) c)) by (unfold ran; fold c0; cbv zeta; destruct (run_handler h _ _) as [ret c1]; reflexivity) end.
    eapply Hdone; [exact Eo|]. apply (seg_runs s c args cmd level h); [done|done|done|]. by apply Hst.
  - apply (Hdone (Some c0) c0); [done|]. apply seg_blank, Hpost.
  - destruct Hpost as (w & rest & buf & argv & Hw & Hno & Ho & Em & Hp).
    destruct (argv_first _ _ _ 0 Hp ltac:(simpl; lia)) as (w' & Hw' & Ea). injection Hw' as <-.
    use_mem. rewrite Em, Ho. cbn [from_option fst snd out_argv mbind option_bind]. rewrite Ea. cbn [mbind option_bind].
    destruct (Hsay [w] (str ": command not found")) as (c' & E & Hf); [text_ok|done|].
    simpl concat in Hf. rewrite app_nil_r in Hf. eapply Hdone; [exact E|]. by eapply seg_unknown.
  - destruct Hpost as (cmd & root & buf & argv & args & Hres & Hh & Hread).
    destruct (resolved_selects _ _ _ _ _ _ _ Hres) as (level & Hsel & Ho).
    pose proof (res_mem _ _ _ _ _ _ _ _ Hres) as Em. pose proof (res_args _ _ _ _ _ _ _ _ Hres) as Hp.
    pose proof Hsel as (w & ws & root' & Ew & Hr' & Hl' & Hlev).
    destruct (argv_first _ _ _ (level - 1) Hp ltac:(lia)) as (a & Ha & Ea).
    use_mem. rewrite Em, Ho. cbn [from_option fst snd out_argv mbind option_bind]. rewrite Ea. cbn [mbind option_bind].
    destruct (Hsay [a] (str ": missing or unknown subcommand")) as (c' & E & Hf); [text_ok|done|].
    simpl concat in Hf. rewrite app_nil_r in Hf. eapply Hdone; [exact E|]. by apply (seg_no_handler s c args cmd level a).
  - destruct Hpost as (cmd & root & buf & argv & args & Hres & Hh & Hst & Hsp).
    destruct (resolved_selects _ _ _ _ _ _ _ Hres) as (level & Hsel & Ho).
    pose proof (res_mem _ _ _ _ _ _ _ _ Hres) as Em. pose proof (res_args _ _ _ _ _ _ _ _ Hres) as Hp.
    pose proof Hsel as (w & ws & root' & Ew & Hr' & Hl' & Hlev).
    destruct (argv_first _ _ _ (level - 1) Hp ltac:(lia)) as (a & Ha & Ea).
    assert (Hbad : args_ok cmd (length args - (level - 1)) = false).
    { rewrite Ho in Hst. apply not_true_is_false. intros Hok. by apply (proj2 Hst) in Hok. }
    rewrite Ho in Hsp. use_mem. rewrite Em, Ho. cbn [from_option fst snd out_argv out_cmd out_level mbind option_bind].
    rewrite Ea. cbn [mbind option_bind].
    destruct (Hsay [a] (str ": invalid number of arguments")) as (c1 & E & Hf); [text_ok|done|].
    change (say (str "%s: invalid number of arguments") [a] c0 = Some c1) in E. rewrite E. cbn [mbind option_bind]. simpl concat in Hf. rewrite app_nil_r in Hf.
    destruct (help cmd) as [hl|] eqn:Ehl.
    + rewrite (argv_strings_spec _ _ _ Hp) by lia. cbn [mbind option_bind]. rewrite drop_0.
      destruct (usage_text (usage_path (take level args)) hl c1) as (r2 & c2 & E2 & Hs2). rewrite E2.
      cbn [mbind option_bind]. eapply (Hdone (Some _)); [done|].
      eapply seg_wrong_args; try done. rewrite Ehl. done.
    + eapply (Hdone (Some _)); [done|]. destruct Hf as (c11 & Hs1 & ->).
      eapply (seg_wrong_args s c args cmd level a (set_last_result CLI_DISPATCH_ERR c11) (set_last_result CLI_DISPATCH_ERR c11)); try done.
      * by exists c11.
      * by rewrite Ehl.
  - destruct (Hsay [] (str "too many arguments")) as (c' & E & Hf); [text_ok|simpl; lia|].
    eapply Hdone; [exact E|]. apply seg_too_many; [apply Hpost|done].
  - destruct Hpost as [Hd _].
    destruct (Hsay [] (str "command nesting too deep")) as (c' & E & Hf); [text_ok|simpl; lia|].
    eapply Hdone; [exact E|]. by eapply seg_too_deep.
  - destruct (Hsay [] (str "unterminated quote")) as (c' & E & Hf); [text_ok|simpl; lia|].
    eapply Hdone; [exact E|]. apply seg_unterminated; [apply Hpost|done].
Qed.
End segment_spec.

(** ** A line, by its text *)

(** The pieces between the top-level semicolons. *)
Fixpoint segments_up_to (n : nat) (s : list Z) : list (list Z) :=
  match n with
  | O => [s]
  | S k => match cut_segment QPlain s with Some (a, b) => a :: segments_up_to k b | None => [s] end
  end.
Definition segments (s : list Z) : list (list Z) := segments_up_to (length s) s.

(** What the background operator makes of a segment: a request as
    [src/shell/core/cli_internal.h] documents it, or a misread form. *)
Definition launches (s cmd : list Z) : Prop := background_cmd s cmd \/ misread_cmd s cmd.

Section line_spec.
Context {W : Type} `{Port W} `{Commands W}.
Implicit Types (c : console W) (sh : cli_instance W).

(** The segments in order, up to a cancel. *)
Inductive runs_segments : list (list Z) -> console W -> console W -> Prop :=
  | segs_end c : runs_segments [] c c
  | segs_launch s cmd ss c c' :
      launches s cmd -> runs_segments ss (cli_job_launch cmd c) c' -> runs_segments (s :: ss) c c'
  | segs_run s ss c c1 c' :
      foreground s -> runs_segment s c c1 -> cancel_req c1 = false -> runs_segments ss c1 c' ->
      runs_segments (s :: ss) c c'
  | segs_cancelled s ss c c1 :
      foreground s -> runs_segment s c c1 -> cancel_req c1 = true -> runs_segments (s :: ss) c c1.

Lemma splice_segment (pre s rest seg : list Z) : length seg = S (length s) ->
  splice (length pre) seg (pre ++ s ++ NUL :: rest) = (pre ++ seg) ++ rest.
Proof.
  intros Hl. unfold splice. rewrite take_app_length, Hl.
  replace (length pre + S (length s))%nat with (length (pre ++ s ++ [NUL])) by (rewrite !length_app; simpl; lia).
  replace (pre ++ s ++ NUL :: rest) with ((pre ++ s ++ [NUL]) ++ rest) by (by rewrite <-!app_assoc).
  by rewrite drop_app_length, app_assoc.
Qed.

(** The body of the loop on the segment at [p], [go] the loop on what follows. *)
Definition segment_body (go : list Z -> console W -> option (list Z * console W)) (buf : list Z) (p : nat) c :=
  s ← cstr buf p;
  '(seg, bg) ← cli_segment_is_background (s ++ [NUL]);
  if bg : bool then
    cmd ← cstr seg 0;
    go (splice p seg buf) (cli_job_launch cmd c)
  else
    '(c, seg) ← cli_dispatch_segment seg c;
    let buf := splice p seg buf in
    if cancel_req c then Some (buf, c) else go buf c.

Lemma segment_loop_S k buf cursor c :
  segment_loop (S k) buf cursor c =
    ('(buf, cursor, p) ← cli_next_segment buf cursor;
     match p with
     | None => Some (buf, c)
     | Some p => segment_body (fun b c => segment_loop k b cursor c) buf p c
     end).
Proof. done. Qed.

Lemma segment_body_spec (pre s rest : list Z) c go :
  no_nul s ->
  exists seg : list Z, length seg = S (length s) /\
  let buf' := (pre ++ seg) ++ rest in
  match segment_body go (pre ++ s ++ NUL :: rest) (length pre) c with
  | r =>
      (exists cmd, launches s cmd /\ r = go buf' (cli_job_launch cmd c)) \/
      (foreground s /\ exists c1, runs_segment s c c1 /\
         r = if cancel_req c1 then Some (buf', c1) else go buf' c1)
  end.
Proof.
  intros Hs. cbv zeta. unfold segment_body, cstr. rewrite drop_app_length, cstr_scan_app by done. cbn [mbind option_bind].
  destruct (background_spec s [] Hs) as (seg & [] & E & Hbg); rewrite E; cbn [mbind option_bind].
  - destruct Hbg as (s1 & Hat & Hno & Hcstr & Hl). apply (background_yes _ _ Hat) in Hno. rewrite length_app, Nat.add_comm in Hl. simpl in Hl.
    exists seg. split; [done|]. left. exists (rtrim s1). split; [exact Hno|].
    pose proof (cstr_at_cstr _ _ _ Hcstr) as Ec. unfold cstr in Ec. rewrite Ec. cbn [mbind option_bind].
    by rewrite splice_segment.
  - destruct Hbg as [-> Hfg]. apply background_no in Hfg. destruct (dispatch_segment_spec s c Hs) as (c1 & seg & -> & Hl & Hrun).
    exists seg. split; [done|]. right. split; [done|]. exists c1. split; [done|]. cbn [mbind option_bind].
    by rewrite splice_segment.
Qed.

Lemma segment_loop_spec n : forall (pre s post : list Z) c k,
  no_nul s -> (length s <= n)%nat -> (S n < k)%nat ->
  exists buf c', segment_loop k (pre ++ s ++ NUL :: post) (Some (length pre)) c = Some (buf, c') /\
    length buf = length (pre ++ s ++ NUL :: post) /\ runs_segments (segments_up_to n s) c c'.
Proof.
  assert (Hend : forall k (buf : list Z) c, (0 < k)%nat -> segment_loop k buf None c = Some (buf, c)) by (by intros [|k] ??; [lia|]).
  induction n as [|n IH]; intros pre s post c k Hs Hn Hk; (destruct k as [|k]; [lia|]);
    rewrite segment_loop_S; cbn [segments_up_to]; pose proof (next_segment_cut pre s post Hs) as Hcut; cbv zeta in Hcut.
  - destruct s; [|simpl in Hn; lia]. cbn [cut_segment app] in *. rewrite Hcut. cbn [mbind option_bind].
    destruct (segment_body_spec pre [] post c (fun b c => segment_loop k b None c) Hs) as (seg & Hl & [(cmd & Hla & E)|(Hfg & c1 & Hr & E)]);
      change ([] ++ NUL :: post) with (NUL :: post) in E; rewrite E; rewrite ?Hend by lia; clear E.
    + do 2 eexists. split; [done|]. split; [list_len|]. eapply segs_launch; [done|constructor].
    + exists ((pre ++ seg) ++ post), c1. destruct (cancel_req c1) eqn:Ec.
      * split; [done|]. split; [list_len|]. by apply segs_cancelled.
      * split; [done|]. split; [list_len|]. eapply segs_run; [done..|constructor].
  - destruct (cut_segment QPlain s) as [[a b]|] eqn:Eq.
    + destruct Hcut as (Hcut & -> & _). rewrite Hcut. cbn [mbind option_bind].
      apply Forall_app in Hs as [Ha Hb]. apply Forall_cons in Hb as [_ Hb].
      rewrite length_app in Hn. simpl in Hn.
      assert (Hgo : forall seg c1, length seg = S (length a) -> exists buf c',
        segment_loop k ((pre ++ seg) ++ b ++ NUL :: post) (Some (length (pre ++ a ++ [NUL]))) c1 = Some (buf, c') /\
        length buf = length (pre ++ (a ++ SEMI :: b) ++ NUL :: post) /\ runs_segments (segments_up_to n b) c1 c').
      { intros seg c1 Hl. replace (length (pre ++ a ++ [NUL])) with (length (pre ++ seg)) by list_len.
        destruct (IH (pre ++ seg) b post c1 k Hb ltac:(lia) ltac:(lia)) as (buf & c' & E & Hlb & Hr).
        exists buf, c'. split; [done|]. split; [|done]. rewrite Hlb. list_len. }
      destruct (segment_body_spec pre a (b ++ NUL :: post) c
                  (fun b c => segment_loop k b (Some (length (pre ++ a ++ [NUL]))) c) Ha)
        as (seg & Hl & [(cmd & Hla & E)|(Hfg & c1 & Hr & E)]); rewrite E; clear E.
      * destruct (Hgo seg (cli_job_launch cmd c) Hl) as (buf & c' & E & Hlb & Hr).
        exists buf, c'. split; [done|]. split; [done|]. by eapply segs_launch.
      * destruct (cancel_req c1) eqn:Ec.
        -- do 2 eexists. split; [done|]. split; [list_len|]. by apply segs_cancelled.
        -- destruct (Hgo seg c1 Hl) as (buf & c' & E & Hlb & Hr2).
           exists buf, c'. split; [done|]. split; [done|]. by eapply segs_run.
    + rewrite Hcut. cbn [mbind option_bind].
      destruct (segment_body_spec pre s post c (fun b c => segment_loop k b None c) Hs) as (seg & Hl & [(cmd & Hla & E)|(Hfg & c1 & Hr & E)]);
        rewrite E; rewrite ?Hend by lia; clear E.
      * do 2 eexists. split; [done|]. split; [list_len|]. eapply segs_launch; [done|constructor].
      * exists ((pre ++ seg) ++ post), c1. destruct (cancel_req c1) eqn:Ec.
        -- split; [done|]. split; [list_len|]. by apply segs_cancelled.
        -- split; [done|]. split; [list_len|]. eapply segs_run; [done..|constructor].
Qed.
End line_spec.

Section dispatch_line.
Context {W : Type} `{Port W} `{Commands W}.
Implicit Types (c : console W) (sh : cli_instance W).

(** The residual input is read until a read gives nothing. *)
Lemma discard_rx_total n : forall w, (rx_len w < n)%nat ->
  exists w0 w', discard_rx n w = Some w' /\ tr_read 1 w0 = ([], w').
Proof.
  induction n as [|n IH]; intros w Hn; [lia|]. cbn [discard_rx].
  destruct (tr_read 1 w) as [l w1] eqn:E. destruct l as [|x l]; [by exists w, w1|].
  apply IH. pose proof (read_len _ _ _ _ E ltac:(done)). lia.
Qed.

(** The state in which "^C" is written: the latches and the staging cleared,
    no input left. *)
Definition cancelled_post c c' : Prop :=
  exists w0 w, tr_read 1 w0 = ([], w) /\
    c' = set_last_result CLI_DISPATCH_CANCELLED
           (cli_write (str "^C" ++ CRLF)
              (set_env w (set_out_buf [] (set_tx_failed false (set_cancel_req false c))))).2.

Lemma report_cancel_spec c :
  exists c', report_cancel c = Some c' /\ if cancel_req c then cancelled_post c c' else c' = c.
Proof.
  unfold report_cancel. destruct (cancel_req c); [|by exists c].
  destruct (discard_rx_total (S (rx_len (env c))) (env c) ltac:(lia)) as (w0 & w & E & Hw0).
  change (env (set_out_buf _ _)) with (env c). rewrite E. cbn [mbind option_bind].
  destruct (cli_write _ _) as [r c2] eqn:Ew. eexists. split; [done|].
  exists w0, w. split; [done|]. by rewrite Ew.
Qed.

Definition line_text sh : list Z := take (len (inp sh)) (line (inp sh)).

(** A line submitted: what it does to the console, the history and the editor. *)
Definition submits sh es sh' : Prop :=
  let s := line_text sh in
  exists c1 c2 l h,
    runs_segments (segments s) (cli_jobs_reap (cli_write CRLF (set_tx_failed false (con sh))).2) c1 /\
    (if cancel_req c1 then cancelled_post c1 c2 else c2 = c1) /\
    length l = CLI_CMD_BUFFER_SIZE /\ l !! 0%nat = Some 0 /\
    (if decide (s = [] \/ last es = Some s) then h = his sh
     else exists k, hist_rep h (drop k es ++ [s]) /\
            (forall j, (j < k)%nat -> (CLI_HISTORY_BUFFER_SIZE < length (packed (drop j es ++ [s])))%nat)) /\
    sh' = cli_prompt (fresh_line l c2 (set_his h sh)).

Lemma dispatch_line_spec sh es :
  line_ok (inp sh) -> length (line (inp sh)) = CLI_CMD_BUFFER_SIZE -> no_nul (line_text sh) -> hist_rep (his sh) es ->
  exists sh', cli_dispatch_line sh = Some sh' /\ submits sh es sh'.
Proof.
  intros [Hcur Hlen] Hsz Hs Hr. unfold cli_dispatch_line. cbv zeta. rewrite buf_set_Some by done. cbn [mbind option_bind].
  set (l0 := <[_:=_]> _). set (s := line_text sh) in *.
  assert (Hls : length s = len (inp sh)) by (unfold s, line_text; rewrite length_take; lia).
  assert (El : l0 = s ++ NUL :: drop (S (len (inp sh))) (line (inp sh))).
  { unfold l0, s, line_text. by rewrite insert_take_drop. }
  set (c0 := cli_jobs_reap _).
  assert (Hh : exists h, (if (0 <? len (inp sh))%nat then s ← cstr l0 0; cli_history_add s (his sh) else Some (his sh)) = Some h /\
    if decide (s = [] \/ last es = Some s) then h = his sh
     else exists k, hist_rep h (drop k es ++ [s]) /\
            (forall j, (j < k)%nat -> (CLI_HISTORY_BUFFER_SIZE < length (packed (drop j es ++ [s])))%nat)).
  { destruct (Nat.ltb_spec 0 (len (inp sh))) as [Hpos|Hz].
    - unfold cstr. rewrite drop_0, El, cstr_scan_app by done. cbn [mbind option_bind].
      destruct (history_add_spec (his sh) es s Hr Hs) as (h & E & _ & _ & Hh). exists h. split; [done|].
      case_decide as Hd; case_decide as Hd'; [done| | |done]; exfalso.
      + destruct Hd as [?|[Hbig|?]]; [tauto| |tauto]. rewrite Hls in Hbig. lia.
      + tauto.
    - exists (his sh). split; [done|]. rewrite decide_True; [done|]. left. destruct s; [done|]. simpl in Hls. lia. }
  destruct Hh as (h & -> & Hh). cbn [mbind option_bind].
  assert (Hn0 : length l0 = CLI_CMD_BUFFER_SIZE) by (unfold l0; by rewrite length_insert).
  destruct (segment_loop_spec (length s) [] s (drop (S (len (inp sh))) (line (inp sh))) c0 (S (length l0)) Hs)
    as (buf & c1 & E & Hb & Hrun); [done|lia|].
  change ([] ++ ?x) with x in E. rewrite <-El in E. change (length []) with 0%nat in E. rewrite E. cbn [mbind option_bind].
  change ([] ++ ?x) with x in Hb. rewrite <-El, Hn0 in Hb.
  destruct (report_cancel_spec c1) as (c2 & -> & Hc2). cbn [mbind option_bind].
  rewrite buf_set_Some by (rewrite Hb; unfold CLI_CMD_BUFFER_SIZE; lia). cbn [mbind option_bind].
  eexists. split; [done|]. exists c1, c2, (<[0%nat:=0]> buf), h. split_and!; try done.
  - by rewrite length_insert.
  - apply list_lookup_insert_eq. rewrite Hb. unfold CLI_CMD_BUFFER_SIZE. lia.
Qed.
End dispatch_line.

(** ** The properties *)

Section properties.
Context {W : Type} `{Port W} `{Commands W}.
Implicit Types (c : console W) (sh : cli_instance W).

(** One segment, whatever it says and whatever state the output is in: the
    dispatcher comes back, without an access outside the segment or argv, and
    has done what the segment's text means: nothing when it is blank; run the
    handler the words select, on exactly its words, with the latches set around
    it; or report the one error that applies, naming the word at fault, and set
    the result to -1 (with the usage line, the words of the command and its
    help, for a wrong number of arguments). *)
Theorem cli_dispatch_segment_correct (s : list Z) c : no_nul s ->
  exists c' seg, cli_dispatch_segment (s ++ [NUL]) c = Some (c', seg) /\ length seg = S (length s) /\ runs_segment s c c'.
Proof. apply dispatch_segment_spec. Qed.

(** C17: A submitted line: the in-place scanning, cutting and parsing of the
    line buffer runs the pieces between its top-level semicolons in order until
    one is cancelled.  A piece that ends with an unquoted, unescaped ['&'] which
    follows no other ['&'] is handed to a background job, its words unchanged;
    the two forms of [misread_cmd], against the documentation, are backgrounded
    with the text the code leaves; every other piece is run in the foreground.
    The pipeline terminates and stays inside the buffer; the whole line is the
    newest history entry (unless blank or a repeat); a cancel is reported once,
    with the pending input dropped; and the editor is left on an empty line with
    its prompt written. *)
Theorem cli_dispatch_line_correct sh es :
  line_ok (inp sh) -> length (line (inp sh)) = CLI_CMD_BUFFER_SIZE -> no_nul (line_text sh) -> hist_rep (his sh) es ->
  exists sh', cli_dispatch_line sh = Some sh' /\ submits sh es sh'.
Proof. apply dispatch_line_spec. Qed.
End properties.

(** ** Examples *)

Module SessionExample.
Import Loopback.

(** [led], [echo]; a handler writes its arguments, a job says "job". *)
#[export] Instance host_commands : Commands host := {
  root_cmds := [cmd_led; cmd_echo];
  run_handler h args c := (0, (cli_write (concat args) c).2);
  cli_jobs_reap c := c;
  cli_job_launch cmd c := (cli_write (str "job") c).2;
}.

Definition shell (text : list Z) : cli_instance host :=
  demo text [] (History (replicate CLI_HISTORY_BUFFER_SIZE 0) 0 false 0).

Lemma empty_history : hist_rep (History (replicate CLI_HISTORY_BUFFER_SIZE 0) 0 false 0) [].
Proof. split; simpl; try done; unfold CLI_HISTORY_BUFFER_SIZE; lia. Qed.

Lemma cli_dispatch_segment_correct_witness :
  no_nul (str "led on x") /\
  exists c' seg, cli_dispatch_segment (str "led on x" ++ [NUL]) (idle [] []) = Some (c', seg) /\
    length seg = S (length (str "led on x")) /\ runs_segment (str "led on x") (idle [] []) c'.
Proof.
  assert (Hs : no_nul (str "led on x")) by (repeat constructor; done).
  split; [exact Hs|]. apply (cli_dispatch_segment_correct (str "led on x") (idle [] []) Hs).
Defined.

Definition script : list Z := str "led on x; echo 'a;b' &".

Lemma cli_dispatch_line_correct_witness :
  exists sh', cli_dispatch_line (shell script) = Some sh' /\ submits (shell script) [] sh'.
Proof.
  apply (cli_dispatch_line_correct (shell script) []).
  - split; apply Nat.leb_le; reflexivity.
  - reflexivity.
  - vm_compute. repeat constructor; done.
  - apply empty_history.
Defined.

Example script_wire : (sh' ← cli_dispatch_line (shell script); Some (sent (env (con sh')))) = Some (CRLF ++ str "onxjob> ").
Proof. vm_compute. reflexivity. Qed.
End SessionExample.
