(* ===== verification/Edit.v ===== *)
(** * The line editor ([src/shell/core/cli_edit.c])

    The operations of the editor -- insertion, deletion, the kills, the moves,
    the one-byte fast paths -- and the byte input machine that drives them:
    line endings, control keys, escape sequences, Ctrl+C from anywhere.  Every
    access to the line is checked and every move of bytes is the code's.

    The theorems: no byte takes a well-formed shell outside its buffers, and it
    stays well formed; the editing keys are those of a text with a cursor; and
    what the terminal shows is the prompt and that text. *)

From S2P Require Import Prelude Fmt Parse Instance Redraw History Complete Session.
Local Open Scope Z_scope.

Section edit.
Context {W : Type} `{Port W} `{Commands W}.
Implicit Types (c : console W) (sh : cli_instance W).

Definition write_on (d : list Z) sh : cli_instance W := on_con (fun c => (cli_write d c).2) sh.
Definition pend_of sh : Z := Z.of_nat (length (prompt sh)) + Z.of_nat (len (inp sh)).

(** ** Fast paths: whether handled *)

(** [line[len++] = ch; line[len] = '\0'; cur = len]. *)
Definition append_char (ch : Z) (i : input) : option input :=
  l ← buf_set (line i) (len i) ch;
  l ← buf_set l (S (len i)) 0;
  Some (Input l (S (len i)) (S (len i))).

Definition fast_append (ch : Z) sh : option (bool * cli_instance W) :=
  if negb (cur (inp sh) =? len (inp sh))%nat || ((pend_of sh + 1) mod edit_cols sh =? 0) then Some (false, sh)
  else
    i ← append_char ch (inp sh);
    Some (true, write_on [ch] (set_inp i sh)).

Definition fast_backspace sh : option (bool * cli_instance W) :=
  if negb (cur (inp sh) =? len (inp sh))%nat || (len (inp sh) =? 0)%nat || (pend_of sh mod edit_cols sh =? 0)
  then Some (false, sh)
  else
    let n := (len (inp sh) - 1)%nat in
    l ← buf_set (line (inp sh)) n 0;
    Some (true, write_on [8; 32; 8] (set_inp (Input l n n) sh)).

(** ** Edit operations *)

Definition op_insert (ch : Z) sh : option (cli_instance W) :=
  let i := inp sh in
  if overwrite sh && (cur i <? len i)%nat then
    l ← buf_set (line i) (cur i) ch;
    Some (cli_edit_refresh (set_inp (Input l (len i) (S (cur i))) sh))
  else if (CLI_CMD_BUFFER_SIZE - 1 <=? len i)%nat then Some (write_on [7] sh)
  else if (cur i =? len i)%nat then
    '(handled, sh) ← fast_append ch sh;
    if handled : bool then Some sh
    else i ← append_char ch (inp sh); Some (cli_edit_refresh (set_inp i sh))
  else
    l ← buf_move (cur i + 1) (cur i) (len i - cur i) (line i);
    l ← buf_set l (cur i) ch;
    l ← buf_set l (S (len i)) 0;
    Some (cli_edit_refresh (set_inp (Input l (S (len i)) (S (cur i))) sh)).

(** The bytes from [src] to the end of the line moved down to [dst], and the
    line ended there: what the deletions do. *)
Definition close_gap (dst src : nat) (i : input) : option (list Z) :=
  l ← buf_move dst src (len i - src) (line i);
  buf_set l (dst + (len i - src)) 0.

Definition op_backspace sh : option (cli_instance W) :=
  if (cur (inp sh) =? 0)%nat then Some sh
  else
    '(handled, sh) ← fast_backspace sh;
    if handled : bool then Some sh
    else
      let i := inp sh in
      l ← close_gap (cur i - 1) (cur i) i;
      Some (cli_edit_refresh (set_inp (Input l (len i - 1) (cur i - 1)) sh)).

Definition op_delete_fwd sh : option (cli_instance W) :=
  let i := inp sh in
  if (len i <=? cur i)%nat then Some sh
  else
    l ← close_gap (cur i) (cur i + 1) i;
    Some (cli_edit_refresh (set_inp (Input l (len i - 1) (cur i)) sh)).

Definition op_kill_eol sh : option (cli_instance W) :=
  let i := inp sh in
  if (len i <=? cur i)%nat then Some sh
  else
    l ← buf_set (line i) (cur i) 0;
    Some (cli_edit_refresh (set_inp (Input l (cur i) (cur i)) sh)).

Definition op_kill_bol sh : option (cli_instance W) :=
  let i := inp sh in
  if (cur i =? 0)%nat then Some sh
  else
    l ← close_gap 0 (cur i) i;
    Some (cli_edit_refresh (set_inp (Input l (len i - cur i) 0) sh)).

(** [while (i > 0 && p(line[i - 1])) i--]. *)
Fixpoint back_while (p : Z -> bool) (l : list Z) (i : nat) : option nat :=
  match i with
  | O => Some O
  | S k => x ← l !! k; if p x then back_while p l k else Some i
  end.
Definition word_start (l : list Z) (from : nat) : option nat :=
  i ← back_while (fun x => x =? 32) l from;
  back_while (fun x => negb (x =? 32)) l i.

(** [while (i < len && p(line[i])) i++]; each round moves [i]. *)
Fixpoint forward_while (p : Z -> bool) (fuel : nat) (l : list Z) (n i : nat) : option nat :=
  match fuel with
  | O => Some i
  | S k => if (i <? n)%nat then x ← l !! i; if p x then forward_while p k l n (S i) else Some i else Some i
  end.
Definition word_end (l : list Z) (n from : nat) : option nat :=
  i ← forward_while (fun x => x =? 32) (n - from) l n from;
  forward_while (fun x => negb (x =? 32)) (n - i) l n i.

Definition op_del_word sh : option (cli_instance W) :=
  let i := inp sh in
  if (cur i =? 0)%nat then Some sh
  else
    s ← word_start (line i) (cur i);
    l ← close_gap s (cur i) i;
    Some (cli_edit_refresh (set_inp (Input l (len i - (cur i - s)) s) sh)).

(** [cur = n], and the cursor moved there. *)
Definition move_to (n : nat) sh : cli_instance W :=
  edit_reposition (set_inp (Input (line (inp sh)) (len (inp sh)) n) sh).

Definition op_left sh := if (0 <? cur (inp sh))%nat then move_to (cur (inp sh) - 1) sh else sh.
Definition op_right sh := if (cur (inp sh) <? len (inp sh))%nat then move_to (S (cur (inp sh))) sh else sh.
Definition op_home sh := if (0 <? cur (inp sh))%nat then move_to 0 sh else sh.
Definition op_end sh := if (cur (inp sh) <? len (inp sh))%nat then move_to (len (inp sh)) sh else sh.
Definition op_word_left sh : option (cli_instance W) :=
  i ← word_start (line (inp sh)) (cur (inp sh));
  Some (if negb (i =? cur (inp sh))%nat then move_to i sh else sh).
Definition op_word_right sh : option (cli_instance W) :=
  i ← word_end (line (inp sh)) (len (inp sh)) (cur (inp sh));
  Some (if negb (i =? cur (inp sh))%nat then move_to i sh else sh).

(** A sequence written under the lock: the screen clear and the width probe. *)
Definition locked_puts (d : list Z) c : console W :=
  match cli_lock (env c) with
  | Some w => cli_out_end (cli_out_flush (out_str d (set_env w c)))
  | None => set_tx_failed true c
  end.

Definition op_clear_screen sh : cli_instance W :=
  let sh := on_con (locked_puts CLI_VT100_CLR_SCREEN) sh in
  cli_edit_refresh (set_rend (Render 0 0 (render_dirty (rend sh))) sh).
End edit.

(** ** The input machine *)

Section machine.
Context {W : Type} `{Port W} `{Commands W}.
Implicit Types (c : console W) (sh : cli_instance W).

Definition csi_final (f : Z) sh : option (cli_instance W) :=
  if f =? 65 then cli_history_prev sh
  else if f =? 66 then cli_history_next sh
  else if f =? 67 then Some (op_right sh)
  else if f =? 68 then Some (op_left sh)
  else if f =? 72 then Some (op_home sh)
  else if f =? 70 then Some (op_end sh)
  else if f =? 126 then
    let n := if (1 <=? esc_np (esc sh))%nat then esc_p0 (esc sh) else 0 in
    if (n =? 1) || (n =? 7) then Some (op_home sh)
    else if (n =? 4) || (n =? 8) then Some (op_end sh)
    else if n =? 2 then Some (set_overwrite (negb (overwrite sh)) sh)
    else if n =? 3 then op_delete_fwd sh
    else Some sh
  else if f =? 82 then
    if probing_cpr sh && negb (esc_bad (esc sh)) && (esc_np (esc sh) =? 2)%nat &&
       (20 <=? esc_p1 (esc sh)) && (esc_p1 (esc sh) <=? 255)
    then
      let w := u8 (esc_p1 (esc sh)) in
      let sh := set_probing_cpr false sh in
      Some (if negb (w =? term_width sh) then cli_edit_refresh (set_term_width w sh) else sh)
    else Some sh
  else Some sh.

Definition ss3_final (f : Z) sh : option (cli_instance W) :=
  if f =? 65 then cli_history_prev sh
  else if f =? 66 then cli_history_next sh
  else if f =? 67 then Some (op_right sh)
  else if f =? 68 then Some (op_left sh)
  else if f =? 72 then Some (op_home sh)
  else if f =? 70 then Some (op_end sh)
  else Some sh.

Definition edit_submit sh : option (cli_instance W) :=
  let sh := if negb (cur (inp sh) =? len (inp sh))%nat then move_to (len (inp sh)) sh else sh in
  cli_dispatch_line sh.

(** The escape states: [esc_p[esc_np - 1] = (uint16_t)(... * 10 + (b - '0'))]. *)
Definition esc_digit (b : Z) (e : escape) : option escape :=
  let np := if (esc_np e =? 0)%nat then 1%nat else esc_np e in
  match np with
  | 1%nat => Some (Escape (rx e) (u16 (esc_p0 e * 10 + (b - 48))) (esc_p1 e) np (esc_bad e))
  | 2%nat => Some (Escape (rx e) (esc_p0 e) (u16 (esc_p1 e * 10 + (b - 48))) np (esc_bad e))
  | _ => None
  end.
Definition esc_separator (e : escape) : escape :=
  if (esc_np e <? 2)%nat then Escape (rx e) (esc_p0 e) (esc_p1 e) (S (esc_np e)) (esc_bad e)
  else Escape (rx e) (esc_p0 e) (esc_p1 e) (esc_np e) true.

Definition in_esc (b : Z) sh : option (cli_instance W) :=
  if b =? 91 then Some (set_esc (Escape CLI_RX_CSI 0 0 0 false) sh)
  else if b =? 79 then Some (set_rx CLI_RX_SS3 sh)
  else
    let sh := set_rx CLI_RX_NORMAL sh in
    if b =? 98 then op_word_left sh else if b =? 102 then op_word_right sh else Some sh.
Definition in_csi (b : Z) sh : option (cli_instance W) :=
  if (48 <=? b) && (b <=? 57) then e ← esc_digit b (esc sh); Some (set_esc e sh)
  else if b =? 59 then Some (set_esc (esc_separator (esc sh)) sh)
  else
    let sh := set_rx CLI_RX_NORMAL sh in
    if (64 <=? b) && (b <=? 126) then csi_final b sh else Some sh.
Definition in_ss3 (b : Z) sh : option (cli_instance W) :=
  let sh := set_rx CLI_RX_NORMAL sh in
  if (64 <=? b) && (b <=? 126) then ss3_final b sh else Some sh.

(** [CLI_RX_NORMAL]: the control keys, then the printable characters. *)
Definition control_key (b : Z) sh : option (option (cli_instance W)) :=
  if b =? 27 then Some (Some (set_rx CLI_RX_ESC sh))
  else if b =? 1 then Some (Some (op_home sh))
  else if b =? 2 then Some (Some (op_left sh))
  else if b =? 4 then Some (op_delete_fwd sh)
  else if b =? 5 then Some (Some (op_end sh))
  else if b =? 6 then Some (Some (op_right sh))
  else if b =? 11 then Some (op_kill_eol sh)
  else if b =? 12 then Some (Some (op_clear_screen sh))
  else if b =? 14 then Some (cli_history_next sh)
  else if b =? 16 then Some (cli_history_prev sh)
  else if b =? 21 then Some (op_kill_bol sh)
  else if b =? 23 then Some (op_del_word sh)
  else if b =? 9 then Some (cli_tab_complete root_cmds sh)
  else if b =? 8 then Some (op_backspace sh)
  else if b =? 127 then Some (if bs_swap sh then op_delete_fwd sh else op_backspace sh)
  else None.

Definition in_normal (b : Z) sh : option (cli_instance W) :=
  if b =? 13 then sh ← edit_submit sh; Some (set_prev_cr true sh)
  else if b =? 10 then
    if prev_cr sh then Some (set_prev_cr false sh) else edit_submit sh
  else
    let sh := set_prev_cr false sh in
    match control_key b sh with
    | Some r => r
    | None => if (32 <=? b) && (b <=? 126) then op_insert b sh else Some sh
    end.

(** Ctrl+C: the line dropped, a fresh prompt. *)
Definition ctrl_c sh : option (cli_instance W) :=
  let sh := on_con (set_tx_failed false) (set_prev_cr false (set_rx CLI_RX_NORMAL sh)) in
  let sh := write_on (str "^C" ++ CRLF) sh in
  l ← buf_set (line (inp sh)) 0 0;
  let sh := set_inp (Input l 0 0) sh in
  let sh := set_his (set_nav false (hist_nav (his sh)) (his sh)) sh in
  let sh := set_rend (Render (u8 (Z.of_nat (length (prompt sh)) / edit_cols sh + 1)) 0 (render_dirty (rend sh))) sh in
  Some (cli_prompt sh).

Definition cli_input_byte (b : Z) sh : option (cli_instance W) :=
  let sh := if render_dirty (rend sh)
            then cli_edit_refresh (set_rend (Render (old_rows (rend sh)) (draw_row (rend sh)) false) sh) else sh in
  if 128 <=? b then Some sh
  else
    let sh := if b =? 9 then sh else set_tab_list_armed false sh in
    if b =? 3 then ctrl_c sh
    else
      match rx (esc sh) with
      | CLI_RX_ESC => in_esc b sh
      | CLI_RX_CSI => in_csi b sh
      | CLI_RX_SS3 => in_ss3 b sh
      | CLI_RX_NORMAL => in_normal b sh
      end.

Definition cli_edit_session_start sh : cli_instance W :=
  let sh := on_con (locked_puts CLI_VT100_CPR_PROBE) (set_probing_cpr true sh) in
  let sh := set_rend (Render 0 0 (render_dirty (rend sh))) sh in
  cli_edit_refresh (set_inp (Input (line (inp sh)) (len (inp sh)) 0) sh).

Definition cli_set_backspace_mode (mode : Z) sh : cli_instance W := set_bs_swap (negb (mode =? 0)) sh.

(** The bytes received one after another. *)
Fixpoint input_bytes (bs : list Z) sh : option (cli_instance W) :=
  match bs with
  | [] => Some sh
  | b :: bs => sh ← cli_input_byte b sh; input_bytes bs sh
  end.
End machine.

(** ** A text with a cursor *)

(** The abstract editor: the text before the cursor, after it, and the mode. *)
Record text : Type := Text { before : list Z; after : list Z; over : bool }.

Inductive key : Type :=
  | KChar (c : Z) | KBackspace | KDelete | KKillEol | KKillBol | KDelWord
  | KLeft | KRight | KHome | KEnd | KWordLeft | KWordRight | KInsert.

(** How many characters at the front satisfy [f]; a run of spaces and the word
    after it. *)
Fixpoint run (f : Z -> bool) (l : list Z) : nat :=
  match l with [] => O | x :: l => if f x then S (run f l) else O end.
Definition is_sp (x : Z) : bool := x =? 32.
Definition word_run (l : list Z) : nat :=
  let n := run is_sp l in (n + run (fun x => negb (is_sp x)) (drop n l))%nat.

Definition cut_at (n : nat) (t : text) : text :=
  let s := before t ++ after t in Text (take n s) (drop n s) (over t).

Definition key_step (k : key) (t : text) : text :=
  let p := before t in
  let q := after t in
  match k with
  | KChar c =>
      if over t && negb (bool_decide (q = [])) then Text (p ++ [c]) (tail q) (over t)
      else if (CLI_CMD_BUFFER_SIZE - 1 <=? length (p ++ q))%nat then t
      else Text (p ++ [c]) q (over t)
  | KBackspace => Text (removelast p) q (over t)
  | KDelete => Text p (tail q) (over t)
  | KKillEol => Text p [] (over t)
  | KKillBol => Text [] q (over t)
  | KDelWord => Text (take (length p - word_run (rev p)) p) q (over t)
  | KLeft => cut_at (length p - 1) t
  | KRight => cut_at (S (length p)) t
  | KHome => cut_at 0 t
  | KEnd => cut_at (length (p ++ q)) t
  | KWordLeft => cut_at (length p - word_run (rev p)) t
  | KWordRight => cut_at (length p + word_run q) t
  | KInsert => Text p q (negb (over t))
  end.

(** ** The operations on the text *)

Section words.
Implicit Types (p q r : list Z).

Lemma run_le f l : (run f l <= length l)%nat.
Proof. induction l as [|x l IH]; [done|]. simpl. destruct (f x); lia. Qed.
Lemma word_run_le l : (word_run l <= length l)%nat.
Proof.
  unfold word_run. pose proof (run_le is_sp l). pose proof (run_le (fun x => negb (is_sp x)) (drop (run is_sp l) l)) as H2.
  rewrite length_drop in H2. lia.
Qed.

Lemma back_while_spec f p r : back_while f (p ++ r) (length p) = Some (length p - run f (rev p))%nat.
Proof.
  revert r. induction p as [|x p IH] using rev_ind; intros r; [done|].
  rewrite length_app, Nat.add_comm. cbn [length Nat.add back_while]. rewrite <-app_assoc. cbn [app].
  rewrite list_lookup_middle by done. cbn [mbind option_bind]. rewrite rev_app_distr. cbn [rev app run].
  destruct (f x); [|done]. by rewrite IH.
Qed.

Lemma word_start_run p r : word_start (p ++ r) (length p) = Some (length p - word_run (rev p))%nat.
Proof.
  unfold word_start. rewrite back_while_spec. cbn [mbind option_bind].
  set (n := run _ (rev p)). assert (Hn : (n <= length p)%nat) by (unfold n; rewrite <-length_rev; apply run_le).
  pose proof (back_while_spec (fun x => negb (x =? 32)) (take (length p - n) p) (drop (length p - n) p ++ r)) as Hb.
  rewrite length_take, Nat.min_l, app_assoc, take_drop in Hb by lia. rewrite Hb. f_equal.
  assert (Er : rev (take (length p - n) p) = drop n (rev p)).
  { replace (rev p) with (rev (drop (length p - n) p) ++ rev (take (length p - n) p)) by (by rewrite <-rev_app_distr, take_drop).
    symmetry. apply drop_app_length'.
    rewrite length_rev, length_drop. lia. }
  rewrite Er. unfold word_run. cbv zeta. change (run is_sp (rev p)) with n. unfold is_sp. lia.
Qed.

Lemma forward_while_spec f q : forall p r fuel, fuel = length q ->
  forward_while f fuel (p ++ q ++ r) (length p + length q) (length p) = Some (length p + run f q)%nat.
Proof.
  induction q as [|x q IH]; intros p r fuel ->; [simpl; f_equal; lia|]. cbn [length forward_while].
  rewrite (proj2 (Nat.ltb_lt _ _)) by lia. cbn [app]. rewrite list_lookup_middle by done. cbn [mbind option_bind run].
  destruct (f x); [|f_equal; lia].
  specialize (IH (p ++ [x]) r (length q) eq_refl). rewrite length_app, <-app_assoc in IH. cbn [length app] in IH.
  replace (length p + S (length q))%nat with (length p + 1 + length q)%nat by lia.
  replace (S (length p)) with (length p + 1)%nat by lia. rewrite IH. f_equal. lia.
Qed.

Lemma word_end_run p q r : word_end (p ++ q ++ r) (length p + length q) (length p) = Some (length p + word_run q)%nat.
Proof.
  unfold word_end. rewrite forward_while_spec by lia. cbn [mbind option_bind].
  set (n := run _ q). assert (Hn : (n <= length q)%nat) by apply run_le.
  pose proof (forward_while_spec (fun x => negb (x =? 32)) (drop n q) (p ++ take n q) r (length q - n)) as Hf.
  rewrite length_drop, length_app, length_take, Nat.min_l in Hf by lia.
  rewrite <-app_assoc, (app_assoc (take n q)), take_drop in Hf.
  replace (length p + n + (length q - n))%nat with (length p + length q)%nat in Hf by lia.
  replace (length p + length q - (length p + n))%nat with (length q - n)%nat by lia.
  rewrite Hf by done. f_equal. unfold word_run. cbv zeta. change (run is_sp q) with n. unfold is_sp. lia.
Qed.
End words.

Section operations.
Context {W : Type} `{Port W} `{Commands W}.
Implicit Types (c : console W) (sh : cli_instance W) (p q r d : list Z).

(** How an operation leaves the text [p], [q] and draws it: not at all, with a
    bell, a repaint, a cursor move, or one of the two fast paths. *)
Inductive draws sh : list Z -> list Z -> cli_instance W -> Prop :=
  | dr_none p q : holds (inp sh) p q -> draws sh p q sh
  | dr_mode p q b : holds (inp sh) p q -> draws sh p q (set_overwrite b sh)
  | dr_bell p q : holds (inp sh) p q -> draws sh p q (write_on [7] sh)
  | dr_repaint i p q : holds i p q -> draws sh p q (cli_edit_refresh (set_inp i sh))
  | dr_move p q p0 q0 : holds (inp sh) p0 q0 -> p ++ q = p0 ++ q0 -> draws sh p q (move_to (length p) sh)
  | dr_append p ch i :
      holds (inp sh) p [] -> holds i (p ++ [ch]) [] -> (pend_of sh + 1) mod edit_cols sh <> 0 ->
      draws sh (p ++ [ch]) [] (write_on [ch] (set_inp i sh))
  | dr_erase p ch i :
      holds (inp sh) (p ++ [ch]) [] -> holds i p [] -> pend_of sh mod edit_cols sh <> 0 ->
      draws sh p [] (write_on [8; 32; 8] (set_inp i sh)).

Definition draws_to sh (t : text) (o : option (cli_instance W)) : Prop :=
  exists sh', o = Some sh' /\ draws sh (before t) (after t) sh' /\ overwrite sh' = over t.

Lemma holds_sizes i p q : holds i p q -> len i = (length p + length q)%nat /\ cur i = length p.
Proof. intros [_ _ -> ->]. by rewrite length_app. Qed.

(** Deleting [d] between [p] and [q]. *)
Lemma close_gap_spec i p d q : holds i (p ++ d) q \/ holds i p (d ++ q) ->
  exists l, close_gap (length p) (length p + length d) i = Some l /\ holds (Input l (length p + length q) (length p)) p q.
Proof.
  intros Hh. assert (exists r, line i = p ++ d ++ q ++ 0 :: r /\ length (line i) = CLI_CMD_BUFFER_SIZE /\
    len i = (length p + length d + length q)%nat) as (r & El & Hs & Hl).
  { destruct Hh as [[(r & El) Hs Hl _]|[(r & El) Hs Hl _]]; exists r; rewrite El in *;
      rewrite ?length_app in *; (split_and!; [by rewrite <-?app_assoc|done|lia]). }
  unfold close_gap. rewrite Hl. replace (_ - (length p + length d))%nat with (length q) by lia. rewrite El.
  destruct (memmove_down p d q r) as (x & -> & Hx). cbn [mbind option_bind].
  destruct x as [|y x]; [simpl in Hx; lia|].
  replace (length p + length q)%nat with (length (p ++ q)) by apply length_app.
  rewrite (set_end (p ++ q) y x) by (by rewrite <-app_assoc). eexists. split; [done|].
  split; simpl; [by exists x; rewrite <-app_assoc| |done|done].
  rewrite <-Hs, El. list_len.
Qed.

Lemma append_char_spec i p ch : holds i p [] -> (length p < CLI_CMD_BUFFER_SIZE - 1)%nat ->
  exists i', append_char ch i = Some i' /\ holds i' (p ++ [ch]) [].
Proof.
  intros [(r & El) Hs Hl _] Hfit. cbn [app] in El. rewrite app_nil_r in Hl. unfold append_char. rewrite Hl, El.
  rewrite buf_set_Some by (rewrite length_app; simpl; lia). cbn [mbind option_bind]. rewrite insert_length_app.
  destruct r as [|x r]; [rewrite El, length_app in Hs; simpl in Hs; unfold CLI_CMD_BUFFER_SIZE in *; lia|].
  replace (S (length p)) with (length (p ++ [ch])) by (rewrite length_app; simpl; lia).
  rewrite (set_end (p ++ [ch]) x r) by (by rewrite <-app_assoc). cbn [mbind option_bind]. eexists. split; [done|].
  split; simpl; [exists r; by rewrite <-app_assoc| |by rewrite app_nil_r|done].
  rewrite <-Hs, El. list_len.
Qed.

(** [length p + 1] and friends are what the cursor compares say. *)
Ltac sizes Hh := let H1 := fresh "Hlen" in let H2 := fresh "Hcur" in destruct (holds_sizes _ _ _ Hh) as [H1 H2]; rewrite ?H1, ?H2.

Lemma holds_not_over i p q sh b : holds i p q -> (b && (cur i <? len i))%nat = b && negb (bool_decide (q = [])).
Proof.
  intros Hh. sizes Hh. f_equal. case_bool_decide as Hq; [subst; simpl; lia|]. destruct q; [done|]. simpl. lia.
Qed.

Lemma op_insert_draws ch sh p q : holds (inp sh) p q ->
  draws_to sh (key_step (KChar ch) (Text p q (overwrite sh))) (op_insert ch sh).
Proof.
  intros Hh. pose proof (holds_fits _ _ _ Hh) as Hfit. unfold op_insert. cbv zeta. cbn [key_step before after over].
  rewrite (holds_not_over _ _ _ sh _ Hh). pose proof (holds_sizes _ _ _ Hh) as [Hl Hc].
  destruct (overwrite sh && negb (bool_decide (q = []))) eqn:Eo.
  { split_bools. apply bool_decide_eq_false in H2. destruct q as [|x q]; [done|].
    pose proof Hh as [(r & El) Hs _ _]. rewrite Hc, El. cbn [app].
    rewrite buf_set_Some by (rewrite length_app; simpl; lia). cbn [mbind option_bind]. rewrite insert_length_app.
    eexists. split; [done|]. split; [|unfold cli_edit_refresh; destruct (cli_lock _); done].
    apply (dr_repaint sh). split; simpl.
    - exists r. by rewrite <-app_assoc.
    - rewrite <-Hs, El. list_len.
    - rewrite Hl. list_len.
    - list_len. }
  rewrite Hl, length_app. destruct (CLI_CMD_BUFFER_SIZE - 1 <=? length p + length q)%nat eqn:Efull.
  { eexists. split; [done|]. split; [by apply dr_bell|done]. }
  apply Nat.leb_gt in Efull. rewrite Hc. destruct q as [|x q].
  - cbn [length] in *. rewrite Nat.add_0_r, Nat.eqb_refl in *. unfold fast_append. rewrite Hl, Hc, Nat.eqb_refl. cbn [negb orb].
    destruct (append_char_spec _ _ ch Hh Efull) as (i' & Ea & Hi').
    destruct (Z.eqb_spec ((pend_of sh + 1) mod edit_cols sh) 0) as [E|E]; cbn [mbind option_bind]; rewrite Ea; cbn [mbind option_bind].
    + eexists. split; [done|]. split; [by apply (dr_repaint sh)|unfold cli_edit_refresh; destruct (cli_lock _); done].
    + eexists. split; [done|]. split; [by apply dr_append|done].
  - rewrite (proj2 (Nat.eqb_neq _ _)) by (simpl; lia). pose proof Hh as [(r & El) Hs _ _].
    replace (length p + length (x :: q) - length p)%nat with (length (x :: q)) by lia.
    rewrite El, memmove_up by (simpl; lia). cbn [mbind option_bind].
    change (take 1 ((x :: q) ++ 0 :: r)) with [x]. cbn [app drop].
    rewrite buf_set_Some by (rewrite length_app; simpl; lia). cbn [mbind option_bind]. rewrite insert_length_app.
    destruct r as [|y r].
    { rewrite El, !length_app in Hs. simpl in Hs, Efull. unfold CLI_CMD_BUFFER_SIZE in *. lia. }
    replace (S (length p + length (x :: q))) with (length (p ++ ch :: x :: q)) by (rewrite length_app; simpl; lia).
    rewrite (set_end (p ++ ch :: x :: q) y r) by (by rewrite <-app_assoc). cbn [mbind option_bind].
    eexists. split; [done|]. split; [|unfold cli_edit_refresh; destruct (cli_lock _); done].
    apply (dr_repaint sh). split; simpl.
    + exists r. by rewrite <-!app_assoc.
    + rewrite <-Hs, El. list_len.
    + list_len.
    + list_len.
Qed.
End operations.

Section operations2.
Context {W : Type} `{Port W} `{Commands W}.
Implicit Types (c : console W) (sh : cli_instance W) (p q r d : list Z).

Lemma refresh_overwrite sh : overwrite (cli_edit_refresh sh) = overwrite sh.
Proof. unfold cli_edit_refresh. by destruct (cli_lock _). Qed.
Lemma move_overwrite n sh : overwrite (move_to n sh) = overwrite sh.
Proof. unfold move_to, edit_reposition. by destruct (cli_lock _). Qed.

Lemma draws_repaint sh i p q : holds i p q ->
  draws_to sh (Text p q (overwrite sh)) (Some (cli_edit_refresh (set_inp i sh))).
Proof. intros Hi. eexists. split; [done|]. split; [by apply dr_repaint|by rewrite refresh_overwrite]. Qed.
Lemma draws_none sh p q : holds (inp sh) p q -> draws_to sh (Text p q (overwrite sh)) (Some sh).
Proof. intros Hi. eexists. split; [done|]. split; [by apply dr_none|done]. Qed.

(** A deletion and its repaint. *)
Lemma draws_gap sh p d q n m : holds (inp sh) (p ++ d) q \/ holds (inp sh) p (d ++ q) ->
  n = (length p + length q)%nat -> m = length p ->
  draws_to sh (Text p q (overwrite sh))
    (l ← close_gap (length p) (length p + length d) (inp sh); Some (cli_edit_refresh (set_inp (Input l n m) sh))).
Proof.
  intros Hh -> ->. destruct (close_gap_spec (inp sh) p d q Hh) as (l & -> & Hl). by apply draws_repaint.
Qed.

Lemma op_backspace_draws sh p q : holds (inp sh) p q ->
  draws_to sh (key_step KBackspace (Text p q (overwrite sh))) (op_backspace sh).
Proof.
  intros Hh. destruct (holds_sizes _ _ _ Hh) as [Hl Hc]. unfold op_backspace. rewrite Hc. cbn [key_step before after over].
  destruct (exists_last_or_nil p) as [->|(p' & x & ->)]; [by apply draws_none|].
  rewrite removelast_last, length_app. cbn [length]. rewrite (proj2 (Nat.eqb_neq _ _)) by lia.
  unfold fast_backspace. rewrite Hl, Hc, length_app. cbn [length].
  assert (Hgap : draws_to sh (Text p' q (overwrite sh))
    (l ← close_gap (length p' + 1 - 1) (length p' + 1) (inp sh);
     Some (cli_edit_refresh (set_inp (Input l (length p' + 1 + length q - 1) (length p' + 1 - 1)) sh)))).
  { rewrite Nat.add_sub. apply (draws_gap sh p' [x] q); [by left|lia|done]. }
  destruct q as [|y q].
  - cbn [length] in *. rewrite Nat.add_0_r, Nat.eqb_refl, (proj2 (Nat.eqb_neq _ 0)) by lia. cbn [negb orb].
    destruct (Z.eqb_spec (pend_of sh mod edit_cols sh) 0) as [E|E].
    + cbn [mbind option_bind]. cbv zeta. rewrite Hc, Hl, !length_app. cbn [length]. rewrite Nat.add_0_r in *. exact Hgap.
    + pose proof Hh as [(r & El) Hs _ _]. rewrite El, <-app_assoc, Nat.add_sub. cbn [app].
      rewrite (set_end p' x (0 :: r)) by done. cbn [mbind option_bind]. eexists. split; [done|]. split; [|done].
      apply (dr_erase sh p' x); [done| |done]. split; simpl; [by exists (0 :: r)| |by rewrite app_nil_r|done].
      rewrite <-Hs, El. list_len.
  - rewrite (proj2 (Nat.eqb_neq _ _)) by (cbn [length]; lia). cbn [negb orb mbind option_bind]. cbv zeta.
    rewrite Hc, Hl, !length_app. exact Hgap.
Qed.

Lemma op_delete_draws sh p q : holds (inp sh) p q ->
  draws_to sh (key_step KDelete (Text p q (overwrite sh))) (op_delete_fwd sh).
Proof.
  intros Hh. destruct (holds_sizes _ _ _ Hh) as [Hl Hc]. unfold op_delete_fwd. cbv zeta. rewrite Hl, Hc. cbn [key_step before after over].
  destruct q as [|x q].
  - rewrite (proj2 (Nat.leb_le _ _)) by (cbn [length]; lia). by apply draws_none.
  - rewrite (proj2 (Nat.leb_gt _ _)) by (cbn [length]; lia). cbn [tail].
    apply (draws_gap sh p [x] q); [by right|cbn [length]; lia|done].
Qed.

Lemma op_kill_eol_draws sh p q : holds (inp sh) p q ->
  draws_to sh (key_step KKillEol (Text p q (overwrite sh))) (op_kill_eol sh).
Proof.
  intros Hh. destruct (holds_sizes _ _ _ Hh) as [Hl Hc]. unfold op_kill_eol. cbv zeta. rewrite Hl, Hc. cbn [key_step before after over].
  destruct q as [|x q].
  - rewrite (proj2 (Nat.leb_le _ _)) by (cbn [length]; lia). by apply draws_none.
  - rewrite (proj2 (Nat.leb_gt _ _)) by (cbn [length]; lia). pose proof Hh as [(r & El) Hs _ _].
    rewrite (set_end p x (q ++ 0 :: r)) by (by rewrite El). cbn [mbind option_bind]. apply draws_repaint.
    split; simpl; [by eexists| |by rewrite app_nil_r|done]. rewrite <-Hs, El. list_len.
Qed.

Lemma op_kill_bol_draws sh p q : holds (inp sh) p q ->
  draws_to sh (key_step KKillBol (Text p q (overwrite sh))) (op_kill_bol sh).
Proof.
  intros Hh. destruct (holds_sizes _ _ _ Hh) as [Hl Hc]. unfold op_kill_bol. cbv zeta. rewrite Hl, Hc. cbn [key_step before after over].
  destruct p as [|x p]; [by apply draws_none|]. cbn [Nat.eqb length].
  apply (draws_gap sh [] (x :: p) q); [by left|simpl; lia|done].
Qed.

Lemma op_del_word_draws sh p q : holds (inp sh) p q ->
  draws_to sh (key_step KDelWord (Text p q (overwrite sh))) (op_del_word sh).
Proof.
  intros Hh. destruct (holds_sizes _ _ _ Hh) as [Hl Hc]. unfold op_del_word. cbv zeta. rewrite Hl, Hc. cbn [key_step before after over].
  destruct p as [|x p0] eqn:Ep; [by apply draws_none|]. rewrite <-Ep in *. clear p0 Ep x.
  destruct (Nat.eqb_spec (length p) 0) as [E|E].
  { destruct p; [by apply draws_none|done]. }
  pose proof Hh as [(r & El) _ _ _]. rewrite El, word_start_run. cbn [mbind option_bind].
  set (n := (length p - word_run (rev p))%nat). assert (Hn : (n <= length p)%nat) by lia.
  pose proof (draws_gap sh (take n p) (drop n p) q (length p + length q - (length p - n)) n) as Hg.
  rewrite length_take, length_drop, Nat.min_l, take_drop in Hg by lia.
  replace (n + (length p - n))%nat with (length p) in Hg by lia. apply Hg; [by left|lia|done].
Qed.

(** Moves: the text stays. *)
Lemma draws_cut sh p q n : holds (inp sh) p q -> (n <= length p + length q)%nat ->
  draws_to sh (cut_at n (Text p q (overwrite sh))) (Some (move_to n sh)).
Proof.
  intros Hh Hn. eexists. split; [done|]. split; [|by rewrite move_overwrite]. cbn [cut_at before after over].
  assert (En : n = length (take n (p ++ q))) by (rewrite length_take, length_app; lia).
  pose proof (dr_move sh (take n (p ++ q)) (drop n (p ++ q)) p q Hh (take_drop _ _)) as Hd. by rewrite <-En in Hd.
Qed.
Lemma draws_stay sh p q n : holds (inp sh) p q -> n = length p -> draws_to sh (cut_at n (Text p q (overwrite sh))) (Some sh).
Proof.
  intros Hh ->. unfold cut_at. cbn [before after over]. rewrite take_app_length, drop_app_length. by apply draws_none.
Qed.

Lemma op_moves_draw sh p q : holds (inp sh) p q ->
  draws_to sh (key_step KLeft (Text p q (overwrite sh))) (Some (op_left sh)) /\
  draws_to sh (key_step KRight (Text p q (overwrite sh))) (Some (op_right sh)) /\
  draws_to sh (key_step KHome (Text p q (overwrite sh))) (Some (op_home sh)) /\
  draws_to sh (key_step KEnd (Text p q (overwrite sh))) (Some (op_end sh)).
Proof.
  intros Hh. destruct (holds_sizes _ _ _ Hh) as [Hl Hc]. unfold op_left, op_right, op_home, op_end.
  cbn [key_step before after over]. rewrite Hl, Hc, length_app. split_and!.
  - destruct (Nat.ltb_spec 0 (length p)); [apply draws_cut; [done|lia]|apply draws_stay; [done|lia]].
  - destruct (Nat.ltb_spec (length p) (length p + length q)); [apply draws_cut; [done|lia]|].
    assert (q = []) as -> by (destruct q; [done|simpl in *; lia]). cbn [cut_at before after over].
    unfold cut_at. cbn [before after over]. rewrite app_nil_r, take_ge, drop_ge by lia. by apply draws_none.
  - destruct (Nat.ltb_spec 0 (length p)); [apply draws_cut; [done|lia]|apply draws_stay; [done|lia]].
  - destruct (Nat.ltb_spec (length p) (length p + length q)); [apply draws_cut; [done|lia]|apply draws_stay; [done|lia]].
Qed.

Lemma op_word_moves_draw sh p q : holds (inp sh) p q ->
  draws_to sh (key_step KWordLeft (Text p q (overwrite sh))) (op_word_left sh) /\
  draws_to sh (key_step KWordRight (Text p q (overwrite sh))) (op_word_right sh).
Proof.
  intros Hh. destruct (holds_sizes _ _ _ Hh) as [Hl Hc]. pose proof Hh as [(r & El) _ _ _].
  unfold op_word_left, op_word_right. rewrite Hl, Hc, El, word_start_run, word_end_run. cbn [mbind option_bind key_step before after over].
  pose proof (word_run_le q). split.
  - destruct (Nat.eqb_spec (length p - word_run (rev p)) (length p)); [by apply draws_stay|apply draws_cut; [done|lia]].
  - destruct (Nat.eqb_spec (length p + word_run q) (length p)); [by apply draws_stay|apply draws_cut; [done|lia]].
Qed.
End operations2.

(** ** Keys as bytes *)

(** The byte sequences of the editing keys; [swap] is the Backspace setting. *)
Definition bindings (swap : bool) : list (list Z * key) :=
  [([1], KHome); ([2], KLeft); ([4], KDelete); ([5], KEnd); ([6], KRight); ([8], KBackspace);
   ([11], KKillEol); ([21], KKillBol); ([23], KDelWord); ([127], if swap then KDelete else KBackspace);
   ([27; 98], KWordLeft); ([27; 102], KWordRight);
   ([27; 91; 67], KRight); ([27; 91; 68], KLeft); ([27; 91; 72], KHome); ([27; 91; 70], KEnd);
   ([27; 79; 67], KRight); ([27; 79; 68], KLeft); ([27; 79; 72], KHome); ([27; 79; 70], KEnd);
   ([27; 91; 49; 126], KHome); ([27; 91; 55; 126], KHome); ([27; 91; 52; 126], KEnd); ([27; 91; 56; 126], KEnd);
   ([27; 91; 50; 126], KInsert); ([27; 91; 51; 126], KDelete)].

Definition types (swap : bool) (bs : list Z) (k : key) : Prop :=
  (bs, k) ∈ bindings swap \/ exists ch, bs = [ch] /\ k = KChar ch /\ 32 <= ch <= 126.

Section keys.
Context {W : Type} `{Port W} `{Commands W}.
Implicit Types (c : console W) (sh : cli_instance W) (p q : list Z).

(** The operation of a key. *)
Definition op_of (k : key) sh : option (cli_instance W) :=
  match k with
  | KChar ch => op_insert ch sh
  | KBackspace => op_backspace sh
  | KDelete => op_delete_fwd sh
  | KKillEol => op_kill_eol sh
  | KKillBol => op_kill_bol sh
  | KDelWord => op_del_word sh
  | KLeft => Some (op_left sh)
  | KRight => Some (op_right sh)
  | KHome => Some (op_home sh)
  | KEnd => Some (op_end sh)
  | KWordLeft => op_word_left sh
  | KWordRight => op_word_right sh
  | KInsert => Some (set_overwrite (negb (overwrite sh)) sh)
  end.

Lemma op_of_draws k sh p q : holds (inp sh) p q ->
  draws_to sh (key_step k (Text p q (overwrite sh))) (op_of k sh).
Proof.
  intros Hh. destruct (op_moves_draw sh p q Hh) as (?&?&?&?). destruct (op_word_moves_draw sh p q Hh) as [??].
  destruct k; cbn [op_of]; auto using op_insert_draws, op_backspace_draws, op_delete_draws, op_kill_eol_draws,
    op_kill_bol_draws, op_del_word_draws.
  eexists. split; [done|]. split; [by apply dr_mode|done].
Qed.

(** Ready for a key: between keys, nothing printed behind the editor's back. *)
Definition ready sh : Prop := rx (esc sh) = CLI_RX_NORMAL /\ render_dirty (rend sh) = false.

(** The input flags a key leaves behind. *)
Definition flagged (e : escape) sh : cli_instance W := set_esc e (set_prev_cr false (set_tab_list_armed false sh)).

Lemma input_step b sh : render_dirty (rend sh) = false -> 0 <= b < 128 -> b <> 9 -> b <> 3 ->
  cli_input_byte b sh =
    (let sh := set_tab_list_armed false sh in
     match rx (esc sh) with
     | CLI_RX_ESC => in_esc b sh | CLI_RX_CSI => in_csi b sh | CLI_RX_SS3 => in_ss3 b sh | CLI_RX_NORMAL => in_normal b sh
     end).
Proof. intros Hd ???. unfold cli_input_byte. rewrite Hd. cbv zeta. by ifs. Qed.

Lemma bind_ret {A} (o : option A) : (x ← o; Some x) = o.
Proof. by destruct o. Qed.

(** The bindings, byte by byte: the escape state a key ends in. *)
Lemma binding_input bs k sh : ready sh -> (bs, k) ∈ bindings (bs_swap sh) ->
  exists e, rx e = CLI_RX_NORMAL /\ ((esc_np (esc sh) <= 2)%nat -> (esc_np e <= 2)%nat) /\
    input_bytes bs sh = op_of k (flagged e sh).
Proof.
  destruct sh as [i h [rx0 p0 p1 np bad] [rows row dirty] ov cr swap tw pr arm prm con0]. unfold ready. cbn [esc rx rend render_dirty].
  intros [-> ->]. cbn [bs_swap].
  assert (Hend : forall e sh, rx e = CLI_RX_NORMAL -> ((np <= 2)%nat -> (esc_np e <= 2)%nat) ->
    input_bytes bs sh = (x ← op_of k (flagged e sh); Some x) ->
    exists e, rx e = CLI_RX_NORMAL /\ ((np <= 2)%nat -> (esc_np e <= 2)%nat) /\ input_bytes bs sh = op_of k (flagged e sh)).
  { intros e sh He Hn ->. exists e. by rewrite bind_ret. }
  set (plain := Escape CLI_RX_NORMAL p0 p1 np bad). set (csi0 := Escape CLI_RX_NORMAL 0 0 0 false).
  destruct swap; intros Hin; unfold bindings in Hin;
    repeat (apply elem_of_cons in Hin as [[= -> ->]|Hin];
      [first [ by apply (Hend plain) | by apply (Hend csi0); [|simpl; lia|]
             | by apply (Hend (Escape CLI_RX_NORMAL 1 0 1 false)); [|simpl; lia|]
             | by apply (Hend (Escape CLI_RX_NORMAL 2 0 1 false)); [|simpl; lia|]
             | by apply (Hend (Escape CLI_RX_NORMAL 3 0 1 false)); [|simpl; lia|]
             | by apply (Hend (Escape CLI_RX_NORMAL 4 0 1 false)); [|simpl; lia|]
             | by apply (Hend (Escape CLI_RX_NORMAL 7 0 1 false)); [|simpl; lia|]
             | by apply (Hend (Escape CLI_RX_NORMAL 8 0 1 false)); [|simpl; lia|] ]|]);
    by apply elem_of_nil in Hin.
Qed.

Lemma key_input bs k sh : ready sh -> types (bs_swap sh) bs k ->
  exists e, rx e = CLI_RX_NORMAL /\ ((esc_np (esc sh) <= 2)%nat -> (esc_np e <= 2)%nat) /\
    input_bytes bs sh = op_of k (flagged e sh).
Proof.
  intros Hr [Hin|(ch & -> & -> & Hch)]; [by apply binding_input|]. destruct Hr as [Hrx Hd].
  exists (esc sh). split_and!; [done|done|]. cbn [input_bytes]. rewrite input_step by (done || lia). cbv zeta.
  change (rx (esc (set_tab_list_armed false sh))) with (rx (esc sh)). rewrite Hrx. unfold in_normal, control_key.
  rewrite (proj2 (Z.eqb_neq ch 13)), (proj2 (Z.eqb_neq ch 10)) by lia. cbv zeta. ifs.
  replace (flagged (esc sh) sh) with (set_prev_cr false (set_tab_list_armed false sh)) by (by destruct sh).
  apply bind_ret.
Qed.
End keys.

(** ** The invariant of the editor *)

Section invariant.
Context {W : Type} `{Port W} `{Commands W}.
Implicit Types (c : console W) (sh : cli_instance W) (p q : list Z).

(** The line ends with a NUL inside its buffer, the cursor is on it, line and
    prompt are printable text, the history ring is a list of such lines with the
    recall position on one of them, and the escape parser has at most two
    parameters. *)
Record well_formed sh : Prop := {
  wf_sizes : sizes_ok sh;
  wf_end : line (inp sh) !! len (inp sh) = Some 0;
  wf_text : printable (line_text sh);
  wf_prompt : printable (prompt sh);
  wf_hist : exists es nav, hist_rep (his sh) es /\ nav_rep (his sh) es nav /\ Forall (fun e => printable e) es;
  wf_np : (esc_np (esc sh) <= 2)%nat;
}.

Lemma wf_holds sh : well_formed sh -> exists p q, holds (inp sh) p q /\ printable (p ++ q).
Proof.
  intros [([Hc Hl] & Hs & _) He Ht _ _ _]. do 2 eexists. split; [by apply holds_intro|].
  unfold line_text in Ht. rewrite <-(holds_text (inp sh) _ _ (holds_intro _ Hc Hl Hs He)). exact Ht.
Qed.

(** Everything but the line untouched, a new printable line. *)
Record keeps sh sh' : Prop := {
  ke_his : his sh' = his sh; ke_np : ((esc_np (esc sh) <= 2)%nat -> (esc_np (esc sh') <= 2)%nat);
  ke_prompt : prompt sh' = prompt sh; ke_width : term_width sh' = term_width sh;
}.

Lemma holds_line_ok i p q : holds i p q -> line_ok i.
Proof. intros Hh. pose proof (holds_fits _ _ _ Hh). pose proof Hh as [_ Hs Hl Hc]. split; rewrite Hl, length_app; lia. Qed.

Lemma holds_end i p q : holds i p q -> line i !! len i = Some 0.
Proof. intros [(r & ->) _ -> _]. rewrite app_assoc. by apply list_lookup_middle. Qed.

Lemma wf_keeps sh sh' p q : well_formed sh -> keeps sh sh' -> holds (inp sh') p q -> printable (p ++ q) -> well_formed sh'.
Proof.
  intros [(_ & _ & Hp & Hw) _ _ Hpr Hh Hn] [E1 E2 E3 E4] Hi Ht. split.
  - unfold sizes_ok. rewrite E3, E4. split_and!; [by eapply holds_line_ok|by destruct Hi|done|done].
  - by eapply holds_end.
  - unfold line_text. by rewrite (holds_text _ _ _ Hi).
  - by rewrite E3.
  - by rewrite E1.
  - by apply E2.
Qed.

Lemma keeps_refl sh : keeps sh sh.
Proof. by split. Qed.
Lemma keeps_refresh sh sh' : keeps sh sh' -> keeps sh (cli_edit_refresh sh').
Proof. intros [????]. unfold cli_edit_refresh. destruct (cli_lock _); by split. Qed.
Lemma inp_refresh sh : inp (cli_edit_refresh sh) = inp sh.
Proof. unfold cli_edit_refresh. by destruct (cli_lock _). Qed.
Lemma keeps_move n sh : keeps sh (move_to n sh).
Proof. unfold move_to, edit_reposition. destruct (cli_lock _); by split. Qed.
Lemma inp_move n sh : inp (move_to n sh) = Input (line (inp sh)) (len (inp sh)) n.
Proof. unfold move_to, edit_reposition. by destruct (cli_lock _). Qed.

Lemma wf_refresh sh : well_formed sh -> well_formed (cli_edit_refresh sh).
Proof.
  intros Hw. destruct (wf_holds sh Hw) as (p & q & Hh & Ht). apply (wf_keeps sh _ p q); [done| | |done].
  - apply keeps_refresh, keeps_refl.
  - by rewrite inp_refresh.
Qed.

Lemma draws_holds sh p q sh' : draws sh p q sh' -> holds (inp sh') p q /\ keeps sh sh'.
Proof.
  destruct 1 as [p q Hh|p q b Hh|p q Hh|i p q Hh|p q p0 q0 Hh E|p ch i Hh Hi _|p ch i Hh Hi _].
  - by split.
  - by split.
  - by split.
  - rewrite inp_refresh. split; [done|]. by apply keeps_refresh.
  - rewrite inp_move. split; [|apply keeps_move]. by apply (holds_move _ p0 q0).
  - by split.
  - by split.
Qed.

Lemma wf_draws sh p q sh' : well_formed sh -> printable (p ++ q) -> draws sh p q sh' -> well_formed sh'.
Proof. intros Hw Ht Hd. destruct (draws_holds _ _ _ _ Hd) as [Hh Hk]. by eapply wf_keeps. Qed.

(** No key makes an unprintable text. *)
Lemma key_step_printable k t : (forall ch, k = KChar ch -> 32 <= ch <= 126) ->
  printable (before t ++ after t) -> printable (before (key_step k t) ++ after (key_step k t)).
Proof.
  intros Hk Hpq. pose proof Hpq as [Hp Hq]%Forall_app. destruct k; cbn [key_step]; rewrite ?Forall_app;
    try (unfold cut_at; cbn [before after over]; by rewrite <-Forall_app, take_drop).
  - assert (Hch : printable [c]) by (constructor; [by apply Hk|done]).
    case_if; [|case_if]; cbn [before after]; rewrite ?Forall_app; split_and!; try done. by destruct (after t); [|apply Forall_cons in Hq as [_ ?]].
  - cbn [before after]. split; [|done]. destruct (exists_last_or_nil (before t)) as [E|(l & x & E)]; rewrite E in *; [done|].
    rewrite removelast_last. by apply Forall_app in Hp as [? _].
  - cbn [before after]. split; [done|]. by destruct (after t); [|apply Forall_cons in Hq as [_ ?]].
  - by split.
  - by split.
  - cbn [before after]. split; [by apply Forall_take|done].
  - by split.
Qed.

Lemma wf_op k sh : well_formed sh -> (forall ch, k = KChar ch -> 32 <= ch <= 126) ->
  exists sh', op_of k sh = Some sh' /\ well_formed sh'.
Proof.
  intros Hw Hk. destruct (wf_holds sh Hw) as (p & q & Hh & Ht).
  destruct (op_of_draws k sh p q Hh) as (sh' & E & Hd & _). exists sh'. split; [done|].
  eapply wf_draws; [done| |done]. by apply (key_step_printable k (Text p q (overwrite sh))).
Qed.
End invariant.

(** ** No byte leaves the invariant *)

Section safety.
Context {W : Type} `{Port W} `{Commands W} (Hroots : Forall names_ok root_cmds).
Implicit Types (c : console W) (sh : cli_instance W) (p q : list Z).

(** [o] is a well-formed shell. *)
Definition safe (o : option (cli_instance W)) : Prop := exists sh, o = Some sh /\ well_formed sh.

Lemma wf_same sh sh' : well_formed sh -> inp sh' = inp sh -> keeps sh sh' -> well_formed sh'.
Proof.
  intros Hw Hi Hk. destruct (wf_holds sh Hw) as (p & q & Hh & Ht). apply (wf_keeps sh sh' p q); [done|done| |done]. by rewrite Hi.
Qed.

Lemma safe_same sh sh' : well_formed sh -> inp sh' = inp sh -> keeps sh sh' -> safe (Some sh').
Proof. intros. exists sh'. split; [done|]. by eapply wf_same. Qed.

Lemma safe_op k sh : well_formed sh -> (forall ch, k = KChar ch -> 32 <= ch <= 126) -> safe (op_of k sh).
Proof. intros Hw Hk. by apply wf_op. Qed.

(** A line loaded from the history, with the new recall position. *)
Lemma wf_recall sh es i h nav e :
  well_formed sh -> holds_line i e -> printable e -> hist_rep h es -> nav_rep h es nav -> Forall (fun e => printable e) es ->
  well_formed (cli_edit_redraw (set_inp i (set_his h sh))).
Proof.
  intros Hw (Hs & Hl & Hc & Ht) He Hr Hn Hes. apply wf_refresh.
  assert (Hi : holds i e []).
  { split; [exists (drop (length e + 1) (line i))|done|by rewrite app_nil_r|done].
    rewrite <-(take_drop (length e + 1) (line i)) at 1. by rewrite Ht, <-app_assoc. }
  apply (wf_keeps (set_his h sh) _ e []); [|by split|done|by rewrite app_nil_r].
  destruct Hw. split; try done. by exists es, nav.
Qed.

Lemma safe_history_prev sh : well_formed sh -> safe (cli_history_prev sh).
Proof.
  intros Hw. destruct (wf_hist sh Hw) as (es & nav & Hr & Hn & Hes).
  destruct (history_prev_spec sh es nav Hr Hn) as (sh' & E & Hp); [apply Hw|]. exists sh'. split; [done|].
  destruct (nav_prev (length es) nav) as [i|]; [|by subst]. case_decide; [by subst|].
  destruct Hp as (e & i' & h' & He & -> & Hl & Hr' & Hn'). eapply wf_recall; [done|exact Hl| |exact Hr'|exact Hn'|done].
  by eapply Forall_lookup_1 in Hes.
Qed.

Lemma safe_history_next sh : well_formed sh -> safe (cli_history_next sh).
Proof.
  intros Hw. destruct (wf_hist sh Hw) as (es & nav & Hr & Hn & Hes).
  destruct (history_next_spec sh es nav Hr Hn) as (sh' & E & Hp); [apply Hw|]. exists sh'. split; [done|].
  destruct nav as [n|]; [|by subst]. destruct (nav_next (length es) (Some n)) as [i|].
  - destruct Hp as (e & i' & h' & He & -> & Hl & Hr' & Hn'). eapply wf_recall; [done|exact Hl| |exact Hr'|exact Hn'|done].
    by eapply Forall_lookup_1 in Hes.
  - destruct Hp as (i' & h' & -> & Hl & Hr' & Hn'). by eapply wf_recall.
Qed.

Lemma safe_tab sh : well_formed sh -> safe (cli_tab_complete root_cmds sh).
Proof.
  intros Hw. destruct (wf_holds sh Hw) as (p & q & Hh & Ht).
  destruct (tab_complete_spec root_cmds p q sh Hh) as (sh' & bef & w & t & i & E & _ & Hins & (r & c & b & ->) & Hi).
  eexists. split; [done|]. apply (wf_keeps sh _ (p ++ t) q); [done|by split|done|].
  apply (tab_inserts_printable _ Hroots) in Hins.
  apply Forall_app in Ht as [??]. repeat (apply Forall_app; split); done.
Qed.

Lemma printable_no_nul (s : list Z) : printable s -> no_nul s.
Proof. intros Hs. eapply Forall_impl; [exact Hs|]. simpl. lia. Qed.

Lemma holds_empty (l : list Z) : length l = CLI_CMD_BUFFER_SIZE -> l !! 0%nat = Some 0 -> holds (Input l 0 0) [] [].
Proof. destruct l as [|x l]; [done|]. intros Hs [= ->]. split; [by exists l|done..]. Qed.

Lemma safe_dispatch sh : well_formed sh -> safe (cli_dispatch_line sh).
Proof.
  intros Hw. destruct (wf_hist sh Hw) as (es & nav & Hr & Hn & Hes).
  pose proof (wf_sizes sh Hw) as (Hl & Hs & _).
  destruct (dispatch_line_spec sh es Hl Hs) as (sh' & E & Hsub); [apply printable_no_nul, Hw|done|].
  exists sh'. split; [done|]. destruct Hsub as (c1 & c2 & l & h & _ & _ & Hll & Hl0 & Hh & ->).
  assert (Hes' : exists es', hist_rep h es' /\ Forall (fun e => printable e) es').
  { case_decide; [subst h; by exists es|]. destruct Hh as (k & Hr' & _). exists (drop k es ++ [line_text sh]). split; [done|].
    apply Forall_app. split; [by apply Forall_drop|]. constructor; [apply Hw|done]. }
  destruct Hes' as (es' & Hr' & Hp').
  apply (wf_keeps (set_his (set_nav false 0 h) sh) _ [] []); [|by split|by apply holds_empty|done].
  destruct Hw. split; try done. exists es', None. split_and!; [by apply rep_set_nav|done|done].
Qed.

Lemma safe_submit sh : well_formed sh -> safe (edit_submit sh).
Proof.
  intros Hw. unfold edit_submit. cbv zeta. apply safe_dispatch. case_if; [|done].
  destruct (wf_holds sh Hw) as (p & q & Hh & Ht). pose proof (ho_len _ _ _ Hh) as Hl.
  rewrite Hl. eapply (wf_draws sh (p ++ q) []); [done|by rewrite app_nil_r|].
  apply (dr_move sh (p ++ q) [] p q); [done|by rewrite app_nil_r].
Qed.

Lemma safe_ctrl_c sh : well_formed sh -> safe (ctrl_c sh).
Proof.
  intros Hw. pose proof (wf_sizes sh Hw) as (_ & Hs & _). unfold ctrl_c. cbv zeta.
  change (line (inp (write_on _ _))) with (line (inp sh)).
  rewrite buf_set_Some by (rewrite Hs; unfold CLI_CMD_BUFFER_SIZE; lia). cbn [mbind option_bind].
  eexists. split; [done|]. destruct (wf_hist sh Hw) as (es & nav & Hr & Hn & Hes).
  apply (wf_keeps (set_his (set_nav false (hist_nav (his sh)) (his sh)) sh) _ [] []); [|by split| |done].
  - destruct Hw. split; try done. exists es, None. split_and!; [by apply rep_set_nav|done|done].
  - apply holds_empty; [by rewrite length_insert|].
    apply list_lookup_insert_eq. rewrite Hs. unfold CLI_CMD_BUFFER_SIZE. lia.
Qed.
End safety.

Section safety2.
Context {W : Type} `{Port W} `{Commands W} (Hroots : Forall names_ok root_cmds).
Implicit Types (c : console W) (sh : cli_instance W) (p q : list Z).

Ltac by_same Hw := eapply wf_same; [exact Hw|done|by split].

Lemma wf_flags sh : well_formed sh ->
  (forall x, well_formed (set_rx x sh)) /\ (forall b, well_formed (set_prev_cr b sh)) /\
  (forall b, well_formed (set_tab_list_armed b sh)) /\ (forall c, well_formed (set_con c sh)) /\
  (forall r, well_formed (set_rend r sh)) /\ (forall b, well_formed (set_probing_cpr b sh)).
Proof. intros Hw. split_and!; intros ?; by_same Hw. Qed.

Lemma wf_safe sh : well_formed sh -> safe (Some sh).
Proof. by exists sh. Qed.

Lemma safe_ss3 f sh : well_formed sh -> safe (ss3_final f sh).
Proof.
  intros Hw. unfold ss3_final.
  repeat case_if; auto using wf_safe, safe_history_prev, safe_history_next;
    first [by apply (safe_op KRight) | by apply (safe_op KLeft) | by apply (safe_op KHome) | by apply (safe_op KEnd)].
Qed.

Lemma wf_width w sh : 20 <= w <= 255 -> well_formed sh -> well_formed (set_term_width w sh).
Proof. intros Hw [(?&?&?&_) ? ? ? ? ?]. split; try done. split_and!; try done. by right. Qed.

Lemma safe_csi f sh : well_formed sh -> safe (csi_final f sh).
Proof.
  intros Hw. unfold csi_final. cbv zeta.
  repeat match goal with |- safe (if ?b then _ else _) => destruct b eqn:? end;
    auto using wf_safe, safe_history_prev, safe_history_next;
    try first [by apply (safe_op KRight) | by apply (safe_op KLeft) | by apply (safe_op KHome) | by apply (safe_op KEnd)
              | by apply (safe_op KDelete) | by apply (safe_op KInsert)].
  assert (Hb : 20 <= esc_p1 (esc sh) <= 255) by lia. rewrite u8_small by (unfold is_u8; lia).
  destruct (wf_flags sh Hw) as (_&_&_&_&_&Hp). apply wf_safe. case_if; [|apply Hp]. apply wf_refresh, wf_width; [done|apply Hp].
Qed.

Lemma safe_control b sh r : well_formed sh -> control_key b sh = Some r -> safe r.
Proof.
  intros Hw E. unfold control_key in E.
  repeat match type of E with (if ?x then _ else _) = _ => destruct x end; simplify_eq;
    auto using safe_history_prev, safe_history_next, safe_tab;
    try first [by apply (safe_op KRight) | by apply (safe_op KLeft) | by apply (safe_op KHome) | by apply (safe_op KEnd)
              | by apply (safe_op KDelete) | by apply (safe_op KKillEol) | by apply (safe_op KKillBol)
              | by apply (safe_op KDelWord) | by apply (safe_op KBackspace)].
  - apply wf_safe. by apply wf_flags.
  - apply wf_safe. unfold op_clear_screen. apply wf_refresh. by_same Hw.
  - destruct (bs_swap sh); [by apply (safe_op KDelete)|by apply (safe_op KBackspace)].
Qed.

Lemma safe_normal b sh : well_formed sh -> safe (in_normal b sh).
Proof.
  intros Hw. destruct (wf_flags sh Hw) as (_ & Hcr & _). unfold in_normal. case_if.
  { destruct (safe_submit sh Hw) as (sh' & -> & Hw'). cbn [mbind option_bind]. apply wf_safe. by apply wf_flags. }
  case_if; [case_if; [by apply wf_safe|by apply safe_submit]|]. cbv zeta.
  destruct (control_key b _) as [r|] eqn:Ek; [eapply safe_control; [apply Hcr|exact Ek]|].
  case_if; [|apply wf_safe, Hcr]. apply (safe_op (KChar b)); [apply Hcr|]. intros ch [= ->]. lia.
Qed.

Lemma safe_esc b sh : well_formed sh -> safe (in_esc b sh).
Proof.
  intros Hw. destruct (wf_flags sh Hw) as (Hrx & _). unfold in_esc. cbv zeta. repeat case_if; auto using wf_safe.
  - apply wf_safe. eapply wf_same; [exact Hw|done|]. split; try done. simpl. lia.
  - by apply (safe_op KWordLeft).
  - by apply (safe_op KWordRight).
Qed.

Lemma safe_csi_byte b sh : well_formed sh -> safe (in_csi b sh).
Proof.
  intros Hw. destruct (wf_flags sh Hw) as (Hrx & _). pose proof (wf_np sh Hw) as Hn. unfold in_csi. case_if.
  { unfold esc_digit. destruct (esc_np (esc sh)) as [|[|[|n]]] eqn:E; cbn [Nat.eqb mbind option_bind]; [..|lia];
      apply wf_safe; (eapply wf_same; [exact Hw|done|]; split; try done; simpl; lia). }
  case_if.
  { apply wf_safe. eapply wf_same; [exact Hw|done|]. split; try done. unfold esc_separator. simpl.
    destruct (Nat.ltb_spec (esc_np (esc sh)) 2); simpl; lia. }
  cbv zeta. case_if; [by apply safe_csi|by apply wf_safe].
Qed.

Lemma input_byte_safe b sh : well_formed sh -> safe (cli_input_byte b sh).
Proof.
  intros Hw. unfold cli_input_byte. cbv zeta. set (sh1 := if render_dirty _ then _ else sh).
  assert (Hw1 : well_formed sh1) by (unfold sh1; case_if; [apply wf_refresh; by_same Hw|done]). clearbody sh1.
  case_if; [by apply wf_safe|]. set (sh2 := if b =? 9 then sh1 else _).
  assert (Hw2 : well_formed sh2) by (unfold sh2; case_if; [done|by_same Hw1]). clearbody sh2.
  case_if; [by apply safe_ctrl_c|]. destruct (rx (esc sh2)); [by apply safe_normal|by apply safe_esc|by apply safe_csi_byte|].
  unfold in_ss3. cbv zeta. destruct (wf_flags sh2 Hw2) as (Hrx & _). case_if; [by apply safe_ss3|by apply wf_safe].
Qed.

Lemma input_bytes_wf bs : forall sh, well_formed sh -> safe (input_bytes bs sh).
Proof.
  induction bs as [|b bs IH]; intros sh Hw; [by apply wf_safe|]. cbn [input_bytes].
  destruct (input_byte_safe b sh Hw) as (sh' & -> & Hw'). cbn [mbind option_bind]. by apply IH.
Qed.

(** A new session: whatever the last one left, once the line buffer, the ring and
    the prompt are the right size. *)
Lemma session_start_wf sh :
  length (line (inp sh)) = CLI_CMD_BUFFER_SIZE -> length (hist (his sh)) = CLI_HISTORY_BUFFER_SIZE ->
  (length (prompt sh) < CLI_PROMPT_BUFFER_SIZE)%nat -> printable (prompt sh) ->
  exists sh0, cli_session_reset_state sh = Some sh0 /\ well_formed (cli_edit_session_start sh0) /\ ready sh0.
Proof.
  intros Hs Hh Hp Hpr. unfold cli_session_reset_state. rewrite buf_set_Some by (rewrite Hs; unfold CLI_CMD_BUFFER_SIZE; lia).
  cbn [mbind option_bind]. eexists. split; [done|]. split; [|done].
  set (l := <[0%nat:=0]> (line (inp sh))). assert (Hl : length l = CLI_CMD_BUFFER_SIZE) by (unfold l; by rewrite length_insert).
  unfold cli_edit_session_start. cbv zeta. apply wf_refresh. split; try done.
  - split_and!; try done; [split; simpl; [lia|]|right; unfold CLI_TERM_WIDTH; simpl; lia].
    rewrite Hl. unfold CLI_CMD_BUFFER_SIZE. lia.
  - simpl. apply list_lookup_insert_eq. rewrite Hs. unfold CLI_CMD_BUFFER_SIZE. lia.
  - exists [], None. split_and!; [|done|constructor]. split; simpl; try done. lia.
  - simpl. lia.
Qed.
End safety2.

(** ** What the terminal shows after a key *)

Section display.
Context {W : Type} `{Port W} `{Commands W} (t0 : term).
Implicit Types (c : console W) (sh : cli_instance W) (p q : list Z).

(** A write by the interactive shell itself, when nothing fails. *)
Lemma write_wire d sh : quiet sh -> fg (con sh) = None -> tx_failed (con (write_on d sh)) = false ->
  wire (env (con (write_on d sh))) = wire (env (con sh)) ++ d /\ out_buf (con (write_on d sh)) = [].
Proof.
  intros [Hb Hf] Hg. unfold write_on, on_con. simpl. pose proof (cli_write_spec d (con sh) Hb Hf) as Hs.
  destruct (cli_write d (con sh)) as [r c']. destruct Hs as (Hb' & brk & Hn & _ & Hr). rewrite (Hn Hg) in Hr. simpl.
  intros Hf'. split; [|done]. case_decide; [by destruct Hr as [_ ->]|]. destruct Hr as (_ & Ht & _). congruence.
Qed.

Lemma screen_write d sh : quiet sh -> fg (con sh) = None -> tx_failed (con (write_on d sh)) = false ->
  screen t0 (write_on d sh) = term_run (edit_cols sh) d (screen t0 sh).
Proof.
  intros Hq Hg Hf. unfold screen. change (edit_cols (write_on d sh)) with (edit_cols sh).
  destruct (write_wire d sh Hq Hg Hf) as [-> _]. apply term_run_app.
Qed.

Lemma shown_holds sh p q : holds (inp sh) p q -> shown sh = prompt sh ++ p ++ q.
Proof. intros Hh. unfold shown. by rewrite (holds_text _ _ _ Hh). Qed.
Lemma pcur_holds sh p q : holds (inp sh) p q -> pcur_of sh = Z.of_nat (length (prompt sh ++ p)).
Proof. intros Hh. unfold pcur_of. rewrite (ho_cur _ _ _ Hh), length_app. lia. Qed.
Lemma pend_holds sh p : holds (inp sh) p [] -> pend_of sh = pcur_of sh.
Proof. intros Hh. unfold pend_of, pcur_of. destruct (holds_sizes _ _ _ Hh) as [-> ->]. simpl. lia. Qed.

(** The cell at offset [i] of the text. *)
Lemma put_cell_offset cols b i x f (r c : Z) : 0 < cols -> 0 <= i -> b <= r -> 0 <= c < cols ->
  put_cell (b + i / cols) (i mod cols) x f r c = if (r - b) * cols + c =? i then x else f r c.
Proof.
  intros Hcols Hi Hr Hc. pose proof (Z.div_mod i cols ltac:(lia)). pose proof (Z.mod_pos_bound i cols ltac:(lia)). unfold put_cell.
  destruct (Z.eqb_spec ((r - b) * cols + c) i) as [E|E].
  - assert (Hd : r - b = i / cols) by (apply (Z.div_unique i cols (r - b) c); lia).
    assert (Hm : c = i mod cols) by (apply (Z.mod_unique i cols (r - b) c); lia).
    by rewrite (proj2 (Z.eqb_eq r _)), (proj2 (Z.eqb_eq c _)) by lia.
  - destruct (Z.eqb_spec r (b + i / cols)), (Z.eqb_spec c (i mod cols)); try done. subst. exfalso. apply E. lia.
Qed.

Lemma put_cell_above cols b i x t (k : Z) w e : 0 < cols -> 0 <= i ->
  same_above b t (Term (put_cell (b + i / cols) (i mod cols) x (cell t)) (b + i / cols) k w e).
Proof.
  intros Hcols Hi r c Hr. simpl. unfold put_cell. assert (0 <= i / cols) by (apply Z.div_pos; lia).
  by rewrite (proj2 (Z.eqb_neq r _)) by lia.
Qed.

(** The next offset, off the wrap boundary, is in the same row. *)
Lemma next_offset cols i : 2 <= cols -> 0 <= i -> (i + 1) mod cols <> 0 ->
  (i + 1) / cols = i / cols /\ (i + 1) mod cols = i mod cols + 1 /\ 0 <= i mod cols < cols - 1.
Proof.
  intros Hcols Hi Hoff. assert (Hm : 0 <= i mod cols < cols) by (apply Z.mod_pos_bound; lia).
  pose proof (Z.div_mod i cols ltac:(lia)) as Hdm.
  assert (i mod cols <> cols - 1).
  { intros E. apply Hoff. replace (i + 1) with (0 + (i / cols + 1) * cols) by lia. rewrite Z.mod_add by lia. apply Z.mod_0_l. lia. }
  split_and!; [symmetry; apply (Z.div_unique _ cols (i / cols) (i mod cols + 1)); lia
              |symmetry; apply (Z.mod_unique _ cols (i / cols) (i mod cols + 1)); lia|lia|lia].
Qed.

(** One more character at the end, off the wrap boundary. *)
Lemma type_char cols b text ch t :
  2 <= cols < 1000 -> 32 <= ch <= 126 -> (Z.of_nat (length text) + 1) mod cols <> 0 ->
  shows_from cols b text t -> cursor_at cols b (Z.of_nat (length text)) t ->
  let t' := term_run cols [ch] t in
  shows_from cols b (text ++ [ch]) t' /\ same_above b t t' /\ cursor_at cols b (Z.of_nat (length (text ++ [ch]))) t'.
Proof.
  intros Hcols Hch Hoff Hs (Hr & Hc & Hw & He). set (i := Z.of_nat (length text)) in *.
  assert (Hi : 0 <= i) by (unfold i; lia). destruct (next_offset cols i ltac:(lia) Hi Hoff) as (Hdiv & Hmod & Hlast).
  assert (E : term_run cols [ch] t = Term (put_cell (b + i / cols) (i mod cols) ch (cell t)) (b + i / cols) (i mod cols + 1) false TText).
  { unfold term_run. cbn [fold_left]. unfold term_byte. rewrite He. ifs. unfold term_char. rewrite Hw, Hr, Hc. by ifs. }
  cbv zeta. rewrite E. split_and!.
  - intros r c Hbr Hcc. cbn [cell]. rewrite put_cell_offset, (Hs r c) by lia.
    assert (Hn : 0 <= (r - b) * cols + c) by nia.
    destruct (Z.eqb_spec ((r - b) * cols + c) i) as [Ei|Ei].
    + rewrite Ei. unfold i. by rewrite Nat2Z.id, app_nth2, Nat.sub_diag by lia.
    + destruct (Nat.lt_ge_cases (Z.to_nat ((r - b) * cols + c)) (length text)) as [Hlt|Hge]; [by rewrite app_nth1|].
      rewrite !nth_overflow; [done|rewrite length_app; simpl; unfold i in *; lia|lia].
  - apply put_cell_above; lia.
  - assert (Hl : Z.of_nat (length (text ++ [ch])) = i + 1) by (unfold i; rewrite length_app; simpl; lia).
    rewrite Hl. split_and!; simpl; [by rewrite Hdiv|by rewrite Hmod|done|done].
Qed.

(** One character less: "\b \b". *)
Lemma erase_char cols b text ch t :
  2 <= cols < 1000 -> Z.of_nat (length (text ++ [ch])) mod cols <> 0 ->
  shows_from cols b (text ++ [ch]) t -> cursor_at cols b (Z.of_nat (length (text ++ [ch]))) t ->
  let t' := term_run cols [8; 32; 8] t in
  shows_from cols b text t' /\ same_above b t t' /\ cursor_at cols b (Z.of_nat (length text)) t'.
Proof.
  intros Hcols Hoff Hs (Hr & Hc & Hw & He).
  assert (Hl : Z.of_nat (length (text ++ [ch])) = Z.of_nat (length text) + 1) by (rewrite length_app; simpl; lia).
  rewrite Hl in *. set (i := Z.of_nat (length text)) in *. assert (Hi : 0 <= i) by (unfold i; lia).
  destruct (next_offset cols i ltac:(lia) Hi Hoff) as (Hdiv & Hmod & Hlast). rewrite Hdiv in Hr. rewrite Hmod in Hc.
  assert (E : term_run cols [8; 32; 8] t = Term (put_cell (b + i / cols) (i mod cols) BLANK (cell t)) (b + i / cols) (i mod cols) false TText).
  { assert (E1 : term_byte cols t 8 = Term (cell t) (b + i / cols) (i mod cols) false TText).
    { unfold term_byte. rewrite He. cbn [Z.eqb]. rewrite Hr, Hc. do 2 f_equal. lia. }
    assert (E2 : term_byte cols (term_byte cols t 8) 32 =
              Term (put_cell (b + i / cols) (i mod cols) BLANK (cell t)) (b + i / cols) (i mod cols + 1) false TText).
    { rewrite E1. unfold term_byte. cbn [tesc]. ifs. unfold term_char. cbn [twrap trow tcol cell]. by ifs. }
    unfold term_run. cbn [fold_left]. rewrite E2. unfold term_byte. cbn [tesc cell trow tcol]. ifs. do 2 f_equal. lia. }
  cbv zeta. rewrite E. split_and!.
  - intros r c Hbr Hcc. cbn [cell]. rewrite put_cell_offset, (Hs r c) by lia.
    assert (Hn : 0 <= (r - b) * cols + c) by nia.
    destruct (Z.eqb_spec ((r - b) * cols + c) i) as [Ei|Ei].
    + rewrite Ei. by rewrite nth_overflow by (unfold i; lia).
    + destruct (Nat.lt_ge_cases (Z.to_nat ((r - b) * cols + c)) (length text)) as [Hlt|Hge]; [by rewrite app_nth1|].
      rewrite !nth_overflow; [done|lia|rewrite length_app; simpl; unfold i in *; lia].
  - apply put_cell_above; lia.
  - done.
Qed.
End display.

Section display2.
Context {W : Type} `{Port W} `{Commands W} (t0 : term).
Implicit Types (sh : cli_instance W) (p q : list Z).

(** The interactive shell, with its line on the screen from row [b]. *)
Record showing (b : Z) sh : Prop := {
  sw_wf : well_formed sh;
  sw_quiet : quiet sh;
  sw_fg : fg (con sh) = None;
  sw_displayed : displayed t0 b sh;
}.

Lemma same_above_refl b t : same_above b t t.
Proof. done. Qed.

Lemma wf_cols sh : well_formed sh -> 2 <= edit_cols sh < 1000.
Proof. intros Hw. pose proof (cols_bounds sh (wf_sizes sh Hw)). lia. Qed.

(** The fast append. *)
Lemma append_shows b sh p ch i : showing b sh -> 32 <= ch <= 126 ->
  holds (inp sh) p [] -> holds i (p ++ [ch]) [] -> (pend_of sh + 1) mod edit_cols sh <> 0 ->
  let sh' := write_on [ch] (set_inp i sh) in
  tx_failed (con sh') = false -> displayed t0 b sh' /\ same_above b (screen t0 sh) (screen t0 sh').
Proof.
  intros [Hw Hq Hg [T C R D]] Hch Hh Hi Hoff sh' Hf. pose proof (wf_cols sh Hw) as Hcols.
  pose proof (screen_write t0 [ch] (set_inp i sh) Hq Hg Hf) as Hscr.
  change (screen t0 (set_inp i sh)) with (screen t0 sh) in Hscr. change (edit_cols (set_inp i sh)) with (edit_cols sh) in Hscr.
  rewrite (pend_holds sh p Hh), (pcur_holds sh p [] Hh) in Hoff.
  rewrite (pcur_holds sh p [] Hh) in C, D. rewrite (shown_holds sh p [] Hh), app_nil_r in T, R.
  destruct (type_char (edit_cols sh) b _ ch _ Hcols Hch Hoff T C) as (T' & A & C'). rewrite <-Hscr, <-app_assoc in *.
  assert (Hs' : shown sh' = prompt sh ++ p ++ [ch]) by (unfold sh'; by rewrite (shown_holds (write_on [ch] (set_inp i sh)) (p ++ [ch]) [] Hi), app_nil_r).
  assert (Hp' : pcur_of sh' = Z.of_nat (length (prompt sh ++ p ++ [ch]))) by exact (pcur_holds sh' _ _ Hi).
  destruct (next_offset (edit_cols sh) (Z.of_nat (length (prompt sh ++ p))) ltac:(lia) ltac:(lia) Hoff) as (Hdiv & _).
  assert (Hl : Z.of_nat (length (prompt sh ++ p ++ [ch])) = Z.of_nat (length (prompt sh ++ p)) + 1) by list_len.
  split; [|exact A]. split.
  - rewrite Hs'. exact T'.
  - rewrite Hp'. exact C'.
  - rewrite Hs', Hl. change (edit_cols sh') with (edit_cols sh). rewrite Hdiv. exact R.
  - rewrite Hp', Hl. change (edit_cols sh') with (edit_cols sh). rewrite Hdiv. exact D.
Qed.

(** The fast erase. *)
Lemma erase_shows b sh p ch i : showing b sh ->
  holds (inp sh) (p ++ [ch]) [] -> holds i p [] -> pend_of sh mod edit_cols sh <> 0 ->
  let sh' := write_on [8; 32; 8] (set_inp i sh) in
  tx_failed (con sh') = false -> displayed t0 b sh' /\ same_above b (screen t0 sh) (screen t0 sh').
Proof.
  intros [Hw Hq Hg [T C R D]] Hh Hi Hoff sh' Hf. pose proof (wf_cols sh Hw) as Hcols.
  pose proof (screen_write t0 [8; 32; 8] (set_inp i sh) Hq Hg Hf) as Hscr.
  change (screen t0 (set_inp i sh)) with (screen t0 sh) in Hscr. change (edit_cols (set_inp i sh)) with (edit_cols sh) in Hscr.
  rewrite (pend_holds sh _ Hh), (pcur_holds sh _ [] Hh) in Hoff.
  rewrite (pcur_holds sh _ [] Hh) in C, D. rewrite (shown_holds sh _ [] Hh), app_nil_r in T, R.
  rewrite app_assoc in T, C, R, D, Hoff.
  destruct (erase_char (edit_cols sh) b _ ch _ Hcols Hoff T C) as (T' & A & C'). rewrite <-Hscr in *.
  assert (Hs' : shown sh' = prompt sh ++ p) by (unfold sh'; by rewrite (shown_holds (write_on _ (set_inp i sh)) p [] Hi), app_nil_r).
  assert (Hp' : pcur_of sh' = Z.of_nat (length (prompt sh ++ p))) by exact (pcur_holds sh' _ _ Hi).
  assert (Hl : Z.of_nat (length ((prompt sh ++ p) ++ [ch])) = Z.of_nat (length (prompt sh ++ p)) + 1) by list_len.
  rewrite Hl in *. destruct (next_offset (edit_cols sh) (Z.of_nat (length (prompt sh ++ p))) ltac:(lia) ltac:(lia) Hoff) as (Hdiv & _).
  split; [|exact A]. split.
  - rewrite Hs'. exact T'.
  - rewrite Hp'. exact C'.
  - rewrite Hs'. change (edit_cols sh') with (edit_cols sh). rewrite <-Hdiv. exact R.
  - rewrite Hp'. change (edit_cols sh') with (edit_cols sh). rewrite <-Hdiv. exact D.
Qed.

Lemma bell_shows b sh : showing b sh -> let sh' := write_on [7] sh in
  tx_failed (con sh') = false -> displayed t0 b sh' /\ same_above b (screen t0 sh) (screen t0 sh').
Proof.
  intros [Hw Hq Hg Hd] sh' Hf. pose proof Hd as [T C R D].
  assert (Hscr : screen t0 sh' = screen t0 sh).
  { unfold sh'. rewrite (screen_write t0 [7] sh Hq Hg Hf). destruct C as (_ & _ & _ & He). unfold term_run, term_byte. cbn [fold_left]. by rewrite He. }
  split; [|by rewrite Hscr]. split; rewrite ?Hscr; [exact T|exact C|exact R|exact D].
Qed.

Lemma draws_shows b sh p q sh' : showing b sh -> printable (p ++ q) -> draws sh p q sh' ->
  tx_failed (con sh') = false -> displayed t0 b sh' /\ same_above b (screen t0 sh) (screen t0 sh').
Proof.
  intros Hsh Ht Hd Hf. pose proof Hsh as [Hw Hq Hg Hdis]. pose proof (wf_sizes sh Hw) as Hsz.
  destruct Hd as [p q Hh|p q m Hh|p q Hh|i p q Hh|p q p0 q0 Hh E|p ch i Hh Hi Hoff|p ch i Hh Hi Hoff].
  - by split.
  - split; [|done]. by destruct Hdis.
  - by apply bell_shows.
  - destruct (refresh_displays t0 b (set_inp i sh)) as (_ & _ & _ & Hshow); [| done | | |by apply Hshow].
    + destruct Hsz as (_ & _ & ? & ?). split_and!; [by eapply holds_line_ok|by destruct Hh|done|done].
    + rewrite (shown_holds (set_inp i sh) p q Hh). apply Forall_app. split; [apply Hw|done].
    + exact (displayed_render t0 b sh Hsz Hdis).
  - pose proof (holds_sizes _ _ _ Hh) as [Hl Hc].
    destruct (reposition_displays t0 b (set_inp (Input (line (inp sh)) (len (inp sh)) (length p)) sh) (cur (inp sh)))
      as (_ & _ & _ & Hshow); [|done| | |by apply Hshow].
    + apply (f_equal length) in E. rewrite !length_app in E.
      destruct Hsz as ([? ?] & ? & ? & ?). split_and!; try done. split; simpl; lia.
    + simpl. lia.
    + destruct sh as [[? ? ?] ? ? ? ? ? ? ? ? ? ? ?]. exact Hdis.
  - apply append_shows with (p := p); try done. apply Forall_app in Ht as [Ht _]. apply Forall_app in Ht as [_ Ht].
    by apply Forall_cons in Ht as [? _].
  - by apply erase_shows with (p := p) (ch := ch).
Qed.
End display2.

Section preserved.
Context {W : Type} `{Port W} `{Commands W} (t0 : term).
Implicit Types (c : console W) (sh : cli_instance W) (p q : list Z).

(** Output never touches whose foreground it is. *)
Lemma fg_flush c : fg (cli_out_flush c) = fg c.
Proof.
  unfold cli_out_flush. destruct (out_buf c); [done|]. destruct (tx_failed c); [done|]. unfold send.
  destruct (cli_tx_send_blocking _ _) as [[[] x] w]; done.
Qed.
Lemma fg_putc c b : fg (cli_out_putc c b) = fg c.
Proof. unfold cli_out_putc. destruct (tx_failed c); [done|]. cbv zeta. case_if; [by rewrite fg_flush|done]. Qed.
Lemma fg_str d : forall c, fg (out_str d c) = fg c.
Proof. induction d as [|b d IH]; intros c; [done|]. cbn [out_str fold_left]. change (fold_left cli_out_putc d ?x) with (out_str d x). by rewrite IH, fg_putc. Qed.

Lemma fg_refresh sh : line_ok (inp sh) -> fg (con (cli_edit_refresh sh)) = fg (con sh).
Proof.
  intros Hl. destruct (cli_lock (env (con sh))) as [w|] eqn:Hw.
  - rewrite (refresh_eq sh w Hl Hw). cbn [con set_con]. unfold cli_out_end. cbn [fg set_env]. by rewrite fg_flush, fg_str.
  - unfold cli_edit_refresh. by rewrite Hw.
Qed.
Lemma fg_move n sh : fg (con (move_to n sh)) = fg (con sh).
Proof.
  unfold move_to. set (sh1 := set_inp _ sh). change (con sh) with (con sh1). clearbody sh1.
  destruct (cli_lock (env (con sh1))) as [w|] eqn:Hw.
  - rewrite (reposition_eq sh1 w Hw). cbn [con set_con]. unfold cli_out_end. cbn [fg set_env]. by rewrite fg_flush, fg_str.
  - unfold edit_reposition. by rewrite Hw.
Qed.
Lemma fg_write d sh : fg (con sh) = None -> fg (con (write_on d sh)) = None.
Proof.
  intros Hg. unfold write_on, on_con. cbn [con set_con]. unfold cli_write, cli_out_begin.
  destruct (cli_lock _) as [w|]; [|done]. cbn [fg set_env]. rewrite Hg. unfold cli_out_end. cbn [snd fg set_env].
  by rewrite fg_flush, fg_str.
Qed.

(** What a key does not touch, and what it leaves of the output path. *)
Lemma draws_frame sh p q sh' : draws sh p q sh' ->
  esc sh' = esc sh /\ render_dirty (rend sh') = render_dirty (rend sh) /\ bs_swap sh' = bs_swap sh /\ his sh' = his sh /\
  (fg (con sh) = None -> fg (con sh') = None).
Proof.
  assert (Hr : forall sh, esc (cli_edit_refresh sh) = esc sh /\ render_dirty (rend (cli_edit_refresh sh)) = render_dirty (rend sh) /\
    bs_swap (cli_edit_refresh sh) = bs_swap sh /\ his (cli_edit_refresh sh) = his sh).
  { intros sh1. unfold cli_edit_refresh. by destruct (cli_lock _). }
  assert (Hm : forall n sh, esc (move_to n sh) = esc sh /\ render_dirty (rend (move_to n sh)) = render_dirty (rend sh) /\
    bs_swap (move_to n sh) = bs_swap sh /\ his (move_to n sh) = his sh).
  { intros n sh1. unfold move_to, edit_reposition. by destruct (cli_lock _). }
  destruct 1 as [p q Hh|p q b Hh|p q Hh|i p q Hh|p q p0 q0 Hh E|p ch i Hh Hi _|p ch i Hh Hi _]; try by split_and!.
  - split_and!; try done. apply fg_write.
  - destruct (Hr (set_inp i sh)) as (-> & -> & -> & ->). split_and!; try done.
    intros Hg. by rewrite fg_refresh by (by eapply holds_line_ok).
  - destruct (Hm (length p) sh) as (-> & -> & -> & ->). split_and!; try done. intros Hg. by rewrite fg_move.
  - split_and!; try done. apply (fg_write _ (set_inp i sh)).
  - split_and!; try done. apply (fg_write _ (set_inp i sh)).
Qed.

Lemma draws_flushed b sh p q sh' : showing t0 b sh -> printable (p ++ q) -> draws sh p q sh' ->
  tx_failed (con sh') = false -> out_buf (con sh') = [].
Proof.
  intros [Hw Hq Hg Hdis] Ht Hd Hf. pose proof (wf_sizes sh Hw) as Hsz.
  destruct Hd as [p q Hh|p q m Hh|p q Hh|i p q Hh|p q p0 q0 Hh E|p ch i Hh Hi Hoff|p ch i Hh Hi Hoff].
  - apply Hq.
  - apply Hq.
  - by eapply write_wire.
  - destruct (refresh_displays t0 b (set_inp i sh)) as (_ & _ & Hb & _); [|done| |exact (displayed_render t0 b sh Hsz Hdis)|done].
    + destruct Hsz as (_ & _ & ? & ?). split_and!; [by eapply holds_line_ok|by destruct Hh|done|done].
    + rewrite (shown_holds (set_inp i sh) p q Hh). apply Forall_app. split; [apply Hw|done].
  - unfold move_to. destruct (cli_lock (env (con sh))) as [w|] eqn:El.
    + rewrite (reposition_eq (set_inp (Input (line (inp sh)) (len (inp sh)) (length p)) sh) w El). apply (emit_locked (con sh) w _ (proj1 Hq) (proj2 Hq) El).
    + unfold edit_reposition. cbn [con set_inp]. rewrite El. apply Hq.
  - by apply (write_wire [ch] (set_inp i sh)).
  - by apply (write_wire [8; 32; 8] (set_inp i sh)).
Qed.

Lemma op_shows b k sh : showing t0 b sh -> (forall ch, k = KChar ch -> 32 <= ch <= 126) ->
  exists sh', op_of k sh = Some sh' /\
    (tx_failed (con sh') = false -> showing t0 b sh' /\ same_above b (screen t0 sh) (screen t0 sh')).
Proof.
  intros Hsh Hk. pose proof (sw_wf _ _ _ Hsh) as Hw. destruct (wf_holds sh Hw) as (p & q & Hh & Ht).
  destruct (op_of_draws k sh p q Hh) as (sh' & E & Hd & _). exists sh'. split; [done|]. intros Hf.
  assert (Ht' : printable (before (key_step k (Text p q (overwrite sh))) ++ after (key_step k (Text p q (overwrite sh)))))
    by (by apply key_step_printable).
  destruct (draws_shows t0 b sh _ _ sh' Hsh Ht' Hd Hf) as [Hdis Hab]. split; [|done]. split; [|split| |done].
  - by eapply wf_draws.
  - by eapply draws_flushed.
  - done.
  - eapply draws_frame; [exact Hd|apply Hsh].
Qed.

Lemma types_char swap bs k : types swap bs k -> forall ch, k = KChar ch -> 32 <= ch <= 126.
Proof.
  intros [Hin|(c & -> & -> & Hc)] ch E; [|by injection E as <-]. subst k. exfalso.
  destruct swap; unfold bindings in Hin; repeat (apply elem_of_cons in Hin as [?|Hin]; [done|]); by apply elem_of_nil in Hin.
Qed.

(** [flagged] changes nothing of what is shown. *)
Lemma showing_flagged b e sh : rx e = CLI_RX_NORMAL -> ((esc_np (esc sh) <= 2)%nat -> (esc_np e <= 2)%nat) ->
  showing t0 b sh -> showing t0 b (flagged e sh).
Proof.
  intros _ Hn [Hw Hq Hg [T C R D]]. split; [|done|done|by split].
  destruct Hw as [? ? ? ? ? Hnp]. split; try done. by apply Hn.
Qed.

(** A key on a shell that is ready: the text it leaves. *)
Lemma key_types bs k sh p q : ready sh -> types (bs_swap sh) bs k -> holds (inp sh) p q ->
  exists sh', input_bytes bs sh = Some sh' /\ ready sh' /\ bs_swap sh' = bs_swap sh /\ his sh' = his sh /\
    let t := key_step k (Text p q (overwrite sh)) in
    holds (inp sh') (before t) (after t) /\ overwrite sh' = over t.
Proof.
  intros Hr Hk Hh. destruct (key_input bs k sh Hr Hk) as (e & He & _ & E).
  destruct (op_of_draws k (flagged e sh) p q Hh) as (sh' & Eo & Hd & Hov). exists sh'. rewrite E. split; [done|].
  destruct (draws_frame _ _ _ _ Hd) as (E1 & E2 & E3 & E4 & _). unfold ready. rewrite E1, E2, E3, E4.
  split_and!; try done; [apply Hr|]. by eapply draws_holds.
Qed.

Lemma keys_type ks : forall bss sh p q, ready sh -> Forall2 (types (bs_swap sh)) bss ks -> holds (inp sh) p q ->
  exists sh', input_bytes (concat bss) sh = Some sh' /\ ready sh' /\ his sh' = his sh /\
    let t := fold_left (fun t k => key_step k t) ks (Text p q (overwrite sh)) in
    holds (inp sh') (before t) (after t) /\ overwrite sh' = over t.
Proof.
  assert (Happ : forall b1 b2 sh, input_bytes (b1 ++ b2) sh = (x ← input_bytes b1 sh; input_bytes b2 x)).
  { intros b1 b2. induction b1 as [|b b1 IH]; intros sh; [done|]. cbn [app input_bytes].
    destruct (cli_input_byte b sh); [apply IH|done]. }
  induction ks as [|k ks IH]; intros bss sh p q Hr Hty Hh; inversion Hty as [|bs ? bss' ? Hk Hks]; subst.
  - exists sh. by split_and!.
  - cbn [concat fold_left]. destruct (key_types bs k sh p q Hr Hk Hh) as (sh1 & E1 & Hr1 & Hsw & Hhis & Hh1 & Ho1).
    rewrite Happ, E1. cbn [mbind option_bind]. rewrite <-Hsw in Hks.
    destruct (IH bss' sh1 _ _ Hr1 Hks Hh1) as (sh' & E & Hr' & Hhis' & Ht). exists sh'.
    split_and!; [done|done|congruence|..]; rewrite Ho1 in Ht; destruct (key_step k _) as [p1 q1 o1]; apply Ht.
Qed.
End preserved.

(** ** The properties *)

Section properties.
Context {W : Type} `{Port W} `{Commands W}.
Implicit Types (sh : cli_instance W) (p q : list Z).

(** C3: A session is safe for its whole life: reset and started on any leftover
    state, and fed any bytes in any order -- keys, half escape sequences, Ctrl+C,
    Tab, submitted lines, noise -- the shell never reaches outside the line, the
    ring or argv, every byte is dealt with, and it is well formed at every point. *)
Theorem session_safe sh (bs : list Z) :
  Forall names_ok root_cmds ->
  length (line (inp sh)) = CLI_CMD_BUFFER_SIZE -> length (hist (his sh)) = CLI_HISTORY_BUFFER_SIZE ->
  (length (prompt sh) < CLI_PROMPT_BUFFER_SIZE)%nat -> printable (prompt sh) ->
  exists sh0 sh', cli_session_reset_state sh = Some sh0 /\
    input_bytes bs (cli_edit_session_start sh0) = Some sh' /\ well_formed sh'.
Proof.
  intros Hr Hs Hh Hp Hpr. destruct (session_start_wf sh Hs Hh Hp Hpr) as (sh0 & E & Hw & _).
  destruct (input_bytes_wf Hr bs _ Hw) as (sh' & E' & Hw'). by exists sh0, sh'.
Qed.

(** C15: The editor implements a text with a cursor: typed on a shell between
    keys, any sequence of editing keys, each as any of its byte sequences,
    leaves in the buffer the text, the cursor and the mode that the abstract
    operations give, and neither the history nor the escape parser disturbed. *)
Theorem typing_refines sh p q (bss : list (list Z)) (ks : list key) :
  ready sh -> Forall2 (types (bs_swap sh)) bss ks -> holds (inp sh) p q ->
  exists sh', input_bytes (concat bss) sh = Some sh' /\ ready sh' /\ his sh' = his sh /\
    let t := fold_left (fun t k => key_step k t) ks (Text p q (overwrite sh)) in
    holds (inp sh') (before t) (after t) /\ overwrite sh' = over t.
Proof. intros. by apply keys_type. Qed.

(** C16: What is typed is what is shown: when the terminal shows prompt and line
    with the cursor on its character, then after an editing key -- drawn by a
    repaint, a cursor move, a one-byte echo or a three-byte erase, wherever the
    line wraps -- it shows the prompt and the new line, with the new cursor, and
    nothing of the old, unless the output failed; the rows above are untouched. *)
Theorem key_shows (t0 : term) (b : Z) sh bs k :
  showing t0 b sh -> ready sh -> types (bs_swap sh) bs k ->
  exists sh', input_bytes bs sh = Some sh' /\
    (tx_failed (con sh') = false -> showing t0 b sh' /\ same_above b (screen t0 sh) (screen t0 sh')).
Proof.
  intros Hsh Hr Hk. destruct (key_input bs k sh Hr Hk) as (e & He & Hn & ->).
  apply (op_shows t0 b k (flagged e sh)); [by apply showing_flagged|by eapply types_char].
Qed.
End properties.

(** ** Examples *)

Module EditExample.
Import Loopback SessionExample.

Definition leftover : cli_instance host := demo (str "le") (str "d") (History (replicate CLI_HISTORY_BUFFER_SIZE 0) 0 false 0).

Lemma tree_names : Forall names_ok root_cmds.
Proof. vm_compute. repeat constructor; lia || done. Qed.
Lemma demo_prompt : printable (str "> ").
Proof. vm_compute. repeat constructor; done. Qed.

(** A word, Tab, a line, a half escape sequence and a Ctrl+C. *)
Definition noise : list Z := str "ec" ++ [9] ++ str "x;led on" ++ [13; 10; 27; 91; 53; 3; 200; 27].

Lemma session_safe_witness :
  exists sh0 sh', cli_session_reset_state leftover = Some sh0 /\
    input_bytes noise (cli_edit_session_start sh0) = Some sh' /\ well_formed sh'.
Proof.
  apply (session_safe leftover noise).
  - exact tree_names.
  - reflexivity.
  - reflexivity.
  - apply Nat.ltb_lt. reflexivity.
  - exact demo_prompt.
Defined.

(** "led" with the cursor before the d: left, x, Home, Delete, Ctrl+w at the end. *)
Definition keys : list key := [KLeft; KChar 120; KHome; KDelete; KEnd; KBackspace].
Definition key_bytes : list (list Z) := [[27; 91; 68]; [120]; [27; 79; 72]; [27; 91; 51; 126]; [5]; [127]].

Lemma keys_typed : Forall2 (types false) key_bytes keys.
Proof.
  assert (Hin : forall bs k, In (bs, k) (bindings false) -> types false bs k) by (intros; left; by apply list_elem_of_In).
  repeat apply Forall2_cons_2; try apply Forall2_nil_2.
  2: right; exists 120; split_and!; [reflexivity|reflexivity|lia|lia].
  all: apply Hin; vm_compute; repeat first [left; reflexivity | right].
Qed.

Lemma leftover_holds : holds (inp leftover) (str "le") (str "d").
Proof. split; [eexists|..]; reflexivity. Qed.

Lemma typing_refines_witness :
  ready leftover /\
  exists sh', input_bytes (concat key_bytes) leftover = Some sh' /\ ready sh' /\ his sh' = his leftover /\
    holds (inp sh') (str "xe") [] /\ overwrite sh' = false.
Proof.
  split; [split; reflexivity|].
  apply (typing_refines leftover (str "le") (str "d") key_bytes keys); [split; reflexivity|exact keys_typed|exact leftover_holds].
Defined.

(** A blank terminal, the prompt and "led" just painted on it, and an erase. *)
Definition blank_screen : term := Term (fun _ _ => BLANK) 0 0 false TText.
Definition fresh : cli_instance host := set_rend (Render 0 0 false) leftover.
Definition painted : cli_instance host := cli_edit_refresh fresh.

Lemma fresh_wf : well_formed fresh.
Proof.
  split.
  - split_and!; [split; apply Nat.leb_le; reflexivity|reflexivity|apply Nat.ltb_lt; reflexivity|right; simpl; lia].
  - reflexivity.
  - vm_compute. repeat constructor; done.
  - exact demo_prompt.
  - exists [], None. split_and!; [apply empty_history|reflexivity|constructor].
  - simpl. lia.
Qed.

Lemma painted_showing : showing blank_screen 0 painted.
Proof.
  assert (Hd : displayed blank_screen 0 painted).
  { destruct (refresh_displays blank_screen 0 fresh) as (_ & _ & _ & Hd).
    - apply fresh_wf.
    - by split.
    - vm_compute. repeat constructor; done.
    - split_and!; try done. intros r c _ _. simpl. by destruct (Z.to_nat _).
    - apply Hd. vm_compute. reflexivity. }
  split; [apply wf_refresh, fresh_wf|by split|reflexivity|exact Hd].
Qed.

Lemma key_shows_witness :
  exists sh', input_bytes [27; 102] painted = Some sh' /\
    (tx_failed (con sh') = false -> showing blank_screen 0 sh' /\ same_above 0 (screen blank_screen painted) (screen blank_screen sh')).
Proof.
  apply (key_shows blank_screen 0 painted [27; 102] KWordRight painted_showing).
  - split; reflexivity.
  - left. apply list_elem_of_In. vm_compute. repeat first [left; reflexivity | right].
Defined.
End EditExample.
