(* ===== verification/Iflash.v ===== *)
(** * The internal-flash driver of the bootloader ([src/boot/iflash.c])

    Erase, program-and-verify and blank-check of the application partition
    (sectors 1-3), over an interface to the vendor HAL and the flash array.  The
    HAL is a parameter; [FlashLaws] states the documented behaviour of it that
    the theorems rely on: an erase or a program changes nothing outside its
    sector or its flash word, and a successful erase leaves its sector blank. *)

From S2P Require Import Prelude.
Local Open Scope Z_scope.

(** ** The HAL and the hardware *)

(** [hw] is the state of the flash, its controller and the caches; [cell] is the
    byte the flash array holds, [cpu_read] the byte a load instruction gets
    (possibly from the data cache).  A [bool] result is [HAL_OK] or not. *)
Class FlashHal := {
  hw : Type;
  cell : hw -> Z -> Z;
  cpu_read : hw -> Z -> Z;
  flash_size_kb : hw -> Z;
  hal_flash_unlock : hw -> bool * hw;
  hal_flash_lock : hw -> hw;
  hal_flash_erase : Z -> hw -> bool * hw;
  hal_flash_program : Z -> list Z -> hw -> bool * hw;
  hal_flash_get_error : hw -> Z;
  dwt_running : hw -> bool;
  dwt_start : hw -> hw;
  dwt_cyccnt : hw -> Z;
  dcache_on : hw -> bool;
  dcache_invalidate : Z -> Z -> hw -> hw;
}.

Definition IFLASH_BASE_ADDR : Z := 134217728.      (* 0x08000000 *)
Definition IFLASH_SECTOR_SIZE : Z := 131072.       (* 0x00020000 *)
Definition IFLASH_WORD_SIZE : Z := 32.
Definition IFLASH_APP_BASE : Z := 134348800.       (* 0x08020000 *)
Definition IFLASH_APP_SIZE : Z := 393216.          (* 0x00060000 *)
Definition IFLASH_APP_SECTOR_LO : Z := 1.
Definition IFLASH_APP_SECTOR_HI : Z := 3.
Definition IFLASH_PROGRAM_MAX : Z := 1024.
Definition IFLASH_EXPECTED_KB : Z := 512.

Inductive iflash_rc : Type :=
  | IFLASH_OK | IFLASH_ERR_UNSUPPORTED | IFLASH_ERR_RANGE | IFLASH_ERR_ALIGN
  | IFLASH_ERR_HAL | IFLASH_ERR_VERIFY.

#[export] Instance iflash_rc_eq_dec : EqDecision iflash_rc.
Proof. solve_decision. Defined.

(** The addresses of a sector, and of the flash word at an address. *)
Definition in_sector (s a : Z) : Prop :=
  IFLASH_BASE_ADDR + s * IFLASH_SECTOR_SIZE <= a < IFLASH_BASE_ADDR + (s + 1) * IFLASH_SECTOR_SIZE.
Definition in_word (w a : Z) : Prop := w <= a < w + IFLASH_WORD_SIZE.

(** What the HAL and the hardware promise. *)
Class FlashLaws `{FlashHal} : Prop := {
  cell_u8 h a : is_u8 (cell h a);
  unlock_cell h a : cell (snd (hal_flash_unlock h)) a = cell h a;
  lock_cell h a : cell (hal_flash_lock h) a = cell h a;
  dwt_cell h a : cell (dwt_start h) a = cell h a;
  invalidate_cell s n h a : cell (dcache_invalidate s n h) a = cell h a;
  erase_frame s h a : ~ in_sector s a -> cell (snd (hal_flash_erase s h)) a = cell h a;
  erase_blank s h a : fst (hal_flash_erase s h) = true -> in_sector s a ->
    cell (snd (hal_flash_erase s h)) a = 255;
  program_frame w bs h a : ~ in_word w a -> cell (snd (hal_flash_program w bs h)) a = cell h a;
  dcache_off_read h a : dcache_on h = false -> cpu_read h a = cell h a;
  invalidate_read s n h a : s <= a < s + n -> cpu_read (dcache_invalidate s n h) a = cell h a;
}.

(** The calls that change the flash, as the trace of a run records them: a
    program notes whether the word was blank. *)
Inductive hal_call : Type :=
  | Erase (sector : Z)
  | Program (addr : Z) (blank : bool).

Section iflash.
Context `{FH : FlashHal}.

(** The driver's static variables, the hardware, and the trace of HAL calls. *)
Record ist : Type := IflashState {
  i_hw : hw; i_hal_err : Z; i_erase_cycles : Z; i_trace : list hal_call;
}.

Definition set_hw (h : hw) (st : ist) : ist :=
  IflashState h (i_hal_err st) (i_erase_cycles st) (i_trace st).
Definition set_hal_err (st : ist) : ist :=
  IflashState (i_hw st) (hal_flash_get_error (i_hw st)) (i_erase_cycles st) (i_trace st).

Definition iflash_cyccnt_init (st : ist) : ist :=
  if dwt_running (i_hw st) then st else set_hw (dwt_start (i_hw st)) st.

Definition iflash_last_erase_cycles (st : ist) : Z := i_erase_cycles st.
Definition iflash_device_kb (st : ist) : Z := u16 (flash_size_kb (i_hw st)).
Definition iflash_available (st : ist) : bool := iflash_device_kb st =? IFLASH_EXPECTED_KB.
Definition iflash_last_hal_error (st : ist) : Z := i_hal_err st.

(** [x & ~31u]. *)
Definition align_down32 (x : Z) : Z := Z.land x 4294967264.

Definition iflash_invalidate (addr len : Z) (st : ist) : ist :=
  if negb (dcache_on (i_hw st)) then st
  else
    let start := align_down32 addr in
    let end_ := align_down32 (addr +% len +% 31) in
    set_hw (dcache_invalidate start (end_ -% start) (i_hw st)) st.

Definition iflash_erase_sector (sector : Z) (st : ist) : iflash_rc * ist :=
  if negb (iflash_available st) then (IFLASH_ERR_UNSUPPORTED, st)
  else if (sector <? IFLASH_APP_SECTOR_LO) || (IFLASH_APP_SECTOR_HI <? sector)
  then (IFLASH_ERR_RANGE, st)
  else
    let st := iflash_cyccnt_init st in
    let '(ok, h) := hal_flash_unlock (i_hw st) in
    let st := set_hw h st in
    if negb ok then (IFLASH_ERR_HAL, set_hal_err st)
    else
      let t0 := dwt_cyccnt (i_hw st) in
      let '(ok, h) := hal_flash_erase sector (i_hw st) in
      let st := IflashState h (i_hal_err st) (dwt_cyccnt h -% t0) (i_trace st ++ [Erase sector]) in
      let st := set_hw (hal_flash_lock (i_hw st)) st in
      if negb ok then (IFLASH_ERR_HAL, set_hal_err st)
      else
        (IFLASH_OK,
         iflash_invalidate (IFLASH_BASE_ADDR +% u32 (sector * IFLASH_SECTOR_SIZE))
           IFLASH_SECTOR_SIZE st).

(** [wb]: [n] bytes of the data from [done] on, padded with 0xFF; [None] is a
    read outside the data. *)
Definition flash_word (data : list Z) (done n : Z) : option (list Z) :=
  if (Z.to_nat done + Z.to_nat n <=? length data)%nat
  then Some (slice (Z.to_nat done) (Z.to_nat n) data ++
             replicate (Z.to_nat (IFLASH_WORD_SIZE - n)) 255)
  else None.

Definition word_blank (h : hw) (addr : Z) : bool :=
  forallb (fun i => cell h (addr + Z.of_nat i) =? 255) (seq 0 (Z.to_nat IFLASH_WORD_SIZE)).

(** [for (done = 0u; done < len; done += IFLASH_WORD_SIZE)]. *)
Fixpoint program_loop (fuel : nat) (off : Z) (data : list Z) (len done : Z) (st : ist)
    : option (iflash_rc * ist) :=
  match fuel with
  | O => None
  | S k =>
      if len <=? done then Some (IFLASH_OK, st)
      else
        let n := len -% done in
        let n := if IFLASH_WORD_SIZE <? n then IFLASH_WORD_SIZE else n in
        word ← flash_word data done n;
        let addr := IFLASH_APP_BASE +% off +% done in
        let blank := word_blank (i_hw st) addr in
        let '(ok, h) := hal_flash_program addr word (i_hw st) in
        let st := IflashState h (i_hal_err st) (i_erase_cycles st) (i_trace st ++ [Program addr blank]) in
        if negb ok then Some (IFLASH_ERR_HAL, set_hal_err st)
        else program_loop k off data len (done +% IFLASH_WORD_SIZE) st
  end.

(** The read-back loop. *)
Fixpoint verify_loop (addr : Z) (data : list Z) (h : hw) : bool :=
  match data with
  | [] => true
  | c :: data => (cpu_read h addr =? c) && verify_loop (addr + 1) data h
  end.

(** [data] is [None] for a NULL pointer.  [None] is a read outside [data]. *)
Definition iflash_program (off : Z) (data : option (list Z)) (len : Z) (st : ist)
    : option (iflash_rc * ist) :=
  if negb (iflash_available st) then Some (IFLASH_ERR_UNSUPPORTED, st)
  else match data with
  | None => Some (IFLASH_ERR_RANGE, st)
  | Some data =>
      if len =? 0 then Some (IFLASH_OK, st)
      else if negb (off mod IFLASH_WORD_SIZE =? 0) then Some (IFLASH_ERR_ALIGN, st)
      else if (IFLASH_PROGRAM_MAX <? len) || (IFLASH_APP_SIZE <? off) ||
              (IFLASH_APP_SIZE -% off <? len) then Some (IFLASH_ERR_RANGE, st)
      else
        let '(ok, h) := hal_flash_unlock (i_hw st) in
        let st := set_hw h st in
        if negb ok then Some (IFLASH_ERR_HAL, set_hal_err st)
        else
          '(rc, st) ← program_loop (S (Z.to_nat len)) off data len 0 st;
          let st := set_hw (hal_flash_lock (i_hw st)) st in
          if negb (bool_decide (rc = IFLASH_OK)) then Some (rc, st)
          else
            let st := iflash_invalidate (IFLASH_APP_BASE +% off) len st in
            if verify_loop (IFLASH_APP_BASE + off) (take (Z.to_nat len) data) (i_hw st)
            then Some (IFLASH_OK, st) else Some (IFLASH_ERR_VERIFY, st)
  end.

(** [p[i] != 0xFFFFFFFF], word by word. *)
Definition cpu_read32 (h : hw) (a : Z) : Z :=
  get32 [cpu_read h a; cpu_read h (a + 1); cpu_read h (a + 2); cpu_read h (a + 3)].
Fixpoint blank_loop (n : nat) (a : Z) (h : hw) : bool :=
  match n with
  | O => true
  | S n => if negb (cpu_read32 h a =? 4294967295) then false else blank_loop n (a + 4) h
  end.

Definition iflash_is_erased (off len : Z) (st : ist) : bool * ist :=
  if (IFLASH_APP_SIZE <? off) || (IFLASH_APP_SIZE -% off <? len) then (false, st)
  else if len =? 0 then (true, st)
  else
    let st := iflash_invalidate (IFLASH_APP_BASE +% off) len st in
    (blank_loop (Z.to_nat ((len +% 3) / 4)) (IFLASH_APP_BASE + Z.land off 4294967292) (i_hw st), st).
End iflash.

(** ** What the driver may do to the flash *)

(** A call stays inside the application partition. *)
Definition call_in_app (c : hal_call) : Prop :=
  match c with
  | Erase s => 1 <= s <= 3
  | Program a _ => a mod 32 = 0 /\ IFLASH_APP_BASE <= a /\ a + 32 <= IFLASH_APP_BASE + IFLASH_APP_SIZE
  end.

(** A program inside the partition, on a flash word. *)
Definition program_in_app (c : hal_call) : Prop :=
  match c with
  | Erase _ => False
  | Program a _ => a mod 32 = 0 /\ IFLASH_APP_BASE <= a /\ a + 32 <= IFLASH_APP_BASE + IFLASH_APP_SIZE
  end.

Lemma program_in_app_call c : program_in_app c -> call_in_app c.
Proof. by destruct c. Qed.

(** A program writes a blank word: the flash must not be re-programmed. *)
Definition call_blank (c : hal_call) : Prop :=
  match c with Erase _ => True | Program _ b => b = true end.

Definition round32 (len : Z) : Z := (len + 31) / 32 * 32.

Section laws.
Context `{FH : FlashHal} `{FL : !FlashLaws}.
Implicit Types (st : ist) (h : hw).

Definition blank_range h (lo hi : Z) : Prop := forall a, lo <= a < hi -> cell h a = 255.

(** [st'] is [st] after programs within [lo, hi) only, all of them inside the
    partition, and all of blank words if the range was blank. *)
Record programs (lo hi : Z) (st st' : ist) : Prop := {
  pr_frame : forall a, ~ (lo <= a < hi) -> cell (i_hw st') a = cell (i_hw st) a;
  pr_trace : exists tr, i_trace st' = i_trace st ++ tr /\ Forall program_in_app tr /\
    (blank_range (i_hw st) lo hi -> Forall call_blank tr);
}.

Lemma programs_nothing lo hi st st' :
  (forall a, cell (i_hw st') a = cell (i_hw st) a) -> i_trace st' = i_trace st -> programs lo hi st st'.
Proof.
  intros Hc Ht. split; [by intros; apply Hc|]. exists []. rewrite app_nil_r.
  split; [done|]. split; constructor.
Qed.

Lemma programs_trans lo mid hi st1 st2 st3 : lo <= mid <= hi ->
  programs lo mid st1 st2 -> programs mid hi st2 st3 -> programs lo hi st1 st3.
Proof.
  intros Hm [Hf1 (tr1 & Ht1 & Hin1 & Hb1)] [Hf2 (tr2 & Ht2 & Hin2 & Hb2)]. split.
  - intros a Ha. rewrite Hf2, Hf1 by lia. done.
  - exists (tr1 ++ tr2). rewrite Ht2, Ht1, <-app_assoc. split; [done|]. split; [by apply Forall_app|].
    intros Hb. apply Forall_app. split.
    + apply Hb1. intros a Ha. apply Hb. lia.
    + apply Hb2. intros a Ha. rewrite Hf1 by lia. apply Hb. lia.
Qed.

Lemma programs_weaken lo hi lo' hi' st st' :
  lo' <= lo -> hi <= hi' -> programs lo hi st st' -> programs lo' hi' st st'.
Proof.
  intros Hl Hh [Hf (tr & Ht & Hin & Hb)]. split.
  - intros a Ha. apply Hf. lia.
  - exists tr. split_and!; try done. intros Hr. apply Hb. intros a Ha. apply Hr. lia.
Qed.

(** Only the hardware's controller, the error code or the caches changed. *)
Lemma programs_quiet_l lo hi st1 st2 st3 :
  (forall a, cell (i_hw st2) a = cell (i_hw st1) a) -> i_trace st2 = i_trace st1 ->
  programs lo hi st2 st3 -> programs lo hi st1 st3.
Proof.
  intros Hc Ht [Hf (tr & Ht' & Hin & Hb)]. split.
  - intros a Ha. by rewrite Hf, Hc.
  - exists tr. rewrite <-Ht. split_and!; try done. intros Hr. apply Hb. intros a Ha. rewrite Hc. by apply Hr.
Qed.

Lemma programs_quiet_r lo hi st1 st2 st3 :
  programs lo hi st1 st2 ->
  (forall a, cell (i_hw st3) a = cell (i_hw st2) a) -> i_trace st3 = i_trace st2 ->
  programs lo hi st1 st3.
Proof.
  intros [Hf (tr & Ht' & Hin & Hb)] Hc Ht. split.
  - intros a Ha. by rewrite Hc, Hf.
  - exists tr. rewrite Ht. by split_and!.
Qed.

Lemma iflash_invalidate_quiet addr len st :
  (forall a, cell (i_hw (iflash_invalidate addr len st)) a = cell (i_hw st) a) /\
  i_trace (iflash_invalidate addr len st) = i_trace st.
Proof.
  unfold iflash_invalidate. case_if; [done|]. simpl. split; [intros; apply invalidate_cell|done].
Qed.

Lemma align_down32_val x : is_u32 x -> align_down32 x = x - x mod 32.
Proof.
  intros Hx. apply (land_align 5); [lia|done].
Qed.

Lemma word_blank_range h a : blank_range h a (a + 32) -> word_blank h a = true.
Proof.
  intros Hb. apply forallb_forall. intros i Hi. apply in_seq in Hi. apply Z.eqb_eq, Hb.
  unfold IFLASH_WORD_SIZE in Hi. simpl in Hi. lia.
Qed.

Lemma flash_word_Some data done n : (Z.to_nat done + Z.to_nat n <= length data)%nat ->
  exists w, flash_word data done n = Some w.
Proof. intros Hl. unfold flash_word. destruct (Nat.leb_spec (Z.to_nat done + Z.to_nat n) (length data)); [eauto|lia]. Qed.

Lemma program_word off done w st ok h :
  0 <= off -> 0 <= done -> off mod 32 = 0 -> done mod 32 = 0 -> off + done + 32 <= IFLASH_APP_SIZE ->
  hal_flash_program (IFLASH_APP_BASE + off + done) w (i_hw st) = (ok, h) ->
  programs (IFLASH_APP_BASE + off + done) (IFLASH_APP_BASE + off + done + 32) st
    (IflashState h (i_hal_err st) (i_erase_cycles st)
       (i_trace st ++ [Program (IFLASH_APP_BASE + off + done)
                         (word_blank (i_hw st) (IFLASH_APP_BASE + off + done))])).
Proof.
  intros H1 H2 H3 H4 H5 E. split.
  - intros a Ha. cbn [i_hw]. replace h with (snd (hal_flash_program (IFLASH_APP_BASE + off + done) w (i_hw st)))
      by by rewrite E. by apply program_frame.
  - eexists [_]. split; [done|]. split.
    + constructor; [|constructor]. simpl. unfold IFLASH_APP_BASE, IFLASH_APP_SIZE in *. split; [|lia].
      rewrite <-Z.add_assoc, Z.add_mod, (Z.add_mod off), H3, H4 by lia. done.
    + intros Hb. constructor; [|constructor]. by apply word_blank_range.
Qed.

Lemma program_loop_spec k : forall off data len done st,
  0 <= off -> 0 <= done -> off mod 32 = 0 -> done mod 32 = 0 -> done <= round32 len ->
  0 < len <= 1024 -> off + len <= IFLASH_APP_SIZE -> (Z.to_nat len <= length data)%nat ->
  (Z.to_nat ((round32 len - done) / 32) < k)%nat ->
  exists rc st', program_loop k off data len done st = Some (rc, st') /\
    (rc = IFLASH_OK \/ rc = IFLASH_ERR_HAL) /\
    programs (IFLASH_APP_BASE + off + done) (IFLASH_APP_BASE + off + round32 len) st st'.
Proof.
  induction k as [|k IH]; intros off data len done st H1 H2 H3 H4 H5 H6 H7 H8 Hk; [lia|].
  assert (Hr : len <= round32 len < len + 32 /\ round32 len mod 32 = 0 /\ round32 len <= 1024)
    by (unfold round32; split_and!; Z.div_mod_to_equations; lia).
  cbn [program_loop]. destruct (Z.leb_spec len done) as [Hd|Hd].
  { exists IFLASH_OK, st. split; [done|]. split; [by left|]. by apply programs_nothing. }
  assert (Hoff : off + round32 len <= IFLASH_APP_SIZE).
  { unfold IFLASH_APP_SIZE in *. Z.div_mod_to_equations. lia. }
  assert (Hdn : done + 32 <= round32 len) by (Z.div_mod_to_equations; lia).
  rewrite (u32_small (len - done)) by (unfold is_u32; lia).
  set (n := if IFLASH_WORD_SIZE <? len - done then IFLASH_WORD_SIZE else len - done).
  assert (Hn : 0 < n <= 32 /\ done + n <= len) by (unfold n, IFLASH_WORD_SIZE; case_if; lia).
  destruct (flash_word_Some data done n) as [w Hw]; [lia|]. rewrite Hw. cbn [mbind option_bind].
  rewrite (u32_small (IFLASH_APP_BASE + off)), (u32_small (IFLASH_APP_BASE + off + done)),
    (u32_small (done + _)) by (unfold is_u32, IFLASH_APP_BASE, IFLASH_APP_SIZE, IFLASH_WORD_SIZE in *; lia).
  destruct (hal_flash_program (IFLASH_APP_BASE + off + done) w (i_hw st)) as [ok h] eqn:E.
  pose proof (program_word off done w st ok h H1 H2 H3 H4 ltac:(lia) E) as Hp.
  destruct ok; cbn [negb].
  - edestruct (IH off data len (done + IFLASH_WORD_SIZE)) as (rc & st' & -> & Hrc & Hp');
      [lia|unfold IFLASH_WORD_SIZE; lia|done| |unfold IFLASH_WORD_SIZE; lia|lia|lia|lia| |].
    { unfold IFLASH_WORD_SIZE. Z.div_mod_to_equations; lia. }
    { unfold IFLASH_WORD_SIZE. replace (round32 len - (done + 32)) with (round32 len - done + (-1) * 32) by lia.
      rewrite Z.div_add by lia. pose proof (Z.div_le_lower_bound (round32 len - done) 32 1). lia. }
    exists rc, st'. split; [done|]. split; [done|].
    eapply programs_trans; [|exact Hp|]; [lia|].
    unfold IFLASH_WORD_SIZE in Hp'. by rewrite Z.add_assoc in Hp'.
  - eexists _, _. split; [done|]. split; [by right|].
    eapply programs_weaken; [| |eapply programs_quiet_r; [exact Hp|done|done]]; lia.
Qed.

Lemma verify_loop_true addr data h : verify_loop addr data h = true <->
  forall i c, data !! i = Some c -> cpu_read h (addr + Z.of_nat i) = c.
Proof.
  revert addr. induction data as [|c data IH]; intros addr; simpl; [done|]. split.
  - intros (Hc%Z.eqb_eq & Hd)%andb_true_iff [|i] c' Hi; simpl in Hi; [by simplify_eq; rewrite Z.add_0_r|].
    rewrite <-(proj1 (IH _) Hd i c' Hi). f_equal. lia.
  - intros Hall. apply andb_true_iff. split.
    + apply Z.eqb_eq. rewrite <-(Hall 0%nat c eq_refl). f_equal. lia.
    + apply IH. intros i c' Hi. rewrite <-(Hall (S i) c' Hi). f_equal. lia.
Qed.

(** After an invalidate over the range, loads see the array. *)
Lemma invalidate_sees addr len st a :
  is_u32 addr -> 0 <= len -> addr + len + 31 < 4294967296 -> addr <= a < addr + len ->
  cpu_read (i_hw (iflash_invalidate addr len st)) a = cell (i_hw st) a.
Proof.
  intros Ha Hl Hov Hin. unfold iflash_invalidate. case_if.
  { apply dcache_off_read. by apply negb_true_iff. }
  cbn [i_hw set_hw]. rewrite !u32_add_l, (u32_small (addr + len + 31)) by (unfold is_u32 in *; lia).
  rewrite !align_down32_val by (unfold is_u32 in *; lia).
  apply invalidate_read. rewrite u32_small by (unfold is_u32 in *; Z.div_mod_to_equations; lia).
  Z.div_mod_to_equations; lia.
Qed.

(** The arguments [iflash_program] accepts, and its answer to the others. *)
Definition program_refused (off len : Z) st : option iflash_rc :=
  if negb (iflash_available st) then Some IFLASH_ERR_UNSUPPORTED
  else if len =? 0 then Some IFLASH_OK
  else if negb (off mod 32 =? 0) then Some IFLASH_ERR_ALIGN
  else if (1024 <? len) || (IFLASH_APP_SIZE <? off + len) then Some IFLASH_ERR_RANGE
  else None.

Lemma iflash_program_spec off data len st :
  is_u32 off -> is_u32 len -> (Z.to_nat len <= length data)%nat ->
  exists rc st', iflash_program off (Some data) len st = Some (rc, st') /\
    programs (IFLASH_APP_BASE + off) (IFLASH_APP_BASE + off + round32 len) st st' /\
    match program_refused off len st with
    | Some rc' => rc = rc' /\ st' = st
    | None =>
        rc = IFLASH_ERR_HAL \/ rc = IFLASH_ERR_VERIFY \/
        rc = IFLASH_OK /\ forall i c, take (Z.to_nat len) data !! i = Some c ->
                                  cell (i_hw st') (IFLASH_APP_BASE + off + Z.of_nat i) = c
    end.
Proof.
  intros Hoff Hlen Hl. unfold iflash_program, program_refused, IFLASH_WORD_SIZE, IFLASH_PROGRAM_MAX.
  destruct (iflash_available st); cbn [negb].
  2:{ eexists _, _. split; [done|]. split; [by apply programs_nothing|done]. }
  destruct (len =? 0) eqn:E0.
  { eexists _, _. split; [done|]. split; [by apply programs_nothing|done]. }
  destruct (negb (off mod 32 =? 0)) eqn:Ea.
  { eexists _, _. split; [done|]. split; [by apply programs_nothing|done]. }
  assert (Hc : (1024 <? len) || (IFLASH_APP_SIZE <? off) || (IFLASH_APP_SIZE -% off <? len) =
               (1024 <? len) || (IFLASH_APP_SIZE <? off + len)).
  { unfold IFLASH_APP_SIZE, is_u32 in *. destruct (Z.ltb_spec 393216 off) as [Hgt|Hle].
    - rewrite !orb_true_r. simpl. symmetry. apply orb_true_iff. right. lia.
    - rewrite u32_small by (unfold is_u32; lia). lia. }
  rewrite Hc. destruct ((1024 <? len) || (IFLASH_APP_SIZE <? off + len)) eqn:Er.
  { eexists _, _. split; [done|]. split; [by apply programs_nothing|done]. }
  destruct (hal_flash_unlock (i_hw st)) as [ok h] eqn:Eu.
  assert (Hu : forall a, cell h a = cell (i_hw st) a).
  { intros a. replace h with (snd (hal_flash_unlock (i_hw st))) by by rewrite Eu. apply unlock_cell. }
  destruct ok; cbn [negb].
  2:{ eexists _, _. split; [done|]. split; [by apply programs_nothing|by left]. }
  unfold is_u32 in Hoff, Hlen.
  edestruct (program_loop_spec (S (Z.to_nat len)) off data len 0 (set_hw h st))
    as (rc & st1 & -> & Hrc & Hp); try lia; try done.
  { unfold round32. Z.div_mod_to_equations; lia. }
  { unfold round32. Z.div_mod_to_equations; lia. }
  rewrite Z.add_0_r in Hp. cbn [mbind option_bind].
  apply (programs_quiet_l _ _ st) in Hp; [|done|done].
  set (st2 := set_hw (hal_flash_lock (i_hw st1)) st1).
  assert (Hp2 : programs (IFLASH_APP_BASE + off) (IFLASH_APP_BASE + off + round32 len) st st2).
  { eapply programs_quiet_r; [exact Hp|intros a; apply lock_cell|done]. }
  case_bool_decide as Hok; cbn [negb].
  2:{ eexists _, _. split; [done|]. split; [done|]. destruct Hrc as [-> | ->]; [done|by left]. }
  rewrite (u32_small (IFLASH_APP_BASE + off)) by (unfold is_u32, IFLASH_APP_BASE, IFLASH_APP_SIZE in *; lia).
  set (st3 := iflash_invalidate (IFLASH_APP_BASE + off) len st2).
  assert (Hq : (forall a, cell (i_hw st3) a = cell (i_hw st2) a) /\ i_trace st3 = i_trace st2)
    by apply iflash_invalidate_quiet.
  assert (Hp3 : programs (IFLASH_APP_BASE + off) (IFLASH_APP_BASE + off + round32 len) st st3).
  { destruct Hq. by eapply programs_quiet_r. }
  destruct (verify_loop _ _ (i_hw st3)) eqn:Ev; eexists _, _; (split; [done|]); (split; [done|]).
  - right. right. split; [done|]. intros i c Hi. rewrite verify_loop_true in Ev.
    rewrite <-(Ev i c Hi). destruct Hq as [-> _]. symmetry.
    pose proof (lookup_lt_Some _ _ _ Hi) as Hlt. rewrite length_take in Hlt.
    apply invalidate_sees; unfold is_u32, IFLASH_APP_BASE, IFLASH_APP_SIZE in *; lia.
  - right. by left.
Qed.

(** [st'] is [st] after at most an erase of [sector]. *)
Record erases (sector : Z) (st st' : ist) : Prop := {
  er_frame : forall a, ~ in_sector sector a -> cell (i_hw st') a = cell (i_hw st) a;
  er_trace : i_trace st' = i_trace st \/ i_trace st' = i_trace st ++ [Erase sector];
}.

Lemma iflash_cyccnt_init_quiet st :
  (forall a, cell (i_hw (iflash_cyccnt_init st)) a = cell (i_hw st) a) /\
  i_trace (iflash_cyccnt_init st) = i_trace st.
Proof. unfold iflash_cyccnt_init. case_if; [done|]. simpl. split; [intros; apply dwt_cell|done]. Qed.

Lemma iflash_erase_sector_spec sector st :
  let '(rc, st') := iflash_erase_sector sector st in
  erases sector st st' /\
  (if negb (iflash_available st) then rc = IFLASH_ERR_UNSUPPORTED /\ st' = st
   else if negb ((1 <=? sector) && (sector <=? 3)) then rc = IFLASH_ERR_RANGE /\ st' = st
   else rc = IFLASH_ERR_HAL \/
        rc = IFLASH_OK /\ i_trace st' = i_trace st ++ [Erase sector] /\
        forall a, in_sector sector a -> cell (i_hw st') a = 255).
Proof.
  unfold iflash_erase_sector, IFLASH_APP_SECTOR_LO, IFLASH_APP_SECTOR_HI.
  destruct (negb (iflash_available st)); [by split_and!; [split; auto|..]|].
  replace (negb ((1 <=? sector) && (sector <=? 3))) with ((sector <? 1) || (3 <? sector)) by lia.
  destruct ((sector <? 1) || (3 <? sector)); [by split_and!; [split; auto|..]|].
  destruct (iflash_cyccnt_init_quiet st) as [Hc Ht]. set (st0 := iflash_cyccnt_init st) in *.
  destruct (hal_flash_unlock (i_hw st0)) as [ok h] eqn:Eu.
  assert (Hu : forall a, cell h a = cell (i_hw st) a).
  { intros a. rewrite <-Hc. replace h with (snd (hal_flash_unlock (i_hw st0))) by by rewrite Eu.
    apply unlock_cell. }
  destruct ok; cbn [negb].
  2:{ split; [|by left]. split; [intros a _; apply Hu|by left]. }
  destruct (hal_flash_erase sector (i_hw (set_hw h st0))) as [ok h'] eqn:Ee. cbn [i_hw set_hw] in Ee |- *.
  assert (Hf : forall a, ~ in_sector sector a -> cell h' a = cell (i_hw st) a).
  { intros a Ha. rewrite <-Hu. replace h' with (snd (hal_flash_erase sector h)) by by rewrite Ee.
    by apply erase_frame. }
  assert (Hb : ok = true -> forall a, in_sector sector a -> cell h' a = 255).
  { intros -> a Ha. replace h' with (snd (hal_flash_erase sector h)) by by rewrite Ee.
    apply erase_blank; [by rewrite Ee|done]. }
  destruct ok; cbn [negb].
  - match goal with |- context [iflash_invalidate ?x ?y ?s] =>
      destruct (iflash_invalidate_quiet x y s) as [Hi Hit] end.
    split; [split|right; split; [done|split]].
    + intros a Ha. rewrite Hi. cbn [i_hw set_hw]. rewrite lock_cell. by apply Hf.
    + right. rewrite Hit. cbn. by rewrite Ht.
    + rewrite Hit. cbn. by rewrite Ht.
    + intros a Ha. rewrite Hi. cbn [i_hw set_hw]. rewrite lock_cell. by apply Hb.
  - split; [|by left]. split.
    + intros a Ha. cbn [i_hw set_hw set_hal_err]. rewrite lock_cell. by apply Hf.
    + right. cbn. by rewrite Ht.
Qed.

(** [iflash_erase_sector] reaches no sector but 1, 2 and 3, and changes no
    byte outside the sector it erases, whatever the HAL answers; when it
    answers [IFLASH_OK] the whole sector reads blank and exactly that erase was
    issued, and a refused call issues none. *)
Theorem iflash_erase_sector_correct (sector : Z) st :
  let '(rc, st') := iflash_erase_sector sector st in
  (forall a, ~ in_sector sector a -> cell (i_hw st') a = cell (i_hw st) a) /\
  (exists tr, i_trace st' = i_trace st ++ tr /\ Forall call_in_app tr /\ (length tr <= 1)%nat) /\
  (rc = IFLASH_ERR_UNSUPPORTED <-> iflash_available st = false) /\
  (rc = IFLASH_ERR_RANGE <-> iflash_available st = true /\ ~ 1 <= sector <= 3) /\
  (rc = IFLASH_OK -> 1 <= sector <= 3 /\ forall a, in_sector sector a -> cell (i_hw st') a = 255).
Proof.
  pose proof (iflash_erase_sector_spec sector st) as Hs.
  destruct (iflash_erase_sector sector st) as [rc st']. destruct Hs as [[Hf Ht] Hrc].
  split; [done|]. destruct (iflash_available st); cbn [negb] in Hrc.
  2:{ destruct Hrc as [-> ->]. split; [exists []; rewrite app_nil_r; split_and!; [done|constructor|simpl; lia]|].
      split; [done|]. split; [|done]. split; [done|by intros [? _]]. }
  destruct ((1 <=? sector) && (sector <=? 3)) eqn:Er; cbn [negb] in Hrc.
  - split.
    { destruct Ht as [-> | ->]; [exists []|exists [Erase sector]]; rewrite ?app_nil_r;
        (split; [done|]); (split; [|simpl; lia]); repeat constructor; lia. }
    destruct Hrc as [-> |(-> & _ & Hb)]; (split; [done|]); (split; [split; [done|]; lia|]); [done|].
    intros _. split; [lia|done].
  - destruct Hrc as [-> ->]. split; [exists []; rewrite app_nil_r; split_and!; [done|constructor|simpl; lia]|].
    split; [done|]. split; [|done]. split; [|done]. intros _. split; [done|lia].
Qed.

(** [iflash_program] on any offset, length and data: it terminates, never
    reads outside the data, changes no byte outside the flash words of
    [off, off + len), issues only aligned programs inside the application
    partition, and programs only blank words if the range was blank.  Its answer
    to refused arguments is the one documented and touches nothing; otherwise
    [IFLASH_OK] means the array itself -- not a stale cache line -- holds the
    data. *)
Theorem iflash_program_correct (off len : Z) (data : list Z) st :
  is_u32 off -> is_u32 len -> (Z.to_nat len <= length data)%nat ->
  exists rc st', iflash_program off (Some data) len st = Some (rc, st') /\
    programs (IFLASH_APP_BASE + off) (IFLASH_APP_BASE + off + round32 len) st st' /\
    match program_refused off len st with
    | Some rc' => rc = rc' /\ st' = st
    | None =>
        rc = IFLASH_ERR_HAL \/ rc = IFLASH_ERR_VERIFY \/
        rc = IFLASH_OK /\ forall i c, take (Z.to_nat len) data !! i = Some c ->
                                  cell (i_hw st') (IFLASH_APP_BASE + off + Z.of_nat i) = c
    end.
Proof. apply iflash_program_spec. Qed.
End laws.

(** ** A flash that works

    An array in which every operation succeeds: the instance the theorems are
    tried on. *)
Module Sim.
Definition inb (lo hi a : Z) : bool := (lo <=? a) && (a <? hi).

#[export] Instance flash : FlashHal := {|
  hw := Z -> Z;
  cell h a := u8 (h a);
  cpu_read h a := u8 (h a);
  flash_size_kb _ := 512;
  hal_flash_unlock h := (true, h);
  hal_flash_lock h := h;
  hal_flash_erase s h :=
    (true, fun a => if inb (IFLASH_BASE_ADDR + s * IFLASH_SECTOR_SIZE)
                          (IFLASH_BASE_ADDR + (s + 1) * IFLASH_SECTOR_SIZE) a then 255 else h a);
  hal_flash_program w bs h :=
    (true, fun a => if inb w (w + IFLASH_WORD_SIZE) a then nth (Z.to_nat (a - w)) bs 255 else h a);
  hal_flash_get_error _ := 0;
  dwt_running _ := false;
  dwt_start h := h;
  dwt_cyccnt _ := 0;
  dcache_on _ := false;
  dcache_invalidate _ _ h := h;
|}.

#[export] Instance laws : FlashLaws.
Proof.
  split; simpl; try done.
  - intros. apply u8_range.
  - intros s h a Ha. unfold in_sector in Ha. unfold inb. by ifs.
  - intros s h a _ Ha. unfold in_sector in Ha. unfold inb. by ifs.
  - intros w bs h a Ha. unfold in_word in Ha. unfold inb. by ifs.
Qed.

(** A device whose flash holds zeros everywhere. *)
Definition used : ist := IflashState (fun _ => 0) 0 0 [].
End Sim.
Import Sim.

Lemma iflash_program_correct_witness :
  exists rc st', iflash_program 64 (Some [1; 2; 3]) 3 Sim.used = Some (rc, st') /\
    programs (IFLASH_APP_BASE + 64) (IFLASH_APP_BASE + 64 + round32 3) Sim.used st' /\
    match program_refused 64 3 Sim.used with
    | Some rc' => rc = rc' /\ st' = Sim.used
    | None =>
        rc = IFLASH_ERR_HAL \/ rc = IFLASH_ERR_VERIFY \/
        rc = IFLASH_OK /\ forall i c, take (Z.to_nat 3) [1; 2; 3] !! i = Some c ->
                                  cell (i_hw st') (IFLASH_APP_BASE + 64 + Z.of_nat i) = c
    end.
Proof. apply (iflash_program_correct 64 3 [1; 2; 3] Sim.used); unfold is_u32; simpl; lia. Defined.

(** An unaligned range is not wholly checked: the bytes past the last whole
    word of the count, here byte 4, are skipped. *)
Theorem is_erased_unaligned_gap :
  let h : Z -> Z := fun a => if a =? IFLASH_APP_BASE + 4 then 0 else 255 in
  fst (iflash_is_erased 3 2 (IflashState (h : hw) 0 0 [])) = true /\
  cell (h : hw) (IFLASH_APP_BASE + 4) = 0.
Proof. by vm_compute. Qed.

Lemma iflash_erase_sector_correct_witness :
  let '(rc, st') := iflash_erase_sector 2 Sim.used in
  (forall a, ~ in_sector 2 a -> cell (i_hw st') a = cell (i_hw Sim.used) a) /\
  (exists tr, i_trace st' = i_trace Sim.used ++ tr /\ Forall call_in_app tr /\ (length tr <= 1)%nat) /\
  (rc = IFLASH_ERR_UNSUPPORTED <-> iflash_available Sim.used = false) /\
  (rc = IFLASH_ERR_RANGE <-> iflash_available Sim.used = true /\ ~ 1 <= 2 <= 3) /\
  (rc = IFLASH_OK -> 1 <= 2 <= 3 /\ forall a, in_sector 2 a -> cell (i_hw st') a = 255).
Proof. apply (iflash_erase_sector_correct 2 Sim.used). Defined.
