(* ===== verification/Dfu.v ===== *)
(** * The DFU bootloader's download machine ([src/boot/dfu_callbacks.c])

    The TinyUSB callbacks -- download, manifest, abort, poll timeout, upload --
    over the session state [dl] and the flash driver [Iflash], and the boot
    decision [app_valid] of [src/boot/main.c].  The USB stack is free to call
    them in any order: the theorems are about every sequence of callbacks. *)

From S2P Require Import Prelude Iflash.
Local Open Scope Z_scope.

Definition ERASE_POLL_MS : Z := 2500.
Definition PROGRAM_POLL_MS : Z := 10.
Definition MANIFEST_POLL_MS : Z := 100.
Definition CFG_TUD_DFU_XFER_BUFSIZE : Z := 1024.

(** The [dfu_status] codes the callbacks report, and what they tell the stack. *)
Inductive dfu_status : Type :=
  | DFU_STATUS_OK | DFU_STATUS_ERR_TARGET | DFU_STATUS_ERR_FILE | DFU_STATUS_ERR_ERASE
  | DFU_STATUS_ERR_PROG | DFU_STATUS_ERR_VERIFY | DFU_STATUS_ERR_ADDRESS
  | DFU_STATUS_ERR_NOTDONE | DFU_STATUS_ERR_UNKNOWN.
Inductive dfu_event : Type :=
  | FinishFlashing (s : dfu_status)   (* tud_dfu_finish_flashing() *)
  | RequestReboot.                    (* boot_request_reboot() *)

(** The DFU states the poll timeout is asked in (USB DFU 1.1, bState). *)
Definition DFU_DNBUSY : Z := 4.
Definition DFU_MANIFEST : Z := 7.

(** [x & 0xFF000000u]. *)
Definition high_byte (x : Z) : Z := Z.land x 4278190080.

Definition msp_plausible (msp : Z) : bool :=
  let hi := high_byte msp in
  (hi =? 603979776) || (hi =? 536870912) || (hi =? 805306368) || (hi =? 939524096).

Definition reset_plausible (rst : Z) : bool :=
  (IFLASH_APP_BASE <=? rst) && (rst <? IFLASH_APP_BASE +% IFLASH_APP_SIZE) &&
  negb (Z.land rst 1 =? 0).

(** [struct dl]. *)
Record session : Type := Session {
  active : bool; err : bool; have_vec : bool; next_off : Z; total : Z; vec : list Z;
}.
Definition dl_zero : session := Session false false false 0 0 (replicate 32 0).

Section dfu.
Context `{FH : FlashHal}.

(** The driver, [dl], [g_image_len], and what the stack and the main loop have
    been told. *)
Record dfu : Type := Dfu {
  d_flash : ist; dl : session; g_image_len : Z; d_events : list dfu_event;
}.

Definition dl_reset (st : dfu) : dfu := Dfu (d_flash st) dl_zero (g_image_len st) (d_events st).
Definition dl_set (f : session -> session) (st : dfu) : dfu :=
  Dfu (d_flash st) (f (dl st)) (g_image_len st) (d_events st).
Definition set_flash (fl : ist) (st : dfu) : dfu := Dfu fl (dl st) (g_image_len st) (d_events st).
Definition tell (e : dfu_event) (st : dfu) : dfu :=
  Dfu (d_flash st) (dl st) (g_image_len st) (d_events st ++ [e]).
Definition finish (s : dfu_status) (st : dfu) : dfu := tell (FinishFlashing s) st.

Definition set_active (d : session) : session :=
  Session true (err d) (have_vec d) (next_off d) (total d) (vec d).
Definition set_err (d : session) : session :=
  Session (active d) true (have_vec d) (next_off d) (total d) (vec d).
Definition hold_vec (v : list Z) (d : session) : session :=
  Session (active d) (err d) true (next_off d) (total d) v.
Definition advance (off : Z) (d : session) : session :=
  Session (active d) (err d) (have_vec d) off off (vec d).

Definition tud_dfu_abort_cb (st : dfu) : dfu := dl_reset st.

Definition tud_dfu_get_timeout_cb (state : Z) (st : dfu) : Z :=
  if state =? DFU_DNBUSY then
    if negb (active (dl st)) || err (dl st) || (next_off (dl st) mod IFLASH_SECTOR_SIZE =? 0)
    then ERASE_POLL_MS else PROGRAM_POLL_MS
  else if state =? DFU_MANIFEST then MANIFEST_POLL_MS
  else 0.

(** [dl.err = 1u; tud_dfu_finish_flashing(s); return;] *)
Definition fail (s : dfu_status) (st : dfu) : dfu := finish s (dl_set set_err st).

(** Entering a sector. *)
Definition erase_on_entry (off : Z) (st : dfu) : bool * dfu :=
  if off mod IFLASH_SECTOR_SIZE =? 0 then
    let sector := IFLASH_APP_SECTOR_LO +% off / IFLASH_SECTOR_SIZE in
    let '(rc, fl) := iflash_erase_sector sector (d_flash st) in
    (bool_decide (rc = IFLASH_OK), set_flash fl st)
  else (true, st).

(** The block, [length] bytes at [data]; [None] is a read outside it. *)
Definition tud_dfu_download_cb (block_num : Z) (data : list Z) (length : Z) (st : dfu) : option dfu :=
  let off := u32 (block_num * CFG_TUD_DFU_XFER_BUFSIZE) in
  let reset := dl_reset st in
  if (block_num =? 0) && negb (iflash_available (d_flash st)) then
    Some (finish DFU_STATUS_ERR_TARGET reset)
  else if (block_num =? 0) && (length <? IFLASH_WORD_SIZE) then
    Some (finish DFU_STATUS_ERR_FILE reset)
  else
    let st := if block_num =? 0 then dl_set set_active reset else st in
    if negb (active (dl st)) || err (dl st) then Some (fail DFU_STATUS_ERR_UNKNOWN st)
    else if negb (off =? next_off (dl st)) || (length =? 0) || (CFG_TUD_DFU_XFER_BUFSIZE <? length) ||
            (IFLASH_APP_SIZE <? off) || (IFLASH_APP_SIZE -% off <? length)
    then Some (fail DFU_STATUS_ERR_ADDRESS st)
    else
      let '(ok, st) := erase_on_entry off st in
      if negb ok then Some (fail DFU_STATUS_ERR_ERASE st)
      else
        let st := if off =? 0 then dl_set (hold_vec (take (Z.to_nat IFLASH_WORD_SIZE) data)) st else st in
        '(rc, fl) ← (if off =? 0
                     then iflash_program IFLASH_WORD_SIZE (Some (drop (Z.to_nat IFLASH_WORD_SIZE) data))
                            (length -% IFLASH_WORD_SIZE) (d_flash st)
                     else iflash_program off (Some data) length (d_flash st));
        let st := set_flash fl st in
        if negb (bool_decide (rc = IFLASH_OK)) then Some (fail DFU_STATUS_ERR_PROG st)
        else Some (finish DFU_STATUS_OK (dl_set (advance (off +% length)) st)).

Definition tud_dfu_manifest_cb (st : dfu) : option dfu :=
  let d := dl st in
  if negb (active d) || err d || negb (have_vec d) || (total d <? IFLASH_WORD_SIZE) then
    Some (finish DFU_STATUS_ERR_NOTDONE (dl_reset st))
  else
    let msp := get32 (vec d) in
    let rst := get32 (drop 4 (vec d)) in
    if negb (msp_plausible msp) || negb (reset_plausible rst) then
      Some (finish DFU_STATUS_ERR_FILE (dl_reset st))
    else
      '(rc, fl) ← iflash_program 0 (Some (vec d)) IFLASH_WORD_SIZE (d_flash st);
      let st := set_flash fl st in
      if negb (bool_decide (rc = IFLASH_OK)) then Some (finish DFU_STATUS_ERR_VERIFY (dl_reset st))
      else
        let st := Dfu (d_flash st) (dl st) (total d) (d_events st) in
        Some (tell RequestReboot (finish DFU_STATUS_OK (dl_reset st))).

(** The bytes put in the caller's buffer of [length] bytes. *)
Definition tud_dfu_upload_cb (block_num length : Z) (st : dfu) : list Z :=
  let upload_len := if g_image_len st =? 0 then 4096 else g_image_len st in
  let off := u32 (block_num * CFG_TUD_DFU_XFER_BUFSIZE) in
  if upload_len <=? off then []
  else
    let n := upload_len -% off in
    let n := if length <? n then length else n in
    map (fun i => cpu_read (i_hw (d_flash st)) (IFLASH_APP_BASE + off + Z.of_nat i)) (seq 0 (Z.to_nat n)).

(** [app_valid] of the boot code, on the hardware as it comes out of reset. *)
Definition app_valid (h : hw) : bool :=
  let msp := cpu_read32 h IFLASH_APP_BASE in
  let rst := cpu_read32 h (IFLASH_APP_BASE + 4) in
  let msp_hi := high_byte msp in
  ((msp_hi =? 603979776) || (msp_hi =? 536870912) || (msp_hi =? 805306368) || (msp_hi =? 939524096)) &&
  ((IFLASH_APP_BASE <=? rst) && (rst <? IFLASH_APP_BASE +% IFLASH_APP_SIZE) && negb (Z.land rst 1 =? 0)).

(** ** Sequences of callbacks *)

Inductive callback : Type :=
  | Download (block_num : Z) (data : list Z)
  | Manifest
  | Abort
  | GetTimeout (state : Z)
  | Upload (block_num length : Z).

Definition callback_ok (c : callback) : Prop :=
  match c with
  | Download n d => is_u16 n /\ is_u16 (Z.of_nat (length d)) /\ bytes_ok d
  | Upload n l => is_u16 n /\ is_u16 l
  | _ => True
  end.

Definition dfu_step (c : callback) (st : dfu) : option dfu :=
  match c with
  | Download n d => tud_dfu_download_cb n d (Z.of_nat (length d)) st
  | Manifest => tud_dfu_manifest_cb st
  | Abort => Some (tud_dfu_abort_cb st)
  | GetTimeout _ | Upload _ _ => Some st
  end.

Fixpoint dfu_run (cs : list callback) (st : dfu) : option dfu :=
  match cs with
  | [] => Some st
  | c :: cs => st ← dfu_step c st; dfu_run cs st
  end.
End dfu.

(** ** What one block does *)

(** A trace of callbacks whose last download session is [img]: a block 0, then
    blocks in order, all but the last full, with no other download, manifest or
    abort in between. *)
Inductive rooted : list callback -> list Z -> Prop :=
  | rooted_first tr d :
      32 <= Z.of_nat (length d) <= 1024 -> rooted (tr ++ [Download 0 d]) d
  | rooted_next tr img n d :
      rooted tr img -> n <> 0 -> Z.of_nat (length img) = n * 1024 ->
      0 < Z.of_nat (length d) <= 1024 -> rooted (tr ++ [Download n d]) (img ++ d)
  | rooted_timeout tr img s : rooted tr img -> rooted (tr ++ [GetTimeout s]) img
  | rooted_upload tr img n l : rooted tr img -> rooted (tr ++ [Upload n l]) img.

Section outcomes.
Context `{FH : FlashHal}.

Definition healthy (st : dfu) : bool := active (dl st) && negb (err (dl st)).

Definition sector_of (off : Z) : Z := 1 + off / IFLASH_SECTOR_SIZE.

(** The block the machine takes: a first block of at least a vector table, or
    the continuation of a healthy session. *)
Definition block_fits (n : Z) (d : list Z) (st : dfu) : Prop :=
  let len := Z.of_nat (length d) in
  0 < len <= 1024 /\ n * 1024 + len <= IFLASH_APP_SIZE /\
  if n =? 0 then 32 <= len else healthy st = true /\ next_off (dl st) = n * 1024.

(** The flash after the sector erase that entering a sector takes. *)
Definition after_entry (n : Z) (fl fl' : ist) : Prop :=
  if n * 1024 mod IFLASH_SECTOR_SIZE =? 0
  then iflash_erase_sector (sector_of (n * 1024)) fl = (IFLASH_OK, fl')
  else fl' = fl.

(** The program call of a block: all of it, or all but the held-back word. *)
Definition program_block (n : Z) (d : list Z) (fl : ist) : option (iflash_rc * ist) :=
  let len := Z.of_nat (length d) in
  if n =? 0 then iflash_program 32 (Some (drop 32 d)) (len - 32) fl
  else iflash_program (n * 1024) (Some d) len fl.

Definition session_after (n : Z) (d : list Z) (st : dfu) : session :=
  let off := n * 1024 + Z.of_nat (length d) in
  if n =? 0 then Session true false true off off (take 32 d)
  else Session true false (have_vec (dl st)) off off (vec (dl st)).

Inductive download_outcome (n : Z) (d : list Z) (st st' : dfu) : Prop :=
  | block_refused s :
      d_events st' = d_events st ++ [FinishFlashing s] -> s <> DFU_STATUS_OK ->
      s <> DFU_STATUS_ERR_ERASE -> healthy st' = false -> d_flash st' = d_flash st ->
      download_outcome n d st st'
  | block_erase_failed rc :
      d_events st' = d_events st ++ [FinishFlashing DFU_STATUS_ERR_ERASE] -> healthy st' = false ->
      n * 1024 mod IFLASH_SECTOR_SIZE = 0 -> block_fits n d st ->
      iflash_erase_sector (sector_of (n * 1024)) (d_flash st) = (rc, d_flash st') -> rc <> IFLASH_OK ->
      download_outcome n d st st'
  | block_program_failed fl rc :
      d_events st' = d_events st ++ [FinishFlashing DFU_STATUS_ERR_PROG] -> healthy st' = false ->
      block_fits n d st -> after_entry n (d_flash st) fl ->
      program_block n d fl = Some (rc, d_flash st') -> rc <> IFLASH_OK ->
      download_outcome n d st st'
  | block_taken fl :
      d_events st' = d_events st ++ [FinishFlashing DFU_STATUS_OK] ->
      block_fits n d st -> after_entry n (d_flash st) fl ->
      program_block n d fl = Some (IFLASH_OK, d_flash st') -> dl st' = session_after n d st ->
      download_outcome n d st st'.

Lemma healthy_true st : healthy st = true <-> active (dl st) = true /\ err (dl st) = false.
Proof. unfold healthy. rewrite andb_true_iff, negb_true_iff. done. Qed.

Lemma erase_on_entry_spec n st : 0 <= n < 384 ->
  let '(ok, st') := erase_on_entry (n * 1024) st in
  dl st' = dl st /\ g_image_len st' = g_image_len st /\ d_events st' = d_events st /\
  if ok then after_entry n (d_flash st) (d_flash st')
  else n * 1024 mod IFLASH_SECTOR_SIZE = 0 /\
       exists rc, iflash_erase_sector (sector_of (n * 1024)) (d_flash st) = (rc, d_flash st') /\ rc <> IFLASH_OK.
Proof.
  intros Hn. unfold erase_on_entry, after_entry. destruct (n * 1024 mod IFLASH_SECTOR_SIZE =? 0) eqn:E.
  2:{ by split_and!. }
  unfold IFLASH_APP_SECTOR_LO.
  rewrite u32_small.
  2:{ unfold is_u32, IFLASH_SECTOR_SIZE. Z.div_mod_to_equations; lia. }
  fold (sector_of (n * 1024)).
  destruct (iflash_erase_sector (sector_of (n * 1024)) (d_flash st)) as [rc fl] eqn:Ee.
  do 3 (split; [done|]). case_bool_decide as Hrc; [by rewrite Hrc|].
  split; [lia|]. by exists rc.
Qed.
End outcomes.

Section laws.
Context `{FH : FlashHal} `{FL : !FlashLaws}.

Lemma program_block_runs n d fl : 0 <= n < 65536 -> Z.of_nat (length d) < 65536 ->
  (n = 0 -> 32 <= Z.of_nat (length d)) -> exists rc fl', program_block n d fl = Some (rc, fl').
Proof.
  intros Hn Hd Hz. unfold program_block. destruct (Z.eqb_spec n 0).
  - destruct (iflash_program_spec 32 (drop 32 d) (Z.of_nat (length d) - 32) fl) as (rc & fl' & -> & _);
      [unfold is_u32; lia..|rewrite length_drop; lia|eauto].
  - destruct (iflash_program_spec (n * 1024) d (Z.of_nat (length d)) fl) as (rc & fl' & -> & _);
      [unfold is_u32; lia..|lia|eauto].
Qed.

Lemma download_spec n d st :
  callback_ok (Download n d) ->
  exists st', dfu_step (Download n d) st = Some st' /\
    (g_image_len st' = g_image_len st /\
     (length (vec (dl st)) = 32%nat -> length (vec (dl st')) = 32%nat)) /\
    download_outcome n d st st'.
Proof.
  intros (Hn & Hd & _). unfold is_u16 in Hn, Hd. cbn [dfu_step]. unfold tud_dfu_download_cb.
  unfold CFG_TUD_DFU_XFER_BUFSIZE, IFLASH_WORD_SIZE. rewrite (u32_small (n * 1024)) by (unfold is_u32; lia).
  set (len := Z.of_nat (length d)) in *. cbv zeta.
  destruct ((n =? 0) && negb (iflash_available (d_flash st))) eqn:E1.
  { eexists; split; [done|]. split; [done|]. by eapply block_refused. }
  destruct ((n =? 0) && (len <? 32)) eqn:E2.
  { eexists; split; [done|]. split; [done|]. by eapply block_refused. }
  set (st0 := if n =? 0 then dl_set set_active (dl_reset st) else st).
  assert (Hst0 : d_flash st0 = d_flash st /\ g_image_len st0 = g_image_len st /\ d_events st0 = d_events st).
  { unfold st0. by destruct (n =? 0). }
  destruct Hst0 as (Hf0 & Hg0 & He0).
  assert (Hvec0 : length (vec (dl st)) = 32%nat -> length (vec (dl st0)) = 32%nat).
  { unfold st0. by destruct (n =? 0). }
  assert (Hfail : forall s st1, g_image_len st1 = g_image_len st -> d_events st1 = d_events st ->
    (length (vec (dl st)) = 32%nat -> length (vec (dl st1)) = 32%nat) ->
    (g_image_len (fail s st1) = g_image_len st /\
     (length (vec (dl st)) = 32%nat -> length (vec (dl (fail s st1))) = 32%nat)) /\
    d_events (fail s st1) = d_events st ++ [FinishFlashing s] /\
    healthy (fail s st1) = false /\ d_flash (fail s st1) = d_flash st1).
  { intros s st1 Hg He Hv. unfold healthy. simpl. rewrite He, andb_false_r. done. }
  destruct (negb (active (dl st0)) || err (dl st0)) eqn:E3.
  { destruct (Hfail DFU_STATUS_ERR_UNKNOWN st0 Hg0 He0 Hvec0) as (? & ? & ? & Hf).
    eexists; split; [done|]. split; [done|]. eapply block_refused; first [done | by rewrite Hf]. }
  assert (Hnext : next_off (dl st0) = if n =? 0 then 0 else next_off (dl st)).
  { unfold st0. by destruct (n =? 0). }
  destruct (negb (n * 1024 =? next_off (dl st0)) || (len =? 0) || (1024 <? len) ||
            (IFLASH_APP_SIZE <? n * 1024) || (IFLASH_APP_SIZE -% n * 1024 <? len)) eqn:E4.
  { destruct (Hfail DFU_STATUS_ERR_ADDRESS st0 Hg0 He0 Hvec0) as (? & ? & ? & Hf).
    eexists; split; [done|]. split; [done|]. eapply block_refused; first [done | by rewrite Hf]. }
  repeat apply orb_false_iff in E4 as [E4 ?].
  assert (Hsz : n * 1024 + len <= IFLASH_APP_SIZE).
  { unfold IFLASH_APP_SIZE in *. rewrite u32_small in * by (unfold is_u32; lia). lia. }
  assert (Hfits : block_fits n d st).
  { unfold block_fits. fold len. split; [lia|]. split; [done|]. unfold st0 in E3, E4.
    destruct (n =? 0) eqn:En; [lia|]. unfold healthy. split; [|lia].
    by destruct (active (dl st)), (err (dl st)). }
  pose proof (erase_on_entry_spec n st0 ltac:(unfold IFLASH_APP_SIZE in *; lia)) as Hent.
  destruct (erase_on_entry (n * 1024) st0) as [ok st1]. destruct Hent as (Hd1 & Hg1 & He1 & Hent).
  destruct ok; cbn [negb].
  2:{ destruct (Hfail DFU_STATUS_ERR_ERASE st1) as (? & ? & ? & Hf); [by rewrite Hg1|by rewrite He1|by rewrite Hd1|].
      destruct Hent as (Hmod & rc & Her & Hrc). rewrite Hf0 in Her.
      eexists; split; [done|]. split; [done|]. eapply block_erase_failed; first [done | by rewrite Hf]. }
  set (st2 := if n * 1024 =? 0 then dl_set (hold_vec (take (Z.to_nat 32) d)) st1 else st1).
  assert (Hst2 : d_flash st2 = d_flash st1 /\ g_image_len st2 = g_image_len st /\ d_events st2 = d_events st).
  { unfold st2. destruct (n * 1024 =? 0); simpl; by rewrite Hg1, He1. }
  destruct Hst2 as (Hf2 & Hg2 & He2).
  assert (Hen : (n * 1024 =? 0) = (n =? 0)) by lia.
  assert (Hvec2 : length (vec (dl st)) = 32%nat -> length (vec (dl st2)) = 32%nat).
  { unfold st2. destruct (Z.eqb_spec (n * 1024) 0); [|by rewrite Hd1]. intros _. simpl.
    rewrite length_take. change (Pos.to_nat 32) with 32%nat. unfold len in *. lia. }
  assert (Hprog : (if n * 1024 =? 0
                   then iflash_program 32 (Some (drop (Z.to_nat 32) d)) (len -% 32) (d_flash st2)
                   else iflash_program (n * 1024) (Some d) len (d_flash st2)) = program_block n d (d_flash st1)).
  { unfold program_block. fold len. rewrite Hen, Hf2. destruct (Z.eqb_spec n 0); [|done].
    by rewrite u32_small by (unfold is_u32; lia). }
  rewrite Hprog. rewrite Hf0 in Hent.
  destruct (program_block_runs n d (d_flash st1)) as (rc & fl & Hrun); [lia|lia|intros ->; simpl in E2; lia|].
  rewrite Hrun. cbn [mbind option_bind]. case_bool_decide as Hrc; cbn [negb].
  - eexists; split; [done|]. split; [split; [exact Hg2|exact Hvec2]|]. subst rc. eapply block_taken; try done.
    + simpl. by rewrite He2.
    + simpl. unfold session_after. fold len. rewrite u32_small by (unfold is_u32, IFLASH_APP_SIZE in *; lia).
      unfold advance. unfold st2. rewrite Hen. unfold st0 in Hd1.
      destruct (n =? 0); simpl; rewrite Hd1; [done|].
      simpl in E3. unfold st0 in E3. by destruct (active (dl st)), (err (dl st)).
  - destruct (Hfail DFU_STATUS_ERR_PROG (set_flash fl st2)) as (? & ? & ? & Hf); [done|done|done|].
    eexists; split; [done|]. split; [done|]. by eapply block_program_failed.
Qed.

(** ** The session invariant *)

Definition round_sector (x : Z) : Z := (x + 131071) / 131072 * 131072.

(** The flash of a healthy session that received [img]: everything but the
    held-back first word is in place, that word is blank, and so is the rest of
    the current sector. *)
Record session_ok (st : dfu) (img : list Z) : Prop := {
  so_len : 32 <= Z.of_nat (length img) <= IFLASH_APP_SIZE;
  so_next : next_off (dl st) = Z.of_nat (length img);
  so_total : total (dl st) = Z.of_nat (length img);
  so_have : have_vec (dl st) = true;
  so_vec : vec (dl st) = take 32 img;
  so_blank : blank_range (i_hw (d_flash st)) IFLASH_APP_BASE (IFLASH_APP_BASE + 32);
  so_data : forall i c, (32 <= i)%nat -> img !! i = Some c ->
    cell (i_hw (d_flash st)) (IFLASH_APP_BASE + Z.of_nat i) = c;
  so_rest : blank_range (i_hw (d_flash st)) (IFLASH_APP_BASE + round32 (Z.of_nat (length img)))
              (IFLASH_APP_BASE + round_sector (Z.of_nat (length img)));
}.

(** The calls a run added: all in the partition, programs of blank words only. *)
Definition calls_ok (fl fl' : ist) : Prop :=
  exists tr, i_trace fl' = i_trace fl ++ tr /\ Forall call_in_app tr /\ Forall call_blank tr.

Lemma calls_ok_refl fl : calls_ok fl fl.
Proof. exists []. rewrite app_nil_r. by split_and!. Qed.

Lemma calls_ok_trans fl1 fl2 fl3 : calls_ok fl1 fl2 -> calls_ok fl2 fl3 -> calls_ok fl1 fl3.
Proof.
  intros (t1 & H1 & H2 & H3) (t2 & H4 & H5 & H6). exists (t1 ++ t2).
  rewrite H4, H1, <-app_assoc. split; [done|]. by split; apply Forall_app.
Qed.

Lemma programs_calls_ok lo hi fl fl' : programs lo hi fl fl' -> blank_range (i_hw fl) lo hi -> calls_ok fl fl'.
Proof.
  intros [_ (tr & H1 & H2 & H3)] Hb. exists tr. split; [done|]. split; [|auto].
  eapply Forall_impl; [exact H2|]. apply program_in_app_call.
Qed.

Lemma erases_calls_ok s fl rc fl' : 1 <= s <= 3 -> iflash_erase_sector s fl = (rc, fl') ->
  erases s fl fl' /\ calls_ok fl fl'.
Proof.
  intros Hs He. pose proof (iflash_erase_sector_spec s fl) as Hsp. rewrite He in Hsp.
  destruct Hsp as [Her _]. split; [done|]. destruct Her as [_ [Ht|Ht]].
  - exists []. rewrite app_nil_r. by split_and!.
  - exists [Erase s]. split; [done|]. split; repeat constructor; lia.
Qed.

(** The end of the sector of block [n]. *)
Definition sector_end (n : Z) : Z := (n * 1024 / 131072 + 1) * 131072.

Lemma in_sector_off off a : 0 <= off -> off mod 131072 = 0 ->
  in_sector (sector_of off) a <-> IFLASH_APP_BASE + off <= a < IFLASH_APP_BASE + off + 131072.
Proof.
  intros Ho Hm. unfold in_sector, sector_of, IFLASH_BASE_ADDR, IFLASH_SECTOR_SIZE, IFLASH_APP_BASE.
  pose proof (Z.div_mod off 131072 ltac:(lia)). lia.
Qed.

Lemma sector_of_range off : 0 <= off < IFLASH_APP_SIZE -> 1 <= sector_of off <= 3.
Proof. intros Ho. unfold sector_of, IFLASH_SECTOR_SIZE, IFLASH_APP_SIZE in *. Z.div_mod_to_equations; lia. Qed.

(** Entering a block: what precedes it is untouched and the rest of its sector
    is blank, if it was blank or has just been erased. *)
Lemma after_entry_spec n fl fl' :
  0 <= n -> n * 1024 < IFLASH_APP_SIZE -> after_entry n fl fl' ->
  (n * 1024 mod 131072 <> 0 ->
   blank_range (i_hw fl) (IFLASH_APP_BASE + n * 1024) (IFLASH_APP_BASE + sector_end n)) ->
  (forall a, ~ (IFLASH_APP_BASE + n * 1024 <= a < IFLASH_APP_BASE + sector_end n) ->
     cell (i_hw fl') a = cell (i_hw fl) a) /\
  blank_range (i_hw fl') (IFLASH_APP_BASE + n * 1024) (IFLASH_APP_BASE + sector_end n) /\
  calls_ok fl fl'.
Proof.
  intros Hn Hlt Hent Hbl. unfold after_entry, IFLASH_SECTOR_SIZE in Hent.
  destruct (Z.eqb_spec (n * 1024 mod 131072) 0) as [Hm|Hm].
  - pose proof (iflash_erase_sector_spec (sector_of (n * 1024)) fl) as Hsp. rewrite Hent in Hsp.
    pose proof (sector_of_range (n * 1024) ltac:(lia)) as Hs.
    destruct (erases_calls_ok _ _ _ _ Hs Hent) as [[Hf _] Hc]. destruct Hsp as [_ Hsp].
    split; [|split; [|done]].
    + intros a Ha. apply Hf. rewrite in_sector_off by (done || lia). unfold sector_end in Ha.
      pose proof (Z.div_mod (n * 1024) 131072 ltac:(lia)). lia.
    + destruct (negb (iflash_available fl)); [by destruct Hsp|].
      destruct (negb _); [by destruct Hsp|]. destruct Hsp as [?|(_ & _ & Hb)]; [done|].
      intros a Ha. apply Hb. rewrite in_sector_off by (done || lia). unfold sector_end in Ha.
      pose proof (Z.div_mod (n * 1024) 131072 ltac:(lia)). lia.
  - subst fl'. split; [done|]. split; [by apply Hbl|apply calls_ok_refl].
Qed.

Lemma program_refused_OK off len fl : program_refused off len fl = Some IFLASH_OK -> len = 0.
Proof. unfold program_refused. repeat case_if; try done. lia. Qed.

(** The program call of a block. *)
Lemma program_block_spec n d fl rc fl' :
  let len := Z.of_nat (length d) in
  let lo := n * 1024 + (if n =? 0 then 32 else 0) in
  0 <= n -> 0 < len <= 1024 -> n * 1024 + len <= IFLASH_APP_SIZE -> (n = 0 -> 32 <= len) ->
  blank_range (i_hw fl) (IFLASH_APP_BASE + n * 1024) (IFLASH_APP_BASE + sector_end n) ->
  program_block n d fl = Some (rc, fl') ->
  (forall a, ~ (IFLASH_APP_BASE + lo <= a < IFLASH_APP_BASE + round32 (n * 1024 + len)) ->
     cell (i_hw fl') a = cell (i_hw fl) a) /\
  calls_ok fl fl' /\
  (rc = IFLASH_OK -> forall i c, d !! i = Some c -> (n = 0 -> (32 <= i)%nat) ->
     cell (i_hw fl') (IFLASH_APP_BASE + n * 1024 + Z.of_nat i) = c).
Proof.
  intros len lo Hn Hl Hsz H0 Hb Hp. unfold program_block in Hp. fold len in Hp.
  assert (Hr : n * 1024 + len <= round32 (n * 1024 + len) /\ round32 (n * 1024 + len) <= sector_end n).
  { unfold round32, sector_end. Z.div_mod_to_equations; lia. }
  destruct (Z.eqb_spec n 0) as [-> |Hnz].
  - destruct (iflash_program_spec 32 (drop 32 d) (len - 32) fl) as (rc' & fl'' & Hp' & Hpr & Hrc);
      [unfold is_u32; lia..|rewrite length_drop; lia|].
    rewrite Hp in Hp'. injection Hp' as <- <-.
    assert (Hend : IFLASH_APP_BASE + 32 + round32 (len - 32) = IFLASH_APP_BASE + round32 (0 * 1024 + len)).
    { unfold round32. Z.div_mod_to_equations; lia. }
    rewrite Hend in Hpr. split; [|split].
    + intros a Ha. apply Hpr. unfold lo in Ha. lia.
    + eapply programs_calls_ok; [exact Hpr|]. intros a Ha. apply Hb. lia.
    + intros -> i c Hi H32. specialize (H32 eq_refl). pose proof (lookup_lt_Some _ _ _ Hi) as Hlt.
      destruct (program_refused 32 (len - 32) fl) as [r|] eqn:Er.
      * destruct Hrc as [<- ->]. apply program_refused_OK in Er. lia.
      * destruct Hrc as [?|[?|[_ Hc]]]; [done|done|].
        rewrite <-(Hc (i - 32)%nat c).
        -- f_equal. lia.
        -- rewrite take_ge by (rewrite length_drop; lia). rewrite lookup_drop. by replace (32 + (i - 32))%nat with i by lia.
  - destruct (iflash_program_spec (n * 1024) d len fl) as (rc' & fl'' & Hp' & Hpr & Hrc);
      [unfold is_u32, IFLASH_APP_SIZE in *; lia..|lia|].
    rewrite Hp in Hp'. injection Hp' as <- <-.
    assert (Hend : IFLASH_APP_BASE + n * 1024 + round32 len = IFLASH_APP_BASE + round32 (n * 1024 + len)).
    { unfold round32. Z.div_mod_to_equations; lia. }
    rewrite Hend in Hpr. split; [|split].
    + intros a Ha. apply Hpr. unfold lo in Ha. lia.
    + eapply programs_calls_ok; [exact Hpr|]. intros a Ha. apply Hb. lia.
    + intros -> i c Hi _. pose proof (lookup_lt_Some _ _ _ Hi) as Hlt.
      destruct (program_refused (n * 1024) len fl) as [r|] eqn:Er.
      * destruct Hrc as [<- ->]. apply program_refused_OK in Er. lia.
      * destruct Hrc as [?|[?|[_ Hc]]]; [done|done|]. apply Hc. by rewrite take_ge by lia.
Qed.

Lemma blank_range_sub h lo hi lo' hi' : lo <= lo' -> hi' <= hi -> blank_range h lo hi -> blank_range h lo' hi'.
Proof. intros H1 H2 Hb a Ha. apply Hb. lia. Qed.

(** What precedes block [n] in a healthy session. *)
Lemma session_entry n d st img :
  n <> 0 -> block_fits n d st -> session_ok st img ->
  Z.of_nat (length img) = n * 1024 /\ 0 < n /\
  (n * 1024 mod 131072 <> 0 ->
   blank_range (i_hw (d_flash st)) (IFLASH_APP_BASE + n * 1024) (IFLASH_APP_BASE + sector_end n)).
Proof.
  intros Hn (Hl & Hsz & Hf) Hs. rewrite (proj2 (Z.eqb_neq n 0) Hn) in Hf. destruct Hf as [_ Hnext].
  rewrite (so_next _ _ Hs) in Hnext. pose proof (so_len _ _ Hs) as Hlen. split; [done|]. split; [lia|].
  intros Hm. pose proof (so_rest _ _ Hs) as Hr. rewrite Hnext in Hr. eapply blank_range_sub; [| |exact Hr].
  - unfold round32. Z.div_mod_to_equations; lia.
  - unfold round_sector, sector_end. Z.div_mod_to_equations; lia.
Qed.

(** The calls of any block of a session, taken or not. *)
Lemma block_calls n d st st' :
  callback_ok (Download n d) -> (healthy st = true -> exists img, session_ok st img) ->
  download_outcome n d st st' -> calls_ok (d_flash st) (d_flash st').
Proof.
  intros (Hn & Hd & _) Hs Hout. unfold is_u16 in Hn.
  assert (Hsub : forall fl rc, block_fits n d st -> after_entry n (d_flash st) fl ->
    program_block n d fl = Some (rc, d_flash st') -> calls_ok (d_flash st) (d_flash st')).
  { intros fl rc Hfit Hent Hp. pose proof Hfit as (Hl & Hsz & Hif).
    assert (Hpre : n * 1024 mod 131072 <> 0 ->
      blank_range (i_hw (d_flash st)) (IFLASH_APP_BASE + n * 1024) (IFLASH_APP_BASE + sector_end n)).
    { destruct (decide (n = 0)) as [-> |Hnz]; [by intros []|].
      rewrite (proj2 (Z.eqb_neq n 0) Hnz) in Hif. destruct Hs as [img Hs]; [apply Hif|].
      by eapply session_entry. }
    destruct (after_entry_spec n (d_flash st) fl) as (_ & Hb & Hc1); [lia|lia|done|done|].
    edestruct (program_block_spec n d fl) as (_ & Hc2 & _); [lia|done|done| |done|done|by eapply calls_ok_trans].
    intros ->. simpl in Hif. lia. }
  destruct Hout as [s ? ? ? ? Hfl|rc ? ? Hm (Hl & Hsz & _) Her ?|fl rc ? ? ? ? ? ?|fl ? ? ? ? ?].
  - rewrite Hfl. apply calls_ok_refl.
  - eapply erases_calls_ok; [|exact Her]. apply sector_of_range. lia.
  - by eapply Hsub.
  - by eapply Hsub.
Qed.

(** A taken block extends the session. *)
Lemma block_taken_session n d st st' fl :
  0 <= n -> block_fits n d st -> after_entry n (d_flash st) fl ->
  program_block n d fl = Some (IFLASH_OK, d_flash st') -> dl st' = session_after n d st ->
  (n = 0 -> session_ok st' d) /\
  (forall img, n <> 0 -> session_ok st img -> session_ok st' (img ++ d)).
Proof.
  intros Hn Hfit Hent Hp Hdl. pose proof Hfit as (Hl & Hsz & Hif). unfold session_after in Hdl. split.
  - intros ->. simpl in Hif, Hdl.
    destruct (after_entry_spec 0 (d_flash st) fl) as (Hfr1 & Hb & _); [lia|done|done|by intros []|].
    destruct (program_block_spec 0 d fl _ _ ltac:(lia) Hl Hsz ltac:(lia) Hb Hp) as (Hfr & _ & Hdata).
    rewrite Z.eqb_refl, Z.mul_0_l, !Z.add_0_l in Hfr. rewrite Z.mul_0_l, Z.add_0_r in Hb, Hdata.
    change (sector_end 0) with 131072 in Hb.
    assert (Hr : 32 <= round32 (Z.of_nat (length d)) <= 1024)
      by (unfold round32; Z.div_mod_to_equations; lia).
    constructor; try (rewrite Hdl; simpl; done || lia).
    + lia.
    + intros a Ha. rewrite Hfr by lia. apply Hb. lia.
    + intros i c Hi Hc. by apply Hdata.
    + intros a Ha. rewrite Hfr by lia. apply Hb.
      assert (round_sector (Z.of_nat (length d)) <= 131072)
        by (unfold round_sector; Z.div_mod_to_equations; lia). lia.
  - intros img Hnz Hs. destruct (session_entry n d st img Hnz Hfit Hs) as (Hlen & Hpos & Hpre).
    rewrite (proj2 (Z.eqb_neq n 0) Hnz) in Hdl.
    destruct (after_entry_spec n (d_flash st) fl) as (Hfr1 & Hb & _); [lia|lia|done|done|].
    destruct (program_block_spec n d fl _ _ Hn Hl Hsz ltac:(lia) Hb Hp) as (Hfr & _ & Hdata).
    rewrite (proj2 (Z.eqb_neq n 0) Hnz), Z.add_0_r in Hfr.
    assert (Htot : Z.of_nat (length (img ++ d)) = n * 1024 + Z.of_nat (length d)) by (rewrite length_app; lia).
    assert (Hr : round32 (n * 1024 + Z.of_nat (length d)) <= sector_end n /\
                 round_sector (n * 1024 + Z.of_nat (length d)) = sector_end n /\
                 n * 1024 <= round32 (n * 1024 + Z.of_nat (length d)))
      by (unfold round32, round_sector, sector_end; Z.div_mod_to_equations; lia).
    assert (Hlow : forall a, a < IFLASH_APP_BASE + n * 1024 ->
              cell (i_hw (d_flash st')) a = cell (i_hw (d_flash st)) a).
    { intros a Ha. rewrite Hfr by lia. apply Hfr1. lia. }
    destruct Hs. constructor; rewrite ?Htot, ?Hdl; try done; try lia.
    + simpl. rewrite so_vec0. rewrite take_app_le by lia. done.
    + intros a Ha. rewrite Hlow by lia. by apply so_blank0.
    + intros i c Hi Hc. destruct (decide (i < length img)%nat).
      * rewrite lookup_app_l in Hc by done. rewrite Hlow by lia. by apply so_data0.
      * rewrite lookup_app_r in Hc by lia. rewrite <-(Hdata eq_refl _ _ Hc) by done. f_equal. lia.
    + intros a Ha. rewrite Hfr by lia. apply Hb. lia.
Qed.

(** ** The manifest *)

Definition vec_plausible (v : list Z) : bool := msp_plausible (get32 v) && reset_plausible (get32 (drop 4 v)).

Inductive manifest_outcome (st st' : dfu) : Prop :=
  | manifest_refused s :
      d_events st' = d_events st ++ [FinishFlashing s] -> s <> DFU_STATUS_OK ->
      s <> DFU_STATUS_ERR_VERIFY -> d_flash st' = d_flash st -> g_image_len st' = g_image_len st ->
      manifest_outcome st st'
  | manifest_failed rc :
      d_events st' = d_events st ++ [FinishFlashing DFU_STATUS_ERR_VERIFY] -> healthy st = true ->
      iflash_program 0 (Some (vec (dl st))) 32 (d_flash st) = Some (rc, d_flash st') ->
      g_image_len st' = g_image_len st -> manifest_outcome st st'
  | manifest_committed :
      d_events st' = d_events st ++ [FinishFlashing DFU_STATUS_OK; RequestReboot] -> healthy st = true ->
      vec_plausible (vec (dl st)) = true ->
      iflash_program 0 (Some (vec (dl st))) 32 (d_flash st) = Some (IFLASH_OK, d_flash st') ->
      g_image_len st' = total (dl st) -> manifest_outcome st st'.

Lemma manifest_spec st : length (vec (dl st)) = 32%nat ->
  exists st', dfu_step Manifest st = Some st' /\ dl st' = dl_zero /\ manifest_outcome st st'.
Proof.
  intros Hv. cbn [dfu_step]. unfold tud_dfu_manifest_cb, IFLASH_WORD_SIZE.
  destruct (negb (active (dl st)) || err (dl st) || negb (have_vec (dl st)) || (total (dl st) <? 32)) eqn:E1.
  { eexists; split; [done|]. split; [done|]. by eapply manifest_refused. }
  assert (Hh : healthy st = true).
  { apply healthy_true. repeat apply orb_false_iff in E1 as [E1 ?]. by apply negb_false_iff in E1. }
  cbv zeta. fold (vec_plausible (vec (dl st))).
  destruct (negb (msp_plausible (get32 (vec (dl st)))) || negb (reset_plausible (get32 (drop 4 (vec (dl st)))))) eqn:E2.
  { eexists; split; [done|]. split; [done|]. by eapply manifest_refused. }
  assert (Hp : vec_plausible (vec (dl st)) = true) by (unfold vec_plausible; lia).
  destruct (iflash_program_spec 0 (vec (dl st)) 32 (d_flash st)) as (rc & fl & Hrun & _);
    [unfold is_u32; lia..|rewrite Hv; lia|].
  rewrite Hrun. cbn [mbind option_bind]. case_bool_decide as Hrc; cbn [negb].
  - subst rc. eexists; split; [done|]. split; [done|]. eapply manifest_committed; try done.
    simpl. by rewrite <-app_assoc.
  - eexists; split; [done|]. split; [done|]. by eapply manifest_failed.
Qed.

(** The vector word's program, in a session. *)
Lemma program_vector st rc fl' :
  length (vec (dl st)) = 32%nat ->
  blank_range (i_hw (d_flash st)) IFLASH_APP_BASE (IFLASH_APP_BASE + 32) ->
  iflash_program 0 (Some (vec (dl st))) 32 (d_flash st) = Some (rc, fl') ->
  (forall a, ~ (IFLASH_APP_BASE <= a < IFLASH_APP_BASE + 32) ->
     cell (i_hw fl') a = cell (i_hw (d_flash st)) a) /\
  calls_ok (d_flash st) fl' /\
  (rc = IFLASH_OK -> forall i c, vec (dl st) !! i = Some c -> cell (i_hw fl') (IFLASH_APP_BASE + Z.of_nat i) = c).
Proof.
  intros Hv Hb Hp.
  destruct (iflash_program_spec 0 (vec (dl st)) 32 (d_flash st)) as (rc' & fl'' & Hp' & Hpr & Hrc);
    [unfold is_u32; lia..|rewrite Hv; lia|].
  rewrite Hp in Hp'. injection Hp' as <- <-. rewrite Z.add_0_r in Hpr.
  change (round32 32) with 32 in Hpr. split; [by apply Hpr|].
  split; [by eapply programs_calls_ok|]. intros -> i c Hi.
  destruct (program_refused 0 32 (d_flash st)) as [r|] eqn:Er.
  - destruct Hrc as [<- ->]. by apply program_refused_OK in Er.
  - destruct Hrc as [?|[?|[_ Hc]]]; [done|done|]. rewrite <-(Hc i c); [f_equal; lia|].
    rewrite take_ge by (rewrite Hv; lia). done.
Qed.

(** ** The invariant of every run *)

Record inv (tr : list callback) (st : dfu) : Prop := {
  inv_vec : length (vec (dl st)) = 32%nat;
  inv_len : 0 <= g_image_len st <= IFLASH_APP_SIZE;
  inv_session : healthy st = true -> exists img, rooted tr img /\ session_ok st img;
  inv_in_app : Forall call_in_app (i_trace (d_flash st));
  inv_blank : Forall call_blank (i_trace (d_flash st));
}.

Lemma calls_ok_inv fl fl' : calls_ok fl fl' ->
  Forall call_in_app (i_trace fl) -> Forall call_blank (i_trace fl) ->
  Forall call_in_app (i_trace fl') /\ Forall call_blank (i_trace fl').
Proof. intros (tr & -> & H1 & H2) H3 H4. by split; apply Forall_app. Qed.

Lemma inv_session_ok tr st : inv tr st -> healthy st = true -> exists img, session_ok st img.
Proof. intros Hi Hh. destruct (inv_session _ _ Hi Hh) as (img & _ & Hs). eauto. Qed.

Lemma inv_step tr st c : inv tr st -> callback_ok c ->
  exists st', dfu_step c st = Some st' /\ inv (tr ++ [c]) st'.
Proof.
  intros Hi Hc. destruct c as [n d| | |s|n l].
  - destruct (download_spec n d st Hc) as (st' & Hst & [Hg Hv] & Hout). exists st'. split; [done|].
    assert (Hcalls : calls_ok (d_flash st) (d_flash st')).
    { eapply block_calls; [exact Hc|by apply (inv_session_ok tr)|done]. }
    destruct (calls_ok_inv _ _ Hcalls (inv_in_app _ _ Hi) (inv_blank _ _ Hi)).
    constructor; [apply Hv, Hi|rewrite Hg; apply Hi| |done|done].
    intros Hh'. destruct Hout as [s ? ? ? Hh ?|rc ? Hh ? ? ? ?|fl rc ? Hh ? ? ? ?|fl He Hfit Hent Hp Hdl];
      try congruence.
    destruct Hc as (Hn & _). destruct (block_taken_session n d st st' fl) as [Ht0 Ht1]; [apply Hn|done..|].
    pose proof Hfit as (Hl & Hsz & Hif). destruct (decide (n = 0)) as [-> |Hnz].
    + exists d. split; [|by apply Ht0]. apply rooted_first. simpl in Hif. lia.
    + rewrite (proj2 (Z.eqb_neq n 0) Hnz) in Hif. destruct Hif as [Hh Hnext].
      destruct (inv_session _ _ Hi Hh) as (img & Hr & Hs). exists (img ++ d). split; [|by apply Ht1].
      apply rooted_next; try done. rewrite <-Hnext. symmetry. apply Hs.
  - destruct (manifest_spec st (inv_vec _ _ Hi)) as (st' & Hst & Hdl & Hout). exists st'. split; [done|].
    assert (Hcalls : calls_ok (d_flash st) (d_flash st') /\ 0 <= g_image_len st' <= IFLASH_APP_SIZE).
    { destruct Hout as [s ? ? ? Hfl Hg|rc ? Hh Hp Hg|? Hh ? Hp Hg].
      - rewrite Hfl, Hg. split; [apply calls_ok_refl|apply Hi].
      - rewrite Hg. split; [|apply Hi]. destruct (inv_session_ok _ _ Hi Hh) as [img Hs].
        eapply program_vector; [apply Hi|apply Hs|exact Hp].
      - destruct (inv_session_ok _ _ Hi Hh) as [img Hs]. split.
        + eapply program_vector; [apply Hi|apply Hs|exact Hp].
        + rewrite Hg, (so_total _ _ Hs). pose proof (so_len _ _ Hs). lia. }
    destruct Hcalls as [Hcalls Hg].
    destruct (calls_ok_inv _ _ Hcalls (inv_in_app _ _ Hi) (inv_blank _ _ Hi)).
    constructor; try done; unfold healthy; by rewrite Hdl.
  - eexists; split; [done|]. destruct Hi. by constructor.
  - eexists; split; [done|]. destruct Hi. constructor; try done. intros Hh.
    destruct (inv_session0 Hh) as (img & Hr & Hs). exists img. split; [by constructor|done].
  - eexists; split; [done|]. destruct Hi. constructor; try done. intros Hh.
    destruct (inv_session0 Hh) as (img & Hr & Hs). exists img. split; [by constructor|done].
Qed.

Lemma inv_run cs : forall tr st, inv tr st -> Forall callback_ok cs ->
  exists st', dfu_run cs st = Some st' /\ inv (tr ++ cs) st'.
Proof.
  induction cs as [|c cs IH]; intros tr st Hi Hcs.
  { exists st. by rewrite app_nil_r. }
  inversion_clear Hcs as [|? ? Hc Hcs']. destruct (inv_step tr st c Hi Hc) as (st1 & Hst & Hi1).
  destruct (IH (tr ++ [c]) st1 Hi1 Hcs') as (st2 & Hst2 & Hi2).
  exists st2. cbn [dfu_run]. rewrite Hst. split; [done|]. by rewrite <-app_assoc in Hi2.
Qed.

(** The state the boot code starts in: [dl] and [g_image_len] are zero. *)
Definition dfu_boot (h : hw) : dfu := Dfu (IflashState h 0 0 []) dl_zero 0 [].

Lemma inv_boot h : inv [] (dfu_boot h).
Proof.
  constructor; simpl; try done; try constructor; unfold IFLASH_APP_SIZE; lia.
Qed.

(** ** What a block can change *)

(** A block changes nothing outside [lo, hi) of the partition: [lo] is its
    offset, and for a block 0 that was not answered by an erase error the held
    back word is either as it was or blank. *)
Lemma download_frame n d st st' :
  callback_ok (Download n d) -> (healthy st = true -> exists img, session_ok st img) ->
  download_outcome n d st st' ->
  (forall a, cell (i_hw (d_flash st')) a <> cell (i_hw (d_flash st)) a ->
     IFLASH_APP_BASE + n * 1024 <= a < IFLASH_APP_BASE + IFLASH_APP_SIZE) /\
  (d_events st' = d_events st ++ [FinishFlashing DFU_STATUS_ERR_ERASE] \/
   d_flash st' = d_flash st \/ 0 < n \/
   blank_range (i_hw (d_flash st')) IFLASH_APP_BASE (IFLASH_APP_BASE + 32)).
Proof.
  intros (Hn & _) Hs Hout. unfold is_u16 in Hn.
  assert (Hsub : forall fl rc, block_fits n d st -> after_entry n (d_flash st) fl ->
    program_block n d fl = Some (rc, d_flash st') ->
    (forall a, cell (i_hw (d_flash st')) a <> cell (i_hw (d_flash st)) a ->
       IFLASH_APP_BASE + n * 1024 <= a < IFLASH_APP_BASE + IFLASH_APP_SIZE) /\
    (0 < n \/ blank_range (i_hw (d_flash st')) IFLASH_APP_BASE (IFLASH_APP_BASE + 32))).
  { intros fl rc Hfit Hent Hp. pose proof Hfit as (Hl & Hsz & Hif).
    assert (Hpre : n * 1024 mod 131072 <> 0 ->
      blank_range (i_hw (d_flash st)) (IFLASH_APP_BASE + n * 1024) (IFLASH_APP_BASE + sector_end n)).
    { destruct (decide (n = 0)) as [-> |Hnz]; [by intros []|].
      rewrite (proj2 (Z.eqb_neq n 0) Hnz) in Hif. destruct Hs as [img Hs]; [apply Hif|].
      by eapply session_entry. }
    destruct (after_entry_spec n (d_flash st) fl) as (Hf1 & Hb & _); [lia|lia|done|done|].
    destruct (program_block_spec n d fl rc (d_flash st')) as (Hf2 & _ & _); [lia|done|done| |done|done|].
    { intros ->. simpl in Hif. lia. }
    assert (He : n * 1024 < sector_end n <= IFLASH_APP_SIZE /\
                 round32 (n * 1024 + Z.of_nat (length d)) <= sector_end n).
    { unfold sector_end, round32, IFLASH_APP_SIZE in *. Z.div_mod_to_equations; lia. }
    split.
    - intros a Ha. destruct (decide (IFLASH_APP_BASE + n * 1024 <= a < IFLASH_APP_BASE + sector_end n)) as [|Hout'];
        [lia|]. exfalso. apply Ha. rewrite Hf2, Hf1; [done|done|]. case_if; lia.
    - destruct (decide (n = 0)) as [-> |]; [|left; lia]. right. intros a Ha.
      rewrite Hf2 by (simpl; lia). apply Hb. unfold sector_end. simpl. lia. }
  destruct Hout as [s ? ? ? ? Hfl|rc Hev ? Hm (Hl & Hsz & _) Her ?|fl rc ? ? Hfit Hent Hp ?|fl ? Hfit Hent Hp ?].
  - rewrite Hfl. split; [by intros a []|]. right. by left.
  - split; [|by left]. intros a Ha. pose proof (sector_of_range (n * 1024) ltac:(lia)) as Hsr.
    destruct (erases_calls_ok _ _ _ _ Hsr Her) as [[Hf _] _].
    destruct (decide (IFLASH_APP_BASE + n * 1024 <= a < IFLASH_APP_BASE + n * 1024 + 131072)).
    + unfold IFLASH_SECTOR_SIZE, IFLASH_APP_SIZE in *. Z.div_mod_to_equations; lia.
    + exfalso. apply Ha, Hf. by rewrite in_sector_off by (done || lia).
  - destruct (Hsub fl rc Hfit Hent Hp) as [Hx [Hy|Hy]]; (split; [done|]); auto.
  - destruct (Hsub fl IFLASH_OK Hfit Hent Hp) as [Hx [Hy|Hy]]; (split; [done|]); auto.
Qed.

(** A manifest changes the vector word only. *)
Lemma manifest_frame tr st st' : inv tr st -> manifest_outcome st st' ->
  (forall a, ~ (IFLASH_APP_BASE <= a < IFLASH_APP_BASE + 32) ->
     cell (i_hw (d_flash st')) a = cell (i_hw (d_flash st)) a).
Proof.
  intros Hi Hout a Ha. destruct Hout as [s ? ? ? Hfl Hg|rc ? Hh Hp Hg|? Hh ? Hp Hg].
  - by rewrite Hfl.
  - destruct (inv_session_ok _ _ Hi Hh) as [img Hs].
    eapply (program_vector st rc); [apply Hi|apply Hs|exact Hp|done].
  - destruct (inv_session_ok _ _ Hi Hh) as [img Hs].
    eapply (program_vector st IFLASH_OK); [apply Hi|apply Hs|exact Hp|done].
Qed.

Definition in_app (a : Z) : Prop := IFLASH_APP_BASE <= a < IFLASH_APP_BASE + IFLASH_APP_SIZE.

Lemma step_frame tr st c st' : inv tr st -> callback_ok c -> dfu_step c st = Some st' ->
  forall a, ~ in_app a -> cell (i_hw (d_flash st')) a = cell (i_hw (d_flash st)) a.
Proof.
  intros Hi Hc Hst a Ha. unfold in_app in Ha. destruct c as [n d| | |s|n l]; try (by simplify_eq/=).
  - destruct (download_spec n d st Hc) as (st'' & Hst' & _ & Hout). rewrite Hst in Hst'. simplify_eq.
    destruct (download_frame n d st st'' Hc (inv_session_ok tr st Hi) Hout) as [Hf _].
    destruct (decide (cell (i_hw (d_flash st'')) a = cell (i_hw (d_flash st)) a)) as [|Hne]; [done|].
    apply Hf in Hne. destruct Hc as [Hn _]. unfold is_u16 in Hn. lia.
  - destruct (manifest_spec st (inv_vec _ _ Hi)) as (st'' & Hst' & _ & Hout).
    rewrite Hst in Hst'. simplify_eq. eapply manifest_frame; [done|done|].
    unfold IFLASH_APP_SIZE in Ha. lia.
Qed.

Lemma run_frame cs : forall tr st st', inv tr st -> Forall callback_ok cs -> dfu_run cs st = Some st' ->
  forall a, ~ in_app a -> cell (i_hw (d_flash st')) a = cell (i_hw (d_flash st)) a.
Proof.
  induction cs as [|c cs IH]; intros tr st st' Hi Hcs Hrun a Ha; simpl in Hrun; [by simplify_eq|].
  inversion_clear Hcs as [|? ? Hc Hcs']. destruct (inv_step tr st c Hi Hc) as (st1 & Hst & Hi1).
  rewrite Hst in Hrun. cbn [mbind option_bind] in Hrun.
  rewrite (IH _ _ _ Hi1 Hcs' Hrun a Ha). by eapply step_frame.
Qed.

(** the bootloader is safe from its own downloads.  Whatever sequence of
    callbacks the USB host provokes, in any order and with any data, the machine
    always answers, no byte outside the application partition -- the bootloader
    in sector 0 above all -- ever changes, every flash operation stays inside
    the partition on aligned words, and no flash word is programmed twice
    without an erase. *)
Theorem dfu_safe (h : hw) (cs : list callback) :
  Forall callback_ok cs ->
  exists st, dfu_run cs (dfu_boot h) = Some st /\
    (forall a, ~ in_app a -> cell (i_hw (d_flash st)) a = cell h a) /\
    Forall call_in_app (i_trace (d_flash st)) /\
    Forall call_blank (i_trace (d_flash st)).
Proof.
  intros Hcs. destruct (inv_run cs [] (dfu_boot h) (inv_boot h) Hcs) as (st & Hrun & Hi).
  exists st. split; [done|]. split; [by eapply (run_frame cs [] (dfu_boot h)), Hrun; [apply inv_boot|]|].
  split; apply Hi.
Qed.

(** ** Booting what was committed, and nothing else *)

(** [h'] is the hardware after a reset: caches off, the same flash. *)
Definition after_reset (h h' : hw) : Prop :=
  dcache_on h' = false /\ forall a, cell h' a = cell h a.

Lemma app_valid_plausible h :
  app_valid h = msp_plausible (cpu_read32 h IFLASH_APP_BASE) && reset_plausible (cpu_read32 h (IFLASH_APP_BASE + 4)).
Proof. done. Qed.

Lemma cpu_read32_after_reset h h' a : after_reset h h' ->
  cpu_read32 h' a = get32 [cell h a; cell h (a + 1); cell h (a + 2); cell h (a + 3)].
Proof. intros [Hd Hc]. unfold cpu_read32. by rewrite !dcache_off_read, !Hc by done. Qed.

Lemma get32_nth (l : list Z) k : (k + 4 <= length l)%nat ->
  get32 [nth k l 0; nth (k + 1) l 0; nth (k + 2) l 0; nth (k + 3) l 0] = get32 (drop k l).
Proof.
  intros Hk. unfold get32. cbn [nth]. rewrite !nth_lookup. rewrite !lookup_drop.
  by rewrite Nat.add_0_r.
Qed.

Lemma app_valid_vector h h' v : after_reset h h' -> length v = 32%nat ->
  (forall i c, v !! i = Some c -> cell h (IFLASH_APP_BASE + Z.of_nat i) = c) ->
  app_valid h' = vec_plausible v.
Proof.
  intros Hr Hv Hc. rewrite app_valid_plausible. unfold vec_plausible.
  assert (Hcell : forall k, (k < 32)%nat -> cell h (IFLASH_APP_BASE + Z.of_nat k) = nth k v 0).
  { intros k Hk. apply Hc. rewrite nth_lookup. destruct (lookup_lt_is_Some_2 v k) as [c Hk']; [lia|].
    by rewrite Hk'. }
  rewrite !(cpu_read32_after_reset _ _ _ Hr), <-!Z.add_assoc.
  change (get32 v) with (get32 (drop 0 v)). rewrite <-!get32_nth by lia.
  rewrite <-!Hcell by lia. do 2 f_equal; by rewrite Z.add_0_r.
Qed.

Lemma app_valid_blank h h' : after_reset h h' ->
  blank_range h IFLASH_APP_BASE (IFLASH_APP_BASE + 32) -> app_valid h' = false.
Proof.
  intros Hr Hb. rewrite (app_valid_vector h h' (replicate 32 255)); [done|done|done|].
  intros i c [-> Hi]%lookup_replicate. apply Hb. lia.
Qed.

(** What a successful manifest leaves. *)
Lemma commit_spec (h : hw) (cs : list callback) (st st' : dfu) :
  Forall callback_ok cs -> dfu_run cs (dfu_boot h) = Some st ->
  dfu_step Manifest st = Some st' -> last (d_events st') = Some RequestReboot ->
  exists img, rooted cs img /\ g_image_len st' = Z.of_nat (length img) /\
    32 <= Z.of_nat (length img) <= IFLASH_APP_SIZE /\
    (forall i c, img !! i = Some c -> cell (i_hw (d_flash st')) (IFLASH_APP_BASE + Z.of_nat i) = c) /\
    forall h', after_reset (i_hw (d_flash st')) h' -> app_valid h' = true.
Proof.
  intros Hcs Hrun Hst Hev. destruct (inv_run cs [] (dfu_boot h) (inv_boot h) Hcs) as (st1 & Hrun' & Hi).
  rewrite Hrun in Hrun'. simplify_eq. rewrite app_nil_l in Hi.
  destruct (manifest_spec st1 (inv_vec _ _ Hi)) as (st2 & Hst' & _ & Hout). rewrite Hst in Hst'. simplify_eq.
  pose proof (manifest_frame _ _ _ Hi Hout) as Hfr.
  destruct Hout as [s He _ _ _ _|rc He _ _ _|He Hh Hpl Hp Hg].
  { by rewrite He, last_snoc in Hev. }
  { by rewrite He, last_snoc in Hev. }
  destruct (inv_session _ _ Hi Hh) as (img & Hr & Hs). exists img. split; [done|].
  rewrite Hg, (so_total _ _ Hs). split; [done|]. split; [apply Hs|].
  assert (Hvec : forall i c, vec (dl st1) !! i = Some c ->
            cell (i_hw (d_flash st2)) (IFLASH_APP_BASE + Z.of_nat i) = c).
  { eapply program_vector; [apply Hi|apply Hs|exact Hp|done]. }
  split.
  - intros i c Hc. destruct (decide (i < 32)%nat) as [Hlt|Hge].
    + apply Hvec. rewrite (so_vec _ _ Hs). by rewrite lookup_take_lt.
    + rewrite Hfr by lia. apply (so_data _ _ Hs); [lia|done].
  - intros h' Hh'. rewrite (app_valid_vector _ _ _ Hh' (inv_vec _ _ Hi) Hvec). done.
Qed.

(** C2: only complete sessions commit.  When a manifest is answered with success
    and a reboot, the callbacks so far end in one session that starts at a block
    0 and continues with strictly consecutive blocks; the flash then holds
    exactly the bytes of its blocks, [g_image_len] is their number, and the boot
    code accepts the image after the reset. *)
Theorem dfu_commit_correct (h : hw) (cs : list callback) (st st' : dfu) :
  Forall callback_ok cs -> dfu_run cs (dfu_boot h) = Some st ->
  dfu_step Manifest st = Some st' -> last (d_events st') = Some RequestReboot ->
  exists img, rooted cs img /\ g_image_len st' = Z.of_nat (length img) /\
    (forall i c, img !! i = Some c -> cell (i_hw (d_flash st')) (IFLASH_APP_BASE + Z.of_nat i) = c) /\
    forall h', after_reset (i_hw (d_flash st')) h' -> app_valid h' = true.
Proof.
  intros Hcs Hrun Hst Hev.
  destruct (commit_spec h cs st st' Hcs Hrun Hst Hev) as (img & Hr & Hl & _ & Hc & Hv).
  by exists img.
Qed.

(** What keeps the vector word blank. *)
Definition harmless (e : dfu_event) : Prop :=
  e <> FinishFlashing DFU_STATUS_ERR_ERASE /\ e <> FinishFlashing DFU_STATUS_ERR_VERIFY /\ e <> RequestReboot.

Lemma step_vector_blank tr st c : inv tr st -> callback_ok c ->
  exists st' es, dfu_step c st = Some st' /\ d_events st' = d_events st ++ es /\
    (blank_range (i_hw (d_flash st)) IFLASH_APP_BASE (IFLASH_APP_BASE + 32) -> Forall harmless es ->
     blank_range (i_hw (d_flash st')) IFLASH_APP_BASE (IFLASH_APP_BASE + 32)).
Proof.
  intros Hi Hc. destruct c as [n d| | |s|n l].
  - destruct (download_spec n d st Hc) as (st' & Hst & _ & Hout).
    destruct (download_frame n d st st' Hc (inv_session_ok tr st Hi) Hout) as [Hf Hv].
    assert (Hev : exists s, d_events st' = d_events st ++ [FinishFlashing s]) by (destruct Hout; eauto).
    destruct Hev as [s Hev]. exists st', [FinishFlashing s]. do 2 (split; [done|]). intros Hb Hes.
    destruct Hv as [Hv|[-> |[Hn|Hv]]]; [|done| |done].
    + rewrite Hv in Hev. apply app_inv_head in Hev. injection Hev as <-. by apply Forall_singleton in Hes as [[] _].
    + intros a Ha. rewrite <-(Hb a Ha).
      destruct (decide (cell (i_hw (d_flash st')) a = cell (i_hw (d_flash st)) a)) as [|Hne]; [done|].
      apply Hf in Hne. lia.
  - destruct (manifest_spec st (inv_vec _ _ Hi)) as (st' & Hst & _ & Hout). exists st'.
    destruct Hout as [s He _ _ Hfl _|rc He _ _ _|He _ _ _ _]; eexists; (split; [done|]); (split; [exact He|]).
    + by rewrite Hfl.
    + intros _ (_ & [] & _)%Forall_singleton. done.
    + intros _ [_ (_ & _ & [])%Forall_singleton]%Forall_cons. done.
  - exists (dl_reset st), []. by rewrite app_nil_r.
  - exists st, []. by rewrite app_nil_r.
  - exists st, []. by rewrite app_nil_r.
Qed.

Lemma run_vector_blank cs : forall tr st, inv tr st -> Forall callback_ok cs ->
  exists st' es, dfu_run cs st = Some st' /\ d_events st' = d_events st ++ es /\
    (blank_range (i_hw (d_flash st)) IFLASH_APP_BASE (IFLASH_APP_BASE + 32) -> Forall harmless es ->
     blank_range (i_hw (d_flash st')) IFLASH_APP_BASE (IFLASH_APP_BASE + 32)).
Proof.
  induction cs as [|c cs IH]; intros tr st Hi Hcs; [exists st, []; by rewrite app_nil_r|].
  inversion_clear Hcs as [|? ? Hc Hcs'].
  destruct (step_vector_blank tr st c Hi Hc) as (st1 & es1 & Hst1 & He1 & Hb1).
  destruct (inv_step tr st c Hi Hc) as (st1' & Hst1' & Hi1). rewrite Hst1 in Hst1'. simplify_eq.
  destruct (IH _ st1' Hi1 Hcs') as (st2 & es2 & Hst2 & He2 & Hb2).
  exists st2, (es1 ++ es2). cbn [dfu_run]. rewrite Hst1. split; [done|].
  split; [by rewrite He2, He1, app_assoc|]. intros Hb [Hes1 Hes2]%Forall_app. auto.
Qed.

(** A manifest whose vector write fails leaves the image of the session, the held-back
    word apart. *)
Lemma failed_commit_spec tr st st' : inv tr st -> dfu_step Manifest st = Some st' -> last (d_events st') = Some (FinishFlashing DFU_STATUS_ERR_VERIFY) ->
  exists img, rooted tr img /\
    (forall i c, (32 <= i)%nat -> img !! i = Some c -> cell (i_hw (d_flash st')) (IFLASH_APP_BASE + Z.of_nat i) = c) /\
    (forall a, ~ (IFLASH_APP_BASE <= a < IFLASH_APP_BASE + 32) -> cell (i_hw (d_flash st')) a = cell (i_hw (d_flash st)) a).
Proof.
  intros Hi Hst Hev. destruct (manifest_spec st (inv_vec _ _ Hi)) as (st'' & Hst'' & _ & Hout). rewrite Hst in Hst''. simplify_eq.
  destruct Hout as [s He _ Hs _ _|rc He Hh Hp _|He _ _ _ _].
  - rewrite He, last_snoc in Hev. congruence.
  - destruct (inv_session _ _ Hi Hh) as (img & Hr & Hs). destruct (program_vector st rc (d_flash st'') (inv_vec _ _ Hi) (so_blank _ _ Hs) Hp) as (Hf & _ & _).
    exists img. split; [done|]. split; [|exact Hf]. intros i c Hi32 Hc. rewrite Hf by lia. by apply (so_data _ _ Hs).
  - change ([?a; ?b]) with ([a] ++ [b]) in He. by rewrite He, app_assoc, last_snoc in Hev.
Qed.

(** C1: vector-last commit.  Once block 0 of a download has been accepted, then
    whatever follows -- more blocks in or out of order, aborts, refused manifests, a
    new download, a power cut after any of them -- the callbacks run, and the boot code
    finds no valid application unless one of the answers since was a commit, a failed
    sector erase or a failed write of the vector word.  When a manifest is answered by
    the last of these, whatever the boot code may find has the bytes of the whole
    downloaded image from the held-back word on. *)
Theorem dfu_vector_last (h : hw) (before after : list callback) (d : list Z) (st0 st1 : dfu) :
  Forall callback_ok before -> callback_ok (Download 0 d) -> Forall callback_ok after ->
  dfu_run before (dfu_boot h) = Some st0 -> dfu_step (Download 0 d) st0 = Some st1 ->
  last (d_events st1) = Some (FinishFlashing DFU_STATUS_OK) ->
  exists st2 es, dfu_run after st1 = Some st2 /\ d_events st2 = d_events st1 ++ es /\
    (forall h', after_reset (i_hw (d_flash st2)) h' -> app_valid h' = true -> ~ Forall harmless es) /\
    (forall st3, dfu_step Manifest st2 = Some st3 -> last (d_events st3) = Some (FinishFlashing DFU_STATUS_ERR_VERIFY) ->
      exists img, rooted (before ++ [Download 0 d] ++ after) img /\
        forall i c, (32 <= i)%nat -> img !! i = Some c -> cell (i_hw (d_flash st3)) (IFLASH_APP_BASE + Z.of_nat i) = c).
Proof.
  intros Hb Hd Ha Hrun0 Hst1 Hok.
  destruct (inv_run before [] (dfu_boot h) (inv_boot h) Hb) as (st0' & Hrun0' & Hi0).
  rewrite Hrun0 in Hrun0'. simplify_eq.
  destruct (inv_step _ st0' _ Hi0 Hd) as (st1' & Hst1' & Hi1). rewrite Hst1 in Hst1'. simplify_eq.
  assert (Hb1 : blank_range (i_hw (d_flash st1')) IFLASH_APP_BASE (IFLASH_APP_BASE + 32)).
  { destruct (download_spec 0 d st0' Hd) as (st1'' & Hst1'' & _ & Hout). rewrite Hst1 in Hst1''. simplify_eq.
    destruct Hout as [s He Hs _ _ _|rc He _ _ _ _ _|fl rc He _ _ _ _ _|fl _ Hfit Hent Hp Hdl];
      try (rewrite He, last_snoc in Hok; congruence).
    apply (block_taken_session 0 d st0' st1'' fl ltac:(lia) Hfit Hent Hp Hdl). done. }
  destruct (run_vector_blank after _ st1' Hi1 Ha) as (st2 & es & Hrun2 & Hes & Hbl).
  destruct (inv_run after _ st1' Hi1 Ha) as (st2' & Hrun2' & Hi2). rewrite Hrun2 in Hrun2'. simplify_eq.
  exists st2', es. do 2 (split; [done|]). split.
  - intros h' Hh' Hv Hharm. rewrite (app_valid_blank (i_hw (d_flash st2')) h') in Hv; [done|done|by apply Hbl].
  - intros st3 Hst3 Hev. destruct (failed_commit_spec _ _ _ Hi2 Hst3 Hev) as (img & Hr & Hc & _). exists img. split; [|done]. by rewrite <-app_assoc in Hr.
Qed.

(** ** The poll timeout *)

Lemma program_block_no_erase n d fl rc fl' : 0 <= n < 65536 -> Z.of_nat (length d) < 65536 ->
  (n = 0 -> 32 <= Z.of_nat (length d)) -> program_block n d fl = Some (rc, fl') ->
  exists tr, i_trace fl' = i_trace fl ++ tr /\ forall s, ~ In (Erase s) tr.
Proof.
  intros Hn Hd H0 Hp.
  assert (Hpr : exists lo hi, programs lo hi fl fl').
  { unfold program_block in Hp. destruct (Z.eqb_spec n 0).
    - destruct (iflash_program_spec 32 (drop 32 d) (Z.of_nat (length d) - 32) fl) as (rc' & fl'' & Hp' & Hpr & _);
        [unfold is_u32; lia..|rewrite length_drop; lia|]. rewrite Hp in Hp'. simplify_eq. eauto.
    - destruct (iflash_program_spec (n * 1024) d (Z.of_nat (length d)) fl) as (rc' & fl'' & Hp' & Hpr & _);
        [unfold is_u32; lia..|lia|]. rewrite Hp in Hp'. simplify_eq. eauto. }
  destruct Hpr as (lo & hi & [_ (tr & Ht & Hin & _)]). exists tr. split; [done|].
  intros s Hs. rewrite Forall_forall in Hin. by apply list_elem_of_In, Hin in Hs.
Qed.

(** no erase takes the host by surprise.  If taking a block issues a sector
    erase, then the poll timeout quoted just before -- when the block was not
    yet known -- is the one that covers an erase, except for a host that
    restarts at block 0 in the middle of a healthy transfer. *)
Theorem dfu_erase_quoted (n : Z) (d : list Z) (st st' : dfu) :
  callback_ok (Download n d) -> dfu_step (Download n d) st = Some st' ->
  (exists s, In (Erase s) (drop (length (i_trace (d_flash st))) (i_trace (d_flash st')))) ->
  tud_dfu_get_timeout_cb DFU_DNBUSY st = ERASE_POLL_MS \/
  n = 0 /\ healthy st = true /\ next_off (dl st) mod IFLASH_SECTOR_SIZE <> 0.
Proof.
  intros Hc Hst (s & Hs). destruct (download_spec n d st Hc) as (st'' & Hst' & _ & Hout).
  rewrite Hst in Hst'. simplify_eq. destruct Hc as (Hn & Hd & _). unfold is_u16 in Hn, Hd.
  unfold tud_dfu_get_timeout_cb. rewrite Z.eqb_refl.
  destruct (negb (active (dl st)) || err (dl st) || (next_off (dl st) mod IFLASH_SECTOR_SIZE =? 0)) eqn:E;
    [by left|right].
  apply orb_false_iff in E as [E Hmod]. apply orb_false_iff in E as [Ea Ee].
  assert (Hh : healthy st = true) by (unfold healthy; by destruct (active (dl st)), (err (dl st))).
  assert (Hblock : block_fits n d st -> n * 1024 mod IFLASH_SECTOR_SIZE = 0 -> n = 0).
  { intros (_ & _ & Hif) Hm. destruct (decide (n = 0)) as [|Hnz]; [done|].
    rewrite (proj2 (Z.eqb_neq n 0) Hnz) in Hif. destruct Hif as [_ Hnext]. rewrite Hnext in Hmod. lia. }
  split; [|split; [done|lia]].
  assert (Hsub : forall fl rc, block_fits n d st -> after_entry n (d_flash st) fl ->
            program_block n d fl = Some (rc, d_flash st'') -> n = 0).
  { intros fl rc Hfit Hent Hp. destruct (decide (n * 1024 mod IFLASH_SECTOR_SIZE = 0)); [by apply Hblock|].
    exfalso. unfold after_entry in Hent. rewrite (proj2 (Z.eqb_neq _ 0)) in Hent by done. subst fl.
    pose proof Hfit as (_ & _ & Hif).
    destruct (program_block_no_erase n d (d_flash st) rc (d_flash st'')) as (tr & Ht & Hno);
      [lia|lia|intros ->; simpl in Hif; lia|done|].
    rewrite Ht, drop_app_length in Hs. by apply Hno in Hs. }
  destruct Hout as [s' ? ? ? ? Hfl|rc ? ? Hm Hfit Her ?|fl rc ? ? Hfit Hent Hp ?|fl ? Hfit Hent Hp ?].
  - by rewrite Hfl, drop_all in Hs.
  - by apply Hblock.
  - by eapply Hsub.
  - by eapply Hsub.
Qed.

(** ** Reading back *)

Definition upload_all (blocks : nat) (st : dfu) : list Z :=
  concat (map (fun k => tud_dfu_upload_cb (Z.of_nat k) CFG_TUD_DFU_XFER_BUFSIZE st) (seq 0 blocks)).

Lemma upload_cb_bytes k st : 0 < g_image_len st <= IFLASH_APP_SIZE -> 0 <= k < 65536 ->
  tud_dfu_upload_cb k CFG_TUD_DFU_XFER_BUFSIZE st =
    map (fun i => cpu_read (i_hw (d_flash st)) (IFLASH_APP_BASE + k * 1024 + Z.of_nat i))
      (seq 0 (Z.to_nat (Z.min 1024 (g_image_len st - k * 1024)))).
Proof.
  intros Hl Hk. unfold tud_dfu_upload_cb, CFG_TUD_DFU_XFER_BUFSIZE.
  rewrite u32_small by (unfold is_u32; lia). destruct (Z.eqb_spec (g_image_len st) 0); [lia|].
  destruct (Z.leb_spec (g_image_len st) (k * 1024)).
  { by replace (Z.to_nat _) with 0%nat by lia. }
  rewrite u32_small by (unfold is_u32, IFLASH_APP_SIZE in *; lia).
  do 3 f_equal. case_if; lia.
Qed.

Lemma upload_all_bytes st blocks : 0 < g_image_len st <= IFLASH_APP_SIZE -> Z.of_nat blocks <= 65536 ->
  upload_all blocks st =
    map (fun i => cpu_read (i_hw (d_flash st)) (IFLASH_APP_BASE + Z.of_nat i))
      (seq 0 (Nat.min (blocks * 1024) (Z.to_nat (g_image_len st)))).
Proof.
  intros Hl Hb. induction blocks as [|b IH]; [done|]. unfold upload_all in *.
  rewrite seq_S, map_app, concat_app, IH by lia. cbn [map concat]. rewrite app_nil_r.
  rewrite upload_cb_bytes by lia. set (m := Nat.min (b * 1024) (Z.to_nat (g_image_len st))).
  set (r := Z.to_nat _).
  replace (Nat.min (S b * 1024) (Z.to_nat (g_image_len st))) with (m + r)%nat by (unfold m, r; lia).
  rewrite seq_app, map_app. f_equal.
  destruct (decide (r = 0%nat)) as [-> |Hr]; [done|].
  assert (Hm : m = (b * 1024)%nat) by (unfold m, r in *; lia).
  assert (Hseq : seq (0 + m) r = map (Nat.add m) (seq 0 r)).
  { symmetry. etrans; [apply fmap_add_seq|]. f_equal. lia. }
  rewrite Hseq, map_map. apply map_ext. intros i. f_equal. lia.
Qed.

(** read-back round trip: after a committed download the upload blocks,
    taken until one comes back empty, spell exactly the bytes of the image that
    was sent, and every later block is empty. *)
Theorem dfu_upload_roundtrip (h : hw) (cs : list callback) (st st' : dfu) :
  Forall callback_ok cs -> dfu_run cs (dfu_boot h) = Some st ->
  dfu_step Manifest st = Some st' -> last (d_events st') = Some RequestReboot ->
  dcache_on (i_hw (d_flash st')) = false ->
  exists img, rooted cs img /\
    forall blocks, Z.of_nat (length img) <= Z.of_nat blocks * 1024 <= 67107840 ->
    upload_all blocks st' = img /\
    tud_dfu_upload_cb (Z.of_nat blocks) CFG_TUD_DFU_XFER_BUFSIZE st' = [].
Proof.
  intros Hcs Hrun Hst Hev Hoff.
  destruct (commit_spec h cs st st' Hcs Hrun Hst Hev) as (img & Hr & Hl & Hlen & Hc & _).
  exists img. split; [done|]. intros blocks Hb. split.
  - rewrite upload_all_bytes by lia. rewrite Hl.
    replace (Nat.min _ _) with (length img) by lia.
    apply list_eq. intros i. rewrite list_lookup_fmap.
    destruct (decide (i < length img)%nat) as [Hi|Hi].
    + rewrite lookup_seq_lt by done. simpl. destruct (lookup_lt_is_Some_2 img i Hi) as [c Hic].
      rewrite Hic. f_equal. rewrite dcache_off_read by done. by apply Hc.
    + rewrite lookup_seq_ge by lia. simpl. symmetry. apply lookup_ge_None_2. lia.
  - destruct (decide (Z.of_nat blocks < 65536)).
    + rewrite upload_cb_bytes by lia. by replace (Z.to_nat _) with 0%nat by lia.
    + lia.
Qed.
End laws.

(** ** A download on a device that works

    A 40-byte image: an initial stack pointer in AXI-SRAM, a reset vector in the
    partition, and 32 bytes of code. *)
Module Example.
Import Sim.

Definition image : list Z := [0; 0; 1; 36; 1; 1; 2; 8] ++ replicate 32 7.
Definition device : hw := fun _ => 0.
Definition got (o : option dfu) : dfu := default (dfu_boot device) o.

Definition downloaded : dfu := got (dfu_run [GetTimeout 4; Download 0 image] (dfu_boot device)).
Definition committed : dfu := got (dfu_step Manifest downloaded).

Lemma callbacks_ok : Forall callback_ok [GetTimeout 4; Download 0 image].
Proof.
  constructor; [done|]. constructor; [|constructor]. unfold callback_ok, is_u16. split; [lia|].
  split; [simpl; lia|]. unfold image. simpl. repeat constructor; unfold is_u8; lia.
Qed.

Lemma downloaded_run : dfu_run [GetTimeout 4; Download 0 image] (dfu_boot device) = Some downloaded.
Proof.
  unfold downloaded.
  destruct (inv_run [GetTimeout 4; Download 0 image] [] (dfu_boot device) (inv_boot _) callbacks_ok) as (st & -> & _).
  done.
Qed.

Lemma committed_step : dfu_step Manifest downloaded = Some committed.
Proof.
  destruct (manifest_spec downloaded) as (st & Hst & _); [by vm_compute|].
  unfold committed. by rewrite Hst.
Qed.

Lemma committed_event : last (d_events committed) = Some RequestReboot.
Proof. by vm_compute. Qed.
End Example.
Import Sim Example.

Lemma dfu_safe_witness : exists st, dfu_run [GetTimeout 4; Download 0 image] (dfu_boot device) = Some st /\
  (forall a, ~ in_app a -> cell (i_hw (d_flash st)) a = cell device a) /\
  Forall call_in_app (i_trace (d_flash st)) /\ Forall call_blank (i_trace (d_flash st)).
Proof. apply (dfu_safe device). apply callbacks_ok. Defined.

Lemma dfu_commit_correct_witness :
  exists img, rooted [GetTimeout 4; Download 0 image] img /\ g_image_len committed = Z.of_nat (length img) /\
    (forall i c, img !! i = Some c -> cell (i_hw (d_flash committed)) (IFLASH_APP_BASE + Z.of_nat i) = c) /\
    forall h', after_reset (i_hw (d_flash committed)) h' -> app_valid h' = true.
Proof.
  apply (dfu_commit_correct device [GetTimeout 4; Download 0 image] downloaded committed).
  - apply callbacks_ok.
  - apply downloaded_run.
  - apply committed_step.
  - apply committed_event.
Defined.

Lemma dfu_vector_last_witness : exists st2, dfu_run [Abort; Manifest] downloaded = Some st2 /\ (app_valid (i_hw (d_flash st2)) = true -> False).
Proof.
  assert (Hb : Forall callback_ok [GetTimeout 4]) by by repeat constructor.
  assert (Hd : callback_ok (Download 0 image)) by (pose proof callbacks_ok as H; by inversion_clear H as [|? ? _ H']; inversion_clear H').
  assert (Ha : Forall callback_ok [Abort; Manifest]) by by repeat constructor.
  assert (Hs : dfu_step (Download 0 image) (dfu_boot device) = Some downloaded).
  { pose proof downloaded_run as H. cbn [dfu_run mbind option_bind dfu_step] in H.
    cbn [dfu_step]. by destruct (tud_dfu_download_cb 0 image (Z.of_nat (length image)) (dfu_boot device)). }
  assert (Hev : last (d_events downloaded) = Some (FinishFlashing DFU_STATUS_OK)) by by vm_compute.
  destruct (dfu_vector_last device [GetTimeout 4] [Abort; Manifest] image (dfu_boot device) downloaded Hb Hd Ha eq_refl Hs Hev) as (st2 & es & Hr & He & Hv & _).
  exists st2. split; [exact Hr|]. intros Hval. apply (Hv (i_hw (d_flash st2))); [by split|exact Hval|].
  assert (Hst : st2 = finish DFU_STATUS_ERR_NOTDONE (dl_reset (dl_reset downloaded))) by (cbn in Hr; by injection Hr as <-).
  rewrite Hst in He. apply app_inv_head in He. subst es. by repeat constructor.
Defined.

Lemma dfu_erase_quoted_witness :
  tud_dfu_get_timeout_cb DFU_DNBUSY (dfu_boot device) = ERASE_POLL_MS \/
  0 = 0 /\ healthy (dfu_boot device) = true /\ next_off (dl (dfu_boot device)) mod IFLASH_SECTOR_SIZE <> 0.
Proof.
  apply (dfu_erase_quoted 0 image (dfu_boot device) downloaded).
  - pose proof callbacks_ok as H. by inversion_clear H as [|? ? _ H']; inversion_clear H'.
  - pose proof downloaded_run as H. cbn [dfu_run mbind option_bind dfu_step] in H.
    cbn [dfu_step]. by destruct (tud_dfu_download_cb 0 image (Z.of_nat (length image)) (dfu_boot device)).
  - exists 1. vm_compute. by left.
Defined.

Lemma dfu_upload_roundtrip_witness :
  exists img, rooted [GetTimeout 4; Download 0 image] img /\
    forall blocks, Z.of_nat (length img) <= Z.of_nat blocks * 1024 <= 67107840 ->
    upload_all blocks committed = img /\
    tud_dfu_upload_cb (Z.of_nat blocks) CFG_TUD_DFU_XFER_BUFSIZE committed = [].
Proof.
  apply (dfu_upload_roundtrip device [GetTimeout 4; Download 0 image] downloaded committed).
  - apply callbacks_ok.
  - apply downloaded_run.
  - apply committed_step.
  - apply committed_event.
  - done.
Defined.

(** ** A commit that failed and boots all the same

    [tud_dfu_manifest_cb] says that a failed commit "leaves the vector unwritten (or
    detectably wrong)".  The boot code looks at the first two vectors only, so a flash
    that loses a bit in the other 24 bytes of the vector word gives a manifest answered
    ERR_VERIFY and, after the next reset, an application that is started. *)
Module Weak.
#[local] Instance weak : FlashHal := {|
  hw := Z -> Z;
  cell h a := u8 (h a);
  cpu_read h a := u8 (h a);
  flash_size_kb _ := 512;
  hal_flash_unlock h := (true, h);
  hal_flash_lock h := h;
  hal_flash_erase s h :=
    (true, fun a => if inb (IFLASH_BASE_ADDR + s * IFLASH_SECTOR_SIZE) (IFLASH_BASE_ADDR + (s + 1) * IFLASH_SECTOR_SIZE) a then 255 else h a);
  hal_flash_program w bs h :=
    (true, fun a => if (w =? IFLASH_APP_BASE) && (a =? IFLASH_APP_BASE + 8) then 0 else if inb w (w + IFLASH_WORD_SIZE) a then nth (Z.to_nat (a - w)) bs 255 else h a);
  hal_flash_get_error _ := 0;
  dwt_running _ := false;
  dwt_start h := h;
  dwt_cyccnt _ := 0;
  dcache_on _ := false;
  dcache_invalidate _ _ h := h;
|}.

#[local] Instance weak_laws : FlashLaws (H := weak).
Proof.
  split; simpl; try done.
  - intros. apply u8_range.
  - intros s h a Ha. unfold in_sector in Ha. unfold inb. by ifs.
  - intros s h a _ Ha. unfold in_sector in Ha. unfold inb. by ifs.
  - intros w bs h a Ha. unfold in_word, IFLASH_WORD_SIZE in Ha. unfold inb, IFLASH_WORD_SIZE.
    destruct (Z.eqb_spec w IFLASH_APP_BASE) as [-> |]; [|by ifs]. by ifs.
Qed.

Lemma failed_commit_boots : exists st : dfu (FH := weak),
  dfu_run (FH := weak) [Download 0 image; Manifest] (dfu_boot (FH := weak) (fun _ => 0)) = Some st /\
  last (d_events st) = Some (FinishFlashing DFU_STATUS_ERR_VERIFY) /\ app_valid (FH := weak) (i_hw (d_flash st)) = true.
Proof.
  set (o := dfu_run (FH := weak) [Download 0 image; Manifest] (dfu_boot (FH := weak) (fun _ => 0))).
  assert (R : (st ← o; Some (last (d_events st), app_valid (FH := weak) (i_hw (d_flash st)))) = Some (Some (FinishFlashing DFU_STATUS_ERR_VERIFY), true)) by (vm_compute; reflexivity).
  destruct o as [st|] eqn:E; [|done]. apply (inj Some), pair_equal_spec in R as [R1 R2]. by exists st.
Qed.
End Weak.
