(* ===== verification/Ymodem.v ===== *)
(** * YMODEM-CRC batch sender and receiver ([src/svc/ymodem.c])

    Both state machines over injected callbacks, as in the code: the byte
    transport ([struct ym_io]), the data source and the data sink are functions
    on a world [W] that every call may change.  The theorems hold for every such
    transport; the round trip is about the scripted line of the last section.
    [None] means that a loop without a bound of its own ran out of fuel. *)

From S2P Require Import Prelude.
Local Open Scope Z_scope.

Definition YM_SOH : Z := 1.
Definition YM_STX : Z := 2.
Definition YM_EOT : Z := 4.
Definition YM_ACK : Z := 6.
Definition YM_NAK : Z := 21.
Definition YM_CAN : Z := 24.
Definition YM_CRC_C : Z := 67.
Definition YM_CPMEOF : Z := 26.
Definition YM_BS : Z := 8.
Definition YM_DATA_MAX : nat := 1024.
Definition YM_BLOCK0_LEN : nat := 128.
Definition YM_HDR : nat := 3.
Definition YM_CRC : nat := 2.
Definition YM_HANDSHAKE_TIMEOUT_MS : Z := 3000.
Definition YM_ACK_TIMEOUT_MS : Z := 1000.
Definition YM_EOT_TIMEOUT_MS : Z := 2000.
Definition YM_HANDSHAKE_RETRIES : nat := 40.
Definition YM_BLOCK_RETRIES : nat := 10.
Definition YM_RECV_DISCARD_MAX : nat := 8192.
Definition YM_IO_TIMEOUT : Z := -1.
Definition YM_IO_ABORT : Z := -2.

(** [enum ym_result]. *)
Inductive ym_result : Type :=
  | YM_OK | YM_ERR_CANCEL | YM_ERR_TIMEOUT | YM_ERR_SOURCE | YM_ERR_IO | YM_ERR_SINK | YM_ERR_PROTO.

#[export] Instance ym_result_eq_dec : EqDecision ym_result.
Proof. solve_decision. Defined.

(** ** CRC-16 *)

Definition crc_bit (crc : Z) : Z :=
  if negb (Z.land crc 32768 =? 0) then u16 (Z.lxor (Z.shiftl crc 1) 4129) else u16 (Z.shiftl crc 1).
Definition crc_byte (crc p : Z) : Z := Nat.iter 8 crc_bit (Z.lxor crc (u16 (Z.shiftl p 8))).
Definition ymodem_crc16 (p : list Z) : Z := fold_left crc_byte p 0.

(** ** Block 0 *)

(** [u32_to_dec]: the digits of [v], most significant first. *)
Fixpoint dec_digits (fuel : nat) (v : Z) (acc : list Z) : list Z :=
  match fuel with
  | O => acc
  | S k => if v =? 0 then acc else dec_digits k (v / 10) (48 + v mod 10 :: acc)
  end.
Definition u32_to_dec (v : Z) : list Z := if v =? 0 then [48] else dec_digits 10 v [].

(** The contents of [S_DATA[0..127]]: the name (at most 100 characters), a NUL,
    the decimal size, and zeros. *)
Definition build_block0 (name : option (list Z)) (size : Z) : list Z :=
  let n := match name with Some (c :: n) => c :: n | _ => str "file.bin" end in
  let n := take 100 n in
  let num := take (YM_BLOCK0_LEN - 1 - (length n + 1)) (u32_to_dec size) in
  n ++ [0] ++ num ++ replicate (YM_BLOCK0_LEN - (length n + 1 + length num)) 0.

(** The name field: at most [cap - 1] characters are kept. *)
Fixpoint block0_name (cap : nat) (p : list Z) (name : list Z) : list Z * list Z :=
  match p with
  | [] => (name, [])
  | c :: p' =>
      if c =? 0 then (name, p)
      else block0_name cap p' (if (length name + 1 <? cap)%nat then name ++ [c] else name)
  end.
Fixpoint block0_size (p : list Z) (size : Z) (have : bool) : option (Z * bool) :=
  match p with
  | [] => Some (size, have)
  | c :: p =>
      if (48 <=? c) && (c <=? 57) then
        let d := c - 48 in
        if (4294967295 - d) / 10 <? size then None
        else block0_size p (u32 (size * 10 + d)) true
      else Some (size, have)
  end.

(** [parse_block0]: the name, the size and whether one was declared; [None] is
    the return value -1. *)
Definition parse_block0 (rdata : list Z) (cap : nat) : option (list Z * Z * bool) :=
  let '(name, p) := block0_name cap (take YM_BLOCK0_LEN rdata) [] in
  match p with
  | [] => None
  | _ :: p => '(size, have) ← block0_size p 0 false; Some (name, size, have)
  end.

(** ** The callbacks *)

(** [getc t w]: a byte, [YM_IO_TIMEOUT] or [YM_IO_ABORT]; [put bs w] fails below
    zero; [src_read want w]: the bytes put at [dst], as many as it returns, or
    [None] when it returns a negative number; [sink_begin], [sink_write]: the
    return value. *)
Class YmIo (W : Type) := {
  getc : Z -> W -> Z * W;
  put : list Z -> W -> Z * W;
  src_read : Z -> W -> option (list Z) * W;
  sink_begin : list Z -> Z -> W -> Z * W;
  sink_write : list Z -> W -> Z * W;
}.

(** [struct ym_recv_diag]. *)
Record ym_recv_diag : Type := Diag {
  blocks : Z; bad_crc : Z; bad_seq : Z; short_read : Z; timeouts : Z;
  first_kind : Z; first_seq : Z; first_nseq : Z; first_got : Z; first_want : Z;
  first_crc_want : Z; first_crc_got : Z;
}.
Definition diag_zero : ym_recv_diag := Diag 0 0 0 0 0 (-1) (-1) (-1) 0 0 0 0.

Section ymodem.
Context {W : Type} `{YmIo W}.

Definition cancel_seq : list Z := replicate 5 YM_CAN ++ replicate 8 YM_BS.
Definition send_cancel (w : W) : W := snd (put cancel_seq w).

Definition is_double_can (w : W) : bool * W :=
  let '(b, w) := getc YM_ACK_TIMEOUT_MS w in (b =? YM_CAN, w).

(** ** The sender *)

(** The frame of [S_DATA[0..datalen)]. *)
Definition frame (kind seq : Z) (data : list Z) : list Z :=
  let crc := ymodem_crc16 data in
  [kind; seq; Z.lxor seq 255] ++ data ++ [u8 (Z.shiftr crc 8); Z.land crc 255].

(** The send-and-wait loop of [send_block]; it ends by itself after
    [YM_BLOCK_RETRIES] + 1 rounds. *)
Fixpoint send_block_loop (rounds : nat) (block : list Z) (w : W) : ym_result * W :=
  let '(r, w) := put block w in
  if r <? 0 then (YM_ERR_IO, w)
  else
    let '(b, w) := getc YM_ACK_TIMEOUT_MS w in
    if b =? YM_ACK then (YM_OK, w)
    else if b =? YM_IO_ABORT then (YM_ERR_CANCEL, w)
    else
      let '(can, w) := if b =? YM_CAN then is_double_can w else (false, w) in
      if can then (YM_ERR_CANCEL, w)
      else match rounds with
           | O => (YM_ERR_TIMEOUT, w)
           | S rounds => send_block_loop rounds block w
           end.
Definition send_block (kind seq : Z) (data : list Z) (w : W) : ym_result * W :=
  send_block_loop YM_BLOCK_RETRIES (frame kind seq data) w.

(** [wait_start] and [wait_c]: wait for the receiver's ['C'], [tries] timeouts
    still allowed. *)
Fixpoint wait_c_loop (fuel : nat) (ms : Z) (tries : nat) (w : W) : option (ym_result * W) :=
  match fuel with
  | O => None
  | S k =>
      let '(b, w) := getc ms w in
      if b =? YM_CRC_C then Some (YM_OK, w)
      else if b =? YM_IO_ABORT then Some (YM_ERR_CANCEL, w)
      else
        let '(can, w) := if b =? YM_CAN then is_double_can w else (false, w) in
        if can then Some (YM_ERR_CANCEL, w)
        else if b =? YM_IO_TIMEOUT then
          match tries with
          | O => Some (YM_ERR_TIMEOUT, w)
          | S tries => wait_c_loop k ms tries w
          end
        else wait_c_loop k ms tries w
  end.
Definition wait_start (fuel : nat) (w : W) : option (ym_result * W) :=
  wait_c_loop fuel YM_HANDSHAKE_TIMEOUT_MS YM_HANDSHAKE_RETRIES w.
Definition wait_c (fuel : nat) (w : W) : option (ym_result * W) :=
  wait_c_loop fuel YM_ACK_TIMEOUT_MS YM_BLOCK_RETRIES w.

Fixpoint send_eot_loop (rounds : nat) (w : W) : ym_result * W :=
  let '(r, w) := put [YM_EOT] w in
  if r <? 0 then (YM_ERR_IO, w)
  else
    let '(b, w) := getc YM_EOT_TIMEOUT_MS w in
    if b =? YM_ACK then (YM_OK, w)
    else if b =? YM_IO_ABORT then (YM_ERR_CANCEL, w)
    else
      let '(can, w) := if b =? YM_CAN then is_double_can w else (false, w) in
      if can then (YM_ERR_CANCEL, w)
      else match rounds with
           | O => (YM_ERR_TIMEOUT, w)
           | S rounds => send_eot_loop rounds w
           end.
Definition send_eot (w : W) : ym_result * W := send_eot_loop YM_BLOCK_RETRIES w.

(** [while (filled < want)]: the bytes read into [S_DATA], or a read fault; a
    round reads at least a byte.  [None]: the source wrote past [want]. *)
Fixpoint fill_loop (fuel : nat) (want : Z) (filled : list Z) (w : W)
    : option (option (list Z) * W) :=
  if want <=? Z.of_nat (length filled) then Some (Some filled, w)
  else match fuel with
  | O => None
  | S k =>
      let ask := want - Z.of_nat (length filled) in
      let '(bs, w) := src_read ask w in
      match bs with
      | None => Some (None, w)
      | Some [] => Some (Some filled, w)
      | Some bs => if ask <? Z.of_nat (length bs) then None else fill_loop k want (filled ++ bs) w
      end
  end.

(** [S_DATA[filled..datalen)] padded with CPMEOF. *)
Definition pad_block (data : list Z) : list Z :=
  let datalen := if (length data <=? YM_BLOCK0_LEN)%nat then YM_BLOCK0_LEN else YM_DATA_MAX in
  data ++ replicate (datalen - length data) YM_CPMEOF.

(** [while (remaining > 0)]: a round sends at least a byte. *)
Fixpoint send_data (fuel : nat) (seq remaining : Z) (w : W) : option (ym_result * W) :=
  if remaining <=? 0 then Some (YM_OK, w)
  else match fuel with
  | O => None
  | S k =>
      let want := if remaining <? 1024 then remaining else 1024 in
      '(data, w) ← fill_loop YM_DATA_MAX want [] w;
      match data with
      | None => Some (YM_ERR_SOURCE, w)
      | Some [] => Some (YM_OK, w)
      | Some data =>
          let padded := pad_block data in
          let kind := if (length padded =? YM_BLOCK0_LEN)%nat then YM_SOH else YM_STX in
          let '(rc, w) := send_block kind seq padded w in
          if negb (bool_decide (rc = YM_OK)) then Some (rc, w)
          else if Z.of_nat (length data) <? want then Some (YM_OK, w)
          else send_data k (u8 (seq + 1)) (remaining -% Z.of_nat (length data)) w
      end
  end.

(** [if (rc != YM_OK) return rc;] *)
Definition ok_then (r : ym_result * W) (f : W -> option (ym_result * W)) : option (ym_result * W) :=
  let '(rc, w) := r in if bool_decide (rc = YM_OK) then f w else Some (rc, w).

Definition ym_run (fuel : nat) (name : option (list Z)) (size : Z) (w : W) : option (ym_result * W) :=
  r ← wait_start fuel w; ok_then r (fun w =>
  ok_then (send_block YM_SOH 0 (build_block0 name size) w) (fun w =>
  r ← wait_c fuel w; ok_then r (fun w =>
  r ← send_data (Z.to_nat size) 1 size w; ok_then r (fun w =>
  ok_then (send_eot w) (fun w =>
  r ← wait_c fuel w; ok_then r (fun w =>
  Some (send_block YM_SOH 0 (replicate YM_BLOCK0_LEN 0) w))))))).

Definition ymodem_send (fuel : nat) (name : option (list Z)) (size : Z) (w : W) : option (ym_result * W) :=
  '(rc, w) ← ym_run fuel name size w;
  Some (rc, if bool_decide (rc = YM_OK) then w else send_cancel w).

(** ** The receiver *)

(** The world, [s_rdata], [s_diag], and the trace of the sink's calls. *)
Inductive sink_call : Type := Begin (name : list Z) (size : Z) | Write (data : list Z).
Record rst : Type := Rst { r_w : W; r_data : list Z; r_diag : ym_recv_diag; r_sink : list sink_call }.

Definition set_w (w : W) (st : rst) : rst := Rst w (r_data st) (r_diag st) (r_sink st).
Definition set_diag (d : ym_recv_diag) (st : rst) : rst := Rst (r_w st) (r_data st) d (r_sink st).
Definition rgetc (ms : Z) (st : rst) : Z * rst := let '(b, w) := getc ms (r_w st) in (b, set_w w st).
Definition put1 (b : Z) (st : rst) : Z * rst := let '(r, w) := put [b] (r_w st) in (r, set_w w st).

(** [diag_first] with the counters of the rejected block. *)
Definition diag_first (kind seq nseq got want crc_want crc_got : Z) (d : ym_recv_diag) : ym_recv_diag :=
  if 0 <=? first_kind d then d
  else Diag (blocks d) (bad_crc d) (bad_seq d) (short_read d) (timeouts d)
         kind seq nseq got want crc_want crc_got.
Definition add_short (d : ym_recv_diag) : ym_recv_diag :=
  Diag (blocks d) (bad_crc d) (bad_seq d) (short_read d +% 1) (timeouts d) (first_kind d) (first_seq d)
    (first_nseq d) (first_got d) (first_want d) (first_crc_want d) (first_crc_got d).
Definition add_bad_seq (d : ym_recv_diag) : ym_recv_diag :=
  Diag (blocks d) (bad_crc d) (bad_seq d +% 1) (short_read d) (timeouts d) (first_kind d) (first_seq d)
    (first_nseq d) (first_got d) (first_want d) (first_crc_want d) (first_crc_got d).
Definition add_bad_crc (d : ym_recv_diag) : ym_recv_diag :=
  Diag (blocks d) (bad_crc d +% 1) (bad_seq d) (short_read d) (timeouts d) (first_kind d) (first_seq d)
    (first_nseq d) (first_got d) (first_want d) (first_crc_want d) (first_crc_got d).
Definition add_block (d : ym_recv_diag) : ym_recv_diag :=
  Diag (blocks d +% 1) (bad_crc d) (bad_seq d) (short_read d) (timeouts d) (first_kind d) (first_seq d)
    (first_nseq d) (first_got d) (first_want d) (first_crc_want d) (first_crc_got d).
Definition add_timeout (d : ym_recv_diag) : ym_recv_diag :=
  Diag (blocks d) (bad_crc d) (bad_seq d) (short_read d) (timeouts d +% 1) (first_kind d) (first_seq d)
    (first_nseq d) (first_got d) (first_want d) (first_crc_want d) (first_crc_got d).

(** [recv_drain]: at most [YM_RECV_DISCARD_MAX] bytes. *)
Fixpoint recv_drain (n : nat) (st : rst) : rst :=
  match n with
  | O => st
  | S n => let '(b, st) := rgetc 0 st in if b <? 0 then st else recv_drain n st
  end.

(** [wait_hdr]'s answers. *)
Inductive hdr : Type := HdrBlock (kind : Z) | HdrEot | HdrTimeout | HdrAbort | HdrCancel.

Fixpoint wait_hdr_loop (n : nat) (ms : Z) (st : rst) : hdr * rst :=
  match n with
  | O => (HdrTimeout, st)
  | S n =>
      let '(b, st) := rgetc ms st in
      if (b =? YM_SOH) || (b =? YM_STX) then (HdrBlock b, st)
      else if b =? YM_EOT then (HdrEot, st)
      else
        let st := if b =? YM_IO_TIMEOUT then set_diag (add_timeout (r_diag st)) st else st in
        if b =? YM_IO_ABORT then (HdrAbort, st)
        else if b =? YM_IO_TIMEOUT then (HdrTimeout, st)
        else
          let '(can, st) :=
            if b =? YM_CAN then let '(can, w) := is_double_can (r_w st) in (can, set_w w st) else (false, st) in
          if can then (HdrCancel, st) else wait_hdr_loop n ms st
  end.
Definition wait_hdr (ms : Z) (st : rst) : hdr * rst := wait_hdr_loop YM_RECV_DISCARD_MAX ms st.

(** [read_body]: 0, -1 and -2. *)
Inductive body : Type := BodyOk (seq : Z) (datalen : nat) | BodyBad | BodyAbort.

Definition reject (d : ym_recv_diag) (st : rst) : body * rst := (BodyBad, set_diag d st).

(** The data bytes: [i] of [n] read so far. *)
Fixpoint read_data (todo : nat) (kind seq nseq : Z) (i n : nat) (st : rst) : option body * rst :=
  match todo with
  | O => (None, st)
  | S todo =>
      let '(b, st) := rgetc YM_ACK_TIMEOUT_MS st in
      if b =? YM_IO_ABORT then (Some BodyAbort, st)
      else if b <? 0 then
        (Some BodyBad, set_diag (diag_first kind seq nseq (Z.of_nat i) (Z.of_nat n) 0 0 (add_short (r_diag st))) st)
      else
        read_data todo kind seq nseq (S i) n (Rst (r_w st) (<[i:=u8 b]> (r_data st)) (r_diag st) (r_sink st))
  end.

(** The two CRC bytes. *)
Fixpoint read_crc (todo : nat) (kind seq nseq : Z) (i n : nat) (crc : Z) (st : rst)
    : (body + Z) * rst :=
  match todo with
  | O => (inr crc, st)
  | S todo =>
      let '(b, st) := rgetc YM_ACK_TIMEOUT_MS st in
      if b =? YM_IO_ABORT then (inl BodyAbort, st)
      else if b <? 0 then
        (inl BodyBad, set_diag (diag_first kind seq nseq (Z.of_nat n + Z.of_nat i) (Z.of_nat n) 0 0
                                  (add_short (r_diag st))) st)
      else read_crc todo kind seq nseq (S i) n (u16 (Z.lor (Z.shiftl crc 8) (u8 b))) st
  end.

Definition read_body (kind : Z) (st : rst) : body * rst :=
  let n := if kind =? YM_STX then YM_DATA_MAX else YM_BLOCK0_LEN in
  let '(b, st) := rgetc YM_ACK_TIMEOUT_MS st in
  if b =? YM_IO_ABORT then (BodyAbort, st)
  else if b <? 0 then
    reject (diag_first kind (-1) (-1) 0 (Z.of_nat n) 0 0 (add_short (r_diag st))) st
  else
    let seq := u8 b in
    let '(nseq, st) := rgetc YM_ACK_TIMEOUT_MS st in
    if nseq =? YM_IO_ABORT then (BodyAbort, st)
    else if nseq <? 0 then
      reject (diag_first kind seq (-1) 0 (Z.of_nat n) 0 0 (add_short (r_diag st))) st
    else if negb (u8 nseq =? Z.lxor seq 255) then
      reject (diag_first kind seq nseq 0 (Z.of_nat n) 0 0 (add_bad_seq (r_diag st))) st
    else
      let '(stop, st) := read_data n kind seq nseq 0 n st in
      match stop with
      | Some r => (r, st)
      | None =>
          let '(crc, st) := read_crc 2 kind seq nseq 0 n 0 st in
          match crc with
          | inl r => (r, st)
          | inr crc =>
              let got := ymodem_crc16 (take n (r_data st)) in
              if negb (got =? crc) then
                reject (diag_first kind seq nseq (Z.of_nat n) (Z.of_nat n) crc got (add_bad_crc (r_diag st))) st
              else (BodyOk seq n, set_diag (add_block (r_diag st)) st)
          end
      end.

(** 1. The handshake: ['C'] until block 0 shows up; [tries] failures allowed. *)
Fixpoint recv_handshake (fuel : nat) (tries : nat) (st : rst) : option (option ym_result * rst) :=
  match fuel with
  | O => None
  | S k =>
      let '(r, st) := put1 YM_CRC_C st in
      if r <? 0 then Some (Some YM_ERR_IO, st)
      else
        let '(h, st) := wait_hdr YM_HANDSHAKE_TIMEOUT_MS st in
        match h with
        | HdrAbort | HdrCancel => Some (Some YM_ERR_CANCEL, st)
        | HdrTimeout =>
            match tries with
            | O => Some (Some YM_ERR_TIMEOUT, st)
            | S tries => recv_handshake k tries st
            end
        | HdrEot => let '(_, st) := put1 YM_ACK st in recv_handshake k tries st
        | HdrBlock kind =>
            let '(rc, st) := read_body kind st in
            match rc with
            | BodyAbort => Some (Some YM_ERR_CANCEL, st)
            | BodyOk seq _ =>
                if seq =? 0 then Some (None, st)
                else
                  let st := recv_drain YM_RECV_DISCARD_MAX st in
                  match tries with
                  | O => Some (Some YM_ERR_TIMEOUT, st)
                  | S tries => recv_handshake k tries st
                  end
            | BodyBad =>
                let st := recv_drain YM_RECV_DISCARD_MAX st in
                match tries with
                | O => Some (Some YM_ERR_TIMEOUT, st)
                | S tries => recv_handshake k tries st
                end
            end
        end
  end.

(** The wait for a header between blocks: a timeout re-prompts, at most
    [YM_BLOCK_RETRIES] times; [inl] is a return. *)
Fixpoint next_hdr (tries : nat) (prompt : Z) (st : rst) : (ym_result + hdr) * rst :=
  let '(h, st) := wait_hdr YM_ACK_TIMEOUT_MS st in
  match h with
  | HdrTimeout =>
      match tries with
      | O => (inl YM_ERR_TIMEOUT, st)
      | S tries =>
          let '(r, st) := put1 prompt st in
          if r <? 0 then (inl YM_ERR_IO, st) else next_hdr tries prompt st
      end
  | _ => (inr h, st)
  end.

(** 2. The data blocks; [None] in the result is "file complete". *)
Fixpoint recv_data (fuel : nat) (have_size : bool) (remaining expect prompt : Z) (st : rst)
    : option (option ym_result * rst) :=
  match fuel with
  | O => None
  | S k =>
      let '(h, st) := next_hdr YM_BLOCK_RETRIES prompt st in
      match h with
      | inl rc => Some (Some rc, st)
      | inr (HdrAbort | HdrCancel | HdrTimeout) => Some (Some YM_ERR_CANCEL, st)
      | inr HdrEot =>
          if have_size && negb (remaining =? 0) then Some (Some YM_ERR_PROTO, st)
          else
            let '(r, st) := put1 YM_ACK st in
            if r <? 0 then Some (Some YM_ERR_IO, st) else Some (None, st)
      | inr (HdrBlock kind) =>
          let '(rc, st) := read_body kind st in
          match rc with
          | BodyAbort => Some (Some YM_ERR_CANCEL, st)
          | BodyBad =>
              let st := recv_drain YM_RECV_DISCARD_MAX st in
              let '(r, st) := put1 YM_NAK st in
              if r <? 0 then Some (Some YM_ERR_IO, st)
              else recv_data k have_size remaining expect YM_NAK st
          | BodyOk seq datalen =>
              if seq =? u8 (expect - 1) then
                let '(r, st) := put1 YM_ACK st in
                if r <? 0 then Some (Some YM_ERR_IO, st)
                else recv_data k have_size remaining expect YM_NAK st
              else if negb (seq =? expect) then Some (Some YM_ERR_PROTO, st)
              else
                let len := Z.of_nat datalen in
                let take_ := if have_size && (remaining <? len) then remaining else len in
                let remaining := if have_size then remaining -% take_ else remaining in
                let '(r, st) :=
                  if 0 <? take_ then
                    let data := take (Z.to_nat take_) (r_data st) in
                    let '(r, w) := sink_write data (r_w st) in
                    (r, Rst w (r_data st) (r_diag st) (r_sink st ++ [Write data]))
                  else (0, st) in
                if r <? 0 then Some (Some YM_ERR_SINK, st)
                else
                  let '(r, st) := put1 YM_ACK st in
                  if r <? 0 then Some (Some YM_ERR_IO, st)
                  else recv_data k have_size remaining (u8 (expect + 1)) YM_NAK st
          end
      end
  end.

(** 3. The batch close: the sender's null block 0. *)
Fixpoint recv_close (fuel : nat) (tries : nat) (st : rst) : option (ym_result * rst) :=
  match fuel with
  | O => None
  | S k =>
      let '(h, st) := wait_hdr YM_ACK_TIMEOUT_MS st in
      match h with
      | HdrAbort | HdrCancel => Some (YM_ERR_CANCEL, st)
      | HdrTimeout =>
          match tries with
          | O => Some (YM_ERR_TIMEOUT, st)
          | S tries =>
              let '(r, st) := put1 YM_CRC_C st in
              if r <? 0 then Some (YM_ERR_IO, st) else recv_close k tries st
          end
      | HdrEot =>
          let '(r, st) := put1 YM_ACK st in
          if r <? 0 then Some (YM_ERR_IO, st) else recv_close k tries st
      | HdrBlock kind =>
          let '(rc, st) := read_body kind st in
          match rc with
          | BodyAbort => Some (YM_ERR_CANCEL, st)
          | BodyBad =>
              let st := recv_drain YM_RECV_DISCARD_MAX st in
              match tries with
              | O => Some (YM_ERR_TIMEOUT, st)
              | S tries =>
                  let '(r, st) := put1 YM_NAK st in
                  if r <? 0 then Some (YM_ERR_IO, st) else recv_close k tries st
              end
          | BodyOk seq _ =>
              if negb (seq =? 0) || negb (nth 0 (r_data st) 0 =? 0) then Some (YM_ERR_PROTO, st)
              else let '(_, st) := put1 YM_ACK st in Some (YM_OK, st)
          end
      end
  end.

Definition ym_recv_run (fuel : nat) (st : rst) : option (ym_result * rst) :=
  '(stop, st) ← recv_handshake fuel YM_HANDSHAKE_RETRIES st;
  match stop with
  | Some rc => Some (rc, st)
  | None =>
      match parse_block0 (r_data st) YM_BLOCK0_LEN with
      | None => Some (YM_ERR_PROTO, st)
      | Some (name, size, have_size) =>
          match name with
          | [] => let '(_, st) := put1 YM_ACK st in Some (YM_ERR_CANCEL, st)
          | _ =>
              let '(r, w) := sink_begin name size (r_w st) in
              let st := Rst w (r_data st) (r_diag st) (r_sink st ++ [Begin name size]) in
              if r <? 0 then Some (YM_ERR_SINK, st)
              else
                let '(r, st) := put1 YM_ACK st in
                if r <? 0 then Some (YM_ERR_IO, st)
                else
                  let '(r, st) := put1 YM_CRC_C st in
                  if r <? 0 then Some (YM_ERR_IO, st)
                  else
                    '(stop, st) ← recv_data fuel have_size size 1 YM_CRC_C st;
                    match stop with
                    | Some rc => Some (rc, st)
                    | None =>
                        let '(r, st) := put1 YM_CRC_C st in
                        if r <? 0 then Some (YM_ERR_IO, st)
                        else recv_close fuel YM_BLOCK_RETRIES st
                    end
          end
      end
  end.

Definition ymodem_recv (fuel : nat) (w : W) : option (ym_result * rst) :=
  '(rc, st) ← ym_recv_run fuel (Rst w (replicate YM_DATA_MAX 0) diag_zero []);
  Some (rc, if bool_decide (rc = YM_OK) then st else set_w (send_cancel (r_w st)) st).
End ymodem.

(** ** What the receiver hands to its sink *)

(** A sink that keeps a log of its own: the calls it gets, in order, each with
    the answer it gives.  No other callback touches the log. *)
Class SinkLog (W : Type) `{YmIo W} := {
  sink_log : W -> list (sink_call * Z);
  log_getc ms w : sink_log (snd (getc ms w)) = sink_log w;
  log_put bs w : sink_log (snd (put bs w)) = sink_log w;
  log_begin name size w :
    sink_log (snd (sink_begin name size w)) = sink_log w ++ [(Begin name size, fst (sink_begin name size w))];
  log_write data w :
    sink_log (snd (sink_write data w)) = sink_log w ++ [(Write data, fst (sink_write data w))];
}.

(** The answers of a sequence of calls that goes on only while they are
    accepted, and that a refusal ends exactly when [P]. *)
Definition ends_at_refusal (answers : list Z) (P : Prop) : Prop :=
  exists good, Forall (Z.le 0) good /\
    ((answers = good /\ ~ P) \/ exists r, r < 0 /\ answers = good ++ [r] /\ P).

Lemma ends_at_refusal_app good answers P Q : Forall (Z.le 0) good -> (P <-> Q) ->
  ends_at_refusal answers P -> ends_at_refusal (good ++ answers) Q.
Proof.
  intros Hg HPQ (good' & Hg' & Hcase). exists (good ++ good'). split; [by apply Forall_app_2|].
  destruct Hcase as [[-> HP]|(r & Hr & -> & HP)]; [left; tauto|right]. exists r. rewrite app_assoc. tauto.
Qed.

Lemma ends_at_refusal_nil P : ~ P -> ends_at_refusal [] P.
Proof. intros HP. exists []. split; [constructor|by left]. Qed.

Lemma ends_at_refusal_good good P : Forall (Z.le 0) good -> ~ P -> ends_at_refusal good P.
Proof. intros Hg HP. exists good. split; [done|by left]. Qed.

(** The proofs run over a log of any kind: what a call adds
    is [note], and a world without a log has none to add. *)
Section contract.
Context {W : Type} `{YmIo W} {A : Type} (slog : W -> list A) (note : sink_call -> Z -> list A).
Hypothesis slog_getc : forall ms w, slog (snd (getc ms w)) = slog w.
Hypothesis slog_put : forall bs w, slog (snd (put bs w)) = slog w.
Hypothesis slog_begin : forall name size w,
  slog (snd (sink_begin name size w)) = slog w ++ note (Begin name size) (fst (sink_begin name size w)).
Hypothesis slog_write : forall data w,
  slog (snd (sink_write data w)) = slog w ++ note (Write data) (fst (sink_write data w)).
Implicit Types (st : rst (W := W)) (w : W).

(** What [st] has recorded of the sink's calls, by the model and by the sink. *)
Definition sink_rec st : list sink_call * list A := (r_sink st, slog (r_w st)).

(** The notes of a list of writes and their answers. *)
Definition write_notes (ws : list (list Z * Z)) : list A := concat (map (fun x => note (Write x.1) x.2) ws).

(** [st'] adds the writes [ws] to the records of [st]. *)
Definition adds_writes (ws : list (list Z * Z)) st st' : Prop :=
  r_sink st' = r_sink st ++ map Write ws.*1 /\ slog (r_w st') = slog (r_w st) ++ write_notes ws.

(** No sink call, and [s_rdata] keeps its size. *)
Definition quiet st st' : Prop := sink_rec st' = sink_rec st /\ length (r_data st') = length (r_data st).

Lemma quiet_refl st : quiet st st.
Proof. done. Qed.
Lemma quiet_trans st1 st2 st3 : quiet st1 st2 -> quiet st2 st3 -> quiet st1 st3.
Proof. intros [H1 H2] [H3 H4]. split; congruence. Qed.

Lemma quiet_set_w w st : slog w = slog (r_w st) -> quiet st (set_w w st).
Proof. intros E. split; [|done]. unfold sink_rec. cbn [set_w r_sink r_w]. by rewrite E. Qed.

Lemma rgetc_quiet ms st b st' : rgetc ms st = (b, st') -> quiet st st'.
Proof.
  unfold rgetc. pose proof (slog_getc ms (r_w st)) as E. destruct (getc ms (r_w st)). intros [= <- <-].
  by apply quiet_set_w.
Qed.

Lemma put1_quiet b st r st' : put1 b st = (r, st') -> quiet st st'.
Proof.
  unfold put1. pose proof (slog_put [b] (r_w st)) as E. destruct (put [b] (r_w st)). intros [= <- <-].
  by apply quiet_set_w.
Qed.

Lemma is_double_can_quiet st can w : is_double_can (r_w st) = (can, w) -> quiet st (set_w w st).
Proof.
  unfold is_double_can. pose proof (slog_getc YM_ACK_TIMEOUT_MS (r_w st)) as E.
  destruct (getc YM_ACK_TIMEOUT_MS (r_w st)). intros [= <- <-]. by apply quiet_set_w.
Qed.

Lemma adds_none st st' : sink_rec st' = sink_rec st -> adds_writes [] st st'.
Proof. intros [= H1 H2]. split; simpl; by rewrite app_nil_r. Qed.

Lemma adds_app ws1 ws2 st1 st2 st3 :
  adds_writes ws1 st1 st2 -> adds_writes ws2 st2 st3 -> adds_writes (ws1 ++ ws2) st1 st3.
Proof.
  intros [H1 H2] [H3 H4]. split.
  - by rewrite H3, H1, fmap_app, map_app, app_assoc.
  - rewrite H4, H2, <-app_assoc. f_equal. unfold write_notes. by rewrite map_app, concat_app.
Qed.

Lemma adds_quiet_l ws st1 st2 st3 : quiet st1 st2 -> adds_writes ws st2 st3 -> adds_writes ws st1 st3.
Proof. intros [Hq _] Ha. exact (adds_app [] ws _ _ _ (adds_none _ _ Hq) Ha). Qed.

Lemma adds_quiet_r ws st1 st2 st3 : adds_writes ws st1 st2 -> quiet st2 st3 -> adds_writes ws st1 st3.
Proof. intros Ha [Hq _]. rewrite <-(app_nil_r ws). exact (adds_app ws [] _ _ _ Ha (adds_none _ _ Hq)). Qed.

Lemma recv_drain_quiet n : forall st, quiet st (recv_drain n st).
Proof.
  induction n as [|n IH]; intros st; simpl; [done|].
  destruct (rgetc 0 st) as [b st1] eqn:E. apply rgetc_quiet in E. case_if; [done|].
  eapply quiet_trans; [exact E|apply IH].
Qed.

Lemma wait_hdr_loop_quiet n : forall ms st h st', wait_hdr_loop n ms st = (h, st') -> quiet st st'.
Proof.
  induction n as [|n IH]; intros ms st h st' Hw; simpl in Hw; [by simplify_eq|].
  destruct (rgetc ms st) as [b st1] eqn:E. apply rgetc_quiet in E.
  case_if_in Hw; [by simplify_eq|]. case_if_in Hw; [by simplify_eq|].
  set (st2 := if b =? YM_IO_TIMEOUT then set_diag (add_timeout (r_diag st1)) st1 else st1) in *.
  assert (E2 : quiet st st2) by (unfold st2; by case_if). clearbody st2.
  case_if_in Hw; [by simplify_eq|]. case_if_in Hw; [by simplify_eq|].
  destruct (b =? YM_CAN).
  - destruct (is_double_can (r_w st2)) as [can w] eqn:Ec. apply is_double_can_quiet in Ec.
    pose proof (quiet_trans _ _ _ E2 Ec). destruct can; [by simplify_eq|].
    apply IH in Hw. by eapply quiet_trans.
  - apply IH in Hw. by eapply quiet_trans.
Qed.

Lemma wait_hdr_quiet ms st h st' : wait_hdr ms st = (h, st') -> quiet st st'.
Proof. apply wait_hdr_loop_quiet. Qed.

Lemma read_data_quiet todo : forall kind seq nseq i n st r st',
  read_data todo kind seq nseq i n st = (r, st') -> quiet st st'.
Proof.
  induction todo as [|todo IH]; intros kind seq nseq i n st r st' Hr; simpl in Hr; [by simplify_eq|].
  destruct (rgetc YM_ACK_TIMEOUT_MS st) as [b st1] eqn:E. apply rgetc_quiet in E.
  case_if_in Hr; [by simplify_eq|]. case_if_in Hr; [by simplify_eq|].
  apply IH in Hr. eapply quiet_trans; [exact E|]. eapply quiet_trans; [|exact Hr].
  split; [done|]. simpl. by rewrite length_insert.
Qed.

Lemma read_crc_quiet todo : forall kind seq nseq i n crc st r st',
  read_crc todo kind seq nseq i n crc st = (r, st') -> quiet st st'.
Proof.
  induction todo as [|todo IH]; intros kind seq nseq i n crc st r st' Hr; cbn [read_crc] in Hr; [by simplify_eq|].
  destruct (rgetc YM_ACK_TIMEOUT_MS st) as [b st1] eqn:E. apply rgetc_quiet in E.
  case_if_in Hr; [by simplify_eq|]. case_if_in Hr; [by simplify_eq|].
  apply IH in Hr. by eapply quiet_trans.
Qed.

Lemma read_body_quiet kind st rc st' : read_body kind st = (rc, st') -> quiet st st'.
Proof.
  unfold read_body, reject. destruct (rgetc YM_ACK_TIMEOUT_MS st) as [b st1] eqn:E1. apply rgetc_quiet in E1.
  destruct (b =? YM_IO_ABORT); [by intros; simplify_eq|]. destruct (b <? 0); [by intros; simplify_eq|].
  destruct (rgetc YM_ACK_TIMEOUT_MS st1) as [b2 st2] eqn:E2. apply rgetc_quiet in E2.
  pose proof (quiet_trans _ _ _ E1 E2) as E12.
  destruct (b2 =? YM_IO_ABORT); [by intros; simplify_eq|]. destruct (b2 <? 0); [by intros; simplify_eq|].
  destruct (negb _); [by intros; simplify_eq|].
  destruct (read_data _ _ _ _ _ _ st2) as [stop st3] eqn:E3. apply read_data_quiet in E3.
  pose proof (quiet_trans _ _ _ E12 E3) as E13. destruct stop; [by intros; simplify_eq|].
  destruct (read_crc _ _ _ _ _ _ _ st3) as [crc st4] eqn:E4. apply read_crc_quiet in E4.
  pose proof (quiet_trans _ _ _ E13 E4) as E14. destruct crc as [r|crc]; [by intros; simplify_eq|].
  destruct (negb (_ =? crc)); by intros; simplify_eq.
Qed.

Lemma read_data_stop todo : forall kind seq nseq i n st r st',
  read_data todo kind seq nseq i n st = (Some r, st') -> r = BodyBad \/ r = BodyAbort.
Proof.
  induction todo as [|todo IH]; intros kind seq nseq i n st r st' Hr; simpl in Hr; [done|].
  destruct (rgetc YM_ACK_TIMEOUT_MS st) as [b st1]. case_if_in Hr; [simplify_eq; by right|].
  case_if_in Hr; [simplify_eq; by left|]. by eapply IH.
Qed.

Lemma read_crc_stop todo : forall kind seq nseq i n crc st r st',
  read_crc todo kind seq nseq i n crc st = (inl r, st') -> r = BodyBad \/ r = BodyAbort.
Proof.
  induction todo as [|todo IH]; intros kind seq nseq i n crc st r st' Hr; cbn [read_crc] in Hr; [done|].
  destruct (rgetc YM_ACK_TIMEOUT_MS st) as [b st1]. case_if_in Hr; [simplify_eq; by right|].
  case_if_in Hr; [simplify_eq; by left|]. by eapply IH.
Qed.

(** [BodyOk] reports one of the two block lengths. *)
Lemma read_body_len kind st seq n st' : read_body kind st = (BodyOk seq n, st') ->
  n = YM_DATA_MAX \/ n = YM_BLOCK0_LEN.
Proof.
  unfold read_body, reject. destruct (rgetc YM_ACK_TIMEOUT_MS st) as [b st1].
  destruct (b =? YM_IO_ABORT); [done|]. destruct (b <? 0); [done|].
  destruct (rgetc YM_ACK_TIMEOUT_MS st1) as [b2 st2].
  destruct (b2 =? YM_IO_ABORT); [done|]. destruct (b2 <? 0); [done|]. destruct (negb _); [done|].
  destruct (read_data _ _ _ _ _ _ st2) as [stop st3] eqn:E3. destruct stop as [r|].
  { apply read_data_stop in E3 as [-> | ->]; done. }
  destruct (read_crc _ _ _ _ _ _ _ st3) as [crc st4] eqn:E4. destruct crc as [r|crc].
  { apply read_crc_stop in E4 as [-> | ->]; done. }
  destruct (negb (_ =? crc)); [done|]. intros [= _ <- _]. destruct (kind =? YM_STX); auto.
Qed.

Lemma next_hdr_quiet tries : forall prompt st h st', next_hdr tries prompt st = (h, st') -> quiet st st'.
Proof.
  induction tries as [|tries IH]; intros prompt st h st' Hn; cbn [next_hdr] in Hn;
    destruct (wait_hdr YM_ACK_TIMEOUT_MS st) as [h1 st1] eqn:E; apply wait_hdr_quiet in E;
    destruct h1; try by simplify_eq.
  destruct (put1 prompt st1) as [r st2] eqn:E2. apply put1_quiet in E2.
  pose proof (quiet_trans _ _ _ E E2) as E12. case_if_in Hn; [by simplify_eq|].
  apply IH in Hn. by eapply quiet_trans.
Qed.

Lemma next_hdr_rc tries : forall prompt st rc st', next_hdr tries prompt st = (inl rc, st') ->
  rc = YM_ERR_TIMEOUT \/ rc = YM_ERR_IO.
Proof.
  induction tries as [|tries IH]; intros prompt st rc st' Hn; cbn [next_hdr] in Hn;
    destruct (wait_hdr YM_ACK_TIMEOUT_MS st) as [h1 st1]; destruct h1; simplify_eq; auto.
  destruct (put1 prompt st1) as [r st2]. case_if_in Hn; simplify_eq; eauto.
Qed.

Lemma recv_handshake_quiet fuel : forall tries st r st',
  recv_handshake fuel tries st = Some (r, st') -> quiet st st'.
Proof.
  induction fuel as [|k IH]; intros tries st r st' Hr; [done|]. cbn [recv_handshake] in Hr.
  destruct (put1 YM_CRC_C st) as [p st1] eqn:E1. apply put1_quiet in E1.
  case_if_in Hr; [by simplify_eq|].
  destruct (wait_hdr YM_HANDSHAKE_TIMEOUT_MS st1) as [h st2] eqn:E2. apply wait_hdr_quiet in E2.
  pose proof (quiet_trans _ _ _ E1 E2) as E12.
  destruct h as [kind| | | |]; try by simplify_eq.
  - destruct (read_body kind st2) as [rc st3] eqn:E3. apply read_body_quiet in E3.
    pose proof (quiet_trans _ _ _ E12 E3) as E13.
    assert (Hd : quiet st (recv_drain YM_RECV_DISCARD_MAX st3)).
    { eapply quiet_trans; [exact E13|apply recv_drain_quiet]. }
    destruct rc as [seq n| |]; [case_if_in Hr; [by simplify_eq|]| |by simplify_eq];
      (destruct tries; [by simplify_eq|]; apply IH in Hr; by eapply quiet_trans).
  - destruct (put1 YM_ACK st2) as [p' st3] eqn:E3. apply put1_quiet in E3. apply IH in Hr.
    eapply quiet_trans; [exact E12|]. by eapply quiet_trans.
  - destruct tries; [by simplify_eq|]. apply IH in Hr. by eapply quiet_trans.
Qed.

Lemma recv_close_quiet fuel : forall tries st r st',
  recv_close fuel tries st = Some (r, st') -> quiet st st'.
Proof.
  induction fuel as [|k IH]; intros tries st r st' Hr; [done|]. cbn [recv_close] in Hr.
  destruct (wait_hdr YM_ACK_TIMEOUT_MS st) as [h st2] eqn:E2. apply wait_hdr_quiet in E2.
  destruct h as [kind| | | |]; try by simplify_eq.
  - destruct (read_body kind st2) as [rc st3] eqn:E3. apply read_body_quiet in E3.
    pose proof (quiet_trans _ _ _ E2 E3) as E13.
    destruct rc as [seq n| |]; [case_if_in Hr; [by simplify_eq|]| |by simplify_eq].
    + destruct (put1 YM_ACK st3) as [p' st4] eqn:E4. apply put1_quiet in E4. simplify_eq. by eapply quiet_trans.
    + assert (Hd : quiet st (recv_drain YM_RECV_DISCARD_MAX st3)).
      { eapply quiet_trans; [exact E13|apply recv_drain_quiet]. }
      destruct tries; [by simplify_eq|].
      destruct (put1 YM_NAK _) as [p' st4] eqn:E4. apply put1_quiet in E4.
      pose proof (quiet_trans _ _ _ Hd E4). case_if_in Hr; [by simplify_eq|]. apply IH in Hr. by eapply quiet_trans.
  - destruct (put1 YM_ACK st2) as [p' st3] eqn:E3. apply put1_quiet in E3.
    pose proof (quiet_trans _ _ _ E2 E3). case_if_in Hr; [by simplify_eq|]. apply IH in Hr. by eapply quiet_trans.
  - destruct tries; [by simplify_eq|].
    destruct (put1 YM_CRC_C st2) as [p' st3] eqn:E3. apply put1_quiet in E3.
    pose proof (quiet_trans _ _ _ E2 E3). case_if_in Hr; [by simplify_eq|]. apply IH in Hr. by eapply quiet_trans.
Qed.

Lemma recv_close_rc fuel : forall tries st rc st',
  recv_close fuel tries st = Some (rc, st') -> rc <> YM_ERR_SINK.
Proof.
  induction fuel as [|k IH]; intros tries st rc st' Hr; [done|]. cbn [recv_close] in Hr.
  destruct (wait_hdr YM_ACK_TIMEOUT_MS st) as [h st2].
  destruct h as [kind| | | |]; try by simplify_eq.
  - destruct (read_body kind st2) as [b st3]. destruct b as [seq n| |]; [case_if_in Hr| |]; try by simplify_eq.
    + destruct (put1 YM_ACK st3) as [p' st4]. by simplify_eq.
    + destruct tries; [by simplify_eq|]. destruct (put1 YM_NAK _) as [p' st4]. case_if_in Hr; [by simplify_eq|by eapply IH].
  - destruct (put1 YM_ACK st2) as [p' st3]. case_if_in Hr; [by simplify_eq|by eapply IH].
  - destruct tries; [by simplify_eq|]. destruct (put1 YM_CRC_C st2) as [p' st3]. case_if_in Hr; [by simplify_eq|by eapply IH].
Qed.

Lemma recv_handshake_rc fuel : forall tries st rc st',
  recv_handshake fuel tries st = Some (Some rc, st') -> rc <> YM_OK /\ rc <> YM_ERR_SINK.
Proof.
  induction fuel as [|k IH]; intros tries st rc st' Hr; [done|]. cbn [recv_handshake] in Hr.
  destruct (put1 YM_CRC_C st) as [p st1]. case_if_in Hr; [by simplify_eq|].
  destruct (wait_hdr YM_HANDSHAKE_TIMEOUT_MS st1) as [h st2].
  destruct h as [kind| | | |]; try by simplify_eq.
  - destruct (read_body kind st2) as [b st3].
    destruct b as [seq n| |]; [case_if_in Hr; [by simplify_eq|]| |by simplify_eq];
      (destruct tries; [by simplify_eq|by eapply IH]).
  - destruct (put1 YM_ACK st2) as [p' st3]. by eapply IH.
  - destruct tries; [by simplify_eq|by eapply IH].
Qed.

Lemma block0_size_range p : forall size have size' have', 0 <= size < 4294967296 ->
  block0_size p size have = Some (size', have') -> 0 <= size' < 4294967296.
Proof.
  induction p as [|c p IH]; intros size have size' have' Hs Hp; simpl in Hp; [by simplify_eq|].
  case_if_in Hp; [|by simplify_eq]. case_if_in Hp; [done|]. eapply IH; [|exact Hp]. apply u32_range.
Qed.

Lemma parse_block0_range d cap name size have :
  parse_block0 d cap = Some (name, size, have) -> 0 <= size < 4294967296.
Proof.
  unfold parse_block0. destruct (block0_name cap (take YM_BLOCK0_LEN d) []) as [nm [|c p]]; [done|].
  destruct (block0_size p 0 false) as [[s h]|] eqn:E; simpl; [|done]. intros [= <- <- <-].
  eapply block0_size_range; [|exact E]. lia.
Qed.

(** The bytes of a list of writes. *)
Definition written (ws : list (list Z)) : Z := Z.of_nat (length (concat ws)).

Lemma written_cons d ws : written (d :: ws) = Z.of_nat (length d) + written ws.
Proof. unfold written. simpl. rewrite length_app. lia. Qed.

(** One delivered block. *)
Lemma deliver st n (have_size : bool) remaining :
  length (r_data st) = YM_DATA_MAX -> n = YM_DATA_MAX \/ n = YM_BLOCK0_LEN ->
  0 <= remaining < 4294967296 ->
  let len := Z.of_nat n in
  let take_ := if have_size && (remaining <? len) then remaining else len in
  0 <= take_ <= 1024 /\ (have_size = true -> take_ <= remaining /\ remaining -% take_ = remaining - take_) /\
  Z.of_nat (length (take (Z.to_nat take_) (r_data st))) = take_.
Proof.
  intros Hl Hn Hr len take_. unfold YM_DATA_MAX, YM_BLOCK0_LEN in *.
  assert (Ht : 0 <= take_ <= 1024 /\ (have_size = true -> take_ <= remaining)).
  { unfold take_, len. destruct have_size; simpl; [|split; [lia|done]].
    destruct (Z.ltb_spec remaining (Z.of_nat n)); lia. }
  clearbody take_. split; [lia|]. split.
  - intros Hh. split; [by apply Ht|]. destruct Ht as [? Ht]. specialize (Ht Hh).
    apply u32_small. unfold is_u32. lia.
  - rewrite length_take, Hl. lia.
Qed.

(** The data phase that ends with [stop] adds the writes [ws]. *)
Definition data_phase (have_size : bool) (remaining : Z) (stop : option ym_result) ws st st' : Prop :=
  adds_writes ws st st' /\ Forall (fun d => d <> []) ws.*1 /\ length (r_data st') = YM_DATA_MAX /\
  stop <> Some YM_OK /\ ends_at_refusal ws.*2 (stop = Some YM_ERR_SINK) /\
  (have_size = true -> written ws.*1 <= remaining /\ (stop = None -> written ws.*1 = remaining)).

Lemma data_phase_none have_size remaining stop st st' : length (r_data st) = YM_DATA_MAX -> 0 <= remaining ->
  quiet st st' -> stop <> Some YM_OK -> stop <> Some YM_ERR_SINK ->
  (stop = None -> have_size = true -> remaining = 0) -> data_phase have_size remaining stop [] st st'.
Proof.
  intros Hl Hr [Hq1 Hq2] Hok Hsink Hnone. unfold data_phase. split; [by apply adds_none|]. simpl.
  split; [constructor|]. split; [congruence|]. split; [done|]. split; [by apply ends_at_refusal_nil|].
  unfold written. simpl. intros Hh. split; [lia|]. intros Hs. symmetry. by apply Hnone.
Qed.

Lemma data_phase_quiet have_size remaining stop ws st st1 st' : quiet st st1 ->
  data_phase have_size remaining stop ws st1 st' -> data_phase have_size remaining stop ws st st'.
Proof. intros Hq (Ha & Hrest). split; [by eapply adds_quiet_l|done]. Qed.

Lemma written_app ws ws' : written (ws ++ ws') = written ws + written ws'.
Proof. unfold written. rewrite concat_app, length_app. lia. Qed.

(** One accepted delivery [ds] in front of the rest. *)
Lemma data_phase_app have_size remaining remaining' stop ds ws st st1 st' :
  adds_writes ds st st1 -> Forall (fun d => d <> []) ds.*1 -> Forall (Z.le 0) ds.*2 ->
  (have_size = true -> remaining' = remaining - written ds.*1) ->
  data_phase have_size remaining' stop ws st1 st' -> data_phase have_size remaining stop (ds ++ ws) st st'.
Proof.
  intros Ha Hne Hok Hrem (Ha' & Hne' & Hl & Hs & Href & Hw). unfold data_phase. rewrite !fmap_app, written_app.
  split; [by eapply adds_app|]. split; [by apply Forall_app_2|]. split; [done|]. split; [done|].
  split; [by eapply ends_at_refusal_app|]. intros Hh. specialize (Hw Hh). rewrite (Hrem Hh) in Hw.
  split; [lia|]. intros Hn. destruct Hw as [_ Hw]. rewrite Hw by done. lia.
Qed.

(** The delivery of one block: the write, if there is anything to write. *)
Lemma deliver_call st take_ : 0 <= take_ ->
  Z.of_nat (length (take (Z.to_nat take_) (r_data st))) = take_ ->
  exists r st1 ds, (if 0 <? take_ then
      let data := take (Z.to_nat take_) (r_data st) in
      let '(r, w) := sink_write data (r_w st) in
      (r, Rst w (r_data st) (r_diag st) (r_sink st ++ [Write data]))
    else (0, st)) = (r, st1) /\ r_data st1 = r_data st /\ adds_writes ds st st1 /\
    written ds.*1 = take_ /\ Forall (fun d => d <> []) ds.*1 /\
    (0 <= r -> Forall (Z.le 0) ds.*2) /\ (r < 0 -> ds.*2 = [r]).
Proof.
  intros Ht Hlen. destruct (Z.ltb_spec 0 take_) as [Hpos|Hz].
  - cbv zeta. set (data := take (Z.to_nat take_) (r_data st)) in *.
    pose proof (slog_write data (r_w st)) as Hlog. destruct (sink_write data (r_w st)) as [r w] eqn:Ew.
    exists r. eexists. exists [(data, r)]. split; [done|]. split; [done|]. split.
    { split; [done|]. unfold write_notes. simpl. rewrite app_nil_r. exact Hlog. }
    simpl. rewrite written_cons, Hlen. unfold written. simpl. split; [lia|].
    split; [|split; [by repeat constructor|done]]. constructor; [|constructor]. intros E. rewrite E in Hlen. simpl in Hlen. lia.
  - exists 0, st, []. split; [done|]. split; [done|]. split; [by apply adds_none|]. unfold written. simpl.
    split; [lia|]. split; [constructor|]. split; [constructor|lia].
Qed.

(** A delivery after which the phase ends, refused or not. *)
Lemma data_phase_last have_size remaining rc r ds st st1 st' :
  adds_writes ds st st1 -> quiet st1 st' -> length (r_data st1) = YM_DATA_MAX ->
  Forall (fun d => d <> []) ds.*1 -> (0 <= r -> Forall (Z.le 0) ds.*2) -> (r < 0 -> ds.*2 = [r]) ->
  rc <> YM_OK -> (rc = YM_ERR_SINK <-> r < 0) ->
  (have_size = true -> written ds.*1 <= remaining) -> data_phase have_size remaining (Some rc) ds st st'.
Proof.
  intros Ha Hq Hl Hne Hok Hbad Hrc Hsink Hw. unfold data_phase.
  split; [by eapply adds_quiet_r|]. split; [done|]. split; [destruct Hq as [_ ->]; done|].
  split; [congruence|]. split; [|by intros Hh; split; [apply Hw|]].
  destruct (Z.ltb_spec r 0) as [Hr|Hr].
  - exists []. split; [constructor|right]. exists r. rewrite (Hbad Hr). split; [done|]. split; [done|]. f_equal. tauto.
  - apply ends_at_refusal_good; [by apply Hok|]. intros [= E]. apply Hsink in E. lia.
Qed.

(** The data phase: only writes, never past the size that is left, all of it
    when it ends with the end of the file, and none after a refused one. *)
Lemma recv_data_contract fuel : forall have_size remaining expect prompt st stop st',
  length (r_data st) = YM_DATA_MAX -> 0 <= remaining < 4294967296 ->
  recv_data fuel have_size remaining expect prompt st = Some (stop, st') ->
  exists ws, data_phase have_size remaining stop ws st st'.
Proof.
  induction fuel as [|k IH]; intros have_size remaining expect prompt st stop st' Hl Hr Hrun; [done|].
  cbn [recv_data] in Hrun.
  assert (Hend : forall st1 stop1, quiet st st1 -> stop1 <> Some YM_OK -> stop1 <> Some YM_ERR_SINK ->
    (stop1 = None -> have_size = true -> remaining = 0) -> Some (stop1, st1) = Some (stop, st') ->
    exists ws, data_phase have_size remaining stop ws st st').
  { intros st1 stop1 Hq Hne Hns Hnone [= <- <-]. exists []. apply data_phase_none; try done. lia. }
  assert (Hgo : forall st1 e, quiet st st1 ->
    recv_data k have_size remaining e YM_NAK st1 = Some (stop, st') ->
    exists ws, data_phase have_size remaining stop ws st st').
  { intros st1 e Hq Hrec. apply IH in Hrec as [ws Hws]; [|destruct Hq; congruence|done].
    exists ws. by eapply data_phase_quiet. }
  destruct (next_hdr YM_BLOCK_RETRIES prompt st) as [h st1] eqn:E1. apply next_hdr_quiet in E1 as Q1.
  destruct h as [rc|h].
  { apply next_hdr_rc in E1. eapply Hend; [exact Q1| | | |exact Hrun]; [| |done]; intros [= ->]; by destruct E1. }
  destruct h as [kind| | | |]; try (by eapply Hend; [exact Q1| | | |exact Hrun]).
  2:{ case_if_in Hrun; [by eapply Hend; [exact Q1| | | |exact Hrun]|].
      destruct (put1 YM_ACK st1) as [r st2] eqn:E2. apply put1_quiet in E2.
      pose proof (quiet_trans _ _ _ Q1 E2) as Q2.
      case_if_in Hrun; [by eapply Hend; [exact Q2| | | |exact Hrun]|].
      eapply Hend; [exact Q2| | | |exact Hrun]; [done|done|]. intros _ ->. simpl in *. lia. }
  destruct (read_body kind st1) as [rc st2] eqn:E2. apply read_body_quiet in E2 as Q2.
  pose proof (quiet_trans _ _ _ Q1 Q2) as Q12.
  destruct rc as [seq n| |].
  3:{ by eapply Hend; [exact Q12| | | |exact Hrun]. }
  2:{ destruct (put1 YM_NAK (recv_drain YM_RECV_DISCARD_MAX st2)) as [r st3] eqn:E3. apply put1_quiet in E3.
      pose proof (quiet_trans _ _ _ Q12 (quiet_trans _ _ _ (recv_drain_quiet _ st2) E3)) as Q3.
      case_if_in Hrun; [by eapply Hend; [exact Q3| | | |exact Hrun]|by eapply Hgo]. }
  apply read_body_len in E2. destruct (seq =? u8 (expect - 1)).
  { destruct (put1 YM_ACK st2) as [r st3] eqn:E3. apply put1_quiet in E3.
    pose proof (quiet_trans _ _ _ Q12 E3) as Q3.
    case_if_in Hrun; [by eapply Hend; [exact Q3| | | |exact Hrun]|by eapply Hgo]. }
  destruct (negb (seq =? expect)); [by eapply Hend; [exact Q12| | | |exact Hrun]|]. clear Hend Hgo.
  assert (Hl2 : length (r_data st2) = YM_DATA_MAX) by (destruct Q12 as [_ ->]; exact Hl).
  destruct (deliver st2 n have_size remaining Hl2 E2 Hr) as (Ht & Hrem & Hlen). cbv zeta in Hrun.
  set (take_ := if have_size && (remaining <? Z.of_nat n) then remaining else Z.of_nat n) in *. clearbody take_.
  destruct (deliver_call st2 take_ ltac:(lia) Hlen) as (r & st3 & ds & Hw & Hd3 & Hadd & Hlen3 & Hne3 & Hgood & Hbad).
  cbv zeta in Hw. rewrite Hw in Hrun. rewrite <-Hd3 in Hl2.
  assert (Hfits : have_size = true -> written ds.*1 <= remaining) by (intros Hh; rewrite Hlen3; by apply Hrem).
  case_if_in Hrun.
  { injection Hrun as <- <-. exists ds. eapply data_phase_quiet; [exact Q12|].
    eapply (data_phase_last _ _ _ r); try done; split; [intros _; lia|done]. }
  destruct (put1 YM_ACK st3) as [r' st4] eqn:E4. apply put1_quiet in E4.
  case_if_in Hrun.
  { injection Hrun as <- <-. exists ds. eapply data_phase_quiet; [exact Q12|].
    eapply (data_phase_last _ _ _ r); try done; split; [done|lia]. }
  apply IH in Hrun as [ws Hws]; [|destruct E4 as [_ ->]; done|destruct have_size; [destruct (Hrem eq_refl) as [? ->]; lia|done]].
  exists (ds ++ ws). eapply data_phase_quiet; [exact Q12|].
  eapply data_phase_app; [exact Hadd|done|apply Hgood; lia| |eapply data_phase_quiet; [exact E4|exact Hws]].
  intros ->. cbn. rewrite Hlen3. by apply Hrem.
Qed.

(** The whole batch: the calls of the sink and their answers. *)
Lemma recv_log_contract (fuel : nat) w rc st' :
  ymodem_recv fuel w = Some (rc, st') ->
  (r_sink st' = [] /\ slog (r_w st') = slog w /\ rc <> YM_OK /\ rc <> YM_ERR_SINK) \/
  exists name size have_size block0 r0 ws,
    parse_block0 block0 YM_BLOCK0_LEN = Some (name, size, have_size) /\ name <> [] /\
    r_sink st' = Begin name size :: map Write ws.*1 /\
    slog (r_w st') = slog w ++ note (Begin name size) r0 ++ write_notes ws /\
    Forall (fun d => d <> []) ws.*1 /\
    (have_size = true -> written ws.*1 <= size) /\
    (rc = YM_OK -> have_size = true -> written ws.*1 = size) /\
    ends_at_refusal (r0 :: ws.*2) (rc = YM_ERR_SINK).
Proof.
  unfold ymodem_recv. set (st0 := Rst w (replicate YM_DATA_MAX 0) diag_zero []).
  destruct (ym_recv_run fuel st0) as [[rc1 st1]|] eqn:E; [|done]. cbn [mbind option_bind].
  intros Heq. assert (Hrc : rc1 = rc /\ r_sink st1 = r_sink st' /\ slog (r_w st') = slog (r_w st1)).
  { injection Heq as <- <-. case_bool_decide; [done|]. split; [done|]. split; [done|].
    unfold send_cancel. cbn [set_w r_w]. apply slog_put. }
  destruct Hrc as (-> & <- & ->). clear Heq st'. unfold ym_recv_run in E.
  destruct (recv_handshake fuel YM_HANDSHAKE_RETRIES st0) as [[stop st2]|] eqn:E1; [|done].
  cbn [mbind option_bind] in E. destruct (recv_handshake_quiet _ _ _ _ _ E1) as [[= Hs2 Hl2] Hd2].
  cbn [st0 r_sink r_w] in Hs2, Hl2.
  destruct stop as [rc'|].
  { injection E as <- <-. apply recv_handshake_rc in E1. left. by rewrite Hs2, Hl2. }
  destruct (parse_block0 (r_data st2) YM_BLOCK0_LEN) as [[[name size] have]|] eqn:Ep; cycle 1.
  { injection E as <- <-. left. by rewrite Hs2, Hl2. }
  pose proof (parse_block0_range _ _ _ _ _ Ep) as Hsz.
  destruct name as [|c name].
  { destruct (put1 YM_ACK st2) as [r st3] eqn:E2. apply put1_quiet in E2 as [[= Hs3 Hl3] _].
    injection E as <- <-. left. by rewrite Hs3, Hs2, Hl3, Hl2. }
  pose proof (slog_begin (c :: name) size (r_w st2)) as Hlog.
  destruct (sink_begin (c :: name) size (r_w st2)) as [r w2]. cbn [fst snd] in Hlog. right.
  exists (c :: name), size, have, (r_data st2), r.
  set (st3 := Rst w2 (r_data st2) (r_diag st2) (r_sink st2 ++ [Begin (c :: name) size])) in *.
  assert (Hfin : forall ws st4, adds_writes ws st3 st4 ->
    r_sink st4 = Begin (c :: name) size :: map Write ws.*1 /\
    slog (r_w st4) = slog w ++ note (Begin (c :: name) size) r ++ write_notes ws).
  { intros ws st4 [H1 H2]. rewrite H1, H2. cbn [st3 r_sink r_w]. split; [by rewrite Hs2|].
    by rewrite Hlog, Hl2, <-app_assoc. }
  assert (Hend : forall st4 rc4, quiet st3 st4 -> rc4 <> YM_OK -> (rc4 = YM_ERR_SINK <-> r < 0) ->
    Some (rc4, st4) = Some (rc, st1) ->
    exists ws, parse_block0 (r_data st2) YM_BLOCK0_LEN = Some (c :: name, size, have) /\ c :: name <> [] /\
      r_sink st1 = Begin (c :: name) size :: map Write ws.*1 /\
      slog (r_w st1) = slog w ++ note (Begin (c :: name) size) r ++ write_notes ws /\
      Forall (fun d => d <> []) ws.*1 /\ (have = true -> written ws.*1 <= size) /\
      (rc = YM_OK -> have = true -> written ws.*1 = size) /\ ends_at_refusal (r :: ws.*2) (rc = YM_ERR_SINK)).
  { intros st4 rc4 [Hq1 _] Hrc Hsink [= <- <-]. exists []. destruct (Hfin [] st4 (adds_none _ _ Hq1)) as [F1 F2].
    split; [done|]. split; [done|]. split; [done|]. split; [done|]. split; [constructor|].
    unfold written. simpl. split; [lia|]. split; [done|]. destruct (Z.ltb_spec r 0).
    - exists []. split; [constructor|right]. exists r. simpl. tauto.
    - apply ends_at_refusal_good; [by repeat constructor|rewrite Hsink; lia]. }
  case_if_in E; [eapply Hend; [apply quiet_refl| | |exact E]; [done|split; [intros _; lia|done]]|].
  destruct (put1 YM_ACK st3) as [r4 st4] eqn:E4. apply put1_quiet in E4.
  case_if_in E; [eapply Hend; [exact E4| | |exact E]; [done|split; [done|lia]]|].
  destruct (put1 YM_CRC_C st4) as [r5 st5] eqn:E5. apply put1_quiet in E5.
  pose proof (quiet_trans _ _ _ E4 E5) as Q5.
  case_if_in E; [eapply Hend; [exact Q5| | |exact E]; [done|split; [done|lia]]|]. clear Hend.
  destruct (recv_data fuel have size 1 YM_CRC_C st5) as [[stop st6]|] eqn:E6; [|done]. cbn [mbind option_bind] in E.
  apply recv_data_contract in E6 as (ws & Hws); [|destruct Q5 as [_ ->]; simpl; by rewrite Hd2|done].
  destruct Hws as (Hadd & Hne & Hd6 & Hstop & Href & Hw). apply (adds_quiet_l _ _ _ _ Q5) in Hadd.
  exists ws. split; [done|]. split; [done|].
  assert (Hok : forall stop' : Prop, (stop = Some YM_ERR_SINK <-> stop') -> ends_at_refusal (r :: ws.*2) stop').
  { intros P HP. apply (ends_at_refusal_app [r] ws.*2 (stop = Some YM_ERR_SINK)); [repeat constructor; lia|done|done]. }
  destruct stop as [rc6|].
  - injection E as <- <-. destruct (Hfin _ _ Hadd) as [F1 F2]. split; [done|]. split; [done|]. split; [done|].
    split; [by intros Hh; apply Hw|]. split; [congruence|]. apply Hok. split; [by intros [= ->]|by intros ->].
  - destruct (put1 YM_CRC_C st6) as [r7 st7] eqn:E7. apply put1_quiet in E7.
    assert (Hst1 : quiet st7 st1 /\ rc <> YM_ERR_SINK).
    { case_if_in E; [by simplify_eq|]. split; [by eapply recv_close_quiet|by eapply recv_close_rc]. }
    destruct Hst1 as [Hq Hrc]. destruct (Hfin ws st1) as [F1 F2].
    { eapply adds_quiet_r; [exact Hadd|by eapply quiet_trans]. }
    split; [done|]. split; [done|]. split; [done|]. split; [by intros Hh; apply Hw|].
    split; [intros _ Hh; by apply Hw|]. apply Hok. by split.
Qed.
End contract.

(** The receiver's calls, for a sink that keeps no log. *)
Lemma recv_contract {W : Type} `{YmIo W} (fuel : nat) (w : W) rc st' :
  ymodem_recv fuel w = Some (rc, st') ->
  (r_sink st' = [] /\ rc <> YM_OK) \/
  exists name size have_size block0 ws,
    parse_block0 block0 YM_BLOCK0_LEN = Some (name, size, have_size) /\ name <> [] /\
    r_sink st' = Begin name size :: map Write ws /\ Forall (fun d => d <> []) ws /\
    (have_size = true -> written ws <= size) /\
    (rc = YM_OK -> have_size = true -> written ws = size).
Proof.
  intros E. destruct (recv_log_contract (fun _ => [] : list unit) (fun _ _ => [])
    ltac:(done) ltac:(done) ltac:(done) ltac:(done) fuel w rc st' E)
    as [(? & _ & ? & _)|(name & size & h & b & r0 & ws & ? & ? & ? & _ & ? & ? & ? & _)]; [by left|right].
  by exists name, size, h, b, ws.*1.
Qed.

(** C25: the receiver's contract with its sink, on any transport, as the sink
    itself sees it: [sink_log] has the calls it got and the answers it gave.
    [begin] is called at most once, with a non-empty name and the size block 0
    declares, before any [write]; no write is empty, and together they never
    exceed the declared size.  A call the sink refuses, [begin] or a [write], is
    the last one, and the transfer fails with [YM_ERR_SINK]; no other transfer
    does.  [YM_OK] means that every call was accepted and exactly the declared
    number of bytes was delivered -- a sender that stops early is never reported
    as success. *)
Theorem ymodem_recv_contract {W : Type} `{IO : YmIo W} `{SL : !SinkLog W} (fuel : nat) (w : W) rc st' :
  ymodem_recv fuel w = Some (rc, st') -> sink_log w = [] ->
  (sink_log (r_w st') = [] /\ rc <> YM_OK /\ rc <> YM_ERR_SINK) \/
  exists name size have_size block0 r0 ws,
    parse_block0 block0 YM_BLOCK0_LEN = Some (name, size, have_size) /\ name <> [] /\
    sink_log (r_w st') = (Begin name size, r0) :: map (fun x => (Write x.1, x.2)) ws /\
    Forall (fun d => d <> []) ws.*1 /\
    (have_size = true -> written ws.*1 <= size) /\
    (rc = YM_OK -> have_size = true -> written ws.*1 = size) /\
    ends_at_refusal (r0 :: ws.*2) (rc = YM_ERR_SINK).
Proof.
  intros E E0. destruct (recv_log_contract sink_log (fun c r => [(c, r)])
    log_getc log_put log_begin log_write fuel w rc st' E)
    as [(_ & Hlog & Hrc)|(name & size & h & b & r0 & ws & Hp & Hn & _ & Hlog & Hrest)]; rewrite E0 in Hlog;
    [by left|right].
  exists name, size, h, b, r0, ws. split; [done|]. split; [done|]. split; [|done].
  rewrite Hlog. simpl. f_equal. unfold write_notes. clear. induction ws as [|x ws IH]; simpl; by rewrite ?IH.
Qed.


(** ** Termination on a line that falls silent *)

(** The peer can send only so many bytes: every byte read uses some up, and the
    other callbacks give none back.  The source respects its contract. *)
Class FiniteLine (W : Type) `{YmIo W} := {
  left_on_line : W -> nat;
  getc_left ms w : (left_on_line (snd (getc ms w)) <= left_on_line w)%nat;
  getc_range ms w : YM_IO_ABORT <= fst (getc ms w);
  getc_byte ms w : 0 <= fst (getc ms w) -> (left_on_line (snd (getc ms w)) < left_on_line w)%nat;
  put_left bs w : (left_on_line (snd (put bs w)) <= left_on_line w)%nat;
  begin_left name size w : (left_on_line (snd (sink_begin name size w)) <= left_on_line w)%nat;
  write_left data w : (left_on_line (snd (sink_write data w)) <= left_on_line w)%nat;
  read_left want w : (left_on_line (snd (src_read want w)) <= left_on_line w)%nat;
  read_want want w bs w' : src_read want w = (Some bs, w') -> Z.of_nat (length bs) <= Z.max 0 want;
}.

Section termination.
Context {W : Type} `{FiniteLine W}.
Implicit Types (st : rst (W := W)) (w : W).

Definition line_left st : nat := left_on_line (r_w st).

Lemma rgetc_left ms st b st' : rgetc ms st = (b, st') ->
  (line_left st' <= line_left st)%nat /\ (0 <= b -> (line_left st' < line_left st)%nat).
Proof.
  unfold rgetc, line_left. pose proof (getc_left ms (r_w st)). pose proof (getc_byte ms (r_w st)).
  destruct (getc ms (r_w st)) as [b1 w1]. intros [= <- <-]. simpl in *. auto.
Qed.

Lemma put1_left b st r st' : put1 b st = (r, st') -> (line_left st' <= line_left st)%nat.
Proof.
  unfold put1, line_left. pose proof (put_left [b] (r_w st)).
  destruct (put [b] (r_w st)) as [r1 w1]. by intros [= <- <-].
Qed.

Lemma is_double_can_left w c w' : is_double_can w = (c, w') -> (left_on_line w' <= left_on_line w)%nat.
Proof.
  unfold is_double_can. pose proof (getc_left YM_ACK_TIMEOUT_MS w).
  destruct (getc YM_ACK_TIMEOUT_MS w) as [b1 w1]. by intros [= <- <-].
Qed.

Lemma recv_drain_left n : forall st, (line_left (recv_drain n st) <= line_left st)%nat.
Proof.
  induction n as [|n IH]; intros st; simpl; [lia|].
  destruct (rgetc 0 st) as [b st1] eqn:E. apply rgetc_left in E as [E _]. case_if; [done|].
  etrans; [apply IH|done].
Qed.

(** A block or an EOT costs its header byte. *)
Definition hdr_cost (h : hdr) : nat := match h with HdrBlock _ | HdrEot => 1 | _ => 0 end.

Lemma wait_hdr_loop_left n : forall ms st h st', wait_hdr_loop n ms st = (h, st') ->
  (line_left st' + hdr_cost h <= line_left st)%nat.
Proof.
  induction n as [|n IH]; intros ms st h st' Hw; simpl in Hw; [simplify_eq; simpl; lia|].
  destruct (rgetc ms st) as [b st1] eqn:E. apply rgetc_left in E as [E E'].
  destruct ((b =? YM_SOH) || (b =? YM_STX)) eqn:Eb.
  { simplify_eq. simpl. unfold YM_SOH, YM_STX in *. lia. }
  destruct (b =? YM_EOT) eqn:Ee; [simplify_eq; simpl; unfold YM_EOT in *; lia|].
  set (st2 := if b =? YM_IO_TIMEOUT then set_diag (add_timeout (r_diag st1)) st1 else st1) in *.
  assert (E2 : line_left st2 = line_left st1) by (unfold st2; by case_if). clearbody st2.
  destruct (b =? YM_IO_ABORT); [simplify_eq; simpl; lia|].
  destruct (b =? YM_IO_TIMEOUT); [simplify_eq; simpl; lia|].
  destruct (b =? YM_CAN).
  - destruct (is_double_can (r_w st2)) as [can w] eqn:Ed. apply is_double_can_left in Ed.
    destruct can; [simplify_eq; unfold line_left in *; simpl in *; lia|].
    apply IH in Hw. unfold line_left in *. simpl in *. lia.
  - apply IH in Hw. lia.
Qed.

Lemma wait_hdr_left ms st h st' : wait_hdr ms st = (h, st') -> (line_left st' + hdr_cost h <= line_left st)%nat.
Proof. apply wait_hdr_loop_left. Qed.

Lemma read_data_left todo : forall kind seq nseq i n st r st',
  read_data todo kind seq nseq i n st = (r, st') -> (line_left st' <= line_left st)%nat.
Proof.
  induction todo as [|todo IH]; intros kind seq nseq i n st r st' Hr; simpl in Hr; [by simplify_eq|].
  destruct (rgetc YM_ACK_TIMEOUT_MS st) as [b st1] eqn:E. apply rgetc_left in E as [E _].
  case_if_in Hr; [by simplify_eq|]. case_if_in Hr; [by simplify_eq|].
  apply IH in Hr. unfold line_left in *. simpl in *. lia.
Qed.

Lemma read_crc_left todo : forall kind seq nseq i n crc st r st',
  read_crc todo kind seq nseq i n crc st = (r, st') -> (line_left st' <= line_left st)%nat.
Proof.
  induction todo as [|todo IH]; intros kind seq nseq i n crc st r st' Hr; cbn [read_crc] in Hr; [by simplify_eq|].
  destruct (rgetc YM_ACK_TIMEOUT_MS st) as [b st1] eqn:E. apply rgetc_left in E as [E _].
  case_if_in Hr; [by simplify_eq|]. case_if_in Hr; [by simplify_eq|].
  apply IH in Hr. unfold line_left in *. simpl in *. lia.
Qed.

Lemma read_body_left kind st rc st' : read_body kind st = (rc, st') -> (line_left st' <= line_left st)%nat.
Proof.
  unfold read_body, reject. destruct (rgetc YM_ACK_TIMEOUT_MS st) as [b st1] eqn:E1. apply rgetc_left in E1 as [E1 _].
  destruct (b =? YM_IO_ABORT); [by intros; simplify_eq|]. destruct (b <? 0); [by intros; simplify_eq|].
  destruct (rgetc YM_ACK_TIMEOUT_MS st1) as [b2 st2] eqn:E2. apply rgetc_left in E2 as [E2 _].
  pose proof (Nat.le_trans _ _ _ E2 E1) as E12.
  destruct (b2 =? YM_IO_ABORT); [by intros; simplify_eq|]. destruct (b2 <? 0); [by intros; simplify_eq|].
  destruct (negb _); [by intros; simplify_eq|].
  destruct (read_data _ _ _ _ _ _ st2) as [stop st3] eqn:E3. apply read_data_left in E3.
  pose proof (Nat.le_trans _ _ _ E3 E12) as E13. destruct stop; [by intros; simplify_eq|].
  destruct (read_crc _ _ _ _ _ _ _ st3) as [crc st4] eqn:E4. apply read_crc_left in E4.
  pose proof (Nat.le_trans _ _ _ E4 E13) as E14. destruct crc as [r|crc]; [by intros; simplify_eq|].
  destruct (negb (_ =? crc)); by intros; simplify_eq.
Qed.

Lemma next_hdr_left tries : forall prompt st h st', next_hdr tries prompt st = (h, st') ->
  (line_left st' + match h with inr h => hdr_cost h | _ => 0 end <= line_left st)%nat.
Proof.
  induction tries as [|tries IH]; intros prompt st h st' Hn; cbn [next_hdr] in Hn;
    destruct (wait_hdr YM_ACK_TIMEOUT_MS st) as [h1 st1] eqn:E; apply wait_hdr_left in E;
    destruct h1; simplify_eq; simpl in *; try lia.
  destruct (put1 prompt st1) as [r st2] eqn:E2. apply put1_left in E2.
  destruct (r <? 0); [simplify_eq; lia|]. apply IH in Hn. lia.
Qed.

Lemma recv_handshake_total fuel : forall tries st, (tries + line_left st < fuel)%nat ->
  exists r st', recv_handshake fuel tries st = Some (r, st') /\ (line_left st' <= line_left st)%nat.
Proof.
  induction fuel as [|k IH]; intros tries st Hf; [lia|]. cbn [recv_handshake].
  destruct (put1 YM_CRC_C st) as [p st1] eqn:E1. apply put1_left in E1. destruct (p <? 0); [by eauto|].
  destruct (wait_hdr YM_HANDSHAKE_TIMEOUT_MS st1) as [h st2] eqn:E2. apply wait_hdr_left in E2.
  assert (Hgo : forall tries' st3, (line_left st3 <= line_left st2)%nat -> (tries' + line_left st3 < k)%nat ->
    exists r st', recv_handshake k tries' st3 = Some (r, st') /\ (line_left st' <= line_left st)%nat).
  { intros tries' st3 H3 Hk. destruct (IH tries' st3 Hk) as (r & st' & -> & Hle). exists r, st'. split; [done|]. lia. }
  destruct h as [kind| | | |]; simpl in E2; try (eexists _, _; split; [done|lia]).
  - destruct (read_body kind st2) as [rc st3] eqn:E3. apply read_body_left in E3.
    pose proof (recv_drain_left YM_RECV_DISCARD_MAX st3) as Hd.
    destruct rc as [seq n| |]; [destruct (seq =? 0); [eexists _, _; split; [done|lia]|]| |eexists _, _; split; [done|lia]];
      (destruct tries; [eexists _, _; split; [done|lia]|apply Hgo; lia]).
  - destruct (put1 YM_ACK st2) as [p' st3] eqn:E3. apply put1_left in E3. apply Hgo; lia.
  - destruct tries; [eexists _, _; split; [done|lia]|apply Hgo; lia].
Qed.

Lemma recv_data_total fuel : forall have_size remaining expect prompt st, (line_left st < fuel)%nat ->
  exists r st', recv_data fuel have_size remaining expect prompt st = Some (r, st') /\
    (line_left st' <= line_left st)%nat.
Proof.
  induction fuel as [|k IH]; intros have_size remaining expect prompt st Hf; [lia|]. cbn [recv_data].
  destruct (next_hdr YM_BLOCK_RETRIES prompt st) as [h st1] eqn:E1. apply next_hdr_left in E1.
  destruct h as [rc|[kind| | | |]]; simpl in E1; try (eexists _, _; split; [done|lia]).
  2:{ destruct (have_size && _); [eexists _, _; split; [done|lia]|].
      destruct (put1 YM_ACK st1) as [r st2] eqn:E2. apply put1_left in E2.
      destruct (r <? 0); eexists _, _; (split; [done|lia]). }
  destruct (read_body kind st1) as [rc st2] eqn:E2. apply read_body_left in E2.
  assert (Hgo : forall b hs rem e st3, (line_left st3 <= line_left st2)%nat ->
    exists r st', (let '(r, st) := put1 b st3 in
      if r <? 0 then Some (Some YM_ERR_IO, st) else recv_data k hs rem e YM_NAK st) = Some (r, st') /\
      (line_left st' <= line_left st)%nat).
  { intros b hs rem e st3 H3. destruct (put1 b st3) as [r st4] eqn:E4. apply put1_left in E4.
    destruct (r <? 0); [eexists _, _; split; [done|lia]|].
    destruct (IH hs rem e YM_NAK st4) as (r' & st' & -> & Hle); [lia|]. eexists _, _. split; [done|lia]. }
  destruct rc as [seq n| |]; [|apply Hgo; apply recv_drain_left|eexists _, _; split; [done|lia]].
  destruct (seq =? u8 (expect - 1)); [by apply Hgo|].
  destruct (negb (seq =? expect)); [eexists _, _; split; [done|lia]|]. cbv zeta.
  set (take_ := if have_size && (remaining <? Z.of_nat n) then remaining else Z.of_nat n).
  destruct (0 <? take_).
  - pose proof (write_left (take (Z.to_nat take_) (r_data st2)) (r_w st2)).
    destruct (sink_write (take (Z.to_nat take_) (r_data st2)) (r_w st2)) as [r w]. simpl in *.
    destruct (r <? 0); [eexists _, _; split; [done|unfold line_left in *; simpl; lia]|].
    apply Hgo. done.
  - by apply Hgo.
Qed.

Lemma recv_close_total fuel : forall tries st, (tries + line_left st < fuel)%nat ->
  exists r st', recv_close fuel tries st = Some (r, st').
Proof.
  induction fuel as [|k IH]; intros tries st Hf; [lia|]. cbn [recv_close].
  destruct (wait_hdr YM_ACK_TIMEOUT_MS st) as [h st2] eqn:E2. apply wait_hdr_left in E2.
  assert (Hgo : forall b tries' st3, (line_left st3 <= line_left st2)%nat -> (tries' + line_left st3 < k)%nat ->
    exists r st', (let '(r, st) := put1 b st3 in
      if r <? 0 then Some (YM_ERR_IO, st) else recv_close k tries' st) = Some (r, st')).
  { intros b tries' st3 H3 Hk. destruct (put1 b st3) as [r st4] eqn:E4. apply put1_left in E4.
    destruct (r <? 0); [eauto|]. apply IH. lia. }
  destruct h as [kind| | | |]; simpl in E2; try (by eauto).
  - destruct (read_body kind st2) as [rc st3] eqn:E3. apply read_body_left in E3.
    pose proof (recv_drain_left YM_RECV_DISCARD_MAX st3) as Hd.
    destruct rc as [seq n| |]; [| |by eauto].
    + destruct (_ || _); [by eauto|]. destruct (put1 YM_ACK st3); eauto.
    + destruct tries; [by eauto|]. apply Hgo; lia.
  - apply Hgo; lia.
  - destruct tries; [by eauto|]. apply Hgo; lia.
Qed.

Lemma ymodem_recv_total fuel w : (YM_HANDSHAKE_RETRIES + left_on_line w < fuel)%nat ->
  exists rc st', ymodem_recv fuel w = Some (rc, st').
Proof.
  intros Hf. unfold ymodem_recv, ym_recv_run. set (st0 := Rst w (replicate YM_DATA_MAX 0) diag_zero []).
  assert (L0 : line_left st0 = left_on_line w) by done.
  destruct (recv_handshake_total fuel YM_HANDSHAKE_RETRIES st0) as (stop & st1 & -> & L1); [lia|].
  cbn [mbind option_bind]. destruct stop; [by eauto|].
  destruct (parse_block0 (r_data st1) YM_BLOCK0_LEN) as [[[name size] have]|]; [|by eauto].
  destruct name as [|c name]; [destruct (put1 YM_ACK st1); by eauto|].
  pose proof (begin_left (c :: name) size (r_w st1)).
  destruct (sink_begin (c :: name) size (r_w st1)) as [r w2]. simpl in *.
  set (st2 := Rst w2 (r_data st1) (r_diag st1) (r_sink st1 ++ [Begin (c :: name) size])).
  assert (L2 : (line_left st2 <= line_left st1)%nat) by done.
  destruct (r <? 0); [by eauto|].
  destruct (put1 YM_ACK st2) as [r3 st3] eqn:E3. apply put1_left in E3. destruct (r3 <? 0); [by eauto|].
  destruct (put1 YM_CRC_C st3) as [r4 st4] eqn:E4. apply put1_left in E4. destruct (r4 <? 0); [by eauto|].
  destruct (recv_data_total fuel have size 1 YM_CRC_C st4) as (stop & st5 & -> & L5); [lia|].
  cbn [mbind option_bind]. destruct stop; [by eauto|].
  destruct (put1 YM_CRC_C st5) as [r6 st6] eqn:E6. apply put1_left in E6. destruct (r6 <? 0); [by eauto|].
  destruct (recv_close_total fuel YM_BLOCK_RETRIES st6) as (rc & st7 & ->);
    [unfold YM_BLOCK_RETRIES, YM_HANDSHAKE_RETRIES in *; lia|].
  cbn [mbind option_bind]. eauto.
Qed.

(** *** The sender *)

Lemma is_double_can_if (b : Z) w c w' :
  (if b =? YM_CAN then is_double_can w else (false, w)) = (c, w') -> (left_on_line w' <= left_on_line w)%nat.
Proof. case_if; [apply is_double_can_left|]. by intros [= <- <-]. Qed.

Lemma send_block_loop_left rounds : forall block w,
  (left_on_line (snd (send_block_loop rounds block w)) <= left_on_line w)%nat.
Proof.
  induction rounds as [|rounds IH]; intros block w; cbn [send_block_loop];
    pose proof (put_left block w); destruct (put block w) as [r w1]; simpl in *; (case_if; [done|]);
    pose proof (getc_left YM_ACK_TIMEOUT_MS w1); destruct (getc YM_ACK_TIMEOUT_MS w1) as [b w2]; simpl in *;
    (destruct (b =? YM_ACK); [simpl; lia|]); (destruct (b =? YM_IO_ABORT); [simpl; lia|]);
    destruct (if b =? YM_CAN then is_double_can w2 else (false, w2)) as [can w3] eqn:E;
    apply is_double_can_if in E; destruct can; simpl; try lia.
  etrans; [apply IH|]. lia.
Qed.

Lemma send_eot_loop_left rounds : forall w,
  (left_on_line (snd (send_eot_loop rounds w)) <= left_on_line w)%nat.
Proof.
  induction rounds as [|rounds IH]; intros w; cbn [send_eot_loop];
    pose proof (put_left [YM_EOT] w); destruct (put [YM_EOT] w) as [r w1]; simpl in *; (case_if; [done|]);
    pose proof (getc_left YM_EOT_TIMEOUT_MS w1); destruct (getc YM_EOT_TIMEOUT_MS w1) as [b w2]; simpl in *;
    (destruct (b =? YM_ACK); [simpl; lia|]); (destruct (b =? YM_IO_ABORT); [simpl; lia|]);
    destruct (if b =? YM_CAN then is_double_can w2 else (false, w2)) as [can w3] eqn:E;
    apply is_double_can_if in E; destruct can; simpl; try lia.
  etrans; [apply IH|]. lia.
Qed.

(** A computation that returns, with no more left on the line than before. *)
Definition returns {A} (w : W) (x : option (A * W)) : Prop :=
  exists r w', x = Some (r, w') /\ (left_on_line w' <= left_on_line w)%nat.

Lemma returns_pair {A} w (x : A * W) : (left_on_line (snd x) <= left_on_line w)%nat -> returns w (Some x).
Proof. destruct x as [r w']. intros Hx. exists r, w'. auto. Qed.

Lemma returns_ok_then w x f : (left_on_line (snd x) <= left_on_line w)%nat ->
  (forall w', (left_on_line w' <= left_on_line w)%nat -> returns w' (f w')) -> returns w (ok_then x f).
Proof.
  destruct x as [rc w']. intros Hx Hf. unfold ok_then. simpl in Hx. case_if; [|by apply returns_pair].
  destruct (Hf w' Hx) as (r & w2 & -> & Hle). exists r, w2. split; [done|]. lia.
Qed.

Lemma returns_bind w (x : option (ym_result * W)) f : returns w x ->
  (forall w', (left_on_line w' <= left_on_line w)%nat -> returns w' (f w')) ->
  returns w (r ← x; ok_then r f).
Proof. intros (r & w' & -> & Hle) Hf. cbn [mbind option_bind]. by apply returns_ok_then. Qed.

Lemma wait_c_loop_total fuel : forall ms tries w, (tries + left_on_line w < fuel)%nat ->
  returns w (wait_c_loop fuel ms tries w).
Proof.
  induction fuel as [|k IH]; intros ms tries w Hf; [lia|]. cbn [wait_c_loop].
  pose proof (getc_left ms w) as Hl. pose proof (getc_byte ms w) as Hb.
  destruct (getc ms w) as [b w1] eqn:E0. simpl in Hl, Hb.
  case_if; [by apply returns_pair|]. case_if; [by apply returns_pair|].
  destruct (if b =? YM_CAN then is_double_can w1 else (false, w1)) as [can w2] eqn:E.
  apply is_double_can_if in E. destruct can; [apply returns_pair; simpl; lia|].
  assert (Hgo : forall tries', (tries' + left_on_line w2 < k)%nat -> returns w (wait_c_loop k ms tries' w2)).
  { intros tries' Hk. destruct (IH ms tries' w2 Hk) as (r & w' & -> & Hle). exists r, w'. split; [done|]. lia. }
  destruct (b =? YM_IO_TIMEOUT) eqn:Et.
  - destruct tries; [apply returns_pair; simpl; lia|]. apply Hgo. lia.
  - apply Hgo. pose proof (getc_range ms w) as Hr. rewrite E0 in Hr. simpl in Hr.
    unfold YM_IO_TIMEOUT, YM_IO_ABORT in *. lia.
Qed.

Lemma fill_loop_total fuel : forall want filled w,
  (Z.to_nat (want - Z.of_nat (length filled)) <= fuel)%nat -> Z.of_nat (length filled) <= want ->
  exists d w', fill_loop fuel want filled w = Some (d, w') /\ (left_on_line w' <= left_on_line w)%nat /\
    match d with Some d => Z.of_nat (length d) <= want | None => True end.
Proof.
  induction fuel as [|k IH]; intros want filled w Hf Hle; cbn [fill_loop].
  { if_true. exists (Some filled), w. auto. }
  destruct (Z.leb_spec want (Z.of_nat (length filled))); [exists (Some filled), w; auto|].
  set (ask := want - Z.of_nat (length filled)) in *.
  pose proof (read_left ask w) as Hl. pose proof (read_want ask w) as Hw.
  destruct (src_read ask w) as [[[|b bs]|] w1]; simpl in Hl; [by exists (Some filled), w1| |by exists None, w1].
  specialize (Hw _ _ eq_refl). if_false. destruct (IH want (filled ++ b :: bs) w1) as (d & w' & -> & Hle' & Hd).
  - rewrite length_app. simpl. lia.
  - rewrite length_app. simpl in *. lia.
  - exists d, w'. split; [done|]. split; [lia|done].
Qed.

Lemma send_data_total fuel : forall seq remaining w, is_u32 remaining -> (Z.to_nat remaining <= fuel)%nat ->
  returns w (send_data fuel seq remaining w).
Proof.
  induction fuel as [|k IH]; intros seq remaining w Hr Hf; cbn [send_data].
  { if_true. by apply returns_pair. }
  destruct (Z.leb_spec remaining 0); [by apply returns_pair|].
  set (want := if remaining <? 1024 then remaining else 1024).
  assert (Hwant : 0 < want <= 1024 /\ want <= remaining) by (unfold want; case_if; lia).
  destruct (fill_loop_total YM_DATA_MAX want [] w) as (d & w1 & -> & Hl & Hd); [unfold YM_DATA_MAX; simpl; lia|simpl; lia|].
  cbn [mbind option_bind]. destruct d as [[|b data]|]; [by apply returns_pair| |by apply returns_pair].
  set (data' := b :: data) in *. assert (Hpos : 0 < Z.of_nat (length data')) by (simpl; lia).
  destruct (send_block _ seq (pad_block data') w1) as [rc w2] eqn:E.
  assert (H2 : (left_on_line w2 <= left_on_line w1)%nat).
  { change w2 with (snd (rc, w2)). rewrite <-E. apply send_block_loop_left. }
  case_if; [apply returns_pair; simpl; lia|]. case_if; [apply returns_pair; simpl; lia|].
  rewrite u32_small by warith. destruct (IH (u8 (seq + 1)) (remaining - Z.of_nat (length data')) w2) as (r & w' & -> & Hle);
    [warith|lia|]. exists r, w'. split; [done|]. lia.
Qed.

Lemma ymodem_send_total fuel name size w : is_u32 size -> (YM_HANDSHAKE_RETRIES + left_on_line w < fuel)%nat ->
  exists rc w', ymodem_send fuel name size w = Some (rc, w').
Proof.
  intros Hs Hf.
  assert (Hrun : returns w (ym_run fuel name size w)).
  { unfold ym_run. apply returns_bind; [by apply wait_c_loop_total|]. intros w1 G1.
    apply returns_ok_then; [apply send_block_loop_left|]. intros w2 G2.
    pose proof (send_block_loop_left YM_BLOCK_RETRIES (frame YM_SOH 0 (build_block0 name size)) w1).
    apply returns_bind; [apply wait_c_loop_total; unfold YM_BLOCK_RETRIES, YM_HANDSHAKE_RETRIES in *; lia|]. intros w3 G3.
    apply returns_bind; [apply send_data_total; [done|lia]|]. intros w4 G4.
    apply returns_ok_then; [apply send_eot_loop_left|]. intros w5 G5.
    apply returns_bind; [apply wait_c_loop_total; unfold YM_BLOCK_RETRIES, YM_HANDSHAKE_RETRIES in *; lia|]. intros w6 G6.
    apply returns_pair, send_block_loop_left. }
  destruct Hrun as (rc & w' & E & _). unfold ymodem_send. rewrite E. cbn [mbind option_bind]. eauto.
Qed.
End termination.

(** ** Block 0 round trip *)

Lemma crc_byte_range crc p : is_u16 (crc_byte crc p).
Proof.
  unfold crc_byte. change 8%nat with (S 7). simpl Nat.iter.
  unfold crc_bit at 1. case_if; apply u16_range.
Qed.

Lemma ymodem_crc16_range p : is_u16 (ymodem_crc16 p).
Proof.
  unfold ymodem_crc16. rewrite <-(rev_involutive p). destruct (rev p) as [|c r]; simpl.
  { unfold is_u16. lia. }
  rewrite fold_left_app. apply crc_byte_range.
Qed.

Lemma dec_digits_app k : forall v acc, dec_digits k v acc = dec_digits k v [] ++ acc.
Proof.
  induction k as [|k IH]; intros v acc; simpl; [done|]. case_if; [done|].
  rewrite IH, (IH _ [_]), <-app_assoc. done.
Qed.

Lemma dec_digits_length k : forall v, (length (dec_digits k v []) <= k)%nat.
Proof.
  induction k as [|k IH]; intros v; simpl; [lia|]. case_if; [simpl; lia|].
  rewrite dec_digits_app, length_app. simpl. specialize (IH (v / 10)). lia.
Qed.

Lemma block0_size_digits k : forall v h r, 0 < v < 10 ^ Z.of_nat k -> v < 4294967296 ->
  block0_size (dec_digits k v [] ++ r) 0 h = block0_size r v true.
Proof.
  induction k as [|k IH]; intros v h r Hv H32; [simpl in Hv; lia|].
  rewrite Nat2Z.inj_succ, Z.pow_succ_r in Hv by lia. cbn [dec_digits]. if_false.
  rewrite dec_digits_app, <-app_assoc. cbn [app].
  pose proof (Z.div_mod v 10 ltac:(lia)). pose proof (Z.mod_pos_bound v 10 ltac:(lia)).
  assert (Hstep : forall h', block0_size (48 + v mod 10 :: r) (v / 10) h' = block0_size r v true).
  { intros h'. cbn [block0_size]. if_true. replace (48 + v mod 10 - 48) with (v mod 10) by lia. cbv zeta.
    destruct (Z.ltb_spec ((4294967295 - v mod 10) / 10) (v / 10)) as [Hov|Hov].
    - exfalso. pose proof (Z.div_le_lower_bound (4294967295 - v mod 10) 10 (v / 10)). lia.
    - rewrite u32_small by (unfold is_u32; lia). f_equal. lia. }
  destruct (decide (v / 10 = 0)) as [Hz|Hz].
  - replace (dec_digits k (v / 10) []) with (@nil Z) by (rewrite Hz; by destruct k).
    rewrite <-(Hstep h), Hz. done.
  - rewrite IH; [apply Hstep| |].
    + split; [|apply Z.div_lt_upper_bound; lia]. pose proof (Z.div_pos v 10). lia.
    + lia.
Qed.

Lemma u32_to_dec_length v : (length (u32_to_dec v) <= 10)%nat.
Proof. unfold u32_to_dec. case_if; [simpl; lia|apply dec_digits_length]. Qed.

Lemma block0_size_dec v r : 0 <= v < 4294967296 ->
  block0_size (u32_to_dec v ++ 0 :: r) 0 false = Some (v, true).
Proof.
  intros Hv. unfold u32_to_dec. destruct (Z.eqb_spec v 0) as [-> |Hnz]; [done|].
  rewrite block0_size_digits; [done| |lia]. change (10 ^ Z.of_nat 10) with 10000000000. lia.
Qed.

Lemma block0_name_spec cap name rest : Forall (fun c : Z => c <> 0) name ->
  forall acc, (length acc + length name < cap)%nat ->
  block0_name cap (name ++ 0 :: rest) acc = (acc ++ name, 0 :: rest).
Proof.
  induction 1 as [|c name Hc Hn IH]; intros acc Hl; simpl.
  { by rewrite app_nil_r. }
  simpl in Hl. if_false. replace (length acc + 1 <? cap)%nat with true by (symmetry; apply Nat.ltb_lt; lia).
  rewrite IH by (rewrite length_app; simpl; lia). by rewrite <-app_assoc.
Qed.

Lemma build_block0_length name size : length (build_block0 name size) = YM_BLOCK0_LEN.
Proof.
  unfold build_block0, YM_BLOCK0_LEN.
  set (n := match name with Some (c :: n) => c :: n | _ => str "file.bin" end).
  rewrite !length_app, length_replicate, !length_take. simpl length. lia.
Qed.

(** A name as the sender and the receiver both carry it. *)
Definition name_ok (name : list Z) : Prop :=
  name <> [] /\ (length name <= 100)%nat /\ Forall (fun c : Z => c <> 0) name /\ bytes_ok name.

Lemma block0_parts name size : name_ok name ->
  exists z, build_block0 (Some name) size = name ++ 0 :: u32_to_dec size ++ replicate z 0 /\ (0 < z)%nat.
Proof.
  intros (Hne & Hl & _). unfold build_block0. destruct name as [|c name]; [done|].
  rewrite (take_ge (c :: name)) by done. pose proof (u32_to_dec_length size) as Hd.
  rewrite take_ge by (unfold YM_BLOCK0_LEN; lia). eexists. split; [done|]. unfold YM_BLOCK0_LEN. lia.
Qed.

Lemma parse_build_block0 name size rest : name_ok name -> 0 <= size < 4294967296 ->
  parse_block0 (build_block0 (Some name) size ++ rest) YM_BLOCK0_LEN = Some (name, size, true).
Proof.
  intros Hn Hs. unfold parse_block0. rewrite take_app_le by (rewrite build_block0_length; lia).
  rewrite take_ge by (rewrite build_block0_length; lia).
  destruct (block0_parts name size Hn) as (z & -> & Hz). destruct Hn as (Hne & Hl & Hnn & _).
  rewrite block0_name_spec by (done || (unfold YM_BLOCK0_LEN; simpl; lia)).
  destruct z as [|z]; [lia|]. cbn [replicate]. rewrite block0_size_dec by done. done.
Qed.


(** ** A scripted line

    What the peer sends is a fixed list of events, after which the line is
    silent; what is put on the line, and what the sink accepts, is recorded. *)
Module Script.
Inductive rx_event : Type := RxByte (b : Z) | RxTimeout | RxAbort.

Record line : Type := Line {
  rx : list rx_event; tx : list Z; source : list Z; sunk : list (list Z);
}.

#[export] Instance io : YmIo line := {|
  getc _ w :=
    match rx w with
    | [] => (YM_IO_TIMEOUT, w)
    | RxByte b :: rx => (u8 b, Line rx (tx w) (source w) (sunk w))
    | RxTimeout :: rx => (YM_IO_TIMEOUT, Line rx (tx w) (source w) (sunk w))
    | RxAbort :: rx => (YM_IO_ABORT, Line rx (tx w) (source w) (sunk w))
    end;
  put bs w := (0, Line (rx w) (tx w ++ bs) (source w) (sunk w));
  src_read want w :=
    (Some (take (Z.to_nat want) (source w)), Line (rx w) (tx w) (drop (Z.to_nat want) (source w)) (sunk w));
  sink_begin name _ w := (0, Line (rx w) (tx w) (source w) (sunk w ++ [name]));
  sink_write data w := (0, Line (rx w) (tx w) (source w) (sunk w ++ [data]));
|}.
End Script.
Import Script.

(** *** Reading what was framed *)

Definition bytes_rx (bs : list Z) : list rx_event := map RxByte bs.

Lemma bytes_rx_app a b : bytes_rx (a ++ b) = bytes_rx a ++ bytes_rx b.
Proof. apply map_app. Qed.

Lemma rgetc_byte ms b rest t s k d g c : is_u8 b ->
  rgetc ms (Rst (Line (RxByte b :: rest) t s k) d g c) = (b, Rst (Line rest t s k) d g c).
Proof. intros Hb. unfold rgetc. simpl. by rewrite u8_small. Qed.

Lemma read_data_bytes bs : forall kind seq nseq i n rest t s k d g c,
  bytes_ok bs -> (i + length bs <= length d)%nat ->
  read_data (length bs) kind seq nseq i n (Rst (Line (bytes_rx bs ++ rest) t s k) d g c) =
    (None, Rst (Line rest t s k) (splice i bs d) g c).
Proof.
  induction bs as [|b bs IH]; intros kind seq nseq i n rest t s k d g c Hb Hl.
  { simpl. by rewrite splice_nil by (simpl in Hl; lia). }
  inversion_clear Hb as [|? ? Hb0 Hbs]. cbn [length read_data bytes_rx map app]. simpl in Hl.
  rewrite rgetc_byte by done. unfold YM_IO_ABORT. unfold is_u8 in Hb0. if_false. if_false.
  rewrite (u8_small b) by done. cbn [r_w r_data r_diag r_sink].
  fold (bytes_rx bs). rewrite IH; [|done|rewrite length_insert; lia].
  by rewrite splice_insert by lia.
Qed.

Lemma crc_bytes crc : is_u16 crc ->
  u16 (Z.lor (Z.shiftl (u16 (Z.lor (Z.shiftl 0 8) (u8 (u8 (Z.shiftr crc 8))))) 8) (u8 (Z.land crc 255))) = crc.
Proof.
  intros Hc. unfold is_u16 in Hc. rewrite land_255. fold (u8 crc).
  rewrite (u8_small (u8 (Z.shiftr crc 8))), (u8_small (u8 crc)) by apply u8_range.
  change (Z.shiftl 0 8) with 0. rewrite Z.lor_0_l.
  rewrite (u8_small (Z.shiftr crc 8)).
  2:{ rewrite Z.shiftr_div_pow2 by lia. unfold is_u8. simpl (2 ^ 8). Z.div_mod_to_equations; lia. }
  rewrite (u16_small (Z.shiftr crc 8)).
  2:{ rewrite Z.shiftr_div_pow2 by lia. unfold is_u16. simpl (2 ^ 8). Z.div_mod_to_equations; lia. }
  rewrite Z.lor_comm, lor_shiftl_add by (lia || apply u8_range).
  rewrite Z.shiftr_div_pow2 by lia. rewrite u16_small; unfold u8, is_u16; simpl (2 ^ 8); Z.div_mod_to_equations; lia.
Qed.

Lemma frame_bytes_ok kind seq data : is_u8 kind -> is_u8 seq -> bytes_ok data -> bytes_ok (frame kind seq data).
Proof.
  intros Hk Hs Hd. unfold frame. apply Forall_app; split.
  - constructor; [done|]. constructor; [done|]. constructor; [|constructor].
    rewrite <-(Z.mod_small seq (2 ^ 8)) by exact Hs.
    change 255 with (255 mod 2 ^ 8). 
    assert (E : Z.lxor (seq mod 2 ^ 8) (255 mod 2 ^ 8) = (Z.lxor seq 255) mod 2 ^ 8).
    { rewrite <-!Z.land_ones by lia. apply Z.bits_inj'. intros n Hn.
      rewrite Z.lxor_spec, !Z.land_spec, Z.lxor_spec. by destruct (Z.testbit (Z.ones 8) n), (Z.testbit seq n), (Z.testbit 255 n). }
    rewrite E. apply Z.mod_pos_bound. lia.
  - apply Forall_app; split; [done|]. constructor; [apply u8_range|]. constructor; [|constructor].
    rewrite land_255. apply Z.mod_pos_bound. lia.
Qed.

(** A block of the length its kind announces. *)
Definition block_ok (kind : Z) (data : list Z) : Prop :=
  bytes_ok data /\ (kind = YM_SOH /\ length data = YM_BLOCK0_LEN \/ kind = YM_STX /\ length data = YM_DATA_MAX).

(** [read_body] accepts a frame, whatever was in the buffer. *)
Lemma read_body_frame kind seq data rest t s k d g c :
  block_ok kind data -> is_u8 seq -> length d = YM_DATA_MAX ->
  read_body kind (Rst (Line (bytes_rx (tail (frame kind seq data)) ++ rest) t s k) d g c) =
    (BodyOk seq (length data), Rst (Line rest t s k) (splice 0 data d) (add_block g) c).
Proof.
  intros (Hd & Hkind) Hs Hl.
  assert (Hn : (if kind =? YM_STX then YM_DATA_MAX else YM_BLOCK0_LEN) = length data).
  { destruct Hkind as [[-> ->]|[-> ->]]; done. }
  assert (Hle : (length data <= YM_DATA_MAX)%nat).
  { unfold YM_DATA_MAX, YM_BLOCK0_LEN in *. lia. }
  assert (Hk8 : is_u8 kind) by (unfold is_u8, YM_SOH, YM_STX in *; lia).
  pose proof (frame_bytes_ok kind seq data Hk8 Hs Hd) as Hf.
  assert (Hx : is_u8 (Z.lxor seq 255)).
  { unfold frame in Hf. cbn [app] in Hf. apply Forall_inv_tail, Forall_inv_tail, Forall_inv in Hf. done. }
  unfold frame. cbn [app tail bytes_rx map]. unfold read_body. rewrite Hn.
  rewrite rgetc_byte by done. unfold YM_IO_ABORT. pose proof Hs as Hs'. unfold is_u8 in Hs'.
  if_false. if_false. rewrite (u8_small seq) by done.
  rewrite rgetc_byte by done. pose proof Hx as Hx'. unfold is_u8 in Hx'. if_false. if_false.
  rewrite (u8_small (Z.lxor seq 255)), Z.eqb_refl by done. cbn [negb].
  fold (bytes_rx (data ++ [u8 (Z.shiftr (ymodem_crc16 data) 8); Z.land (ymodem_crc16 data) 255])).
  rewrite bytes_rx_app, <-app_assoc, read_data_bytes by (done || lia).
  cbn [read_crc bytes_rx map app].
  pose proof (u8_range (Z.shiftr (ymodem_crc16 data) 8)) as H1.
  assert (H2 : is_u8 (Z.land (ymodem_crc16 data) 255)).
  { rewrite land_255. apply Z.mod_pos_bound. lia. }
  rewrite rgetc_byte by done. unfold YM_IO_ABORT, is_u8 in *. if_false. if_false.
  rewrite rgetc_byte by done. if_false. if_false.
  rewrite crc_bytes by apply ymodem_crc16_range. cbn [r_data r_diag].
  unfold splice at 1. rewrite take_0, app_nil_l, take_app_length, Z.eqb_refl. done.
Qed.

Lemma wait_hdr_loop_block n ms kind rest t s k d g c : kind = YM_SOH \/ kind = YM_STX ->
  wait_hdr_loop (S n) ms (Rst (Line (RxByte kind :: rest) t s k) d g c) =
    (HdrBlock kind, Rst (Line rest t s k) d g c).
Proof.
  intros Hk. cbn [wait_hdr_loop]. rewrite rgetc_byte by (unfold is_u8, YM_SOH, YM_STX in *; lia).
  by destruct Hk as [-> | ->].
Qed.

Lemma wait_hdr_block ms kind seq data rest t s k d g c : kind = YM_SOH \/ kind = YM_STX ->
  wait_hdr ms (Rst (Line (bytes_rx (frame kind seq data) ++ rest) t s k) d g c) =
    (HdrBlock kind, Rst (Line (bytes_rx (tail (frame kind seq data)) ++ rest) t s k) d g c).
Proof.
  intros Hk. by apply (wait_hdr_loop_block 8191).
Qed.

Lemma wait_hdr_eot ms rest t s k d g c :
  wait_hdr ms (Rst (Line (RxByte YM_EOT :: rest) t s k) d g c) = (HdrEot, Rst (Line rest t s k) d g c).
Proof. done. Qed.

Lemma next_hdr_block kind seq data prompt rest t s k d g c : kind = YM_SOH \/ kind = YM_STX ->
  next_hdr YM_BLOCK_RETRIES prompt (Rst (Line (bytes_rx (frame kind seq data) ++ rest) t s k) d g c) =
    (inr (HdrBlock kind), Rst (Line (bytes_rx (tail (frame kind seq data)) ++ rest) t s k) d g c).
Proof. intros Hk. unfold YM_BLOCK_RETRIES. cbn [next_hdr]. by rewrite wait_hdr_block. Qed.

Lemma next_hdr_eot prompt rest t s k d g c :
  next_hdr YM_BLOCK_RETRIES prompt (Rst (Line (RxByte YM_EOT :: rest) t s k) d g c) =
    (inr HdrEot, Rst (Line rest t s k) d g c).
Proof. unfold YM_BLOCK_RETRIES. cbn [next_hdr]. by rewrite wait_hdr_eot. Qed.

Lemma put1_line b rx0 t s k d g c :
  put1 b (Rst (Line rx0 t s k) d g c) = (0, Rst (Line rx0 (t ++ [b]) s k) d g c).
Proof. done. Qed.

(** The data blocks of a file, numbered from [seq]. *)
Fixpoint data_frames (n : nat) (seq : Z) (data : list Z) : list Z :=
  match n with
  | O => []
  | S n =>
      let chunk := take 1024 data in
      let padded := pad_block chunk in
      frame (if (length padded =? YM_BLOCK0_LEN)%nat then YM_SOH else YM_STX) seq padded ++
      data_frames n (u8 (seq + 1)) (drop 1024 data)
  end.

(** How many blocks a file of a length takes. *)
Definition block_count (len : nat) : nat := (len + 1023) / 1024.

Lemma block_count_0 : block_count 0 = 0%nat.
Proof. done. Qed.
Lemma block_count_S len : (0 < len)%nat -> block_count len = S (block_count (len - 1024)).
Proof.
  intros Hl. unfold block_count. destruct (decide (len <= 1024)%nat).
  - replace (len - 1024)%nat with 0%nat by lia. change ((0 + 1023) / 1024)%nat with 0%nat.
    assert ((len + 1023) / 1024 < 2)%nat by (apply Nat.Div0.div_lt_upper_bound; lia).
    assert (1 <= (len + 1023) / 1024)%nat by (apply Nat.div_le_lower_bound; lia). lia.
  - replace (len + 1023)%nat with ((len - 1024 + 1023) + 1 * 1024)%nat by lia.
    rewrite Nat.div_add by lia. lia.
Qed.

Lemma pad_block_ok chunk : bytes_ok chunk -> (length chunk <= 1024)%nat ->
  block_ok (if (length (pad_block chunk) =? YM_BLOCK0_LEN)%nat then YM_SOH else YM_STX) (pad_block chunk) /\
  take (length chunk) (pad_block chunk) = chunk /\ (length chunk <= length (pad_block chunk))%nat.
Proof.
  intros Hb Hl. unfold pad_block, YM_BLOCK0_LEN, YM_DATA_MAX, block_ok, YM_BLOCK0_LEN, YM_DATA_MAX.
  set (n := if (length chunk <=? 128)%nat then 128%nat else 1024%nat).
  assert (Hn : (n = 128 \/ n = 1024)%nat /\ (length chunk <= n)%nat).
  { unfold n. destruct (Nat.leb_spec (length chunk) 128); lia. }
  rewrite length_app, length_replicate. replace (length chunk + (n - length chunk))%nat with n by lia.
  split; [|split; [by rewrite take_app_length|lia]]. split.
  - apply Forall_app; split; [done|]. apply Forall_replicate. unfold is_u8, YM_CPMEOF. lia.
  - destruct Hn as [[-> | ->] _]; simpl; auto.
Qed.

(** The receiver's data phase on the frames of a file. *)
Lemma recv_data_frames n : forall fuel data seq prompt rest t s k d g c,
  n = block_count (length data) -> (n < fuel)%nat -> bytes_ok data -> is_u8 seq ->
  Z.of_nat (length data) < 4294967296 -> length d = YM_DATA_MAX ->
  exists ws d' g', concat ws = data /\ length d' = YM_DATA_MAX /\
    recv_data fuel true (Z.of_nat (length data)) seq prompt
      (Rst (Line (bytes_rx (data_frames n seq data) ++ RxByte YM_EOT :: rest) t s k) d g c) =
    Some (None, Rst (Line rest (t ++ replicate n YM_ACK ++ [YM_ACK]) s (k ++ ws)) d' g' (c ++ map Write ws)).
Proof.
  induction n as [|n IH]; intros fuel data seq prompt rest t s k d g c Hn Hf Hb Hs Hl Hd;
    (destruct fuel as [|fuel]; [lia|]).
  { assert (data = []) as ->.
    { destruct data; [done|]. rewrite block_count_S in Hn by (simpl; lia). done. }
    exists [], d, g. split; [done|]. split; [done|]. cbn [data_frames bytes_rx map app recv_data length].
    rewrite next_hdr_eot. simpl (Z.of_nat 0 =? 0). cbn [andb negb]. rewrite put1_line.
    simpl (0 <? 0). cbv iota. by rewrite !app_nil_r. }
  assert (Hpos : (0 < length data)%nat).
  { destruct data; [|simpl; lia]. done. }
  rewrite block_count_S in Hn by done. injection Hn as Hn.
  set (chunk := take 1024 data).
  assert (Hc : (0 < length chunk <= 1024)%nat /\ length data = (length chunk + length (drop 1024 data))%nat).
  { unfold chunk. rewrite length_take, length_drop. lia. }
  assert (Hbc : bytes_ok chunk) by (by apply Forall_take).
  destruct (pad_block_ok chunk Hbc ltac:(lia)) as (Hok & Htake & Hpl).
  cbn [data_frames]. fold chunk.
  set (kind := if (length (pad_block chunk) =? YM_BLOCK0_LEN)%nat then YM_SOH else YM_STX) in *.
  assert (Hkind : kind = YM_SOH \/ kind = YM_STX) by (unfold kind; case_if; auto).
  rewrite bytes_rx_app, <-app_assoc. cbn [recv_data]. rewrite next_hdr_block by done.
  rewrite read_body_frame by done. unfold is_u8 in Hs.
  replace (seq =? u8 (seq - 1)) with false by (symmetry; apply Z.eqb_neq; warith).
  rewrite Z.eqb_refl. cbn [negb andb].
  set (take_ := if Z.of_nat (length data) <? Z.of_nat (length (pad_block chunk))
                then Z.of_nat (length data) else Z.of_nat (length (pad_block chunk))).
  assert (Ht : take_ = Z.of_nat (length chunk)).
  { unfold take_. destruct Hok as [_ Hok]. unfold kind in Hok.
    assert (Hlp : length (pad_block chunk) = if (length chunk <=? 128)%nat then 128%nat else 1024%nat).
    { unfold pad_block, YM_BLOCK0_LEN, YM_DATA_MAX. rewrite length_app, length_replicate.
      destruct (Nat.leb_spec (length chunk) 128); lia. }
    unfold chunk in *. rewrite length_take in *. rewrite Hlp.
    destruct (Nat.leb_spec (1024 `min` length data) 128); case_if; lia. }
  rewrite Ht. cbv zeta. if_true. cbn [r_w r_data r_diag r_sink sink_write io].
  assert (Hdata : take (Z.to_nat (Z.of_nat (length chunk))) (splice 0 (pad_block chunk) d) = chunk).
  { unfold splice. rewrite take_0, app_nil_l, Nat2Z.id, take_app_le by done. done. }
  rewrite Hdata. simpl (0 <? 0). cbv iota. cbn [rx tx source sunk]. rewrite put1_line.
  simpl (0 <? 0). cbv iota.
  rewrite (u32_small (Z.of_nat (length data) - Z.of_nat (length chunk))) by (unfold is_u32; lia).
  replace (Z.of_nat (length data) - Z.of_nat (length chunk)) with (Z.of_nat (length (drop 1024 data))) by lia.
  destruct (IH fuel (drop 1024 data) (u8 (seq + 1)) YM_NAK rest (t ++ [YM_ACK]) s (k ++ [chunk])
              (splice 0 (pad_block chunk) d) (add_block g) (c ++ [Write chunk]))
    as (ws & d' & g' & Hws & Hd' & Hrun).
  - rewrite length_drop. done.
  - lia.
  - by apply Forall_drop.
  - apply u8_range.
  - rewrite length_drop. lia.
  - rewrite length_splice; [done|]. rewrite Hd. destruct Hok as [_ [[_ ->]|[_ ->]]]; unfold YM_BLOCK0_LEN, YM_DATA_MAX; lia.
  - exists (chunk :: ws), d', g'. cbn [concat]. rewrite Hws. split; [by apply take_drop|]. split; [done|].
    rewrite Hrun. cbn [map replicate]. rewrite <-!app_assoc. done.
Qed.

(** *** The sender on a line that answers *)

Lemma send_block_acked kind seq data rest t s k :
  send_block kind seq data (Line (RxByte YM_ACK :: rest) t s k) = (YM_OK, Line rest (t ++ frame kind seq data) s k).
Proof. done. Qed.

Lemma wait_c_c fuel ms tries rest t s k : (0 < fuel)%nat ->
  wait_c_loop fuel ms tries (Line (RxByte YM_CRC_C :: rest) t s k) = Some (YM_OK, Line rest t s k).
Proof. intros Hf. by destruct fuel; [lia|]. Qed.

Lemma fill_loop_read f (chunk data : list Z) rest t k : (0 < length chunk <= 1024)%nat ->
  fill_loop (S f) (Z.of_nat (length chunk)) [] (Line rest t (chunk ++ data) k) =
    Some (Some chunk, Line rest t data k).
Proof.
  intros Hl. cbn [fill_loop length]. if_false.
  rewrite Z.sub_0_r. cbn [src_read io source rx tx sunk]. rewrite Nat2Z.id, take_app_length, drop_app_length.
  destruct chunk as [|b chunk]; [simpl in Hl; lia|]. cbv iota beta. rewrite Z.ltb_irrefl.
  cbn [app]. destruct f; cbn [fill_loop]; by rewrite Z.leb_refl.
Qed.

Lemma fill_loop_full (chunk data : list Z) rest t k : (0 < length chunk <= 1024)%nat ->
  fill_loop YM_DATA_MAX (Z.of_nat (length chunk)) [] (Line rest t (chunk ++ data) k) =
    Some (Some chunk, Line rest t data k).
Proof. apply (fill_loop_read 1023). Qed.

Lemma fill_loop_take data rest t k : (0 < length (take 1024 data) <= 1024)%nat ->
  fill_loop YM_DATA_MAX (Z.of_nat (length (take 1024 data))) [] (Line rest t data k) =
    Some (Some (take 1024 data), Line rest t (drop 1024 data) k).
Proof.
  intros Hl. pose proof (fill_loop_full (take 1024 data) (drop 1024 data) rest t k Hl) as E.
  by rewrite take_drop in E.
Qed.

Lemma send_data_frames n : forall fuel data seq rest t k,
  n = block_count (length data) -> (n <= fuel)%nat -> Z.of_nat (length data) < 4294967296 ->
  send_data fuel seq (Z.of_nat (length data)) (Line (replicate n (RxByte YM_ACK) ++ rest) t data k) =
    Some (YM_OK, Line rest (t ++ data_frames n seq data) [] k).
Proof.
  induction n as [|n IH]; intros fuel data seq rest t k Hn Hf Hl.
  { assert (data = []) as ->.
    { destruct data; [done|]. rewrite block_count_S in Hn by (simpl; lia). done. }
    destruct fuel; simpl; by rewrite app_nil_r. }
  assert (Hpos : (0 < length data)%nat) by (destruct data; [done|simpl; lia]).
  rewrite block_count_S in Hn by done. injection Hn as Hn. destruct fuel as [|fuel]; [lia|].
  set (chunk := take 1024 data).
  assert (Hc : (0 < length chunk <= 1024)%nat /\ length data = (length chunk + length (drop 1024 data))%nat).
  { unfold chunk. rewrite length_take, length_drop. lia. }
  cbn [send_data]. if_false.
  replace (if Z.of_nat (length data) <? 1024 then Z.of_nat (length data) else 1024) with (Z.of_nat (length chunk)).
  2:{ unfold chunk. rewrite length_take. case_if; lia. }
  unfold chunk. rewrite fill_loop_take by (fold chunk; lia). fold chunk. cbn [mbind option_bind].
  destruct chunk as [|b0 chunk0] eqn:Ec; [simpl in Hc; lia|]. rewrite <-Ec in *.
  cbn [replicate app]. rewrite send_block_acked. rewrite bool_decide_eq_true_2 by done. cbn [negb].
  rewrite Z.ltb_irrefl. rewrite u32_small by (unfold is_u32; lia).
  replace (Z.of_nat (length data) - Z.of_nat (length chunk)) with (Z.of_nat (length (drop 1024 data))) by lia.
  rewrite IH; [|rewrite length_drop; done|lia|rewrite length_drop; lia].
  cbn [data_frames]. rewrite <-app_assoc. unfold chunk. done.
Qed.

(** What a receiver that takes everything answers to a file of [n] blocks. *)
Definition answers (n : nat) : list Z :=
  [YM_CRC_C; YM_ACK; YM_CRC_C] ++ replicate n YM_ACK ++ [YM_ACK; YM_CRC_C; YM_ACK].

(** What the sender puts on the line. *)
Definition wire (name data : list Z) : list Z :=
  frame YM_SOH 0 (build_block0 (Some name) (Z.of_nat (length data))) ++
  data_frames (block_count (length data)) 1 data ++ [YM_EOT] ++
  frame YM_SOH 0 (replicate YM_BLOCK0_LEN 0).

Lemma bytes_rx_replicate n b : bytes_rx (replicate n b) = replicate n (RxByte b).
Proof. induction n as [|n IH]; simpl; [done|]. by f_equal. Qed.

Lemma ymodem_send_wire fuel name data : (0 < fuel)%nat -> Z.of_nat (length data) < 4294967296 ->
  ymodem_send fuel (Some name) (Z.of_nat (length data))
    (Line (bytes_rx (answers (block_count (length data)))) [] data []) =
  Some (YM_OK, Line [] (wire name data) [] []).
Proof.
  intros Hf Hl. unfold ymodem_send, ym_run, answers.
  rewrite !bytes_rx_app, bytes_rx_replicate.
  unfold wait_start. cbn [bytes_rx map app]. rewrite wait_c_c by done. cbn [mbind option_bind]. unfold ok_then at 1.
  rewrite bool_decide_eq_true_2 by done. rewrite send_block_acked. unfold ok_then at 1.
  rewrite bool_decide_eq_true_2 by done. unfold wait_c. rewrite wait_c_c by done. cbn [mbind option_bind].
  unfold ok_then at 1. rewrite bool_decide_eq_true_2 by done.
  rewrite send_data_frames; [|done| |done].
  2:{ rewrite Nat2Z.id. unfold block_count. destruct (length data) as [|m]; [done|].
      apply Nat.Div0.div_le_upper_bound. lia. }
  cbn [mbind option_bind]. unfold ok_then at 1. rewrite bool_decide_eq_true_2 by done.
  assert (Heot : forall r t s k, send_eot (Line (RxByte YM_ACK :: r) t s k) = (YM_OK, Line r (t ++ [YM_EOT]) s k))
    by done.
  rewrite Heot. unfold ok_then at 1. rewrite bool_decide_eq_true_2 by done.
  rewrite wait_c_c by done. cbn [mbind option_bind]. unfold ok_then at 1. rewrite bool_decide_eq_true_2 by done.
  rewrite send_block_acked. cbn [mbind option_bind]. rewrite bool_decide_eq_true_2 by done.
  unfold wire. rewrite app_nil_l, <-!app_assoc. done.
Qed.

Lemma handshake_block0 fuel data rest t s k d g c : block_ok YM_SOH data -> length d = YM_DATA_MAX ->
  recv_handshake (S fuel) YM_HANDSHAKE_RETRIES (Rst (Line (bytes_rx (frame YM_SOH 0 data) ++ rest) t s k) d g c) =
    Some (None, Rst (Line rest (t ++ [YM_CRC_C]) s k) (splice 0 data d) (add_block g) c).
Proof.
  intros Hd Hl. cbn [recv_handshake]. rewrite put1_line. simpl (0 <? 0). cbv iota.
  rewrite wait_hdr_block by auto. rewrite read_body_frame by (done || (unfold is_u8; lia)). done.
Qed.

Lemma close_null fuel rest t s k d g c : length d = YM_DATA_MAX ->
  exists d' g', recv_close (S fuel) YM_BLOCK_RETRIES
    (Rst (Line (bytes_rx (frame YM_SOH 0 (replicate YM_BLOCK0_LEN 0)) ++ rest) t s k) d g c) =
    Some (YM_OK, Rst (Line rest (t ++ [YM_ACK]) s k) d' g' c).
Proof.
  intros Hl. cbn [recv_close]. rewrite wait_hdr_block by auto.
  rewrite read_body_frame; [|split; [apply Forall_replicate; unfold is_u8; lia|left; by rewrite length_replicate]|
    unfold is_u8; lia|done].
  eexists _, _. cbn [r_data]. rewrite put1_line. done.
Qed.

Lemma block0_ok name size : name_ok name -> block_ok YM_SOH (build_block0 (Some name) size).
Proof.
  intros Hn. split; [|left; split; [done|apply build_block0_length]].
  destruct (block0_parts name size Hn) as (z & -> & _). destruct Hn as (_ & _ & _ & Hb).
  apply Forall_app; split; [done|]. constructor; [unfold is_u8; lia|].
  apply Forall_app; split; [|apply Forall_replicate; unfold is_u8; lia].
  assert (Hdec : forall k v acc, bytes_ok acc -> bytes_ok (dec_digits k v acc)).
  { induction k as [|k IH]; intros v acc Ha; simpl; [done|]. case_if; [done|]. apply IH.
    constructor; [|done]. unfold is_u8. pose proof (Z.mod_pos_bound v 10). lia. }
  unfold u32_to_dec. case_if; [constructor; [unfold is_u8; lia|constructor]|]. apply Hdec. constructor.
Qed.

(** C26: sender and receiver agree.  Let the sender transmit any file of less
    than 4 GB under any name of up to 100 characters, and feed every byte it
    puts on the line to the receiver: the receiver reports [YM_OK], its sink is
    given that name, that size and, in order, exactly those bytes; and the
    answers the receiver puts on the line are exactly those on which the sender
    reported [YM_OK] -- the loop between the two closes. *)
Theorem ymodem_roundtrip (fuel : nat) (name data : list Z) :
  name_ok name -> bytes_ok data -> Z.of_nat (length data) < 4294967296 ->
  (block_count (length data) + 1 < fuel)%nat ->
  exists sent st answers ws,
    ymodem_send fuel (Some name) (Z.of_nat (length data)) (Line (bytes_rx answers) [] data []) =
      Some (YM_OK, Line [] sent [] []) /\
    ymodem_recv fuel (Line (bytes_rx sent) [] [] []) = Some (YM_OK, st) /\
    r_sink st = Begin name (Z.of_nat (length data)) :: map Write ws /\ concat ws = data /\
    tx (r_w st) = answers /\ rx (r_w st) = [].
Proof.
  intros Hn Hb Hl Hf. exists (wire name data).
  destruct fuel as [|fuel]; [lia|].
  unfold ymodem_recv, ym_recv_run, wire. rewrite !bytes_rx_app.
  rewrite handshake_block0 by (by apply block0_ok || by rewrite length_replicate). cbn [mbind option_bind r_data].
  unfold splice. rewrite take_0, app_nil_l. rewrite parse_build_block0 by (done || lia).
  destruct name as [|c0 name]; [by destruct Hn as [[] _]|].
  cbn [sink_begin io r_w r_data r_diag r_sink rx tx source sunk]. simpl (0 <? 0). cbv iota.
  rewrite put1_line. simpl (0 <? 0). cbv iota. rewrite put1_line. simpl (0 <? 0). cbv iota.
  cbn [bytes_rx map]. cbn [app].
  edestruct (recv_data_frames (block_count (length data)) (S fuel) data 1) as (ws & d' & g' & Hws & Hd' & Hrun);
    [done|lia|done|unfold is_u8; lia|done| |].
  2:{ rewrite Hrun. clear Hrun. cbn [mbind option_bind]. rewrite put1_line. simpl (0 <? 0). cbv iota.
      edestruct (close_null fuel []) as (d2 & g2 & Hclose); [exact Hd'|].
      rewrite app_nil_r in Hclose. rewrite Hclose. cbn [mbind option_bind].
      eexists _, (answers (block_count (length data))), ws.
      split; [rewrite ymodem_send_wire by lia; done|]. split; [done|]. split; [done|]. split; [done|].
      split; [|done]. cbn [r_w tx]. unfold answers. rewrite <-!app_assoc. done. }
  rewrite length_app, length_drop, build_block0_length, length_replicate. done.
Qed.

Lemma ymodem_roundtrip_witness :
  exists sent st answers ws,
    ymodem_send 10 (Some (str "fw.bin")) 3 (Line (bytes_rx answers) [] [1; 2; 26] []) =
      Some (YM_OK, Line [] sent [] []) /\
    ymodem_recv 10 (Line (bytes_rx sent) [] [] []) = Some (YM_OK, st) /\
    r_sink st = Begin (str "fw.bin") 3 :: map Write ws /\ concat ws = [1; 2; 26] /\
    tx (r_w st) = answers /\ rx (r_w st) = [].
Proof.
  apply (ymodem_roundtrip 10 (str "fw.bin") [1; 2; 26]).
  - split; [done|]. split; [simpl; lia|]. split; [repeat constructor; done|].
    repeat constructor; unfold is_u8; lia.
  - repeat constructor; unfold is_u8; lia.
  - simpl. lia.
  - vm_compute. lia.
Defined.

(** *** The line as a finite one *)

#[export] Instance finite_line : FiniteLine line.
Proof.
  refine {| left_on_line w := length (rx w) |};
    try (intros ms [r tx0 s k]; simpl; unfold YM_IO_ABORT, YM_IO_TIMEOUT;
         destruct r as [|[b| |]]; simpl; try pose proof (u8_range b); unfold is_u8 in *; lia);
    try (by intros).
  intros want w bs w' [= <- <-]. rewrite length_take. lia.
Defined.

(** C33: both ends return.  Whatever the peer does, when it can send only
    finitely many bytes and after that the line is silent, the receiver returns,
    and so does the sender, when its source gives at most what it is asked for;
    the bound on the rounds is the retries of the handshake plus the bytes the
    peer can still send. *)
Theorem ymodem_terminates {W : Type} `{IO : YmIo W} `{FL : !FiniteLine W}
    (fuel : nat) (name : option (list Z)) (size : Z) (w : W) :
  is_u32 size -> (YM_HANDSHAKE_RETRIES + left_on_line w < fuel)%nat ->
  (exists rc st', ymodem_recv fuel w = Some (rc, st')) /\
  (exists rc w', ymodem_send fuel name size w = Some (rc, w')).
Proof. intros Hs Hf. split; [by apply ymodem_recv_total|by apply ymodem_send_total]. Qed.

Lemma ymodem_terminates_witness :
  (exists rc st', ymodem_recv 44 (Line [RxByte 65; RxTimeout; RxByte 24] [] [] []) = Some (rc, st')) /\
  (exists rc w', ymodem_send 44 (Some (str "a")) 5 (Line [RxByte 65; RxTimeout; RxByte 24] [] [] []) = Some (rc, w')).
Proof.
  apply (ymodem_terminates 44 (Some (str "a")) 5).
  - unfold is_u32. lia.
  - simpl. lia.
Defined.

(** *** A sink with a log *)

(** Any world beside the log of a sink that answers as [sink] says. *)
Record logged (W : Type) : Type := Logged { inner : W; entries_of : list (sink_call * Z) }.
Arguments Logged {W} inner entries_of.
Arguments inner {W} l.
Arguments entries_of {W} l.

Definition logging {W : Type} (io : YmIo W) (sink : sink_call -> Z) : YmIo (logged W) := {|
  getc ms l := let '(b, w) := @getc W io ms (inner l) in (b, Logged w (entries_of l));
  put bs l := let '(r, w) := @put W io bs (inner l) in (r, Logged w (entries_of l));
  src_read want l := let '(bs, w) := @src_read W io want (inner l) in (bs, Logged w (entries_of l));
  sink_begin name size l :=
    let c := Begin name size in (sink c, Logged (inner l) (entries_of l ++ [(c, sink c)]));
  sink_write data l :=
    let c := Write data in (sink c, Logged (inner l) (entries_of l ++ [(c, sink c)]));
|}.

Definition logging_log {W : Type} (io : YmIo W) (sink : sink_call -> Z) : @SinkLog (logged W) (logging io sink).
Proof.
  refine (@Build_SinkLog (logged W) (logging io sink) entries_of _ _ _ _).
  - intros ms [w l]. simpl. by destruct (getc ms w).
  - intros bs [w l]. simpl. by destruct (put bs w).
  - done.
  - done.
Defined.

(** A sink that refuses the data: the file is offered, the first block arrives
    whole and the transfer ends with the refused write. *)
Definition refusing (c : sink_call) : Z := match c with Begin _ _ => 0 | Write _ => -1 end.
Definition one_block : logged line :=
  Logged (Line (bytes_rx (frame YM_SOH 0 (build_block0 (Some (str "a")) 3) ++
                          frame YM_SOH 1 (pad_block [1; 2; 3]))) [] [] []) [].

Lemma ymodem_recv_contract_witness :
  match @ymodem_recv _ (logging io refusing) 200 one_block with
  | Some (rc, st') =>
      (entries_of (r_w st') = [] /\ rc <> YM_OK /\ rc <> YM_ERR_SINK) \/
      exists name size have_size block0 r0 ws,
        parse_block0 block0 YM_BLOCK0_LEN = Some (name, size, have_size) /\ name <> [] /\
        entries_of (r_w st') = (Begin name size, r0) :: map (fun x => (Write x.1, x.2)) ws /\
        Forall (fun d => d <> []) ws.*1 /\
        (have_size = true -> written ws.*1 <= size) /\
        (rc = YM_OK -> have_size = true -> written ws.*1 = size) /\
        ends_at_refusal (r0 :: ws.*2) (rc = YM_ERR_SINK)
  | None => False
  end.
Proof.
  destruct (@ymodem_recv _ (logging io refusing) 200 one_block) as [[rc st']|] eqn:E.
  - exact (@ymodem_recv_contract _ (logging io refusing) (logging_log io refusing) 200 one_block rc st' E eq_refl).
  - vm_compute in E. discriminate.
Defined.

Example refused_write :
  match @ymodem_recv _ (logging io refusing) 200 one_block with
  | Some (rc, st') => rc = YM_ERR_SINK /\ entries_of (r_w st') = [(Begin (str "a") 3, 0); (Write [1; 2; 3], -1)]
  | None => False
  end.
Proof. vm_compute. done. Qed.

(** *** A lost acknowledgement of block 0 *)

(** The sender's block 0 for a file [a] of three bytes. *)
Definition block0_frame : list Z := frame YM_SOH 0 (build_block0 (Some (str "a")) 3).

(** when the acknowledgement of block 0 is lost, the transfer fails.  The
    sender re-sends block 0; the receiver, already in its data phase, takes it
    for a repeated block and answers [ACK] alone, and from then on prompts with
    [NAK] only, ten times, before it gives up: the ['C'] is never repeated.  The
    sender, which sees all the receiver sends except the lost byte, has its
    [ACK] but waits for that ['C'] and ignores every [NAK]. *)
Theorem lost_block0_ack_is_fatal :
  (exists st', ymodem_recv 100 (Line (bytes_rx (block0_frame ++ block0_frame)) [] [] []) =
      Some (YM_ERR_TIMEOUT, st') /\
    r_sink st' = [Begin (str "a") 3] /\
    tx (r_w st') = [YM_CRC_C; YM_ACK; YM_CRC_C; YM_ACK] ++ replicate 10 YM_NAK ++ cancel_seq) /\
  (exists w', ymodem_send 100 (Some (str "a")) 3
      (Line (bytes_rx ([YM_CRC_C; YM_CRC_C; YM_ACK] ++ replicate 10 YM_NAK ++ cancel_seq)) [] [1; 2; 3] []) =
      Some (YM_ERR_CANCEL, w') /\
    tx w' = block0_frame ++ block0_frame ++ cancel_seq).
Proof. split; eexists; (split; [vm_compute; reflexivity|vm_compute; auto]). Qed.
