(* ===== verification/Receiver.v ===== *)
(** * An induction principle for the YMODEM receiver

    A property of the world and of the sink calls so far that the callbacks keep
    is kept by a whole receive.  Clients prove facts about what their sink does
    with [sink_tracked], without opening the receiver. *)

From S2P Require Import Prelude Ymodem.
Local Open Scope Z_scope.

Section tracked.
Context {W : Type} `{YmIo W}.
Variable P : W -> list sink_call -> Prop.

(** The callbacks: input and output leave the property, a sink call advances
    it.  A sink is only handed bytes, at most a block of them, and a size that
    fits the C type. *)
Hypothesis P_getc : forall ms w tr, P w tr -> P (getc ms w).2 tr.
Hypothesis P_put : forall bs w tr, P w tr -> P (put bs w).2 tr.
Hypothesis P_begin : forall name size w tr, is_u32 size -> P w tr -> P (sink_begin name size w).2 (tr ++ [Begin name size]).
Hypothesis P_write : forall d w tr, bytes_ok d -> (length d <= YM_DATA_MAX)%nat -> P w tr ->
  P (sink_write d w).2 (tr ++ [Write d]).

Definition good (st : rst (W := W)) : Prop :=
  P (r_w st) (r_sink st) /\ bytes_ok (r_data st) /\ length (r_data st) = YM_DATA_MAX.

Definition good_opt {A} (o : option (A * rst)) : Prop := match o with Some (_, st) => good st | None => True end.

Create HintDb recv.

Lemma rgetc_good ms st : good st -> good (rgetc ms st).2.
Proof.
  intros (Hp & Hd). unfold rgetc. pose proof (P_getc ms _ _ Hp). by destruct (getc ms (r_w st)).
Qed.

Lemma put1_good b st : good st -> good (put1 b st).2.
Proof. intros (Hp & Hd). unfold put1. pose proof (P_put [b] _ _ Hp). by destruct (put [b] (r_w st)). Qed.

Lemma set_diag_good d st : good st -> good (set_diag d st).
Proof. done. Qed.

Lemma double_can_good st : good st -> good (set_w (is_double_can (r_w st)).2 st).
Proof. intros (Hp & Hd). split; [|done]. unfold is_double_can. pose proof (P_getc YM_ACK_TIMEOUT_MS _ _ Hp). by destruct (getc _ (r_w st)). Qed.

Lemma store_good i b st : good st -> good (Rst (r_w st) (<[i:=u8 b]> (r_data st)) (r_diag st) (r_sink st)).
Proof.
  intros (Hp & Hd & Hl). split; [done|]. cbn [r_data]. split; [|by rewrite length_insert].
  apply Forall_insert; [done|apply u8_range].
Qed.

(** Follow the code: destruct what it branches on, and learn that the state that
    comes out of each call is good. *)
Ltac learn E :=
  match type of E with
  | ?f = (_, ?s) =>
      try (assert (good s) by
        (replace s with (snd f) by (by rewrite E); auto with recv nocore))
  | _ => idtac
  end.
Ltac track :=
  repeat first
    [ eassumption
    | exact I
    | match goal with
      | |- context [match ?x with _ => _ end] =>
          lazymatch x with
          | context [match _ with _ => _ end] => fail
          | _ => let E := fresh "E" in destruct x eqn:E; learn E
          end
      end
    | progress cbn [fst snd good_opt] ];
  auto with recv nocore.

#[local] Hint Resolve rgetc_good put1_good set_diag_good store_good : recv.

Lemma recv_drain_good n : forall st, good st -> good (recv_drain n st).
Proof. induction n as [|n IH]; intros st Hg; cbn [recv_drain]; track. Qed.
#[local] Hint Resolve recv_drain_good : recv.

Lemma wait_hdr_loop_good n : forall ms st, good st -> good (wait_hdr_loop n ms st).2.
Proof.
  induction n as [|n IH]; intros ms st Hg; cbn [wait_hdr_loop]; [done|].
  destruct (rgetc ms st) as [b st1] eqn:E. learn E.
  set (st2 := if b =? YM_IO_TIMEOUT then set_diag (add_timeout (r_diag st1)) st1 else st1).
  assert (good st2) by (unfold st2; case_if; auto). clearbody st2. pose proof (double_can_good st2).
  destruct (is_double_can (r_w st2)) as [can w]. cbn [snd] in *. track.
Qed.

Lemma wait_hdr_good ms st : good st -> good (wait_hdr ms st).2.
Proof. apply wait_hdr_loop_good. Qed.

Lemma read_data_good todo : forall kind seq nseq i n st, good st -> good (read_data todo kind seq nseq i n st).2.
Proof. induction todo as [|todo IH]; intros kind seq nseq i n st Hg; cbn [read_data]; track. Qed.

Lemma read_crc_good todo : forall kind seq nseq i n crc st, good st -> good (read_crc todo kind seq nseq i n crc st).2.
Proof. induction todo as [|todo IH]; intros kind seq nseq i n crc st Hg; cbn [read_crc]; track. Qed.
#[local] Hint Resolve wait_hdr_good read_data_good read_crc_good : recv.

Lemma read_body_good kind st : good st -> good (read_body kind st).2.
Proof. intros Hg. unfold read_body, reject. track. Qed.
#[local] Hint Resolve read_body_good : recv.

Lemma recv_handshake_good fuel : forall tries st, good st -> good_opt (recv_handshake fuel tries st).
Proof. induction fuel as [|fuel IH]; intros tries st Hg; cbn [recv_handshake]; track. Qed.

Lemma next_hdr_good tries : forall prompt st, good st -> good (next_hdr tries prompt st).2.
Proof. induction tries as [|tries IH]; intros prompt st Hg; cbn [next_hdr]; track. Qed.
#[local] Hint Resolve next_hdr_good : recv.

Lemma sink_write_good n st : good st ->
  good (Rst (sink_write (take n (r_data st)) (r_w st)).2 (r_data st) (r_diag st) (r_sink st ++ [Write (take n (r_data st))])).
Proof.
  intros (Hp & Hd & Hl). split; [|done]. apply P_write; [by apply Forall_take|rewrite length_take; lia|done].
Qed.

Lemma sink_begin_good name size st : is_u32 size -> good st ->
  good (Rst (sink_begin name size (r_w st)).2 (r_data st) (r_diag st) (r_sink st ++ [Begin name size])).
Proof. intros Hs (Hp & Hd). split; [by apply P_begin|done]. Qed.

Lemma recv_data_good fuel : forall have_size remaining expect prompt st,
  good st -> good_opt (recv_data fuel have_size remaining expect prompt st).
Proof.
  induction fuel as [|fuel IH]; intros have_size remaining expect prompt st Hg; cbn [recv_data]; [done|].
  destruct (next_hdr YM_BLOCK_RETRIES prompt st) as [h st1] eqn:E. learn E. destruct h as [rc|[kind| | | |]]; try by track.
  destruct (read_body kind st1) as [rc st2] eqn:E2. learn E2. destruct rc as [seq datalen| |]; try by track.
  destruct (seq =? u8 (expect - 1)); [track|]. destruct (negb (seq =? expect)); [done|]. cbv zeta.
  set (take_ := if have_size && (remaining <? Z.of_nat datalen) then remaining else Z.of_nat datalen). clearbody take_.
  pose proof (sink_write_good (Z.to_nat take_) st2).
  destruct (0 <? take_); [destruct (sink_write _ (r_w st2)) as [r w]; cbn [snd] in *|]; track.
Qed.

Lemma recv_close_good fuel : forall tries st, good st -> good_opt (recv_close fuel tries st).
Proof. induction fuel as [|fuel IH]; intros tries st Hg; cbn [recv_close]; track. Qed.

Lemma ym_recv_run_good fuel st : good st -> good_opt (ym_recv_run fuel st).
Proof.
  intros Hg. unfold ym_recv_run. pose proof (recv_handshake_good fuel YM_HANDSHAKE_RETRIES st Hg) as G1.
  destruct (recv_handshake _ _ st) as [[stop st1]|]; [|done]. cbn [mbind option_bind good_opt] in *. destruct stop; [done|].
  destruct (parse_block0 (r_data st1) YM_BLOCK0_LEN) as [[[name size] have_size]|] eqn:Ep; [|done].
  apply parse_block0_range in Ep. destruct name as [|c name]; [track|].
  pose proof (sink_begin_good (c :: name) size st1 Ep G1) as G2. destruct (sink_begin _ size (r_w st1)) as [r w]. cbn [snd] in G2.
  set (st2 := Rst w _ _ _) in *. clearbody st2. destruct (r <? 0); [done|].
  destruct (put1 YM_ACK st2) as [r3 st3] eqn:E3. learn E3. destruct (r3 <? 0); [done|].
  destruct (put1 YM_CRC_C st3) as [r4 st4] eqn:E4. learn E4. destruct (r4 <? 0); [done|].
  pose proof (recv_data_good fuel have_size size 1 YM_CRC_C st4 ltac:(done)) as G5.
  destruct (recv_data _ _ _ _ _ st4) as [[stop st5]|]; [|done]. cbn [mbind option_bind good_opt] in *. destruct stop; [done|].
  destruct (put1 YM_CRC_C st5) as [r6 st6] eqn:E6. learn E6. destruct (r6 <? 0); [done|]. by apply recv_close_good.
Qed.

(** The principle: what holds before the first call holds at the end, of the
    world and the calls made. *)
Lemma sink_tracked fuel w rc st : P w [] -> ymodem_recv fuel w = Some (rc, st) -> P (r_w st) (r_sink st).
Proof.
  intros Hw. unfold ymodem_recv.
  assert (Hg : good (Rst w (replicate YM_DATA_MAX 0) diag_zero [])).
  { split; [done|]. cbn [r_data]. split; [|apply length_replicate]. apply Forall_replicate. unfold is_u8. lia. }
  pose proof (ym_recv_run_good fuel _ Hg) as G. destruct (ym_recv_run fuel _) as [[rc1 st1]|]; [|done].
  cbn [mbind option_bind good_opt] in *. destruct G as (Hp & _). intros [= <- <-]. case_bool_decide; [done|].
  cbn [set_w r_w r_sink]. unfold send_cancel. by apply P_put.
Qed.
End tracked.

(** A block 0 without a size says 0. *)
Lemma undeclared_size d cap name size : parse_block0 d cap = Some (name, size, false) -> size = 0.
Proof.
  assert (Hgen : forall p v h v', block0_size p v h = Some (v', false) -> h = false /\ v' = v).
  { induction p as [|c p IH]; intros v h v' Hp; simpl in Hp; [by simplify_eq|]. case_if_in Hp; [|by simplify_eq].
    case_if_in Hp; [done|]. by apply IH in Hp as [? _]. }
  unfold parse_block0. destruct (block0_name cap (take YM_BLOCK0_LEN d) []) as [nm [|c p]]; [done|].
  destruct (block0_size p 0 false) as [[s h]|] eqn:E; cbn [mbind option_bind]; [|done]. intros [= <- <- ->].
  by apply Hgen in E as [_ ->].
Qed.
