(* ===== verification/Nor.v ===== *)
(** * The external NOR flash driver ([src/port/nor/nor_flash.c])

    Erase, program and read of the W25Q128 over single-line SPI.  The five frame
    functions of the file ([ospi2_cmd] and its kin), which drive the registers of
    the controller, are the interface [Ospi] to controller and chip; [OspiLaws]
    is what the chip's data sheet says of the six instructions.  [NorFlash] with
    [NorLaws] is what the driver promises to the stores above it, and the last
    section discharges it. *)

From S2P Require Import Prelude.
Local Open Scope Z_scope.

Definition NOR_SIZE_BYTES : Z := 16777216.
Definition NOR_SECTOR_SIZE : Z := 4096.
Definition NOR_BLOCK_SIZE : Z := 65536.
Definition NOR_PAGE_SIZE : Z := 256.

Definition NOR_OK : Z := 0.
Definition NOR_ERR_PARAM : Z := -1.
Definition NOR_ERR_IO : Z := -2.
Definition NOR_ERR_TIMEOUT : Z := -3.
Definition NOR_ERR_STATE : Z := -4.
Definition NOR_ERR_BUSY : Z := -5.

(** The addresses of a range, and the ranges of the device. *)
Definition in_range (a n x : Z) : Prop := a <= x < a + n.
Definition on_device (a n : Z) : Prop := 0 <= a /\ 0 < n /\ a + n <= NOR_SIZE_BYTES.

(** ** What the driver promises to its clients *)

(** [cell] is the byte in the array, [quiescent] says that no erase or program
    is in progress inside the chip.  A buffer is the list of the bytes that go
    through it. *)
Class NorFlash (W : Type) := {
  cell : W -> Z -> Z;
  quiescent : W -> Prop;
  flash_ready : W -> bool;
  flash_read : Z -> Z -> W -> Z * list Z * W;
  flash_write : Z -> list Z -> W -> Z * W;
  flash_erase : Z -> Z -> W -> Z * W;
}.

Definition cells {W} `{NorFlash W} (w : W) (a n : Z) : list Z := map (cell w) (seqZ a n).

(** [flash_write] clears bits, [flash_erase] sets bytes to 0xFF; neither, nor a
    failing one, reaches a byte outside its range. *)
Class NorLaws (W : Type) `{NorFlash W} : Prop := {
  cell_u8 w x : is_u8 (cell w x);
  read_law a n w rc d w' : is_u32 a -> is_u32 n -> quiescent w -> flash_read a n w = (rc, d, w') ->
    (forall x, cell w' x = cell w x) /\ quiescent w' /\ flash_ready w' = flash_ready w /\
    (rc = NOR_OK -> on_device a n /\ d = cells w a n);
  write_law a d w rc w' : is_u32 a -> bytes_ok d -> is_u32 (Z.of_nat (length d)) -> quiescent w ->
    flash_write a d w = (rc, w') ->
    (forall x, ~ in_range a (Z.of_nat (length d)) x -> cell w' x = cell w x) /\ flash_ready w' = flash_ready w /\
    (rc = NOR_OK -> on_device a (Z.of_nat (length d)) /\ quiescent w' /\
      forall i b, d !! i = Some b -> cell w (a + Z.of_nat i) = 255 -> cell w' (a + Z.of_nat i) = b);
  erase_law a n w rc w' : is_u32 a -> is_u32 n -> quiescent w -> flash_erase a n w = (rc, w') ->
    (forall x, ~ in_range a n x -> cell w' x = cell w x) /\ flash_ready w' = flash_ready w /\
    (rc = NOR_OK -> on_device a n /\ quiescent w' /\ forall x, in_range a n x -> cell w' x = 255);
}.

(** ** The controller, the chip and the kernel *)

Definition W25_JEDEC_ID : Z := 159.
Definition W25_WREN : Z := 6.
Definition W25_RDSR1 : Z := 5.
Definition W25_SECTOR_ERASE : Z := 32.
Definition W25_BLOCK_ERASE : Z := 216.
Definition W25_SR1_WIP : Z := 1.
Definition W25_SR1_WEL : Z := 2.
Definition W25_MFR_WINBOND : Z := 239.
Definition W25_CAP_128M : Z := 24.
Definition NOR_PP_TIMEOUT_MS : nat := 50.
Definition NOR_SECTOR_TIMEOUT_MS : nat := 600.
Definition NOR_BLOCK_TIMEOUT_MS : nat := 2500.

(** [array] is what the chip's cells hold, [target] what they will hold when the
    operation in progress is over, [idle] whether none is in progress, [wel] its write-enable latch, [depth] how
    often the running thread holds the mutex.  A frame function answers
    [NOR_OK] or [NOR_ERR_IO], and the bytes received. *)
Class Ospi (B : Type) := {
  array : B -> Z -> Z;
  target : B -> Z -> Z;
  idle : B -> bool;
  wel : B -> bool;
  depth : B -> nat;
  ospi2_setup : B -> B;
  ospi2_cmd : Z -> B -> Z * B;
  ospi2_read_reg : Z -> nat -> B -> Z * list Z * B;
  ospi2_fast_read : Z -> Z -> B -> Z * list Z * B;
  ospi2_cmd_addr : Z -> Z -> B -> Z * B;
  ospi2_program : Z -> list Z -> B -> Z * B;
  in_thread : B -> bool;
  in_isr : B -> bool;
  tx_thread_sleep : Z -> B -> B;
  HAL_Delay : Z -> B -> B;
  tx_mutex_create : B -> bool * B;
  tx_mutex_get : option Z -> B -> Z * B;
  tx_mutex_put : B -> Z * B;
}.

Definition TX_SUCCESS : Z := 0.
Definition TX_NOT_AVAILABLE : Z := 29.

(** A step that starts no operation: the target stays, a cell that has reached it
    stays, an idle chip is idle, and so does the mutex. *)
Record calm {B} `{Ospi B} (b b' : B) : Prop := {
  ca_target : forall x, target b' x = target b x;
  ca_array : forall x, array b x = target b x -> array b' x = target b x;
  ca_idle : idle b = true -> idle b' = true;
  ca_depth : depth b' = depth b;
}.

(** A step that can change the bytes of [a, a + n) only. *)
Record within {B} `{Ospi B} (a n : Z) (b b' : B) : Prop := {
  wi_target : forall x, ~ in_range a n x -> target b' x = target b x;
  wi_array : forall x, ~ in_range a n x -> array b x = target b x -> array b' x = target b x;
  wi_depth : depth b' = depth b;
}.

(** The data sheet: a program is confined to its page as long as it does not run
    over the page's end, and takes effect on erased (0xFF) bytes when the chip is idle
    and write enabled; so is an erase to its aligned unit; a clear WIP bit says that the
    operation is over. *)
Class OspiLaws (B : Type) `{Ospi B} : Prop := {
  array_u8 b x : is_u8 (array b x);
  idle_array b x : idle b = true -> array b x = target b x;
  cmd_calm i b : calm b (ospi2_cmd i b).2;
  read_reg_calm i n b : calm b (ospi2_read_reg i n b).2;
  fast_read_calm a n b : calm b (ospi2_fast_read a n b).2;
  sleep_calm ms b : calm b (tx_thread_sleep ms b);
  delay_calm ms b : calm b (HAL_Delay ms b);
  status b d b' : ospi2_read_reg W25_RDSR1 1 b = (NOR_OK, d, b') ->
    exists sr, d = [sr] /\ (Z.land sr W25_SR1_WEL <> 0 -> wel b' = true) /\ (Z.land sr W25_SR1_WIP = 0 -> idle b' = true);
  fast_read_data a n b d b' : on_device a n -> idle b = true -> ospi2_fast_read a n b = (NOR_OK, d, b') ->
    d = map (array b) (seqZ a n);
  program_within a d b : a mod NOR_PAGE_SIZE + Z.of_nat (length d) <= NOR_PAGE_SIZE ->
    within a (Z.of_nat (length d)) b (ospi2_program a d b).2;
  program_data a d b b' : a mod NOR_PAGE_SIZE + Z.of_nat (length d) <= NOR_PAGE_SIZE -> bytes_ok d ->
    idle b = true -> wel b = true -> ospi2_program a d b = (NOR_OK, b') ->
    forall i v, d !! i = Some v -> array b (a + Z.of_nat i) = 255 -> target b' (a + Z.of_nat i) = v;
  sector_within a b : a mod NOR_SECTOR_SIZE = 0 -> within a NOR_SECTOR_SIZE b (ospi2_cmd_addr W25_SECTOR_ERASE a b).2;
  sector_blank a b b' x : a mod NOR_SECTOR_SIZE = 0 -> idle b = true -> wel b = true ->
    ospi2_cmd_addr W25_SECTOR_ERASE a b = (NOR_OK, b') -> in_range a NOR_SECTOR_SIZE x -> target b' x = 255;
  block_within a b : a mod NOR_BLOCK_SIZE = 0 -> within a NOR_BLOCK_SIZE b (ospi2_cmd_addr W25_BLOCK_ERASE a b).2;
  block_blank a b b' x : a mod NOR_BLOCK_SIZE = 0 -> idle b = true -> wel b = true ->
    ospi2_cmd_addr W25_BLOCK_ERASE a b = (NOR_OK, b') -> in_range a NOR_BLOCK_SIZE x -> target b' x = 255;
  get_keeps t b rc b' : tx_mutex_get t b = (rc, b') ->
    (forall x, array b' x = array b x) /\ (forall x, target b' x = target b x) /\ idle b' = idle b /\
    depth b' = if rc =? TX_SUCCESS then S (depth b) else depth b;
  put_keeps b : (forall x, array (tx_mutex_put b).2 x = array b x) /\ (forall x, target (tx_mutex_put b).2 x = target b x) /\
    idle (tx_mutex_put b).2 = idle b /\ depth (tx_mutex_put b).2 = pred (depth b);
}.

(** ** The driver *)

Section driver.
Context {B : Type} `{Ospi B}.

(** The file's static variables. *)
Record nst : Type := Nst { bus : B; nor_up : bool; nor_id : list Z; nor_mutex_ready : bool }.
Definition set_bus (b : B) (s : nst) : nst := Nst b (nor_up s) (nor_id s) (nor_mutex_ready s).

Definition nor_sleep_ms (ms : Z) (b : B) : B :=
  if negb (in_isr b) && in_thread b then tx_thread_sleep ms b else HAL_Delay ms b.

(** [timeout_ms - waited] milliseconds are left. *)
Fixpoint nor_wait_wip (remaining : nat) (b : B) : Z * B :=
  let '(rc, d, b) := ospi2_read_reg W25_RDSR1 1 b in
  if negb (rc =? NOR_OK) then (rc, b)
  else if Z.land (nth 0 d 0) W25_SR1_WIP =? 0 then (NOR_OK, b)
  else match remaining with
  | O => (NOR_ERR_TIMEOUT, b)
  | S remaining => nor_wait_wip remaining (nor_sleep_ms 1 b)
  end.

Definition nor_write_enable (b : B) : Z * B :=
  let '(rc, b) := ospi2_cmd W25_WREN b in
  if negb (rc =? NOR_OK) then (rc, b)
  else
    let '(rc, d, b) := ospi2_read_reg W25_RDSR1 1 b in
    if negb (rc =? NOR_OK) then (rc, b)
    else (if Z.land (nth 0 d 0) W25_SR1_WEL =? 0 then NOR_ERR_IO else NOR_OK, b).

(** The three steps of an operation that changes the array; each runs if the one
    before it succeeded. *)
Definition guarded_op (op : B -> Z * B) (timeout_ms : nat) (b : B) : Z * B :=
  let '(rc, b) := nor_write_enable b in
  let '(rc, b) := if rc =? NOR_OK then op b else (rc, b) in
  if rc =? NOR_OK then nor_wait_wip timeout_ms b else (rc, b).

Definition nor_wait_idle_at_boot (b : B) : B :=
  let '(rc, d, b) := ospi2_read_reg W25_RDSR1 1 b in
  if negb (rc =? NOR_OK) || (nth 0 d 0 =? 255) then b
  else if Z.land (nth 0 d 0) W25_SR1_WIP =? 0 then b
  else (nor_wait_wip NOR_BLOCK_TIMEOUT_MS b).2.

Definition nor_flash_init (s : nst) : Z * nst :=
  let b := nor_wait_idle_at_boot (ospi2_setup (bus s)) in
  let '(rc, id, b) := ospi2_read_reg W25_JEDEC_ID 3 b in
  if negb (rc =? NOR_OK) then (NOR_ERR_STATE, Nst b false (nor_id s) (nor_mutex_ready s))
  else if negb (nth 0 id 0 =? W25_MFR_WINBOND) || negb (nth 2 id 0 =? W25_CAP_128M)
  then (NOR_ERR_STATE, Nst b false id (nor_mutex_ready s))
  else (NOR_OK, Nst b true id (nor_mutex_ready s)).

Definition nor_flash_ready (s : nst) : bool := nor_up s.

Definition nor_flash_lock_init (s : nst) : Z * nst :=
  if nor_mutex_ready s then (NOR_OK, s)
  else
    let '(ok, b) := tx_mutex_create (bus s) in
    if negb ok then (NOR_ERR_STATE, set_bus b s) else (NOR_OK, Nst b (nor_up s) (nor_id s) true).

Definition nor_lock_blocking (s : nst) : Z * nst :=
  if negb (nor_mutex_ready s) then (NOR_OK, s)
  else if in_isr (bus s) then (NOR_ERR_STATE, s)
  else
    let '(rc, b) := tx_mutex_get None (bus s) in
    (if rc =? TX_SUCCESS then NOR_OK else NOR_ERR_STATE, set_bus b s).

Definition nor_trylock (timeout_ticks : Z) (s : nst) : Z * nst :=
  if negb (nor_mutex_ready s) then (NOR_OK, s)
  else if in_isr (bus s) then (NOR_ERR_STATE, s)
  else
    let '(rc, b) := tx_mutex_get (Some timeout_ticks) (bus s) in
    (if rc =? TX_SUCCESS then NOR_OK else if rc =? TX_NOT_AVAILABLE then NOR_ERR_BUSY else NOR_ERR_STATE, set_bus b s).

Definition nor_unlock (s : nst) : nst :=
  if negb (nor_mutex_ready s) then s else set_bus (tx_mutex_put (bus s)).2 s.

Definition nor_op_begin (s : nst) : Z * nst :=
  if negb (nor_up s) then (NOR_ERR_STATE, s) else nor_lock_blocking s.

(** [addr >= NOR_SIZE_BYTES || len > NOR_SIZE_BYTES - addr]. *)
Definition off_device (addr len : Z) : bool := (NOR_SIZE_BYTES <=? addr) || (NOR_SIZE_BYTES -% addr <? len).

(** [buf] says that the pointer is not NULL; the bytes put there are answered. *)
Definition nor_read (addr : Z) (buf : bool) (len : Z) (s : nst) : Z * list Z * nst :=
  if negb buf || (len =? 0) || off_device addr len then (NOR_ERR_PARAM, [], s)
  else
    let '(rc, s) := nor_op_begin s in
    if negb (rc =? NOR_OK) then (rc, [], s)
    else
      let '(rc, d, b) := ospi2_fast_read addr len (bus s) in
      (rc, d, nor_unlock (set_bus b s)).

(** The length of the next program: up to the end of the page, or of the data. *)
Definition page_chunk (addr len done : Z) : Z :=
  let page_off := Z.land (addr +% done) (NOR_PAGE_SIZE - 1) in
  let chunk := NOR_PAGE_SIZE -% page_off in
  if (len -% done) <? chunk then len -% done else chunk.

Fixpoint write_loop (fuel : nat) (addr : Z) (src : list Z) (done : Z) (b : B) : option (Z * B) :=
  match fuel with
  | O => None
  | S k =>
      let len := Z.of_nat (length src) in
      if len <=? done then Some (NOR_OK, b)
      else
        let chunk := page_chunk addr len done in
        let '(rc, b) :=
          guarded_op (ospi2_program (addr +% done) (slice (Z.to_nat done) (Z.to_nat chunk) src)) NOR_PP_TIMEOUT_MS b in
        if negb (rc =? NOR_OK) then Some (rc, b) else write_loop k addr src (done +% chunk) b
  end.

(** [buf] is [None] for a NULL pointer, and otherwise its [len] bytes. *)
Definition nor_write (addr : Z) (buf : option (list Z)) (s : nst) : option (Z * nst) :=
  match buf with
  | None => Some (NOR_ERR_PARAM, s)
  | Some src =>
      let len := Z.of_nat (length src) in
      if (len =? 0) || off_device addr len then Some (NOR_ERR_PARAM, s)
      else
        let '(rc, s) := nor_op_begin s in
        if negb (rc =? NOR_OK) then Some (rc, s)
        else '(rc, b) ← write_loop (S (length src)) addr src 0 (bus s); Some (rc, nor_unlock (set_bus b s))
  end.

Fixpoint erase_loop (fuel : nat) (off stop : Z) (b : B) : option (Z * B) :=
  match fuel with
  | O => None
  | S k =>
      if stop <=? off then Some (NOR_OK, b)
      else
        let block := (off mod NOR_BLOCK_SIZE =? 0) && (NOR_BLOCK_SIZE <=? (stop -% off)) in
        let step := if block then NOR_BLOCK_SIZE else NOR_SECTOR_SIZE in
        let '(rc, b) :=
          guarded_op (ospi2_cmd_addr (if block then W25_BLOCK_ERASE else W25_SECTOR_ERASE) off)
            (if block then NOR_BLOCK_TIMEOUT_MS else NOR_SECTOR_TIMEOUT_MS) b in
        if negb (rc =? NOR_OK) then Some (rc, b) else erase_loop k (off +% step) stop b
  end.

Definition nor_erase (addr len : Z) (s : nst) : option (Z * nst) :=
  if (len =? 0) || off_device addr len then Some (NOR_ERR_PARAM, s)
  else if negb (addr mod NOR_SECTOR_SIZE =? 0) || negb (len mod NOR_SECTOR_SIZE =? 0) then Some (NOR_ERR_PARAM, s)
  else
    let '(rc, s) := nor_op_begin s in
    if negb (rc =? NOR_OK) then Some (rc, s)
    else
      '(rc, b) ← erase_loop (S (Z.to_nat (len / NOR_SECTOR_SIZE))) addr (addr +% len) (bus s);
      Some (rc, nor_unlock (set_bus b s)).
End driver.
Arguments nst : clear implicits.

(** ** What the steps do *)

Section steps.
Context {B : Type} `{OL : OspiLaws B}.
Implicit Types (b : B) (s : nst B).

Lemma calm_refl b : calm b b.
Proof. by split. Qed.

Lemma calm_trans b1 b2 b3 : calm b1 b2 -> calm b2 b3 -> calm b1 b3.
Proof.
  intros [T1 A1 I1 D1] [T2 A2 I2 D2]. split; [by intros; rewrite T2| |auto|congruence].
  intros x Hx. rewrite <-T1. apply A2. by rewrite T1, A1.
Qed.

Lemma calm_idle b b' : calm b b' -> idle b = true -> idle b' = true /\ forall x, array b' x = array b x.
Proof.
  intros [T A I _] Hs. split; [by apply I|]. intros x. rewrite (idle_array b x Hs). apply A. by apply idle_array.
Qed.

Lemma calm_within a n b b' : calm b b' -> within a n b b'.
Proof. intros [T A _ D]. split; auto. Qed.

Lemma within_trans a n b1 b2 b3 : within a n b1 b2 -> within a n b2 b3 -> within a n b1 b3.
Proof.
  intros [T1 A1 D1] [T2 A2 D2]. split; [intros; by rewrite T2, T1| |congruence].
  intros x Hx E. rewrite <-T1 by done. apply A2; [done|]. by rewrite T1, A1.
Qed.

Lemma within_mono a n a' n' b b' : a' <= a -> a + n <= a' + n' -> within a n b b' -> within a' n' b b'.
Proof.
  intros Hl Hr [T A D]. assert (Hout : forall x, ~ in_range a' n' x -> ~ in_range a n x) by (unfold in_range; lia).
  split; auto.
Qed.

(** What a range's step leaves alone, from an idle chip. *)
Lemma within_array a n b b' x : within a n b b' -> idle b = true -> ~ in_range a n x -> array b' x = array b x.
Proof. intros [_ A _] Hs Hx. rewrite (idle_array b x Hs). apply A; [done|]. by apply idle_array. Qed.

Lemma nor_sleep_calm ms b : calm b (nor_sleep_ms ms b).
Proof. unfold nor_sleep_ms. case_if; [apply sleep_calm|apply delay_calm]. Qed.

Lemma wait_wip_spec n b rc b' : nor_wait_wip n b = (rc, b') -> calm b b' /\ (rc = NOR_OK -> idle b' = true).
Proof.
  revert b; induction n as [|n IH]; intros b; simpl; destruct (ospi2_read_reg W25_RDSR1 1 b) as [[r d] b1] eqn:E;
    pose proof (read_reg_calm W25_RDSR1 1 b) as Hc; rewrite E in Hc; simpl in Hc;
    (destruct (Z.eqb_spec r NOR_OK) as [->|Hr]; cbn [negb]; [|by intros [= <- <-]]);
    destruct (status _ _ _ E) as (sr & -> & _ & Hwip); cbn [nth];
    (destruct (Z.eqb_spec (Z.land sr W25_SR1_WIP) 0); [intros [= <- <-]; auto|]).
  - by intros [= <- <-].
  - intros Hw. destruct (IH _ Hw) as [Hc' Hs]. split; [|done].
    eapply calm_trans; [exact Hc|]. eapply calm_trans; [apply nor_sleep_calm|done].
Qed.

Lemma write_enable_spec b rc b' : nor_write_enable b = (rc, b') -> calm b b' /\ (rc = NOR_OK -> wel b' = true).
Proof.
  unfold nor_write_enable. destruct (ospi2_cmd W25_WREN b) as [r b1] eqn:E1.
  pose proof (cmd_calm W25_WREN b) as C1. rewrite E1 in C1. simpl in C1.
  destruct (Z.eqb_spec r NOR_OK) as [->|]; cbn [negb]; [|by intros [= <- <-]].
  destruct (ospi2_read_reg W25_RDSR1 1 b1) as [[r d] b2] eqn:E2.
  pose proof (read_reg_calm W25_RDSR1 1 b1) as C2. rewrite E2 in C2. simpl in C2.
  pose proof (calm_trans _ _ _ C1 C2). destruct (Z.eqb_spec r NOR_OK) as [->|]; cbn [negb]; [|by intros [= <- <-]].
  destruct (status _ _ _ E2) as (sr & -> & Hwel & _). cbn [nth].
  destruct (Z.eqb_spec (Z.land sr W25_SR1_WEL) 0); intros [= <- <-]; auto.
Qed.

(** An operation confined to a range: so are the three steps; and when they
    succeed, it ran on a write-enabled chip and is over. *)
Lemma guarded_op_spec a n op t b rc b' :
  (forall b, within a n b (op b).2) -> guarded_op op t b = (rc, b') ->
  within a n b b' /\
  (rc = NOR_OK -> idle b' = true /\ exists b1 b2, calm b b1 /\ wel b1 = true /\ op b1 = (NOR_OK, b2) /\ calm b2 b').
Proof.
  intros Hop. unfold guarded_op. destruct (nor_write_enable b) as [r1 b1] eqn:E1.
  apply write_enable_spec in E1 as [C1 Hwel].
  destruct (Z.eqb_spec r1 NOR_OK) as [->|H1].
  2:{ rewrite (proj2 (Z.eqb_neq _ _) H1). intros [= <- <-]. split; [by apply calm_within|done]. }
  destruct (op b1) as [r2 b2] eqn:E2. specialize (Hop b1). rewrite E2 in Hop. simpl in Hop.
  pose proof (within_trans _ _ _ _ _ (calm_within a n _ _ C1) Hop) as W2.
  destruct (Z.eqb_spec r2 NOR_OK) as [->|H2]; [|by intros [= <- <-]].
  intros E3. apply wait_wip_spec in E3 as [C3 Hs]. split; [by eapply within_trans; [|apply calm_within]|].
  intros ->. split; [auto|]. exists b1, b2. auto.
Qed.

(** *** Write *)

Lemma page_chunk_spec addr len done :
  0 <= addr -> 0 <= done < len -> addr + len <= NOR_SIZE_BYTES ->
  let chunk := page_chunk addr len done in
  1 <= chunk <= len - done /\ (addr + done) mod NOR_PAGE_SIZE + chunk <= NOR_PAGE_SIZE /\
  u32 (addr + done) = addr + done /\ u32 (done + chunk) = done + chunk.
Proof.
  unfold NOR_SIZE_BYTES. intros Ha Hd Hl. unfold page_chunk. change (NOR_PAGE_SIZE - 1) with 255.
  rewrite land_255, (u32_small (addr + done)) by (unfold is_u32; lia).
  pose proof (Z.mod_pos_bound (addr + done) 256 ltac:(lia)). unfold NOR_PAGE_SIZE in *.
  rewrite (u32_small (256 - _)), (u32_small (len - done)) by (unfold is_u32; lia).
  cbv zeta. destruct (Z.ltb_spec (len - done) (256 - (addr + done) mod 256)); rewrite u32_small by (unfold is_u32; lia); lia.
Qed.

Lemma write_loop_spec addr src fuel done b :
  0 <= addr -> addr + Z.of_nat (length src) <= NOR_SIZE_BYTES -> bytes_ok src ->
  0 <= done <= Z.of_nat (length src) -> (Z.to_nat (Z.of_nat (length src) - done) < fuel)%nat ->
  exists rc b', write_loop fuel addr src done b = Some (rc, b') /\
    within (addr + done) (Z.of_nat (length src) - done) b b' /\
    (rc = NOR_OK -> idle b = true -> idle b' = true /\
      forall i v, done <= Z.of_nat i -> src !! i = Some v ->
        array b (addr + Z.of_nat i) = 255 -> array b' (addr + Z.of_nat i) = v).
Proof.
  intros Ha Hl Hsrc. revert done b. induction fuel as [|fuel IH]; intros done b Hd Hf; [lia|]. cbn [write_loop].
  destruct (Z.leb_spec (Z.of_nat (length src)) done).
  { do 2 eexists. split; [done|]. split; [apply calm_within, calm_refl|]. intros _ Hs. split; [done|].
    intros i v Hi E%lookup_lt_Some. lia. }
  destruct (page_chunk_spec addr (Z.of_nat (length src)) done) as (Hc1 & Hc2 & Ea & Ed); [lia..|].
  set (chunk := page_chunk addr (Z.of_nat (length src)) done) in *. rewrite Ea, Ed. set (a := addr + done) in *.
  set (d := slice (Z.to_nat done) (Z.to_nat chunk) src).
  assert (Hdl : Z.of_nat (length d) = chunk) by (unfold d; rewrite length_slice; lia).
  assert (Hdb : bytes_ok d) by by apply Forall_take, Forall_drop.
  destruct (guarded_op _ _ b) as [rc b1] eqn:E.
  apply (guarded_op_spec a chunk) in E as [W1 Hok].
  2:{ intros b0. rewrite <-Hdl. apply program_within. lia. }
  assert (W1' : within a (Z.of_nat (length src) - done) b b1) by (eapply within_mono; [..|exact W1]; lia).
  destruct (Z.eqb_spec rc NOR_OK) as [->|Hrc]; cbn [negb]; [|by do 2 eexists; split_and!].
  destruct (Hok eq_refl) as (S1 & b2 & b3 & C2 & Hwel & Hprog & C3).
  destruct (IH (done + chunk) b1) as (rc & b' & -> & W2 & Hrest); [lia..|].
  do 2 eexists. split; [done|]. split; [eapply within_trans; [exact W1'|]; eapply within_mono; [..|exact W2]; lia|].
  intros -> Hs. destruct (Hrest eq_refl S1) as [S' Hdata]. split; [done|]. intros i v Hi Hv Hblank.
  destruct (Z.le_gt_cases (done + chunk) (Z.of_nat i)) as [Hge|Hlt].
  - apply (Hdata i v); [done..|]. rewrite <-Hblank. eapply within_array; [exact W1|done|]. unfold in_range. lia.
  - assert (Hdv : d !! (i - Z.to_nat done)%nat = Some v).
    { unfold d. rewrite lookup_slice, decide_True by lia. rewrite <-Hv. f_equal. lia. }
    destruct (calm_idle _ _ C2 Hs) as [S2 A2].
    rewrite (within_array _ _ _ _ _ W2 S1) by (unfold in_range; lia). rewrite (idle_array b1 _ S1), (ca_target _ _ C3).
    replace (addr + Z.of_nat i) with (a + Z.of_nat (i - Z.to_nat done)) by lia.
    assert (Hpage : a mod NOR_PAGE_SIZE + Z.of_nat (length d) <= NOR_PAGE_SIZE) by lia.
    apply (program_data _ _ _ _ Hpage Hdb S2 Hwel Hprog _ _ Hdv). rewrite A2, <-Hblank. f_equal. lia.
Qed.

(** *** Erase *)

(** One erase of a block or a sector. *)
Lemma erase_step_spec (block : bool) off b :
  let step := if block then NOR_BLOCK_SIZE else NOR_SECTOR_SIZE in
  let op := ospi2_cmd_addr (if block then W25_BLOCK_ERASE else W25_SECTOR_ERASE) off in
  off mod step = 0 ->
  within off step b (op b).2 /\
  forall b', idle b = true -> wel b = true -> op b = (NOR_OK, b') -> forall x, in_range off step x -> target b' x = 255.
Proof.
  destruct block; intros step op Ho; (split; [by (apply block_within || apply sector_within)|]); intros b' Hs Hw E x.
  - by apply (block_blank off b).
  - by apply (sector_blank off b).
Qed.

Lemma multiple_of k x : 0 < k -> x mod k = 0 -> exists q, x = q * k.
Proof. intros Hk H0. exists (x / k). rewrite (Z.div_mod x k) at 1 by lia. lia. Qed.

(** The unit chosen by the loop is aligned and fits what is left. *)
Definition erase_unit (off stop : Z) : Z :=
  if (off mod NOR_BLOCK_SIZE =? 0) && (NOR_BLOCK_SIZE <=? stop - off) then NOR_BLOCK_SIZE else NOR_SECTOR_SIZE.

Lemma erase_unit_spec off stop :
  off mod NOR_SECTOR_SIZE = 0 -> stop mod NOR_SECTOR_SIZE = 0 -> off < stop ->
  off mod erase_unit off stop = 0 /\ 4096 <= erase_unit off stop <= stop - off /\
  (off + erase_unit off stop) mod NOR_SECTOR_SIZE = 0.
Proof.
  unfold erase_unit, NOR_SECTOR_SIZE, NOR_BLOCK_SIZE. intros [p ->]%multiple_of [q ->]%multiple_of Hlt; [|done..].
  assert (Hn : forall k, (p * 4096 + k * 4096) mod 4096 = 0) by (intros k; rewrite <-Z.mul_add_distr_r; by apply Z.mod_mul).
  destruct (Z.eqb_spec (p * 4096 mod 65536) 0) as [E|_], (Z.leb_spec 65536 (q * 4096 - p * 4096)); cbn [andb];
    (split; [done || by apply Z.mod_mul|]); (split; [lia|]); by apply (Hn 16) || apply (Hn 1).
Qed.

Lemma erase_loop_spec stop fuel off b :
  stop mod NOR_SECTOR_SIZE = 0 -> stop <= NOR_SIZE_BYTES ->
  off mod NOR_SECTOR_SIZE = 0 -> 0 <= off <= stop -> stop - off < Z.of_nat fuel * 4096 ->
  exists rc b', erase_loop fuel off stop b = Some (rc, b') /\ within off (stop - off) b b' /\
    (rc = NOR_OK -> idle b = true -> idle b' = true /\ forall x, in_range off (stop - off) x -> array b' x = 255).
Proof.
  unfold NOR_SIZE_BYTES. intros Hst Hsz. revert off b. induction fuel as [|fuel IH]; intros off b Hom Ho Hf; [lia|].
  cbn [erase_loop]. destruct (Z.leb_spec stop off).
  { do 2 eexists. split; [done|]. split; [apply calm_within, calm_refl|]. intros _ Hs. split; [done|]. unfold in_range. lia. }
  rewrite (u32_small (stop - off)) by (unfold is_u32; lia).
  destruct (erase_unit_spec off stop) as (Hm & Hle & Hnext); [done..|].
  unfold erase_unit in *. set (block := (off mod NOR_BLOCK_SIZE =? 0) && (NOR_BLOCK_SIZE <=? stop - off)) in *.
  set (step := if block then NOR_BLOCK_SIZE else NOR_SECTOR_SIZE) in *.
  pose proof (fun b0 => erase_step_spec block off b0 Hm) as Hstep. fold step in Hstep. cbv zeta in Hstep.
  clearbody step block. destruct (guarded_op _ _ b) as [rc b1] eqn:E.
  apply (guarded_op_spec off step) in E as [W1 Hok]; [|apply Hstep].
  assert (W1' : within off (stop - off) b b1) by (eapply within_mono; [..|exact W1]; lia).
  destruct (Z.eqb_spec rc NOR_OK) as [->|Hrc]; cbn [negb]; [|by do 2 eexists; split_and!].
  destruct (Hok eq_refl) as (S1 & b2 & b3 & C2 & Hwel & Her & C3).
  rewrite (u32_small (off + step)).
  2:{ clear -Hle Hsz Ho. unfold is_u32. lia. }
  destruct (IH (off + step) b1) as (rc & b' & -> & W2 & Hrest); [done|clear -Hle Ho; lia|clear -Hle Hf; lia|].
  clear IH Hf Hnext Hom Hst.
  do 2 eexists. split; [done|]. split; [eapply within_trans; [exact W1'|]; eapply within_mono; [..|exact W2]; lia|].
  intros -> Hs. destruct (Hrest eq_refl S1) as [S' Hdata]. split; [done|]. intros x Hx.
  destruct (Z.le_gt_cases (off + step) x); [apply Hdata; unfold in_range in *; lia|].
  rewrite (within_array _ _ _ _ _ W2 S1) by (unfold in_range; lia). rewrite (idle_array b1 _ S1), (ca_target _ _ C3).
  apply (proj2 (Hstep b2) b3); [exact (proj1 (calm_idle _ _ C2 Hs))|done|done|unfold in_range in *; lia].
Qed.

(** *** The lock around an operation *)

Definition static s : bool * list Z * bool := (nor_up s, nor_id s, nor_mutex_ready s).

(** The same chip, driver variables as before. *)
Definition same_chip s s' : Prop :=
  static s' = static s /\ (forall x, array (bus s') x = array (bus s) x) /\ (forall x, target (bus s') x = target (bus s) x) /\
  idle (bus s') = idle (bus s).

Lemma same_chip_idle s s' : same_chip s s' -> idle (bus s) = true -> idle (bus s') = true.
Proof. by intros (_ & _ & _ & ->). Qed.

Lemma lock_blocking_spec s rc s' : nor_lock_blocking s = (rc, s') ->
  same_chip s s' /\
  depth (bus s') = if (rc =? NOR_OK) && nor_mutex_ready s then S (depth (bus s)) else depth (bus s).
Proof.
  unfold nor_lock_blocking. destruct (nor_mutex_ready s) eqn:Er; cbn [negb]; [|by intros [= <- <-]].
  case_if; [by intros [= <- <-]|]. destruct (tx_mutex_get None (bus s)) as [r b] eqn:Eg.
  destruct (get_keeps _ _ _ _ Eg) as (A & T & I & D). intros [= <- <-]. split; [done|]. cbn [bus set_bus].
  rewrite D, andb_true_r. by destruct (r =? TX_SUCCESS).
Qed.

Lemma op_begin_spec s rc s' : nor_op_begin s = (rc, s') ->
  same_chip s s' /\ (rc = NOR_OK -> nor_up s = true) /\
  depth (bus s') = if (rc =? NOR_OK) && nor_mutex_ready s then S (depth (bus s)) else depth (bus s).
Proof.
  unfold nor_op_begin. destruct (nor_up s) eqn:Eu; cbn [negb]; [|by intros [= <- <-]].
  intros [C D]%lock_blocking_spec. auto.
Qed.

(** An operation under the lock: after it, the mutex is held as often as before. *)
Lemma unlock_spec s s1 b : same_chip s s1 ->
  depth b = (if nor_mutex_ready s then S (depth (bus s)) else depth (bus s)) ->
  let s' := nor_unlock (set_bus b s1) in
  static s' = static s /\ depth (bus s') = depth (bus s) /\
  (forall x, array (bus s') x = array b x) /\ (forall x, target (bus s') x = target b x).
Proof.
  intros (Es & _) D. assert (Er : nor_mutex_ready s1 = nor_mutex_ready s) by by injection Es.
  unfold nor_unlock. cbn [nor_mutex_ready set_bus]. rewrite Er. destruct (nor_mutex_ready s); cbn [negb bus set_bus]; [|done].
  destruct (put_keeps b) as (A & T & _ & Dp). by rewrite Dp, D.
Qed.

Lemma off_device_spec addr len : is_u32 addr -> is_u32 len -> len <> 0 ->
  off_device addr len = false <-> on_device addr len.
Proof. unfold off_device, on_device, NOR_SIZE_BYTES. intros Ha Hl H0. warith. Qed.

(** What any of the three operations leaves as it was: the driver's variables,
    the lock, the bytes outside the range. *)
Record keeps (a n : Z) s s' : Prop := {
  ke_static : static s' = static s;
  ke_depth : depth (bus s') = depth (bus s);
  ke_array : forall x, ~ in_range a n x -> array (bus s') x = array (bus s) x;
}.

Lemma keeps_same a n s : keeps a n s s.
Proof. done. Qed.

Lemma keeps_chip a n s s' : same_chip s s' -> depth (bus s') = depth (bus s) -> keeps a n s s'.
Proof. intros (E & A & _) D. by split. Qed.

(** The body of an operation between the lock and the unlock. *)
Lemma keeps_op a n s s1 b : same_chip s s1 -> idle (bus s) = true ->
  depth (bus s1) = (if nor_mutex_ready s then S (depth (bus s)) else depth (bus s)) ->
  within a n (bus s1) b -> keeps a n s (nor_unlock (set_bus b s1)).
Proof.
  intros C Hs D W. destruct (unlock_spec s s1 b C) as (E & Dp & A & T); [by rewrite (wi_depth _ _ _ _ W)|].
  split; [done|done|]. intros x Hx. rewrite A, (within_array _ _ _ _ _ W) by (eauto using same_chip_idle).
  apply C.
Qed.

Lemma unlock_chip s s1 b : same_chip s s1 -> idle b = true -> idle (bus (nor_unlock (set_bus b s1))) = true /\
  forall x, array (bus (nor_unlock (set_bus b s1))) x = array b x.
Proof.
  intros C Hs. unfold nor_unlock. case_if; [done|]. cbn [bus set_bus]. destruct (put_keeps b) as (A & _ & I & _). by rewrite I.
Qed.

(** *** The three operations *)

Lemma nor_write_spec addr src s :
  is_u32 addr -> bytes_ok src -> is_u32 (Z.of_nat (length src)) -> idle (bus s) = true ->
  exists rc s', nor_write addr (Some src) s = Some (rc, s') /\ keeps addr (Z.of_nat (length src)) s s' /\
    (rc = NOR_OK -> on_device addr (Z.of_nat (length src)) /\ idle (bus s') = true /\
      forall i v, src !! i = Some v -> array (bus s) (addr + Z.of_nat i) = 255 -> array (bus s') (addr + Z.of_nat i) = v).
Proof.
  intros Ha Hsrc Hl Hs. unfold nor_write. destruct (Z.eqb_spec (Z.of_nat (length src)) 0) as [|H0]; cbn [orb].
  { do 2 eexists. split; [done|]. split; [apply keeps_same|done]. }
  destruct (off_device addr (Z.of_nat (length src))) eqn:Eo.
  { do 2 eexists. split; [done|]. split; [apply keeps_same|done]. }
  apply off_device_spec in Eo; [|done..]. pose proof Eo as (Hp & _ & Hfit).
  destruct (nor_op_begin s) as [rc s1] eqn:Eb. apply op_begin_spec in Eb as (C & _ & D).
  destruct (Z.eqb_spec rc NOR_OK) as [->|Hrc]; cbn [negb andb] in *.
  2:{ do 2 eexists. split; [done|]. split; [by apply keeps_chip|done]. }
  destruct (write_loop_spec addr src (S (length src)) 0 (bus s1)) as (rc & b & -> & W & Hok);
    [done|done|done|lia|lia|].
  rewrite Z.add_0_r, Z.sub_0_r in W. cbn [mbind option_bind]. do 2 eexists. split; [done|].
  split; [by eapply keeps_op|]. intros Hrc.
  destruct (Hok Hrc (same_chip_idle _ _ C Hs)) as [Sb Hdata]. destruct (unlock_chip s s1 b C Sb) as [S' A'].
  split; [done|]. split; [done|]. intros i v Hv Hb. rewrite A'. apply Hdata; [lia|done|]. rewrite <-Hb. apply C.
Qed.

Lemma nor_erase_spec addr len s :
  is_u32 addr -> is_u32 len -> idle (bus s) = true ->
  exists rc s', nor_erase addr len s = Some (rc, s') /\ keeps addr len s s' /\
    (rc = NOR_OK -> on_device addr len /\ addr mod NOR_SECTOR_SIZE = 0 /\ len mod NOR_SECTOR_SIZE = 0 /\
      idle (bus s') = true /\ forall x, in_range addr len x -> array (bus s') x = 255).
Proof.
  intros Ha Hl Hs. unfold nor_erase. destruct (Z.eqb_spec len 0) as [|H0]; cbn [orb].
  { do 2 eexists. split; [done|]. split; [apply keeps_same|done]. }
  destruct (off_device addr len) eqn:Eo.
  { do 2 eexists. split; [done|]. split; [apply keeps_same|done]. }
  apply off_device_spec in Eo; [|done..]. pose proof Eo as (Hp & Hpos & Hfit). unfold NOR_SIZE_BYTES in Hfit.
  destruct (Z.eqb_spec (addr mod NOR_SECTOR_SIZE) 0) as [Hma|], (Z.eqb_spec (len mod NOR_SECTOR_SIZE) 0) as [Hml|];
    cbn [negb orb]; try by (do 2 eexists; split; [done|]; split; [apply keeps_same|done]).
  destruct (nor_op_begin s) as [rc s1] eqn:Eb. apply op_begin_spec in Eb as (C & _ & D).
  destruct (Z.eqb_spec rc NOR_OK) as [->|Hrc]; cbn [negb andb] in *.
  2:{ do 2 eexists. split; [done|]. split; [by apply keeps_chip|done]. }
  rewrite u32_small by (clear -Hfit Hp Hpos; unfold is_u32; lia).
  destruct (erase_loop_spec (addr + len) (S (Z.to_nat (len / NOR_SECTOR_SIZE))) addr (bus s1)) as (rc & b & -> & W & Hok);
    [|done|done|clear -Hp Hpos; lia| |].
  { rewrite Z.add_mod, Hma, Hml by done. done. }
  { pose proof (Z.div_mod len NOR_SECTOR_SIZE ltac:(done)) as Hd. rewrite Hml in Hd.
    pose proof (Z.div_pos len NOR_SECTOR_SIZE ltac:(lia) ltac:(done)). unfold NOR_SECTOR_SIZE in *. lia. }
  replace (addr + len - addr) with len in * by lia. cbn [mbind option_bind]. do 2 eexists. split; [done|].
  split; [by eapply keeps_op|]. intros Hrc.
  destruct (Hok Hrc (same_chip_idle _ _ C Hs)) as [Sb Hdata]. destruct (unlock_chip s s1 b C Sb) as [S' A'].
  split_and!; try done. intros x Hx. rewrite A'. by apply Hdata.
Qed.

Lemma nor_read_spec addr len s rc d s' :
  is_u32 addr -> is_u32 len -> idle (bus s) = true -> nor_read addr true len s = (rc, d, s') ->
  keeps 0 0 s s' /\ idle (bus s') = true /\
  (rc = NOR_OK -> on_device addr len /\ d = map (array (bus s)) (seqZ addr len)).
Proof.
  intros Ha Hl Hs. unfold nor_read. cbn [negb orb]. destruct (Z.eqb_spec len 0) as [|H0]; cbn [orb]; [by intros [= <- <- <-]|].
  destruct (off_device addr len) eqn:Eo; [by intros [= <- <- <-]|]. apply off_device_spec in Eo; [|done..].
  destruct (nor_op_begin s) as [r s1] eqn:Eb. apply op_begin_spec in Eb as (C & _ & D).
  destruct (Z.eqb_spec r NOR_OK) as [->|Hr]; cbn [negb andb] in *.
  2:{ intros [= <- <- <-]. split; [by apply keeps_chip|]. split; [by eapply same_chip_idle|done]. }
  destruct (ospi2_fast_read addr len (bus s1)) as [[r d1] b] eqn:Er. intros [= <- <- <-].
  pose proof (same_chip_idle _ _ C Hs) as S1.
  pose proof (fast_read_calm addr len (bus s1)) as Cb. rewrite Er in Cb. simpl in Cb.
  destruct (calm_idle _ _ Cb S1) as [Sb Ab]. destruct (unlock_chip s s1 b C Sb) as [S' A'].
  split; [by eapply keeps_op, calm_within|]. split; [done|]. intros ->. split; [done|].
  rewrite (fast_read_data _ _ _ _ _ Eo S1 Er). apply map_ext. intros x. apply C.
Qed.
End steps.

(** ** The driver keeps its promise to the stores *)

#[export] Instance w25_flash {B} `{Ospi B} : NorFlash (nst B) := {
  cell s := array (bus s);
  quiescent s := idle (bus s) = true;
  flash_ready := nor_flash_ready;
  flash_read a n s := nor_read a true n s;
  flash_write a d s := default (NOR_ERR_PARAM, s) (nor_write a (Some d) s);
  flash_erase a n s := default (NOR_ERR_PARAM, s) (nor_erase a n s);
}.

Lemma keeps_ready {B} `{Ospi B} a n (s s' : nst B) : keeps a n s s' -> flash_ready s' = flash_ready s.
Proof. intros [E _ _]. by injection E. Qed.

#[export] Instance w25_laws {B} `{OL : OspiLaws B} : NorLaws (nst B).
Proof.
  split.
  - intros s x. apply array_u8.
  - intros a n s rc d s' Ha Hn Hs E. destruct (nor_read_spec a n s rc d s' Ha Hn Hs E) as (K & S' & Hok).
    split_and!; [|done|by eapply keeps_ready|done]. intros x. apply (ke_array _ _ _ _ K). unfold in_range. lia.
  - intros a d s rc s' Ha Hd Hl Hs. destruct (nor_write_spec a d s Ha Hd Hl Hs) as (rc' & s2 & E & K & Hok).
    unfold flash_write, w25_flash. rewrite E. intros [= <- <-]. split; [apply (ke_array _ _ _ _ K)|]. split; [by eapply keeps_ready|done].
  - intros a n s rc s' Ha Hn Hs. destruct (nor_erase_spec a n s Ha Hn Hs) as (rc' & s2 & E & K & Hok).
    unfold flash_erase, w25_flash. rewrite E. intros [= <- <-]. split; [apply (ke_array _ _ _ _ K)|]. split; [by eapply keeps_ready|].
    intros Hrc. destruct (Hok Hrc) as (? & _ & _ & ? & ?). done.
Qed.

(** C30: a write on an idle chip always comes back, with the mutex held as often as
    before and no byte outside its range changed, also when it fails half way;
    and when it answers OK, the whole range is on the device and every byte of
    it that was blank, which is where the data sheet allows a program, holds its byte
    of the data -- whatever the alignment: no program ran over the end of a page.
    (On a busy chip OK says nothing: [Chip.write_after_timeout_lost].) *)
Theorem nor_write_correct {B} `{OspiLaws B} addr src (s : nst B) :
  is_u32 addr -> bytes_ok src -> is_u32 (Z.of_nat (length src)) -> idle (bus s) = true ->
  exists rc s', nor_write addr (Some src) s = Some (rc, s') /\ keeps addr (Z.of_nat (length src)) s s' /\
    (rc = NOR_OK -> on_device addr (Z.of_nat (length src)) /\ idle (bus s') = true /\
      forall i v, src !! i = Some v -> array (bus s) (addr + Z.of_nat i) = 255 -> array (bus s') (addr + Z.of_nat i) = v).
Proof. intros. by apply nor_write_spec. Qed.

(** an erase on an idle chip likewise; OK means that the range is made of whole
    sectors of the device and that exactly its bytes are blank, whichever of the
    two erase sizes the loop used where. *)
Theorem nor_erase_correct {B} `{OspiLaws B} addr len (s : nst B) :
  is_u32 addr -> is_u32 len -> idle (bus s) = true ->
  exists rc s', nor_erase addr len s = Some (rc, s') /\ keeps addr len s s' /\
    (rc = NOR_OK -> on_device addr len /\ addr mod NOR_SECTOR_SIZE = 0 /\ len mod NOR_SECTOR_SIZE = 0 /\
      idle (bus s') = true /\ forall x, in_range addr len x -> array (bus s') x = 255).
Proof. intros. by apply nor_erase_spec. Qed.

(** ** A chip *)

(** The chip of the examples: its cells, the write-enable latch, the operation
    in progress with the status polls it still takes, the depth of the mutex, and
    how many polls an operation takes.  While busy it ignores what it is told,
    except the status read. *)
Module Chip.
Record chip : Type := Chip_ { mem : Z -> Z; latch : bool; job : option (nat * (Z -> Z)); held : nat; slow : nat }.

Definition chip_tick (c : chip) : chip :=
  match job c with
  | None => c
  | Some (O, f) => Chip_ f false None (held c) (slow c)
  | Some (S n, f) => Chip_ (mem c) (latch c) (Some (n, f)) (held c) (slow c)
  end.
Definition busy (c : chip) : bool := match job c with None => false | Some _ => true end.
Definition cell_of (f : Z -> Z) (x : Z) : Z := u8 (f x).
Definition goal_of (c : chip) : Z -> Z := match job c with None => mem c | Some (_, f) => f end.
Definition start (f : Z -> Z) (c : chip) : chip :=
  if latch c && negb (busy c) then Chip_ (mem c) true (Some (slow c, f)) (held c) (slow c) else c.
Definition erased (a n : Z) (f : Z -> Z) (x : Z) : Z := if (a <=? x) && (x <? a + n) then 255 else f x.
Definition programmed (a : Z) (d : list Z) (f : Z -> Z) (x : Z) : Z :=
  if (a <=? x) && (x <? a + Z.of_nat (length d)) then Z.land (u8 (f x)) (nth (Z.to_nat (x - a)) d 255) else f x.

#[export] Instance chip_ospi : Ospi chip := {
  array c := cell_of (mem c);
  target c := cell_of (goal_of c);
  idle c := negb (busy c);
  wel := latch;
  depth := held;
  ospi2_setup c := c;
  ospi2_cmd i c := (NOR_OK, if (i =? W25_WREN) && negb (busy c) then Chip_ (mem c) true (job c) (held c) (slow c) else c);
  ospi2_read_reg i n c :=
    if i =? W25_RDSR1 then
      let c := chip_tick c in (NOR_OK, replicate n ((if busy c then 1 else 0) + (if latch c then 2 else 0)), c)
    else (NOR_OK, [W25_MFR_WINBOND; 64; W25_CAP_128M], c);
  ospi2_fast_read a n c := (NOR_OK, if busy c then replicate (Z.to_nat n) 255 else map (cell_of (mem c)) (seqZ a n), c);
  ospi2_cmd_addr i a c :=
    (NOR_OK, start (erased a (if i =? W25_BLOCK_ERASE then NOR_BLOCK_SIZE else NOR_SECTOR_SIZE) (mem c)) c);
  ospi2_program a d c := (NOR_OK, start (programmed a d (mem c)) c);
  in_thread c := true;
  in_isr c := false;
  tx_thread_sleep ms c := c;
  HAL_Delay ms c := c;
  tx_mutex_create c := (true, c);
  tx_mutex_get t c := (TX_SUCCESS, Chip_ (mem c) (latch c) (job c) (S (held c)) (slow c));
  tx_mutex_put c := (0, Chip_ (mem c) (latch c) (job c) (pred (held c)) (slow c));
}.

Lemma chip_tick_calm c : calm c (chip_tick c).
Proof. destruct c as [m l [[[|n] f]|] h p]; split; try done; intros; simpl in *; auto. Qed.

Lemma start_within a n f c : (forall x, ~ in_range a n x -> f x = mem c x) -> within a n c (start f c).
Proof.
  intros Hf. destruct c as [m [] [[k g]|] h p]; split; try done; intros x Hx; simpl in *; unfold goal_of, cell_of; simpl; by rewrite Hf.
Qed.

Lemma start_target f c c' x :
  idle c = true -> wel c = true -> (NOR_OK, start f c) = (NOR_OK, c') -> target c' x = u8 (f x).
Proof. destruct c as [m [] [[k g]|] h p]; simpl; try done. by intros _ _ [= <-]. Qed.

Lemma land_u8 x v : is_u8 v -> u8 (Z.land x v) = Z.land x v.
Proof. intros Hv. unfold u8. rewrite <-land_255, <-Z.land_assoc, land_255. by rewrite (Z.mod_small v). Qed.

#[export] Instance chip_laws : OspiLaws chip.
Proof.
  assert (Hcalm : forall c : chip, calm c c) by (intros; split; auto).
  assert (Her : forall a n f x, ~ in_range a n x -> erased a n f x = f x).
  { intros a n f x Hx. unfold erased, in_range in *. case_if; [lia|done]. }
  assert (Hblank : forall a n f x, in_range a n x -> u8 (erased a n f x) = 255).
  { intros a n f x Hx. unfold erased, in_range in *. case_if; [done|lia]. }
  split.
  - intros c x. apply u8_range.
  - by intros [m l [[k f]|] h p] x.
  - intros i [m l [[k f]|] h p]; simpl; [|destruct (i =? W25_WREN)]; rewrite ?andb_false_r; simpl; by split.
  - intros i n c. simpl. destruct (i =? W25_RDSR1); [apply chip_tick_calm|apply Hcalm].
  - intros a n c. apply Hcalm.
  - intros ms c. apply Hcalm.
  - intros ms c. apply Hcalm.
  - intros c d c' [= <- <-]. eexists. split; [done|].
    destruct (chip_tick c) as [m [] [[k f]|] h p]; simpl; split; done.
  - intros a n c d c' _ Hs [= <- _]. simpl in Hs. apply negb_true_iff in Hs. by rewrite Hs.
  - intros a d c _. apply start_within. intros x Hx. unfold programmed, in_range in *. case_if; [lia|done].
  - intros a d c c' _ Hd Hs Hw E i v Hv Hb. rewrite (start_target _ _ _ _ Hs Hw E). unfold programmed.
    pose proof (lookup_lt_Some _ _ _ Hv). destruct (Z.leb_spec a (a + Z.of_nat i)), (Z.ltb_spec (a + Z.of_nat i) (a + Z.of_nat (length d))); try lia.
    cbn [andb]. replace (Z.to_nat (a + Z.of_nat i - a)) with i by lia. rewrite (nth_lookup_Some _ _ _ _ Hv).
    assert (Hv8 : is_u8 v) by (eapply Forall_lookup_1; eauto). simpl in Hb. unfold cell_of in Hb. rewrite land_u8 by done.
    rewrite Hb, Z.land_comm, land_255. by apply Z.mod_small.
  - intros a c _. by apply start_within, Her.
  - intros a c c' x _ Hs Hw E Hx. rewrite (start_target _ _ _ _ Hs Hw E). by apply Hblank.
  - intros a c _. by apply start_within, Her.
  - intros a c c' x _ Hs Hw E Hx. rewrite (start_target _ _ _ _ Hs Hw E). by apply Hblank.
  - by intros t c rc c' [= <- <-].
  - done.
Qed.

(** A blank chip behind a driver that is up, with operations of [n] polls. *)
Definition fresh (n : nat) : nst chip := Nst (Chip_ (fun _ => 255) false None 0 n) true [] true.
Definition text : list Z := str "wio".

Lemma nor_write_correct_witness :
  idle (bus (fresh 3)) = true /\
  exists rc s', nor_write 254 (Some text) (fresh 3) = Some (rc, s') /\ keeps 254 3 (fresh 3) s' /\
    (rc = NOR_OK -> on_device 254 3 /\ idle (bus s') = true /\
      forall i v, text !! i = Some v -> array (bus (fresh 3)) (254 + Z.of_nat i) = 255 -> array (bus s') (254 + Z.of_nat i) = v).
Proof.
  split; [reflexivity|]. apply (nor_write_correct 254 text (fresh 3)).
  - unfold is_u32. lia.
  - repeat constructor; unfold is_u8; simpl; lia.
  - unfold is_u32. simpl. lia.
  - reflexivity.
Defined.

Lemma nor_erase_correct_witness :
  exists rc s', nor_erase 61440 73728 (fresh 3) = Some (rc, s') /\ keeps 61440 73728 (fresh 3) s' /\
    (rc = NOR_OK -> on_device 61440 73728 /\ 61440 mod NOR_SECTOR_SIZE = 0 /\ 73728 mod NOR_SECTOR_SIZE = 0 /\
      idle (bus s') = true /\ forall x, in_range 61440 73728 x -> array (bus s') x = 255).
Proof. apply (nor_erase_correct 61440 73728 (fresh 3)); [unfold is_u32; lia|unfold is_u32; lia|reflexivity]. Defined.

(** The calls succeed, and the text is there, across the page boundary. *)
Example text_written :
  exists s', nor_write 254 (Some text) (fresh 3) = Some (NOR_OK, s') /\
    map (array (bus s')) [253; 254; 255; 256; 257] = [255; 119; 105; 111; 255] /\ depth (bus s') = 0%nat.
Proof. eexists. split; [vm_compute; reflexivity|]. vm_compute. done. Qed.

(** C39: after an operation that timed out, the next one can report a success that
    did not happen.  The chip is still busy and ignores the write enable, but its
    status shows the latch of the operation in progress, which is all that
    [nor_write_enable] looks at; the program after it is ignored as well, the
    wait sees the first operation end, and the answer is OK with nothing
    written. *)
Theorem write_after_timeout_lost :
  exists s1 s2, nor_write 0 (Some text) (fresh 60) = Some (NOR_ERR_TIMEOUT, s1) /\
    nor_write 4096 (Some text) s1 = Some (NOR_OK, s2) /\
    map (array (bus s2)) [0; 1; 2] = text /\ map (array (bus s2)) [4096; 4097; 4098] = [255; 255; 255].
Proof. do 2 eexists. split; [vm_compute; reflexivity|]. split; [vm_compute; reflexivity|]. vm_compute. done. Qed.
End Chip.
