(* ===== verification/Blob.v ===== *)
(** * The blob store ([src/app/blob.c])

    Six 512 KB slots of the external NOR, each with one file that came over
    YMODEM.  The header that makes a slot valid is written after the payload, its
    magic number last and on its own; the theorems say what that buys: over any
    transfer, and over a power cut at any moment of it, a slot that reads as
    valid holds a complete file.  The NOR driver is the interface [NorFlash] of
    [Nor], the receiver is [Ymodem]'s. *)

From S2P Require Import Prelude Nor Ymodem Receiver.
Local Open Scope Z_scope.

Definition BLOB_SLOT_COUNT : Z := 6.
Definition BLOB_REGION_BASE : Z := 1048576.       (* 0x00100000 *)
Definition BLOB_SLOT_SIZE : Z := 524288.          (* 0x00080000 *)
Definition BLOB_HDR_SIZE : Z := NOR_SECTOR_SIZE.
Definition BLOB_PAYLOAD_MAX : Z := BLOB_SLOT_SIZE - BLOB_HDR_SIZE.
Definition BLOB_NAME_MAX : Z := 63.
Definition BLOB_MAGIC : Z := 826032727.           (* 0x314C4257 *)
Definition BLOB_FMT_VER : Z := 2.
Definition BLOB_HDR_BODY : Z := 4.
Definition BLOB_HDR_BYTES : Z := 80.
Definition BLOB_HDR_NAME : Z := 16.

Definition BLOB_OK : Z := 0.
Definition BLOB_ERR_PARAM : Z := -1.
Definition BLOB_ERR_IO : Z := -2.
Definition BLOB_ERR_STATE : Z := -3.
Definition BLOB_ERR_BUSY : Z := -4.
Definition BLOB_ERR_EMPTY : Z := -5.
Definition BLOB_ERR_CRC : Z := -6.
Definition BLOB_ERR_SHORT : Z := -7.

Inductive blob_state : Type := BLOB_EMPTY | BLOB_VALID | BLOB_INCOMPLETE | BLOB_INVALID.
#[export] Instance blob_state_eq_dec : EqDecision blob_state.
Proof. solve_decision. Defined.

(** [name] is the string in the name buffer. *)
Record blob_info : Type := Info { state : blob_state; name : list Z; blob_length : Z; blob_crc32 : Z }.
Definition info_zero : blob_info := Info BLOB_EMPTY [] 0 0.

Definition blob_safe_char (c : Z) : Z := if (32 <=? c) && (c <? 127) then c else 95.

Definition slot_ok (slot : Z) : bool := slot <? BLOB_SLOT_COUNT.
Definition blob_slot_addr (slot : Z) : Z := BLOB_REGION_BASE +% u32 (slot * BLOB_SLOT_SIZE).
Definition blob_payload_addr (slot : Z) : Z := blob_slot_addr slot +% BLOB_HDR_SIZE.

(** The 80 bytes of the header, decoded; an unusable one leaves the rest zero. *)
Definition blob_decode (hdr : list Z) : blob_info :=
  let bad s := Info s [] 0 0 in
  if forallb (fun b => b =? 255) (take (Z.to_nat BLOB_HDR_BYTES) hdr) then bad BLOB_EMPTY
  else if get32 hdr =? 4294967295 then bad BLOB_INCOMPLETE
  else if negb (get32 hdr =? BLOB_MAGIC) then bad BLOB_INVALID
  else if negb (nth 4 hdr 0 =? BLOB_FMT_VER) then bad BLOB_INVALID
  else
    let name_len := nth 5 hdr 0 in
    if BLOB_NAME_MAX <? name_len then bad BLOB_INVALID
    else if negb (get16 (drop 6 hdr) =? 0) then bad BLOB_INVALID
    else
      let length := get32 (drop 8 hdr) in
      if (length =? 0) || (BLOB_PAYLOAD_MAX <? length) then bad BLOB_INVALID
      else
        Info BLOB_VALID (map blob_safe_char (slice (Z.to_nat BLOB_HDR_NAME) (Z.to_nat name_len) hdr))
          length (get32 (drop 12 hdr)).

(** [fdb_calc_crc32] of FlashDB: a CRC that can be computed piece by piece, from
    0 for the first piece. *)
Class Crc32 := {
  fdb_calc_crc32 : Z -> list Z -> Z;
  crc32_range c d : is_u32 c -> is_u32 (fdb_calc_crc32 c d);
  crc32_nil c : is_u32 c -> fdb_calc_crc32 c [] = c;
  crc32_app c d1 d2 : fdb_calc_crc32 (fdb_calc_crc32 c d1) d2 = fdb_calc_crc32 c (d1 ++ d2);
}.

(** The calls that change the flash, as a run records them, each with the state
    of the flash before it. *)
Inductive nor_call : Type := NorWrite (addr : Z) (data : list Z) | NorErase (addr len : Z).

(** [s_rx]. *)
Record rx : Type := Rx {
  armed : bool; opened : bool; failed : bool; slot : Z; cap : Z; pos : Z; crc : Z; rname : list Z;
}.
Definition rx_zero : rx := Rx false false false 0 0 0 0 [].

Section blob.
Context {W : Type} `{NorFlash W} `{Crc32}.

Record bst : Type := Bst { nor : W; s_rx : rx; blob_busy : bool; calls : list (nor_call * W) }.
Definition set_nor (w : W) (s : bst) : bst := Bst w (s_rx s) (blob_busy s) (calls s).
Definition set_rx (r : rx) (s : bst) : bst := Bst (nor s) r (blob_busy s) (calls s).

Definition do_write (addr : Z) (d : list Z) (s : bst) : Z * bst :=
  let '(rc, w) := flash_write addr d (nor s) in
  (rc, Bst w (s_rx s) (blob_busy s) (calls s ++ [(NorWrite addr d, nor s)])).
Definition do_erase (addr len : Z) (s : bst) : Z * bst :=
  let '(rc, w) := flash_erase addr len (nor s) in
  (rc, Bst w (s_rx s) (blob_busy s) (calls s ++ [(NorErase addr len, nor s)])).
Definition do_read (addr len : Z) (s : bst) : Z * list Z * bst :=
  let '(rc, d, w) := flash_read addr len (nor s) in (rc, d, set_nor w s).

Definition blob_stat (slot : Z) (s : bst) : Z * blob_info * bst :=
  if negb (slot_ok slot) then (BLOB_ERR_PARAM, info_zero, s)
  else if negb (flash_ready (nor s)) then (BLOB_ERR_STATE, info_zero, s)
  else
    let '(rc, hdr, s) := do_read (blob_slot_addr slot) BLOB_HDR_BYTES s in
    if negb (rc =? NOR_OK) then (BLOB_ERR_IO, info_zero, s) else (BLOB_OK, blob_decode hdr, s).

(** [buf] says that the pointer is not NULL. *)
Definition blob_read (slot off : Z) (buf : bool) (len : Z) (s : bst) : Z * list Z * bst :=
  if negb (slot_ok slot) || negb buf || (len =? 0) || (BLOB_PAYLOAD_MAX <=? off) || (BLOB_PAYLOAD_MAX -% off <? len)
  then (BLOB_ERR_PARAM, [], s)
  else if negb (flash_ready (nor s)) then (BLOB_ERR_STATE, [], s)
  else
    let '(rc, d, s) := do_read (blob_payload_addr slot +% off) len s in
    ((if rc =? NOR_OK then BLOB_OK else BLOB_ERR_IO), d, s).

(** The read-back, a page at a time; [inl] is the error return. *)
Fixpoint crc_loop (fuel : nat) (slot length done crc : Z) (s : bst) : option ((Z + Z) * bst) :=
  match fuel with
  | O => None
  | S k =>
      if length <=? done then Some (inr crc, s)
      else
        let chunk := length -% done in
        let chunk := if NOR_PAGE_SIZE <? chunk then NOR_PAGE_SIZE else chunk in
        let '(rc, d, s) := do_read (blob_payload_addr slot +% done) chunk s in
        if negb (rc =? NOR_OK) then Some (inl BLOB_ERR_IO, s)
        else crc_loop k slot length (done +% chunk) (fdb_calc_crc32 crc d) s
  end.

(** The return value and [*crc_out]. *)
Definition blob_verify (slot : Z) (s : bst) : option (Z * Z * bst) :=
  let '(rc, info, s) := blob_stat slot s in
  if negb (rc =? BLOB_OK) then Some (rc, 0, s)
  else if negb (bool_decide (state info = BLOB_VALID)) then Some (BLOB_ERR_EMPTY, 0, s)
  else
    '(r, s) ← crc_loop (S (Z.to_nat (blob_length info))) slot (blob_length info) 0 0 s;
    match r with
    | inl rc => Some (rc, 0, s)
    | inr crc => Some (if crc =? blob_crc32 info then BLOB_OK else BLOB_ERR_CRC, crc, s)
    end.

Definition blob_busy_acquire (s : bst) : Z * bst :=
  if negb (blob_busy s) then (BLOB_OK, Bst (nor s) (s_rx s) true (calls s)) else (BLOB_ERR_BUSY, s).
Definition blob_busy_release (s : bst) : bst := Bst (nor s) (s_rx s) false (calls s).

Definition blob_erase (slot : Z) (s : bst) : Z * bst :=
  if negb (slot_ok slot) then (BLOB_ERR_PARAM, s)
  else if negb (flash_ready (nor s)) then (BLOB_ERR_STATE, s)
  else
    let '(rc, s) := do_erase (blob_slot_addr slot) BLOB_SLOT_SIZE s in
    (if rc =? NOR_OK then BLOB_OK else BLOB_ERR_IO, s).

Definition blob_rx_reset (s : bst) : bst := set_rx rx_zero s.

Definition blob_recv_arm (slot : Z) (s : bst) : Z * bst :=
  let s := blob_rx_reset s in
  if negb (slot_ok slot) then (BLOB_ERR_PARAM, s)
  else if negb (flash_ready (nor s)) then (BLOB_ERR_STATE, s)
  else
    let '(rc, s) := blob_erase slot s in
    if negb (rc =? BLOB_OK) then (rc, s) else (BLOB_OK, set_rx (Rx true false false slot 0 0 0 []) s).

Definition blob_recv_disarm (s : bst) : bst := blob_rx_reset s.
Definition blob_recv_pos (s : bst) : Z := pos (s_rx s).

Definition blob_sink_begin (name : list Z) (size : Z) (s : bst) : Z * bst :=
  let r := s_rx s in
  if negb (armed r) then (-1, s)
  else
    let r := Rx (armed r) false false (slot r) 0 0 0 (rname r) in
    if (size =? 0) || (BLOB_PAYLOAD_MAX <? size) then (-1, set_rx r s)
    else
      let nm := map blob_safe_char (take (Z.to_nat BLOB_NAME_MAX) name) in
      (0, set_rx (Rx (armed r) true (failed r) (slot r) size (pos r) (crc r) nm) s).

Definition blob_sink_write (d : list Z) (s : bst) : Z * bst :=
  let r := s_rx s in
  let len := Z.of_nat (length d) in
  if negb (armed r) || negb (opened r) || failed r then (-1, s)
  else if (cap r <? pos r) || (cap r -% pos r <? len) then (-1, s)
  else
    let '(rc, s) := do_write (blob_payload_addr (slot r) +% pos r) d s in
    if negb (rc =? NOR_OK)
    then (-1, set_rx (Rx (armed r) (opened r) true (slot r) (cap r) (pos r) (crc r) (rname r)) s)
    else
      (0, set_rx (Rx (armed r) (opened r) (failed r) (slot r) (cap r) (pos r +% len)
                    (fdb_calc_crc32 (crc r) d) (rname r)) s).

(** The header image. *)
Definition header (r : rx) : list Z :=
  le32 BLOB_MAGIC ++ [BLOB_FMT_VER; Z.of_nat (length (rname r))] ++ le16 0 ++ le32 (pos r) ++ le32 (crc r) ++
  rname r ++ replicate (Z.to_nat (BLOB_HDR_BYTES - BLOB_HDR_NAME) - length (rname r)) 0.

(** [None] for [*out] when the call fails. *)
Definition blob_recv_commit (s : bst) : Z * option blob_info * bst :=
  let r := s_rx s in
  if negb (armed r) || negb (opened r) || failed r then (BLOB_ERR_STATE, None, s)
  else if negb (pos r =? cap r) then (BLOB_ERR_SHORT, None, s)
  else
    let base := blob_slot_addr (slot r) in
    let hdr := header r in
    let magic := take (Z.to_nat BLOB_HDR_BODY) hdr in
    let body := drop (Z.to_nat BLOB_HDR_BODY) hdr in
    let '(rc, s) := do_write (base +% BLOB_HDR_BODY) body s in
    if negb (rc =? NOR_OK) then (BLOB_ERR_IO, None, s)
    else
      let '(rc, back, s) := do_read (base +% BLOB_HDR_BODY) (BLOB_HDR_BYTES - BLOB_HDR_BODY) s in
      if negb (rc =? NOR_OK) || negb (bool_decide (body = back)) then (BLOB_ERR_IO, None, s)
      else
        let '(rc, s) := do_write base magic s in
        if negb (rc =? NOR_OK) then (BLOB_ERR_IO, None, s)
        else
          let '(rc, back, s) := do_read base BLOB_HDR_BODY s in
          if negb (rc =? NOR_OK) || negb (bool_decide (magic = back)) then (BLOB_ERR_IO, None, s)
          else (BLOB_OK, Some (Info BLOB_VALID (rname r) (pos r) (crc r)), blob_rx_reset s).
End blob.
Arguments bst : clear implicits.

(** ** The [blob write] command

    A console line next to the store: the receiver's input and output go to the
    line, its sink is the store's. *)
Section session.
Context {L W : Type} `{YmIo L} `{NorFlash W} `{Crc32}.

#[export] Instance blob_io : YmIo (L * bst W) := {
  getc ms w := let '(b, l) := getc ms w.1 in (b, (l, w.2));
  put bs w := let '(r, l) := put bs w.1 in (r, (l, w.2));
  src_read n w := let '(d, l) := src_read n w.1 in (d, (l, w.2));
  sink_begin nm size w := let '(r, s) := blob_sink_begin nm size w.2 in (r, (w.1, s));
  sink_write d w := let '(r, s) := blob_sink_write d w.2 in (r, (w.1, s));
}.

(** What [cmd_blob_write] does between taking and giving back the busy flag and
    the console (its messages left out): arm, receive, then commit and verify, or
    disarm.  The answer is whether the command succeeded. *)
Definition blob_write_body (fuel : nat) (slot : Z) (l : L) (s : bst W) : option (bool * (L * bst W)) :=
  let '(rc, s) := blob_recv_arm slot s in
  if negb (rc =? BLOB_OK) then Some (false, (l, s))
  else
    '(res, st) ← ymodem_recv fuel (l, s);
    let '(l, s) := r_w st in
    if negb (bool_decide (res = YM_OK)) then Some (false, (l, blob_recv_disarm s))
    else
      let '(rc, _, s) := blob_recv_commit s in
      if negb (rc =? BLOB_OK) then Some (false, (l, blob_recv_disarm s))
      else
        '(rc, _, s) ← blob_verify slot s;
        Some (rc =? BLOB_OK, (l, s)).

(** The busy flag around it.  Taking the console is left out: it can only make the
    command give up before anything is erased. *)
Definition blob_write (fuel : nat) (slot : Z) (l : L) (s : bst W) : option (bool * (L * bst W)) :=
  let '(rc, s) := blob_busy_acquire s in
  if negb (rc =? BLOB_OK) then Some (false, (l, s))
  else '(ok, (l, s)) ← blob_write_body fuel slot l s; Some (ok, (l, blob_busy_release s)).
End session.

(** ** The header *)

Definition hdr_len : nat := 80.

Lemma decode_no_magic hdr : take 4 hdr = replicate 4 255 -> state (blob_decode hdr) <> BLOB_VALID.
Proof.
  intros Hm. assert (E : get32 hdr = 4294967295).
  { destruct hdr as [|a [|b [|c [|d r]]]]; try done. injection Hm as -> -> -> ->. done. }
  unfold blob_decode. rewrite E. case_if; [done|]. done.
Qed.

(** Two headers with the same body that both read as valid say the same. *)
Lemma decode_same_body h1 h2 :
  drop 4 h1 = drop 4 h2 -> state (blob_decode h1) = BLOB_VALID -> state (blob_decode h2) = BLOB_VALID ->
  blob_decode h1 = blob_decode h2.
Proof.
  intros Hd. assert (En : forall i, (4 <= i)%nat -> nth i h1 0 = nth i h2 0).
  { intros i Hi. replace i with (4 + (i - 4))%nat by lia. by rewrite <-!nth_skipn, Hd. }
  assert (Edr : forall i, (4 <= i)%nat -> drop i h1 = drop i h2).
  { intros i Hi. replace i with (4 + (i - 4))%nat by lia. by rewrite <-!drop_drop, Hd. }
  unfold blob_decode, slice. rewrite (En 4%nat), (En 5%nat), (Edr 6%nat), (Edr 8%nat), (Edr 12%nat), (Edr (Z.to_nat BLOB_HDR_NAME))
    by (unfold BLOB_HDR_NAME; lia).
  intros V1 V2.
  repeat first [progress (case_if_in V1; [done|]) | progress (case_if_in V2; [done|])]; done.
Qed.

(** What makes a slot's header acceptable. *)
Definition rx_ok (r : rx) : Prop :=
  Forall (fun c => 32 <= c < 127) (rname r) /\ (length (rname r) <= Z.to_nat BLOB_NAME_MAX)%nat /\
  0 < pos r <= BLOB_PAYLOAD_MAX /\ is_u32 (crc r).

Lemma header_length r : (length (rname r) <= 63)%nat -> length (header r) = hdr_len.
Proof. intros Hn. unfold header, hdr_len. rewrite !length_app, length_replicate. change (Z.to_nat (_ - _)) with 64%nat.
  cbn [length le32 le16]. lia. Qed.

Lemma safe_char_idem c : 32 <= c < 127 -> blob_safe_char c = c.
Proof. intros Hc. unfold blob_safe_char. by if_true. Qed.

Lemma safe_char_safe c : 32 <= blob_safe_char c < 127.
Proof. unfold blob_safe_char. case_if; lia. Qed.

(** The header written by a commit is read as what was committed. *)
Lemma decode_header r : rx_ok r -> blob_decode (header r) = Info BLOB_VALID (rname r) (pos r) (crc r).
Proof.
  intros (Hn & Hl & Hp & Hc). unfold blob_decode, BLOB_PAYLOAD_MAX, BLOB_SLOT_SIZE, BLOB_HDR_SIZE, NOR_SECTOR_SIZE in *.
  assert (Hlen : length (header r) = 80%nat) by by apply header_length.
  assert (Em : get32 (header r) = BLOB_MAGIC) by (apply get32_le32; unfold is_u32, BLOB_MAGIC; lia).
  assert (E4 : nth 4 (header r) 0 = BLOB_FMT_VER) by done.
  assert (E5 : nth 5 (header r) 0 = Z.of_nat (length (rname r))) by done.
  assert (E6 : get16 (drop 6 (header r)) = 0) by done.
  assert (E8 : get32 (drop 8 (header r)) = pos r).
  { change (drop 8 (header r)) with (le32 (pos r) ++ drop 12 (header r)). apply get32_le32. unfold is_u32. lia. }
  assert (E12 : get32 (drop 12 (header r)) = crc r).
  { change (drop 12 (header r)) with (le32 (crc r) ++ drop 16 (header r)). by apply get32_le32. }
  assert (E16 : slice 16 (length (rname r)) (header r) = rname r).
  { unfold slice. change (drop 16 (header r)) with (rname r ++ replicate (Z.to_nat (BLOB_HDR_BYTES - BLOB_HDR_NAME) - length (rname r)) 0).
    apply take_app_length. }
  rewrite Em, E4, E5, E6, E8, E12. change (Z.to_nat BLOB_HDR_NAME) with 16%nat. rewrite Nat2Z.id, E16.
  replace (forallb _ _) with false.
  2:{ symmetry. apply not_true_is_false. intros Hf. unfold get32 in Em. rewrite forallb_forall in Hf.
      assert (H0 : nth 0 (header r) 0 = 87) by done.
      assert (H255 : In (nth 0 (header r) 0) (take (Z.to_nat BLOB_HDR_BYTES) (header r))) by by left.
      apply Hf in H255. by rewrite H0 in H255. }
  unfold BLOB_NAME_MAX in *. ifs. f_equal. rewrite <-(map_id (rname r)) at 2. apply map_ext_Forall.
  eapply Forall_impl; [exact Hn|]. intros c0. apply safe_char_idem.
Qed.

(** ** Where a slot is *)

Definition slot_base (k : Z) : Z := BLOB_REGION_BASE + k * BLOB_SLOT_SIZE.
Definition payload_base (k : Z) : Z := slot_base k + BLOB_HDR_SIZE.
Definition is_slot (k : Z) : Prop := 0 <= k < BLOB_SLOT_COUNT.

(** Constants of the layout, for [lia]. *)
Ltac geometry :=
  unfold is_slot, in_range, on_device, is_u32, payload_base, slot_base, NOR_SIZE_BYTES, BLOB_PAYLOAD_MAX, BLOB_SLOT_SIZE,
    BLOB_HDR_SIZE, BLOB_REGION_BASE, BLOB_SLOT_COUNT, BLOB_HDR_BODY, BLOB_HDR_BYTES, NOR_SECTOR_SIZE, NOR_PAGE_SIZE in *.

Lemma slot_addr_val k : is_slot k -> blob_slot_addr k = slot_base k.
Proof.
  intros Hk. unfold blob_slot_addr. geometry. rewrite (u32_small (k * _)), u32_small; unfold is_u32; lia.
Qed.

Lemma payload_addr_val k : is_slot k -> blob_payload_addr k = payload_base k.
Proof. intros Hk. unfold blob_payload_addr. rewrite slot_addr_val by done. apply u32_small. geometry. lia. Qed.

Section flash_facts.
Context {W : Type} `{NL : NorLaws W}.
Implicit Types w : W.

Definition blank w (a n : Z) : Prop := forall x, in_range a n x -> cell w x = 255.
Definition agree w w' (a n : Z) : Prop := forall x, in_range a n x -> cell w' x = cell w x.

Lemma cells_length w a n : length (cells w a n) = Z.to_nat n.
Proof. unfold cells. by rewrite length_map, length_seqZ. Qed.

Lemma cells_lookup w a n i : (i < Z.to_nat n)%nat -> cells w a n !! i = Some (cell w (a + Z.of_nat i)).
Proof. intros Hi. unfold cells. rewrite list_lookup_fmap, lookup_seqZ_lt by lia. done. Qed.

Lemma cells_ext w w' a n : agree w w' a n -> cells w' a n = cells w a n.
Proof.
  intros Ha. apply list_eq_same_length with (n := Z.to_nat n); [apply cells_length|apply cells_length|].
  intros i x y Hi. rewrite !cells_lookup by done. intros [= <-] [= <-]. apply Ha. unfold in_range. lia.
Qed.

Lemma cells_app w a n m : 0 <= n -> 0 <= m -> cells w a (n + m) = cells w a n ++ cells w (a + n) m.
Proof. intros Hn Hm. unfold cells. by rewrite seqZ_app, map_app. Qed.

Lemma cells_drop w a n m : 0 <= n -> 0 <= m -> drop (Z.to_nat n) (cells w a (n + m)) = cells w (a + n) m.
Proof. intros Hn Hm. rewrite cells_app by done. rewrite <-(cells_length w a n). apply drop_app_length. Qed.

Lemma cells_take w a n m : 0 <= n -> 0 <= m -> take (Z.to_nat n) (cells w a (n + m)) = cells w a n.
Proof. intros Hn Hm. rewrite cells_app by done. rewrite <-(cells_length w a n). apply take_app_length. Qed.

Lemma cells_blank w a n : blank w a n -> cells w a n = replicate (Z.to_nat n) 255.
Proof.
  intros Hb. apply list_eq_same_length with (n := Z.to_nat n); [by rewrite length_replicate|apply cells_length|].
  intros i x y Hi. rewrite cells_lookup, lookup_replicate_2 by done. intros [= <-] [= <-]. apply Hb. unfold in_range. lia.
Qed.

(** A write over blank cells puts its data there. *)
Lemma write_blank a d w w' :
  is_u32 a -> bytes_ok d -> is_u32 (Z.of_nat (length d)) -> quiescent w -> blank w a (Z.of_nat (length d)) ->
  flash_write a d w = (NOR_OK, w') -> cells w' a (Z.of_nat (length d)) = d /\ quiescent w'.
Proof.
  intros Ha Hd Hl Hq Hb E. destruct (write_law _ _ _ _ _ Ha Hd Hl Hq E) as (_ & _ & Hok).
  destruct (Hok eq_refl) as (_ & Hq' & Hv). split; [|done].
  apply list_eq_same_length with (n := length d); [done|by rewrite cells_length, Nat2Z.id|].
  intros i x y Hi. rewrite cells_lookup by lia. intros [= <-] Hy. apply (Hv _ _ Hy). apply Hb. unfold in_range. lia.
Qed.
End flash_facts.

(** ** A transfer into a slot *)

(** What a sink that refuses what does not fit accepts of a list of writes. *)
Definition accept (size : Z) (ws : list (list Z)) : list Z :=
  fold_left (fun acc d => if Z.of_nat (length acc + length d) <=? size then acc ++ d else acc) ws [].

Lemma accept_snoc size ws d :
  accept size (ws ++ [d]) =
    if Z.of_nat (length (accept size ws) + length d) <=? size then accept size ws ++ d else accept size ws.
Proof. unfold accept. by rewrite fold_left_app. Qed.

Lemma accept_fits size ws : 0 <= size -> Z.of_nat (length (accept size ws)) <= size.
Proof.
  intros Hs. induction ws as [|d ws IH] using rev_ind; [done|]. rewrite accept_snoc.
  case_if; [rewrite length_app; lia|done].
Qed.

Lemma accept_all size ws : written ws <= size -> accept size ws = concat ws.
Proof.
  unfold written. induction ws as [|d ws IH] using rev_ind; [done|].
  rewrite accept_snoc, concat_app, length_app. cbn [concat]. rewrite app_nil_r. intros Hw.
  rewrite IH by lia. by if_true.
Qed.

(** The calls of a receiver: one [Begin] and then writes. *)
Definition shape (tr : list sink_call) : Prop := tr = [] \/ exists name size ws, tr = Begin name size :: map Write ws.

Lemma snoc_write tr d name size ws :
  tr ++ [Write d] = Begin name size :: map Write ws -> exists ws0, ws = ws0 ++ [d] /\ tr = Begin name size :: map Write ws0.
Proof.
  destruct tr as [|c tr]; [done|]. intros [= -> E]. destruct ws as [|x ws _] using rev_ind; [by destruct tr|].
  rewrite map_app in E. apply app_inj_tail in E as [-> [= ->]]. by exists ws.
Qed.

Lemma snoc_begin tr n s name size ws :
  tr ++ [Begin n s] = Begin name size :: map Write ws -> tr = [] /\ ws = [] /\ n = name /\ s = size.
Proof.
  destruct tr as [|c tr]; [by intros [= -> -> E]; destruct ws|]. intros [= -> E].
  destruct ws as [|x ws _] using rev_ind; [by destruct tr|].
  rewrite map_app in E. by apply app_inj_tail in E as [_ ?].
Qed.

Lemma shape_snoc tr x : shape (tr ++ [x]) -> shape tr.
Proof.
  intros [E|(name & size & ws & E)]; [by destruct tr|]. destruct x as [n s|d].
  - apply snoc_begin in E as (-> & _). by left.
  - apply snoc_write in E as (ws0 & _ & ->). right. eauto.
Qed.

Section transfer.
Context {W : Type} `{NL : NorLaws W} `{CR : Crc32}.
Implicit Types (w : W) (s : bst W).

(** A name as the store keeps it. *)
Definition stored_name (name : list Z) : list Z := map blob_safe_char (take (Z.to_nat BLOB_NAME_MAX) name).

(** A call of the transfer: a write into the payload of slot [k], on a flash
    that outside the payload is as it was at the start. *)
Definition payload_call (k : Z) (w1 : W) (cw : nor_call * W) : Prop :=
  match cw.1 with
  | NorWrite a d => payload_base k <= a /\ a + Z.of_nat (length d) <= payload_base k + BLOB_PAYLOAD_MAX
  | NorErase _ _ => False
  end /\ forall x, ~ in_range (payload_base k) BLOB_PAYLOAD_MAX x -> cell cw.2 x = cell w1 x.

(** The payload holds [data] and is blank after it. *)
Definition holds_data w (k : Z) (data : list Z) : Prop :=
  cells w (payload_base k) (Z.of_nat (length data)) = data /\
  blank w (payload_base k + Z.of_nat (length data)) (BLOB_PAYLOAD_MAX - Z.of_nat (length data)).

(** [s1] is the store when it was armed, [tr] the sink calls since. *)
Record receiving (k : Z) (s1 s : bst W) (tr : list sink_call) : Prop := {
  rc_slot : armed (s_rx s) = true /\ slot (s_rx s) = k;
  rc_frame : forall x, ~ in_range (payload_base k) BLOB_PAYLOAD_MAX x -> cell (nor s) x = cell (nor s1) x;
  rc_ready : flash_ready (nor s) = flash_ready (nor s1);
  rc_calls : exists cs, calls s = calls s1 ++ cs /\ Forall (payload_call k (nor s1)) cs;
  rc_quiet : failed (s_rx s) = false -> quiescent (nor s);
  rc_fresh : tr = [] -> opened (s_rx s) = false /\ failed (s_rx s) = false /\ holds_data (nor s) k [];
  rc_data name size ws : tr = Begin name size :: map Write ws -> opened (s_rx s) = true -> failed (s_rx s) = false ->
    let data := accept size ws in
    0 < size <= BLOB_PAYLOAD_MAX /\ cap (s_rx s) = size /\ rname (s_rx s) = stored_name name /\
    pos (s_rx s) = Z.of_nat (length data) /\ crc (s_rx s) = fdb_calc_crc32 0 data /\ holds_data (nor s) k data;
}.

Lemma sink_begin_receiving k s1 s tr name size :
  is_slot k -> is_u32 size -> shape (tr ++ [Begin name size]) -> receiving k s1 s tr ->
  receiving k s1 (blob_sink_begin name size s).2 (tr ++ [Begin name size]).
Proof.
  intros Hk Hs Hshape R. assert (Htr : tr = []).
  { destruct Hshape as [E|(n & z & ws & E)]; [by destruct tr|]. by apply snoc_begin in E as (-> & _). }
  subst tr. destruct R as [R1 R2 R3 R4 R5 R6 _]. destruct (R6 eq_refl) as (Ho & Hf & Hd). cbn [app].
  unfold blob_sink_begin. rewrite (proj1 R1). cbn [negb].
  destruct ((size =? 0) || (BLOB_PAYLOAD_MAX <? size)) eqn:Ez; cbn [snd set_rx s_rx nor calls slot opened failed cap pos crc rname].
  - split; try done; [by destruct R1|]. by intros _; auto.
  - apply orb_false_iff in Ez as [Ez1 Ez2]. split; try done; [by destruct R1|by intros _; auto|].
    intros n z ws [= <- <- Ew] _ _. destruct ws; [|done]. cbn. unfold is_u32 in Hs. split_and!; try done; [lia|lia|].
    symmetry. by apply crc32_nil.
Qed.

(** More data behind what is there. *)
Lemma holds_data_app w w' k data d rc :
  is_slot k -> quiescent w -> bytes_ok d -> Z.of_nat (length data + length d) <= BLOB_PAYLOAD_MAX -> holds_data w k data ->
  flash_write (payload_base k + Z.of_nat (length data)) d w = (rc, w') ->
  (forall x, ~ in_range (payload_base k) BLOB_PAYLOAD_MAX x -> cell w' x = cell w x) /\ flash_ready w' = flash_ready w /\
  (rc = NOR_OK -> quiescent w' /\ holds_data w' k (data ++ d)).
Proof.
  intros Hk Hq Hd Hfit [Hc Hb] E.
  assert (Ha : is_u32 (payload_base k + Z.of_nat (length data))) by (geometry; lia).
  assert (Hl : is_u32 (Z.of_nat (length d))) by (geometry; lia).
  destruct (write_law _ _ _ _ _ Ha Hd Hl Hq E) as (Hframe & Hr & _).
  split; [intros x Hx; apply Hframe; geometry; lia|]. split; [done|]. intros ->.
  destruct (write_blank _ _ _ w' Ha Hd Hl Hq) as [Hw Hq']; [intros x Hx; apply Hb; geometry; lia|exact E|].
  split; [done|]. split; rewrite length_app, Nat2Z.inj_add.
  - rewrite cells_app, Hw by lia. f_equal. rewrite <-Hc at 2. apply cells_ext. intros x Hx. apply Hframe. geometry. lia.
  - intros x Hx. rewrite Hframe by (geometry; lia). apply Hb. geometry. lia.
Qed.

Lemma sink_write_receiving k s1 s tr d :
  is_slot k -> bytes_ok d -> (length d <= YM_DATA_MAX)%nat -> shape (tr ++ [Write d]) -> receiving k s1 s tr ->
  receiving k s1 (blob_sink_write d s).2 (tr ++ [Write d]).
Proof.
  intros Hk Hd Hdl Hshape [R1 R2 R3 R4 R5 R6 R7].
  destruct Hshape as [E0|(name & size & ws0 & E0)]; [by destruct tr|].
  destruct (snoc_write _ _ _ _ _ E0) as (ws & -> & Etr). clear E0 R6. specialize (R7 _ _ _ Etr).
  assert (Hsame : (opened (s_rx s) = true -> failed (s_rx s) = false -> size < Z.of_nat (length (accept size ws) + length d)) ->
    receiving k s1 s (tr ++ [Write d])).
  { intros Hno. split; try done; [by destruct tr|]. intros n z ws' (ws2 & -> & E2)%snoc_write. rewrite Etr in E2.
    injection E2 as <- <- Hinj. apply list_fmap_eq_inj in Hinj; [|by intros ?? [= ->]]. subst ws2. intros Ho Hf.
    rewrite accept_snoc. specialize (Hno Ho Hf). if_false. by apply R7. }
  unfold blob_sink_write. rewrite (proj1 R1). cbn [negb orb].
  destruct (opened (s_rx s)) eqn:Eo; cbn [negb orb]; [|by apply Hsame].
  destruct (failed (s_rx s)) eqn:Ef; [by apply Hsame|]. destruct (R7 eq_refl eq_refl) as (Hsz & Ecap & En & Ep & Ec & Hh).
  set (data := accept size ws) in *. assert (Hpos : Z.of_nat (length data) <= size) by (apply accept_fits; lia).
  rewrite Ecap, Ep, u32_small by (geometry; lia).
  destruct (Z.ltb_spec size (Z.of_nat (length data))); [lia|]. cbn [orb].
  destruct (Z.ltb_spec (size - Z.of_nat (length data)) (Z.of_nat (length d))); [apply Hsame; lia|].
  rewrite (proj2 R1), payload_addr_val, u32_small by (done || geometry; lia).
  unfold do_write. destruct (flash_write _ d (nor s)) as [rc w'] eqn:E.
  assert (Hfit : Z.of_nat (length data + length d) <= BLOB_PAYLOAD_MAX) by lia.
  destruct (holds_data_app _ _ _ _ _ _ Hk (R5 eq_refl) Hd Hfit Hh E) as (F' & Hr & Hok).
  assert (Hcalls : exists cs, calls s ++ [(NorWrite (payload_base k + Z.of_nat (length data)) d, nor s)] = calls s1 ++ cs /\
    Forall (payload_call k (nor s1)) cs).
  { destruct R4 as (cs & -> & Hcs). eexists. split; [by rewrite <-app_assoc|]. apply Forall_app. split; [done|].
    constructor; [|done]. split; [cbn; lia|exact R2]. }
  destruct (Z.eqb_spec rc NOR_OK) as [->|Hrc]; cbn [negb snd].
  - destruct (Hok eq_refl) as [Hq' Hh']. split; cbn [set_rx s_rx nor calls slot armed opened failed cap pos crc rname]; try done.
    { intros x Hx. by rewrite F', R2. } { congruence. } { by destruct tr. }
    intros n z ws' (ws2 & -> & E2)%snoc_write _ _. rewrite Etr in E2.
    injection E2 as <- <- Hinj. apply list_fmap_eq_inj in Hinj; [|by intros ?? [= ->]]. subst ws2.
    rewrite accept_snoc. fold data. if_true. split_and!; try done; [lia|lia| |].
    + rewrite length_app. rewrite u32_small by (geometry; lia). lia.
    + by rewrite Ec, crc32_app.
  - split; cbn [set_rx s_rx nor calls slot armed opened failed cap pos crc rname]; try done.
    { intros x Hx. by rewrite F', R2. } { congruence. } { by destruct tr. }
Qed.

(** ** The commit *)

Definition slot_hdr w (k : Z) : list Z := cells w (slot_base k) BLOB_HDR_BYTES.
Definition valid w (k : Z) : Prop := state (blob_decode (slot_hdr w k)) = BLOB_VALID.

(** A power cut during a call: the bytes in its range may be anything. *)
Definition call_range (c : nor_call) (x : Z) : Prop :=
  match c with NorWrite a d => in_range a (Z.of_nat (length d)) x | NorErase a n => in_range a n x end.
Definition cut (c : nor_call) w w' : Prop := forall x, ~ call_range c x -> cell w' x = cell w x.

(** A power cut during the erase of a slot: [nor_erase] takes the slot's 64 KB blocks in
    ascending order, so those before the cut are blank, those after it as they were, and
    the one at the cut anything. *)
Definition erase_cut (a n : Z) w w' : Prop :=
  exists p, 0 <= p < n /\ p mod NOR_BLOCK_SIZE = 0 /\ blank w' a p /\ forall x, ~ in_range a (p + NOR_BLOCK_SIZE) x -> cell w' x = cell w x.

Lemma blank_not_valid w k : blank w (slot_base k) 4 -> ~ valid w k.
Proof.
  intros Hb. apply decode_no_magic. change BLOB_HDR_BYTES with (4 + 76) in *. unfold slot_hdr. change BLOB_HDR_BYTES with (4 + 76).
  by rewrite (cells_take w _ 4 76), cells_blank.
Qed.

Lemma body_decides w k r :
  rx_ok r -> cells w (slot_base k + 4) 76 = drop 4 (header r) -> valid w k ->
  blob_decode (slot_hdr w k) = Info BLOB_VALID (rname r) (pos r) (crc r).
Proof.
  intros Hr Hb Hv. rewrite <-(decode_header r Hr). apply decode_same_body; [|done|by rewrite decode_header].
  rewrite <-Hb. unfold slot_hdr. change BLOB_HDR_BYTES with (4 + 76). by apply (cells_drop w _ 4 76).
Qed.

Lemma header_bytes r : rx_ok r -> bytes_ok (header r).
Proof.
  intros (Hn & Hl & Hp & Hc). unfold header, BLOB_NAME_MAX in *.
  apply Forall_app; split; [apply le32_range|]. apply Forall_app; split.
  { repeat constructor; unfold is_u8, BLOB_FMT_VER; lia. }
  apply Forall_app; split; [apply le16_range|]. do 2 (apply Forall_app; split; [apply le32_range|]).
  apply Forall_app; split; [|apply Forall_replicate; unfold is_u8; lia].
  eapply Forall_impl; [exact Hn|]. unfold is_u8. simpl. lia.
Qed.

(** [s'] came from [s] by calls of a commit of [r] into slot [k]: they stay in
    the header, and a power cut in any of them leaves no header that is valid and
    different from [r]'s. *)
Definition commit_call (k : Z) (r : rx) (w1 : W) (cw : nor_call * W) : Prop :=
  (forall x, ~ in_range (slot_base k) BLOB_HDR_BYTES x -> ~ call_range cw.1 x /\ cell cw.2 x = cell w1 x) /\
  forall w', cut cw.1 cw.2 w' -> valid w' k -> blob_decode (slot_hdr w' k) = Info BLOB_VALID (rname r) (pos r) (crc r).

Record committed (k : Z) (r : rx) (s s' : bst W) : Prop := {
  cm_frame : forall x, ~ in_range (slot_base k) BLOB_HDR_BYTES x -> cell (nor s') x = cell (nor s) x;
  cm_calls : exists cs, calls s' = calls s ++ cs /\ Forall (commit_call k r (nor s)) cs;
  cm_valid : valid (nor s') k -> blob_decode (slot_hdr (nor s') k) = Info BLOB_VALID (rname r) (pos r) (crc r);
}.

Lemma body_stage k r w rc w' :
  is_slot k -> rx_ok r -> quiescent w -> blank w (slot_base k) BLOB_HDR_BYTES ->
  flash_write (slot_base k + 4) (drop 4 (header r)) w = (rc, w') ->
  commit_call k r w (NorWrite (slot_base k + 4) (drop 4 (header r)), w) /\
  (forall x, ~ in_range (slot_base k) BLOB_HDR_BYTES x -> cell w' x = cell w x) /\ flash_ready w' = flash_ready w /\
  blank w' (slot_base k) 4 /\ (rc = NOR_OK -> quiescent w' /\ cells w' (slot_base k + 4) 76 = drop 4 (header r)).
Proof.
  intros Hk Hr Hq Hb E. assert (Hl : Z.of_nat (length (drop 4 (header r))) = 76) by (rewrite length_drop, header_length by apply Hr; done).
  assert (Ha : is_u32 (slot_base k + 4)) by (geometry; lia).
  assert (Hd : bytes_ok (drop 4 (header r))) by (apply Forall_drop, header_bytes, Hr).
  assert (Hu : is_u32 (Z.of_nat (length (drop 4 (header r))))) by (rewrite Hl; geometry; lia).
  destruct (write_law _ _ _ _ _ Ha Hd Hu Hq E) as (Hframe & Hrd & _). rewrite Hl in Hframe.
  assert (Hblank : forall w2, (forall x, ~ in_range (slot_base k + 4) 76 x -> cell w2 x = cell w x) -> blank w2 (slot_base k) 4).
  { intros w2 Hf x Hx. rewrite Hf by (geometry; lia). apply Hb. geometry. lia. }
  split; [split|split_and!]; try done.
  - intros x Hx. split; [|done]. cbn [call_range fst]. rewrite Hl. geometry. lia.
  - intros w2 Hcut []%blank_not_valid. apply Hblank. intros x Hx. apply Hcut. cbn [call_range fst]. by rewrite Hl.
  - intros x Hx. apply Hframe. geometry. lia.
  - by apply Hblank.
  - intros ->. destruct (write_blank _ _ _ w' Ha Hd Hu Hq) as [Hc Hq']; [|exact E|by rewrite Hl in Hc].
    intros x Hx. apply Hb. rewrite Hl in Hx. geometry. lia.
Qed.

Lemma magic_stage k r w1 w rc w' :
  is_slot k -> rx_ok r -> quiescent w -> (forall x, ~ in_range (slot_base k) BLOB_HDR_BYTES x -> cell w x = cell w1 x) ->
  blank w (slot_base k) 4 -> cells w (slot_base k + 4) 76 = drop 4 (header r) ->
  flash_write (slot_base k) (take 4 (header r)) w = (rc, w') ->
  commit_call k r w1 (NorWrite (slot_base k) (take 4 (header r)), w) /\
  (forall x, ~ in_range (slot_base k) BLOB_HDR_BYTES x -> cell w' x = cell w x) /\ flash_ready w' = flash_ready w /\
  (valid w' k -> blob_decode (slot_hdr w' k) = Info BLOB_VALID (rname r) (pos r) (crc r)) /\
  (rc = NOR_OK -> quiescent w' /\ valid w' k).
Proof.
  intros Hk Hr Hq Hw1 Hb Hbody E. pose proof (header_length r (proj1 (proj2 Hr))) as Hlen.
  assert (Hl : Z.of_nat (length (take 4 (header r))) = 4) by (rewrite length_take, Hlen; done).
  assert (Ha : is_u32 (slot_base k)) by (geometry; lia).
  assert (Hd : bytes_ok (take 4 (header r))) by (apply Forall_take, header_bytes, Hr).
  assert (Hu : is_u32 (Z.of_nat (length (take 4 (header r))))) by (rewrite Hl; geometry; lia).
  destruct (write_law _ _ _ _ _ Ha Hd Hu Hq E) as (Hframe & Hrd & _). rewrite Hl in Hframe.
  assert (Hdec : forall w2, (forall x, ~ in_range (slot_base k) 4 x -> cell w2 x = cell w x) ->
    cells w2 (slot_base k + 4) 76 = drop 4 (header r)).
  { intros w2 Hf. rewrite <-Hbody. apply cells_ext. intros x Hx. apply Hf. geometry. lia. }
  split; [split|split_and!]; try done.
  - intros x Hx. split; [|by apply Hw1]. cbn [call_range fst]. rewrite Hl. geometry. lia.
  - intros w2 Hcut. apply body_decides; [done|]. apply Hdec. intros x Hx. apply Hcut. cbn [call_range fst]. by rewrite Hl.
  - intros x Hx. apply Hframe. geometry. lia.
  - apply body_decides; [done|]. by apply Hdec.
  - intros ->. destruct (write_blank _ _ _ w' Ha Hd Hu Hq) as [Hc Hq']; [by rewrite Hl|exact E|]. split; [done|].
    unfold valid. replace (slot_hdr w' k) with (header r); [by rewrite decode_header|].
    unfold slot_hdr. change BLOB_HDR_BYTES with (4 + 76). rewrite cells_app by done. rewrite Hl in Hc.
    rewrite Hc, (Hdec w' Hframe). by rewrite take_drop.
Qed.

Lemma do_read_spec a n s rc d s' : is_u32 a -> is_u32 n -> quiescent (nor s) -> do_read a n s = (rc, d, s') ->
  (forall x, cell (nor s') x = cell (nor s) x) /\ quiescent (nor s') /\ flash_ready (nor s') = flash_ready (nor s) /\
  s_rx s' = s_rx s /\ blob_busy s' = blob_busy s /\ calls s' = calls s /\ (rc = NOR_OK -> d = cells (nor s) a n).
Proof.
  intros Ha Hn Hq. unfold do_read. destruct (flash_read a n (nor s)) as [[r d1] w] eqn:E. intros [= <- <- <-].
  destruct (read_law _ _ _ _ _ _ Ha Hn Hq E) as (Hc & Hq' & Hr & Hok). cbn. split_and!; try done. intros ->. by apply Hok.
Qed.

Lemma blob_recv_commit_spec k s rc out s' :
  let r := s_rx s in
  is_slot k -> slot r = k -> rx_ok r -> quiescent (nor s) -> blank (nor s) (slot_base k) BLOB_HDR_BYTES ->
  blob_recv_commit s = (rc, out, s') ->
  committed k r s s' /\ (rc = BLOB_OK -> armed r = true /\ opened r = true /\ failed r = false /\ pos r = cap r /\
    valid (nor s') k /\ quiescent (nor s') /\ flash_ready (nor s') = flash_ready (nor s) /\
    out = Some (Info BLOB_VALID (rname r) (pos r) (crc r))).
Proof.
  intros r Hk Hsl Hr Hq Hblank.
  assert (Hnone : committed k r s s).
  { split; [done|by exists []; rewrite app_nil_r|]. intros []%blank_not_valid. intros x Hx. apply Hblank. geometry. lia. }
  unfold blob_recv_commit. fold r. destruct (armed r), (opened r), (failed r); cbn [negb orb]; try by intros [= <- <- <-].
  destruct (Z.eqb_spec (pos r) (cap r)) as [Hpc|]; cbn [negb]; [|by intros [= <- <- <-]].
  change (Z.to_nat BLOB_HDR_BODY) with 4%nat. change (BLOB_HDR_BYTES - BLOB_HDR_BODY) with 76.
  rewrite Hsl, slot_addr_val, u32_small by (done || geometry; lia). change BLOB_HDR_BODY with 4.
  unfold do_write at 1. destruct (flash_write (slot_base k + 4) _ (nor s)) as [rc1 w1] eqn:E1.
  destruct (body_stage _ _ _ _ _ Hk Hr Hq Hblank E1) as (C1 & F1 & R1 & B1 & Ok1).
  set (s1 := Bst w1 _ _ _). assert (K1 : committed k r s s1).
  { split; [done|eexists; split; [done|by constructor]|]. by intros []%blank_not_valid. }
  destruct (Z.eqb_spec rc1 NOR_OK) as [->|]; cbn [negb]; [|by intros [= <- <- <-]].
  destruct (Ok1 eq_refl) as [Q1 Hbody]. destruct (do_read (slot_base k + 4) 76 s1) as [[rc2 back] s2] eqn:E2.
  apply do_read_spec in E2 as (A2 & Q2 & R2 & X2 & Y2 & L2 & _); [|geometry; lia|geometry; lia|done].
  assert (K2 : committed k r s s2).
  { destruct K1 as [K1 (cs & Kc & Kcs) K3]. split.
    - intros x Hx. by rewrite A2, K1.
    - exists cs. by rewrite L2.
    - intros []%blank_not_valid. intros x Hx. by rewrite A2, B1. }
  destruct (negb (rc2 =? NOR_OK) || _); [by intros [= <- <- <-]|].
  unfold do_write. destruct (flash_write (slot_base k) _ (nor s2)) as [rc3 w3] eqn:E3.
  edestruct (magic_stage k r (nor s)) as (C3 & F3 & R3 & V3 & Ok3); [done|done|exact Q2| | | |exact E3|].
  { intros x Hx. by rewrite A2, F1. } { intros x Hx. by rewrite A2, B1. }
  { rewrite <-Hbody. apply cells_ext. intros x _. apply A2. }
  set (s3 := Bst w3 _ _ _). assert (K3 : committed k r s s3).
  { destruct K2 as [K2 (cs & Kc & Kcs) _]. split; [|eexists; cbn [s3 calls]; rewrite Kc, <-app_assoc; split; [done|]|exact V3].
    - intros x Hx. cbn [s3 nor]. rewrite F3 by done. by apply K2.
    - apply Forall_app. split; [done|]. constructor; [exact C3|constructor]. }
  destruct (Z.eqb_spec rc3 NOR_OK) as [->|]; cbn [negb]; [|by intros [= <- <- <-]]. destruct (Ok3 eq_refl) as [Q3 Hv].
  destruct (do_read (slot_base k) 4 s3) as [[rc4 back4] s4] eqn:E4.
  apply do_read_spec in E4 as (A4 & Q4 & R4 & X4 & Y4 & L4 & _); [|geometry; lia|geometry; lia|done].
  assert (Eh : slot_hdr (nor s4) k = slot_hdr w3 k) by (apply cells_ext; intros x _; apply A4).
  assert (K4 : forall s5, nor s5 = nor s4 -> calls s5 = calls s4 -> committed k r s s5).
  { destruct K3 as [K3 (cs & Kc & Kcs) Kv]. intros s5 En El. split.
    - intros x Hx. rewrite En, A4. by apply K3.
    - exists cs. by rewrite El, L4.
    - rewrite En. unfold valid. rewrite Eh. exact Kv. }
  destruct (negb (rc4 =? NOR_OK) || _); intros [= <- <- <-]; (split; [by apply K4|]); [done|].
  intros _. cbn [blob_rx_reset set_rx nor]. unfold valid. rewrite Eh. split_and!; try done.
  exact (eq_trans R4 (eq_trans R3 (eq_trans R2 R1))).
Qed.

(** ** Reading back *)

(** Only reads: the flash, the receive state and the trace are as they were. *)
Record only_reads (s s' : bst W) : Prop := {
  or_cells : forall x, cell (nor s') x = cell (nor s) x;
  or_quiet : quiescent (nor s');
  or_rx : s_rx s' = s_rx s;
  or_busy : blob_busy s' = blob_busy s;
  or_calls : calls s' = calls s;
  or_ready : flash_ready (nor s') = flash_ready (nor s);
}.

Lemma only_reads_refl s : quiescent (nor s) -> only_reads s s.
Proof. by split. Qed.

Lemma only_reads_trans s1 s2 s3 : only_reads s1 s2 -> only_reads s2 s3 -> only_reads s1 s3.
Proof.
  intros [C1 _ X1 B1 L1 R1] [C2 Q2 X2 B2 L2 R2]. split; congruence.
Qed.

Lemma do_read_only a n s rc d s' : is_u32 a -> is_u32 n -> quiescent (nor s) -> do_read a n s = (rc, d, s') ->
  only_reads s s' /\ (rc = NOR_OK -> d = cells (nor s) a n).
Proof. intros Ha Hn Hq E. destruct (do_read_spec _ _ _ _ _ _ Ha Hn Hq E) as (? & ? & ? & ? & ? & ? & ?). by split. Qed.

(** [blob_stat] answers what the header decodes to. *)
Lemma blob_stat_spec k s rc info s' : is_slot k -> quiescent (nor s) -> blob_stat k s = (rc, info, s') ->
  only_reads s s' /\ (rc = BLOB_OK -> info = blob_decode (slot_hdr (nor s) k)).
Proof.
  intros Hk Hq. unfold blob_stat, slot_ok. destruct (Z.ltb_spec k BLOB_SLOT_COUNT); cbn [negb]; [|by intros [= <- <- <-]].
  destruct (flash_ready (nor s)); cbn [negb]; [|by intros [= <- <- <-]].
  destruct (do_read (blob_slot_addr k) BLOB_HDR_BYTES s) as [[rc1 d] s1] eqn:E.
  rewrite slot_addr_val in E by done. apply do_read_only in E as [Hr Hd]; [|geometry; lia|geometry; lia|done].
  destruct (Z.eqb_spec rc1 NOR_OK) as [->|]; cbn [negb]; intros [= <- <- <-]; [|done].
  split; [done|]. intros _. by rewrite Hd.
Qed.

Lemma crc_loop_spec k len fuel done_ acc s :
  is_slot k -> quiescent (nor s) -> 0 <= done_ <= len -> len <= BLOB_PAYLOAD_MAX -> len - done_ < Z.of_nat fuel ->
  exists r s', crc_loop fuel k len done_ acc s = Some (r, s') /\ only_reads s s' /\ (forall e, r = inl e -> e = BLOB_ERR_IO) /\
    (forall c, r = inr c -> is_u32 acc -> c = fdb_calc_crc32 acc (cells (nor s) (payload_base k + done_) (len - done_))).
Proof.
  intros Hk. revert done_ acc s. induction fuel as [|fuel IH]; intros dn acc s Hq Hd Hl Hf; [lia|]. cbn [crc_loop].
  destruct (Z.leb_spec len dn).
  { do 2 eexists. split; [done|]. split; [by apply only_reads_refl|]. split; [done|]. intros c [= <-] Ha.
    replace (len - dn) with 0 by lia. by rewrite crc32_nil. }
  rewrite (u32_small (len - dn)) by (geometry; lia). rewrite payload_addr_val by done.
  set (chunk := if NOR_PAGE_SIZE <? len - dn then NOR_PAGE_SIZE else len - dn).
  assert (Hc : 0 < chunk <= len - dn) by (unfold chunk; geometry; case_if; lia). clearbody chunk.
  rewrite (u32_small (payload_base k + dn)), (u32_small (dn + chunk)) by (geometry; lia).
  destruct (do_read (payload_base k + dn) chunk s) as [[rc d] s1] eqn:E.
  apply do_read_only in E as [Hr Hdat]; [|geometry; lia|geometry; lia|done].
  destruct (Z.eqb_spec rc NOR_OK) as [->|]; cbn [negb]; [|do 2 eexists; split_and!; try done; by intros e [= <-]].
  destruct (IH (dn + chunk) (fdb_calc_crc32 acc d) s1) as (r & s' & -> & Hr' & Herr & Hcrc); [apply Hr|lia|done|lia|].
  do 2 eexists. split; [done|]. split; [by eapply only_reads_trans|]. split; [done|]. intros c Hc' Ha.
  rewrite (Hcrc c Hc') by by apply crc32_range. rewrite crc32_app, Hdat by done. f_equal.
  replace (len - dn) with (chunk + (len - (dn + chunk))) by lia. rewrite cells_app by lia. f_equal.
  rewrite Z.add_assoc. apply cells_ext. intros x _. apply Hr.
Qed.

Lemma decode_length h : state (blob_decode h) = BLOB_VALID ->
  bytes_ok h -> 0 < blob_length (blob_decode h) <= BLOB_PAYLOAD_MAX /\ Forall (fun c => 32 <= c < 127) (name (blob_decode h)).
Proof.
  intros Hv Hb. assert (H0 : is_u32 (get32 (drop 8 h))) by (apply get32_range; by apply Forall_drop).
  unfold is_u32 in H0. unfold blob_decode in *. repeat (case_if_in Hv; [done|]). cbn [blob_length name].
  split; [lia|]. apply Forall_map, Forall_true. intros c. apply safe_char_safe.
Qed.

Lemma blob_verify_spec k s : is_slot k -> quiescent (nor s) ->
  exists rc c s', blob_verify k s = Some (rc, c, s') /\ only_reads s s' /\
    let info := blob_decode (slot_hdr (nor s) k) in
    let data := cells (nor s) (payload_base k) (blob_length info) in
    (rc = BLOB_OK -> state info = BLOB_VALID /\ fdb_calc_crc32 0 data = blob_crc32 info) /\
    (rc = BLOB_ERR_EMPTY -> state info <> BLOB_VALID) /\
    (rc = BLOB_ERR_CRC -> state info = BLOB_VALID /\ fdb_calc_crc32 0 data <> blob_crc32 info).
Proof.
  intros Hk Hq. unfold blob_verify. destruct (blob_stat k s) as [[rc info] s1] eqn:E.
  pose proof E as E'. apply blob_stat_spec in E as [Hr Hinfo]; [|done..].
  assert (Hrc : rc = BLOB_OK \/ rc = BLOB_ERR_PARAM \/ rc = BLOB_ERR_STATE \/ rc = BLOB_ERR_IO).
  { revert E'. unfold blob_stat. case_if; [intros [= <- _ _]; auto|]. case_if; [intros [= <- _ _]; auto|].
    destruct (do_read _ _ s) as [[x d] s2]. case_if; intros [= <- _ _]; auto. }
  destruct (Z.eqb_spec rc BLOB_OK) as [->|]; cbn [negb].
  2:{ do 3 eexists. split; [done|]. split; [done|]. split_and!; intros ->; (try done); by destruct Hrc as [|[|[|]]]. }
  rewrite (Hinfo eq_refl). case_bool_decide as Hv; cbn [negb].
  2:{ do 3 eexists. split; [done|]. split; [done|]. split_and!; by intros. }
  assert (Hb : bytes_ok (slot_hdr (nor s) k)) by (apply Forall_map, Forall_true; intros; apply cell_u8).
  destruct (decode_length _ Hv Hb) as [Hlen _]. set (len := blob_length (blob_decode (slot_hdr (nor s) k))) in *.
  destruct (crc_loop_spec k len (S (Z.to_nat len)) 0 0 s1) as (r & s2 & -> & Hr2 & He & Hc);
    [done|apply Hr|lia|lia|lia|]. cbn [mbind option_bind]. pose proof (only_reads_trans _ _ _ Hr Hr2) as Hr3.
  rewrite Z.add_0_r, Z.sub_0_r in Hc.
  assert (Ecells : cells (nor s1) (payload_base k) len = cells (nor s) (payload_base k) len).
  { apply cells_ext. intros x _. apply Hr. }
  destruct r as [rc|c].
  - rewrite (He rc eq_refl). do 3 eexists. split; [done|]. split; [done|]. by split_and!.
  - do 3 eexists. split; [done|]. split; [done|]. specialize (Hc c eq_refl ltac:(done)). rewrite Ecells in Hc. rewrite <-Hc.
    destruct (Z.eqb_spec c (blob_crc32 (blob_decode (slot_hdr (nor s) k)))); split_and!; try done.
Qed.

(** ** The whole transfer *)

Lemma blob_recv_arm_spec k s rc s1 : is_slot k -> quiescent (nor s) -> blob_recv_arm k s = (rc, s1) ->
  (forall x, ~ in_range (slot_base k) BLOB_SLOT_SIZE x -> cell (nor s1) x = cell (nor s) x) /\
  (rc = BLOB_OK -> receiving k s1 s1 [] /\ blank (nor s1) (slot_base k) BLOB_HDR_SIZE).
Proof.
  intros Hk Hq. unfold blob_recv_arm, blob_erase, slot_ok.
  destruct (Z.ltb_spec k BLOB_SLOT_COUNT); cbn [negb]; [|by intros [= <- <-]].
  cbn [blob_rx_reset set_rx nor]. destruct (flash_ready (nor s)); cbn [negb]; [|by intros [= <- <-]].
  unfold do_erase. cbn [blob_rx_reset set_rx nor s_rx blob_busy calls]. rewrite slot_addr_val by done.
  destruct (flash_erase (slot_base k) BLOB_SLOT_SIZE (nor s)) as [r w] eqn:E.
  assert (Ha : is_u32 (slot_base k)) by (geometry; lia). assert (Hl : is_u32 BLOB_SLOT_SIZE) by (geometry; lia).
  destruct (erase_law _ _ _ _ _ Ha Hl Hq E) as (Hf & Hr & Hok).
  destruct (Z.eqb_spec r NOR_OK) as [->|]; cbn [negb Z.eqb]; intros [= <- <-]; [|done].
  split; [done|]. intros _. destruct (Hok eq_refl) as (_ & Hq' & Hb).
  split; [|intros x Hx; apply Hb; geometry; lia]. split; cbn [set_rx nor s_rx calls armed slot opened failed]; try done.
  - by exists []; rewrite app_nil_r.
  - intros _. split_and!; try done. split; [done|]. intros x Hx. apply Hb. cbn [length] in Hx. geometry. lia.
Qed.

(** A commit that does not write. *)
Lemma commit_refuses s rc out s' :
  let r := s_rx s in
  ~ (armed r = true /\ opened r = true /\ failed r = false /\ pos r = cap r) ->
  blob_recv_commit s = (rc, out, s') -> rc <> BLOB_OK /\ s' = s.
Proof.
  intros r Hno. unfold blob_recv_commit. fold r. destruct (armed r), (opened r), (failed r); cbn [negb orb]; try by intros [= <- <- <-].
  destruct (Z.eqb_spec (pos r) (cap r)); [by destruct Hno|]. by intros [= <- <- <-].
Qed.

(** What a complete transfer leaves in the receive state. *)
Lemma complete_rx k s1 s name size ws :
  receiving k s1 s (Begin name size :: map Write ws) -> written ws <= size ->
  opened (s_rx s) = true -> failed (s_rx s) = false -> pos (s_rx s) = cap (s_rx s) ->
  rx_ok (s_rx s) /\ size = Z.of_nat (length (concat ws)) /\ rname (s_rx s) = stored_name name /\
  pos (s_rx s) = Z.of_nat (length (concat ws)) /\ crc (s_rx s) = fdb_calc_crc32 0 (concat ws) /\
  cells (nor s) (payload_base k) (Z.of_nat (length (concat ws))) = concat ws.
Proof.
  intros R Hw Ho Hf Hp. destruct (rc_data _ _ _ _ R _ _ _ eq_refl Ho Hf) as (Hs & Ec & En & Ep & Ecrc & [Hd _]).
  rewrite accept_all in * by done. split_and!; try done; [|congruence].
  split_and!; try lia.
  - rewrite En. apply Forall_map, Forall_true. intros c. apply safe_char_safe.
  - rewrite En. unfold stored_name. rewrite length_map, length_take. lia.
  - rewrite Ecrc. by apply crc32_range.
Qed.
End transfer.

Section command.
Context {L W : Type} `{YmIo L} `{NL : NorLaws W} `{CR : Crc32}.
Implicit Types (l : L) (w : W) (s : bst W).

Lemma receive_spec fuel k l s1 rc st :
  is_slot k -> receiving k s1 s1 [] -> ymodem_recv fuel (l, s1) = Some (rc, st) -> receiving k s1 (r_w st).2 (r_sink st).
Proof.
  intros Hk R E. assert (Hsh : shape (r_sink st)).
  { destruct (recv_contract fuel (l, s1) rc st E) as [[-> _]|(name & size & h & b & ws & _ & _ & -> & _)]; [by left|right; eauto]. }
  revert Hsh. apply (sink_tracked (fun (x : L * bst W) tr => shape tr -> receiving k s1 x.2 tr)) with fuel (l, s1) rc; try done.
  - intros ms [l0 s] tr Hp. simpl. destruct (getc ms l0). exact Hp.
  - intros bs [l0 s] tr Hp. simpl. destruct (put bs l0). exact Hp.
  - intros nm size [l0 s] tr Hs Hp Hsh. pose proof (shape_snoc _ _ Hsh) as Hsh'.
    pose proof (sink_begin_receiving k s1 s tr nm size Hk Hs Hsh (Hp Hsh')) as Hr. simpl. by destruct (blob_sink_begin nm size s).
  - intros d [l0 s] tr Hd Hdl Hp Hsh. pose proof (shape_snoc _ _ Hsh) as Hsh'.
    pose proof (sink_write_receiving k s1 s tr d Hk Hd Hdl Hsh (Hp Hsh')) as Hr. simpl. by destruct (blob_sink_write d s).
Qed.

(** The receiver reported success, having handed its sink the name and, in order,
    the bytes of [data], as many as the sender had declared. *)
Definition received (fuel : nat) l s1 (nm data : list Z) : Prop :=
  exists name ws st, ymodem_recv fuel (l, s1) = Some (YM_OK, st) /\
    r_sink st = Begin name (Z.of_nat (length data)) :: map Write ws /\ concat ws = data /\ nm = stored_name name.

(** Slot [k] holds the file [data] under the name [nm]. *)
Definition stored w (k : Z) (nm data : list Z) : Prop :=
  blob_decode (slot_hdr w k) = Info BLOB_VALID nm (Z.of_nat (length data)) (fdb_calc_crc32 0 data) /\
  cells w (payload_base k) (Z.of_nat (length data)) = data.

(** If the slot reads as valid, it holds all of a file received. *)
Definition valid_is_complete (fuel : nat) l s1 (k : Z) w : Prop :=
  valid w k -> exists nm data, received fuel l s1 nm data /\ stored w k nm data.

Definition cut_safe (fuel : nat) l s1 (k : Z) (cw : nor_call * W) : Prop :=
  forall w', cut cw.1 cw.2 w' -> valid_is_complete fuel l s1 k w'.

Lemma payload_call_safe fuel l s1 k cw :
  is_slot k -> blank (nor s1) (slot_base k) BLOB_HDR_SIZE -> payload_call k (nor s1) cw -> cut_safe fuel l s1 k cw.
Proof.
  intros Hk Hb [Hin Hf] w' Hcut []%blank_not_valid. intros x Hx.
  destruct cw as [[a d|a n] w]; [|done]. cbn [fst snd] in *. rewrite (Hcut x) by (cbn [call_range]; geometry; lia).
  rewrite Hf by (geometry; lia). apply Hb. geometry. lia.
Qed.

Lemma receiving_blank k s1 s tr :
  blank (nor s1) (slot_base k) BLOB_HDR_SIZE -> receiving k s1 s tr -> blank (nor s) (slot_base k) BLOB_HDR_SIZE.
Proof. intros Hb R x Hx. rewrite (rc_frame _ _ _ _ R) by (geometry; lia). by apply Hb. Qed.

(** The end of a transfer that reported success. *)
Lemma received_rx fuel k l s1 st :
  is_slot k -> receiving k s1 s1 [] -> ymodem_recv fuel (l, s1) = Some (YM_OK, st) ->
  let s := (r_w st).2 in
  opened (s_rx s) = true -> failed (s_rx s) = false -> pos (s_rx s) = cap (s_rx s) ->
  rx_ok (s_rx s) /\ exists data,
    received fuel l s1 (rname (s_rx s)) data /\ pos (s_rx s) = Z.of_nat (length data) /\
    crc (s_rx s) = fdb_calc_crc32 0 data /\ cells (nor s) (payload_base k) (Z.of_nat (length data)) = data.
Proof.
  intros Hk R1 E s Ho Hf Hp. pose proof (receive_spec _ _ _ _ _ _ Hk R1 E) as R. fold s in R.
  destruct (recv_contract _ _ _ _ E) as [[_ []]|(nm & size & h & b & ws & Hparse & _ & Htr & _ & Hle & _)]; [done|].
  rewrite Htr in R. destruct h.
  2:{ apply undeclared_size in Hparse as ->. destruct (rc_data _ _ _ _ R _ _ _ eq_refl Ho Hf) as ([? _] & _). lia. }
  destruct (complete_rx _ _ _ _ _ _ R (Hle eq_refl) Ho Hf Hp) as (Hok & Hsz & En & Ep & Ec & Hd).
  split; [done|]. exists (concat ws). split_and!; try done. exists nm, ws, st. by rewrite <-Hsz.
Qed.

(** A commit after it. *)
Lemma commit_safe fuel k l s1 st rc out s' :
  is_slot k -> receiving k s1 s1 [] -> blank (nor s1) (slot_base k) BLOB_HDR_SIZE ->
  ymodem_recv fuel (l, s1) = Some (YM_OK, st) -> let s := (r_w st).2 in
  blob_recv_commit s = (rc, out, s') ->
  (forall x, ~ in_range (slot_base k) BLOB_SLOT_SIZE x -> cell (nor s') x = cell (nor s) x) /\
  valid_is_complete fuel l s1 k (nor s') /\
  (exists cs, calls s' = calls s ++ cs /\ Forall (cut_safe fuel l s1 k) cs) /\
  (rc = BLOB_OK -> valid (nor s') k /\ quiescent (nor s')).
Proof.
  intros Hk R1 Hb1 E s Ec. pose proof (receive_spec _ _ _ _ _ _ Hk R1 E) as R. fold s in R.
  pose proof (receiving_blank _ _ _ _ Hb1 R) as Hb. set (r := s_rx s).
  destruct (decide (armed r = true /\ opened r = true /\ failed r = false /\ pos r = cap r)) as [(_ & Ho & Hf & Hp)|Hno].
  2:{ destruct (commit_refuses _ _ _ _ Hno Ec) as [Hrc ->]. split; [done|]. split; [|split; [by exists []; rewrite app_nil_r|done]].
      intros []%blank_not_valid. intros x Hx. apply Hb. geometry. lia. }
  destruct (received_rx _ _ _ _ _ Hk R1 E Ho Hf Hp) as (Hok & data & Hrec & Ep & Ecrc & Hdata). fold s r in Hrec, Ep, Ecrc, Hdata.
  destruct (blob_recv_commit_spec k s rc out s') as [[Cf (cs & Cc & Ccs) Cv] Cok]; try done.
  { apply R. } { by apply (rc_quiet _ _ _ _ R). } { intros x Hx. apply Hb. geometry. lia. }
  fold r in Ccs, Cv, Cok.
  (* a valid header is the transfer's, and the payload was not touched *)
  assert (Hst : forall w, (forall x, ~ in_range (slot_base k) BLOB_HDR_BYTES x -> cell w x = cell (nor s) x) ->
    (valid w k -> blob_decode (slot_hdr w k) = Info BLOB_VALID (rname r) (pos r) (crc r)) -> valid_is_complete fuel l s1 k w).
  { intros w Hw Hdec Hv. exists (rname r), data. split; [done|]. split; [by rewrite Hdec, Ep, Ecrc|].
    rewrite <-Hdata at 2. apply cells_ext. intros x Hx. apply Hw.
    destruct (proj1 (proj2 (proj2 Hok))) as [_ Hmax]. geometry. lia. }
  split; [intros x Hx; apply Cf; geometry; lia|]. split; [by apply Hst|]. split.
  - exists cs. split; [done|]. eapply Forall_impl; [exact Ccs|]. intros cw [Hfr Hdec] w' Hcut.
    apply Hst; [|by apply Hdec]. intros x Hx. destruct (Hfr x Hx) as [Hout Heq]. by rewrite Hcut.
  - intros Hrc. destruct (Cok Hrc) as (_ & _ & _ & _ & ? & ? & _). done.
Qed.

Lemma blob_write_body_spec fuel k l s ok l' s' :
  is_slot k -> quiescent (nor s) -> blob_write_body fuel k l s = Some (ok, (l', s')) ->
  (forall x, ~ in_range (slot_base k) BLOB_SLOT_SIZE x -> cell (nor s') x = cell (nor s) x) /\
  (forall s1, blob_recv_arm k s = (BLOB_OK, s1) ->
    valid_is_complete fuel l s1 k (nor s') /\
    exists cs, calls s' = calls s1 ++ cs /\ Forall (cut_safe fuel l s1 k) cs) /\
  (ok = true -> valid (nor s') k /\ exists s1, blob_recv_arm k s = (BLOB_OK, s1)).
Proof.
  intros Hk Hq. unfold blob_write_body. destruct (blob_recv_arm k s) as [rc s1] eqn:Ea.
  destruct (blob_recv_arm_spec _ _ _ _ Hk Hq Ea) as [Fa Ha].
  destruct (Z.eqb_spec rc BLOB_OK) as [->|Hrc]; cbn [negb].
  2:{ intros [= <- <- <-]. split; [done|]. split; [|done]. intros s2 [= -> _]. done. }
  destruct (Ha eq_refl) as [R1 Hb1]. clear Ha.
  destruct (ymodem_recv fuel (l, s1)) as [[res st]|] eqn:E; [|done]. cbn [mbind option_bind].
  pose proof (receive_spec _ _ _ _ _ _ Hk R1 E) as R. pose proof (receiving_blank _ _ _ _ Hb1 R) as Hb.
  destruct (rc_calls _ _ _ _ R) as (cs & Hcs & Hsafe).
  assert (Hcs' : Forall (cut_safe fuel l s1 k) cs).
  { eapply Forall_impl; [exact Hsafe|]. intros cw. by apply payload_call_safe. }
  assert (Hframe : forall x, ~ in_range (slot_base k) BLOB_SLOT_SIZE x -> cell (nor (r_w st).2) x = cell (nor s) x).
  { intros x Hx. rewrite (rc_frame _ _ _ _ R) by (geometry; lia). by apply Fa. }
  assert (Hinv : valid_is_complete fuel l s1 k (nor (r_w st).2)).
  { intros []%blank_not_valid. intros x Hx. apply Hb. geometry. lia. }
  destruct (r_w st) as [l2 s2] eqn:Ew. cbn [snd] in *.
  case_bool_decide as Hres; cbn [negb].
  2:{ intros [= <- <- <-]. split; [done|]. split; [|done]. intros ? [= <-]. split; [done|]. by exists cs. }
  subst res. destruct (blob_recv_commit s2) as [[rc2 out] s3] eqn:Ec.
  destruct (commit_safe fuel k l s1 st rc2 out s3) as (F3 & V3 & (cs3 & Hcs3 & Hcut3) & Ok3); [done|done|done|done|by rewrite Ew|].
  rewrite Ew in *. cbn [snd] in *.
  assert (Hall : forall s4, (forall x, cell (nor s4) x = cell (nor s3) x) -> calls s4 = calls s3 ->
    (forall x, ~ in_range (slot_base k) BLOB_SLOT_SIZE x -> cell (nor s4) x = cell (nor s) x) /\
    (forall s0, (BLOB_OK, s1) = (BLOB_OK, s0) -> valid_is_complete fuel l s0 k (nor s4) /\
      exists cs, calls s4 = calls s0 ++ cs /\ Forall (cut_safe fuel l s0 k) cs)).
  { intros s4 E4 L4. split; [intros x Hx; by rewrite E4, F3, Hframe|]. intros ? [= <-]. split.
    - unfold valid_is_complete, valid, stored, slot_hdr in *.
      rewrite (cells_ext (nor s3) (nor s4)) by (by intros x _; rewrite E4). intros Hv.
      destruct (V3 Hv) as (nm & data & Hr & Hdec & Hd). exists nm, data. split; [done|]. split; [done|].
      rewrite <-Hd at 2. apply cells_ext. by intros x _; rewrite E4.
    - exists (cs ++ cs3). rewrite L4, Hcs3, Hcs, app_assoc. split; [done|]. by apply Forall_app. }
  destruct (Z.eqb_spec rc2 BLOB_OK) as [->|]; cbn [negb].
  2:{ intros [= <- <- <-]. destruct (Hall (blob_recv_disarm s3)) as [? ?]; done. }
  destruct (Ok3 eq_refl) as [Hv Hq3]. destruct (blob_verify_spec k s3 Hk Hq3) as (rc4 & c & s4 & -> & Hr4 & _).
  cbn [mbind option_bind]. intros [= <- <- <-]. destruct (Hall s4) as [? ?]; [apply Hr4|apply Hr4|].
  split; [done|]. split; [done|]. intros _. split; [|by eexists]. unfold valid, slot_hdr in *.
  by rewrite (cells_ext (nor s3) (nor s4)) by (intros x _; apply Hr4).
Qed.

(** With a line that eventually falls silent, the command comes to an end. *)
#[export] Program Instance blob_line `{!FiniteLine L} : FiniteLine (L * bst W) := {|
  left_on_line x := left_on_line x.1;
|}.
Next Obligation. intros Hf ms [l s]. pose proof (getc_left ms l) as G. simpl in *. by destruct (getc ms l). Qed.
Next Obligation. intros Hf ms [l s]. pose proof (getc_range ms l) as G. simpl in *. by destruct (getc ms l). Qed.
Next Obligation. intros Hf ms [l s]. pose proof (getc_byte ms l) as G. simpl in *. by destruct (getc ms l). Qed.
Next Obligation. intros Hf bs [l s]. pose proof (put_left bs l) as G. simpl in *. by destruct (put bs l). Qed.
Next Obligation. intros Hf nm z [l s]. simpl. by destruct (blob_sink_begin nm z s). Qed.
Next Obligation. intros Hf d [l s]. simpl. by destruct (blob_sink_write d s). Qed.
Next Obligation. intros Hf n [l s]. pose proof (read_left n l) as G. simpl in *. by destruct (src_read n l). Qed.
Next Obligation.
  intros Hf n [l s] bs [l' s'] E. simpl in E. destruct (src_read n l) as [d l2] eqn:E2. injection E as -> -> ->.
  by eapply read_want.
Qed.

Lemma blob_write_body_total `{!FiniteLine L} fuel k l s :
  is_slot k -> quiescent (nor s) -> (YM_HANDSHAKE_RETRIES + left_on_line l < fuel)%nat ->
  exists ok l' s', blob_write_body fuel k l s = Some (ok, (l', s')).
Proof.
  intros Hk Hq Hf. unfold blob_write_body. destruct (blob_recv_arm k s) as [rc s1] eqn:Ea.
  destruct (blob_recv_arm_spec _ _ _ _ Hk Hq Ea) as [_ Ha].
  destruct (Z.eqb_spec rc BLOB_OK) as [->|Hrc]; cbn [negb]; [|eauto].
  destruct (Ha eq_refl) as [R1 Hb1]. assert (Hf' : (YM_HANDSHAKE_RETRIES + left_on_line (l, s1) < fuel)%nat) by exact Hf.
  destruct (ymodem_recv_total fuel (l, s1) Hf') as (res & st & E). rewrite E.
  cbn [mbind option_bind]. destruct (r_w st) as [l2 s2] eqn:Ew. case_bool_decide as Hres; cbn [negb]; [|eauto].
  subst res. destruct (blob_recv_commit s2) as [[rc2 out] s3] eqn:Ec.
  destruct (Z.eqb_spec rc2 BLOB_OK) as [->|]; cbn [negb]; [|eauto].
  destruct (commit_safe fuel k l s1 st BLOB_OK out s3) as (_ & _ & _ & Ok3); [done|done|done|done|by rewrite Ew|].
  destruct (Ok3 eq_refl) as [_ Hq3]. destruct (blob_verify_spec k s3 Hk Hq3) as (? & ? & ? & -> & _). cbn. eauto.
Qed.

(** *** The claims *)

(** The store as the command sees it once it has the busy flag. *)
Definition taken s : bst W := Bst (nor s) (s_rx s) true (calls s).

(** C4: [blob write], end to end.  On an idle chip and over any line that
    eventually falls silent the command ends; no byte outside the slot has
    changed; the busy flag is as before, and a command that found it taken did
    nothing.  If the command reports success, the receiver had reported success
    and the slot holds the received file: its header reads as valid with the
    file's name, length and CRC, and the payload is the file.  And however the
    command ends after the slot was erased -- a broken transfer, a failing
    flash, a short file -- a slot that reads as valid holds a complete file. *)
Theorem blob_write_correct `{!FiniteLine L} fuel k l s :
  is_slot k -> quiescent (nor s) -> (YM_HANDSHAKE_RETRIES + left_on_line l < fuel)%nat ->
  exists ok l' s', blob_write fuel k l s = Some (ok, (l', s')) /\
    (forall x, ~ in_range (slot_base k) BLOB_SLOT_SIZE x -> cell (nor s') x = cell (nor s) x) /\
    blob_busy s' = blob_busy s /\ (blob_busy s = true -> ok = false /\ s' = s) /\
    (ok = true -> exists s1 nm data, blob_recv_arm k (taken s) = (BLOB_OK, s1) /\
      received fuel l s1 nm data /\ stored (nor s') k nm data) /\
    (forall s1, blob_busy s = false -> blob_recv_arm k (taken s) = (BLOB_OK, s1) -> valid_is_complete fuel l s1 k (nor s')).
Proof.
  intros Hk Hq Hf. unfold blob_write, blob_busy_acquire. destruct (blob_busy s) eqn:Eb; cbn [negb].
  { do 3 eexists. split; [done|]. by rewrite Eb. }
  cbn [negb Z.eqb]. fold (taken s). destruct (blob_write_body_total fuel k l (taken s) Hk Hq Hf) as (ok & l' & s' & E).
  rewrite E. destruct (blob_write_body_spec fuel k l (taken s) ok l' s' Hk Hq E) as (F & Hc & Hok).
  do 3 eexists. split; [done|]. split; [done|]. split; [done|]. split; [done|]. split; [|intros s1 _ Ha; apply (Hc s1 Ha)].
  intros Hv. destruct (Hok Hv) as (Hvalid & s1 & Ha). destruct (Hc s1 Ha) as [Hcomp _].
  destruct (Hcomp Hvalid) as (nm & data & Hr & Hs). by exists s1, nm, data.
Qed.

Lemma arm_calls k s s1 : is_slot k -> blob_recv_arm k s = (BLOB_OK, s1) -> calls s1 = calls s ++ [(NorErase (slot_base k) BLOB_SLOT_SIZE, nor s)].
Proof.
  intros Hk. unfold blob_recv_arm, blob_erase. destruct (negb (slot_ok k)); [by intros [= <-]|]. cbn [blob_rx_reset set_rx nor]. destruct (negb (flash_ready (nor s))); [by intros [= <-]|].
  unfold do_erase. cbn [blob_rx_reset set_rx nor s_rx blob_busy calls]. rewrite slot_addr_val by done. destruct (flash_erase _ _ _) as [r w]. destruct (Z.eqb_spec r NOR_OK) as [->|]; cbn [negb Z.eqb]; intros [= <-]; done.
Qed.

Lemma erase_cut_valid k w w' : is_slot k -> erase_cut (slot_base k) BLOB_SLOT_SIZE w w' -> valid w' k ->
  forall x, ~ in_range (slot_base k) NOR_BLOCK_SIZE x -> cell w' x = cell w x.
Proof.
  intros Hk (p & Hp & Hm & Hb & Hf) Hv. destruct (decide (p = 0)) as [-> |Hnz]; [exact Hf|]. exfalso. revert Hv. apply blank_not_valid.
  intros x Hx. apply Hb. assert (NOR_BLOCK_SIZE <= p) by (unfold NOR_BLOCK_SIZE in *; Z.div_mod_to_equations; lia). unfold NOR_BLOCK_SIZE in *. geometry. lia.
Qed.

(** C5: the order of the writes is safe against a power cut.  The calls of a transfer that
    change the flash are the erase of the slot and then [cs].  Cut the power in any of
    [cs] and let the bytes that call was about to change come out as anything: if the
    slot then reads as valid, it holds all of the received file.  Cut it in the erase,
    and the slot reads as valid at most when the cut fell into its first 64 KB block,
    the one with the old header; everything after that block is then untouched. *)
Theorem blob_power_cut fuel k l s s1 ok l' s' :
  is_slot k -> quiescent (nor s) -> blob_recv_arm k s = (BLOB_OK, s1) ->
  blob_write_body fuel k l s = Some (ok, (l', s')) ->
  exists cs, calls s' = calls s ++ (NorErase (slot_base k) BLOB_SLOT_SIZE, nor s) :: cs /\
    (forall c w w', In (c, w) cs -> cut c w w' -> valid_is_complete fuel l s1 k w') /\
    (forall w', erase_cut (slot_base k) BLOB_SLOT_SIZE (nor s) w' -> valid w' k ->
      forall x, ~ in_range (slot_base k) NOR_BLOCK_SIZE x -> cell w' x = cell (nor s) x).
Proof.
  intros Hk Hq Ha E. destruct (blob_write_body_spec _ _ _ _ _ _ _ Hk Hq E) as (_ & Hc & _).
  destruct (Hc s1 Ha) as (_ & cs & Hcs & Hcut). exists cs. split; [by rewrite Hcs, (arm_calls k s s1 Hk Ha), <-app_assoc|]. split; [|intros w'; by apply erase_cut_valid].
  intros c w w' Hin. rewrite List.Forall_forall in Hcut. exact (Hcut (c, w) Hin w').
Qed.
End command.

(** [blob_verify] on an idle chip always answers and changes nothing: OK
    exactly says that the header is valid and the stored CRC is that of the
    payload in flash, [BLOB_ERR_CRC] that it is valid and the CRC is not,
    [BLOB_ERR_EMPTY] that it is not valid. *)
Theorem blob_verify_correct {W} `{NorLaws W} `{Crc32} k (s : bst W) : is_slot k -> quiescent (nor s) ->
  exists rc c s', blob_verify k s = Some (rc, c, s') /\ only_reads s s' /\
    let info := blob_decode (slot_hdr (nor s) k) in
    let data := cells (nor s) (payload_base k) (blob_length info) in
    (rc = BLOB_OK -> state info = BLOB_VALID /\ fdb_calc_crc32 0 data = blob_crc32 info) /\
    (rc = BLOB_ERR_EMPTY -> state info <> BLOB_VALID) /\
    (rc = BLOB_ERR_CRC -> state info = BLOB_VALID /\ fdb_calc_crc32 0 data <> blob_crc32 info).
Proof. intros Hk Hq. by apply blob_verify_spec. Qed.

(** the header that a commit writes is read back as what it was made of. *)
Theorem blob_header_roundtrip (r : rx) :
  rx_ok r -> blob_decode (header r) = Info BLOB_VALID (rname r) (pos r) (crc r).
Proof. apply decode_header. Qed.

(** ** A store on the chip of [Nor] *)

Module BlobExample.
Import Nor.Chip Ymodem.Script.

(** CRC-32, bit by bit. *)
Fixpoint crc_bits (n : nat) (c : Z) : Z :=
  match n with
  | O => c
  | S n => crc_bits n (if Z.testbit c 0 then Z.lxor (Z.shiftr c 1) 3988292384 else Z.shiftr c 1)
  end.
Definition crc32_byte (c b : Z) : Z := u32 (crc_bits 8 (Z.lxor c b)).
Definition crc32 (c : Z) (d : list Z) : Z := 4294967295 - fold_left crc32_byte d (4294967295 - c).

Lemma crc_fold_range d c : is_u32 c -> is_u32 (fold_left crc32_byte d c).
Proof. revert c. induction d as [|b d IH]; intros c Hc; simpl; [done|]. apply IH, u32_range. Qed.

#[export] Program Instance crc32_host : Crc32 := { fdb_calc_crc32 := crc32 }.
Next Obligation.
  intros c d Hc. pose proof (crc_fold_range d (4294967295 - c) ltac:(unfold is_u32 in *; lia)) as Hr.
  unfold crc32, is_u32 in *. lia.
Qed.
Next Obligation. intros c _. unfold crc32. simpl. lia. Qed.
Next Obligation.
  intros c d1 d2. unfold crc32. rewrite fold_left_app. f_equal. f_equal. lia.
Qed.

(** The standard check value. *)
Example crc32_check : crc32 0 (str "123456789") = 3421780262.
Proof. reflexivity. Qed.

Definition store : bst (nst chip) := Bst (fresh 0) rx_zero false [].
Definition sent : list Z := wire (str "m.tfl") [7; 8; 9].

Lemma blob_write_correct_witness :
  quiescent (nor store) /\
  exists ok l' s', blob_write 1400 1 (Line (bytes_rx sent) [] [] []) store = Some (ok, (l', s')) /\
    (forall x, ~ in_range (slot_base 1) BLOB_SLOT_SIZE x -> cell (nor s') x = cell (nor store) x) /\
    blob_busy s' = false /\ (false = true -> ok = false /\ s' = store) /\
    (ok = true -> exists s1 nm data, blob_recv_arm 1 (taken store) = (BLOB_OK, s1) /\
      received 1400 (Line (bytes_rx sent) [] [] []) s1 nm data /\ stored (nor s') 1 nm data) /\
    (forall s1, false = false -> blob_recv_arm 1 (taken store) = (BLOB_OK, s1) ->
      valid_is_complete 1400 (Line (bytes_rx sent) [] [] []) s1 1 (nor s')).
Proof.
  split; [reflexivity|]. apply (blob_write_correct 1400 1 (Line (bytes_rx sent) [] [] []) store).
  - unfold is_slot, BLOB_SLOT_COUNT. lia.
  - reflexivity.
  - apply Nat.ltb_lt. vm_compute. reflexivity.
Defined.

(** The command succeeds there, and the slot reads back. *)
Example stored_and_read :
  match blob_write 1400 1 (Line (bytes_rx sent) [] [] []) store with
  | Some (ok, (_, s)) =>
      ok = true /\ (blob_stat 1 s).1 = (BLOB_OK, Info BLOB_VALID (str "m.tfl") 3 (crc32 0 [7; 8; 9])) /\
      (blob_read 1 0 true 4 s).1 = (BLOB_OK, [7; 8; 9; 255])
  | None => False
  end.
Proof. vm_compute. repeat split. Qed.

Lemma blob_power_cut_witness :
  let '(rc, s1) := blob_recv_arm 1 store in
  rc = BLOB_OK /\
  match blob_write_body 1400 1 (Line (bytes_rx sent) [] [] []) store with
  | Some (_, (_, s')) =>
      exists cs, calls s' = (NorErase (slot_base 1) BLOB_SLOT_SIZE, nor store) :: cs /\
        (forall c w w', In (c, w) cs -> cut c w w' -> valid_is_complete 1400 (Line (bytes_rx sent) [] [] []) s1 1 w') /\
        (forall w', erase_cut (slot_base 1) BLOB_SLOT_SIZE (nor store) w' -> valid w' 1 ->
          forall x, ~ in_range (slot_base 1) NOR_BLOCK_SIZE x -> cell w' x = cell (nor store) x)
  | None => False
  end.
Proof.
  destruct (blob_recv_arm 1 store) as [rc s1] eqn:Ea.
  assert (Hrc : rc = BLOB_OK) by (change rc with (rc, s1).1; rewrite <-Ea; reflexivity). subst rc. split; [reflexivity|].
  destruct (blob_write_body 1400 1 _ store) as [[ok [l' s']]|] eqn:E.
  - apply (blob_power_cut 1400 1 (Line (bytes_rx sent) [] [] []) store s1 ok l' s'); [|reflexivity|exact Ea|exact E].
    unfold is_slot, BLOB_SLOT_COUNT. lia.
  - assert (Hs : bool_decide (is_Some (blob_write_body 1400 1 (Line (bytes_rx sent) [] [] []) store)) = true)
      by (vm_compute; reflexivity).
    rewrite E in Hs. discriminate.
Defined.

Lemma blob_verify_correct_witness :
  quiescent (nor store) /\
  exists rc c s', blob_verify 1 store = Some (rc, c, s') /\ only_reads store s' /\
    let info := blob_decode (slot_hdr (nor store) 1) in
    let data := cells (nor store) (payload_base 1) (blob_length info) in
    (rc = BLOB_OK -> state info = BLOB_VALID /\ fdb_calc_crc32 0 data = blob_crc32 info) /\
    (rc = BLOB_ERR_EMPTY -> state info <> BLOB_VALID) /\
    (rc = BLOB_ERR_CRC -> state info = BLOB_VALID /\ fdb_calc_crc32 0 data <> blob_crc32 info).
Proof.
  split; [reflexivity|]. apply (blob_verify_correct 1 store); [|reflexivity]. unfold is_slot, BLOB_SLOT_COUNT. lia.
Defined.

Definition done_rx := Rx true true false 1 3 3 (crc32 0 [7; 8; 9]) (str "m.tfl").

Lemma blob_header_roundtrip_witness :
  rx_ok done_rx /\ blob_decode (header done_rx) = Info BLOB_VALID (str "m.tfl") 3 (crc32 0 [7; 8; 9]).
Proof.
  assert (Hr : rx_ok done_rx).
  { split; [repeat constructor; simpl; lia|]. split; [vm_compute; lia|]. split; [vm_compute; split; [reflexivity|discriminate]|].
    vm_compute. split; [discriminate|reflexivity]. }
  split; [exact Hr|]. apply (blob_header_roundtrip done_rx Hr).
Defined.
End BlobExample.
