(* ===== verification/Log.v ===== *)
(** * The RAM log ring ([src/svc/log.c])

    The reset-persistent ring of variable-length records: the append with its
    eviction and wrap, the boot-time walk, the [dmesg] iterator and the line
    assembler.  The header words of [struct log_ring] are record fields, its
    [data] array a list of bytes.  A store is only a store until it is read back
    (the DTCM rule of the file's header), so the state also keeps which bytes,
    and whether any header word, still wait for that. *)

From S2P Require Import Prelude Fmt.
Local Open Scope Z_scope.

(** ** Constants and layout *)

Definition LOG_MAGIC : Z := 1196379185. (* 0x474F4C31 *)
Definition LOG_VERSION : Z := 1.
Definition LOG_REC_MAGIC : Z := 165.
Definition LOG_LEVEL_SKIP : Z := 255.
Definition LOG_RING_DATA_SIZE : Z := 8192.
Definition LOG_LEVEL_INF : Z := 2.
Definition LOG_LEVEL_DBG : Z := 3.
Definition LOG_MSG_MAX : nat := 104.
Definition LOG_TAG_MAX : nat := 8.
Definition LOG_HDR_SIZE : Z := 20.
Definition LOG_REC_MIN : Z := 24.
Definition LOG_REC_MAX : Z := 128.

(** [struct log_ring]. *)
Record log_ring : Type := Ring {
  g_magic : Z; g_version : Z; g_size : Z; g_head : Z; g_tail : Z; g_seq : Z; g_boot_count : Z;
  g_data : list Z;
}.

(** [g_log], the file's statics, and what is not yet read back: a header word,
    and each byte of [data].  [s_ticks] counts the readings of the clock. *)
Record log_st : Type := St {
  g_log : log_ring; hdr_pending : bool; data_pending : list bool;
  log_ready : bool; log_level : Z; g_reset_rsr : Z; s_ticks : nat;
}.

Definition set_ring (g : log_ring) (hp : bool) (dp : list bool) (st : log_st) : log_st :=
  St g hp dp (log_ready st) (log_level st) (g_reset_rsr st) (s_ticks st).

(** The stores to a header word. *)
Definition set_head (v : Z) (st : log_st) : log_st :=
  let g := g_log st in
  set_ring (Ring (g_magic g) (g_version g) (g_size g) v (g_tail g) (g_seq g) (g_boot_count g) (g_data g))
    true (data_pending st) st.
Definition set_tail (v : Z) (st : log_st) : log_st :=
  let g := g_log st in
  set_ring (Ring (g_magic g) (g_version g) (g_size g) (g_head g) v (g_seq g) (g_boot_count g) (g_data g))
    true (data_pending st) st.
Definition set_seq (v : Z) (st : log_st) : log_st :=
  let g := g_log st in
  set_ring (Ring (g_magic g) (g_version g) (g_size g) (g_head g) (g_tail g) v (g_boot_count g) (g_data g))
    true (data_pending st) st.
Definition set_boot_count (v : Z) (st : log_st) : log_st :=
  let g := g_log st in
  set_ring (Ring (g_magic g) (g_version g) (g_size g) (g_head g) (g_tail g) (g_seq g) v (g_data g))
    true (data_pending st) st.

(** ** The circular copies *)

(** [off & (LOG_RING_DATA_SIZE - 1u)]. *)
Definition ring_idx (off : Z) : Z := Z.land off (LOG_RING_DATA_SIZE - 1).

(** The two [memcpy]s of [ring_put], of [ring_get] and of [persist_ring]. *)
Definition circ_put {A} (off : Z) (src : list A) (d : list A) : list A :=
  let p := ring_idx off in
  let first := LOG_RING_DATA_SIZE - p in
  if Z.of_nat (length src) <=? first then splice (Z.to_nat p) src d
  else splice 0 (drop (Z.to_nat first) src) (splice (Z.to_nat p) (take (Z.to_nat first) src) d).

Definition circ_get {A} (off len : Z) (d : list A) : list A :=
  let p := ring_idx off in
  let first := LOG_RING_DATA_SIZE - p in
  if len <=? first then slice (Z.to_nat p) (Z.to_nat len) d
  else slice (Z.to_nat p) (Z.to_nat first) d ++ slice 0 (Z.to_nat (len - first)) d.

Definition ring_put (off : Z) (src : list Z) (st : log_st) : log_st :=
  let g := g_log st in
  set_ring (Ring (g_magic g) (g_version g) (g_size g) (g_head g) (g_tail g) (g_seq g) (g_boot_count g)
              (circ_put off src (g_data g)))
    (hdr_pending st) (circ_put off (replicate (length src) true) (data_pending st)) st.

Definition ring_get (off len : Z) (st : log_st) : list Z := circ_get off len (g_data (g_log st)).

Definition rec_total_at (off : Z) (st : log_st) : Z := get16 (ring_get off 2 st).

(** The read-backs: [len] rounded up to whole words. *)
Definition persist_hdr (st : log_st) : log_st := set_ring (g_log st) false (data_pending st) st.
Definition persist_ring (off len : Z) (st : log_st) : log_st :=
  let words := Z.land (len + 3) (4294967296 - 4) in
  set_ring (g_log st) (hdr_pending st) (circ_put off (replicate (Z.to_nat words) false) (data_pending st)) st.

(** ** A record's first word *)

(** [total], [level] and [rmag] of [w0]. *)
Definition rec_word (off : Z) (st : log_st) : Z * Z * Z :=
  let w0 := get32 (ring_get off 4 st) in
  (Z.land w0 65535, Z.land (Z.shiftr w0 16) 255, Z.land (Z.shiftr w0 24) 255).

(** ** Initialisation *)

(** The boot walk from [pos] to the head: where it stops. *)
Fixpoint boot_walk (fuel : nat) (pos : Z) (st : log_st) : option Z :=
  match fuel with
  | O => None
  | S k =>
      if pos =? g_head (g_log st) then Some pos
      else if g_size (g_log st) <? g_head (g_log st) -% pos then Some pos
      else
        let '(total, level, rmag) := rec_word pos st in
        let p := ring_idx pos in
        if negb (rmag =? LOG_REC_MAGIC) || negb (Z.land total 3 =? 0) then Some pos
        else if level =? LOG_LEVEL_SKIP then
          if (total <? 4) || negb (p + total =? LOG_RING_DATA_SIZE) then Some pos
          else boot_walk k (pos +% total) st
        else if (total <? LOG_REC_MIN) || (LOG_REC_MAX <? total) || (LOG_RING_DATA_SIZE <? p + total) then Some pos
        else boot_walk k (pos +% total) st
  end.

(** A record is at least a word long, and the walk covers at most the ring and
    one record. *)
Definition WALK_FUEL : nat := 2050.

Definition ring_valid (g : log_ring) : bool :=
  (g_magic g =? LOG_MAGIC) && (g_version g =? LOG_VERSION) && (g_size g =? LOG_RING_DATA_SIZE) &&
  (Z.land (g_head g) 3 =? 0) && (Z.land (g_tail g) 3 =? 0) && (g_head g -% g_tail g <=? g_size g).

(** The ring [memset] and set up afresh. *)
Definition fresh_ring : log_ring :=
  Ring LOG_MAGIC LOG_VERSION LOG_RING_DATA_SIZE 0 0 0 1 (replicate (Z.to_nat LOG_RING_DATA_SIZE) 0).

(** ** Appending *)

(** The eviction loop; a record is at least a word long. *)
Fixpoint evict (fuel : nat) (need : Z) (st : log_st) : option log_st :=
  let g := g_log st in
  if (g_size g -% (g_head g -% g_tail g) <? need) && negb (g_tail g =? g_head g) then
    match fuel with
    | O => None
    | S k =>
        let tl := rec_total_at (g_tail g) st in
        if (tl <? 4) || negb (Z.land tl 3 =? 0) then Some (set_tail (g_head g) st)
        else evict k need (set_tail (g_tail g +% tl) st)
    end
  else Some st.

(** [(stored + 3u) & ~3u]. *)
Definition align4 (n : Z) : Z := Z.land (n + 3) (4294967296 - 4).

(** The 20 bytes of [struct log_rec_hdr]. *)
Definition rec_hdr (total level ts seq_ : Z) (tag : list Z) : list Z :=
  le16 total ++ [u8 level; LOG_REC_MAGIC] ++ le32 ts ++ le32 seq_ ++ tag.

(** [h.tag]: up to [LOG_TAG_MAX] characters, NUL padded; NULL is none. *)
Definition tag_field (tag : option (list Z)) : list Z :=
  let t := take LOG_TAG_MAX (default [] tag) in t ++ replicate (LOG_TAG_MAX - length t) 0.

(** The record's own stores, at the head [h]: the states after its header, its
    text, its padding, the sequence number and the head. *)
Definition record_stages (level ts seq_ : Z) (tag : option (list Z)) (text : list Z) (st : log_st) : list log_st :=
  let stored := Z.of_nat (length text) in
  let padded := align4 stored in
  let rec_len := LOG_HDR_SIZE + padded in
  let h := g_head (g_log st) in
  let s3 := ring_put h (rec_hdr rec_len level ts seq_ (tag_field tag)) st in
  let s4 := ring_put (h +% LOG_HDR_SIZE) text s3 in
  let s5 := if stored <? padded
            then ring_put (h +% (LOG_HDR_SIZE + stored)) (replicate (Z.to_nat (padded - stored)) 0) s4
            else s4 in
  let s6 := set_seq (u32 (seq_ + 1)) s5 in
  let s7 := set_head (h +% rec_len) s6 in
  [s3; s4; s5; s6; s7].

(** [skip] and [need] for a record of [rec_len] bytes at the head. *)
Definition skip_for (rec_len : Z) (st : log_st) : Z :=
  let o := ring_idx (g_head (g_log st)) in
  if LOG_RING_DATA_SIZE <? o + rec_len then LOG_RING_DATA_SIZE - o else 0.

(** The critical section of [log_vwrite] up to each of its stores, in order:
    the state after the eviction, after the SKIP word and after its commit, and
    those of the record.  [text] is the stored bytes, the NUL included. *)
Definition vwrite_stages (level ts : Z) (tag : option (list Z)) (text : list Z) (st : log_st)
    : option (list log_st) :=
  let rec_len := LOG_HDR_SIZE + align4 (Z.of_nat (length text)) in
  let seq_ := g_seq (g_log st) in
  let skip := skip_for rec_len st in
  s0 ← evict WALK_FUEL (skip + rec_len) st;
  let sw := Z.lor (Z.lor skip (Z.shiftl LOG_LEVEL_SKIP 16)) (Z.shiftl LOG_REC_MAGIC 24) in
  let s1 := if negb (skip =? 0) then ring_put (g_head (g_log s0)) (le32 sw) s0 else s0 in
  let s2 := if negb (skip =? 0) then set_head (g_head (g_log s1) +% skip) s1 else s1 in
  Some (s0 :: s1 :: s2 :: record_stages level ts seq_ tag text s2).

Section log.
(** The [n]th reading of [HAL_GetTick()]. *)
Context (HAL_GetTick : nat -> Z).

Definition tick (st : log_st) : log_st :=
  St (g_log st) (hdr_pending st) (data_pending st) (log_ready st) (log_level st) (g_reset_rsr st) (S (s_ticks st)).

(** The critical section, whole: the stores and their read-back. *)
Definition log_append (level : Z) (tag : option (list Z)) (stored : list Z) (st : log_st) : option log_st :=
  let rec_len := LOG_HDR_SIZE + align4 (Z.of_nat (length stored)) in
  let need := skip_for rec_len st + rec_len in
  let start := g_head (g_log st) in
  stages ← vwrite_stages level (u32 (HAL_GetTick (s_ticks st))) tag stored (tick st);
  s ← last stages;
  Some (persist_hdr (persist_ring start need s)).

(** [log_vwrite].  The bytes of [text] past its NUL are never copied, so what
    the stack held there does not matter. *)
Definition log_vwrite (level : Z) (tag : option (list Z)) (fmt : list Z) (ap : list va) (st : log_st)
    : option log_st :=
  let level := if LOG_LEVEL_DBG <? level then LOG_LEVEL_DBG else level in
  if negb (log_ready st) || (log_level st <? level) then Some st
  else
    '(buf, n) ← fmt_vsnformat (replicate (S LOG_MSG_MAX) 0) (S LOG_MSG_MAX) fmt ap;
    log_append level tag (take (n + 1) buf) st.

(** [log_write] is [log_vwrite] of its variadic arguments. *)
Definition log_write := log_vwrite.

(** The bits of [RCC->RSR], the vendor's register header's. *)
Context (RCC_RSR_LPWRRSTF RCC_RSR_WWDG1RSTF RCC_RSR_IWDG1RSTF RCC_RSR_SFTRSTF
         RCC_RSR_PORRSTF RCC_RSR_BORRSTF RCC_RSR_PINRSTF : Z).

Definition reset_cause_str (rsr : Z) : list Z :=
  if negb (Z.land rsr RCC_RSR_LPWRRSTF =? 0) then str "LPWR"
  else if negb (Z.land rsr RCC_RSR_WWDG1RSTF =? 0) then str "WWDG"
  else if negb (Z.land rsr RCC_RSR_IWDG1RSTF =? 0) then str "IWDG"
  else if negb (Z.land rsr RCC_RSR_SFTRSTF =? 0) then str "SFT"
  else if negb (Z.land rsr RCC_RSR_PORRSTF =? 0) then str "POR"
  else if negb (Z.land rsr RCC_RSR_BORRSTF =? 0) then str "BOR"
  else if negb (Z.land rsr RCC_RSR_PINRSTF =? 0) then str "PIN"
  else str "?".

Definition log_reset_cause (st : log_st) : list Z := reset_cause_str (g_reset_rsr st).

Definition boot_fmt : list Z := str "#%lu reset cause: %s".

(** The ring truncated at the first malformed record, or set up afresh. *)
Definition log_recover (st : log_st) : option log_st :=
  if ring_valid (g_log st) then
    pos ← boot_walk WALK_FUEL (g_tail (g_log st)) st;
    let st := set_head pos st in
    Some (set_boot_count (g_boot_count (g_log st) +% 1) st)
  else Some (set_ring fresh_ring true (replicate (length (data_pending st)) true) st).

(** [log_init], [rsr] being what the register holds.  After a reset the
    statics are zero but the ring is what the memory kept. *)
Definition log_init (rsr : Z) (st : log_st) : option log_st :=
  st ← log_recover st;
  let st := persist_hdr st in
  let st := St (g_log st) (hdr_pending st) (data_pending st) true LOG_LEVEL_INF rsr (s_ticks st) in
  log_write LOG_LEVEL_INF (Some (str "boot")) boot_fmt
    [VLong (g_boot_count (g_log st)); VStr (Some (reset_cause_str rsr))] st.

(** ** Query and control *)

Definition log_clear (st : log_st) : log_st := persist_hdr (set_tail (g_head (g_log st)) st).

Definition log_set_level (level : Z) (st : log_st) : log_st :=
  let level := if LOG_LEVEL_DBG <? level then LOG_LEVEL_DBG else level in
  St (g_log st) (hdr_pending st) (data_pending st) (log_ready st) (u8 level) (g_reset_rsr st) (s_ticks st).
Definition log_get_level (st : log_st) : Z := log_level st.

(** *** The iterator *)

(** [struct log_record] and [struct log_iter]. *)
Record log_record : Type := LogRecord {
  r_ts_ms : Z; r_seq : Z; r_level : Z; r_tag : list Z; r_text : list Z;
}.
Record log_iter : Type := LogIter { it_pos : Z; it_end : Z }.

Definition log_iter_start (st : log_st) : log_iter := LogIter (g_tail (g_log st)) (g_head (g_log st)).

(** [out] filled from the record at [pos]. *)
Definition read_record (pos total : Z) (out : log_record) (st : log_st) : log_record :=
  let h := ring_get pos LOG_HDR_SIZE st in
  let tlen := total - LOG_HDR_SIZE in
  let tlen := if Z.of_nat (S LOG_MSG_MAX) <? tlen then Z.of_nat (S LOG_MSG_MAX) else tlen in
  let text := splice 0 (ring_get (pos +% LOG_HDR_SIZE) tlen st) (r_text out) in
  LogRecord (get32 (drop 4 h)) (get32 (drop 8 h)) (nth 2 h 0) (slice 12 LOG_TAG_MAX h ++ [0])
    (<[LOG_MSG_MAX := 0]> text).

(** The loop of [log_iter_next]: every round but the last passes a SKIP. *)
Fixpoint iter_loop (fuel : nat) (pos end_ : Z) (out : log_record) (st : log_st)
    : option (bool * log_iter * log_record) :=
  match fuel with
  | O => None
  | S k =>
      let pos := if s32 (pos -% g_tail (g_log st)) <? 0 then g_tail (g_log st) else pos in
      if 0 <=? s32 (pos -% end_) then Some (false, LogIter pos end_, out)
      else
        let '(total, level, rmag) := rec_word pos st in
        let p := ring_idx pos in
        if negb (rmag =? LOG_REC_MAGIC) || (total <? 4) || negb (Z.land total 3 =? 0)
        then Some (false, LogIter pos end_, out)
        else if level =? LOG_LEVEL_SKIP then
          if negb (p + total =? LOG_RING_DATA_SIZE) then Some (false, LogIter pos end_, out)
          else iter_loop k (pos +% total) end_ out st
        else if (total <? LOG_REC_MIN) || (LOG_REC_MAX <? total) || (LOG_RING_DATA_SIZE <? p + total)
        then Some (false, LogIter pos end_, out)
        else Some (true, LogIter (pos +% total) end_, read_record pos total out st)
  end.
Definition log_iter_next (fuel : nat) (it : log_iter) (out : log_record) (st : log_st)
    : option (bool * log_iter * log_record) := iter_loop fuel (it_pos it) (it_end it) out st.

(** ** The line assembler *)

Definition LOG_LINE_ASM_MAX : nat := 105.

(** [struct log_line]. *)
Record log_line : Type := LogLine { l_buf : list Z; l_used : nat; l_esc : Z }.

Definition log_line_init (l : log_line) : log_line := LogLine (l_buf l) 0 0.

Definition log_line_flush (l : log_line) (tag : option (list Z)) (st : log_st) : option (log_line * log_st) :=
  if (l_used l =? 0)%nat then Some (l, st)
  else
    buf ← buf_set (l_buf l) (l_used l) 0;
    let l := LogLine buf 0 (l_esc l) in
    s ← cstr buf 0;
    st ← log_write LOG_LEVEL_INF tag (str "%s") [VStr (Some s)] st;
    Some (l, st).

Definition feed_byte (c : Z) (l : log_line) (tag : option (list Z)) (st : log_st) : option (log_line * log_st) :=
  if negb (l_esc l =? 0) then
    if l_esc l =? 1 then Some (LogLine (l_buf l) (l_used l) (if c =? 91 then 2 else 0), st)
    else Some (LogLine (l_buf l) (l_used l) (if (c <? 32) || (63 <? c) then 0 else l_esc l), st)
  else if c =? 27 then Some (LogLine (l_buf l) (l_used l) 1, st)
  else if (c =? 10) || (c =? 13) then log_line_flush l tag st
  else
    '(l, st) ← (if (LOG_LINE_ASM_MAX - 1 <=? l_used l)%nat then log_line_flush l tag st else Some (l, st));
    buf ← buf_set (l_buf l) (l_used l) c;
    Some (LogLine buf (S (l_used l)) (l_esc l), st).

Fixpoint log_line_feed (data : list Z) (l : log_line) (tag : option (list Z)) (st : log_st)
    : option (log_line * log_st) :=
  match data with
  | [] => Some (l, st)
  | c :: data => '(l, st) ← feed_byte c l tag st; log_line_feed data l tag st
  end.
End log.

(** ** The circular copies, by index *)

Lemma ring_idx_mod off : ring_idx off = off mod 8192.
Proof. apply (land_mask 13). lia. Qed.

Lemma ring_idx_u32 off : ring_idx (u32 off) = ring_idx off.
Proof. rewrite !ring_idx_mod. unfold u32. Z.div_mod_to_equations. lia. Qed.

Lemma circ_put_u32 {A} off (src d : list A) : circ_put (u32 off) src d = circ_put off src d.
Proof. unfold circ_put. by rewrite ring_idx_u32. Qed.
Lemma circ_get_u32 {A} off len (d : list A) : circ_get (u32 off) len d = circ_get off len d.
Proof. unfold circ_get. by rewrite ring_idx_u32. Qed.

Lemma align4_val n : 0 <= n < 4294967292 -> align4 n = (n + 3) / 4 * 4.
Proof.
  intros Hn. unfold align4. change 4 with (2 ^ 2) at 1. rewrite land_align by (unfold is_u32; lia).
  change (2 ^ 2) with 4. Z.div_mod_to_equations. lia.
Qed.

(** What fits before the end of the array is one copy. *)
Lemma circ_put_flat {A} off (src d : list A) : ring_idx off + Z.of_nat (length src) <= 8192 ->
  circ_put off src d = splice (Z.to_nat (ring_idx off)) src d.
Proof. intros Hl. unfold circ_put, LOG_RING_DATA_SIZE. by if_true. Qed.
Lemma circ_get_flat {A} off len (d : list A) : ring_idx off + len <= 8192 ->
  circ_get off len d = slice (Z.to_nat (ring_idx off)) (Z.to_nat len) d.
Proof. intros Hl. unfold circ_get, LOG_RING_DATA_SIZE. by if_true. Qed.

Lemma circ_put_length {A} off (src d : list A) : length d = Z.to_nat 8192 -> Z.of_nat (length src) <= 8192 ->
  length (circ_put off src d) = Z.to_nat 8192.
Proof.
  intros Hd Hs. unfold circ_put, LOG_RING_DATA_SIZE. rewrite ring_idx_mod.
  pose proof (Z.mod_pos_bound off 8192 ltac:(lia)).
  destruct (Z.leb_spec (Z.of_nat (length src)) (8192 - off mod 8192)).
  - rewrite length_splice; lia.
  - assert (length (splice (Z.to_nat (off mod 8192)) (take (Z.to_nat (8192 - off mod 8192)) src) d) = Z.to_nat 8192).
    { rewrite length_splice; rewrite ?length_take; lia. }
    rewrite length_splice; rewrite ?length_drop; lia.
Qed.

Lemma lookup_circ_put {A} off (src d : list A) i :
  length d = Z.to_nat 8192 -> Z.of_nat (length src) <= 8192 -> Z.of_nat i < 8192 ->
  circ_put off src d !! i =
    let j := (Z.of_nat i - off) mod 8192 in
    if decide (j < Z.of_nat (length src)) then src !! Z.to_nat j else d !! i.
Proof.
  intros Hd Hs Hi. cbv zeta. unfold circ_put, LOG_RING_DATA_SIZE. rewrite ring_idx_mod.
  pose proof (Z.mod_pos_bound off 8192 ltac:(lia)) as Hp.
  assert (Hj : (Z.of_nat i - off) mod 8192 =
    if decide (off mod 8192 <= Z.of_nat i) then Z.of_nat i - off mod 8192 else Z.of_nat i - off mod 8192 + 8192).
  { case_decide; Z.div_mod_to_equations; lia. }
  rewrite Hj. set (p := off mod 8192) in *. clearbody p. clear Hj.
  destruct (Z.leb_spec (Z.of_nat (length src)) (8192 - p)) as [Hle|Hgt].
  - rewrite lookup_splice by lia. repeat case_decide; try lia; try done. f_equal. lia.
  - assert (length (splice (Z.to_nat p) (take (Z.to_nat (8192 - p)) src) d) = Z.to_nat 8192).
    { rewrite length_splice; rewrite ?length_take; lia. }
    rewrite lookup_splice by (rewrite length_drop; lia).
    rewrite length_drop. rewrite lookup_splice by (rewrite length_take; lia). rewrite length_take.
    repeat case_decide; try lia; try done.
    + rewrite lookup_drop. f_equal. lia.
    + rewrite lookup_take_lt by lia. f_equal. lia.
Qed.

Lemma circ_put_Forall {A} (P : A -> Prop) off (src d : list A) :
  Forall P src -> Forall P d -> Forall P (circ_put off src d).
Proof.
  intros Hs Hd.
  assert (Hsp : forall o (s : list A) b, Forall P s -> Forall P b -> Forall P (splice o s b)).
  { intros o s b H1 H2. unfold splice. repeat apply Forall_app_2; auto using Forall_take, Forall_drop. }
  unfold circ_put. case_if; auto using Forall_take, Forall_drop.
Qed.

(** ** The abstract log *)

(** What lies between the tail and the head: whole records and SKIPs. *)
Inductive slot : Type := Rec (bs : list Z) | Skip (n : Z).

Definition slot_len (s : slot) : Z := match s with Rec bs => Z.of_nat (length bs) | Skip n => n end.
Definition slot_level (s : slot) : Z := match s with Rec bs => nth 2 bs 0 | Skip _ => LOG_LEVEL_SKIP end.

(** A slot at a free-running offset. *)
Definition slot_at (d : list Z) (pos : Z) (s : slot) : Prop :=
  ring_idx pos + slot_len s <= 8192 /\ slot_len s mod 4 = 0 /\
  slice (Z.to_nat (ring_idx pos)) 4 d = le16 (slot_len s) ++ [slot_level s; LOG_REC_MAGIC] /\
  match s with
  | Rec bs =>
      slice (Z.to_nat (ring_idx pos)) (length bs) d = bs /\ LOG_REC_MIN <= slot_len s <= LOG_REC_MAX /\
      slot_level s <> LOG_LEVEL_SKIP
  | Skip n => ring_idx pos + n = 8192 /\ 4 <= n
  end.

Fixpoint total (ss : list slot) : Z := match ss with [] => 0 | s :: ss => slot_len s + total ss end.
Fixpoint slots_at (d : list Z) (pos : Z) (ss : list slot) : Prop :=
  match ss with [] => True | s :: ss => slot_at d pos s /\ slots_at d (pos + slot_len s) ss end.

(** A message as a reader sees it. *)
Record entry : Type := Entry { e_level : Z; e_ts : Z; e_seq : Z; e_tag : list Z; e_text : list Z }.

(** The characters before the first NUL. *)
Fixpoint c_prefix (l : list Z) : list Z :=
  match l with [] => [] | c :: l => if c =? 0 then [] else c :: c_prefix l end.

Definition entry_of (bs : list Z) : entry :=
  Entry (nth 2 bs 0) (get32 (drop 4 bs)) (get32 (drop 8 bs)) (slice 12 LOG_TAG_MAX bs)
    (take LOG_MSG_MAX (c_prefix (drop 20 bs))).

Definition entries (ss : list slot) : list entry :=
  omap (fun s => match s with Rec bs => Some (entry_of bs) | Skip _ => None end) ss.

(** The memory holds the slots [ss]. *)
Record log_rep (st : log_st) (ss : list slot) : Prop := LogRep {
  rep_magic : g_magic (g_log st) = LOG_MAGIC;
  rep_version : g_version (g_log st) = LOG_VERSION;
  rep_size : g_size (g_log st) = 8192;
  rep_data : length (g_data (g_log st)) = Z.to_nat 8192;
  rep_bytes : bytes_ok (g_data (g_log st));
  rep_pending : length (data_pending st) = Z.to_nat 8192;
  rep_tail : is_u32 (g_tail (g_log st));
  rep_seq : is_u32 (g_seq (g_log st));
  rep_align : g_tail (g_log st) mod 4 = 0;
  rep_total : total ss <= 8192;
  rep_head : g_head (g_log st) = u32 (g_tail (g_log st) + total ss);
  rep_slots : slots_at (g_data (g_log st)) (g_tail (g_log st)) ss;
}.

Lemma slot_at_len d pos s : slot_at d pos s -> 4 <= slot_len s.
Proof. intros (_ & _ & _ & H). destruct s; simpl in *; unfold LOG_REC_MIN in *; lia. Qed.

Lemma slots_at_total d ss : forall pos, slots_at d pos ss -> 4 * Z.of_nat (length ss) <= total ss /\ total ss mod 4 = 0.
Proof.
  induction ss as [|s ss IH]; intros pos; [simpl; done|]. intros [Hs Hss]. apply IH in Hss as [H1 H2].
  pose proof (slot_at_len _ _ _ Hs). destruct Hs as (_ & Hm & _). cbn [total length]. Z.div_mod_to_equations. lia.
Qed.

Lemma slots_at_app d ss1 ss2 : forall pos,
  slots_at d pos (ss1 ++ ss2) <-> slots_at d pos ss1 /\ slots_at d (pos + total ss1) ss2.
Proof.
  induction ss1 as [|s ss1 IH]; intros pos; simpl.
  { rewrite Z.add_0_r. tauto. }
  rewrite IH. rewrite Z.add_assoc. tauto.
Qed.

Lemma total_app ss1 ss2 : total (ss1 ++ ss2) = total ss1 + total ss2.
Proof. induction ss1 as [|s ss1 IH]; simpl; lia. Qed.

Lemma entries_app ss1 ss2 : entries (ss1 ++ ss2) = entries ss1 ++ entries ss2.
Proof. apply omap_app. Qed.

(** A store in the free space disturbs no slot. *)
Lemma slot_at_put d pos s b src : length d = Z.to_nat 8192 -> slot_at d pos s ->
  pos + slot_len s <= b -> b + Z.of_nat (length src) <= pos + 8192 -> ring_idx b + Z.of_nat (length src) <= 8192 ->
  slot_at (circ_put b src d) pos s.
Proof.
  intros Hd Hs Hb Hfree Hflat. pose proof (slot_at_len _ _ _ Hs) as H4. destruct Hs as (Hp & Hm & Hw & Hk).
  rewrite circ_put_flat by done. pose proof Hp as Hp0. rewrite ring_idx_mod in *.
  assert (Hdis : pos mod 8192 + slot_len s <= b mod 8192 \/ b mod 8192 + Z.of_nat (length src) <= pos mod 8192).
  { clear -Hb Hfree Hflat Hp H4. Z.div_mod_to_equations. lia. }
  pose proof (Z.mod_pos_bound pos 8192 ltac:(lia)). pose proof (Z.mod_pos_bound b 8192 ltac:(lia)).
  assert (Hsl : forall n, Z.of_nat n <= slot_len s ->
    slice (Z.to_nat (pos mod 8192)) n (splice (Z.to_nat (b mod 8192)) src d) = slice (Z.to_nat (pos mod 8192)) n d).
  { intros n Hn. apply slice_splice_ne; lia. }
  unfold slot_at. rewrite ring_idx_mod. rewrite Hsl by lia. split; [done|]. split; [done|]. split; [done|].
  destruct s; [|done]. rewrite Hsl by (simpl; lia). done.
Qed.

Lemma slots_at_put d ss b src : length d = Z.to_nat 8192 -> forall pos, slots_at d pos ss ->
  pos + total ss <= b -> b + Z.of_nat (length src) <= pos + 8192 -> ring_idx b + Z.of_nat (length src) <= 8192 ->
  slots_at (circ_put b src d) pos ss.
Proof.
  intros Hd. induction ss as [|s ss IH]; intros pos; [done|]. intros [Hs Hss] Hb Hfree Hflat. cbn [total] in Hb.
  pose proof (slot_at_len _ _ _ Hs). pose proof (slots_at_total _ _ _ Hss) as [Ht _].
  split; [apply slot_at_put; done || lia|]. apply IH; done || lia.
Qed.

(** *** Reading a slot *)

Lemma rec_word_bytes pos st a b c d : ring_get pos 4 st = [a; b; c; d] ->
  is_u8 a -> is_u8 b -> is_u8 c -> is_u8 d -> rec_word pos st = (a + b * 256, c, d).
Proof.
  intros E Ha Hb Hc Hd. unfold rec_word. rewrite E, get32_val by done. unfold is_u8 in *.
  rewrite (land_mask 16) by lia. rewrite !land_255, !Z.shiftr_div_pow2 by lia.
  change (2 ^ 16) with 65536. change (2 ^ 24) with 16777216.
  f_equal; [f_equal|]; Z.div_mod_to_equations; lia.
Qed.

Lemma ring_get_4 pos st : pos mod 4 = 0 -> ring_get pos 4 st = slice (Z.to_nat (ring_idx pos)) 4 (g_data (g_log st)).
Proof.
  intros Hm. unfold ring_get. rewrite circ_get_flat; [done|]. rewrite ring_idx_mod. Z.div_mod_to_equations. lia.
Qed.

Lemma le16_bytes n : 0 <= n < 65536 -> exists a b, le16 n = [a; b] /\ is_u8 a /\ is_u8 b /\ n = a + b * 256.
Proof.
  intros Hn. unfold le16. exists (Z.land n 255), (Z.land (Z.shiftr n 8) 255).
  rewrite !land_255, Z.shiftr_div_pow2 by lia. change (2 ^ 8) with 256. unfold is_u8.
  split; [done|]. Z.div_mod_to_equations. lia.
Qed.

Lemma slot_level_u8 d pos s : bytes_ok d -> slot_at d pos s -> is_u8 (slot_level s).
Proof.
  intros Hd (_ & _ & Hw & _).
  assert (Hf : bytes_ok (slice (Z.to_nat (ring_idx pos)) 4 d)) by (by apply Forall_take, Forall_drop).
  rewrite Hw in Hf. apply Forall_app in Hf as [_ Hf]. by inversion Hf.
Qed.

(** What the walks read at a slot. *)
Lemma rec_word_slot st pos s : bytes_ok (g_data (g_log st)) -> pos mod 4 = 0 ->
  slot_at (g_data (g_log st)) pos s -> rec_word (u32 pos) st = (slot_len s, slot_level s, LOG_REC_MAGIC).
Proof.
  intros Hd Hm Hs. pose proof (slot_level_u8 _ _ _ Hd Hs) as Hl. pose proof (slot_at_len _ _ _ Hs).
  destruct Hs as (Hp & _ & Hw & _).
  assert (Hr : 0 <= slot_len s < 65536).
  { rewrite ring_idx_mod in Hp. pose proof (Z.mod_pos_bound pos 8192 ltac:(lia)). lia. }
  destruct (le16_bytes _ Hr) as (a & b & E & Ha & Hb & Hn). rewrite E in Hw. cbn [app] in Hw. rewrite Hn.
  apply rec_word_bytes; try done. unfold ring_get. rewrite circ_get_u32.
  fold (ring_get pos 4 st). by rewrite ring_get_4.
Qed.

Lemma rec_total_slot st pos s : pos mod 4 = 0 ->
  slot_at (g_data (g_log st)) pos s -> rec_total_at (u32 pos) st = slot_len s.
Proof.
  intros Hm Hs. pose proof (slot_at_len _ _ _ Hs). destruct Hs as (Hp & _ & Hw & _).
  assert (Hr : 0 <= slot_len s < 65536).
  { rewrite ring_idx_mod in Hp. pose proof (Z.mod_pos_bound pos 8192 ltac:(lia)). lia. }
  destruct (le16_bytes _ Hr) as (a & b & E & Ha & Hb & Hn). rewrite E in Hw. cbn [app] in Hw.
  unfold rec_total_at, ring_get. rewrite circ_get_u32, circ_get_flat.
  2:{ rewrite ring_idx_mod. Z.div_mod_to_equations. lia. }
  replace (slice _ (Z.to_nat 2) _) with (take 2 (slice (Z.to_nat (ring_idx pos)) 4 (g_data (g_log st)))).
  2:{ unfold slice. by rewrite take_take. }
  rewrite Hw. simpl take. by rewrite get16_val, Hn.
Qed.

(** ** The invariant under the stores *)

Lemma ring_idx_shift pos pos' n : ring_idx pos = ring_idx pos' -> ring_idx (pos + n) = ring_idx (pos' + n).
Proof. rewrite !ring_idx_mod. intros H. Z.div_mod_to_equations. lia. Qed.

Lemma slots_at_congr d ss : forall pos pos', ring_idx pos = ring_idx pos' ->
  slots_at d pos ss -> slots_at d pos' ss.
Proof.
  induction ss as [|s ss IH]; intros pos pos' E; [done|]. intros [Hs Hss]. split.
  - unfold slot_at in *. by rewrite <-E.
  - eapply IH, Hss. by apply ring_idx_shift.
Qed.

Lemma slots_at_u32 d pos ss : slots_at d pos ss -> slots_at d (u32 pos) ss.
Proof. apply slots_at_congr. by rewrite ring_idx_u32. Qed.

Lemma rep_dist st ss : log_rep st ss -> g_head (g_log st) -% g_tail (g_log st) = total ss.
Proof.
  intros [? ? ? ? ? Hpd Ht Hsq Ha Htot Hh Hss]. rewrite Hh, u32_sub_l.
  replace (g_tail (g_log st) + total ss - g_tail (g_log st)) with (total ss) by lia.
  apply slots_at_total in Hss as [? _]. apply u32_small. unfold is_u32. lia.
Qed.

Lemma rep_drop st s ss : log_rep st (s :: ss) ->
  log_rep (set_tail (g_tail (g_log st) +% slot_len s) st) ss.
Proof.
  intros [? ? ? ? ? Hpd Ht Hsq Ha Htot Hh [Hs Hss]]. pose proof (slot_at_len _ _ _ Hs). cbn [total] in *.
  split; simpl; try done.
  - apply u32_range.
  - destruct Hs as (_ & Hm & _). warith.
  - lia.
  - rewrite Hh, u32_add_l. f_equal. lia.
  - by apply slots_at_u32.
Qed.

Lemma rep_put st ss x src : log_rep st ss -> 0 <= x -> bytes_ok src ->
  let b := g_tail (g_log st) + total ss + x in
  total ss + x + Z.of_nat (length src) <= 8192 -> ring_idx b + Z.of_nat (length src) <= 8192 ->
  log_rep (ring_put (u32 b) src st) ss.
Proof.
  intros [? ? ? ? ? Hpd Ht Hsq Ha Htot Hh Hss] Hx Hsrc b Hfree Hflat.
  pose proof (slots_at_total _ _ _ Hss) as [Hpos _].
  split; simpl; try done; rewrite circ_put_u32.
  - apply circ_put_length; [done|lia].
  - by apply circ_put_Forall.
  - apply circ_put_length; [done|rewrite length_replicate; lia].
  - apply slots_at_put; done || lia.
Qed.

Lemma rep_set_seq st ss v : is_u32 v -> log_rep st ss -> log_rep (set_seq v st) ss.
Proof. by intros Hv []. Qed.

Lemma rep_commit st ss s : log_rep st ss ->
  slot_at (g_data (g_log st)) (g_tail (g_log st) + total ss) s -> total ss + slot_len s <= 8192 ->
  log_rep (set_head (u32 (g_tail (g_log st) + total ss + slot_len s)) st) (ss ++ [s]).
Proof.
  intros [? ? ? ? ? Hpd Ht Hsq Ha Htot Hh Hss] Hs Hfit. split; simpl; try done; rewrite ?total_app; simpl; try lia.
  - f_equal. lia.
  - apply slots_at_app. done.
Qed.

Lemma rep_length st ss : log_rep st ss -> (length ss <= 2048)%nat.
Proof. intros [? ? ? ? ? Hpd Ht Hsq Ha Htot Hh Hss]. apply slots_at_total in Hss as [? _]. lia. Qed.

(** *** Eviction *)

(** [evict] moves nothing but the tail. *)
Definition moves_tail (st st' : log_st) : Prop :=
  g_head (g_log st') = g_head (g_log st) /\ g_seq (g_log st') = g_seq (g_log st) /\
  g_data (g_log st') = g_data (g_log st) /\ data_pending st' = data_pending st /\
  g_boot_count (g_log st') = g_boot_count (g_log st) /\ log_ready st' = log_ready st /\
  log_level st' = log_level st /\ s_ticks st' = s_ticks st /\ g_reset_rsr st' = g_reset_rsr st.

Lemma evict_spec need : 0 <= need <= 8192 -> forall ss fuel st, log_rep st ss -> (length ss <= fuel)%nat ->
  exists k st', evict fuel need st = Some st' /\ moves_tail st st' /\ log_rep st' (drop k ss) /\
    total (drop k ss) + need <= 8192 /\ (forall j, (j < k)%nat -> 8192 < total (drop j ss) + need).
Proof.
  intros Hn. induction ss as [|s ss IH]; intros fuel st Hrep Hf.
  { exists 0%nat, st. pose proof (rep_dist _ _ Hrep) as Hd. simpl in Hd.
    assert (E : evict fuel need st = Some st).
    { destruct fuel; cbn [evict]; rewrite Hd, (rep_size _ _ Hrep), u32_small by (unfold is_u32; lia); by if_false. }
    rewrite E. split; [done|]. split; [by repeat split|]. split; [done|]. simpl. split; [lia|]. intros j Hj. lia. }
  destruct (decide (total (s :: ss) + need <= 8192)) as [Hfit|Hfit].
  { exists 0%nat, st. pose proof (rep_dist _ _ Hrep) as Hd.
    assert (Hpos : 0 <= total (s :: ss)).
    { destruct Hrep as [? ? ? ? ? ? ? ? ? ? ? Hss]. apply slots_at_total in Hss as [? _]. lia. }
    assert (E : evict fuel need st = Some st).
    { destruct fuel; cbn [evict]; rewrite Hd, (rep_size _ _ Hrep), u32_small by (unfold is_u32; lia); by if_false. }
    rewrite E. split; [done|]. split; [by repeat split|]. split; [done|]. split; [done|]. intros j Hj. lia. }
  destruct fuel as [|fuel]; [simpl in Hf; lia|].
  pose proof (rep_drop _ _ _ Hrep) as Hdrop. destruct (IH fuel _ Hdrop) as (k & st' & E & Hmv & Hrep' & Htot & Hmin); [simpl in Hf; lia|].
  exists (S k), st'. split.
  - rewrite <-E. cbn [evict]. pose proof (rep_dist _ _ Hrep) as Hd. rewrite Hd, (rep_size _ _ Hrep).
    pose proof Hrep as [? ? ? ? ? Hpd Ht Hsq Ha Htt Hh [Hs Hss]]. pose proof (slots_at_total _ _ _ Hss) as [Hp _].
    pose proof (slot_at_len _ _ _ Hs) as H4. cbn [total] in *. rewrite u32_small by (unfold is_u32; lia).
    assert (Hne : g_tail (g_log st) <> g_head (g_log st)).
    { rewrite Hh. unfold is_u32, u32 in *. clear -Ht H4 Htt Hp. Z.div_mod_to_equations. lia. }
    assert (Et : rec_total_at (g_tail (g_log st)) st = slot_len s).
    { rewrite <-(u32_small (g_tail (g_log st))) by done. by apply rec_total_slot. }
    if_true. cbv zeta. rewrite !Et.
    destruct Hs as (_ & Hm & _). rewrite (land_mask 2) by lia. change (2 ^ 2) with 4. if_false.
    destruct fuel; done.
  - split; [by destruct Hmv|]. split; [done|]. split; [done|]. intros [|j] Hj; [simpl in *; lia|]. apply Hmin. lia.
Qed.

(** *** One append *)

Definition skips (n : Z) : list slot := if n =? 0 then [] else [Skip n].

(** The bytes of a record whose stored text is [text]. *)
Definition rec_bytes (level ts seq_ : Z) (tag : option (list Z)) (text : list Z) : list Z :=
  let padded := align4 (Z.of_nat (length text)) in
  rec_hdr (LOG_HDR_SIZE + padded) level ts seq_ (tag_field tag) ++ text ++
  replicate (Z.to_nat (padded - Z.of_nat (length text))) 0.

Lemma tag_field_length tag : length (tag_field tag) = LOG_TAG_MAX.
Proof. unfold tag_field, LOG_TAG_MAX. rewrite length_app, length_replicate, length_take. lia. Qed.

Lemma rec_hdr_length total_ level ts seq_ tag : length tag = LOG_TAG_MAX ->
  length (rec_hdr total_ level ts seq_ tag) = 20%nat.
Proof. intros Ht. unfold rec_hdr. rewrite !length_app, Ht. done. Qed.

Lemma align4_bounds n : 0 <= n < 4294967292 -> n <= align4 n < n + 4 /\ align4 n mod 4 = 0.
Proof. intros Hn. rewrite align4_val by done. Z.div_mod_to_equations. lia. Qed.

Lemma rec_bytes_length level ts seq_ tag text : (length text <= 105)%nat ->
  Z.of_nat (length (rec_bytes level ts seq_ tag text)) = LOG_HDR_SIZE + align4 (Z.of_nat (length text)).
Proof.
  intros Ht. unfold rec_bytes. pose proof (align4_bounds (Z.of_nat (length text)) ltac:(lia)).
  rewrite !length_app, length_replicate, rec_hdr_length by apply tag_field_length. unfold LOG_HDR_SIZE. lia.
Qed.

Lemma skip_word n : 0 <= n < 65536 ->
  le32 (Z.lor (Z.lor n (Z.shiftl LOG_LEVEL_SKIP 16)) (Z.shiftl LOG_REC_MAGIC 24)) =
    le16 n ++ [LOG_LEVEL_SKIP; LOG_REC_MAGIC].
Proof.
  intros Hn. rewrite (lor_shiftl_add 16) by (simpl; lia).
  rewrite (lor_shiftl_add 24) by (unfold LOG_LEVEL_SKIP; simpl; lia).
  unfold LOG_LEVEL_SKIP, LOG_REC_MAGIC, le32, le16. cbn [app]. rewrite !land_255, !Z.shiftr_div_pow2 by lia.
  change (2 ^ 8) with 256. change (2 ^ 16) with 65536. change (2 ^ 24) with 16777216.
  repeat (apply f_equal2; [Z.div_mod_to_equations; lia|]). done.
Qed.

Lemma ring_put_nil off st : ring_put off [] st = st.
Proof.
  assert (Hn : forall A (d : list A), circ_put off [] d = d).
  { intros A d. unfold circ_put. rewrite ring_idx_mod. pose proof (Z.mod_pos_bound off 8192 ltac:(lia)).
    unfold LOG_RING_DATA_SIZE. simpl length. if_true. unfold splice. simpl. by rewrite Nat.add_0_r, take_drop. }
  unfold ring_put. cbn [length replicate]. rewrite !Hn. by destruct st as [[] ].
Qed.

(** A record written by the three copies. *)
Lemma put_record_data b total_ (hdr text pad d : list Z) :
  length hdr = 20%nat -> total_ = 20 + Z.of_nat (length text) + Z.of_nat (length pad) ->
  length d = Z.to_nat 8192 -> ring_idx b + total_ <= 8192 ->
  circ_put (b + (20 + Z.of_nat (length text))) pad (circ_put (b + 20) text (circ_put b hdr d)) =
    circ_put b (hdr ++ text ++ pad) d.
Proof.
  intros Hh -> Hd Hfit.
  assert (Hi : forall n, 0 <= n < 20 + Z.of_nat (length text) + Z.of_nat (length pad) -> ring_idx (b + n) = ring_idx b + n).
  { intros n Hn. rewrite !ring_idx_mod in *. Z.div_mod_to_equations. lia. }
  pose proof (Z.mod_pos_bound b 8192 ltac:(lia)) as Hb. rewrite <-ring_idx_mod in Hb.
  destruct pad as [|p0 pad].
  - rewrite app_nil_r. cbn [length] in *.
    assert (Hnil : forall off (x : list Z), circ_put off [] x = x).
    { intros off x. unfold circ_put, LOG_RING_DATA_SIZE. simpl length.
      rewrite ring_idx_mod. pose proof (Z.mod_pos_bound off 8192 ltac:(lia)). if_true. unfold splice. simpl.
      by rewrite Nat.add_0_r, take_drop. }
    rewrite Hnil. destruct text as [|t0 text].
    { by rewrite app_nil_r, Hnil. }
    rewrite !circ_put_flat; rewrite ?length_app, ?Hh; rewrite ?Hi; cbn [length] in *; try lia.
    rewrite <-splice_splice_app by (cbn [length]; lia). f_equal. lia.
  - rewrite !circ_put_flat; rewrite ?length_app, ?Hh; rewrite ?Hi; cbn [length] in *; try lia.
    replace (Z.to_nat (ring_idx b + 20)) with (Z.to_nat (ring_idx b) + length hdr)%nat by lia.
    replace (Z.to_nat (ring_idx b + (20 + Z.of_nat (length text))))
      with (Z.to_nat (ring_idx b) + length hdr + length text)%nat by lia.
    rewrite splice_splice_app by (rewrite length_splice; cbn [length]; lia).
    rewrite splice_splice_app by (rewrite length_app; cbn [length]; lia). done.
Qed.

Lemma le_bytes_rec_hdr total_ level ts seq_ tag : bytes_ok tag -> bytes_ok (rec_hdr total_ level ts seq_ tag).
Proof.
  intros Ht. unfold rec_hdr. assert (H2 : bytes_ok [u8 level; LOG_REC_MAGIC]).
  { constructor; [apply u8_range|]. constructor; [done|constructor]. }
  repeat apply Forall_app_2; auto using le16_range, le32_range.
Qed.

Lemma tag_field_bytes tag : bytes_ok (default [] tag) -> bytes_ok (tag_field tag).
Proof.
  intros Ht. unfold tag_field. apply Forall_app_2; [by apply Forall_take|]. by apply Forall_replicate.
Qed.

(** The rest of the state is left alone. *)
Definition same_rest (st st' : log_st) : Prop :=
  log_ready st' = log_ready st /\ log_level st' = log_level st /\ s_ticks st' = s_ticks st /\
  g_reset_rsr st' = g_reset_rsr st /\ g_boot_count (g_log st') = g_boot_count (g_log st).

Lemma record_slot b bs d (level ts seq_ : Z) tag text :
  bs = rec_bytes level ts seq_ tag text -> 0 <= level <= 3 -> (0 < length text <= 105)%nat ->
  length d = Z.to_nat 8192 -> ring_idx b + Z.of_nat (length bs) <= 8192 ->
  slot_at (circ_put b bs d) b (Rec bs).
Proof.
  intros -> Hl Ht Hd Hfit.
  pose proof (rec_bytes_length level ts seq_ tag text ltac:(lia)) as Hlen.
  pose proof (align4_bounds (Z.of_nat (length text)) ltac:(lia)) as [Hal Hm].
  assert (Hal2 : align4 (Z.of_nat (length text)) <= 108) by (Z.div_mod_to_equations; lia).
  rewrite circ_put_flat by done. pose proof Hfit as Hfit0. rewrite ring_idx_mod in Hfit0.
  pose proof (Z.mod_pos_bound b 8192 ltac:(lia)) as Hb.
  assert (Hsl : slice (Z.to_nat (ring_idx b)) (length (rec_bytes level ts seq_ tag text))
    (splice (Z.to_nat (ring_idx b)) (rec_bytes level ts seq_ tag text) d) = rec_bytes level ts seq_ tag text).
  { apply slice_splice_eq. rewrite ring_idx_mod. lia. }
  set (bs := rec_bytes level ts seq_ tag text) in *.
  assert (Hlev : nth 2 bs 0 = u8 level) by done.
  unfold slot_at, slot_level, slot_len. split; [done|]. unfold LOG_HDR_SIZE in *. rewrite Hlen. split; [Z.div_mod_to_equations; lia|].
  split; [|split; [done|]].
  - replace 4%nat with (4 `min` length bs)%nat by lia. unfold slice in *. rewrite <-take_take, Hsl.
    rewrite Hlev. unfold bs, rec_bytes, rec_hdr, le16. done.
  - rewrite Hlev, u8_small by (unfold is_u8; lia). unfold LOG_REC_MIN, LOG_REC_MAX, LOG_LEVEL_SKIP.
    assert (4 <= align4 (Z.of_nat (length text))) by (Z.div_mod_to_equations; lia). lia.
Qed.

Lemma record_stages_spec level ts seq_ tag text st ss :
  log_rep st ss -> 0 <= level <= 3 -> bytes_ok text -> (0 < length text <= 105)%nat -> bytes_ok (default [] tag) ->
  let bs := rec_bytes level ts seq_ tag text in
  let b := g_tail (g_log st) + total ss in
  total ss + Z.of_nat (length bs) <= 8192 -> ring_idx b + Z.of_nat (length bs) <= 8192 ->
  exists s3 s4 s5 s6 s7, record_stages level ts seq_ tag text st = [s3; s4; s5; s6; s7] /\
    log_rep s3 ss /\ log_rep s4 ss /\ log_rep s5 ss /\ log_rep s6 ss /\ log_rep s7 (ss ++ [Rec bs]) /\
    same_rest st s7 /\ g_seq (g_log s7) = u32 (seq_ + 1) /\ g_tail (g_log st) = g_tail (g_log s7) /\
    s5 = ring_put (u32 (b + (20 + Z.of_nat (length text)))) (replicate (Z.to_nat (align4 (Z.of_nat (length text)) - Z.of_nat (length text))) 0)
           (ring_put (u32 (b + 20)) text (ring_put (u32 b) (rec_hdr (LOG_HDR_SIZE + align4 (Z.of_nat (length text))) level ts seq_ (tag_field tag)) st)) /\
    data_pending s7 = data_pending s5.
Proof.
  intros Hrep Hl Hb Ht Htag bs b Hfit Hflat.
  pose proof (rec_bytes_length level ts seq_ tag text ltac:(lia)) as Hlen. fold bs in Hlen.
  pose proof (align4_bounds (Z.of_nat (length text)) ltac:(lia)) as [Hal _]. unfold LOG_HDR_SIZE in Hlen.
  assert (Hi : forall n, 0 <= n < Z.of_nat (length bs) -> ring_idx (b + n) = ring_idx b + n).
  { intros n Hn. rewrite !ring_idx_mod in *. Z.div_mod_to_equations. lia. }
  assert (Hi20 : ring_idx (b + 20) = ring_idx b + 20) by (apply Hi; lia).
  set (padded := align4 (Z.of_nat (length text))) in *.
  set (hdr := rec_hdr (LOG_HDR_SIZE + padded) level ts seq_ (tag_field tag)).
  assert (Hhdr : length hdr = 20%nat) by apply rec_hdr_length, tag_field_length.
  set (pad := replicate (Z.to_nat (padded - Z.of_nat (length text))) 0).
  assert (Hpad : Z.of_nat (length pad) = padded - Z.of_nat (length text)) by (unfold pad; rewrite length_replicate; lia).
  unfold record_stages. fold padded. fold hdr. fold pad. rewrite (rep_head _ _ Hrep). fold b.
  unfold LOG_HDR_SIZE. rewrite !u32_add_l.
  set (s3 := ring_put (u32 b) hdr st). set (s4 := ring_put (u32 (b + 20)) text s3).
  set (s5 := ring_put (u32 (b + (20 + Z.of_nat (length text)))) pad s4).
  assert (E5 : (if Z.of_nat (length text) <? padded then s5 else s4) = s5).
  { destruct (Z.ltb_spec (Z.of_nat (length text)) padded); [done|]. unfold s5.
    assert (pad = []) as ->; [|by rewrite ring_put_nil]. apply nil_length_inv. lia. }
  rewrite E5.
  assert (H3 : log_rep s3 ss).
  { unfold s3. rewrite <-(Z.add_0_r b). apply rep_put; rewrite ?Z.add_0_r, ?Hhdr; try done; try lia.
    - by apply le_bytes_rec_hdr, tag_field_bytes.
    - fold b. lia. }
  assert (H4 : log_rep s4 ss).
  { unfold s4. apply (rep_put s3 ss 20 text H3); try done; try lia. change (g_tail (g_log s3)) with (g_tail (g_log st)).
    fold b. lia. }
  assert (H5 : log_rep s5 ss).
  { unfold s5. apply (rep_put s4 ss (20 + Z.of_nat (length text)) pad H4); try lia.
    - by apply Forall_replicate.
    - change (g_tail (g_log s4)) with (g_tail (g_log st)). fold b. 
      destruct (decide (20 + Z.of_nat (length text) < Z.of_nat (length bs))); [rewrite Hi by lia; lia|].
      rewrite ring_idx_mod. pose proof (Z.mod_pos_bound (b + (20 + Z.of_nat (length text))) 8192 ltac:(lia)). lia. }
  eexists s3, s4, s5, _, _. split; [done|]. do 3 (split; [done|]). split; [apply rep_set_seq; [apply u32_range|done]|].
  split; [|by repeat split].
  replace (u32 (b + (20 + padded))) with (u32 (g_tail (g_log (set_seq (u32 (seq_ + 1)) s5)) + total ss + slot_len (Rec bs))).
  2:{ cbn [slot_len]. change (g_tail (g_log (set_seq (u32 (seq_ + 1)) s5))) with (g_tail (g_log st)). fold b. f_equal. lia. }
  apply rep_commit; [apply rep_set_seq; [apply u32_range|done]| |cbn [slot_len]; lia].
  change (g_tail (g_log (set_seq (u32 (seq_ + 1)) s5))) with (g_tail (g_log st)). fold b.
  replace (g_data (g_log (set_seq (u32 (seq_ + 1)) s5))) with (circ_put b bs (g_data (g_log st))).
  - eapply record_slot; try done. apply Hrep.
  - simpl. rewrite !circ_put_u32. unfold bs, rec_bytes. fold padded hdr pad. symmetry.
    eapply put_record_data; [done|done|apply Hrep|lia].
Qed.

Lemma skips_total n : total (skips n) = n.
Proof. unfold skips. destruct (Z.eqb_spec n 0); simpl; lia. Qed.
Lemma skips_entries n : entries (skips n) = [].
Proof. unfold skips. by case_if. Qed.

Lemma rep_head_idx st ss : log_rep st ss -> ring_idx (g_head (g_log st)) = ring_idx (g_tail (g_log st) + total ss).
Proof. intros H. by rewrite (rep_head _ _ H), ring_idx_u32. Qed.

Lemma moves_tail_rest st st' : moves_tail st st' -> same_rest st st'.
Proof. intros (? & ? & ? & ? & ? & ? & ? & ? & ?). by repeat split. Qed.

(** The SKIP: its word and its commit. *)
Lemma skip_stages_spec skip st ss : log_rep st ss ->
  let b := g_tail (g_log st) + total ss in
  skip = 0 \/ (ring_idx b + skip = 8192 /\ 4 <= skip /\ skip mod 4 = 0 /\ total ss + skip <= 8192) ->
  let sw := Z.lor (Z.lor skip (Z.shiftl LOG_LEVEL_SKIP 16)) (Z.shiftl LOG_REC_MAGIC 24) in
  let s1 := if negb (skip =? 0) then ring_put (g_head (g_log st)) (le32 sw) st else st in
  let s2 := if negb (skip =? 0) then set_head (g_head (g_log s1) +% skip) s1 else s1 in
  log_rep s1 ss /\ log_rep s2 (ss ++ skips skip) /\ same_rest st s2 /\ g_tail (g_log s2) = g_tail (g_log st) /\
  data_pending s2 = (if skip =? 0 then data_pending st
                     else circ_put (g_head (g_log st)) (replicate 4 true) (data_pending st)).
Proof.
  intros Hrep b Hskip sw s1 s2. unfold s1, s2, s1, skips. clear s1 s2.
  destruct (Z.eqb_spec skip 0) as [E|E]; cbn [negb]; [by rewrite app_nil_r|].
  destruct Hskip as [|(Hend & H4 & Hm & Hfit)]; [done|].
  pose proof (slots_at_total _ _ _ (rep_slots _ _ Hrep)) as [Hpos _].
  assert (Hi : 0 <= ring_idx b < 8192) by (rewrite ring_idx_mod; apply Z.mod_pos_bound; lia).
  assert (Hlen : length (le32 sw) = 4%nat) by done.
  rewrite (rep_head _ _ Hrep). fold b.
  assert (H1 : log_rep (ring_put (u32 b) (le32 sw) st) ss).
  { rewrite <-(Z.add_0_r b). apply rep_put; rewrite ?Z.add_0_r, ?Hlen; try done; try lia; [apply le32_range|].
    fold b. lia. }
  split; [done|]. split; [|split; [by repeat split|split; [done|by rewrite <-Hlen]]].
  pose proof (rep_commit _ _ (Skip skip) H1) as Hc. cbn [slot_len] in Hc.
  change (g_tail (g_log (ring_put (u32 b) (le32 sw) st))) with (g_tail (g_log st)) in Hc. fold b in Hc.
  change (g_head (g_log (ring_put (u32 b) (le32 sw) st))) with (g_head (g_log st)).
  rewrite (rep_head _ _ Hrep). fold b. rewrite u32_add_l. apply Hc; [|lia].
  change (g_data (g_log (ring_put (u32 b) (le32 sw) st))) with (circ_put (u32 b) (le32 sw) (g_data (g_log st))).
  rewrite circ_put_u32, circ_put_flat by (rewrite Hlen; lia).
  unfold slot_at. cbn [slot_len slot_level]. split; [lia|]. split; [done|]. split; [|lia].
  change 4%nat with (length (le32 sw)). rewrite slice_splice_eq.
  - unfold sw. apply skip_word. lia.
  - rewrite (rep_data _ _ Hrep). lia.
Qed.

(** *** What waits to be read back *)

(** Only bytes of a span wait, and those of [dp]. *)
Definition pending_in (dp : list bool) (off n : Z) (st : log_st) : Prop :=
  length (data_pending st) = Z.to_nat 8192 /\
  forall i, data_pending st !! i = Some true -> (Z.of_nat i - off) mod 8192 < n \/ dp !! i = Some true.

Lemma pending_in_put dp off n off' src st : pending_in dp off n st ->
  Z.of_nat (length src) <= 8192 -> 0 <= (off' - off) mod 8192 -> (off' - off) mod 8192 + Z.of_nat (length src) <= n ->
  pending_in dp off n (ring_put off' src st).
Proof.
  intros [Hl Hp] Hs Ho Hn. split; [simpl; apply circ_put_length; rewrite ?length_replicate; done|].
  intros i. cbn [ring_put set_ring data_pending]. intros Hi.
  assert (Hlt : (i < length (circ_put off' (replicate (length src) true) (data_pending st)))%nat)
    by (by apply lookup_lt_is_Some_1; eexists).
  rewrite circ_put_length in Hlt by (rewrite ?length_replicate; done).
  rewrite lookup_circ_put in Hi by (rewrite ?length_replicate; lia). cbv zeta in Hi. rewrite length_replicate in Hi.
  case_decide as Hd; [left|by apply Hp].
  clear -Hd Hn Ho Hs. revert Hd Hn Ho Hs. generalize (Z.of_nat (length src)). generalize (Z.of_nat i). clear.
  intros i m Hd Hn Ho Hs.
  replace (i - off) with ((i - off') + (off' - off)) by lia. rewrite Z.add_mod by lia.
  pose proof (Z.mod_pos_bound (i - off') 8192 ltac:(lia)).
  pose proof (Z.mod_le ((i - off') mod 8192 + (off' - off) mod 8192) 8192). lia.
Qed.

Lemma pending_in_start off n st ss : log_rep st ss -> pending_in (data_pending st) off n st.
Proof. intros H. split; [apply H|]. auto. Qed.

(** What is live is read back: a power failure of the array's write buffer
    loses none of it. *)
Definition live_landed (st : log_st) (ss : list slot) : Prop :=
  hdr_pending st = false /\
  forall i, data_pending st !! i = Some true -> total ss <= (Z.of_nat i - g_tail (g_log st)) mod 8192.

(** Reading the span back leaves no byte of it waiting. *)
Lemma persist_ring_pending dp off n st i : pending_in dp off n st -> 0 <= n <= 8192 -> n mod 4 = 0 ->
  data_pending (persist_hdr (persist_ring off n st)) !! i = Some true ->
  dp !! i = Some true /\ n <= (Z.of_nat i - off) mod 8192.
Proof.
  intros [Hl Hp] Hn Hm. cbn [persist_hdr persist_ring set_ring data_pending]. fold (align4 n).
  assert (Ha : align4 n = n) by (rewrite align4_val by lia; Z.div_mod_to_equations; lia). rewrite Ha. intros Hi.
  assert (Hlr : Z.of_nat (length (replicate (Z.to_nat n) false)) = n) by (rewrite length_replicate; lia).
  assert (Hlt : (i < Z.to_nat 8192)%nat).
  { rewrite <-(circ_put_length off (replicate (Z.to_nat n) false) (data_pending st)) by (done || lia).
    apply lookup_lt_is_Some_1. by eexists. }
  rewrite lookup_circ_put in Hi by (done || lia). cbv zeta in Hi. rewrite Hlr in Hi. case_decide as Hd.
  - by apply lookup_replicate in Hi as [? _].
  - destruct (Hp i Hi); [lia|]. split; [done|lia].
Qed.

(** *** The whole append *)

(** What [fmt_vsnformat] stores: the text cut to the record, and its NUL. *)
Definition stored_text (t : list Z) : list Z := take LOG_MSG_MAX t ++ [0].

Lemma stored_text_length t : (0 < length (stored_text t) <= 105)%nat.
Proof. unfold stored_text, LOG_MSG_MAX. rewrite length_app, length_take. cbn [length]. lia. Qed.

Lemma skip_for_spec rec_len st ss : log_rep st ss -> 0 < rec_len <= 128 -> rec_len mod 4 = 0 ->
  let b := g_tail (g_log st) + total ss in
  let skip := skip_for rec_len st in
  (skip = 0 /\ ring_idx b + rec_len <= 8192) \/
  (ring_idx b + skip = 8192 /\ 4 <= skip < rec_len /\ skip mod 4 = 0).
Proof.
  intros Hrep Hr Hm b. unfold skip_for, LOG_RING_DATA_SIZE. rewrite (rep_head_idx _ _ Hrep). fold b. cbv zeta.
  assert (H4 : ring_idx b mod 4 = 0).
  { rewrite ring_idx_mod. pose proof (slots_at_total _ _ _ (rep_slots _ _ Hrep)) as [_ Ht].
    pose proof (rep_align _ _ Hrep). unfold b. clear -Ht H. Z.div_mod_to_equations. lia. }
  pose proof (Z.mod_pos_bound b 8192 ltac:(lia)) as Hb. rewrite <-ring_idx_mod in Hb.
  destruct (Z.ltb_spec 8192 (ring_idx b + rec_len)); [right|left; lia].
  split; [lia|]. split; [|clear -H4; Z.div_mod_to_equations; lia].
  clear -H4 Hm H Hb. Z.div_mod_to_equations. lia.
Qed.

(** The appended state, and every state a reset in the middle of the append can
    leave behind. *)
Lemma vwrite_stages_spec level ts tag text st ss :
  log_rep st ss -> 0 <= level <= 3 -> bytes_ok text -> (0 < length text <= 105)%nat -> bytes_ok (default [] tag) ->
  let bs := rec_bytes level ts (g_seq (g_log st)) tag text in
  let rec_len := Z.of_nat (length bs) in
  let skip := skip_for rec_len st in
  exists k stages s7, vwrite_stages level ts tag text st = Some (stages ++ [s7]) /\
    let ss0 := drop k ss in
    total ss0 + skip + rec_len <= 8192 /\ (forall j, (j < k)%nat -> 8192 < total (drop j ss) + (skip + rec_len)) /\
    Forall (fun s => log_rep s ss0 \/ log_rep s (ss0 ++ skips skip)) stages /\
    log_rep s7 ((ss0 ++ skips skip) ++ [Rec bs]) /\
    same_rest st s7 /\ g_seq (g_log s7) = u32 (g_seq (g_log st) + 1) /\
    ring_idx (g_tail (g_log s7) + total ss0) = ring_idx (g_head (g_log st)) /\
    pending_in (data_pending st) (g_head (g_log st)) (skip + rec_len) s7.
Proof.
  intros Hrep Hl Htext Ht Htag bs rec_len skip.
  pose proof (rec_bytes_length level ts (g_seq (g_log st)) tag text ltac:(lia)) as Hlen. fold bs in Hlen. fold rec_len in Hlen.
  pose proof (align4_bounds (Z.of_nat (length text)) ltac:(lia)) as [Hal Halm]. 
  assert (Hrl : 0 < rec_len <= 128 /\ rec_len mod 4 = 0).
  { rewrite Hlen. unfold LOG_HDR_SIZE. Z.div_mod_to_equations. lia. }
  destruct Hrl as [Hrl Hrm].
  pose proof (skip_for_spec rec_len st ss Hrep Hrl Hrm) as Hsk. cbv zeta in Hsk. fold skip in Hsk.
  destruct (evict_spec (skip + rec_len)) with (ss := ss) (fuel := WALK_FUEL) (st := st)
    as (k & s0 & Hev & Hmv & H0 & Hfit & Hmin); [lia|done|pose proof (rep_length _ _ Hrep); unfold WALK_FUEL; lia|].
  pose proof Hmv as (Mh & Mseq & Mdata & Mpend & _).
  set (b0 := g_tail (g_log s0) + total (drop k ss)).
  assert (Hb0 : ring_idx b0 = ring_idx (g_tail (g_log st) + total ss)).
  { unfold b0. rewrite <-(rep_head_idx _ _ H0), Mh. apply rep_head_idx, Hrep. }
  unfold vwrite_stages. rewrite <-Hlen. fold skip. rewrite Hev. cbn [mbind option_bind].
  destruct (skip_stages_spec skip s0 (drop k ss) H0) as (H1 & H2 & Hr2 & Ht2 & Hp2).
  { fold b0. rewrite Hb0. lia. }
  set (s1 := if negb (skip =? 0) then ring_put (g_head (g_log s0)) _ s0 else s0) in *.
  set (s2 := if negb (skip =? 0) then set_head (g_head (g_log s1) +% skip) s1 else s1) in *.
  destruct (record_stages_spec level ts (g_seq (g_log st)) tag text s2 _ H2 Hl Htext Ht Htag)
    as (s3 & s4 & s5 & s6 & s7 & E & H3 & H4 & H5 & H6 & H7 & Hr7 & Hseq & Ht7 & E5 & Hp7).
  { fold bs. rewrite total_app, skips_total. fold rec_len. lia. }
  { fold bs. fold rec_len. rewrite total_app, skips_total, Ht2, Z.add_assoc. fold b0.
    destruct Hsk as [[Es Hsk]|[Hsk _]]; [rewrite Es, Z.add_0_r, Hb0; exact Hsk|].
    rewrite <-Hb0 in Hsk. rewrite !ring_idx_mod in *. clear -Hsk Hrl. Z.div_mod_to_equations. lia. }
  exists k, [s0; s1; s2; s3; s4; s5; s6], s7. split; [by rewrite E|]. split; [lia|]. split; [done|].
  split; [repeat (apply Forall_cons_2; [first [left; assumption | right; assumption]|]); apply Forall_nil_2|].
  split; [done|]. split.
  { apply moves_tail_rest in Hmv. unfold same_rest in *. intuition congruence. }
  split; [done|]. split.
  { transitivity (ring_idx (g_head (g_log s0))); [|by rewrite Mh].
    rewrite (rep_head_idx _ _ H0), <-Ht2. rewrite <-Ht7. done. }
  set (dp0 := data_pending st).
  assert (Hpl : pending_in dp0 (g_head (g_log st)) (skip + rec_len) s2).
  { unfold pending_in. rewrite Hp2, Mpend, Mh.
    destruct (Z.eqb_spec skip 0) as [Es|Es]; [by apply (pending_in_start _ _ _ ss)|].
    refine (pending_in_put dp0 (g_head (g_log st)) (skip + rec_len) (g_head (g_log st)) [0; 0; 0; 0] st _ _ _ _).
    - by apply (pending_in_start _ _ _ ss).
    - simpl. lia.
    - by rewrite Z.sub_diag.
    - rewrite Z.sub_diag. simpl. lia. }
  unfold pending_in. rewrite Hp7. fold (pending_in dp0 (g_head (g_log st)) (skip + rec_len) s5). rewrite E5.
  assert (Hb : forall n, (u32 (g_tail (g_log s2) + total (drop k ss ++ skips skip) + n) - g_head (g_log st)) mod 8192 = (skip + n) mod 8192).
  { intros n. rewrite total_app, skips_total, Ht2, <-Mh, (rep_head _ _ H0). unfold u32. clear. 
    Z.div_mod_to_equations. lia. }
  set (padlen := align4 (Z.of_nat (length text)) - Z.of_nat (length text)) in *.
  unfold LOG_HDR_SIZE in *.
  apply pending_in_put; [apply pending_in_put; [apply pending_in_put; [exact Hpl|..]|..]|..];
    rewrite ?length_replicate, ?rec_hdr_length by apply tag_field_length; try lia;
    rewrite ?Hb; try (rewrite <-(Z.add_0_r (_ + total _)), Hb); rewrite ?Z.mod_small; lia.
Qed.

(** *** What a reader sees of a record *)

Lemma c_prefix_app l r : c_prefix (l ++ 0 :: r) = c_prefix l.
Proof. induction l as [|c l IH]; simpl; [done|]. case_if; [done|]. by rewrite IH. Qed.

Lemma c_prefix_length l : (length (c_prefix l) <= length l)%nat.
Proof. induction l as [|c l IH]; simpl; [done|]. case_if; simpl; lia. Qed.

Lemma c_prefix_no_nul l : no_nul l -> c_prefix l = l.
Proof.
  induction 1 as [|c l Hc Hl IH]; simpl; [done|].
  rewrite (proj2 (Z.eqb_neq c 0) Hc). by rewrite IH.
Qed.

Lemma entry_of_rec_bytes level ts seq_ tag t : 0 <= level <= 3 -> is_u32 ts -> is_u32 seq_ ->
  entry_of (rec_bytes level ts seq_ tag (stored_text t)) =
    Entry level ts seq_ (tag_field tag) (c_prefix (take LOG_MSG_MAX t)).
Proof.
  intros Hl Hts Hseq. unfold rec_bytes. set (padded := align4 _).
  set (tail_ := stored_text t ++ replicate _ 0).
  unfold rec_hdr. set (tot := LOG_HDR_SIZE + padded).
  assert (E : entry_of ((le16 tot ++ [u8 level; LOG_REC_MAGIC] ++ le32 ts ++ le32 seq_ ++ tag_field tag) ++ tail_) =
    Entry (u8 level) (get32 (le32 ts ++ le32 seq_ ++ tag_field tag ++ tail_)) (get32 (le32 seq_ ++ tag_field tag ++ tail_))
      (take LOG_TAG_MAX (tag_field tag ++ tail_)) (take LOG_MSG_MAX (c_prefix tail_))).
  { unfold entry_of. rewrite <-!app_assoc. unfold le16, le32, slice. cbn [app nth drop].
    pose proof (tag_field_length tag) as Ht. unfold LOG_TAG_MAX in Ht.
    destruct (tag_field tag) as [|? [|? [|? [|? [|? [|? [|? [|? [|]]]]]]]]]; simpl in Ht; try lia. done. }
  rewrite E, u8_small, !get32_le32 by (done || (unfold is_u8; lia)).
  rewrite take_app_length' by (symmetry; apply tag_field_length). f_equal.
  unfold tail_, stored_text. rewrite <-app_assoc. cbn [app]. rewrite c_prefix_app. apply take_ge.
  etrans; [apply c_prefix_length|]. rewrite length_take. lia.
Qed.

Lemma stored_take (t buf : list Z) : (length (take LOG_MSG_MAX t) < length buf)%nat ->
  take (length (take LOG_MSG_MAX t) + 1) (splice 0 (take LOG_MSG_MAX t ++ [0]) buf) = stored_text t.
Proof.
  intros Hl. unfold splice, stored_text. rewrite take_0, app_nil_l. apply take_app_length'.
  rewrite length_app. done.
Qed.

Section writes.
Context (HAL_GetTick : nat -> Z).

Lemma rep_persist st ss off n : log_rep st ss -> 0 <= n <= 8192 ->
  log_rep (persist_hdr (persist_ring off n st)) ss.
Proof.
  intros [] Hn. split; try done. simpl. apply circ_put_length; [done|]. rewrite length_replicate. fold (align4 n).
  rewrite align4_val by lia. Z.div_mod_to_equations. lia.
Qed.

Lemma rep_tick st ss : log_rep st ss -> log_rep (tick st) ss.
Proof. by intros []. Qed.

Lemma skip_for_tick n st : skip_for n (tick st) = skip_for n st.
Proof. reflexivity. Qed.

(** The record that a call writes. *)
Definition new_entry (level : Z) (tag : option (list Z)) (text : list Z) (st : log_st) : entry :=
  Entry level (u32 (HAL_GetTick (s_ticks st))) (g_seq (g_log st)) (tag_field tag) (c_prefix (take LOG_MSG_MAX text)).

(** The room a message needs: its record -- the header of 20 bytes, its text
    cut to 104 bytes and the NUL, rounded up to a word -- and, when the record
    does not fit before the end of the ring, the fragment left there. *)
Definition room_for (text : list Z) (st : log_st) : Z :=
  let record := 20 + (Z.of_nat (length (take LOG_MSG_MAX text)) + 1 + 3) / 4 * 4 in
  let offset := g_head (g_log st) mod 8192 in
  if offset + record <=? 8192 then record else 8192 - offset + record.

Lemma room_for_val text st :
  let rec_len := LOG_HDR_SIZE + align4 (Z.of_nat (length (stored_text text))) in
  room_for text st = skip_for rec_len st + rec_len.
Proof.
  cbv zeta. unfold room_for, skip_for, stored_text, LOG_RING_DATA_SIZE, LOG_HDR_SIZE.
  rewrite ring_idx_mod, length_app, Nat2Z.inj_add, align4_val by (cbn [length]; rewrite length_take; unfold LOG_MSG_MAX; lia).
  change (Z.of_nat (length [0])) with 1. cbv zeta.
  destruct (Z.leb_spec (g_head (g_log st) mod 8192 + (20 + (Z.of_nat (length (take LOG_MSG_MAX text)) + 1 + 3) / 4 * 4)) 8192);
    destruct (Z.ltb_spec 8192 (g_head (g_log st) mod 8192 + (20 + (Z.of_nat (length (take LOG_MSG_MAX text)) + 1 + 3) / 4 * 4))); lia.
Qed.

Lemma log_vwrite_append level tag fmt ap text st :
  log_ready st = true -> Z.min level LOG_LEVEL_DBG <= log_level st -> fmt_text fmt ap = Some text ->
  log_vwrite HAL_GetTick level tag fmt ap st =
    log_append HAL_GetTick (Z.min level LOG_LEVEL_DBG) tag (stored_text text) st.
Proof.
  intros Hready Hlev Htext. unfold log_vwrite.
  replace (if LOG_LEVEL_DBG <? level then LOG_LEVEL_DBG else level) with (Z.min level LOG_LEVEL_DBG)
    by (unfold LOG_LEVEL_DBG; case_if; lia).
  rewrite Hready. cbv zeta. cbn [negb orb]. if_false.
  pose proof (fmt_vsnformat_text (replicate (S LOG_MSG_MAX) 0) (S LOG_MSG_MAX) fmt ap text Htext) as E.
  rewrite length_replicate in E. specialize (E ltac:(lia)). cbv zeta in E.
  replace (S LOG_MSG_MAX - 1)%nat with LOG_MSG_MAX in E by lia. rewrite E. cbn [mbind option_bind].
  f_equal. apply stored_take. rewrite length_replicate, length_take. lia.
Qed.

(** A record whose text is terminated, as every record written is. *)
Definition nul_ended (s : slot) : Prop := match s with Rec bs => In 0 (drop 20 bs) | Skip _ => True end.

Lemma rec_bytes_nul level ts seq_ tag t : nul_ended (Rec (rec_bytes level ts seq_ tag (stored_text t))).
Proof.
  cbn [nul_ended]. unfold rec_bytes. rewrite drop_app_length'.
  - unfold stored_text. rewrite !in_app_iff. simpl. auto.
  - symmetry. apply rec_hdr_length, tag_field_length.
Qed.

Lemma skips_nul n : Forall nul_ended (skips n).
Proof. unfold skips. case_if; repeat constructor. Qed.

(** The invariant of the running log: the memory holds [ss], all of it landed. *)
Definition log_holds (st : log_st) (ss : list slot) : Prop :=
  log_rep st ss /\ live_landed st ss /\ Forall nul_ended ss.

Lemma live_landed_append st st' ss k n rec_len : live_landed st ss -> 0 <= n -> 0 <= rec_len ->
  log_rep st ss -> total (drop k ss) + (n + rec_len) <= 8192 -> 0 <= total (drop k ss) <= total ss ->
  ring_idx (g_tail (g_log st') + total (drop k ss)) = ring_idx (g_head (g_log st)) ->
  hdr_pending st' = false ->
  (forall i, data_pending st' !! i = Some true ->
     data_pending st !! i = Some true /\ n + rec_len <= (Z.of_nat i - g_head (g_log st)) mod 8192) ->
  forall i, data_pending st' !! i = Some true ->
    total (drop k ss) + (n + rec_len) <= (Z.of_nat i - g_tail (g_log st')) mod 8192.
Proof.
  intros [_ Hlive] Hn Hrl Hrep Hfit Hdrop Hidx Hhp Hp i Hi. destruct (Hp i Hi) as [Hi0 Hout].
  specialize (Hlive i Hi0). pose proof (rep_head_idx _ _ Hrep) as Hh. pose proof (rep_total _ _ Hrep) as Htot.
  rewrite !ring_idx_mod in *. revert Hlive Hout Hidx Hh Hfit Hdrop Hn Hrl Htot.
  generalize (total (drop k ss)) (total ss) (g_tail (g_log st')) (g_tail (g_log st)) (g_head (g_log st)) (Z.of_nat i).
  clear. intros a tot T tl H x. intros. Z.div_mod_to_equations. lia.
Qed.

Lemma total_drop d pos ss k : slots_at d pos ss -> 0 <= total (drop k ss) <= total ss.
Proof.
  intros Hss. rewrite <-(take_drop k ss) in Hss. apply slots_at_app in Hss as [H1 H2].
  apply slots_at_total in H1 as [H1 _]. apply slots_at_total in H2 as [H2 _].
  rewrite <-(take_drop k ss) at 3. rewrite total_app. lia.
Qed.

Lemma log_append_rep level tag text st ss :
  log_rep st ss -> 0 <= level <= 3 -> bytes_ok text -> bytes_ok (default [] tag) ->
  exists st' k n s, log_append HAL_GetTick level tag (stored_text text) st = Some st' /\
    log_rep st' (drop k ss ++ skips n ++ [s]) /\
    entries [s] = [new_entry level tag text st] /\ nul_ended s /\
    (forall j, (j < k)%nat -> 8192 < total (drop j ss) + room_for text st) /\
    same_rest (tick st) st' /\ g_seq (g_log st') = u32 (g_seq (g_log st) + 1) /\
    (live_landed st ss -> live_landed st' (drop k ss ++ skips n ++ [s])).
Proof.
  intros Hrep Hl Hb Htag. unfold log_append.
  pose proof (stored_text_length text) as Hst.
  assert (Hstb : bytes_ok (stored_text text)).
  { apply Forall_app_2; [by apply Forall_take|]. repeat constructor; unfold is_u8; lia. }
  destruct (vwrite_stages_spec level (u32 (HAL_GetTick (s_ticks st))) tag (stored_text text) (tick st) ss
    (rep_tick _ _ Hrep) Hl Hstb Hst Htag) as (k & stages & s7 & Est & Hfit & Hmin & _ & H7 & Hrest & Hseq & Hidx & Hpend).
  rewrite Est. cbn [mbind option_bind]. rewrite last_snoc. cbn [mbind option_bind]. clear Est.
  rewrite skip_for_tick in *.
  change (g_seq (g_log (tick st))) with (g_seq (g_log st)) in *.
  change (g_head (g_log (tick st))) with (g_head (g_log st)) in *.
  change (data_pending (tick st)) with (data_pending st) in *.
  set (bs := rec_bytes _ _ _ _ _) in *.
  assert (Hlen : Z.of_nat (length bs) = LOG_HDR_SIZE + align4 (Z.of_nat (length (stored_text text))))
    by (apply rec_bytes_length; lia).
  rewrite <-Hlen.
  pose proof (align4_bounds (Z.of_nat (length (stored_text text))) ltac:(lia)) as [Hal Halm].
  assert (Hrl : 0 < Z.of_nat (length bs) <= 128 /\ Z.of_nat (length bs) mod 4 = 0)
    by (rewrite Hlen; unfold LOG_HDR_SIZE; Z.div_mod_to_equations; lia).
  pose proof (skip_for_spec (Z.of_nat (length bs)) st ss Hrep (proj1 Hrl) (proj2 Hrl)) as Hsk. cbv zeta in Hsk.
  set (skip := skip_for (Z.of_nat (length bs)) st) in *.
  assert (Hsk2 : 0 <= skip < 128 /\ skip mod 4 = 0) by (destruct Hsk as [[-> _]|]; [done|lia]).
  exists (persist_hdr (persist_ring (g_head (g_log st)) (skip + Z.of_nat (length bs)) s7)), k, skip, (Rec bs).
  split; [reflexivity|]. split; [rewrite <-app_assoc in H7; apply rep_persist; [apply H7|lia]|].
  split; [cbn [entries omap list_omap]; unfold bs; rewrite entry_of_rec_bytes; [done|done|apply u32_range|apply Hrep]|].
  split; [apply rec_bytes_nul|].
  split; [intros j Hj; specialize (Hmin j Hj); by rewrite room_for_val, <-Hlen|].
  split; [exact Hrest|]. split; [exact Hseq|].
  intros Hlive. split; [reflexivity|]. rewrite !total_app, skips_total. cbn [total slot_len]. rewrite Z.add_0_r.
  eapply live_landed_append; [exact Hlive|lia|lia|exact Hrep|lia|eapply total_drop, Hrep|exact Hidx|reflexivity|].
  intros i. apply persist_ring_pending; [exact Hpend|lia|].
  clear -Hrl Hsk2. Z.div_mod_to_equations. lia.
Qed.

(** C24: one message.  On a log in its invariant, a call that passes the level
    filter returns with the log in its invariant: the record is appended with
    the next sequence number, its tag cut to 8 characters and its text, the
    formatter's reference text, to 104; the messages before it are kept but for
    the oldest, evicted one by one and only while what is left leaves less room
    than exactly this record and the fragment it skips take; and every byte of the log, the new record included, has
    landed. *)
Theorem log_vwrite_correct (level : Z) (tag : option (list Z)) (fmt : list Z) (ap : list va) (text : list Z)
    (st : log_st) (ss : list slot) :
  log_holds st ss -> 0 <= level -> log_ready st = true -> Z.min level LOG_LEVEL_DBG <= log_level st ->
  fmt_text fmt ap = Some text -> bytes_ok text -> bytes_ok (default [] tag) ->
  exists st' k ss', log_vwrite HAL_GetTick level tag fmt ap st = Some st' /\ log_holds st' ss' /\
    entries ss' = entries (drop k ss) ++ [new_entry (Z.min level LOG_LEVEL_DBG) tag text st] /\
    (forall j, (j < k)%nat -> 8192 < total (drop j ss) + room_for text st) /\
    g_seq (g_log st') = u32 (g_seq (g_log st) + 1).
Proof.
  intros (Hrep & Hland & Hnul) Hl Hready Hlev Htext Hb Htag.
  rewrite (log_vwrite_append _ _ _ _ text) by done.
  destruct (log_append_rep (Z.min level LOG_LEVEL_DBG) tag text st ss) as (st' & k & n & s & E & H1 & H2 & H3 & H4 & _ & H5 & H6);
    [done|unfold LOG_LEVEL_DBG; lia|done|done|].
  exists st', k, (drop k ss ++ skips n ++ [s]). split; [done|]. split.
  { split; [done|]. split; [by apply H6|]. repeat apply Forall_app_2; [by apply Forall_drop|apply skips_nul|by repeat constructor]. }
  by rewrite !entries_app, skips_entries, app_nil_l, H2.
Qed.

(** an append that a reset interrupts.  After any of its stores the memory
    holds either the messages the eviction left, or those and the new one whole:
    never a part of a record, and [log_init] finds it in order. *)
Theorem log_vwrite_interrupted (level ts : Z) (tag : option (list Z)) (text : list Z) (st : log_st) (ss : list slot) :
  log_rep st ss -> 0 <= level <= 3 -> is_u32 ts -> bytes_ok text -> bytes_ok (default [] tag) ->
  exists stages k, vwrite_stages level ts tag (stored_text text) st = Some stages /\
    Forall (fun s => exists ss', log_rep s ss' /\
      (entries ss' = entries (drop k ss) \/
       entries ss' = entries (drop k ss) ++
         [Entry level ts (g_seq (g_log st)) (tag_field tag) (c_prefix (take LOG_MSG_MAX text))])) stages.
Proof.
  intros Hrep Hl Hts Hb Htag.
  assert (Hstb : bytes_ok (stored_text text)).
  { apply Forall_app_2; [by apply Forall_take|]. repeat constructor; unfold is_u8; lia. }
  destruct (vwrite_stages_spec level ts tag (stored_text text) st ss Hrep Hl Hstb (stored_text_length text) Htag)
    as (k & stages & s7 & E & _ & _ & Hall & H7 & _).
  exists (stages ++ [s7]), k. split; [done|]. apply Forall_app_2.
  - eapply Forall_impl; [exact Hall|]. intros s [H|H]; eexists; (split; [exact H|left]); [done|].
    by rewrite entries_app, skips_entries, app_nil_r.
  - constructor; [|done]. eexists. split; [exact H7|right].
    rewrite !entries_app, skips_entries, app_nil_r. f_equal. cbn [entries omap list_omap].
    by rewrite entry_of_rec_bytes by (done || apply Hrep).
Qed.
End writes.

(** ** The boot walk *)

Lemma pos_word_bounds pos : pos mod 4 = 0 -> ring_idx pos + 4 <= 8192.
Proof. intros Hm. rewrite ring_idx_mod. Z.div_mod_to_equations. lia. Qed.

(** A first word that passes the checks of the walk starts a slot. *)
Lemma slot_of_word st pos tot level : length (g_data (g_log st)) = Z.to_nat 8192 -> bytes_ok (g_data (g_log st)) ->
  pos mod 4 = 0 -> rec_word (u32 pos) st = (tot, level, LOG_REC_MAGIC) -> tot mod 4 = 0 ->
  (level = LOG_LEVEL_SKIP -> 4 <= tot /\ ring_idx pos + tot = 8192) ->
  (level <> LOG_LEVEL_SKIP -> LOG_REC_MIN <= tot <= LOG_REC_MAX /\ ring_idx pos + tot <= 8192) ->
  exists s, slot_at (g_data (g_log st)) pos s /\ slot_len s = tot.
Proof.
  intros Hd Hb Hm Hw Hm4 Hskip Hrec. set (d := g_data (g_log st)) in *.
  pose proof (pos_word_bounds pos Hm) as Hp4.
  assert (Hidx : 0 <= ring_idx pos) by (rewrite ring_idx_mod; apply Z.mod_pos_bound; lia).
  assert (H4 : exists a b c e, slice (Z.to_nat (ring_idx pos)) 4 d = [a; b; c; e]).
  { assert (Hl : length (slice (Z.to_nat (ring_idx pos)) 4 d) = 4%nat) by (apply length_slice; lia).
    destruct (slice (Z.to_nat (ring_idx pos)) 4 d) as [|a [|b [|c [|e [|]]]]]; simpl in Hl; try lia. by exists a, b, c, e. }
  destruct H4 as (a & b & c & e & E).
  assert (Hbs : bytes_ok [a; b; c; e]) by (rewrite <-E; by apply Forall_take, Forall_drop).
  assert (Hbytes : is_u8 a /\ is_u8 b /\ is_u8 c /\ is_u8 e) by (by rewrite !Forall_cons in Hbs; naive_solver).
  destruct Hbytes as (Ha & Hb' & Hc & He).
  assert (Hget : ring_get (u32 pos) 4 st = [a; b; c; e]).
  { unfold ring_get. rewrite circ_get_u32. fold (ring_get pos 4 st). by rewrite ring_get_4. }
  rewrite (rec_word_bytes _ _ _ _ _ _ Hget) in Hw by done. injection Hw as Htot Hlev Hmag. subst c e.
  assert (Hle : le16 tot = [a; b]).
  { subst tot. unfold le16. rewrite !land_255, Z.shiftr_div_pow2 by lia. change (2 ^ 8) with 256. unfold is_u8 in *.
    f_equal; [|f_equal]; Z.div_mod_to_equations; lia. }
  destruct (decide (level = LOG_LEVEL_SKIP)) as [Hs|Hs].
  - destruct (Hskip Hs). exists (Skip tot). split; [|done]. unfold slot_at. cbn [slot_len slot_level].
    fold d. rewrite E, Hle, Hs. split; [lia|]. split; [done|]. split; [done|]. split; [done|lia].
  - destruct (Hrec Hs) as [Hr Hfit]. unfold LOG_REC_MIN, LOG_REC_MAX in Hr.
    set (bs := slice (Z.to_nat (ring_idx pos)) (Z.to_nat tot) d).
    assert (Hlbs : Z.of_nat (length bs) = tot) by (unfold bs; rewrite length_slice; lia).
    assert (H4 : take 4 bs = [a; b; level; LOG_REC_MAGIC]).
    { unfold bs, slice. rewrite take_take. replace (4 `min` Z.to_nat tot)%nat with 4%nat by lia. exact E. }
    assert (Hn : nth 2 bs 0 = level).
    { rewrite <-(take_drop 4 bs), H4. done. }
    exists (Rec bs). split; [|done]. unfold slot_at, slot_level, slot_len. fold d. rewrite Hlbs, Hn, E, Hle.
    split; [done|]. split; [done|]. split; [done|]. split; [|done].
    unfold bs at 2. f_equal. lia.
Qed.

(** One round of the walk at a slot. *)
Lemma walk_slot st pos s : bytes_ok (g_data (g_log st)) -> pos mod 4 = 0 -> slot_at (g_data (g_log st)) pos s ->
  exists level, rec_word (u32 pos) st = (slot_len s, level, LOG_REC_MAGIC) /\ level = slot_level s /\
    Z.land (slot_len s) 3 = 0 /\ ring_idx (u32 pos) + slot_len s <= 8192 /\ (pos + slot_len s) mod 4 = 0 /\
    match s with
    | Skip n => level = LOG_LEVEL_SKIP /\ ring_idx (u32 pos) + n = 8192
    | Rec _ => level <> LOG_LEVEL_SKIP /\ LOG_REC_MIN <= slot_len s <= LOG_REC_MAX
    end.
Proof.
  intros Hb Hm Hs. exists (slot_level s). split; [by apply rec_word_slot|]. split; [done|].
  destruct Hs as (Hp & Hm4 & _ & Hk). rewrite ring_idx_u32. split.
  { rewrite (land_mask 2) by lia. done. }
  split; [done|]. split; [clear -Hm Hm4; Z.div_mod_to_equations; lia|].
  destruct s; [tauto|]. split; [done|tauto].
Qed.

Lemma boot_walk_rep st : bytes_ok (g_data (g_log st)) -> g_size (g_log st) = 8192 -> forall ss fuel pos,
  slots_at (g_data (g_log st)) pos ss -> pos mod 4 = 0 -> total ss <= 8192 ->
  g_head (g_log st) = u32 (pos + total ss) -> (length ss < fuel)%nat ->
  boot_walk fuel (u32 pos) st = Some (g_head (g_log st)).
Proof.
  intros Hb Hsize. induction ss as [|s ss IH]; intros fuel pos Hss Hm Htot Hh Hf;
    (destruct fuel as [|fuel]; [lia|]); cbn [boot_walk].
  { rewrite Hh. cbn [total]. rewrite Z.add_0_r, Z.eqb_refl. done. }
  destruct Hss as [Hs Hss]. pose proof (slot_at_len _ _ _ Hs) as H4.
  pose proof (slots_at_total _ _ _ Hss) as [Hp _]. cbn [total length] in *.
  destruct (walk_slot st pos s Hb Hm Hs) as (level & Hw & Hlev & Hl3 & Hfit & Hm' & Hk).
  assert (Hne : u32 pos <> g_head (g_log st)).
  { rewrite Hh. unfold u32. clear -H4 Hp Htot. Z.div_mod_to_equations. lia. }
  assert (Hd : g_head (g_log st) -% u32 pos = slot_len s + total ss).
  { rewrite Hh, u32_sub_l, u32_sub_r. rewrite u32_small; [lia|unfold is_u32; lia]. }
  destruct (Z.eqb_spec (u32 pos) (g_head (g_log st))); [done|]. rewrite Hd, Hsize. if_false.
  rewrite Hw, Hl3. cbn [Z.eqb negb orb]. rewrite Z.eqb_refl. cbn [negb orb].
  assert (Hgo : boot_walk fuel (u32 pos +% slot_len s) st = Some (g_head (g_log st))).
  { rewrite u32_add_l. apply IH; try done; try lia. rewrite Hh. f_equal. lia. }
  unfold LOG_RING_DATA_SIZE. destruct s as [bs|sn].
  - destruct Hk as [Hk1 Hk2]. rewrite (proj2 (Z.eqb_neq _ _) Hk1). if_false. done.
  - destruct Hk as [-> Hk2]. rewrite Z.eqb_refl. cbn [slot_len] in *. rewrite Hk2. cbn [Z.eqb].
    rewrite Pos.eqb_refl. cbn [negb]. if_false. done.
Qed.

(** The walk over any memory: it stops, past whole slots. *)
Lemma boot_walk_any st : length (g_data (g_log st)) = Z.to_nat 8192 -> bytes_ok (g_data (g_log st)) ->
  g_size (g_log st) = 8192 -> forall fuel pos, pos mod 4 = 0 ->
  g_head (g_log st) -% u32 pos <= 8192 -> (g_head (g_log st) -% u32 pos) / 4 + 1 < Z.of_nat fuel ->
  exists ss, slots_at (g_data (g_log st)) pos ss /\ boot_walk fuel (u32 pos) st = Some (u32 (pos + total ss)).
Proof.
  intros Hd Hb Hsize. induction fuel as [|fuel IH]; intros pos Hm Hdist Hf.
  { pose proof (u32_range (g_head (g_log st) - u32 pos)) as H. unfold is_u32 in H. Z.div_mod_to_equations. lia. }
  cbn [boot_walk].
  assert (Hstop : exists ss, slots_at (g_data (g_log st)) pos ss /\ Some (u32 pos) = Some (u32 (pos + total ss))).
  { exists []. cbn [slots_at total]. by rewrite Z.add_0_r. }
  destruct (Z.eqb_spec (u32 pos) (g_head (g_log st))) as [|Hne]; [done|].
  destruct (Z.ltb_spec (g_size (g_log st)) (g_head (g_log st) -% u32 pos)); [done|].
  destruct (rec_word (u32 pos) st) as [[tot level] rmag] eqn:Hw. cbv zeta.
  destruct (Z.eqb_spec rmag LOG_REC_MAGIC) as [-> |]; [|done]. cbn [negb orb].
  destruct (Z.eqb_spec (Z.land tot 3) 0) as [H3|]; [|done]. cbn [negb]. rewrite (land_mask 2) in H3 by lia.
  change (2 ^ 2) with 4 in H3.
  assert (Hgo : (level = LOG_LEVEL_SKIP -> 4 <= tot /\ ring_idx pos + tot = 8192) ->
    (level <> LOG_LEVEL_SKIP -> LOG_REC_MIN <= tot <= LOG_REC_MAX /\ ring_idx pos + tot <= 8192) ->
    exists ss, slots_at (g_data (g_log st)) pos ss /\ boot_walk fuel (u32 pos +% tot) st = Some (u32 (pos + total ss))).
  { intros Hs Hr. destruct (slot_of_word st pos tot level Hd Hb Hm Hw H3 Hs Hr) as (s & Hsl & Hlen).
    pose proof (slot_at_len _ _ _ Hsl) as H4. rewrite Hlen in H4. rewrite u32_add_l.
    assert (Htot : tot <= 8192).
    { destruct Hsl as (Hfit & _). rewrite Hlen, ring_idx_mod in Hfit. pose proof (Z.mod_pos_bound pos 8192 ltac:(lia)). lia. }
    assert (Hm' : (pos + tot) mod 4 = 0) by (clear -Hm H3; Z.div_mod_to_equations; lia).
    set (dist := g_head (g_log st) -% u32 pos) in *.
    assert (Hd' : g_head (g_log st) -% u32 (pos + tot) = u32 (dist - tot)).
    { unfold dist, u32. clear. Z.div_mod_to_equations. lia. }
    pose proof (u32_range (g_head (g_log st) - u32 pos)) as Hr0. fold dist in Hr0. unfold is_u32 in Hr0.
    destruct (Z.leb_spec tot dist).
    - destruct (IH (pos + tot)) as (ss & Hss & Hrun); [done| | |].
      + rewrite Hd', u32_small by (unfold is_u32; lia). lia.
      + rewrite Hd', u32_small by (unfold is_u32; lia). clear -Hf H0 H4 Hr0. Z.div_mod_to_equations. lia.
      + exists (s :: ss). cbn [slots_at total]. rewrite Hlen. split; [done|]. rewrite Hrun. do 2 f_equal. lia.
    - exists [s]. cbn [slots_at total]. rewrite Hlen. split; [done|]. rewrite Z.add_0_r.
      destruct fuel as [|fuel].
      { exfalso. clear -Hf Hr0 Hne. Z.div_mod_to_equations. lia. }
      cbn [boot_walk].
      assert (Hwrap : u32 (dist - tot) = dist - tot + 4294967296) by (unfold u32; clear -H0 Hr0 Htot; Z.div_mod_to_equations; lia).
      destruct (Z.eqb_spec (u32 (pos + tot)) (g_head (g_log st))) as [|Hne2]; [done|].
      rewrite Hd', Hwrap, Hsize. by if_true. }
  unfold LOG_RING_DATA_SIZE. rewrite ring_idx_u32.
  destruct (Z.eqb_spec level LOG_LEVEL_SKIP).
  - destruct (Z.ltb_spec tot 4); [done|]. cbn [orb].
    destruct (Z.eqb_spec (ring_idx pos + tot) 8192); [|done]. cbn [negb]. apply Hgo; [done|done].
  - destruct (Z.ltb_spec tot LOG_REC_MIN); [done|]. destruct (Z.ltb_spec LOG_REC_MAX tot); [done|].
    destruct (Z.ltb_spec 8192 (ring_idx pos + tot)); [done|]. cbn [orb]. apply Hgo; [done|lia].
Qed.

(** ** What initialisation leaves *)

(** Any memory after a reset: its types only -- the array's size, bytes, 32-bit
    words -- and no store outstanding. *)
Record mem_ok (st : log_st) : Prop := MemOk {
  mem_data : length (g_data (g_log st)) = Z.to_nat 8192;
  mem_bytes : bytes_ok (g_data (g_log st));
  mem_pending : data_pending st = replicate (Z.to_nat 8192) false;
  mem_head : is_u32 (g_head (g_log st));
  mem_tail : is_u32 (g_tail (g_log st));
  mem_seq : is_u32 (g_seq (g_log st));
}.

(** The text of the boot marker. *)
Definition boot_text (n : Z) (cause : list Z) : list Z :=
  str "#" ++ utoa n 10 false ++ str " reset cause: " ++ cause.

Lemma boot_fmt_text n cause : is_u32 n ->
  fmt_text boot_fmt [VLong n; VStr (Some cause)] = Some (boot_text n cause).
Proof.
  intros Hn. pose proof (fmt_text_spec
    (Literal 35 :: Directive false false 0 (CUnsigned LM_LONG n) ::
     map Literal (str " reset cause: ") ++ [Directive false false 0 (CString (Some cause))])) as E.
  change (spec_args _) with [VLong n; VStr (Some cause)] in E.
  change (spec_fmt _) with boot_fmt in E. rewrite E.
  - unfold spec_text. cbn [map concat item_text conv_text app str]. rewrite !padded_0, map_app, concat_app. 
    unfold boot_text. cbn [map concat item_text conv_text app default]. by rewrite padded_0, app_nil_r.
  - constructor; [done|]. constructor; [split; [lia|exact Hn]|]. apply Forall_app_2; [|by repeat constructor].
    repeat (constructor; [simpl; lia|]). constructor.
Qed.

Lemma utoa_digit_chars n : Forall (fun c => 48 <= c < 58) (utoa n 10 false).
Proof.
  unfold utoa. apply Forall_map. eapply Forall_impl; [apply digits_n_range; lia|].
  simpl. intros d Hd. rewrite digit_char_dec by done. lia.
Qed.

(** *** The append returns from any memory *)

Lemma rec_total_range off st : bytes_ok (g_data (g_log st)) -> 0 <= rec_total_at off st < 65536.
Proof.
  intros Hb. unfold rec_total_at, ring_get.
  assert (Hf : bytes_ok (circ_get off 2 (g_data (g_log st)))).
  { unfold circ_get. case_if; [by apply Forall_take, Forall_drop|]. apply Forall_app_2; by apply Forall_take, Forall_drop. }
  pose proof (nth_Forall is_u8 0 _ 0 ltac:(unfold is_u8; lia) Hf) as H0.
  pose proof (nth_Forall is_u8 0 _ 1 ltac:(unfold is_u8; lia) Hf) as H1.
  set (l := circ_get off 2 (g_data (g_log st))) in *.
  change (get16 l) with (get16 [nth 0 l 0; nth 1 l 0]). rewrite get16_val by done. unfold is_u8 in *. lia.
Qed.

(** When the distance is beyond the ring the eviction has nothing to do. *)
Lemma evict_beyond fuel need st : g_size (g_log st) = 8192 -> 0 <= need <= 8192 ->
  8192 < g_head (g_log st) -% g_tail (g_log st) -> evict fuel need st = Some st.
Proof.
  intros Hs Hn Hd. pose proof (u32_range (g_head (g_log st) - g_tail (g_log st))) as Hr. unfold is_u32 in Hr.
  assert (E : g_size (g_log st) -% (g_head (g_log st) -% g_tail (g_log st)) <? need = false).
  { rewrite Hs. set (d := g_head (g_log st) -% g_tail (g_log st)) in *. clearbody d.
    apply Z.ltb_ge. unfold u32. clear -Hr Hd Hn. Z.div_mod_to_equations. lia. }
  destruct fuel; cbn [evict]; by rewrite E.
Qed.

Lemma evict_total need : 0 <= need <= 8192 -> forall fuel st, g_size (g_log st) = 8192 ->
  bytes_ok (g_data (g_log st)) -> (g_head (g_log st) -% g_tail (g_log st) <= 8192 -> (g_head (g_log st) -% g_tail (g_log st)) / 4 < Z.of_nat fuel) ->
  is_Some (evict fuel need st).
Proof.
  intros Hn. induction fuel as [|fuel IH]; intros st Hs Hb Hf;
    (destruct (Z.le_gt_cases (g_head (g_log st) -% g_tail (g_log st)) 8192) as [Hd|Hd]; [|by rewrite evict_beyond]);
    specialize (Hf Hd); pose proof (u32_range (g_head (g_log st) - g_tail (g_log st))) as Hr; unfold is_u32 in Hr.
  { exfalso. clear -Hf Hr. Z.div_mod_to_equations. lia. }
  cbn [evict]. case_if; [|done]. pose proof (rec_total_range (g_tail (g_log st)) st Hb) as Ht. cbv zeta.
  set (tl := rec_total_at (g_tail (g_log st)) st) in *.
  destruct ((tl <? 4) || negb (Z.land tl 3 =? 0)) eqn:E; [done|]. apply orb_false_iff in E as [E4 _].
  apply IH; [done|done|]. cbn [set_tail set_ring g_log g_head g_tail].
  set (dist := g_head (g_log st) -% g_tail (g_log st)) in *.
  assert (Hd' : g_head (g_log st) -% (g_tail (g_log st) +% tl) = u32 (dist - tl)).
  { unfold dist, u32. clear. Z.div_mod_to_equations. lia. }
  rewrite Hd'. intros Hle. assert (u32 (dist - tl) = dist - tl) as ->.
  { revert Hle. unfold u32. clear -Hr Hd Ht. intros. Z.div_mod_to_equations. lia. }
  apply Z.ltb_ge in E4. clear -E4 Hf Hr. Z.div_mod_to_equations. lia.
Qed.

Lemma log_append_total tk level tag text st : g_size (g_log st) = 8192 -> bytes_ok (g_data (g_log st)) ->
  is_Some (log_append tk level tag (stored_text text) st).
Proof.
  intros Hs Hb. unfold log_append, vwrite_stages. pose proof (stored_text_length text) as Hl.
  pose proof (align4_bounds (Z.of_nat (length (stored_text text))) ltac:(lia)) as [Hal Halm].
  set (rec_len := LOG_HDR_SIZE + align4 (Z.of_nat (length (stored_text text)))).
  assert (Hrl : 0 < rec_len <= 132) by (unfold rec_len, LOG_HDR_SIZE; lia).
  set (skip := skip_for rec_len (tick st)).
  assert (Hskip : 0 <= skip <= 132).
  { unfold skip, skip_for, LOG_RING_DATA_SIZE. rewrite ring_idx_mod.
    pose proof (Z.mod_pos_bound (g_head (g_log (tick st))) 8192 ltac:(lia)). case_if; lia. }
  destruct (evict_total (skip + rec_len) ltac:(lia) WALK_FUEL (tick st) Hs Hb) as [s0 ->].
  { intros Hd. unfold WALK_FUEL. pose proof (u32_range (g_head (g_log (tick st)) - g_tail (g_log (tick st)))) as Hr.
    unfold is_u32 in Hr. clear -Hd Hr. Z.div_mod_to_equations. lia. }
  cbn [mbind option_bind]. unfold record_stages. by eexists.
Qed.

Section init.
Context (HAL_GetTick : nat -> Z).
Context (LPWR WWDG IWDG SFT POR BOR PIN : Z).

Abbreviation cause := (reset_cause_str LPWR WWDG IWDG SFT POR BOR PIN).
Abbreviation init := (log_init HAL_GetTick LPWR WWDG IWDG SFT POR BOR PIN).

Lemma cause_bounds rsr : Forall (fun c => 48 < c < 128) (cause rsr) /\ (length (cause rsr) <= 4)%nat.
Proof. unfold reset_cause_str. repeat case_if; (split; [repeat (constructor; [simpl; lia|]); constructor|simpl; lia]). Qed.

Lemma boot_text_plain n rsr : Forall (fun c => 0 < c < 128) (boot_text n (cause rsr)) /\
  (length (boot_text n (cause rsr)) <= LOG_MSG_MAX)%nat.
Proof.
  destruct (cause_bounds rsr) as [Hc Hl]. pose proof (utoa_digit_chars n) as Hu. pose proof (utoa_length n 10 false) as Hul.
  unfold boot_text. split.
  - apply Forall_app_2; [repeat constructor; lia|]. apply Forall_app_2; [eapply Forall_impl; [exact Hu|simpl; lia]|].
    apply Forall_app_2; [repeat (constructor; [simpl; lia|]); constructor|]. eapply Forall_impl; [exact Hc|simpl; lia].
  - rewrite !length_app. unfold UTOA_MAX, LOG_MSG_MAX in *. change (length (str "#")) with 1%nat.
    change (length (str " reset cause: ")) with 14%nat. lia.
Qed.

(** The boot marker of a boot: the reader sees the whole text. *)
Definition boot_entry (rsr boots : Z) (st : log_st) : entry :=
  Entry LOG_LEVEL_INF (u32 (HAL_GetTick (s_ticks st))) (g_seq (g_log st)) (tag_field (Some (str "boot")))
    (boot_text boots (cause rsr)).

(** The state once the ring is accepted or set up, before the marker. *)
Lemma log_init_marker rsr st0 st ss : is_u32 (g_boot_count (g_log st)) ->
  log_recover st0 = Some st ->
  log_rep st ss ->
  (forall i, data_pending st !! i = Some true -> total ss <= (Z.of_nat i - g_tail (g_log st)) mod 8192) ->
  exists st' k n s, init rsr st0 = Some st' /\ log_rep st' (drop k ss ++ skips n ++ [s]) /\
    entries [s] = [boot_entry rsr (g_boot_count (g_log st)) st] /\ nul_ended s /\
    (forall j, (j < k)%nat -> 8192 < total (drop j ss) + room_for (boot_text (g_boot_count (g_log st)) (cause rsr)) st) /\
    log_ready st' = true /\ log_level st' = LOG_LEVEL_INF /\ g_reset_rsr st' = rsr /\
    g_boot_count (g_log st') = g_boot_count (g_log st) /\ g_seq (g_log st') = u32 (g_seq (g_log st) + 1) /\
    live_landed st' (drop k ss ++ skips n ++ [s]).
Proof.
  intros Hbc Hst Hrep Hlive. unfold log_init. rewrite Hst. cbn [mbind option_bind]. clear Hst.
  set (st1 := St _ _ _ true LOG_LEVEL_INF rsr _).
  assert (Hrep1 : log_rep st1 ss) by (destruct Hrep; by split).
  change (g_boot_count (g_log (persist_hdr st))) with (g_boot_count (g_log st)).
  set (bc := g_boot_count (g_log st)) in *.
  change (g_boot_count (g_log st1)) with bc.
  unfold log_write. rewrite (log_vwrite_append _ _ _ _ _ (boot_text bc (cause rsr))); [|done|exact (Z.le_refl 2)|
    by apply boot_fmt_text].
  destruct (boot_text_plain bc rsr) as [Hplain Hlen].
  destruct (log_append_rep HAL_GetTick LOG_LEVEL_INF (Some (str "boot")) (boot_text bc (cause rsr)) st1 ss)
    as (st' & k & n & s & Happ & Hrep' & Hent & Hnul & Hmin & (R1 & R2 & R3 & R4 & R5) & Hseq & Hland);
    [done|unfold LOG_LEVEL_INF; lia|eapply Forall_impl; [exact Hplain|unfold is_u8; simpl; lia]|
     apply str_bytes|].
  exists st', k, n, s. split; [exact Happ|]. split; [done|]. split.
  { rewrite Hent. unfold new_entry, boot_entry. do 2 f_equal. rewrite take_ge by lia. apply c_prefix_no_nul.
    eapply Forall_impl; [exact Hplain|simpl; lia]. }
  split; [done|]. split; [done|]. split; [done|]. split; [done|]. split; [done|]. split; [done|]. split; [done|].
  apply Hland. split; [done|exact Hlive].
Qed.

(** the log survives a reset.  Whatever the statics were, when the memory
    holds a log, [log_init] keeps all its messages but the oldest ones that the
    boot marker needs the room of, appends the marker with the next sequence
    number, and enables writing. *)
Theorem log_init_keeps (rsr : Z) (st : log_st) (ss : list slot) :
  log_holds st ss ->
  exists st' k ss', init rsr st = Some st' /\ log_holds st' ss' /\
    entries ss' = entries (drop k ss) ++ [boot_entry rsr (g_boot_count (g_log st) +% 1) st] /\
    (forall j, (j < k)%nat -> 8192 < total (drop j ss) + room_for (boot_text (g_boot_count (g_log st) +% 1) (cause rsr)) st) /\ log_ready st' = true.
Proof.
  intros (Hrep & [_ Hlive] & Hnul).
  assert (Hal : g_head (g_log st) mod 4 = 0).
  { rewrite (rep_head _ _ Hrep). pose proof (rep_align _ _ Hrep) as Ha.
    pose proof (slots_at_total _ _ _ (rep_slots _ _ Hrep)) as [_ Ht]. unfold u32. clear -Ha Ht. Z.div_mod_to_equations. lia. }
  assert (Hvalid : ring_valid (g_log st) = true).
  { unfold ring_valid. rewrite (rep_magic _ _ Hrep), (rep_version _ _ Hrep), (rep_dist _ _ Hrep), (rep_size _ _ Hrep).
    rewrite !(land_mask 2) by lia. change (2 ^ 2) with 4. rewrite Hal, (rep_align _ _ Hrep).
    pose proof (rep_total _ _ Hrep). unfold LOG_RING_DATA_SIZE. cbn [Z.eqb andb].
    rewrite !Z.eqb_refl. cbn [andb]. lia. }
  assert (Hwalk : boot_walk WALK_FUEL (g_tail (g_log st)) st = Some (g_head (g_log st))).
  { rewrite <-(u32_small (g_tail (g_log st))) by apply Hrep.
    apply (boot_walk_rep st) with (ss := ss); try apply Hrep. pose proof (rep_length _ _ Hrep). unfold WALK_FUEL. lia. }
  destruct (log_init_marker rsr st (set_boot_count (g_boot_count (g_log st) +% 1) (set_head (g_head (g_log st)) st)) ss)
    as (st' & k & n & s & H1 & H2 & H3 & H0 & H4 & H5 & _ & _ & _ & _ & H6).
  - apply u32_range.
  - unfold log_recover. by rewrite Hvalid, Hwalk.
  - destruct Hrep; by split.
  - done.
  - exists st', k, (drop k ss ++ skips n ++ [s]). split; [done|]. split.
    { split; [done|]. split; [done|]. repeat apply Forall_app_2; [by apply Forall_drop|apply skips_nul|by repeat constructor]. }
    rewrite !entries_app, skips_entries, app_nil_l, H3. done.
Qed.

(** initialisation from any memory whatsoever.  [log_init] always returns.
    When the header does not check -- after a power cycle -- the log holds the
    boot marker alone.  When it does, the walk cuts the log to the whole records
    it finds from the tail on, whatever the bytes are, and, unless they run past
    the ring's size, the log afterwards holds those and the marker. *)
Theorem log_init_any (rsr : Z) (st : log_st) : mem_ok st ->
  is_Some (init rsr st) /\
  (ring_valid (g_log st) = false ->
   exists st' n s, init rsr st = Some st' /\ log_rep st' (skips n ++ [s]) /\ live_landed st' (skips n ++ [s]) /\
     entries [s] = [Entry LOG_LEVEL_INF (u32 (HAL_GetTick (s_ticks st))) 0 (tag_field (Some (str "boot")))
                      (boot_text 1 (cause rsr))]) /\
  (ring_valid (g_log st) = true ->
   exists ss, slots_at (g_data (g_log st)) (g_tail (g_log st)) ss /\
     boot_walk WALK_FUEL (g_tail (g_log st)) st = Some (u32 (g_tail (g_log st) + total ss)) /\
     (total ss <= 8192 ->
      exists st' k n s, init rsr st = Some st' /\ log_rep st' (drop k ss ++ skips n ++ [s]) /\
        live_landed st' (drop k ss ++ skips n ++ [s]) /\
        entries [s] = [boot_entry rsr (g_boot_count (g_log st) +% 1) st])).
Proof.
  intros [Hd Hb Hp Hh Ht Hs].
  assert (Hinv : ring_valid (g_log st) = false ->
    log_recover st = Some (set_ring fresh_ring true (replicate (length (data_pending st)) true) st)).
  { intros Hv. unfold log_recover. by rewrite Hv. }
  assert (Hval : ring_valid (g_log st) = true -> exists ss, slots_at (g_data (g_log st)) (g_tail (g_log st)) ss /\
     boot_walk WALK_FUEL (g_tail (g_log st)) st = Some (u32 (g_tail (g_log st) + total ss)) /\
     g_magic (g_log st) = LOG_MAGIC /\ g_version (g_log st) = LOG_VERSION /\ g_size (g_log st) = 8192 /\ g_tail (g_log st) mod 4 = 0).
  { unfold ring_valid. intros Hv. split_bools. rewrite (land_mask 2) in * by lia. change (2 ^ 2) with 4 in *.
    unfold LOG_RING_DATA_SIZE in *.
    assert (Hsz : g_size (g_log st) = 8192) by lia.
    destruct (boot_walk_any st Hd Hb Hsz WALK_FUEL (g_tail (g_log st))) as (ss & Hss & Hw);
      rewrite ?(u32_small (g_tail (g_log st))) by done; [lia|lia| |].
    - unfold WALK_FUEL. pose proof (u32_range (g_head (g_log st) - g_tail (g_log st))) as Hr. unfold is_u32 in Hr.
      assert (Hd8 : g_head (g_log st) -% g_tail (g_log st) <= 8192) by lia. clear -Hd8 Hr. Z.div_mod_to_equations. lia.
    - rewrite u32_small in Hw by done. exists ss. split; [done|]. split; [done|]. lia. }
  split; [|split].
  - unfold log_init. destruct (ring_valid (g_log st)) eqn:Ev.
    + destruct (Hval eq_refl) as (ss & _ & Hw & _ & _ & Hsz & _). unfold log_recover. rewrite Ev, Hw. cbn [mbind option_bind].
      unfold log_write. erewrite log_vwrite_append; [|reflexivity|exact (Z.le_refl 2)|apply boot_fmt_text, u32_range].
      by apply log_append_total.
    + rewrite Hinv by done. cbn [mbind option_bind].
      unfold log_write. erewrite log_vwrite_append; [|reflexivity|exact (Z.le_refl 2)|apply boot_fmt_text; unfold is_u32; simpl; lia].
      apply log_append_total; [done|]. by apply Forall_replicate.
  - intros Hv. destruct (log_init_marker rsr st (set_ring fresh_ring true (replicate (length (data_pending st)) true) st) []
        ltac:(unfold is_u32; cbn [set_ring g_log fresh_ring g_boot_count]; lia) (Hinv Hv))
      as (st' & k & n & s & H1 & H2 & H3 & _ & _ & _ & _ & _ & _ & _ & H6).
    + split; cbn [set_ring g_log data_pending fresh_ring g_data]; first [done | by apply Forall_replicate | by rewrite !length_replicate |
        by rewrite Hp, !length_replicate].
    + intros i _. apply Z.mod_pos_bound. lia.
    + exists st', n, s. rewrite drop_nil in *. done.
  - intros Hv. destruct (Hval Hv) as (ss & Hss & Hw & Hm & Hver & Hsz & Hal). exists ss. split; [done|]. split; [done|].
    intros Htot.
    destruct (log_init_marker rsr st (set_boot_count (g_boot_count (g_log st) +% 1) (set_head (u32 (g_tail (g_log st) + total ss)) st)) ss)
      as (st' & k & n & s & H1 & H2 & H3 & _ & _ & _ & _ & _ & _ & _ & H6).
    + apply u32_range.
    + unfold log_recover. by rewrite Hv, Hw.
    + split; try done. cbn [set_boot_count set_head set_ring data_pending]. by rewrite Hp, length_replicate.
    + intros i. cbn [set_boot_count set_head set_ring data_pending]. rewrite Hp. intros [? _]%lookup_replicate. done.
    + by exists st', k, n, s.
Qed.
End init.

(** ** Reading the log back *)

(** The loop of [dmesg] ([src/shell/cmds/cmd_dmesg.c]): the records it prints,
    as long as the reader neither cancels nor goes away. *)
Fixpoint dmesg_loop (fuel : nat) (it : log_iter) (rec_ : log_record) (st : log_st) : option (list log_record) :=
  match fuel with
  | O => None
  | S k =>
      '(got, it, rec_) ← log_iter_next WALK_FUEL it rec_ st;
      if (got : bool) then rs ← dmesg_loop k it rec_ st; Some (rec_ :: rs) else Some []
  end.
Definition dmesg (rec_ : log_record) (st : log_st) : option (list log_record) :=
  dmesg_loop WALK_FUEL (log_iter_start st) rec_ st.

(** A record read back shows an entry. *)
Definition shows (e : entry) (r : log_record) : Prop :=
  r_ts_ms r = e_ts e /\ r_seq r = e_seq e /\ r_level r = e_level e /\ r_tag r = e_tag e ++ [0] /\
  cstr (r_text r) 0 = Some (e_text e).

Lemma get32_take n l : (4 <= n)%nat -> get32 (take n l) = get32 l.
Proof.
  intros Hn. destruct n as [|[|[|[|n]]]]; [lia..|]. unfold get32.
  destruct l as [|? [|? [|? [|? l]]]]; done.
Qed.

Lemma cstr_scan_nul (l r : list Z) : In 0 l -> cstr_scan (l ++ r) = Some (c_prefix l).
Proof.
  induction l as [|c l IH]; intros Hin; [done|]. cbn [app cstr_scan c_prefix].
  destruct (Z.eqb_spec c 0) as [->|Hc]; [done|]. destruct Hin as [->|Hin]; [done|]. by rewrite IH.
Qed.

Lemma c_prefix_take n l : c_prefix (take n l) = take n (c_prefix l).
Proof.
  revert n. induction l as [|c l IH]; intros n; [by destruct n|].
  destruct n as [|n]; [done|]. cbn [take c_prefix]. case_if; [done|]. cbn [take]. by rewrite IH.
Qed.

(** The text of a record in the reader's array. *)
Lemma read_text (d old : list Z) : In 0 d -> length old = S LOG_MSG_MAX ->
  let tlen := Nat.min (length d) (S LOG_MSG_MAX) in
  let text := <[LOG_MSG_MAX := 0]> (splice 0 (take tlen d) old) in
  length text = S LOG_MSG_MAX /\ cstr text 0 = Some (take LOG_MSG_MAX (c_prefix d)).
Proof.
  intros Hin Hold tlen text.
  assert (Hsp : splice 0 (take tlen d) old = take tlen d ++ drop tlen old).
  { unfold splice. rewrite take_0. cbn [app]. rewrite Nat.add_0_l, length_take. do 2 f_equal. lia. }
  assert (Hlen : length text = S LOG_MSG_MAX).
  { unfold text. rewrite length_insert, Hsp, length_app, length_take, length_drop, Hold. lia. }
  split; [done|]. unfold cstr. rewrite drop_0. unfold text. rewrite Hsp.
  destruct (decide (LOG_MSG_MAX < length d)%nat) as [Hl|Hl].
  - assert (tlen = S LOG_MSG_MAX) as -> by (unfold tlen; lia). rewrite drop_ge, app_nil_r by lia.
    assert (Hs : <[LOG_MSG_MAX := 0]> (take (S LOG_MSG_MAX) d) = take LOG_MSG_MAX d ++ [0]).
    { destruct (lookup_lt_is_Some_2 d LOG_MSG_MAX Hl) as [x Hx]. rewrite (take_S_r _ _ x) by done.
      replace LOG_MSG_MAX with (length (take LOG_MSG_MAX d)) at 1 by (rewrite length_take; lia).
      by rewrite insert_length_app. }
    rewrite Hs. rewrite <-(app_nil_r (_ ++ [0])). rewrite cstr_scan_nul by (rewrite in_app_iff; simpl; auto).
    by rewrite c_prefix_app, c_prefix_take.
  - assert (tlen = length d) as -> by (unfold tlen; lia). rewrite take_ge by lia.
    replace LOG_MSG_MAX with (length d + (LOG_MSG_MAX - length d))%nat at 1 by lia.
    rewrite insert_app_r, cstr_scan_nul by done. f_equal. symmetry. apply take_ge.
    etrans; [apply c_prefix_length|lia].
Qed.

Lemma slice_slice {A} o n p m (l : list A) : (o + n <= m)%nat -> slice o n (slice p m l) = slice (p + o) n l.
Proof.
  intros H. unfold slice. rewrite <-drop_drop, (Nat.add_comm p o) || idtac.
  apply list_eq. intros i. rewrite !lookup_take, !lookup_drop.
  case_decide; [|done]. rewrite lookup_take, decide_True by lia. rewrite lookup_drop. f_equal. lia.
Qed.

Lemma ring_get_rec st pos bs o n :
  slot_at (g_data (g_log st)) pos (Rec bs) -> 0 <= o -> 0 < n -> o + n <= Z.of_nat (length bs) ->
  ring_get (u32 (pos + o)) n st = slice (Z.to_nat o) (Z.to_nat n) bs.
Proof.
  intros (Hfit & _ & _ & Hsl & _) Ho Hn Hon. cbn [slot_len] in *. unfold ring_get. rewrite circ_get_u32.
  assert (Hi : ring_idx (pos + o) = ring_idx pos + o).
  { rewrite !ring_idx_mod in *. clear -Hfit Ho Hn Hon. Z.div_mod_to_equations. lia. }
  assert (Hp : 0 <= ring_idx pos) by (rewrite ring_idx_mod; apply Z.mod_pos_bound; lia).
  rewrite circ_get_flat, Hi by lia. rewrite <-Hsl. rewrite slice_slice by lia. f_equal. lia.
Qed.

Lemma read_record_shows st pos bs out : slot_at (g_data (g_log st)) pos (Rec bs) -> nul_ended (Rec bs) ->
  length (r_text out) = S LOG_MSG_MAX ->
  shows (entry_of bs) (read_record (u32 pos) (Z.of_nat (length bs)) out st) /\
  length (r_text (read_record (u32 pos) (Z.of_nat (length bs)) out st)) = S LOG_MSG_MAX.
Proof.
  intros Hs Hnul Hout. pose proof Hs as (_ & _ & _ & _ & Hr & _). cbn [slot_len] in Hr. unfold LOG_REC_MIN, LOG_REC_MAX in Hr.
  unfold read_record. rewrite u32_add_l. set (tl := Z.of_nat (length bs) - LOG_HDR_SIZE).
  set (tlen := if Z.of_nat (S LOG_MSG_MAX) <? tl then Z.of_nat (S LOG_MSG_MAX) else tl).
  assert (Htlen : Z.to_nat tlen = Nat.min (length (drop 20 bs)) (S LOG_MSG_MAX)).
  { unfold tlen, tl, LOG_HDR_SIZE. rewrite length_drop. case_if; lia. }
  assert (Hb : 0 < tlen <= Z.of_nat (length bs) - 20).
  { unfold tlen, tl, LOG_HDR_SIZE, LOG_MSG_MAX. case_if; lia. }
  rewrite <-(Z.add_0_r pos) at 1 2 3 4. unfold LOG_HDR_SIZE.
  rewrite !(ring_get_rec st pos bs) by (done || lia). rewrite Htlen. change (Z.to_nat 0) with 0%nat. change (Z.to_nat 20) with 20%nat.
  unfold slice at 4. destruct (read_text (drop 20 bs) (r_text out) Hnul Hout) as [Hlen Hc]. cbv zeta in Hlen, Hc.
  split; [|exact Hlen]. split; [|split; [|split; [|split; [|exact Hc]]]]; cbn [r_ts_ms r_seq r_level r_tag entry_of e_ts e_seq e_level e_tag].
  - unfold slice. rewrite drop_0, skipn_firstn_comm. apply get32_take. lia.
  - unfold slice. rewrite drop_0, skipn_firstn_comm. apply get32_take. lia.
  - unfold slice. rewrite drop_0. rewrite nth_firstn. done.
  - f_equal. etrans; [apply (slice_slice 12 LOG_TAG_MAX 0 20 bs); unfold LOG_TAG_MAX; lia|done].
Qed.

(** The iterator between two slots: it passes the SKIPs and returns the next
    record, if there is one. *)
Lemma iter_loop_spec st ss (Hrep : log_rep st ss) (Hnul : Forall nul_ended ss) : forall ss2 ss1 fuel out,
  ss = ss1 ++ ss2 -> (length ss2 < fuel)%nat -> length (r_text out) = S LOG_MSG_MAX ->
  let it_at := fun ss1 => LogIter (u32 (g_tail (g_log st) + total ss1)) (g_head (g_log st)) in
  (entries ss2 = [] /\ iter_loop fuel (it_pos (it_at ss1)) (g_head (g_log st)) out st = Some (false, it_at ss, out)) \/
  exists sk bs ss3 rec_, ss2 = sk ++ Rec bs :: ss3 /\ entries sk = [] /\
    iter_loop fuel (it_pos (it_at ss1)) (g_head (g_log st)) out st = Some (true, it_at (ss1 ++ sk ++ [Rec bs]), rec_) /\
    shows (entry_of bs) rec_ /\ length (r_text rec_) = S LOG_MSG_MAX.
Proof.
  induction ss2 as [|s ss2 IH]; intros ss1 fuel out Hss Hf Hout; (destruct fuel as [|fuel]; [lia|]); cbv zeta; cbn [iter_loop it_pos];
    pose proof Hrep as [Hmg Hvs Hsz Hd Hb Hpd Ht Hsq Ha Htot Hh Hsl]; rewrite Hss in Hsl; apply slots_at_app in Hsl as [Hs1 Hs2];
    pose proof (slots_at_total _ _ _ Hs1) as [Hp1 Hm1]; pose proof (slots_at_total _ _ _ Hs2) as [Hp2 Hm2];
    rewrite Hss, total_app in Htot, Hh;
    set (pos := g_tail (g_log st) + total ss1) in *;
    assert (Hpt : s32 (u32 pos -% g_tail (g_log st)) = total ss1)
      by (unfold pos, s32; rewrite u32_sub_l; replace (g_tail (g_log st) + total ss1 - g_tail (g_log st)) with (total ss1) by lia;
          rewrite u32_small by (unfold is_u32; lia); by if_true).
  { left. split; [done|]. rewrite Hpt. if_false. cbn [total] in *. rewrite Z.add_0_r in *.
    replace (g_head (g_log st)) with (u32 pos). rewrite Z.sub_diag. change (u32 0) with 0. cbn [s32 Z.leb Z.compare]. 
    rewrite app_nil_r in Hss. by rewrite Hss. }
  cbn [total] in *. destruct Hs2 as [Hs Hs2]. pose proof (slot_at_len _ _ _ Hs) as H4.
  pose proof (slots_at_total _ _ _ Hs2) as [Hp3 _].
  assert (Hpe : s32 (u32 pos -% g_head (g_log st)) = - (slot_len s + total ss2)).
  { rewrite Hh. unfold pos, s32. rewrite u32_sub_l, u32_sub_r.
    replace (g_tail (g_log st) + total ss1 - (g_tail (g_log st) + (total ss1 + (slot_len s + total ss2))))
      with (- (slot_len s + total ss2)) by lia.
    assert (u32 (- (slot_len s + total ss2)) = 4294967296 - (slot_len s + total ss2)) as ->.
    { unfold u32. clear -H4 Hp1 Hp3 Htot. Z.div_mod_to_equations. lia. }
    if_false. lia. }
  rewrite Hpt. replace (total ss1 <? 0) with false by lia. rewrite Hpe. replace (0 <=? - (slot_len s + total ss2)) with false by lia.
  assert (Hm : pos mod 4 = 0) by (unfold pos; clear -Ha Hm1; Z.div_mod_to_equations; lia).
  destruct (walk_slot st pos s Hb Hm Hs) as (level & Hw & Hlev & Hl3 & Hfit & _ & Hk). rewrite Hw, Hl3.
  rewrite Z.eqb_refl. cbn [negb orb]. replace (slot_len s <? 4) with false by lia. cbn [orb Z.eqb negb].
  unfold LOG_RING_DATA_SIZE. destruct s as [bs|sn].
  - right. destruct Hk as [Hk1 Hk2]. rewrite (proj2 (Z.eqb_neq _ _) Hk1). cbn [slot_len] in *.
    replace (_ || _ || _) with false by (symmetry; lia).
    assert (Hn : nul_ended (Rec bs)). { rewrite Hss in Hnul. by apply Forall_app in Hnul as [_ [H _]%Forall_cons]. }
    destruct (read_record_shows st pos bs out Hs Hn Hout) as [Hsh Hlen].
    exists [], bs, ss2, (read_record (u32 pos) (Z.of_nat (length bs)) out st).
    split; [done|]. split; [done|]. split; [|done]. cbn [app]. rewrite total_app. cbn [total slot_len].
    rewrite u32_add_l. unfold pos. do 5 f_equal. lia.
  - destruct Hk as [-> Hk2]. rewrite Z.eqb_refl. cbn [slot_len] in *. rewrite Hk2. rewrite Z.eqb_refl. cbn [negb].
    destruct (IH (ss1 ++ [Skip sn]) fuel out) as [[He E]|(sk & bs & ss3 & rec_ & He & Hsk & E & Hsh)];
      [by rewrite <-app_assoc|simpl in Hf; lia|done| |]; cbn [it_pos] in E; rewrite total_app in E; cbn [total slot_len] in E;
      rewrite u32_add_l; replace (pos + sn) with (g_tail (g_log st) + (total ss1 + (sn + 0))) by (unfold pos; lia).
    + left. split; [done|]. exact E.
    + right. exists (Skip sn :: sk), bs, ss3, rec_. split; [by rewrite He|]. split; [done|]. split; [|done].
      rewrite E. by rewrite <-app_assoc.
Qed.

Lemma dmesg_loop_spec st ss (Hrep : log_rep st ss) (Hnul : Forall nul_ended ss) : forall n ss1 ss2 fuel out,
  (length ss2 <= n)%nat -> ss = ss1 ++ ss2 -> (length ss2 < fuel)%nat -> length (r_text out) = S LOG_MSG_MAX ->
  exists rs, dmesg_loop fuel (LogIter (u32 (g_tail (g_log st) + total ss1)) (g_head (g_log st))) out st = Some rs /\
    Forall2 shows (entries ss2) rs.
Proof.
  induction n as [|n IH]; intros ss1 ss2 fuel out Hn Hss Hf Hout; (destruct fuel as [|fuel]; [lia|]); cbn [dmesg_loop];
    unfold log_iter_next; cbn [it_pos it_end];
    pose proof (rep_length _ _ Hrep) as Hlen; rewrite Hss, length_app in Hlen;
    destruct (iter_loop_spec st ss Hrep Hnul ss2 ss1 WALK_FUEL out Hss ltac:(unfold WALK_FUEL; lia) Hout)
      as [[He E]|(sk & bs & ss3 & rec_ & He & Hsk & E & Hsh & Hrt)]; cbn [it_pos] in E; rewrite E; cbn [mbind option_bind].
  - exists []. rewrite He. by split.
  - rewrite He, length_app in Hn. simpl in Hn. lia.
  - exists []. rewrite He. by split.
  - rewrite He in *. rewrite length_app in *. cbn [length] in *.
    destruct (IH (ss1 ++ sk ++ [Rec bs]) ss3 fuel rec_) as (rs & Ers & Hrs); [lia|by rewrite Hss, <-!app_assoc|lia|done|].
    rewrite Ers. cbn [mbind option_bind]. exists (rec_ :: rs). split; [done|].
    rewrite entries_app, Hsk. cbn [entries omap list_omap app]. by constructor.
Qed.

(** [dmesg] prints the log.  The iterator over a log in its invariant
    returns every record once, oldest first, passing the fragments skipped at
    the end of the array; each shows the time, sequence number, level, tag and
    text of its message, terminated inside the reader's array. *)
Theorem dmesg_correct (st : log_st) (ss : list slot) (rec_ : log_record) :
  log_holds st ss -> length (r_text rec_) = S LOG_MSG_MAX ->
  exists rs, dmesg rec_ st = Some rs /\ Forall2 shows (entries ss) rs.
Proof.
  intros (Hrep & _ & Hnul) Hout. unfold dmesg, log_iter_start.
  destruct (dmesg_loop_spec st ss Hrep Hnul (length ss) [] ss WALK_FUEL rec_) as (rs & E & H); [done|done| |done|].
  - pose proof (rep_length _ _ Hrep). unfold WALK_FUEL. lia.
  - cbn [total] in E. rewrite Z.add_0_r, u32_small in E by apply Hrep. by exists rs.
Qed.

(** ** The line assembler, in two passes

    What is left of a stream without its CSI sequences, and the lines of that;
    [esc] is how far into a sequence the stream starts. *)
Fixpoint visible (esc : Z) (data : list Z) : list Z * Z :=
  match data with
  | [] => ([], esc)
  | c :: data =>
      if negb (esc =? 0) then
        visible (if esc =? 1 then (if c =? 91 then 2 else 0)
                 else if (32 <=? c) && (c <=? 63) then esc else 0) data
      else if c =? 27 then visible 1 data
      else let '(vs, e) := visible 0 data in (c :: vs, e)
  end.

Definition is_eol (c : Z) : bool := (c =? 10) || (c =? 13).

(** The lines completed, [acc] being what is buffered, and what stays. *)
Fixpoint lines (acc vs : list Z) : list (list Z) * list Z :=
  match vs with
  | [] => ([], acc)
  | c :: vs =>
      if is_eol c then
        let '(ls, rest) := lines [] vs in ((if bool_decide (acc = []) then ls else acc :: ls), rest)
      else if bool_decide (length acc = LOG_MSG_MAX) then
        let '(ls, rest) := lines [c] vs in (acc :: ls, rest)
      else lines (acc ++ [c]) vs
  end.

Lemma lines_spec vs : forall acc ls rest, lines acc vs = (ls, rest) -> (length acc <= LOG_MSG_MAX)%nat ->
  concat ls ++ rest = acc ++ filter (fun c => is_eol c = false) vs /\
  Forall (fun t => (0 < length t <= LOG_MSG_MAX)%nat) ls /\ (length rest <= LOG_MSG_MAX)%nat.
Proof.
  induction vs as [|c vs IH]; intros acc ls rest E Hl; cbn [lines] in E.
  { simplify_eq. rewrite app_nil_r. by split. }
  rewrite filter_cons. destruct (is_eol c) eqn:Ec.
  - rewrite decide_False by done. destruct (lines [] vs) as [ls' rest'] eqn:E'. injection E as <- <-.
    apply IH in E' as (H1 & H2 & H3); [|simpl; lia]. case_bool_decide as Ha.
    + subst acc. done.
    + cbn [concat]. rewrite <-app_assoc, H1. split; [done|]. split; [|done]. constructor; [|done].
      destruct acc; [done|simpl in *; lia].
  - rewrite decide_True by done. case_bool_decide as Ha.
    + destruct (lines [c] vs) as [ls' rest'] eqn:E'. injection E as <- <-.
      apply IH in E' as (H1 & H2 & H3); [|unfold LOG_MSG_MAX; simpl; lia]. cbn [concat]. rewrite <-app_assoc, H1.
      split; [done|]. split; [|done]. constructor; [|done]. unfold LOG_MSG_MAX in *. lia.
    + apply IH in E as (H1 & H2 & H3); [|rewrite length_app; simpl; lia]. by rewrite H1, <-app_assoc.
Qed.

Section assembler.
Context (HAL_GetTick : nat -> Z) (tag : option (list Z)).

(** One record per line; [%s] prints it up to a NUL. *)
Fixpoint write_lines (ls : list (list Z)) (st : log_st) : option log_st :=
  match ls with
  | [] => Some st
  | t :: ls => st ← log_write HAL_GetTick LOG_LEVEL_INF tag (str "%s") [VStr (Some (c_prefix t))] st; write_lines ls st
  end.

(** The assembler buffers [acc]. *)
Definition buffers (l : log_line) (acc : list Z) : Prop :=
  length (l_buf l) = LOG_LINE_ASM_MAX /\ l_used l = length acc /\ (length acc <= LOG_MSG_MAX)%nat /\
  take (length acc) (l_buf l) = acc.

Lemma cstr_buffered (acc buf : list Z) : (length acc < length buf)%nat -> take (length acc) buf = acc ->
  cstr (<[length acc := 0]> buf) 0 = Some (c_prefix acc).
Proof.
  intros Hl Ht. unfold cstr. rewrite drop_0. rewrite <-(take_drop (length acc) buf), Ht.
  destruct (drop (length acc) buf) as [|x r] eqn:E.
  { apply (f_equal length) in E. rewrite length_drop in E. simpl in E. lia. }
  rewrite insert_length_app. rewrite cons_middle, app_assoc, cstr_scan_nul by (rewrite in_app_iff; simpl; auto).
  by rewrite c_prefix_app.
Qed.

Lemma flush_spec l acc st : buffers l acc -> exists l',
  buffers l' [] /\ l_esc l' = l_esc l /\
  log_line_flush HAL_GetTick l tag st =
    (st' ← write_lines (if bool_decide (acc = []) then [] else [acc]) st; Some (l', st')).
Proof.
  intros (Hb & Hu & Hl & Ht). unfold log_line_flush. rewrite Hu. case_bool_decide as Ha.
  { subst acc. exists l. by repeat split. }
  destruct acc as [|c acc]; [done|]. destruct (Nat.eqb_spec (length (c :: acc)) 0); [done|].
  exists (LogLine (<[length (c :: acc) := 0]> (l_buf l)) 0 (l_esc l)). split.
  { split; [by cbn [l_buf]; rewrite length_insert|]. split; [done|]. split; [cbn [length]; lia|done]. }
  split; [done|]. unfold LOG_MSG_MAX, LOG_LINE_ASM_MAX in *.
  rewrite buf_set_Some by lia. cbn [mbind option_bind l_buf]. rewrite cstr_buffered by (done || lia).
  cbn [mbind option_bind write_lines]. by destruct (log_write _ _ _ _ _ st).
Qed.

Lemma buffers_push l acc c : buffers l acc -> (length acc < LOG_MSG_MAX)%nat ->
  exists buf, buf_set (l_buf l) (l_used l) c = Some buf /\ buffers (LogLine buf (S (l_used l)) (l_esc l)) (acc ++ [c]).
Proof.
  intros (Hb & Hu & Hl & Ht) Hlt. unfold LOG_MSG_MAX, LOG_LINE_ASM_MAX in *. rewrite Hu.
  exists (<[length acc := c]> (l_buf l)). split; [apply buf_set_Some; lia|].
  unfold buffers, LOG_MSG_MAX, LOG_LINE_ASM_MAX. cbn [l_buf l_used]. rewrite length_insert, length_app. cbn [length].
  split; [done|]. split; [lia|]. split; [lia|]. rewrite Nat.add_1_r.
  rewrite (take_S_r _ _ c) by (apply list_lookup_insert_eq; lia). rewrite take_insert_ge by lia. by rewrite Ht.
Qed.

Lemma feed_spec data : forall l acc st, buffers l acc ->
  let '(vs, esc) := visible (l_esc l) data in
  let '(ls, rest) := lines acc vs in
  exists l', buffers l' rest /\ l_esc l' = esc /\
    log_line_feed HAL_GetTick data l tag st = (st' ← write_lines ls st; Some (l', st')).
Proof.
  induction data as [|c data IH]; intros l acc st Hbuf; cbn [visible log_line_feed].
  { cbn [lines]. exists l. by split. }
  unfold feed_byte.
  assert (Hesc : forall e, buffers (LogLine (l_buf l) (l_used l) e) acc) by done.
  destruct (l_esc l =? 0) eqn:Ee; cbn [negb].
  - destruct (c =? 27) eqn:Ec; [cbn [mbind option_bind]; exact (IH _ acc st (Hesc 1))|].
    apply Z.eqb_eq in Ee.
    destruct (visible 0 data) as [vs esc] eqn:Ev. cbn [lines]. unfold is_eol. destruct ((c =? 10) || (c =? 13)) eqn:Eol.
    + destruct (flush_spec l acc st Hbuf) as (l1 & Hb1 & He1 & E1). rewrite E1.
      destruct (lines [] vs) as [ls rest] eqn:El.
      assert (Hstep : forall st1, exists l', buffers l' rest /\ l_esc l' = esc /\
        log_line_feed HAL_GetTick data l1 tag st1 = (st' ← write_lines ls st1; Some (l', st'))).
      { intros st1. specialize (IH l1 [] st1 Hb1). by rewrite He1, Ee, Ev, El in IH. }
      case_bool_decide; cbn [write_lines mbind option_bind]; [apply Hstep|].
      destruct (log_write _ _ _ _ _ st) as [st1|] eqn:Ew; cbn [mbind option_bind]; [apply Hstep|].
      destruct (Hstep st) as (l' & ? & ? & _). by exists l'.
    + assert (Hpush : forall l0 acc0 st0, buffers l0 acc0 -> l_esc l0 = 0 -> (length acc0 < LOG_MSG_MAX)%nat ->
        let '(ls, rest) := lines (acc0 ++ [c]) vs in
        exists l', buffers l' rest /\ l_esc l' = esc /\
        ('(l, st) ← (buf ← buf_set (l_buf l0) (l_used l0) c; Some (LogLine buf (S (l_used l0)) (l_esc l0), st0));
         log_line_feed HAL_GetTick data l tag st) = (st' ← write_lines ls st0; Some (l', st'))).
      { intros l0 acc0 st0 Hb0 He0 Hl0. destruct (buffers_push l0 acc0 c Hb0 Hl0) as (buf & -> & Hb2).
        cbn [mbind option_bind]. specialize (IH _ _ st0 Hb2). cbn [l_esc] in IH. rewrite He0 in *. by rewrite Ev in IH. }
      pose proof Hbuf as (Hb & Hu & Hl & _).
      destruct (Nat.leb_spec (LOG_LINE_ASM_MAX - 1) (l_used l)) as [Hfull|Hfull]; unfold LOG_LINE_ASM_MAX in Hfull.
      * rewrite bool_decide_eq_true_2 by (unfold LOG_MSG_MAX in *; lia).
        destruct (flush_spec l acc st Hbuf) as (l1 & Hb1 & He1 & E1). rewrite E1.
        rewrite bool_decide_eq_false_2.
        2:{ intros ->. unfold LOG_MSG_MAX in *. simpl in *. lia. }
        destruct (lines [c] vs) as [ls rest] eqn:El. cbn [write_lines mbind option_bind].
        destruct (log_write _ _ _ _ _ st) as [st1|] eqn:Ew; cbn [mbind option_bind].
        -- specialize (Hpush l1 [] st1 Hb1 ltac:(congruence) ltac:(unfold LOG_MSG_MAX; simpl; lia)). cbn [app] in Hpush.
           rewrite El in Hpush. exact Hpush.
        -- specialize (Hpush l1 [] st Hb1 ltac:(congruence) ltac:(unfold LOG_MSG_MAX; simpl; lia)). cbn [app] in Hpush.
           rewrite El in Hpush. destruct Hpush as (l' & ? & ? & _). by exists l'.
      * rewrite bool_decide_eq_false_2 by (unfold LOG_MSG_MAX in *; lia). cbn [mbind option_bind].
        apply Hpush; [done|done|unfold LOG_MSG_MAX in *; lia].
  - destruct (l_esc l =? 1) eqn:E1; cbn [mbind option_bind].
    + exact (IH _ acc st (Hesc (if c =? 91 then 2 else 0))).
    + replace (if (c <? 32) || (63 <? c) then 0 else l_esc l) with (if (32 <=? c) && (c <=? 63) then l_esc l else 0).
      * exact (IH _ acc st (Hesc (if (32 <=? c) && (c <=? 63) then l_esc l else 0))).
      * destruct (Z.ltb_spec c 32), (Z.ltb_spec 63 c), (Z.leb_spec 32 c), (Z.leb_spec c 63); simpl; lia || done.
Qed.

(** the line assembler loses nothing.  Fed any bytes in one call or several,
    an assembler writes one INF record per line of the stream without its CSI
    sequences, however those are split between calls: an empty line writes
    none, a line too long for a record is written in pieces, none of which
    [log_write] would cut, and what the records and the buffer hold together is
    every visible byte of the stream, in order. *)
Theorem log_line_feed_correct (a b : list Z) (l : log_line) (st : log_st) :
  buffers l [] -> l_esc l = 0 ->
  exists vs esc ls rest l', visible 0 (a ++ b) = (vs, esc) /\ lines [] vs = (ls, rest) /\
    concat ls ++ rest = filter (fun c => is_eol c = false) vs /\
    Forall (fun t => (0 < length t <= LOG_MSG_MAX)%nat) ls /\
    ('(l, st) ← log_line_feed HAL_GetTick a l tag st; log_line_feed HAL_GetTick b l tag st) =
      (st' ← write_lines ls st; Some (l', st')) /\
    buffers l' rest /\ l_esc l' = esc.
Proof.
  intros Hb He. pose proof (feed_spec (a ++ b) l [] st Hb) as H. rewrite He in H.
  destruct (visible 0 (a ++ b)) as [vs esc]. destruct (lines [] vs) as [ls rest] eqn:El.
  destruct H as (l' & Hb' & He' & E). apply lines_spec in El as Hls; [|unfold LOG_MSG_MAX; simpl; lia].
  exists vs, esc, ls, rest, l'. split; [done|]. split; [done|]. split; [apply Hls|]. split; [apply Hls|].
  split; [|done]. rewrite <-E. clear. revert l st.
  induction a as [|c a IH]; intros l st; [done|]. cbn [app log_line_feed].
  destruct (feed_byte HAL_GetTick c l tag st) as [[l1 st1]|]; cbn [mbind option_bind]; [apply IH|done].
Qed.
End assembler.

(** ** Concrete logs *)
Module LogExample.

(** The ring a power cycle leaves, once set up, writes enabled at INF. *)
Definition fresh : log_st :=
  St fresh_ring false (replicate (Z.to_nat 8192) false) true LOG_LEVEL_INF 0 0.

Lemma fresh_holds : log_holds fresh [].
Proof.
  split; [|split].
  - split; try done; cbn [fresh g_log fresh_ring g_data data_pending]; [by apply Forall_replicate].
  - split; [done|]. intros i _. apply Z.mod_pos_bound. lia.
  - constructor.
Qed.

Lemma log_vwrite_correct_witness :
  exists st' k ss', log_vwrite (fun _ => 7) 2 (Some (str "uart")) (str "baud=%u") [VInt 115200] fresh = Some st' /\
    log_holds st' ss' /\
    entries ss' = entries (drop k []) ++ [new_entry (fun _ => 7) (Z.min 2 LOG_LEVEL_DBG) (Some (str "uart")) (str "baud=115200") fresh] /\
    (forall j, (j < k)%nat -> 8192 < total (drop j []) + room_for (str "baud=115200") fresh) /\
    g_seq (g_log st') = u32 (g_seq (g_log fresh) + 1).
Proof.
  apply (log_vwrite_correct (fun _ => 7) 2 (Some (str "uart")) (str "baud=%u") [VInt 115200] (str "baud=115200") fresh []).
  - apply fresh_holds.
  - lia.
  - reflexivity.
  - exact (Z.le_refl 2).
  - vm_compute. reflexivity.
  - apply str_bytes.
  - apply str_bytes.
Defined.

Lemma log_vwrite_interrupted_witness :
  exists stages k, vwrite_stages 1 7 None (stored_text (str "x")) fresh = Some stages /\
    Forall (fun s => exists ss', log_rep s ss' /\
      (entries ss' = entries (drop k []) \/
       entries ss' = entries (drop k []) ++
         [Entry 1 7 (g_seq (g_log fresh)) (tag_field None) (c_prefix (take LOG_MSG_MAX (str "x")))])) stages.
Proof.
  apply (log_vwrite_interrupted 1 7 None (str "x") fresh []).
  - apply fresh_holds.
  - lia.
  - unfold is_u32. lia.
  - apply str_bytes.
  - constructor.
Defined.

(** The bits of [RCC->RSR], as the vendor's header has them. *)
Abbreviation init_ex := (log_init (fun _ => 7) 0x40000000 0x10000000 0x04000000 0x01000000 0x00800000 0x00200000 0x00400000).
Abbreviation boot_ex := (boot_entry (fun _ => 7) 0x40000000 0x10000000 0x04000000 0x01000000 0x00800000 0x00200000 0x00400000).

Lemma log_init_keeps_witness :
  exists st' k ss', init_ex 0x04000000 fresh = Some st' /\ log_holds st' ss' /\
    entries ss' = entries (drop k []) ++ [boot_ex 0x04000000 (g_boot_count (g_log fresh) +% 1) fresh] /\
    (forall j, (j < k)%nat -> 8192 < total (drop j []) + room_for (boot_text (g_boot_count (g_log fresh) +% 1) (reset_cause_str 0x40000000 0x10000000 0x04000000 0x01000000 0x00800000 0x00200000 0x00400000 0x04000000)) fresh) /\ log_ready st' = true.
Proof. apply log_init_keeps. apply fresh_holds. Defined.

(** Memory at power-on: no magic. *)
Definition power_on : log_st :=
  St (Ring 0xDEADBEEF 7 7 12 16 3 9 (replicate (Z.to_nat 8192) 85)) false (replicate (Z.to_nat 8192) false) false 0 0 0.

Lemma power_on_ok : mem_ok power_on.
Proof.
  split; cbn [power_on g_log g_data g_head g_tail g_seq data_pending]; try done;
    [by apply Forall_replicate].
Qed.

Lemma log_init_any_witness :
  is_Some (init_ex 0 power_on) /\
  (ring_valid (g_log power_on) = false ->
   exists st' n s, init_ex 0 power_on = Some st' /\ log_rep st' (skips n ++ [s]) /\ live_landed st' (skips n ++ [s]) /\
     entries [s] = [Entry LOG_LEVEL_INF (u32 7) 0 (tag_field (Some (str "boot"))) (boot_text 1 (str "?"))]) /\
  (ring_valid (g_log power_on) = true ->
   exists ss, slots_at (g_data (g_log power_on)) (g_tail (g_log power_on)) ss /\
     boot_walk WALK_FUEL (g_tail (g_log power_on)) power_on = Some (u32 (g_tail (g_log power_on) + total ss)) /\
     (total ss <= 8192 ->
      exists st' k n s, init_ex 0 power_on = Some st' /\ log_rep st' (drop k ss ++ skips n ++ [s]) /\
        live_landed st' (drop k ss ++ skips n ++ [s]) /\
        entries [s] = [boot_ex 0 (g_boot_count (g_log power_on) +% 1) power_on])).
Proof. apply (log_init_any (fun _ => 7) 0x40000000 0x10000000 0x04000000 0x01000000 0x00800000 0x00200000 0x00400000 0). apply power_on_ok. Defined.

Definition blank : log_record := LogRecord 0 0 0 [] (replicate (S LOG_MSG_MAX) 0).

Lemma dmesg_correct_witness : exists rs, dmesg blank fresh = Some rs /\ Forall2 shows (entries []) rs.
Proof. apply (dmesg_correct fresh [] blank); [apply fresh_holds|reflexivity]. Defined.

Definition line0 : log_line := LogLine (replicate LOG_LINE_ASM_MAX 0) 0 0.

(** A colour sequence split between two writes. *)
Lemma log_line_feed_correct_witness :
  exists vs esc ls rest l', visible 0 ([72; 27; 91] ++ [51; 109; 105; 10]) = (vs, esc) /\ lines [] vs = (ls, rest) /\
    concat ls ++ rest = filter (fun c => is_eol c = false) vs /\
    Forall (fun t => (0 < length t <= LOG_MSG_MAX)%nat) ls /\
    ('(l, st) ← log_line_feed (fun _ => 7) [72; 27; 91] line0 None fresh;
     log_line_feed (fun _ => 7) [51; 109; 105; 10] l None st) =
      (st' ← write_lines (fun _ => 7) None ls fresh; Some (l', st')) /\
    buffers l' rest /\ l_esc l' = esc.
Proof.
  apply (log_line_feed_correct (fun _ => 7) None [72; 27; 91] [51; 109; 105; 10] line0 fresh).
  - repeat split; vm_compute; lia.
  - reflexivity.
Defined.

(** A full ring whose last record, at the start of the array, says it is 24
    bytes long although only 8 are left before the head. *)
Definition overrun : log_st :=
  St (Ring LOG_MAGIC LOG_VERSION 8192 8200 8 5 1
        (splice 8 (concat (replicate 66 ([124; 0; 2; 165] ++ replicate 120 0)))
           (splice 0 [24; 0; 2; 165] (replicate (Z.to_nat 8192) 0))))
     false (replicate (Z.to_nat 8192) false) false 0 0 0.

(** the boot walk does not truncate the log at a record that runs past the
    head: it advances the head past it.  On a full ring the distance between
    head and tail is then more than the ring's size, before and after the boot
    marker is written, so that the eviction test wraps and the tail is never
    moved again: the invariant of the running log does not hold. *)
Theorem boot_walk_overrun :
  ring_valid (g_log overrun) = true /\ g_head (g_log overrun) -% g_tail (g_log overrun) = 8192 /\
  boot_walk WALK_FUEL (g_tail (g_log overrun)) overrun = Some 8216 /\
  exists st', init_ex 0 overrun = Some st' /\ g_tail (g_log st') = 8 /\
    8192 < g_head (g_log st') -% g_tail (g_log st') /\ forall ss, ~ log_rep st' ss.
Proof.
  split; [by vm_compute|]. split; [by vm_compute|]. split; [by vm_compute|].
  destruct (init_ex 0 overrun) as [st'|] eqn:E; [|vm_compute in E; discriminate].
  exists st'. assert (Hd : g_tail (g_log st') = 8 /\ 8192 < g_head (g_log st') -% g_tail (g_log st')).
  { assert (Hm : (option_map (fun s => (g_tail (g_log s), g_head (g_log s) -% g_tail (g_log s))) (init_ex 0 overrun)) = Some (8, 8248))
      by (vm_compute; reflexivity).
    rewrite E in Hm. cbn [option_map] in Hm. injection Hm as -> ->. lia. }
  split; [done|]. destruct Hd as [Ht Hd]. split; [done|]. split; [done|]. intros ss Hrep.
  pose proof (rep_dist _ _ Hrep). pose proof (rep_total _ _ Hrep). lia.
Qed.
End LogExample.
