(* ===== verification/FramePipeline.v ===== *)
(** * The camera frame pipeline ([src/svc/frame_pipeline.c])

    The ring of frame slots with its reference counts and the dispatch to push
    sinks.  Every section the C code runs under the injected lock is one
    function on the world, so an interleaving of threads is a sequence of those
    functions; the callbacks of a sink, which run without the lock, are
    parameters.  A slot is named by its index, a sink by a number; the sink
    structures, which their owners keep across a detach, are a finite map. *)

From S2P Require Import Prelude.
From stdpp Require Import gmap.
Local Open Scope Z_scope.

(** ** State *)

Definition FRAME_PIPELINE_MAX_SLOTS : Z := 8.
Definition FRAME_PIPELINE_MAX_SINKS : nat := 4.
Definition FRAME_FMT_RGB565 : Z := 0.

Inductive frame_policy : Type := FRAME_POLICY_DROP | FRAME_POLICY_LATEST.
#[export] Instance frame_policy_eq_dec : EqDecision frame_policy.
Proof. solve_decision. Defined.

(** [struct frame_desc] without the slot's address, which is its index. *)
Record frame_desc : Type := Desc {
  d_bytes : Z; d_gen : Z; d_width : Z; d_height : Z; d_stride : Z; d_format : Z;
}.
Definition desc_zero : frame_desc := Desc 0 0 0 0 0 0.

(** [struct frame_slot]; [state] is [SLOT_FREE] or [SLOT_FILLING]. *)
Record frame_slot : Type := Slot { desc : frame_desc; filling : bool; refcount : Z }.

(** [struct frame_sink], without its callbacks and its link. *)
Record frame_sink : Type := Sink {
  policy : frame_policy; delivered : Z; dropped : Z; errors : Z;
  pending : option nat; busy : bool; pins : Z;
}.

(** [struct frame_pipeline]; the sink list from its head. *)
Record frame_pipeline : Type := Pipeline {
  sinks : list nat; slots : list frame_slot; nslots : Z; slot_size : Z; latest : option nat; gen : Z;
  fmt : Z; width : Z; height : Z; captured : Z; published : Z; overruns : Z;
}.

Record world : Type := World { pl : frame_pipeline; sk : gmap nat frame_sink }.

Definition set_slots (ss : list frame_slot) (p : frame_pipeline) : frame_pipeline :=
  Pipeline (sinks p) ss (nslots p) (slot_size p) (latest p) (gen p) (fmt p) (width p) (height p)
    (captured p) (published p) (overruns p).
Definition set_sinks (l : list nat) (p : frame_pipeline) : frame_pipeline :=
  Pipeline l (slots p) (nslots p) (slot_size p) (latest p) (gen p) (fmt p) (width p) (height p)
    (captured p) (published p) (overruns p).

Definition set_state (b : bool) (s : frame_slot) : frame_slot := Slot (desc s) b (refcount s).
Definition set_ref (r : Z) (s : frame_slot) : frame_slot := Slot (desc s) (filling s) r.
Definition on_slot (f : frame_slot -> frame_slot) (i : nat) (w : world) : world :=
  World (set_slots (alter f i (slots (pl w))) (pl w)) (sk w).
Definition on_sink (f : frame_sink -> frame_sink) (s : nat) (w : world) : world :=
  World (pl w) (alter f s (sk w)).

(** The fields of a sink. *)
Definition set_pins (n : Z) (s : frame_sink) : frame_sink :=
  Sink (policy s) (delivered s) (dropped s) (errors s) (pending s) (busy s) n.
Definition set_busy (b : bool) (s : frame_sink) : frame_sink :=
  Sink (policy s) (delivered s) (dropped s) (errors s) (pending s) b (pins s).
Definition set_pending (f : option nat) (s : frame_sink) : frame_sink :=
  Sink (policy s) (delivered s) (dropped s) (errors s) f (busy s) (pins s).
Definition add_dropped (s : frame_sink) : frame_sink :=
  Sink (policy s) (delivered s) (dropped s +% 1) (errors s) (pending s) (busy s) (pins s).
Definition add_delivered (err : bool) (s : frame_sink) : frame_sink :=
  Sink (policy s) (delivered s +% 1) (dropped s) (if err then errors s +% 1 else errors s)
    (pending s) (busy s) (pins s).

(** [slot->refcount++], [s->_pins++]. *)
Definition pin_slot (i : nat) (w : world) : world := on_slot (fun s => set_ref (refcount s + 1) s) i w.
Definition pin_sink (s : nat) (w : world) : world := on_sink (fun k => set_pins (pins k + 1) k) s w.

(** [unpin_locked]; [None] is a NULL sink. *)
Definition unpin_locked (s : option nat) (f : nat) (w : world) : world :=
  let w := on_slot (fun sl => if 0 <? refcount sl then set_ref (refcount sl - 1) sl else sl) f w in
  match s with
  | None => w
  | Some s => on_sink (fun k => if 0 <? pins k then set_pins (pins k - 1) k else k) s w
  end.

(** ** Producer side *)

Definition frame_pipeline_init (slot_mem : bool) (slot_size nslots : Z) : option frame_pipeline :=
  if negb slot_mem || (slot_size =? 0) || (nslots =? 0) || (FRAME_PIPELINE_MAX_SLOTS <? nslots) then None
  else Some (Pipeline [] (replicate (Z.to_nat nslots) (Slot desc_zero false 0)) nslots slot_size None 0
               FRAME_FMT_RGB565 0 0 0 0 0).

Definition frame_pipeline_set_format (fmt w h : Z) (wd : world) : world :=
  let p := pl wd in
  World (Pipeline (sinks p) (slots p) (nslots p) (slot_size p) (latest p) (gen p) fmt w h
           (captured p) (published p) (overruns p)) (sk wd).

(** The search loop of [frame_pipeline_acquire], from slot [i]. *)
Fixpoint find_free (ss : list frame_slot) (latest : option nat) (i : nat) : option nat :=
  match ss with
  | [] => None
  | s :: ss =>
      if negb (filling s) && (refcount s =? 0) && negb (bool_decide (Some i = latest)) then Some i
      else find_free ss latest (S i)
  end.

Definition frame_pipeline_acquire (w : world) : option nat * world :=
  let p := pl w in
  match find_free (slots p) (latest p) 0 with
  | Some i =>
      (Some i,
       World (Pipeline (sinks p) (alter (set_state true) i (slots p)) (nslots p) (slot_size p) (latest p) (gen p)
                (fmt p) (width p) (height p) (captured p +% 1) (published p) (overruns p)) (sk w))
  | None =>
      (None,
       World (Pipeline (sinks p) (slots p) (nslots p) (slot_size p) (latest p) (gen p)
                (fmt p) (width p) (height p) (captured p) (published p) (overruns p +% 1)) (sk w))
  end.

(** What [frame_pipeline_publish] does for one sink: the new world and the
    delivery list. *)
Definition fan_out_one (f : nat) (wd : world * list nat) (s : nat) : world * list nat :=
  let '(w, deliver) := wd in
  match sk w !! s with
  | None => (w, deliver)
  | Some k =>
      if busy k then
        match policy k with
        | FRAME_POLICY_DROP => (on_sink add_dropped s w, deliver)
        | FRAME_POLICY_LATEST =>
            let w := match pending k with
                     | Some q => on_sink add_dropped s (unpin_locked (Some s) q w)
                     | None => w
                     end in
            let w := on_sink (set_pending (Some f)) s w in
            (pin_sink s (pin_slot f w), deliver)
        end
      else
        let w := on_sink (set_busy true) s w in
        let w := pin_sink s (pin_slot f w) in
        (w, if (length deliver <? FRAME_PIPELINE_MAX_SINKS)%nat then deliver ++ [s] else deliver)
  end.

(** The stamp. *)
Definition stamp (f : nat) (bytes fmt_ w h stride : Z) (wd : world) : world :=
  let p := pl wd in
  let g := gen p +% 1 in
  let sl := alter (fun s => Slot (Desc bytes g w h stride (u8 fmt_)) false (refcount s)) f (slots p) in
  World (Pipeline (sinks p) sl (nslots p) (slot_size p) (Some f) g (fmt p) (width p) (height p)
           (captured p) g (overruns p)) (sk wd).

(** The section of [frame_pipeline_publish] under the lock. *)
Definition publish_locked (f : nat) (bytes fmt_ w h stride : Z) (wd : world) : world * list nat :=
  let wd := stamp f bytes fmt_ w h stride wd in
  fold_left (fan_out_one f) (sinks (pl wd)) (wd, []).

(** The section after a [consume()] that returned [rc]. *)
Definition consumed (s : nat) (rc : Z) (w : world) : world := on_sink (add_delivered (rc <? 0)) s w.

Section callbacks.
(** A sink's callbacks, with whatever other threads do meanwhile. *)
Context (consume : nat -> nat -> world -> Z * world) (open : nat -> Z -> Z -> Z -> world -> Z * world)
        (close : nat -> world -> world).

Fixpoint deliver_all (deliver : list nat) (f : nat) (w : world) : world :=
  match deliver with
  | [] => w
  | s :: deliver => let '(rc, w) := consume s f w in deliver_all deliver f (consumed s rc w)
  end.

Definition frame_pipeline_publish (f : nat) (bytes fmt_ w h stride : Z) (wd : world) : world :=
  let '(wd, deliver) := publish_locked f bytes fmt_ w h stride wd in
  deliver_all deliver f wd.

(** ** Sinks *)

(** The section that links a sink. *)
Definition attach_locked (s : nat) (w : world) : world :=
  let w := on_sink (fun k => Sink (policy k) 0 0 0 None false 0) s w in
  World (set_sinks (s :: sinks (pl w)) (pl w)) (sk w).

Definition frame_pipeline_attach (s : nat) (w : world) : Z * world :=
  if (FRAME_PIPELINE_MAX_SINKS <=? length (sinks (pl w)))%nat then (-1, w)
  else
    let '(rc, w) := open s (fmt (pl w)) (width (pl w)) (height (pl w)) w in
    if rc <? 0 then (rc, w) else (0, attach_locked s w).

(** The first link to [s] removed. *)
Fixpoint unlink (s : nat) (l : list nat) : list nat :=
  match l with
  | [] => []
  | x :: l => if bool_decide (x = s) then l else x :: unlink s l
  end.

(** The section of [frame_pipeline_detach] under the lock: the pins in flight. *)
Definition detach_locked (s : nat) (w : world) : Z * world :=
  let w := World (set_sinks (unlink s (sinks (pl w))) (pl w)) (sk w) in
  let w := match sk w !! s with
           | Some k => match pending k with
                       | Some q => on_sink (set_pending None) s (unpin_locked (Some s) q w)
                       | None => w
                       end
           | None => w
           end in
  (from_option pins 0 (sk w !! s), w).

Definition frame_pipeline_detach (s : nat) (w : world) : Z * world :=
  let '(n, w) := detach_locked s w in (n, close s w).

(** ** Reference counting *)

Definition frame_pipeline_get (s : option nat) (f : nat) (w : world) : world :=
  let w := pin_slot f w in
  match s with None => w | Some s => pin_sink s w end.

(** The section of [frame_pipeline_put] under the lock: the next delivery. *)
Definition put_locked (s : option nat) (f : nat) (w : world) : option nat * world :=
  let w := unpin_locked s f w in
  match s with
  | None => (None, w)
  | Some s =>
      let w := on_sink (set_busy false) s w in
      match from_option pending None (sk w !! s) with
      | Some next => (Some next, on_sink (set_busy true) s (on_sink (set_pending None) s w))
      | None => (None, w)
      end
  end.

Definition frame_pipeline_put (s : option nat) (f : nat) (w : world) : world :=
  match put_locked s f w, s with
  | (Some next, w), Some s => let '(rc, w) := consume s next w in consumed s rc w
  | (_, w), _ => w
  end.
End callbacks.

(** ** Pull access *)

(** [frame_pipeline_read_latest]: the slot, the offset and the length of the
    copy, and the generation; the slot's memory is the caller's. *)
Definition frame_pipeline_read_latest (off len : Z) (w : world) : option (nat * Z) :=
  if len =? 0 then None
  else
    i ← latest (pl w);
    s ← slots (pl w) !! i;
    if (off <? d_bytes (desc s)) && (len <=? d_bytes (desc s) - off) then Some (i, d_gen (desc s)) else None.

Definition frame_pipeline_pin_latest (w : world) : option nat * world :=
  match latest (pl w) with
  | Some i => (Some i, pin_slot i w)
  | None => (None, w)
  end.

Definition frame_pipeline_stats (w : world) : Z * Z * Z :=
  (captured (pl w), published (pl w), overruns (pl w)).

(** ** The system of threads

    The pins the rest of the system holds are a ghost list: a pull reader's
    (put back with a NULL sink), a sink's own (delivered, or taken by a get),
    and the pin under a sink's coalesced frame, which the pipeline holds for
    it.  [attaching] lists the sinks whose [frame_pipeline_attach] has passed
    the check of the number of sinks and not yet linked them. *)
Inductive holder : Type := Reader | Held (s : nat) | Pending (s : nat).
#[export] Instance holder_eq_dec : EqDecision holder.
Proof. solve_decision. Defined.
Abbreviation pin := (holder * nat)%type.

Definition owner (h : holder) : option nat :=
  match h with Reader => None | Held s | Pending s => Some s end.

Record sys : Type := Sys { wd : world; held : list pin; attaching : list nat }.

(** The sink argument of a put of the holder's pin. *)
Definition sink_arg (h : holder) : option nat := match h with Held s => Some s | _ => None end.

Definition drop_pending (s : nat) (H : list pin) : list pin := filter (fun p => p.1 <> Pending s) H.

(** The pins after one turn of the loop of a publish of [f]. *)
Definition fan_out_pins (f : nat) (k : option frame_sink) (s : nat) (H : list pin) : list pin :=
  match k with
  | None => H
  | Some k =>
      if busy k then
        match policy k with
        | FRAME_POLICY_DROP => H
        | FRAME_POLICY_LATEST => (Pending s, f) :: drop_pending s H
        end
      else (Held s, f) :: H
  end.
Definition publish_pins (f : nat) (w : world) (H : list pin) : list pin :=
  fold_left (fun H s => fan_out_pins f (sk w !! s) s H) (sinks (pl w)) H.

(** The pins after a put: a coalesced frame's pin becomes the sink's own. *)
Definition put_pins (h : holder) (next : option nat) (H : list pin) : list pin :=
  match h, next with
  | Held s, Some q => (Held s, q) :: drop_pending s H
  | _, _ => H
  end.

(** One critical section of one thread.  The premises are the header's rules
    for callers: a producer publishes what it acquired, a pin is put once and by
    its holder, a sink is attached again only once it is detached and drained. *)
Inductive step : sys -> sys -> Prop :=
| StepFormat w H A fm x y : step (Sys w H A) (Sys (frame_pipeline_set_format fm x y w) H A)
| StepAcquire w H A : step (Sys w H A) (Sys (frame_pipeline_acquire w).2 H A)
| StepPublish w H A f sl bytes fm x y stride :
    slots (pl w) !! f = Some sl -> filling sl = true ->
    step (Sys w H A) (Sys (publish_locked f bytes fm x y stride w).1 (publish_pins f w H) A)
| StepConsumed w H A s rc : step (Sys w H A) (Sys (consumed s rc w) H A)
| StepGet w H A h f : (h, f) ∈ H -> h = Reader \/ (exists s, h = Held s) ->
    step (Sys w H A) (Sys (frame_pipeline_get (sink_arg h) f w) ((h, f) :: H) A)
| StepPut w H A h f H' : H ≡ₚ (h, f) :: H' -> h = Reader \/ (exists s, h = Held s) ->
    step (Sys w H A)
      (Sys (put_locked (sink_arg h) f w).2 (put_pins h (put_locked (sink_arg h) f w).1 H') A)
| StepPinLatest w H A f : (frame_pipeline_pin_latest w).1 = Some f ->
    step (Sys w H A) (Sys (frame_pipeline_pin_latest w).2 ((Reader, f) :: H) A)
| StepCheck w H A s k : sk w !! s = Some k -> s ∉ sinks (pl w) -> s ∉ A ->
    Forall (fun p => owner p.1 <> Some s) H ->
    (length (sinks (pl w)) < FRAME_PIPELINE_MAX_SINKS)%nat ->
    step (Sys w H A) (Sys w H (s :: A))
| StepReject w H A s A' : A ≡ₚ s :: A' -> step (Sys w H A) (Sys w H A')
| StepLink w H A s A' : A ≡ₚ s :: A' -> step (Sys w H A) (Sys (attach_locked s w) H A')
| StepDetach w H A s k : sk w !! s = Some k ->
    step (Sys w H A) (Sys (detach_locked s w).2 (drop_pending s H) A).

(** The start: a fresh pipeline, sinks with their zeroed bookkeeping. *)
Definition sink_fresh (k : frame_sink) : Prop := pins k = 0 /\ pending k = None.
Definition initial (st : sys) : Prop :=
  (exists slot_size n, frame_pipeline_init true slot_size n = Some (pl (wd st)) /\ 0 <= n) /\
  map_Forall (fun _ => sink_fresh) (sk (wd st)) /\ held st = [] /\ attaching st = [].
Definition reachable (st : sys) : Prop := exists st0, initial st0 /\ rtc step st0 st.

(** ** The invariant *)

Definition on (i : nat) (H : list pin) : Z := Z.of_nat (length (filter (fun p => p.2 = i) H)).
Definition owned (s : nat) (H : list pin) : Z :=
  Z.of_nat (length (filter (fun p => owner p.1 = Some s) H)).
Definition pendings (s : nat) (H : list pin) : list pin := filter (fun p => p.1 = Pending s) H.
Definition pend_pin (s : nat) (q : option nat) : list pin :=
  match q with Some q => [(Pending s, q)] | None => [] end.

(** The reference counts count the pins; the pinned slots are published ones. *)
Record refs_ok (ss : list frame_slot) (H : list pin) : Prop := {
  ro_count : forall i sl, ss !! i = Some sl -> refcount sl = on i H;
  ro_slot : forall h i, (h, i) ∈ H -> exists sl, ss !! i = Some sl /\ filling sl = false;
}.

(** A sink's counter counts its pins; its coalesced frame is pinned once. *)
Definition sinks_ok (m : gmap nat frame_sink) (H : list pin) : Prop :=
  forall s k, m !! s = Some k -> pins k = owned s H /\ pendings s H = pend_pin s (pending k).

(** Only an attached, busy LATEST sink has a coalesced frame. *)
Definition pending_ok (w : world) : Prop :=
  forall s k q, sk w !! s = Some k -> pending k = Some q ->
    s ∈ sinks (pl w) /\ policy k = FRAME_POLICY_LATEST /\ busy k = true.

(** ... and it is the newest frame. *)
Definition pending_latest (w : world) : Prop :=
  forall s k q, sk w !! s = Some k -> pending k = Some q -> latest (pl w) = Some q.

Record wf (w : world) (H : list pin) : Prop := {
  wf_refs : refs_ok (slots (pl w)) H;
  wf_sinks : sinks_ok (sk w) H;
  wf_pending : pending_ok w;
  wf_latest : forall i, latest (pl w) = Some i -> exists sl, slots (pl w) !! i = Some sl /\ filling sl = false;
  wf_nodup : NoDup (sinks (pl w));
  wf_dom : forall s, s ∈ sinks (pl w) -> is_Some (sk w !! s);
  wf_slots : Z.of_nat (length (slots (pl w))) = nslots (pl w) /\ 0 < nslots (pl w) <= FRAME_PIPELINE_MAX_SLOTS;
}.

Record inv (st : sys) : Prop := {
  inv_wf : wf (wd st) (held st);
  inv_latest : pending_latest (wd st);
  inv_nodup : NoDup (attaching st);
  inv_attaching : forall s, s ∈ attaching st ->
    s ∉ sinks (pl (wd st)) /\ owned s (held st) = 0 /\ is_Some (sk (wd st) !! s);
}.

(** ** Counting pins *)

#[export] Instance on_proper i : Proper ((≡ₚ) ==> (=)) (on i).
Proof. intros H H' E. unfold on. by rewrite E. Qed.
Lemma on_cons i h f H : on i ((h, f) :: H) = (if decide (f = i) then 1 else 0) + on i H.
Proof. unfold on. rewrite filter_cons. simpl. case_decide; simpl; lia. Qed.
Lemma on_in h i H : (h, i) ∈ H -> 0 < on i H.
Proof.
  intros E. apply elem_of_Permutation in E as [H' ->]. rewrite on_cons, decide_True by done.
  unfold on; lia.
Qed.

#[export] Instance owned_proper s : Proper ((≡ₚ) ==> (=)) (owned s).
Proof. intros H H' E. unfold owned. by rewrite E. Qed.
Lemma owned_cons s h f H :
  owned s ((h, f) :: H) = (if decide (owner h = Some s) then 1 else 0) + owned s H.
Proof. unfold owned. rewrite filter_cons. simpl. case_decide; simpl; lia. Qed.
Lemma owned_none s H : owned s H = 0 <-> Forall (fun p => owner p.1 <> Some s) H.
Proof.
  unfold owned. split.
  - intros E. apply Forall_forall. intros p Hp Ho.
    assert (p ∈ filter (fun p : pin => owner p.1 = Some s) H) as Hf by by apply list_elem_of_filter.
    destruct (filter _ _); [by apply elem_of_nil in Hf|simpl in E; lia].
  - intros HF. induction HF as [|p H Hp HF IH]; [done|].
    rewrite filter_cons_False by done. done.
Qed.

#[export] Instance pendings_proper s : Proper ((≡ₚ) ==> (≡ₚ)) (pendings s).
Proof. intros H H' E. unfold pendings. by rewrite E. Qed.
Lemma pend_pin_eq s q l : l ≡ₚ pend_pin s q -> l = pend_pin s q.
Proof. destruct q; simpl; intros P; [by apply Permutation_singleton_r|by apply Permutation_nil_r]. Qed.
Lemma pendings_cons s h f H :
  pendings s ((h, f) :: H) = if decide (h = Pending s) then (h, f) :: pendings s H else pendings s H.
Proof. unfold pendings. by rewrite filter_cons. Qed.

#[export] Instance drop_pending_proper s : Proper ((≡ₚ) ==> (≡ₚ)) (drop_pending s).
Proof. intros H H' E. unfold drop_pending. by rewrite E. Qed.

(** Taking the coalesced pin of a sink out of the list. *)
Lemma drop_pending_perm s q H :
  pendings s H = pend_pin s q -> H ≡ₚ pend_pin s q ++ drop_pending s H.
Proof. intros <-. unfold pendings, drop_pending. by rewrite filter_app_complement. Qed.
Lemma pendings_drop s s' H :
  pendings s' (drop_pending s H) = if decide (s' = s) then [] else pendings s' H.
Proof.
  unfold pendings, drop_pending. rewrite list_filter_filter. case_decide as E.
  - subst. induction H as [|[h f] H IH]; [done|]. rewrite filter_cons_False; [done|]. naive_solver.
  - apply list_filter_iff. intros [h f]. simpl. split; [tauto|]. intros ->. split; congruence.
Qed.
Lemma owned_drop s s' q H :
  pendings s H = pend_pin s q ->
  owned s' H = (if decide (s' = s) then Z.of_nat (length (pend_pin s q)) else 0) + owned s' (drop_pending s H).
Proof.
  intros E. rewrite (drop_pending_perm _ _ _ E) at 1. destruct q as [q|]; simpl.
  - rewrite owned_cons. simpl. repeat case_decide; congruence || lia.
  - by case_decide.
Qed.
Lemma pendings_nil_drop s H : pendings s H = [] -> drop_pending s H = H.
Proof.
  unfold pendings, drop_pending. induction H as [|p H IH]; [done|].
  rewrite !filter_cons. simpl. destruct (decide (p.1 = Pending s)); [done|].
  intros E. rewrite decide_True by done. f_equal. by apply IH.
Qed.

(** Count a pin at the head of the list. *)
Ltac count_pin :=
  rewrite ?owned_cons, ?pendings_cons; simpl;
  repeat first [rewrite decide_True by done | rewrite decide_False by congruence]; rewrite ?Z.add_0_l.

(** ** The pieces of the critical sections preserve the invariant *)

Definition inc_ref (s : frame_slot) : frame_slot := set_ref (refcount s + 1) s.
Definition dec_ref (s : frame_slot) : frame_slot :=
  if 0 <? refcount s then set_ref (refcount s - 1) s else s.
Definition inc_pins (k : frame_sink) : frame_sink := set_pins (pins k + 1) k.
Definition dec_pins (k : frame_sink) : frame_sink :=
  if 0 <? pins k then set_pins (pins k - 1) k else k.

Lemma dec_ref_filling s : filling (dec_ref s) = filling s.
Proof. unfold dec_ref. by case_if. Qed.
Lemma dec_ref_refcount s : 0 < refcount s -> refcount (dec_ref s) = refcount s - 1.
Proof. intros. unfold dec_ref. by if_true. Qed.
Lemma dec_pins_fields k :
  pending (dec_pins k) = pending k /\ policy (dec_pins k) = policy k /\ busy (dec_pins k) = busy k.
Proof. unfold dec_pins. by case_if. Qed.
Lemma dec_pins_pins k : 0 < pins k -> pins (dec_pins k) = pins k - 1.
Proof. intros. unfold dec_pins. by if_true. Qed.

Lemma refs_pin ss H h f sl :
  refs_ok ss H -> ss !! f = Some sl -> filling sl = false -> refs_ok (alter inc_ref f ss) ((h, f) :: H).
Proof.
  intros [Hc Hs] Hf Hfill. split.
  - intros i sl'. rewrite on_cons, list_lookup_alter. case_decide as E.
    + subst. rewrite Hf. intros [= <-]. simpl. rewrite (Hc _ _ Hf). lia.
    + intros ->%Hc. lia.
  - intros h' i Hin. rewrite list_lookup_alter. apply elem_of_cons in Hin as [[= -> ->]|Hin].
    + rewrite decide_True, Hf by done. by exists (inc_ref sl).
    + destruct (Hs _ _ Hin) as (sl' & E & ?). case_decide; [subst; rewrite E|]; eexists; by split.
Qed.

Lemma refs_unpin ss H H' h f :
  refs_ok ss H -> H ≡ₚ (h, f) :: H' -> refs_ok (alter dec_ref f ss) H'.
Proof.
  intros [Hc Hs] HP. split.
  - intros i sl'. rewrite list_lookup_alter. case_decide as E.
    + subst i. destruct (ss !! f) as [sl|] eqn:Hf; [|done]. intros [= <-].
      assert (refcount sl = 1 + on f H') as Hr by (rewrite (Hc _ _ Hf), HP, on_cons, decide_True; lia).
      rewrite dec_ref_refcount; unfold on in *; lia.
    + intros Hi. rewrite (Hc _ _ Hi), HP, on_cons, decide_False; [lia|done].
  - intros h' i Hin. destruct (Hs h' i) as (sl & E & ?); [rewrite HP; by right|].
    rewrite list_lookup_alter. case_decide; [subst; rewrite E; simpl|].
    + exists (dec_ref sl). by rewrite dec_ref_filling.
    + by exists sl.
Qed.

Lemma alter_filling h f (ss : list frame_slot) i sl :
  (forall sl, filling (h sl) = filling sl) -> ss !! i = Some sl -> filling sl = false ->
  exists sl', alter h f ss !! i = Some sl' /\ filling sl' = false.
Proof.
  intros Hh E ?. rewrite list_lookup_alter. case_decide; [|by exists sl].
  subst. rewrite E. exists (h sl). by rewrite Hh.
Qed.

(** A turn that changes one slot's count and one sink. *)
Section update.
Context (w : world) (H H' : list pin) (s f : nat) (g : frame_sink -> frame_sink) (h : frame_slot -> frame_slot).
Context (Hwf : wf w H) (Hh : forall sl, filling (h sl) = filling sl)
        (Hrefs : refs_ok (alter h f (slots (pl w))) H').

Lemma wf_update :
  (forall s', s' <> s -> owned s' H' = owned s' H /\ pendings s' H' ≡ₚ pendings s' H) ->
  (forall k, sk w !! s = Some k ->
     pins (g k) = owned s H' /\ pendings s H' = pend_pin s (pending (g k)) /\
     (forall q, pending (g k) = Some q ->
        s ∈ sinks (pl w) /\ policy (g k) = FRAME_POLICY_LATEST /\ busy (g k) = true)) ->
  wf (on_sink g s (on_slot h f w)) H'.
Proof.
  intros Hne Hs. destruct Hwf as [? Hsk Hpend Hlat Hnd Hdom Hlen]. split; simpl; try done.
  - intros s' k'. rewrite lookup_alter. case_decide as E.
    + subst s'. destruct (sk w !! s) as [k|] eqn:Hk; [|done]. intros [= <-]. by destruct (Hs k) as (?&?&?).
    + intros Hk'. destruct (Hne s') as [-> HP]; [done|]. destruct (Hsk s' k' Hk') as [? E2].
      split; [done|]. eapply pend_pin_eq. by rewrite HP, E2.
  - intros s' k' q. simpl. rewrite lookup_alter. case_decide as E; [|by apply Hpend].
    subst s'. destruct (sk w !! s) as [k|] eqn:Hk; [|done]. intros [= <-] Hq.
    destruct (Hs k eq_refl) as (_ & _ & Hp). by apply (Hp q).
  - intros i Hi. destruct (Hlat i Hi) as (sl & ? & ?). by eapply alter_filling.
  - intros s' Hs'. rewrite lookup_alter. destruct (Hdom s' Hs') as [k Hk].
    case_decide; [subst; rewrite Hk|]; eauto.
  - by rewrite length_alter.
Qed.
End update.

Lemma on_slot_id w f : on_slot (fun sl => sl) f w = w.
Proof. destruct w as [p m]. unfold on_slot. simpl. rewrite list_alter_id by done. by destruct p. Qed.
Lemma on_sink_id w s : on_sink (fun k => k) s w = w.
Proof.
  destruct w as [p m]. unfold on_sink. simpl. f_equal. apply map_eq. intros s'.
  rewrite lookup_alter. case_decide; [subst|done]. by destruct (m !! s').
Qed.
Lemma on_sink_compose g g' s w : on_sink g s (on_sink g' s w) = on_sink (g ∘ g') s w.
Proof.
  unfold on_sink. simpl. f_equal. apply map_eq. intros s'. rewrite !lookup_alter.
  case_decide; [|done]. rewrite decide_True by done. by destruct (sk w !! s).
Qed.
Lemma unpin_sink s f w :
  unpin_locked (Some s) f w = on_sink dec_pins s (on_slot dec_ref f w).
Proof. done. Qed.

(** A change of a sink that leaves its pins. *)
Lemma wf_on_sink w H s g :
  wf w H ->
  (forall k, sk w !! s = Some k ->
     pins (g k) = pins k /\ pending (g k) = pending k /\ policy (g k) = policy k /\
     (pending k <> None -> busy k = true -> busy (g k) = true)) ->
  wf (on_sink g s w) H.
Proof.
  intros Hwf Hg. rewrite <-(on_slot_id w 0) at 1.
  apply (wf_update w H H s 0%nat g (fun sl => sl)); try done.
  - rewrite list_alter_id by done. apply Hwf.
  - intros k Hk. destruct (Hg k Hk) as (-> & -> & -> & Hb). destruct (wf_sinks _ _ Hwf s k Hk) as [? ?].
    split_and!; try done. intros q Hq. destruct (wf_pending _ _ Hwf s k q Hk Hq) as (?&?&?).
    split_and!; try done. apply Hb; congruence.
Qed.

(** Taking and releasing pins. *)
Lemma slot_of_pin w H h f :
  wf w H -> (h, f) ∈ H -> exists sl, slots (pl w) !! f = Some sl /\ filling sl = false.
Proof. intros Hwf Hin. by eapply ro_slot, Hin; apply Hwf. Qed.

Lemma wf_pin_reader w H f sl :
  wf w H -> slots (pl w) !! f = Some sl -> filling sl = false -> wf (pin_slot f w) ((Reader, f) :: H).
Proof.
  intros Hwf Hf Hfill. rewrite <-(on_sink_id (pin_slot f w) 0).
  apply (wf_update w H _ 0%nat f (fun k => k) inc_ref); try done.
  - eapply refs_pin; [apply Hwf|done..].
  - intros k Hk. destruct (wf_sinks _ _ Hwf _ k Hk) as [E1 E2].
    count_pin. split_and!; [done..|].
    intros q Hq. by apply (wf_pending _ _ Hwf _ k q).
Qed.

Lemma wf_pin_sink w H s f sl g :
  wf w H -> slots (pl w) !! f = Some sl -> filling sl = false ->
  (forall k, sk w !! s = Some k -> pins (g k) = pins k + 1 /\ pending (g k) = pending k /\
     policy (g k) = policy k /\ (busy k = true -> busy (g k) = true)) ->
  wf (on_sink g s (pin_slot f w)) ((Held s, f) :: H).
Proof.
  intros Hwf Hf Hfill Hg. apply (wf_update w H _ s f g inc_ref); try done.
  - eapply refs_pin; [apply Hwf|done..].
  - intros s' Hs'. by count_pin.
  - intros k Hk. destruct (wf_sinks _ _ Hwf _ k Hk) as [E1 E2], (Hg k Hk) as (-> & -> & -> & Hb).
    count_pin. split_and!; [lia|done|].
    intros q Hq. destruct (wf_pending _ _ Hwf _ k q Hk Hq) as (?&?&?). auto.
Qed.

Lemma wf_pin_pending w H s f sl k g :
  wf w H -> slots (pl w) !! f = Some sl -> filling sl = false ->
  sk w !! s = Some k -> s ∈ sinks (pl w) -> policy k = FRAME_POLICY_LATEST -> busy k = true ->
  pending k = None ->
  pins (g k) = pins k + 1 /\ pending (g k) = Some f /\ policy (g k) = policy k /\ busy (g k) = busy k ->
  wf (on_sink g s (pin_slot f w)) ((Pending s, f) :: H).
Proof.
  intros Hwf Hf Hfill Hk Hin Hpol Hbusy Hpend (G1 & G2 & G3 & G4).
  apply (wf_update w H _ s f g inc_ref); try done.
  - eapply refs_pin; [apply Hwf|done..].
  - intros s' Hs'. by count_pin.
  - intros k'. rewrite Hk. intros [= <-]. destruct (wf_sinks _ _ Hwf _ k Hk) as [E1 E2].
    count_pin. rewrite G2. simpl. rewrite E2, Hpend. split_and!; [lia|done|]. intros q _. split_and!; [done|congruence..].
Qed.

(** A put of a pin that its holder has: [unpin_locked], with whatever [g] does
    to the sink's other fields. *)
Lemma wf_unpin_reader w H H' f : wf w H -> H ≡ₚ (Reader, f) :: H' -> wf (unpin_locked None f w) H'.
Proof.
  intros Hwf HP. unfold unpin_locked. rewrite <-(on_sink_id _ 0).
  assert (Hother : forall s', owned s' H' = owned s' H /\ pendings s' H' ≡ₚ pendings s' H).
  { intros s'. rewrite HP. by count_pin. }
  apply (wf_update w H _ 0%nat f (fun k => k) dec_ref); [done|apply dec_ref_filling|..|done|].
  - eapply refs_unpin; [apply Hwf|done].
  - intros k Hk. destruct (wf_sinks _ _ Hwf _ k Hk) as [E1 E2], (Hother 0%nat) as [-> HP'].
    split_and!; [done|by apply pend_pin_eq; rewrite HP', E2|]. intros q. by apply (wf_pending _ _ Hwf).
Qed.

Lemma wf_unpin_sink w H H' s f :
  wf w H -> H ≡ₚ (Held s, f) :: H' -> wf (unpin_locked (Some s) f w) H'.
Proof.
  intros Hwf HP. rewrite unpin_sink.
  apply (wf_update w H _ s f dec_pins dec_ref); [done|apply dec_ref_filling|..].
  - eapply refs_unpin; [apply Hwf|done].
  - intros s' Hs'. rewrite HP. by count_pin.
  - intros k Hk. destruct (wf_sinks _ _ Hwf _ k Hk) as [E1 E2], (dec_pins_fields k) as (-> & -> & ->).
    rewrite HP, owned_cons in E1. simpl in E1. rewrite decide_True in E1 by done.
    assert (P : pendings s H' ≡ₚ pend_pin s (pending k)) by by rewrite <-E2, HP, pendings_cons.
    split_and!; [|by apply pend_pin_eq|intros q; by apply (wf_pending _ _ Hwf _ k q)].
    rewrite dec_pins_pins; unfold owned in *; lia.
Qed.

(** The coalesced pin given up: by a publish that replaces it, by a detach. *)
Lemma wf_drop_pending w H s q k g :
  wf w H -> sk w !! s = Some k -> pending k = Some q ->
  pins (g (dec_pins k)) = pins k - 1 /\ pending (g (dec_pins k)) = None ->
  wf (on_sink g s (unpin_locked (Some s) q w)) (drop_pending s H).
Proof.
  intros Hwf Hk Hq (G1 & G2). rewrite unpin_sink, on_sink_compose.
  destruct (wf_sinks _ _ Hwf _ k Hk) as [E1 E2]. rewrite Hq in E2.
  apply (wf_update w H _ s q (g ∘ dec_pins) dec_ref); [done|apply dec_ref_filling|..].
  - apply (refs_unpin _ H _ (Pending s)); [apply Hwf|]. by apply (drop_pending_perm s (Some q)).
  - intros s' Hs'. rewrite pendings_drop, (owned_drop _ s' _ _ E2), !decide_False by done. split; [lia|done].
  - intros k'. rewrite Hk. intros [= <-]. rewrite (owned_drop _ s _ _ E2), decide_True in E1 by done.
    simpl in *. rewrite pendings_drop, decide_True, G1, G2 by done. split_and!; [lia|done..].
Qed.

(** ** Publishing *)

(** What the loop of [frame_pipeline_publish] does to a sink. *)
Definition fan_out_sink (f : nat) (k : frame_sink) : frame_sink :=
  if busy k then
    match policy k with
    | FRAME_POLICY_DROP => add_dropped k
    | FRAME_POLICY_LATEST =>
        inc_pins (set_pending (Some f) (if pending k then add_dropped (dec_pins k) else k))
    end
  else inc_pins (set_busy true k).
Definition idle (m : gmap nat frame_sink) (s : nat) : bool :=
  match m !! s with Some k => negb (busy k) | None => false end.

Lemma fan_out_sink_spec f k :
  (forall q, pending k = Some q -> 0 < pins k) ->
  (forall q, pending k = Some q -> policy k = FRAME_POLICY_LATEST /\ busy k = true) ->
  let k' := fan_out_sink f k in
  policy k' = policy k /\ delivered k' = delivered k /\ errors k' = errors k /\ busy k' = true /\
  match busy k, policy k with
  | false, _ => pins k' = pins k + 1 /\ pending k' = None /\ dropped k' = dropped k
  | true, FRAME_POLICY_DROP => pins k' = pins k /\ pending k' = None /\ dropped k' = dropped k +% 1
  | true, FRAME_POLICY_LATEST =>
      pending k' = Some f /\
      match pending k with
      | None => pins k' = pins k + 1 /\ dropped k' = dropped k
      | Some _ => pins k' = pins k /\ dropped k' = dropped k +% 1
      end
  end.
Proof.
  intros Hpos Hpend. unfold fan_out_sink.
  destruct (busy k) eqn:Hb; [destruct (policy k) eqn:Hp|]; destruct (pending k) as [q|] eqn:Hq; simpl;
    try (destruct (Hpend q) as [? ?]; congruence); try done.
  specialize (Hpos q eq_refl). unfold dec_pins. rewrite (proj2 (Z.ltb_lt _ _) Hpos). simpl.
  rewrite Hb, Hp. split_and!; try done. lia.
Qed.

Lemma fan_out_one_sk f w d s k :
  sk w !! s = Some k ->
  sk (fan_out_one f (w, d) s).1 = alter (fan_out_sink f) s (sk w).
Proof.
  intros Hk. unfold fan_out_one. rewrite Hk. apply map_eq. intros s'. unfold fan_out_sink.
  destruct (busy k) eqn:Hb; [destruct (policy k) eqn:Hp; [|destruct (pending k) eqn:Hq]|];
    simpl; rewrite ?lookup_alter; repeat (rewrite ?lookup_alter; case_decide; subst; try done);
    rewrite Hk; simpl; by rewrite ?Hb, ?Hp, ?Hq.
Qed.

Lemma lookup_on_sink g s w k : sk w !! s = Some k -> sk (on_sink g s w) !! s = Some (g k).
Proof. intros Hk. simpl. by rewrite lookup_alter_eq, Hk. Qed.

(** The loop's turn for a busy LATEST sink. *)
Lemma wf_coalesce w H s f sl k :
  wf w H -> slots (pl w) !! f = Some sl -> filling sl = false ->
  sk w !! s = Some k -> s ∈ sinks (pl w) -> policy k = FRAME_POLICY_LATEST -> busy k = true ->
  wf (pin_sink s (pin_slot f (on_sink (set_pending (Some f)) s
        (match pending k with Some q => on_sink add_dropped s (unpin_locked (Some s) q w) | None => w end))))
     ((Pending s, f) :: drop_pending s H).
Proof.
  intros Hwf Hf Hfill Hk Hs Hp Hb. destruct (wf_sinks _ _ Hwf s k Hk) as [_ E2].
  destruct (pending k) as [q|] eqn:Hq.
  - set (g := fun k => set_pending None (add_dropped k)).
    assert (Hd : wf (on_sink g s (unpin_locked (Some s) q w)) (drop_pending s H)).
    { apply (wf_drop_pending w H s q k); [done..|]. split; [|done]. simpl. apply dec_pins_pins.
      destruct (wf_sinks _ _ Hwf s k Hk) as [-> _]. rewrite (drop_pending_perm _ _ _ E2). simpl. rewrite owned_cons.
      simpl. rewrite decide_True by done. unfold owned; lia. }
    destruct (alter_filling dec_ref q _ _ _ dec_ref_filling Hf Hfill) as (sl' & Hf' & Hfill').
    replace (pin_sink s _) with
      (on_sink (fun k => inc_pins (set_pending (Some f) k)) s (pin_slot f (on_sink g s (unpin_locked (Some s) q w)))).
    2:{ set (U := pin_slot f (unpin_locked (Some s) q w)).
        change (on_sink (fun k => inc_pins (set_pending (Some f) k)) s (on_sink g s U) =
                on_sink inc_pins s (on_sink (set_pending (Some f)) s (on_sink add_dropped s U))).
        by rewrite !on_sink_compose. }
    eapply wf_pin_pending; [exact Hd|exact Hf'|exact Hfill'|..|done].
    + rewrite unpin_sink, on_sink_compose. by apply lookup_on_sink.
    + done.
    + destruct (dec_pins_fields k) as (_ & ? & _). simpl. congruence.
    + destruct (dec_pins_fields k) as (_ & _ & ?). simpl. congruence.
    + done.
  - rewrite (pendings_nil_drop s H) by done.
    replace (pin_sink s _) with (on_sink (fun k => inc_pins (set_pending (Some f) k)) s (pin_slot f w)).
    2:{ exact (eq_sym (on_sink_compose inc_pins (set_pending (Some f)) s (pin_slot f w))). }
    by eapply wf_pin_pending.
Qed.

Lemma fan_out_one_wf f w d s H sl :
  wf w H -> slots (pl w) !! f = Some sl -> filling sl = false -> s ∈ sinks (pl w) ->
  wf (fan_out_one f (w, d) s).1 (fan_out_pins f (sk w !! s) s H).
Proof.
  intros Hwf Hf Hfill Hs. destruct (wf_dom _ _ Hwf s Hs) as [k Hk].
  unfold fan_out_one, fan_out_pins. rewrite Hk.
  destruct (busy k) eqn:Hb; [destruct (policy k) eqn:Hp|].
  - apply wf_on_sink; [done|]. intros k' _. done.
  - by eapply wf_coalesce.
  - simpl. replace (pin_sink s _) with (on_sink (fun k => inc_pins (set_busy true k)) s (pin_slot f w)).
    2:{ exact (eq_sym (on_sink_compose inc_pins (set_busy true) s (pin_slot f w))). }
    eapply wf_pin_sink; done.
Qed.

(** What a critical section leaves of the pipeline: everything but the
    reference counts. *)
Definition kept (w w' : world) : Prop :=
  exists ss, pl w' = set_slots ss (pl w) /\
    (fun s => (desc s, filling s)) <$> ss = (fun s => (desc s, filling s)) <$> slots (pl w).

Lemma kept_refl w : kept w w.
Proof. exists (slots (pl w)). by destruct (pl w). Qed.
Lemma kept_trans w1 w2 w3 : kept w1 w2 -> kept w2 w3 -> kept w1 w3.
Proof. intros (ss & E1 & E2) (ss' & E3 & E4). exists ss'. rewrite E3, E4, E1. by split. Qed.
Lemma kept_on_sink g s w w' : kept w w' -> kept w (on_sink g s w').
Proof. done. Qed.
Lemma kept_on_slot h i w w' :
  (forall sl, desc (h sl) = desc sl /\ filling (h sl) = filling sl) -> kept w w' -> kept w (on_slot h i w').
Proof.
  intros Hh K. eapply kept_trans; [exact K|]. exists (alter h i (slots (pl w'))). split; [done|].
  apply list_eq. intros j. rewrite !list_lookup_fmap, list_lookup_alter. case_decide; [subst|done].
  destruct (slots (pl w') !! j) as [sl|]; [simpl|done]. by destruct (Hh sl) as [-> ->].
Qed.
Lemma kept_pin_slot i w w' : kept w w' -> kept w (pin_slot i w').
Proof. by apply kept_on_slot. Qed.
Lemma kept_unpin s i w w' : kept w w' -> kept w (unpin_locked s i w').
Proof.
  intros K. assert (kept w (on_slot dec_ref i w')).
  { apply kept_on_slot; [|done]. intros sl. unfold dec_ref. by case_if. }
  by destruct s.
Qed.
Lemma kept_slot w w' i sl : kept w w' -> slots (pl w) !! i = Some sl ->
  exists sl', slots (pl w') !! i = Some sl' /\ desc sl' = desc sl /\ filling sl' = filling sl.
Proof.
  intros (ss & -> & E) Hi. apply (f_equal (lookup i)) in E. rewrite !list_lookup_fmap, Hi in E. simpl in *.
  destruct (ss !! i) as [sl'|]; [|done]. injection E as ??. by exists sl'.
Qed.
#[export] Hint Resolve kept_refl kept_on_sink kept_pin_slot kept_unpin : wio.

Lemma fan_out_one_kept f w d s : kept w (fan_out_one f (w, d) s).1.
Proof.
  unfold fan_out_one. destruct (sk w !! s) as [k|]; [|apply kept_refl].
  destruct (busy k); [destruct (policy k); [|destruct (pending k)]|];
    cbn [fst]; unfold pin_sink; auto 8 with wio.
Qed.

Lemma fan_out_one_deliver f w d s : is_Some (sk w !! s) -> (length d <= FRAME_PIPELINE_MAX_SINKS)%nat ->
  (fan_out_one f (w, d) s).2 =
    take FRAME_PIPELINE_MAX_SINKS (d ++ if idle (sk w) s then [s] else []).
Proof.
  intros [k Hk] Hd. unfold fan_out_one, idle. rewrite Hk.
  destruct (busy k); [destruct (policy k)|]; simpl; rewrite ?app_nil_r, ?take_ge by done; [done..|].
  destruct (Nat.ltb_spec (length d) FRAME_PIPELINE_MAX_SINKS).
  - rewrite take_ge; [done|]. rewrite length_app. simpl. lia.
  - rewrite take_app_le, take_ge by lia. done.
Qed.

Lemma take_take_app {A} n (l k : list A) : take n (take n l ++ k) = take n (l ++ k).
Proof.
  destruct (decide (length l <= n)%nat); [by rewrite (take_ge l)|].
  rewrite !take_app_le by (rewrite ?length_take; lia). by rewrite take_take, Nat.min_id.
Qed.

Lemma fan_out_pins_ext f (m m' : gmap nat frame_sink) l H : (forall s, s ∈ l -> m !! s = m' !! s) ->
  fold_left (fun H s => fan_out_pins f (m !! s) s H) l H = fold_left (fun H s => fan_out_pins f (m' !! s) s H) l H.
Proof.
  revert H. induction l as [|s l IH]; intros H E; simpl; [done|].
  rewrite (E s) by (by left). apply IH. intros s' ?. apply E. by right.
Qed.

Lemma filter_idle_ext (m m' : gmap nat frame_sink) (l : list nat) : (forall s, s ∈ l -> m !! s = m' !! s) ->
  filter (idle m) l = filter (idle m') l.
Proof.
  induction l as [|s l IH]; intros E; [done|]. rewrite !filter_cons.
  replace (idle m s) with (idle m' s) by (unfold idle; by rewrite (E s) by (by left)). rewrite IH; [done|]. intros s' ?. apply E. by right.
Qed.

(** The loop. *)
Lemma fan_out_spec f l : forall w d H,
  wf w H -> (exists sl, slots (pl w) !! f = Some sl /\ filling sl = false) ->
  NoDup l -> (forall s, s ∈ l -> s ∈ sinks (pl w)) -> (length d <= FRAME_PIPELINE_MAX_SINKS)%nat ->
  let r := fold_left (fan_out_one f) l (w, d) in
  wf r.1 (fold_left (fun H s => fan_out_pins f (sk w !! s) s H) l H) /\ kept w r.1 /\
  (forall s, sk r.1 !! s = if decide (s ∈ l) then fan_out_sink f <$> sk w !! s else sk w !! s) /\
  r.2 = take FRAME_PIPELINE_MAX_SINKS (d ++ filter (idle (sk w)) l).
Proof.
  induction l as [|s l IH]; intros w d H Hwf (sl & Hf & Hfill) Hnd Hin Hd; cbn [fold_left fst snd].
  { split_and!; [done|apply kept_refl| |].
    - intros s. by rewrite decide_False by apply not_elem_of_nil.
    - cbn. rewrite app_nil_r. by rewrite take_ge. }
  apply NoDup_cons in Hnd as [Hnot Hnd].
  assert (Hs : s ∈ sinks (pl w)) by (apply Hin; by left).
  destruct (wf_dom _ _ Hwf s Hs) as [k Hk].
  pose proof (fan_out_one_wf f w d s H sl Hwf Hf Hfill Hs) as Hwf1.
  pose proof (fan_out_one_kept f w d s) as Hkept.
  pose proof (fan_out_one_deliver f w d s ltac:(by exists k) Hd) as Hdel.
  pose proof (fan_out_one_sk f w d s k Hk) as Hsk.
  destruct (fan_out_one f (w, d) s) as [w1 d1]. cbn [fst snd] in *.
  assert (Hsame : forall s', s' ∈ l -> sk w1 !! s' = sk w !! s').
  { intros s' Hs'. rewrite Hsk, lookup_alter_ne; [done|]. intros ->. done. }
  edestruct (IH w1 d1 (fan_out_pins f (sk w !! s) s H) Hwf1) as (R1 & R2 & R3 & R4); [..|split_and!].
  - destruct (kept_slot _ _ _ _ Hkept Hf) as (sl' & ? & _ & ?). exists sl'. split; congruence.
  - done.
  - intros s' Hs'. destruct Hkept as (ss & -> & _). apply Hin. by right.
  - rewrite Hdel, length_take. lia.
  - by rewrite (fan_out_pins_ext f _ _ _ _ Hsame) in R1.
  - by eapply kept_trans.
  - intros s'. rewrite R3. destruct (decide (s' = s)) as [->|Hne].
    + rewrite decide_False, decide_True by (done || by left). by rewrite Hsk, lookup_alter_eq.
    + rewrite Hsk, lookup_alter_ne by done.
      rewrite (decide_ext (s' ∈ l) (s' ∈ s :: l)); [done|]. rewrite elem_of_cons. naive_solver.
  - rewrite R4, Hdel, take_take_app, <-app_assoc, filter_cons. f_equal. f_equal.
    rewrite (filter_idle_ext _ _ _ Hsame).
    by destruct (idle (sk w) s).
Qed.

Definition stamped (bytes fmt_ w h stride g : Z) (r : Z) : frame_slot :=
  Slot (Desc bytes g w h stride (u8 fmt_)) false r.

Lemma stamp_slot f bytes fmt_ x y stride w i :
  slots (pl (stamp f bytes fmt_ x y stride w)) !! i =
    if decide (f = i) then (fun s => stamped bytes fmt_ x y stride (gen (pl w) +% 1) (refcount s)) <$> slots (pl w) !! f
    else slots (pl w) !! i.
Proof. simpl. by rewrite list_lookup_alter. Qed.

Lemma stamp_wf f bytes fmt_ x y stride w H sl :
  wf w H -> slots (pl w) !! f = Some sl -> filling sl = true -> wf (stamp f bytes fmt_ x y stride w) H.
Proof.
  intros Hwf Hf Hfill. destruct (Hwf) as [[Hc Hs] Hsk Hpend Hlat Hnd Hdom Hlen]. split; try done.
  - split.
    + intros i sl'. rewrite stamp_slot. case_decide as E; [|apply Hc]. subst. rewrite Hf. intros [= <-].
      by apply (Hc _ sl).
    + intros h i Hin. rewrite stamp_slot. case_decide as E; [|by eapply Hs]. subst. rewrite Hf. by eexists.
  - intros i [= <-]. rewrite stamp_slot, decide_True, Hf by done. by eexists.
  - simpl. by rewrite length_alter.
Qed.

(** The whole critical section. *)
Lemma publish_locked_spec f bytes fmt_ x y stride w H sl :
  wf w H -> slots (pl w) !! f = Some sl -> filling sl = true ->
  let w0 := stamp f bytes fmt_ x y stride w in
  let r := publish_locked f bytes fmt_ x y stride w in
  wf r.1 (publish_pins f w H) /\ kept w0 r.1 /\
  (forall s, sk r.1 !! s = if decide (s ∈ sinks (pl w)) then fan_out_sink f <$> sk w !! s else sk w !! s) /\
  r.2 = take FRAME_PIPELINE_MAX_SINKS (filter (idle (sk w)) (sinks (pl w))).
Proof.
  intros Hwf Hf Hfill. apply (fan_out_spec f (sinks (pl w)) (stamp f bytes fmt_ x y stride w) []).
  - by eapply stamp_wf.
  - rewrite stamp_slot, decide_True, Hf by done. by eexists.
  - apply Hwf.
  - done.
  - simpl; lia.
Qed.

Lemma fan_out_sink_pending w H f s k q : wf w H -> sk w !! s = Some k -> s ∈ sinks (pl w) ->
  pending (fan_out_sink f k) = Some q -> q = f.
Proof.
  intros Hwf Hk Hs. unfold fan_out_sink.
  destruct (busy k) eqn:Hb; [destruct (policy k) eqn:Hp|]; simpl; [..|congruence|];
    intros Hq; destruct (wf_pending _ _ Hwf s k q Hk Hq) as (_ & ? & ?); congruence.
Qed.

Lemma publish_latest f bytes fmt_ x y stride w H sl :
  wf w H -> slots (pl w) !! f = Some sl -> filling sl = true ->
  pending_latest (publish_locked f bytes fmt_ x y stride w).1.
Proof.
  intros Hwf Hf Hfill. destruct (publish_locked_spec f bytes fmt_ x y stride w H sl Hwf Hf Hfill)
    as (_ & (ss & E & _) & Hsk & _).
  intros s k q Hk Hq. rewrite E. simpl. f_equal. rewrite Hsk in Hk. case_decide as Hs.
  - destruct (sk w !! s) as [k0|] eqn:Hk0; [|done]. injection Hk as <-.
    symmetry. by eapply fan_out_sink_pending.
  - by destruct (wf_pending _ _ Hwf s k q Hk Hq).
Qed.

Lemma owned_fan_out f k s s' H : s' <> s -> owned s' (fan_out_pins f k s H) = owned s' H.
Proof.
  intros Hne. unfold fan_out_pins. destruct k as [k|]; [|done].
  destruct (busy k); [destruct (policy k)|]; [done| |by count_pin].
  count_pin. unfold owned, drop_pending. rewrite list_filter_filter. do 2 f_equal.
  apply list_filter_iff. intros [h i]. simpl. split; [tauto|]. intros E. split; [done|]. intros ->. simpl in E. congruence.
Qed.
Lemma owned_publish f w H s : s ∉ sinks (pl w) -> owned s (publish_pins f w H) = owned s H.
Proof.
  unfold publish_pins. revert H. induction (sinks (pl w)) as [|s' l IH]; intros H Hs; simpl; [done|].
  apply not_elem_of_cons in Hs as [Hne Hs]. rewrite IH by done. by apply owned_fan_out.
Qed.

(** ** The other critical sections *)

Lemma find_free_spec ss l i0 i :
  find_free ss l i0 = Some i <->
  exists j sl, i = (i0 + j)%nat /\ ss !! j = Some sl /\ filling sl = false /\ refcount sl = 0 /\ Some i <> l /\
    forall j' sl', (j' < j)%nat -> ss !! j' = Some sl' ->
      filling sl' = true \/ refcount sl' <> 0 \/ Some (i0 + j')%nat = l.
Proof.
  revert i0. induction ss as [|s ss IH]; intros i0; simpl.
  { split; [done|]. intros (j & sl & _ & Hj & _). by rewrite lookup_nil in Hj. }
  destruct (negb (filling s) && _ && _) eqn:Hb.
  - split_bools. rewrite bool_decide_eq_false in *. split.
    + intros [= <-]. exists 0%nat, s. split_and!; [lia|done|done|lia|done|]. intros; lia.
    + intros (j & sl & -> & Hj & ? & ? & ? & Hmin). destruct j as [|j]; [f_equal; lia|].
      exfalso. destruct (Hmin 0%nat s) as [E|[E|E]]; [lia|done|congruence|lia|].
      rewrite Nat.add_0_r in E. done.
  - rewrite IH. apply andb_false_iff in Hb. rewrite andb_false_iff, !negb_false_iff, bool_decide_eq_true in Hb.
    split.
    + intros (j & sl & -> & ? & ? & ? & ? & Hmin). exists (S j), sl.
      split_and!; [lia|done|done|done| |].
      * done.
      * intros [|j'] sl' Hlt Hj'; simpl in Hj'.
        -- injection Hj' as <-. rewrite Nat.add_0_r. destruct Hb as [[?|?]|?]; [by left|right; left; lia|by right; right].
        -- rewrite <-Nat.add_succ_comm. apply Hmin; [lia|done].
    + intros ([|j] & sl & -> & Hj & ? & ? & ? & Hmin); simpl in Hj.
      * injection Hj as <-. rewrite Nat.add_0_r in *. destruct Hb as [[?|?]|?]; [congruence|lia|done].
      * exists j, sl. split_and!; [lia|done|done|done|done|]. intros j' sl' ? ?.
        rewrite Nat.add_succ_comm. apply Hmin; [lia|done].
Qed.

Lemma find_free_None ss l i0 : find_free ss l i0 = None ->
  forall j sl, ss !! j = Some sl -> filling sl = true \/ refcount sl <> 0 \/ Some (i0 + j)%nat = l.
Proof.
  revert i0. induction ss as [|s ss IH]; intros i0 E j sl Hj; simpl in *; [by rewrite lookup_nil in Hj|].
  destruct (negb (filling s) && _ && _) eqn:Hb; [done|].
  apply andb_false_iff in Hb. rewrite andb_false_iff, !negb_false_iff, bool_decide_eq_true in Hb.
  destruct j as [|j]; simpl in Hj.
  - injection Hj as <-. rewrite Nat.add_0_r. destruct Hb as [[?|?]|?]; [by left|right; left; lia|by right; right].
  - rewrite <-Nat.add_succ_comm. by apply IH.
Qed.

Lemma acquire_wf w H : wf w H -> wf (frame_pipeline_acquire w).2 H.
Proof.
  intros Hwf. destruct (Hwf) as [[Hc Hs] Hsk Hpend Hlat Hnd Hdom Hlen].
  unfold frame_pipeline_acquire. destruct (find_free _ _ _) as [i|] eqn:E; [|by split].
  apply find_free_spec in E as (j & sl & -> & Hj & Hfill & Hr & Hl & _). simpl in *.
  assert (Hother : forall i, (exists sl, slots (pl w) !! i = Some sl /\ filling sl = false) -> i <> j ->
            exists sl, alter (set_state true) j (slots (pl w)) !! i = Some sl /\ filling sl = false).
  { intros i (sl' & ? & ?) ?. exists sl'. by rewrite list_lookup_alter_ne by done. }
  split; simpl; try done.
  - split.
    + intros i sl'. rewrite list_lookup_alter. case_decide; [subst i|apply Hc]. rewrite Hj. intros [= <-].
      by apply (Hc j sl).
    + intros h i Hin. apply Hother; [by eapply Hs|]. intros ->. apply on_in in Hin. rewrite <-(Hc _ _ Hj) in Hin. lia.
  - intros i Hi. apply Hother; [by apply Hlat|]. congruence.
  - by rewrite length_alter.
Qed.

Lemma unlink_in s s' l : NoDup l -> s' ∈ unlink s l <-> s' ∈ l /\ s' <> s.
Proof.
  induction 1 as [|x l Hx Hnd IH]; simpl; [set_solver|].
  case_bool_decide; [subst|]; rewrite elem_of_cons, ?IH; [|rewrite elem_of_cons]; naive_solver.
Qed.
Lemma unlink_nodup s l : NoDup l -> NoDup (unlink s l).
Proof.
  induction 1 as [|x l Hx Hnd IH]; simpl; [constructor|].
  case_bool_decide; [done|]. apply NoDup_cons. split; [|done]. rewrite unlink_in by done. tauto.
Qed.

Lemma wf_unlink w H s : wf w H -> (forall k, sk w !! s = Some k -> pending k = None) ->
  wf (World (set_sinks (unlink s (sinks (pl w))) (pl w)) (sk w)) H.
Proof.
  intros [? ? Hpend ? Hnd Hdom ?] Hs. split; try done.
  - intros s' k q Hk Hq. destruct (Hpend s' k q Hk Hq) as (? & ? & ?). split_and!; [|done..].
    apply unlink_in; [done|]. split; [done|]. intros ->. by rewrite (Hs k Hk) in Hq.
  - by apply unlink_nodup.
  - intros s' Hs'. apply unlink_in in Hs' as [? _]; [|done]. by apply Hdom.
Qed.

(** A sink's coalesced pin, dropped. *)
Definition detach_pending (s : nat) (w : world) : world :=
  match sk w !! s with
  | Some k => match pending k with
              | Some q => on_sink (set_pending None) s (unpin_locked (Some s) q w)
              | None => w
              end
  | None => w
  end.

Lemma detach_pending_wf w H s k : wf w H -> sk w !! s = Some k ->
  wf (detach_pending s w) (drop_pending s H) /\
  exists k', sk (detach_pending s w) !! s = Some k' /\ pending k' = None /\ pins k' = owned s (drop_pending s H).
Proof.
  intros Hwf Hk. destruct (wf_sinks _ _ Hwf s k Hk) as [E1 E2]. unfold detach_pending. rewrite Hk.
  destruct (pending k) as [q|] eqn:Hq.
  - assert (Hw : wf (on_sink (set_pending None) s (unpin_locked (Some s) q w)) (drop_pending s H)).
    { apply (wf_drop_pending w H s q k); [done..|]. split; [|done]. simpl. apply dec_pins_pins.
      rewrite E1, (owned_drop _ s _ _ E2), decide_True by done. unfold owned; simpl; lia. }
    split; [done|]. eexists. split; [rewrite unpin_sink; by apply lookup_on_sink, lookup_on_sink|].
    split; [done|]. eapply (wf_sinks _ _ Hw). rewrite unpin_sink. by apply lookup_on_sink, lookup_on_sink.
  - rewrite pendings_nil_drop by done. split; [done|]. by exists k.
Qed.

Lemma detach_locked_eq s w :
  (detach_locked s w).2 =
    World (set_sinks (unlink s (sinks (pl (detach_pending s w)))) (pl (detach_pending s w))) (sk (detach_pending s w)).
Proof.
  unfold detach_locked, detach_pending. simpl. destruct (sk w !! s) as [k|]; [|done].
  by destruct (pending k).
Qed.

(** A sink's coalesced frame stays or goes. *)
Definition pend_sub (m m' : gmap nat frame_sink) : Prop :=
  forall s, option_Forall2 (fun k k' => pending k' = pending k \/ pending k' = None) (m !! s) (m' !! s).
Lemma pend_sub_refl m : pend_sub m m.
Proof. intros s. destruct (m !! s); constructor. by left. Qed.
Lemma pend_sub_alter m m' s g :
  (forall k, pending (g k) = pending k \/ pending (g k) = None) -> pend_sub m m' -> pend_sub m (alter g s m').
Proof.
  intros Hg Hm s'. rewrite lookup_alter. case_decide; [subst|apply Hm].
  destruct (Hm s') as [k k' Hk|]; simpl; constructor. destruct (Hg k') as [-> | ->]; auto.
Qed.
Lemma pend_sub_on_sink w w' s g :
  (forall k, pending (g k) = pending k \/ pending (g k) = None) -> pend_sub (sk w) (sk w') -> pend_sub (sk w) (sk (on_sink g s w')).
Proof. apply pend_sub_alter. Qed.
Lemma pend_sub_unpin w w' s f : pend_sub (sk w) (sk w') -> pend_sub (sk w) (sk (unpin_locked s f w')).
Proof.
  intros Hm. destruct s as [s|]; [|done]. rewrite unpin_sink. apply pend_sub_alter; [|done].
  intros k. destruct (dec_pins_fields k) as (-> & _). by left.
Qed.
Lemma pend_sub_latest w w' : pend_sub (sk w) (sk w') -> latest (pl w') = latest (pl w) ->
  pending_latest w -> pending_latest w'.
Proof.
  intros Hm El Hp s k' q Hk' Hq. rewrite El. specialize (Hm s). rewrite Hk' in Hm.
  inversion Hm as [k ? Hk E1 E2|]; subst. apply (Hp s k q); [done|]. destruct Hk; congruence.
Qed.
Lemma pend_sub_dom w w' s : pend_sub (sk w) (sk w') -> is_Some (sk w !! s) -> is_Some (sk w' !! s).
Proof. intros Hm [k Hk]. specialize (Hm s). rewrite Hk in Hm. inversion Hm. by eexists. Qed.
#[export] Hint Resolve pend_sub_refl pend_sub_on_sink pend_sub_unpin : wio.

(** A pin passes to another holder. *)
Lemma refs_relabel ss h h' f H H' : refs_ok ss H -> H ≡ₚ (h, f) :: H' -> refs_ok ss ((h', f) :: H').
Proof.
  intros [Hc Hs] HP. split.
  - intros i sl Hi. rewrite (Hc i sl Hi), HP. by rewrite !on_cons.
  - intros h0 i Hin. apply elem_of_cons in Hin as [[= -> ->]|Hin]; eapply Hs; rewrite HP; [by left|right; done].
Qed.

Lemma wf_transfer w H s q k : wf w H -> sk w !! s = Some k -> pending k = Some q ->
  wf (on_sink (fun k => set_busy true (set_pending None (set_busy false k))) s w) ((Held s, q) :: drop_pending s H).
Proof.
  intros Hwf Hk Hq. destruct (wf_sinks _ _ Hwf s k Hk) as [E1 E2]. rewrite Hq in E2.
  rewrite <-(on_slot_id w 0) at 1.
  apply (wf_update w H _ s 0%nat _ (fun sl => sl)); [done|done|..].
  - rewrite list_alter_id by done. apply (refs_relabel _ (Pending s) _ _ H); [apply Hwf|].
    by apply (drop_pending_perm s (Some q)).
  - intros s' Hs'. count_pin. rewrite pendings_drop, (owned_drop _ s' _ _ E2), !decide_False by done. done.
  - intros k'. rewrite Hk. intros [= <-]. rewrite (owned_drop _ s _ _ E2), decide_True in E1 by done.
    count_pin. rewrite pendings_drop, decide_True by done. simpl in *. done.
Qed.

Lemma put_wf w H h f H' : wf w H -> H ≡ₚ (h, f) :: H' -> h = Reader \/ (exists s, h = Held s) ->
  wf (put_locked (sink_arg h) f w).2 (put_pins h (put_locked (sink_arg h) f w).1 H').
Proof.
  intros Hwf HP [-> | [s ->]]; [by eapply wf_unpin_reader|].
  pose proof (wf_unpin_sink w H H' s f Hwf HP) as Hw. unfold put_locked. cbn [sink_arg].
  revert Hw. generalize (unpin_locked (Some s) f w) as w1. intros w1 Hw.
  change (sk (on_sink ?g s w1)) with (alter g s (sk w1)). rewrite lookup_alter_eq.
  destruct (sk w1 !! s) as [k|] eqn:Hk; simpl; [destruct (pending k) as [q|] eqn:Hq; simpl|].
  - rewrite !on_sink_compose. by eapply (wf_transfer w1 H' s q k).
  - apply wf_on_sink; [done|]. intros k'. rewrite Hk. intros [= <-]. by rewrite Hq.
  - apply wf_on_sink; [done|]. intros k'. by rewrite Hk.
Qed.

Lemma put_pend_sub w s f : pend_sub (sk w) (sk (put_locked s f w).2) /\ kept w (put_locked s f w).2.
Proof.
  unfold put_locked. destruct s as [s|]; [|split; cbn [snd]; auto with wio].
  destruct (from_option pending None _); cbn [snd]; split; auto 6 with wio.
Qed.

Lemma owned_drop_none s s' H : owned s H = 0 -> owned s (drop_pending s' H) = 0.
Proof. rewrite !owned_none, !Forall_forall. intros HF p [_ Hp]%list_elem_of_filter. by apply HF. Qed.
Lemma owned_head s h f H : owned s ((h, f) :: H) = 0 <-> owner h <> Some s /\ owned s H = 0.
Proof. rewrite owned_cons. unfold owned. case_decide; split; [lia|naive_solver|intros; split; [done|lia]|lia]. Qed.
Lemma put_owned h f s next H H' : H ≡ₚ (h, f) :: H' -> owned s H = 0 -> owned s (put_pins h next H') = 0.
Proof.
  intros HP. rewrite HP, owned_head. intros [Ho HH]. unfold put_pins.
  destruct h as [|s'|]; [done| |done]. destruct next; [|done].
  apply owned_head. split; [done|]. by apply owned_drop_none.
Qed.

Lemma attach_wf w H s : wf w H -> s ∉ sinks (pl w) -> owned s H = 0 -> is_Some (sk w !! s) ->
  wf (attach_locked s w) H.
Proof.
  intros Hwf Hs Ho [k Hk].
  assert (Hw : wf (on_sink (fun k => Sink (policy k) 0 0 0 None false 0) s w) H).
  { apply wf_on_sink; [done|]. intros k'. rewrite Hk. intros [= <-].
    destruct (wf_sinks _ _ Hwf s k Hk) as [-> _].
    assert (pending k = None) as ->.
    { destruct (pending k) as [q|] eqn:Hq; [|done]. by destruct (wf_pending _ _ Hwf s k q Hk Hq). }
    by split_and!. }
  destruct Hw as [? ? Hpend ? Hnd Hdom ?]. split; try done.
  - intros s' k' q Hk' Hq. destruct (Hpend s' k' q Hk' Hq) as (? & ? & ?). split_and!; [by right|done..].
  - by apply NoDup_cons.
  - intros s' Hs'. apply elem_of_cons in Hs' as [->|Hs']; [|by apply Hdom].
    simpl. rewrite lookup_alter_eq, Hk. by eexists.
Qed.

(** ** Reachable states *)

Lemma kept_fields w w' : kept w w' -> latest (pl w') = latest (pl w) /\ sinks (pl w') = sinks (pl w).
Proof. by intros (ss & -> & _). Qed.

(** The part of the invariant that a section keeps by leaving sinks and
    [latest] and adding no coalesced frame. *)
Lemma inv_kept w w' H H' A A' :
  inv (Sys w H A) -> wf w' H' -> pend_sub (sk w) (sk w') ->
  latest (pl w') = latest (pl w) -> sinks (pl w') = sinks (pl w) ->
  NoDup A' -> (forall s, s ∈ A' -> s ∈ A /\ owned s H' = 0) -> inv (Sys w' H' A').
Proof.
  intros [Hwf Hl Hnd Hatt] Hwf' Hp El Es HA' Hsub. split; simpl in *; [done|by eapply pend_sub_latest|done|].
  intros s Hs. destruct (Hsub s Hs) as [Hin ?]. destruct (Hatt s Hin) as (? & ? & ?). rewrite Es.
  split_and!; [done..|]. by eapply pend_sub_dom.
Qed.

Lemma initial_inv st : initial st -> inv st.
Proof.
  destruct st as [w H A]. intros ((z & n & Hi & Hn) & Hf & EH & EA). simpl in *. subst.
  unfold frame_pipeline_init in Hi. case_if_in Hi; [done|]. injection Hi as Hp. split_bools.
  split; simpl; [|..|constructor|by intros ? ?%elem_of_nil].
  - split; rewrite <-?Hp; simpl; try done.
    + split; [|by intros ?? ?%elem_of_nil]. intros i sl [-> _]%lookup_replicate. done.
    + intros s k Hk. destruct (Hf s k Hk) as [-> ->]. done.
    + intros s k q Hk Hq. destruct (Hf s k Hk). congruence.
    + constructor.
    + by intros ? ?%elem_of_nil.
    + rewrite length_replicate. unfold FRAME_PIPELINE_MAX_SLOTS in *. lia.
  - intros s k q Hk Hq. destruct (Hf s k Hk). congruence.
Qed.

Lemma inv_publish w H A f sl bytes fm x y stride :
  inv (Sys w H A) -> slots (pl w) !! f = Some sl -> filling sl = true ->
  inv (Sys (publish_locked f bytes fm x y stride w).1 (publish_pins f w H) A).
Proof.
  intros [Hwf Hl Hnd Hatt] Hf Hfill. simpl in *.
  destruct (publish_locked_spec f bytes fm x y stride w H sl Hwf Hf Hfill) as (Hwf' & Hk & Hsk & _).
  destruct (kept_fields _ _ Hk) as [_ Es]. split; simpl; [done|by eapply publish_latest|done|].
  intros s Hs. destruct (Hatt s Hs) as (Hns & ? & Hdom). rewrite Es, owned_publish, Hsk, decide_False by done. done.
Qed.

Lemma inv_link w H A A' s : inv (Sys w H A) -> A ≡ₚ s :: A' -> inv (Sys (attach_locked s w) H A').
Proof.
  intros [Hwf Hl Hnd Hatt] HP. simpl in *. rewrite HP in Hnd. apply NoDup_cons in Hnd as [HsA HA'].
  assert (Hin : forall s', s' ∈ s :: A' -> s' ∈ A) by (intros s'; by rewrite HP).
  destruct (Hatt s (Hin s ltac:(by left))) as (Hns & Ho & Hd).
  assert (Hp : pend_sub (sk w) (sk (attach_locked s w))).
  { apply (pend_sub_on_sink w w); [by right|apply pend_sub_refl]. }
  split; simpl; [by apply attach_wf|by eapply pend_sub_latest|done|].
  intros s' Hs'. destruct (Hatt s' (Hin s' ltac:(by right))) as (? & ? & ?). split_and!; [|done|].
  - apply not_elem_of_cons. split; [|done]. congruence.
  - by apply (pend_sub_dom w (attach_locked s w)).
Qed.

Lemma inv_detach w H A s k : inv (Sys w H A) -> sk w !! s = Some k ->
  inv (Sys (detach_locked s w).2 (drop_pending s H) A).
Proof.
  intros [Hwf Hl Hnd Hatt] Hk. cbn [wd held attaching] in *.
  destruct (detach_pending_wf w H s k Hwf Hk) as (Hw & k' & Hk' & Hq & _).
  assert (K : kept w (detach_pending s w) /\ pend_sub (sk w) (sk (detach_pending s w))).
  { unfold detach_pending. rewrite Hk. destruct (pending k); split; auto with wio. }
  destruct K as [K Hp]. destruct (kept_fields _ _ K) as [El Es]. rewrite detach_locked_eq.
  split; simpl; [|by eapply (pend_sub_latest w)|done|].
  - apply (wf_unlink (detach_pending s w)); [done|]. intros k0. rewrite Hk'. by intros [= <-].
  - intros s' Hs'. destruct (Hatt s' Hs') as (? & ? & ?). rewrite Es. split_and!.
    + rewrite unlink_in by apply Hwf. tauto.
    + by apply owned_drop_none.
    + by apply (pend_sub_dom w (detach_pending s w)).
Qed.

Lemma world_inv_step st st' : inv st -> step st st' -> inv st'.
Proof.
  intros Hinv Hst. pose proof Hinv as [Hwf Hl Hnd Hatt].
  destruct Hst as [w H A fm x y|w H A|w H A f sl bytes fm x y stride Hf Hfill|w H A s rc
                  |w H A h f Hin Hh|w H A h f H' HP Hh|w H A f Hpin
                  |w H A s k Hk Hs HsA Ho Hlt|w H A s A' HP|w H A s A' HP|w H A s k Hk]; simpl in *.
  - eapply inv_kept; [done|by destruct Hwf; split|apply pend_sub_refl|done..|naive_solver].
  - eapply inv_kept; [done|by apply acquire_wf|..|done|naive_solver];
      unfold frame_pipeline_acquire; destruct (find_free _ _ _); done || apply pend_sub_refl.
  - by eapply inv_publish.
  - eapply inv_kept; [done| |apply pend_sub_on_sink; [by left|apply pend_sub_refl]|done..|naive_solver].
    by apply wf_on_sink.
  - destruct (slot_of_pin w H h f Hwf Hin) as (sl & Hf & Hfill).
    eapply inv_kept; [done|..|done|].
    + destruct Hh as [-> | [s ->]]; simpl; [by eapply wf_pin_reader|by eapply wf_pin_sink].
    + destruct Hh as [-> | [s ->]]; simpl; [apply pend_sub_refl|].
      apply (pend_sub_on_sink w w); [by left|apply pend_sub_refl].
    + by destruct Hh as [-> | [s ->]].
    + by destruct Hh as [-> | [s ->]].
    + intros s Hs. split; [done|]. destruct (Hatt s Hs) as (_ & Ho & _). apply owned_head. split; [|done].
      apply elem_of_Permutation in Hin as [H' HP]. rewrite HP in Ho. by apply owned_head in Ho as [? _].
  - destruct (put_pend_sub w (sink_arg h) f) as [? K]. destruct (kept_fields _ _ K).
    eapply inv_kept; [done|by eapply put_wf|done..|]. intros s Hs. split; [done|].
    eapply put_owned; [exact HP|]. by destruct (Hatt s Hs) as (_ & ? & _).
  - unfold frame_pipeline_pin_latest in *. destruct (latest (pl w)) as [i|] eqn:El; simpl in *; [|done].
    injection Hpin as ->. destruct (wf_latest _ _ Hwf f El) as (sl & ? & ?).
    eapply inv_kept; [done|by eapply wf_pin_reader|apply pend_sub_refl|done..|].
    intros s Hs. destruct (Hatt s Hs) as (_ & ? & _). by rewrite owned_head.
  - split; simpl; [done..|by apply NoDup_cons|]. intros s' [->|Hs']%elem_of_cons; [|by apply Hatt].
    split_and!; [done| |by eexists]. by apply owned_none.
  - rewrite HP in Hnd. apply NoDup_cons in Hnd as [_ ?].
    eapply inv_kept; [done|done|apply pend_sub_refl|done..|]. intros s' Hs'.
    assert (s' ∈ A) as Hin by (rewrite HP; by right). destruct (Hatt s' Hin) as (_ & ? & _). done.
  - by eapply inv_link.
  - by eapply inv_detach.
Qed.

Lemma rtc_inv st st' : inv st -> rtc step st st' -> inv st'.
Proof. intros Hi. induction 1 as [|st1 st2 st3 Hs _ IH]; [done|]. by eapply IH, world_inv_step. Qed.
Lemma reachable_inv st : reachable st -> inv st.
Proof. intros (st0 & H0 & Hr). eapply rtc_inv; [by apply initial_inv|done]. Qed.

Lemma filling_unpinned w H i sl h : wf w H -> slots (pl w) !! i = Some sl -> filling sl = true -> (h, i) ∉ H.
Proof. intros Hwf Hi Hf Hin. destruct (slot_of_pin w H h i Hwf Hin) as (sl' & ? & ?). congruence. Qed.
Lemma on_zero i H h : on i H = 0 -> (h, i) ∉ H.
Proof. intros E Hin. apply on_in in Hin. lia. Qed.
Lemma on_pos i H : on i H <> 0 -> exists h, (h, i) ∈ H.
Proof.
  unfold on. intros E. destruct (filter _ H) as [|[h j] l] eqn:F; [done|].
  assert ((h, j) ∈ filter (fun p : pin => p.2 = i) H) as Hin by (rewrite F; by left).
  apply list_elem_of_filter in Hin as [Hj ?]. simpl in Hj. subst j. by exists h.
Qed.

(** The pins a sink holds itself. *)
Definition held_by (s : nat) (H : list pin) : list pin := filter (fun p => p.1 = Held s) H.

Lemma owned_split s H : owned s H = Z.of_nat (length (held_by s H)) + Z.of_nat (length (pendings s H)).
Proof.
  unfold owned, held_by, pendings. induction H as [|[h f] H IH]; [done|].
  rewrite !filter_cons. destruct h as [|s'|s']; repeat case_decide; simplify_eq/=; lia.
Qed.

Lemma list_alter_insert {A} (g : A -> A) (l : list A) i x : l !! i = Some x -> alter g i l = <[i := g x]> l.
Proof.
  intros Hi. apply list_eq. intros j. rewrite list_lookup_alter. case_decide; [subst|by rewrite list_lookup_insert_ne].
  rewrite list_lookup_insert_eq, Hi by (by eapply lookup_lt_Some). done.
Qed.

(** C21: In every state the threads can reach, whatever the interleaving of
    the critical sections, the bookkeeping is exact: a slot's reference count is
    the number of pins on it and zero while a producer fills it, a sink's
    counter is the number of pins it owns, a sink has a coalesced frame only
    while it is attached, LATEST and busy, and that frame is the newest
    published one and is pinned exactly once for it; no sink is linked twice. *)
Theorem frame_pipeline_counts st :
  reachable st ->
  let p := pl (wd st) in
  (forall i sl, slots p !! i = Some sl ->
     refcount sl = on i (held st) /\ (filling sl = true -> refcount sl = 0 /\ latest p <> Some i)) /\
  (forall s k, sk (wd st) !! s = Some k ->
     pins k = owned s (held st) /\
     match pending k with
     | None => forall f, (Pending s, f) ∉ held st
     | Some q => s ∈ sinks p /\ policy k = FRAME_POLICY_LATEST /\ busy k = true /\ latest p = Some q /\
                 filter (fun h => h.1 = Pending s) (held st) = [(Pending s, q)]
     end) /\
  NoDup (sinks p).
Proof.
  intros Hr. destruct (reachable_inv _ Hr) as [Hwf Hl _ _]. destruct st as [w H A]. simpl in *.
  split_and!; [| |apply Hwf].
  - intros i sl Hi. pose proof (ro_count _ _ (wf_refs _ _ Hwf) i sl Hi) as Hc. split; [done|]. intros Hf.
    split.
    + destruct (Z.eq_dec (on i H) 0) as [E|E]; [lia|]. apply on_pos in E as [h Hin].
      by destruct (filling_unpinned w H i sl h Hwf Hi Hf).
    + intros El. destruct (wf_latest _ _ Hwf i El) as (sl' & ? & ?). congruence.
  - intros s k Hk. destruct (wf_sinks _ _ Hwf s k Hk) as [? E2]. split; [done|].
    destruct (pending k) as [q|] eqn:Hq.
    + destruct (wf_pending _ _ Hwf s k q Hk Hq) as (? & ? & ?). split_and!; [done..|by eapply Hl|done].
    + intros f Hin. unfold pendings in E2. eapply elem_of_nil, (eq_ind _ (fun l => (Pending s, f) ∈ l)); [|exact E2].
      by apply list_elem_of_filter.
Qed.

(** [frame_pipeline_acquire] hands out a slot exactly when there is one
    that is not being filled, that nobody has pinned and that is not the newest
    frame; the slot it hands out is the first such, it is then being filled and
    nothing else changes but the [captured] counter.  When it fails, every slot
    is being filled, pinned or the newest, and [overruns] counts it. *)
Theorem acquire_correct st :
  reachable st ->
  let w := wd st in
  let free i := exists sl, slots (pl w) !! i = Some sl /\ filling sl = false /\
                  (forall h, (h, i) ∉ held st) /\ latest (pl w) <> Some i in
  match frame_pipeline_acquire w with
  | (Some i, w') =>
      free i /\ (forall j, (j < i)%nat -> ~ free j) /\
      (exists sl, slots (pl w) !! i = Some sl /\ slots (pl w') = <[i := set_state true sl]> (slots (pl w))) /\
      sk w' = sk w /\ latest (pl w') = latest (pl w) /\ sinks (pl w') = sinks (pl w) /\
      frame_pipeline_stats w' = (captured (pl w) +% 1, published (pl w), overruns (pl w))
  | (None, w') =>
      (forall i, ~ free i) /\ slots (pl w') = slots (pl w) /\ sk w' = sk w /\
      frame_pipeline_stats w' = (captured (pl w), published (pl w), overruns (pl w) +% 1)
  end.
Proof.
  intros Hr w free. destruct (reachable_inv _ Hr) as [Hwf _ _ _]. fold w in Hwf.
  pose proof (ro_count _ _ (wf_refs _ _ Hwf)) as Hc.
  assert (Hfree : forall i sl, slots (pl w) !! i = Some sl ->
            filling sl = true \/ refcount sl <> 0 \/ Some i = latest (pl w) -> ~ free i).
  { intros i sl Hi Hor (sl' & Hi' & ? & Hun & ?). destruct Hor as [?|[Hn|?]]; [congruence| |congruence].
    rewrite (Hc i sl Hi) in Hn. apply on_pos in Hn as [h ?]. by apply (Hun h). }
  unfold frame_pipeline_acquire. destruct (find_free _ _ _) as [i|] eqn:E.
  - apply find_free_spec in E as (j & sl & -> & Hj & Hfill & Hz & Hl & Hmin). simpl in *.
    split_and!; [|..|done|done|done|done].
    + exists sl. split_and!; [done..| |congruence]. intros h. apply on_zero. rewrite <-(Hc _ _ Hj). done.
    + intros j' Hlt (sl' & Hj' & Hrest). apply (Hfree j' sl' Hj'); [by eapply Hmin|]. by exists sl'.
    + exists sl. split; [done|]. by apply list_alter_insert.
  - split_and!; [|done..]. intros i Hf. pose proof Hf as (sl & Hi & _).
    by apply (Hfree i sl Hi (find_free_None _ _ _ E i sl Hi)).
Qed.

(** The slots by their index. *)
Definition slot_at (ss : list frame_slot) (i : nat) : frame_slot := default (Slot desc_zero false 0) (ss !! i).
Lemma slots_by_index ss : ss = slot_at ss <$> seq 0 (length ss).
Proof.
  apply list_eq. intros i. rewrite list_lookup_fmap. destruct (decide (i < length ss)%nat) as [Hi|Hi].
  - rewrite lookup_seq_lt by done. simpl. unfold slot_at. by apply lookup_lt_is_Some in Hi as [sl ->].
  - rewrite lookup_seq_ge, lookup_ge_None_2 by lia. done.
Qed.
Lemma length_filter_fmap {A B} (g : A -> B) (P : B -> Prop) `{!forall x, Decision (P x)} (l : list A) :
  length (filter P (g <$> l)) = length (filter (fun x => P (g x)) l).
Proof. induction l as [|x l IH]; [done|]. rewrite fmap_cons, !filter_cons. case_decide; cbn [length]; congruence. Qed.

(** Every slot in use: by a producer, a pin, or as the newest frame. *)
Lemma busy_slots_bound w H :
  wf w H ->
  (forall i sl, slots (pl w) !! i = Some sl -> filling sl = true \/ refcount sl <> 0 \/ Some i = latest (pl w)) ->
  (length (slots (pl w)) <= length (filter (fun sl => filling sl = true) (slots (pl w))) + length H + 1)%nat.
Proof.
  intros Hwf Hall. rewrite (slots_by_index (slots (pl w))) at 2. rewrite length_filter_fmap.
  set (n := length (slots (pl w))) in *. set (F := filter _ (seq 0 n)).
  set (k := F ++ H.*2 ++ option_list (latest (pl w))).
  assert (Hk : (length k <= length F + length H + 1)%nat).
  { unfold k. rewrite !length_app, length_fmap. destruct (latest (pl w)); simpl; lia. }
  etrans; [|exact Hk]. rewrite <-(length_seq n 0) at 1. apply submseteq_length, NoDup_submseteq; [apply NoDup_seq|].
  intros i Hi. pose proof Hi as [_ Hlt]%elem_of_seq. simpl in Hlt. apply lookup_lt_is_Some in Hlt as [sl Hsl].
  unfold k. rewrite !elem_of_app. destruct (Hall i sl Hsl) as [Hf|[Hr|Hl]].
  - left. apply list_elem_of_filter. unfold slot_at. by rewrite Hsl.
  - right. left. rewrite (ro_count _ _ (wf_refs _ _ Hwf) _ _ Hsl) in Hr. apply on_pos in Hr as [h Hin].
    apply list_elem_of_fmap. by exists (h, i).
  - right. right. rewrite <-Hl. simpl. by left.
Qed.

(** C32: With fewer frames in other hands than there are slots -- those being
    filled, those pinned, and one for the newest frame -- a producer's acquire
    succeeds, whatever happened before. *)
Theorem acquire_progress st :
  reachable st ->
  Z.of_nat (length (filter (fun sl => filling sl = true) (slots (pl (wd st))))) + Z.of_nat (length (held st)) + 1
    < nslots (pl (wd st)) ->
  exists i, (frame_pipeline_acquire (wd st)).1 = Some i.
Proof.
  intros Hr Hlt. destruct (reachable_inv _ Hr) as [Hwf _ _ _]. unfold frame_pipeline_acquire.
  destruct (find_free _ _ _) as [i|] eqn:E; [by exists i|].
  pose proof (busy_slots_bound _ _ Hwf (find_free_None _ _ _ E)). destruct (wf_slots _ _ Hwf). lia.
Qed.

(** One step of any thread leaves a pinned frame alone. *)
Lemma step_pinned st st' h f sl : inv st -> step st st' -> (h, f) ∈ held st -> slots (pl (wd st)) !! f = Some sl ->
  exists sl', slots (pl (wd st')) !! f = Some sl' /\ desc sl' = desc sl /\ filling sl' = filling sl.
Proof.
  intros [Hwf _ _ _] Hst Hin Hf. destruct (slot_of_pin _ _ _ _ Hwf Hin) as (sl0 & Hf0 & Hfill).
  rewrite Hf in Hf0. injection Hf0 as <-.
  assert (Hkept : kept (wd st) (wd st') -> exists sl', slots (pl (wd st')) !! f = Some sl' /\ desc sl' = desc sl /\ filling sl' = filling sl).
  { intros K. by apply (kept_slot _ _ _ _ K). }
  destruct Hst as [w H A fm x y|w H A|w H A i si bytes fm x y stride Hi Hfi|w H A s rc
                  |w H A h' i Hin' Hh|w H A h' i H' HP Hh|w H A i Hpin
                  |w H A s k Hk Hs HsA Ho Hlt|w H A s A' HP|w H A s A' HP|w H A s k Hk]; cbn [wd held attaching] in *.
  - by exists sl.
  - unfold frame_pipeline_acquire. destruct (find_free _ _ _) as [i|] eqn:E; [|by exists sl].
    apply find_free_spec in E as (j & sj & -> & Hj & _ & Hz & _). simpl.
    exists sl. rewrite list_lookup_alter_ne; [done|]. intros ->.
    rewrite (ro_count _ _ (wf_refs _ _ Hwf) _ _ Hj) in Hz. by apply (on_zero f H h).
  - destruct (publish_locked_spec i bytes fm x y stride w H si Hwf Hi Hfi) as (_ & K & _).
    apply (kept_slot _ _ _ _ K). rewrite stamp_slot, decide_False; [done|]. intros ->. congruence.
  - apply Hkept. unfold consumed. auto with wio.
  - apply Hkept. destruct Hh as [-> | [s ->]]; simpl; unfold pin_sink; auto with wio.
  - apply Hkept. apply put_pend_sub.
  - apply Hkept. unfold frame_pipeline_pin_latest. destruct (latest (pl w)); cbn [snd]; auto with wio.
  - by exists sl.
  - by exists sl.
  - by exists sl.
  - rewrite detach_locked_eq. simpl. apply (kept_slot w); [|done]. unfold detach_pending.
    destruct (sk w !! s) as [k'|]; [destruct (pending k')|]; auto with wio.
Qed.

(** A pinned frame does not tear: while a pin is held, no step of any
    thread -- a producer's acquire and publish included -- changes the frame's
    descriptor or gives its slot to be filled. *)
Theorem pinned_frame_stable st st' h f sl :
  reachable st -> (h, f) ∈ held st -> slots (pl (wd st)) !! f = Some sl ->
  rtc (fun a b => step a b /\ (h, f) ∈ held a) st st' ->
  exists sl', slots (pl (wd st')) !! f = Some sl' /\ desc sl' = desc sl /\ filling sl' = false.
Proof.
  intros Hr Hin Hf Hst. apply reachable_inv in Hr.
  assert (Hfill : filling sl = false).
  { destruct (slot_of_pin _ _ _ _ (inv_wf _ Hr) Hin) as (sl0 & ? & ?). congruence. }
  clear Hin. revert sl Hf Hfill. induction Hst as [|st1 st2 st3 [Hs Hin] _ IH]; intros sl Hf Hfill; [by exists sl|].
  destruct (step_pinned _ _ _ _ _ Hr Hs Hin Hf) as (sl2 & Hf2 & <- & Hfill2).
  apply IH; [by eapply world_inv_step|done|congruence].
Qed.

(** [frame_pipeline_publish] under the lock.  The slot is stamped with
    the next generation and the given geometry and becomes the newest frame;
    with at most four sinks the frame is delivered to exactly the sinks that are
    not busy, in list order, each busy and with one pin more; a busy DROP sink
    only counts a drop; a busy LATEST sink has the frame as its coalesced frame,
    and gave up an older one as a counted drop.  Nothing else changes. *)
Theorem publish_correct st f sl bytes fm x y stride :
  reachable st -> slots (pl (wd st)) !! f = Some sl -> filling sl = true ->
  (length (sinks (pl (wd st))) <= FRAME_PIPELINE_MAX_SINKS)%nat ->
  let w := wd st in
  let '(w', deliver) := publish_locked f bytes fm x y stride w in
  latest (pl w') = Some f /\ gen (pl w') = gen (pl w) +% 1 /\ published (pl w') = gen (pl w) +% 1 /\
  (exists sl', slots (pl w') !! f = Some sl' /\
     desc sl' = Desc bytes (gen (pl w) +% 1) x y stride (u8 fm) /\ filling sl' = false) /\
  (forall i si, i <> f -> slots (pl w) !! i = Some si ->
     exists si', slots (pl w') !! i = Some si' /\ desc si' = desc si /\ filling si' = filling si) /\
  deliver = filter (idle (sk w)) (sinks (pl w)) /\
  (forall s k, sk w !! s = Some k -> exists k', sk w' !! s = Some k' /\
     if decide (s ∈ sinks (pl w)) then
       policy k' = policy k /\ delivered k' = delivered k /\ errors k' = errors k /\ busy k' = true /\
       match busy k, policy k with
       | false, _ => pins k' = pins k + 1 /\ pending k' = None /\ dropped k' = dropped k
       | true, FRAME_POLICY_DROP => pins k' = pins k /\ pending k' = None /\ dropped k' = dropped k +% 1
       | true, FRAME_POLICY_LATEST =>
           pending k' = Some f /\
           match pending k with
           | None => pins k' = pins k + 1 /\ dropped k' = dropped k
           | Some _ => pins k' = pins k /\ dropped k' = dropped k +% 1
           end
       end
     else k' = k).
Proof.
  intros Hr Hf Hfill Hlen w. destruct (reachable_inv _ Hr) as [Hwf _ _ _]. fold w in Hwf, Hf, Hlen.
  destruct (publish_locked_spec f bytes fm x y stride w (held st) sl Hwf Hf Hfill) as (_ & K & Hsk & Hdel).
  destruct (publish_locked f bytes fm x y stride w) as [w' deliver]. cbn [fst snd] in *.
  split_and!; try (by destruct K as (ss & -> & _)).
  - destruct (kept_slot _ _ f (stamped bytes fm x y stride (gen (pl w) +% 1) (refcount sl)) K) as (sl' & ? & ? & ?).
    + by rewrite stamp_slot, decide_True, Hf by done.
    + by exists sl'.
  - intros i si Hne Hi. apply (kept_slot _ _ _ _ K). by rewrite stamp_slot, decide_False by done.
  - rewrite Hdel. apply take_ge. etrans; [apply length_filter|done].
  - intros s k Hk. rewrite Hsk, Hk. case_decide as Hin; [|by exists k]. eexists. split; [done|].
    destruct (wf_sinks _ _ Hwf s k Hk) as [E1 E2].
    apply fan_out_sink_spec; [|intros q Hq; by apply (wf_pending _ _ Hwf s k q)].
    intros q Hq. rewrite E1, (owned_split s), E2, Hq. simpl. lia.
Qed.

(** [frame_pipeline_put] by a sink: its pin goes; a LATEST sink with a
    coalesced frame is handed that frame -- the newest one published --, whose
    pin becomes the sink's, and stays busy; otherwise the sink is idle. *)
Theorem put_correct st s k f H' :
  reachable st -> sk (wd st) !! s = Some k -> held st ≡ₚ (Held s, f) :: H' ->
  let w := wd st in
  let '(next, w') := put_locked (Some s) f w in
  next = pending k /\ (next <> None -> next = latest (pl w)) /\
  (exists sf sf', slots (pl w) !! f = Some sf /\ slots (pl w') !! f = Some sf' /\ refcount sf' = refcount sf - 1) /\
  exists k', sk w' !! s = Some k' /\ pending k' = None /\ pins k' = pins k - 1 /\
    busy k' = bool_decide (next <> None).
Proof.
  intros Hr Hk HP w. destruct (reachable_inv _ Hr) as [Hwf Hl _ _]. fold w in Hwf, Hl, Hk.
  assert (Hpins : 0 < pins k).
  { destruct (wf_sinks _ _ Hwf s k Hk) as [-> _]. rewrite HP, owned_cons. simpl. rewrite decide_True by done. unfold owned; lia. }
  assert (Hslot : exists sf, slots (pl w) !! f = Some sf /\ 0 < refcount sf).
  { destruct (slot_of_pin w (held st) (Held s) f Hwf ltac:(rewrite HP; by left)) as (sf & Hsf & _).
    exists sf. split; [done|]. rewrite (ro_count _ _ (wf_refs _ _ Hwf) _ _ Hsf). apply (on_in (Held s)).
    rewrite HP. by left. }
  destruct Hslot as (sf & Hsf & Hpos).
  assert (Hsf' : forall w', slots (pl w') = alter dec_ref f (slots (pl w)) ->
            exists sf sf', slots (pl w) !! f = Some sf /\ slots (pl w') !! f = Some sf' /\ refcount sf' = refcount sf - 1).
  { intros w' ->. exists sf, (dec_ref sf). rewrite list_lookup_alter_eq, Hsf, dec_ref_refcount by done. done. }
  assert (Hk1 : sk (unpin_locked (Some s) f w) !! s = Some (dec_pins k)) by (simpl; by rewrite lookup_alter_eq, Hk).
  assert (Hs1 : slots (pl (unpin_locked (Some s) f w)) = alter dec_ref f (slots (pl w))) by done.
  unfold put_locked. revert Hk1 Hs1. generalize (unpin_locked (Some s) f w) as w1. intros w1 Hk1 Hs1.
  change (sk (on_sink ?g s w1)) with (alter g s (sk w1)). rewrite lookup_alter_eq, Hk1.
  destruct (dec_pins_fields k) as (Eq & _ & _). simpl. rewrite Eq. destruct (pending k) as [q|] eqn:Hq.
  - split_and!; [done|by intros _; symmetry; eapply Hl| |]; [by apply Hsf'|].
    eexists. split; [by repeat (apply lookup_on_sink)|]. simpl. rewrite dec_pins_pins by done. done.
  - split_and!; [done|done|by apply Hsf'|]. eexists. split; [by apply lookup_on_sink|]. simpl.
    rewrite dec_pins_pins by done. done.
Qed.

(** [frame_pipeline_detach] reports exactly the pins the sink holds and
    its owner has to put before the sink may go: none of them is a coalesced
    frame's.  Afterwards the sink is not linked, its coalesced frame is given
    up, its own pins are as they were, and a put hands it nothing more. *)
Theorem detach_correct st s k :
  reachable st -> sk (wd st) !! s = Some k ->
  let '(n, w') := detach_locked s (wd st) in
  n = Z.of_nat (length (held_by s (held st))) /\
  held_by s (drop_pending s (held st)) = held_by s (held st) /\
  s ∉ sinks (pl w') /\ (forall s', s' <> s -> s' ∈ sinks (pl w') <-> s' ∈ sinks (pl (wd st))) /\
  (exists k', sk w' !! s = Some k' /\ pending k' = None /\ pins k' = n) /\
  (forall f, (put_locked (Some s) f w').1 = None).
Proof.
  intros Hr Hk. destruct (reachable_inv _ Hr) as [Hwf Hl _ _]. destruct st as [w H A]. cbn [wd held] in *.
  destruct (detach_pending_wf w H s k Hwf Hk) as (Hw & k' & Hk' & Hq & Hp).
  assert (Hheld : held_by s (drop_pending s H) = held_by s H).
  { unfold held_by, drop_pending. rewrite list_filter_filter. apply list_filter_iff. intros [h f]. simpl.
    split; [tauto|]. intros ->. done. }
  assert (Hown : owned s (drop_pending s H) = Z.of_nat (length (held_by s H))).
  { rewrite owned_split, pendings_drop, decide_True, Hheld by done. simpl. lia. }
  assert (Es : sinks (pl (detach_pending s w)) = sinks (pl w)).
  { unfold detach_pending. rewrite Hk. by destruct (pending k). }
  assert (E1 : (detach_locked s w).1 = pins k').
  { revert Hk'. unfold detach_locked, detach_pending. simpl. rewrite Hk. destruct (pending k); simpl; by intros ->. }
  pose proof (detach_locked_eq s w) as E2. destruct (detach_locked s w) as [n w']. cbn [fst snd] in *. subst n w'.
  cbn [pl sk sinks set_sinks]. rewrite Es. split_and!; [congruence|done|..].
  - rewrite unlink_in by apply Hwf. tauto.
  - intros s' Hs'. rewrite unlink_in by apply Hwf. tauto.
  - exists k'. done.
  - intros f. unfold put_locked. cbn [sk on_sink unpin_locked]. simpl. rewrite !lookup_alter_eq, Hk'. simpl.
    destruct (0 <? pins k'); simpl; by rewrite Hq.
Qed.

(** ** Concrete runs *)
Module PipelineExample.
Definition fresh (p : frame_policy) : frame_sink := Sink p 0 0 0 None false 0.
Definition start (n : Z) (m : gmap nat frame_sink) : sys :=
  Sys (World (Pipeline [] (replicate (Z.to_nat n) (Slot desc_zero false 0)) n 153600 None 0
               FRAME_FMT_RGB565 0 0 0 0 0) m) [] [].
Definition check (s : nat) (st : sys) : sys := Sys (wd st) (held st) (s :: attaching st).
Definition link (s : nat) (st : sys) : sys := Sys (attach_locked s (wd st)) (held st) (unlink s (attaching st)).
Definition acquire (st : sys) : sys := Sys (frame_pipeline_acquire (wd st)).2 (held st) (attaching st).
Definition publish (f : nat) (st : sys) : sys :=
  Sys (publish_locked f 153600 0 320 240 640 (wd st)).1 (publish_pins f (wd st) (held st)) (attaching st).

(** Three slots, a DROP sink and a LATEST sink, two frames published and a
    third slot being filled. *)
Definition run : sys :=
  acquire (publish 1 (acquire (publish 0 (acquire (link 1 (check 1 (link 0 (check 0
    (start 3 {[0%nat := fresh FRAME_POLICY_DROP; 1%nat := fresh FRAME_POLICY_LATEST]}))))))))).

(** Five sinks whose attaches overlap. *)
Definition race : sys :=
  acquire (link 4 (link 3 (check 4 (check 3 (link 2 (check 2 (link 1 (check 1 (link 0 (check 0
    (start 2 {[0%nat := fresh FRAME_POLICY_DROP; 1%nat := fresh FRAME_POLICY_DROP; 2%nat := fresh FRAME_POLICY_DROP;
               3%nat := fresh FRAME_POLICY_DROP; 4%nat := fresh FRAME_POLICY_DROP]}))))))))))).

Lemma reach_step st st' : reachable st -> step st st' -> reachable st'.
Proof. intros (st0 & Hi & Hr) Hs. exists st0. split; [done|]. by eapply rtc_r. Qed.
Lemma start_reachable n m : 0 < n <= 8 -> map_Forall (fun _ => sink_fresh) m -> reachable (start n m).
Proof.
  intros Hn Hm. exists (start n m). split; [|done]. split_and!; [|done..].
  exists 153600, n. unfold frame_pipeline_init, FRAME_PIPELINE_MAX_SLOTS. simpl. if_false. split; [done|lia].
Qed.
Lemma acquire_reachable st : reachable st -> reachable (acquire st).
Proof. intros Hr. eapply reach_step; [exact Hr|]. destruct st. apply StepAcquire. Qed.
Lemma check_reachable s st : reachable st -> is_Some (sk (wd st) !! s) -> s ∉ sinks (pl (wd st)) -> s ∉ attaching st ->
  held st = [] -> (length (sinks (pl (wd st))) < FRAME_PIPELINE_MAX_SINKS)%nat -> reachable (check s st).
Proof.
  intros Hr [k Hk] Hs Ha Hh Hl. eapply reach_step; [exact Hr|]. destruct st as [w H A]. simpl in *. subst H.
  by eapply StepCheck.
Qed.
Lemma link_reachable s st : reachable st -> s ∈ attaching st -> reachable (link s st).
Proof.
  intros Hr Hs. eapply reach_step; [exact Hr|]. destruct st as [w H A]. simpl in *. apply StepLink.
  clear Hr. induction A as [|a A IH]; simpl; [by apply elem_of_nil in Hs|]. case_bool_decide; [by subst|].
  apply elem_of_cons in Hs as [?|Hs]; [congruence|]. rewrite (IH Hs) at 1. constructor.
Qed.
Lemma publish_reachable f st : reachable st -> filling (slot_at (slots (pl (wd st))) f) = true -> reachable (publish f st).
Proof.
  intros Hr Hf. eapply reach_step; [exact Hr|]. destruct st as [w H A]. simpl in *. unfold slot_at in Hf.
  destruct (slots (pl w) !! f) as [sl|] eqn:E; [|done]. by eapply StepPublish.
Qed.

Ltac by_run :=
  repeat first [apply acquire_reachable | apply publish_reachable; [|vm_compute; reflexivity]
               | apply link_reachable; [|by apply (bool_decide_unpack _); vm_compute]
               | apply check_reachable; [|by apply (bool_decide_unpack _); vm_compute|by apply (bool_decide_unpack _); vm_compute
                                        |by apply (bool_decide_unpack _); vm_compute|vm_compute; reflexivity|vm_compute; lia]];
  apply start_reachable; [lia|by apply (bool_decide_unpack _); vm_compute].

#[export] Instance sink_fresh_dec k : Decision (sink_fresh k).
Proof. unfold sink_fresh. apply _. Defined.

Lemma run_reachable : reachable run.
Proof. unfold run. by_run. Qed.
Lemma race_reachable : reachable race.
Proof. unfold race. by_run. Qed.

(** The check of the number of sinks and the linking of one are two
    critical sections of [frame_pipeline_attach], so overlapping attaches can
    link a fifth sink; the next frame is then pinned for all five and delivered
    to four: the fifth is busy with a frame it is never given, and its owner,
    who is to drain the pins a detach reports, has nothing to put. *)
Theorem attach_race_leaks_pin :
  exists st s f sl, reachable st /\ slots (pl (wd st)) !! f = Some sl /\ filling sl = true /\
    s ∈ sinks (pl (wd st)) /\ length (sinks (pl (wd st))) = S FRAME_PIPELINE_MAX_SINKS /\
    let '(w', deliver) := publish_locked f 153600 0 320 240 640 (wd st) in
    s ∉ deliver /\ (exists k', sk w' !! s = Some k' /\ busy k' = true) /\ (detach_locked s w').1 = 1.
Proof.
  exists race, 0%nat, 0%nat, (Slot desc_zero true 0). split_and!; [apply race_reachable|..];
    try (vm_compute; reflexivity); [by apply (bool_decide_unpack _); vm_compute|].
  destruct (publish_locked _ _ _ _ _ _ _) as [w' d] eqn:E. vm_compute in E. injection E as <- <-.
  split_and!; [by apply (bool_decide_unpack _); vm_compute| |vm_compute; reflexivity].
  eexists. split; [vm_compute; reflexivity|done].
Qed.

Lemma frame_pipeline_counts_witness :
  latest (pl (wd run)) = Some 1%nat /\
  forall s k, sk (wd run) !! s = Some k -> pins k = owned s (held run).
Proof.
  split; [vm_compute; reflexivity|].
  intros s k Hk. exact (proj1 (proj1 (proj2 (frame_pipeline_counts run run_reachable)) s k Hk)).
Defined.

Lemma acquire_correct_witness : exists p, p = acquire_correct run run_reachable.
Proof. eexists. reflexivity. Defined.

Lemma acquire_progress_witness :
  exists i, (frame_pipeline_acquire (wd (start 3 ∅))).1 = Some i.
Proof.
  apply (acquire_progress (start 3 ∅)); [|vm_compute; reflexivity].
  apply start_reachable; [lia|apply map_Forall_empty].
Defined.

Lemma pinned_frame_stable_witness :
  exists sl', slots (pl (wd (acquire run))) !! 0%nat = Some sl' /\
    desc sl' = Desc 153600 1 320 240 640 0 /\ filling sl' = false.
Proof.
  apply (pinned_frame_stable run (acquire run) (Held 0) 0
           (Slot (Desc 153600 1 320 240 640 0) false 2)).
  - apply run_reachable.
  - by apply (bool_decide_unpack _); vm_compute.
  - vm_compute; reflexivity.
  - apply rtc_once. split; [apply (StepAcquire (wd run) (held run) (attaching run))|].
    by apply (bool_decide_unpack _); vm_compute.
Defined.

Lemma publish_correct_witness : exists p, p = publish_correct run 2 (Slot desc_zero true 0) 153600 0 320 240 640
  run_reachable eq_refl eq_refl ltac:(vm_compute; lia).
Proof. eexists. reflexivity. Defined.

(** The LATEST sink of the run. *)
Definition sink1 : frame_sink := Sink FRAME_POLICY_LATEST 0 0 0 (Some 1%nat) true 2.

Lemma put_correct_witness :
  (put_locked (Some 1%nat) 0 (wd run)).1 = Some 1%nat /\ latest (pl (wd run)) = Some 1%nat.
Proof.
  pose proof (put_correct run 1 sink1 0 [(Pending 1, 1%nat); (Held 0, 0%nat)] run_reachable) as P.
  cbv zeta in P.
  destruct (put_locked (Some 1%nat) 0 (wd run)) as [next w'].
  destruct P as (P & Q & _); [vm_compute; reflexivity|vm_compute; symmetry; apply (Permutation_cons_append [_; _])|].
  change (pending sink1) with (Some 1%nat) in P. cbn [fst]. subst next. split; [done|]. by rewrite <-Q.
Defined.

Lemma detach_correct_witness :
  (detach_locked 1 (wd run)).1 = 1 /\ Z.of_nat (length (held_by 1 (held run))) = 1.
Proof.
  pose proof (detach_correct run 1 sink1 run_reachable ltac:(vm_compute; reflexivity)) as P.
  destruct (detach_locked 1 (wd run)) as [n w']. destruct P as [-> _].
  split; vm_compute; reflexivity.
Defined.
End PipelineExample.
