(* ===== verification/GfxRot.v ===== *)
(** * The rotating blit ([src/svc/gfx_rot.c])

    A landscape picture copied into a portrait frame buffer: each source column becomes a
    run of a frame-buffer row, gathered in pieces of 64 pixels and stored two pixels at
    a time where the address allows.  [blit_spec] says what arrives where, whatever
    the alignment and the pieces. *)

From S2P Require Import Prelude.
Local Open Scope Z_scope.

Definition GFX_RUN_PIXELS : nat := 64.

(** Arrays of pixels are lists, pointers into them offsets; an access outside is [None]. *)

(** [run.px[i] = *col; col += src_stride_px], [n] times. *)
Fixpoint gather (n i : nat) (col : Z) (src_stride_px : Z) (src run : list Z) : option (list Z * Z) :=
  match n with
  | O => Some (run, col)
  | S n => p ← src !! Z.to_nat col; run ← buf_set run i p; gather n (S i) (col + src_stride_px) src_stride_px src run
  end.

(** The two views of the union: pair [i] is pixels [2i] and [2i+1], the lower one first. *)
Definition pair (run : list Z) (i : nat) : option Z := lo ← run !! (2 * i)%nat; hi ← run !! (2 * i + 1)%nat; Some (Z.lor lo (Z.shiftl hi 16)).
Definition store32 (dst i : nat) (v : Z) (fb : list Z) : option (list Z) := fb ← buf_set fb (dst + 2 * i) (Z.land v 65535); buf_set fb (dst + 2 * i + 1) (Z.shiftr v 16).

Fixpoint pair_loop (n i dst : nat) (run fb : list Z) : option (list Z) :=
  match n with O => Some fb | S n => v ← pair run i; fb ← store32 dst i v fb; pair_loop n (S i) dst run fb end.
Fixpoint half_loop (n i dst : nat) (run fb : list Z) : option (list Z) :=
  match n with O => Some fb | S n => p ← run !! i; fb ← buf_set fb (dst + i) p; half_loop n (S i) dst run fb end.

(** [addr]: the address of the frame buffer. *)
Definition store_run (addr : Z) (n dst : nat) (run fb : list Z) : option (list Z) :=
  if (addr + 2 * Z.of_nat dst) mod 4 =? 0 then
    fb ← pair_loop (n / 2) 0 dst run fb;
    if (n mod 2 =? 0)%nat then Some fb else p ← run !! (n - 1)%nat; buf_set fb (dst + (n - 1)) p
  else half_loop n 0 dst run fb.

(** One column; every turn takes a pixel at least. *)
Fixpoint run_loop (fuel left dst : nat) (addr col src_stride_px : Z) (src run fb : list Z) : option (list Z * list Z) :=
  match fuel with
  | O => None
  | S fuel =>
      if (left =? 0)%nat then Some (run, fb)
      else
        let n := if (left <? GFX_RUN_PIXELS)%nat then left else GFX_RUN_PIXELS in
        '(run, col) ← gather n 0 col src_stride_px src run;
        fb ← store_run addr n dst run fb;
        run_loop fuel (left - n) (dst + n) addr col src_stride_px src run fb
  end.

Definition column_dst (fb_stride_px fb_rows x0 y0 sx : Z) : Z := u32 (((fb_rows -% 1) -% (x0 +% sx)) * fb_stride_px) + y0.

Fixpoint column_loop (n : nat) (sx addr src_stride_px fb_stride_px fb_rows x0 y0 : Z) (h : nat) (src run fb : list Z) : option (list Z) :=
  match n with
  | O => Some fb
  | S n =>
      '(run, fb) ← run_loop (S h) h (Z.to_nat (column_dst fb_stride_px fb_rows x0 y0 sx)) addr sx src_stride_px src run fb;
      column_loop n (sx + 1) addr src_stride_px fb_stride_px fb_rows x0 y0 h src run fb
  end.

(** [run]: what the buffer on the stack happens to hold. *)
Definition gfx_blit_rot (src : option (list Z)) (src_stride_px : Z) (fb : option (list Z)) (addr fb_stride_px fb_rows x0 y0 w h : Z) (run : list Z) : option (option (list Z)) :=
  match src, fb with
  | Some src, Some b =>
      if (w =? 0) || (h =? 0) then Some fb
      else b ← column_loop (Z.to_nat w) 0 addr src_stride_px fb_stride_px fb_rows x0 y0 (Z.to_nat h) src run b; Some (Some b)
  | _, _ => Some fb
  end.

(** ** A run *)

(** [n] pixels down a column. *)
Definition down (src : list Z) (stride col : Z) (n : nat) : list Z := (fun i => default 0 (src !! Z.to_nat (col + Z.of_nat i * stride))) <$> seq 0 n.

Lemma length_down src stride col n : length (down src stride col n) = n.
Proof. unfold down. by rewrite length_fmap, length_seq. Qed.

Lemma down_add src stride col m n : down src stride col (m + n) = down src stride col m ++ down src stride (col + Z.of_nat m * stride) n.
Proof.
  unfold down. rewrite seq_app, fmap_app. f_equal. cbn [Nat.add].
  replace (seq m n) with (Nat.add m <$> seq 0 n) by (rewrite fmap_add_seq; f_equal; lia). rewrite <-list_fmap_compose. apply list_fmap_ext. intros _ i _. cbn. do 3 f_equal. lia.
Qed.

Lemma down_S src stride col n : down src stride col (S n) = default 0 (src !! Z.to_nat col) :: down src stride (col + stride) n.
Proof.
  change (S n) with (1 + n)%nat. rewrite (down_add src stride col 1 n). cbn. rewrite Z.add_0_r. do 2 f_equal. lia.
Qed.

Lemma down_lookup src stride col n i : (i < n)%nat -> down src stride col n !! i = Some (default 0 (src !! Z.to_nat (col + Z.of_nat i * stride))).
Proof. intros Hi. unfold down. by rewrite list_lookup_fmap, lookup_seq_lt. Qed.


Lemma splice_cons (off : nat) (x : Z) l b : (off < length b)%nat -> splice off (x :: l) b = splice (S off) l (<[off:=x]> b).
Proof. intros. by rewrite splice_insert. Qed.

Lemma gather_spec n i col stride src run : 0 <= col -> 0 <= stride -> (n <> O -> col + (Z.of_nat n - 1) * stride < Z.of_nat (length src)) -> (i + n <= length run)%nat ->
  gather n i col stride src run = Some (splice i (down src stride col n) run, col + Z.of_nat n * stride).
Proof.
  revert i col run. induction n as [|n IH]; intros i col run Hc Hs Hsrc Hr; cbn [gather].
  - change (down src stride col 0) with (@nil Z). rewrite splice_nil by lia. do 2 f_equal. lia.
  - specialize (Hsrc ltac:(done)). destruct (lookup_lt_is_Some_2 src (Z.to_nat col)) as [p Hp]; [nia|]. rewrite Hp. cbn [mbind option_bind]. rewrite buf_set_Some by lia. cbn [mbind option_bind].
    rewrite IH; [|lia|done|intros; nia|rewrite length_insert; lia].
    rewrite down_S, Hp. cbn [default]. rewrite splice_cons by lia. do 2 f_equal; lia.
Qed.

(** *** Storing it *)

Lemma half_loop_spec n i dst run fb : (i + n <= length run)%nat -> (dst + i + n <= length fb)%nat -> half_loop n i dst run fb = Some (splice (dst + i) (slice i n run) fb).
Proof.
  revert i fb. induction n as [|n IH]; intros i fb Hr Hf; cbn [half_loop]; [unfold slice; rewrite take_0; by rewrite splice_nil by lia|].
  destruct (lookup_lt_is_Some_2 run i) as [p Hp]; [lia|]. rewrite Hp. cbn [mbind option_bind]. rewrite buf_set_Some by lia. cbn [mbind option_bind].
  rewrite IH by (rewrite ?length_insert; lia). f_equal. unfold slice. rewrite (drop_S _ _ _ Hp). cbn [take]. rewrite splice_cons by lia. f_equal. lia.
Qed.

(** Splitting a pair gives back its two pixels. *)
Lemma pair_split lo hi : is_u16 lo -> is_u16 hi -> Z.land (Z.lor lo (Z.shiftl hi 16)) 65535 = lo /\ Z.shiftr (Z.lor lo (Z.shiftl hi 16)) 16 = hi.
Proof.
  intros Hl Hh. unfold is_u16 in *. change 65535 with (2 ^ 16 - 1). rewrite land_mask by lia.
  assert (E : Z.lor lo (Z.shiftl hi 16) = lo + hi * 65536).
  { rewrite lor_shiftl_add by (cbn; lia). cbn; lia. }
  rewrite E, Z.shiftr_div_pow2 by lia. change (2 ^ 16) with 65536. split; [rewrite Z.mod_add by lia; by apply Z.mod_small|rewrite Z.div_add by lia; rewrite Z.div_small by lia; lia].
Qed.

Lemma pair_loop_spec n i dst run fb : Forall is_u16 run -> (2 * (i + n) <= length run)%nat -> (dst + 2 * (i + n) <= length fb)%nat ->
  pair_loop n i dst run fb = Some (splice (dst + 2 * i) (slice (2 * i) (2 * n) run) fb).
Proof.
  intros Hu. revert i fb. induction n as [|n IH]; intros i fb Hr Hf; cbn [pair_loop]; [unfold slice; rewrite take_0; by rewrite splice_nil by lia|].
  destruct (lookup_lt_is_Some_2 run (2 * i)) as [lo Hlo]; [lia|]. destruct (lookup_lt_is_Some_2 run (S (2 * i))) as [hi Hhi]; [lia|].
  destruct (pair_split lo hi) as [El Eh]; [by eapply Forall_lookup_1|by eapply Forall_lookup_1|].
  unfold pair, store32. replace (2 * i + 1)%nat with (S (2 * i)) by lia. rewrite Hlo, Hhi. cbn [mbind option_bind]. rewrite El, Eh, !buf_set_Some by (rewrite ?length_insert; lia). cbn [mbind option_bind].
  rewrite !buf_set_Some by (rewrite ?length_insert; lia). cbn [mbind option_bind]. rewrite IH by (rewrite ?length_insert; lia). f_equal.
  unfold slice. rewrite (drop_S _ _ _ Hlo), (drop_S _ _ _ Hhi). replace (2 * S n)%nat with (S (S (2 * n))) by lia. cbn [take].
  rewrite splice_cons by lia. rewrite splice_cons by (rewrite length_insert; lia). replace (dst + 2 * i + 1)%nat with (S (dst + 2 * i)) by lia.
  f_equal; [lia|]. by replace (2 * S i)%nat with (S (S (2 * i))) by lia.
Qed.

Lemma store_run_spec addr n dst run fb : Forall is_u16 run -> (n <= length run)%nat -> (dst + n <= length fb)%nat -> store_run addr n dst run fb = Some (splice dst (take n run) fb).
Proof.
  intros Hu Hr Hf. unfold store_run. pose proof (Nat.div_mod_eq n 2) as En. pose proof (Nat.mod_upper_bound n 2 ltac:(lia)). destruct (_ =? 0).
  - rewrite pair_loop_spec by (done || lia). cbn [mbind option_bind]. rewrite Nat.mul_0_r, Nat.add_0_r. change (slice 0 (2 * (n / 2)) run) with (take (2 * (n / 2)) run). destruct (Nat.eqb_spec (n mod 2) 0).
    + by replace (2 * (n / 2))%nat with n by lia.
    + destruct (lookup_lt_is_Some_2 run (n - 1)) as [p Hp]; [lia|]. rewrite Hp. cbn [mbind option_bind]. clear addr. assert (E : n = S (2 * (n / 2))) by lia. revert E Hp. generalize (2 * (n / 2))%nat. intros m -> Hp. cbn [Nat.sub] in *. rewrite Nat.sub_0_r in *.
      rewrite buf_set_Some by (rewrite length_splice; rewrite ?length_take; lia). rewrite (take_S_r _ _ _ Hp). f_equal. rewrite <-splice_splice_app by (rewrite ?length_app, ?length_take; cbn; lia).
      rewrite length_take, Nat.min_l by lia. rewrite splice_cons by (rewrite length_splice; rewrite ?length_take; lia). by rewrite splice_nil by (rewrite length_insert, length_splice; rewrite ?length_take; lia).
  - rewrite half_loop_spec by lia. by rewrite Nat.add_0_r.
Qed.

(** *** A column *)

Lemma down_u16 src stride col n : Forall is_u16 src -> Forall is_u16 (down src stride col n).
Proof.
  intros Hu. apply Forall_fmap, Forall_forall. intros i _. cbn. destruct (src !! _) eqn:E; [by eapply Forall_lookup_1|]. unfold is_u16; cbn; lia.
Qed.

Lemma splice_u16 off src b : Forall is_u16 src -> Forall is_u16 b -> Forall is_u16 (splice off src b).
Proof. intros. unfold splice. rewrite !Forall_app. eauto using Forall_take, Forall_drop. Qed.

(** What the buffer on the stack is: 64 halfwords of anything. *)
Definition run_ok (run : list Z) : Prop := length run = GFX_RUN_PIXELS /\ Forall is_u16 run.

Lemma run_loop_spec fuel left dst addr col stride src run fb : (left < fuel)%nat -> 0 <= col -> 0 <= stride -> Forall is_u16 src -> run_ok run ->
  (left <> O -> col + (Z.of_nat left - 1) * stride < Z.of_nat (length src)) -> (dst + left <= length fb)%nat ->
  exists run', run_loop fuel left dst addr col stride src run fb = Some (run', splice dst (down src stride col left) fb) /\ run_ok run'.
Proof.
  intros Hf Hc Hs Hu. revert left dst col run fb Hf Hc. induction fuel as [|fuel IH]; intros left dst col run fb Hf Hc [Hl Hr] Hsrc Hfb; [lia|]. cbn [run_loop].
  destruct (Nat.eqb_spec left 0) as [->|Hn].
  - exists run. change (down src stride col 0) with (@nil Z). by rewrite splice_nil by lia.
  - specialize (Hsrc Hn). set (n := if (left <? GFX_RUN_PIXELS)%nat then left else GFX_RUN_PIXELS).
    assert (0 < n <= left /\ n <= GFX_RUN_PIXELS)%nat as [Hn' Hn64] by (unfold n, GFX_RUN_PIXELS in *; case_match eqn:E; [apply Nat.ltb_lt in E|apply Nat.ltb_ge in E]; lia).
    rewrite gather_spec by (done || lia || (intros; nia)). cbn [mbind option_bind].
    assert (Hln : (0 + length (down src stride col n) <= length run)%nat) by (rewrite length_down; lia).
    rewrite store_run_spec by (first [by apply splice_u16, Hr; apply down_u16 | rewrite ?length_splice by done; lia]). cbn [mbind option_bind].
    replace (take n _) with (down src stride col n) by (rewrite <-(length_down src stride col n) at 2; symmetry; apply (slice_splice_eq 0); lia).
    destruct (IH (left - n)%nat (dst + n)%nat (col + Z.of_nat n * stride) (splice 0 (down src stride col n) run) (splice dst (down src stride col n) fb)) as (run' & E & Hok).
    + lia.
    + nia.
    + split; [by rewrite length_splice|]. by apply splice_u16, Hr; apply down_u16.
    + intros _. nia.
    + rewrite length_splice by (rewrite length_down; lia). lia.
    + exists run'. split; [|done]. rewrite E. do 2 f_equal. rewrite <-(length_down src stride col n) at 1. rewrite splice_splice_app by (rewrite !length_down; lia).
      f_equal. rewrite <-down_add. f_equal. lia.
Qed.

(** ** The picture: every source pixel at its place, everything else as it was *)

Section Picture.
Context (src : list Z) (stride addr fb_stride fb_rows x0 y0 h : Z).

(** Pixel [k] of the frame buffer once the source columns [a .. b-1] are there. *)
Definition rotated (a b : Z) (k : nat) (old : Z) : Z :=
  let row := Z.of_nat k / fb_stride in
  let y := Z.of_nat k mod fb_stride - y0 in
  let x := fb_rows - 1 - row - x0 in
  if (a <=? x) && (x <? b) && (0 <=? y) && (y <? h) then default 0 (src !! Z.to_nat (x + y * stride)) else old.
Definition blit_ref (a b : Z) (fb : list Z) : list Z := imap (rotated a b) fb.

Lemma length_blit_ref a b fb : length (blit_ref a b fb) = length fb.
Proof. apply length_imap. Qed.

Hypothesis Hh : 0 < h.
Hypothesis Hy : 0 <= y0 /\ y0 + h <= fb_stride.
Hypothesis Hfb : 0 <= fb_rows /\ fb_rows * fb_stride < 2 ^ 32.

(** The place of a column is its row, from [y0]. *)
Lemma column_dst_spec sx : 0 <= x0 -> 0 <= sx -> x0 + sx < fb_rows -> column_dst fb_stride fb_rows x0 y0 sx = (fb_rows - 1 - (x0 + sx)) * fb_stride + y0.
Proof.
  intros. unfold column_dst. rewrite (u32_small (x0 + sx)), (u32_small (fb_rows - 1)), (u32_small (fb_rows - 1 - (x0 + sx))), u32_small by (unfold is_u32; nia). done.
Qed.

(** One column stored is one column of the picture. *)
Lemma splice_column sx fb : 0 <= x0 -> 0 <= sx -> x0 + sx < fb_rows -> fb_rows * fb_stride <= Z.of_nat (length fb) ->
  splice (Z.to_nat ((fb_rows - 1 - (x0 + sx)) * fb_stride + y0)) (down src stride sx (Z.to_nat h)) fb = blit_ref sx (sx + 1) fb.
Proof.
  intros H0 Hs Hx Hl. apply list_eq. intros k. unfold blit_ref. rewrite list_lookup_imap. set (r := fb_rows - 1 - (x0 + sx)). assert (0 <= r) by (unfold r; lia).
  assert (r * fb_stride + y0 + h <= Z.of_nat (length fb)) by (unfold r; nia).
  assert (Eb : Z.of_nat (Z.to_nat (r * fb_stride + y0)) = r * fb_stride + y0) by (apply Z2Nat.id; nia).
  rewrite lookup_splice by (rewrite length_down; lia). rewrite length_down. set (base := Z.to_nat (r * fb_stride + y0)) in *.
  pose proof (Z.div_mod (Z.of_nat k) fb_stride ltac:(lia)) as Ek. pose proof (Z.mod_pos_bound (Z.of_nat k) fb_stride ltac:(lia)) as Bk.
  unfold rotated. set (q := Z.of_nat k / fb_stride) in *. set (m := Z.of_nat k mod fb_stride) in *. case_decide as Hk.
  - assert (q = r) as -> by nia. assert (m = Z.of_nat k - r * fb_stride) by lia. destruct (lookup_lt_is_Some_2 fb k) as [v Hv]; [lia|]. rewrite Hv. cbn [fmap option_fmap option_map].
    rewrite down_lookup by lia. f_equal. replace (fb_rows - 1 - r - x0) with sx by (unfold r; lia).
    clearbody r base m. assert (m - y0 = Z.of_nat (k - base)) as -> by lia.
    rewrite (proj2 (Z.leb_le sx sx)), (proj2 (Z.ltb_lt sx (sx + 1))), (proj2 (Z.leb_le 0 (Z.of_nat (k - base)))), (proj2 (Z.ltb_lt (Z.of_nat (k - base)) h)) by lia. done.
  - destruct (fb !! k) as [v|] eqn:Hv; [|done]. cbn. f_equal. destruct (_ && _) eqn:E; [|done].
    rewrite !andb_true_iff, !Z.leb_le, !Z.ltb_lt in E. destruct Hk. assert (q = r) as -> by (unfold r; lia). clearbody r base m. lia.
Qed.

(** Columns one after the other. *)
Lemma blit_ref_step a b fb : a <= b -> blit_ref (a + 1) (b + 1) (blit_ref a (a + 1) fb) = blit_ref a (b + 1) fb.
Proof.
  intros Hab. apply list_eq. intros k. unfold blit_ref. rewrite !list_lookup_imap. destruct (fb !! k) as [v|]; [|done]. cbn. f_equal.
  unfold rotated. set (x := fb_rows - 1 - _ - x0). set (y := _ - y0).
  destruct (Z.leb_spec a x), (Z.leb_spec (a + 1) x), (Z.ltb_spec x (b + 1)), (Z.ltb_spec x (a + 1)); cbn [andb]; first [lia | done | by destruct (_ && _)].
Qed.
End Picture.

Lemma column_loop_spec n sx addr stride fb_stride fb_rows x0 y0 h src run fb : 0 < h -> 0 <= y0 /\ y0 + h <= fb_stride -> 0 <= fb_rows /\ fb_rows * fb_stride < 2 ^ 32 ->
  0 <= x0 -> 0 <= sx -> 0 <= stride -> Forall is_u16 src -> run_ok run -> x0 + sx + Z.of_nat (S n) <= fb_rows -> fb_rows * fb_stride <= Z.of_nat (length fb) ->
  sx + Z.of_nat n + (h - 1) * stride < Z.of_nat (length src) ->
  column_loop (S n) sx addr stride fb_stride fb_rows x0 y0 (Z.to_nat h) src run fb = Some (blit_ref src stride fb_stride fb_rows x0 y0 h sx (sx + Z.of_nat (S n)) fb).
Proof.
  intros Hh Hy Hfb H0 Hsx Hst Hu. revert sx run fb Hsx. induction n as [|n IH]; intros sx run fb Hsx Hrun Hx Hl Hsrc.
  all: cbn [column_loop]; rewrite (column_dst_spec fb_stride fb_rows x0 y0 h Hh Hy Hfb sx) by (done || lia).
  all: assert (Hp : (fb_rows - 1 - (x0 + sx)) * fb_stride + y0 + h <= Z.of_nat (length fb)) by nia.
  all: assert (0 <= (fb_rows - 1 - (x0 + sx)) * fb_stride) by (apply Z.mul_nonneg_nonneg; lia).
  all: edestruct (run_loop_spec (S (Z.to_nat h)) (Z.to_nat h) (Z.to_nat ((fb_rows - 1 - (x0 + sx)) * fb_stride + y0)) addr sx stride src run fb) as (run' & -> & Hrun'); [lia|exact Hsx|exact Hst|exact Hu|exact Hrun|intros _; rewrite Z2Nat.id by lia; lia|lia|].
  all: cbn [mbind option_bind]; rewrite splice_column by (done || lia).
  - done.
  - fold column_loop. specialize (IH (sx + 1) run' (blit_ref src stride fb_stride fb_rows x0 y0 h sx (sx + 1) fb)). cbn [column_loop] in IH. rewrite IH by (rewrite ?length_blit_ref; done || lia).
    f_equal. replace (sx + 1 + Z.of_nat (S n)) with (sx + Z.of_nat (S n) + 1) by lia. rewrite blit_ref_step by lia. f_equal. lia.
Qed.

Lemma gfx_blit_rot_spec src stride fb addr fb_stride fb_rows x0 y0 w h run : 0 < w -> 0 < h -> 0 <= x0 /\ x0 + w <= fb_rows -> 0 <= y0 /\ y0 + h <= fb_stride -> fb_rows * fb_stride < 2 ^ 32 ->
  fb_rows * fb_stride <= Z.of_nat (length fb) -> 0 <= stride -> w - 1 + (h - 1) * stride < Z.of_nat (length src) -> Forall is_u16 src -> run_ok run ->
  gfx_blit_rot (Some src) stride (Some fb) addr fb_stride fb_rows x0 y0 w h run = Some (Some (blit_ref src stride fb_stride fb_rows x0 y0 h 0 w fb)).
Proof.
  intros. unfold gfx_blit_rot. rewrite (proj2 (Z.eqb_neq w 0)), (proj2 (Z.eqb_neq h 0)) by lia. cbn [orb].
  assert (Ew : w = Z.of_nat (S (Z.to_nat (w - 1)))) by lia. rewrite Ew at 1. rewrite Nat2Z.id, column_loop_spec by (done || lia). cbn [mbind option_bind]. by rewrite <-Ew.
Qed.

(** C29: the rotating blit never reads or writes outside its arrays and puts pixel
    [x] of source row [y] at row [fb_rows - 1 - (x0 + x)], column [y0 + y] of the frame
    buffer, every other pixel staying as it was, whatever the alignment of the frame
    buffer, the length of the runs and what the staging buffer held; a null pointer or
    an empty rectangle changes nothing. *)
Theorem gfx_blit_rot_correct src stride fb addr fb_stride fb_rows x0 y0 w h run : 0 <= w -> 0 <= h -> 0 <= x0 /\ x0 + w <= fb_rows -> 0 <= y0 /\ y0 + h <= fb_stride -> fb_rows * fb_stride < 2 ^ 32 ->
  fb_rows * fb_stride <= Z.of_nat (length fb) -> 0 <= stride -> w - 1 + (h - 1) * stride < Z.of_nat (length src) -> Forall is_u16 src -> run_ok run ->
  gfx_blit_rot (Some src) stride (Some fb) addr fb_stride fb_rows x0 y0 w h run = Some (Some (blit_ref src stride fb_stride fb_rows x0 y0 h 0 w fb)) /\
  gfx_blit_rot None stride (Some fb) addr fb_stride fb_rows x0 y0 w h run = Some (Some fb) /\ gfx_blit_rot (Some src) stride None addr fb_stride fb_rows x0 y0 w h run = Some None /\
  (w = 0 \/ h = 0 -> blit_ref src stride fb_stride fb_rows x0 y0 h 0 w fb = fb) /\
  (forall x y, 0 <= x < w -> 0 <= y < h -> blit_ref src stride fb_stride fb_rows x0 y0 h 0 w fb !! Z.to_nat ((fb_rows - 1 - (x0 + x)) * fb_stride + y0 + y) = src !! Z.to_nat (x + y * stride)).
Proof.
  intros Hw Hh Hx Hy H32 Hl Hst Hsrc Hu Hrun.
  assert (Hid : w = 0 \/ h = 0 -> blit_ref src stride fb_stride fb_rows x0 y0 h 0 w fb = fb).
  { intros Hz. apply list_eq. intros k. unfold blit_ref. rewrite list_lookup_imap. destruct (fb !! k); [|done]. cbn. f_equal. unfold rotated. destruct (_ && _) eqn:E; [|done].
    rewrite !andb_true_iff, !Z.leb_le, !Z.ltb_lt in E. lia. }
  split_and!; [|done..| |].
  - destruct (decide (w = 0)) as [->|?]; [by cbn; rewrite Hid by lia|]. destruct (decide (h = 0)) as [->|?]; [cbn; rewrite orb_true_r, Hid by lia; done|]. apply gfx_blit_rot_spec; (done || lia).
  - exact Hid.
  - intros x y Hx' Hy'. set (r := fb_rows - 1 - (x0 + x)). assert (0 <= r * fb_stride) by (apply Z.mul_nonneg_nonneg; unfold r; lia). assert (r * fb_stride + fb_stride <= fb_rows * fb_stride) by (unfold r; nia).
    unfold blit_ref. rewrite list_lookup_imap. destruct (lookup_lt_is_Some_2 fb (Z.to_nat (r * fb_stride + y0 + y))) as [v Hv]; [lia|]. rewrite Hv. cbn. destruct (lookup_lt_is_Some_2 src (Z.to_nat (x + y * stride))) as [p Hp]; [nia|].
    rewrite Hp. f_equal. unfold rotated. rewrite Z2Nat.id by lia. replace (r * fb_stride + y0 + y) with (y0 + y + r * fb_stride) by lia. rewrite Z.div_add, Z.mod_add, Z.div_small, Z.mod_small by lia.
    replace (fb_rows - 1 - (0 + r) - x0) with x by (unfold r; lia). replace (y0 + y - y0) with y by lia. rewrite !(proj2 (Z.leb_le _ _)), !(proj2 (Z.ltb_lt _ _)) by lia. cbn. by rewrite Hp.
Qed.

(** ** A run: three columns of five pixels, with an odd tail, at an even and at an odd place *)

Module RotRun.
Definition src : list Z := [11; 21; 31; 0; 12; 22; 32; 0; 13; 23; 33; 0; 14; 24; 34; 0; 15; 25; 35].
Definition fb : list Z := replicate 28 9.
Definition stack : list Z := replicate 64 7.

Example blit_even : gfx_blit_rot (Some src) 4 (Some fb) 4096 7 4 1 1 3 5 stack =
  Some (Some [9; 31; 32; 33; 34; 35; 9;  9; 21; 22; 23; 24; 25; 9;  9; 11; 12; 13; 14; 15; 9;  9; 9; 9; 9; 9; 9; 9]).
Proof. vm_compute. reflexivity. Qed.
Example blit_odd : gfx_blit_rot (Some src) 4 (Some fb) 4098 7 4 1 1 3 5 stack = gfx_blit_rot (Some src) 4 (Some fb) 4096 7 4 1 1 3 5 stack.
Proof. vm_compute. reflexivity. Qed.

Lemma run_ok_stack : run_ok stack.
Proof. split; [done|]. apply Forall_replicate. unfold is_u16; lia. Qed.

Lemma gfx_blit_rot_witness : gfx_blit_rot (Some src) 4 (Some fb) 4096 7 4 1 1 3 5 stack = Some (Some (blit_ref src 4 7 4 1 1 5 0 3 fb)) /\
  blit_ref src 4 7 4 1 1 5 0 3 fb !! 12%nat = Some 25.
Proof.
  assert (U : Forall is_u16 src) by (repeat constructor; unfold is_u16; lia).
  destruct (gfx_blit_rot_correct src 4 fb 4096 7 4 1 1 3 5 stack ltac:(lia) ltac:(lia) ltac:(lia) ltac:(lia) ltac:(lia) ltac:(vm_compute; discriminate) ltac:(lia) ltac:(vm_compute; reflexivity) U run_ok_stack) as (E & _ & _ & _ & P).
  split; [exact E|]. exact (P 1 4 ltac:(lia) ltac:(lia)).
Defined.
End RotRun.
