(* ===== verification/CamBand.v ===== *)
(** * The camera's band stream and its two clients ([src/app/cam_band.c])

    The camera delivers a frame as four bands, from a producer thread of its own
    ([src/port/camera/camera.c], the band half), through one callback that [cam_band.c]
    owns and fans out to the preview and to the neural network.  Any number of threads
    claim, release, ask and stop; the interrupts count completed transfers.  A step
    of the world is one section with interrupts masked or one access outside of it. *)

From stdpp Require Import functions relations.
From S2P Require Import Prelude.
Local Open Scope Z_scope.

Definition CAMERA_BANDS_PER_FRAME : Z := 4.
Definition CAM_BAND_PREVIEW : nat := 0.
Definition CAM_BAND_NN : nat := 1.
Definition CAM_BAND_CLIENTS : nat := 2.
Definition CAM_BAND_OK : Z := 0.
Definition CAM_BAND_ERR_ARG : Z := -1.
Definition CAM_BAND_ERR_START : Z := -2.
Definition CAM_BAND_ERR_BUSY : Z := -3.
Definition CAM_BAND_ERR_STOP : Z := -4.
Definition CAM_BAND_ERR_LOCK : Z := -5.
Definition CAM_BAND_DRAIN_TICKS : nat := 200.
Definition CAM_BAND_LOCK_TICKS : nat := 2000.
Definition CAM_ERR_TIMEOUT : Z := -3.

(** ** The state *)

(** The camera.  [dma]: a band transfer is running; [locked]: [cam_lock]; [start_sem]:
    the tokens of [cam_start_sem]; [dma_ct]: the buffer the DMA fills now, the CT bit of its
    control register.  Of the run, for the statements: [handed], the bands picked for the
    callback, the last one first, each with whether the DMA came back to the band's buffer
    -- completed a transfer -- before the producer was done with it.  No code reads or
    writes that mark: [next] sets it on the completion itself. *)
Record camera : Type := Camera {
  cam_stream_active : bool; cam_band_mode : bool; cam_band_cb : bool; cam_stop_req : bool; cam_stream_err : bool;
  cam_band_seq : Z; cam_band_next : Z; cam_band_sync : bool; cam_band_ct0 : Z;
  cam_band_frames : Z; cam_band_late : Z; cam_band_torn : Z; cam_band_desync : Z;
  dma : bool; locked : bool; start_sem : nat; handed : list (Z * bool); dma_ct : Z
}.
Definition camera_init : camera := Camera false false false false false 0 0 false 0 0 0 0 0 false false 0 [] 0.

Definition set_active (b : bool) (c : camera) : camera := Camera b (cam_band_mode c) (cam_band_cb c) (cam_stop_req c) (cam_stream_err c) (cam_band_seq c) (cam_band_next c) (cam_band_sync c) (cam_band_ct0 c) (cam_band_frames c) (cam_band_late c) (cam_band_torn c) (cam_band_desync c) (dma c) (locked c) (start_sem c) (handed c) (dma_ct c).
Definition set_mode (b : bool) (c : camera) : camera := Camera (cam_stream_active c) b (cam_band_cb c) (cam_stop_req c) (cam_stream_err c) (cam_band_seq c) (cam_band_next c) (cam_band_sync c) (cam_band_ct0 c) (cam_band_frames c) (cam_band_late c) (cam_band_torn c) (cam_band_desync c) (dma c) (locked c) (start_sem c) (handed c) (dma_ct c).
Definition set_cb (b : bool) (c : camera) : camera := Camera (cam_stream_active c) (cam_band_mode c) b (cam_stop_req c) (cam_stream_err c) (cam_band_seq c) (cam_band_next c) (cam_band_sync c) (cam_band_ct0 c) (cam_band_frames c) (cam_band_late c) (cam_band_torn c) (cam_band_desync c) (dma c) (locked c) (start_sem c) (handed c) (dma_ct c).
Definition set_requests (stop err : bool) (c : camera) : camera := Camera (cam_stream_active c) (cam_band_mode c) (cam_band_cb c) stop err (cam_band_seq c) (cam_band_next c) (cam_band_sync c) (cam_band_ct0 c) (cam_band_frames c) (cam_band_late c) (cam_band_torn c) (cam_band_desync c) (dma c) (locked c) (start_sem c) (handed c) (dma_ct c).
Definition set_band_seq (n : Z) (c : camera) : camera := Camera (cam_stream_active c) (cam_band_mode c) (cam_band_cb c) (cam_stop_req c) (cam_stream_err c) n (cam_band_next c) (cam_band_sync c) (cam_band_ct0 c) (cam_band_frames c) (cam_band_late c) (cam_band_torn c) (cam_band_desync c) (dma c) (locked c) (start_sem c) (handed c) (dma_ct c).
Definition set_place (nxt : Z) (sync : bool) (late : Z) (c : camera) : camera := Camera (cam_stream_active c) (cam_band_mode c) (cam_band_cb c) (cam_stop_req c) (cam_stream_err c) (cam_band_seq c) nxt sync (cam_band_ct0 c) (cam_band_frames c) late (cam_band_torn c) (cam_band_desync c) (dma c) (locked c) (start_sem c) (handed c) (dma_ct c).
Definition set_checked (sync : bool) (frames torn : Z) (c : camera) : camera := Camera (cam_stream_active c) (cam_band_mode c) (cam_band_cb c) (cam_stop_req c) (cam_stream_err c) (cam_band_seq c) (cam_band_next c) sync (cam_band_ct0 c) frames (cam_band_late c) torn (cam_band_desync c) (dma c) (locked c) (start_sem c) (handed c) (dma_ct c).
Definition set_handed (h : list (Z * bool)) (c : camera) : camera := Camera (cam_stream_active c) (cam_band_mode c) (cam_band_cb c) (cam_stop_req c) (cam_stream_err c) (cam_band_seq c) (cam_band_next c) (cam_band_sync c) (cam_band_ct0 c) (cam_band_frames c) (cam_band_late c) (cam_band_torn c) (cam_band_desync c) (dma c) (locked c) (start_sem c) h (dma_ct c).
Definition set_ct (n : Z) (c : camera) : camera := Camera (cam_stream_active c) (cam_band_mode c) (cam_band_cb c) (cam_stop_req c) (cam_stream_err c) (cam_band_seq c) (cam_band_next c) (cam_band_sync c) (cam_band_ct0 c) (cam_band_frames c) (cam_band_late c) (cam_band_torn c) (cam_band_desync c) (dma c) (locked c) (start_sem c) (handed c) n.
Definition set_desync (n : Z) (c : camera) : camera := Camera (cam_stream_active c) (cam_band_mode c) (cam_band_cb c) (cam_stop_req c) (cam_stream_err c) (cam_band_seq c) (cam_band_next c) (cam_band_sync c) (cam_band_ct0 c) (cam_band_frames c) (cam_band_late c) (cam_band_torn c) n (dma c) (locked c) (start_sem c) (handed c) (dma_ct c).
Definition set_dma (b : bool) (c : camera) : camera := Camera (cam_stream_active c) (cam_band_mode c) (cam_band_cb c) (cam_stop_req c) (cam_stream_err c) (cam_band_seq c) (cam_band_next c) (cam_band_sync c) (cam_band_ct0 c) (cam_band_frames c) (cam_band_late c) (cam_band_torn c) (cam_band_desync c) b (locked c) (start_sem c) (handed c) (dma_ct c).
(** The start of the transfers: the first one fills the buffer [ct], which [cam_band_ct0] is read from. *)
Definition start_dma (ct : Z) (c : camera) : camera := Camera (cam_stream_active c) (cam_band_mode c) (cam_band_cb c) (cam_stop_req c) (cam_stream_err c) (cam_band_seq c) (cam_band_next c) (cam_band_sync c) ct (cam_band_frames c) (cam_band_late c) (cam_band_torn c) (cam_band_desync c) true (locked c) (start_sem c) (handed c) ct.
Definition set_os (lock : bool) (sem : nat) (c : camera) : camera := Camera (cam_stream_active c) (cam_band_mode c) (cam_band_cb c) (cam_stop_req c) (cam_stream_err c) (cam_band_seq c) (cam_band_next c) (cam_band_sync c) (cam_band_ct0 c) (cam_band_frames c) (cam_band_late c) (cam_band_torn c) (cam_band_desync c) (dma c) lock sem (handed c) (dma_ct c).

(** The statics of [cam_band.c]; a client function is a number, 0 for NULL. *)
Record band : Type := Band {
  band_claimed : nat -> bool; band_cb_active : nat -> Z; band_fn : nat -> Z;
  band_lost : bool; band_arming : bool; band_colorbar : Z; band_api_busy : bool
}.
Definition band_init : band := Band (fun _ => false) (fun _ => 0) (fun _ => 0) false false 0 false.

Definition set_claimed (c : nat) (b : bool) (s : band) : band := Band (<[c := b]> (band_claimed s)) (band_cb_active s) (band_fn s) (band_lost s) (band_arming s) (band_colorbar s) (band_api_busy s).
Definition publish_claim (c : nat) (fn : Z) (s : band) : band := Band (<[c := true]> (band_claimed s)) (band_cb_active s) (<[c := fn]> (band_fn s)) (band_lost s) (band_arming s) (band_colorbar s) (band_api_busy s).
Definition set_cb_active (c : nat) (n : Z) (s : band) : band := Band (band_claimed s) (<[c := n]> (band_cb_active s)) (band_fn s) (band_lost s) (band_arming s) (band_colorbar s) (band_api_busy s).
Definition set_lost (b : bool) (s : band) : band := Band (band_claimed s) (band_cb_active s) (band_fn s) b (band_arming s) (band_colorbar s) (band_api_busy s).
Definition set_arming (b : bool) (s : band) : band := Band (band_claimed s) (band_cb_active s) (band_fn s) (band_lost s) b (band_colorbar s) (band_api_busy s).
Definition set_colorbar (n : Z) (s : band) : band := Band (band_claimed s) (band_cb_active s) (band_fn s) (band_lost s) (band_arming s) n (band_api_busy s).
Definition set_busy (b : bool) (s : band) : band := Band (band_claimed s) (band_cb_active s) (band_fn s) (band_lost s) (band_arming s) (band_colorbar s) b.

Record shared : Type := Shared { cam : camera; fan : band }.
Definition on_cam (f : camera -> camera) (s : shared) : shared := Shared (f (cam s)) (fan s).
Definition on_fan (f : band -> band) (s : shared) : shared := Shared (cam s) (f (fan s)).

(** ** The interrupts *)

(** [cam_stream_dma_cb], of a completed transfer. *)
Definition cam_stream_dma_cb (c : camera) : camera :=
  if negb (cam_stream_active c) then c else if cam_band_mode c then set_band_seq (cam_band_seq c +% 1) c else c.
(** A transfer error, or an overrun, of which the HAL has aborted the DMA already. *)
Definition cam_stream_error (abort : bool) (c : camera) : camera :=
  let c' := if abort then set_dma false c else c in
  if negb (cam_stream_active c) then c' else set_requests (cam_stop_req c) true c'.
Definition HAL_DCMI_FrameEventCallback (c : camera) : camera :=
  if cam_band_mode c then
    let phase := cam_band_seq c mod CAMERA_BANDS_PER_FRAME in
    if negb (phase =? 0) && negb (phase =? CAMERA_BANDS_PER_FRAME - 1) then set_desync (cam_band_desync c +% 1) c else c
  else c.

(** ** The producer *)

(** The camera's thread: idle, about to service, tearing down, in the band service with
    the sample of the counter, in the fan-out. *)
Inductive producer : Type :=
| Q_loop | Q_wait | Q_tick | Q_service | Q_mode | Q_band
| Q_call (seq newest : Z) | Q_lost (seq newest : Z) | Q_fan (i : nat) (seq newest : Z) | Q_in (i : nat) (fn seq newest : Z) | Q_out (i : nat) (seq newest : Z) | Q_check (seq newest : Z)
| Q_stop | Q_stop_mode | Q_stop_cb | Q_stop_active.

(** The band the producer has picked and is not done with, and the sample it was picked on. *)
Definition handing (q : producer) : option (Z * Z) :=
  match q with
  | Q_call s n | Q_lost s n | Q_fan _ s n | Q_in _ _ s n | Q_out _ s n | Q_check s n => Some (s, n)
  | _ => None
  end.

(** A transfer completes: the DMA turns to the other buffer, which is that of the band in
    the producer's hands, if there is one. *)
Definition mark_torn (h : list (Z * bool)) : list (Z * bool) := match h with (n, _) :: h => (n, true) :: h | [] => [] end.
Definition dma_turns (q : producer) (c : camera) : camera :=
  set_ct (1 - dma_ct c) (match handing q with Some _ => set_handed (mark_torn (handed c)) c | None => c end).

(** [cam_band_service] up to the callback, on a sample [seq] of the counter: [None] when
    there is nothing to hand over. *)
Definition cam_band_service (seq : Z) (c : camera) : camera * option Z :=
  if seq =? 0 then (c, None)
  else
    let newest := seq -% 1 in
    if newest <? cam_band_next c then (c, None)
    else
      let hole := cam_band_next c <? newest in
      let late := if hole then cam_band_late c +% (newest -% cam_band_next c) else cam_band_late c in
      let sync := if hole then false else cam_band_sync c in
      let c := set_place (newest +% 1) sync late c in
      if negb sync then
        if negb (newest mod CAMERA_BANDS_PER_FRAME =? 0) then (c, None) else (set_place (newest +% 1) true late c, Some newest)
      else (c, Some newest).

(** The band's buffer. *)
Definition band_buf (newest : Z) (c : camera) : Z := (cam_band_ct0 c +% newest) mod 2.

(** After the callback. *)
Definition band_check (seq newest : Z) (c : camera) : camera :=
  if negb (cam_band_seq c =? seq) then set_checked false (cam_band_frames c) (cam_band_torn c +% 1) c
  else if newest mod CAMERA_BANDS_PER_FRAME =? CAMERA_BANDS_PER_FRAME - 1 then set_checked (cam_band_sync c) (cam_band_frames c +% 1) (cam_band_torn c) c
  else c.

Definition cam_band_fanout (q : producer) (s : shared) : option (producer * shared) :=
  let c := cam s in let b := fan s in
  match q with
  | Q_lost seq n => Some (if band_lost b then Q_check seq n else Q_fan 0 seq n, s)
  | Q_fan i seq n =>
      if (i <? CAM_BAND_CLIENTS)%nat then
        let fn := if band_claimed b i then band_fn b i else 0 in
        if fn =? 0 then Some (Q_fan (S i) seq n, s) else Some (Q_in i fn seq n, on_fan (set_cb_active i (u8 (band_cb_active b i + 1))) s)
      else Some (Q_check seq n, s)
  | Q_in i _ seq n => Some (Q_out i seq n, s)
  | Q_out i seq n => Some (Q_fan (S i) seq n, on_fan (set_cb_active i (u8 (band_cb_active b i - 1))) s)
  | _ => None
  end.
Definition cam_stream_teardown (q : producer) (s : shared) : option (producer * shared) :=
  let c := cam s in let b := fan s in
  match q with
  | Q_stop => Some (if cam_band_mode c then Q_stop_mode else Q_stop_active, on_cam (fun c => set_os (locked c) 0 (set_dma false c)) s)
  | Q_stop_mode => Some (Q_stop_cb, on_cam (set_mode false) s)
  | Q_stop_cb => Some (Q_stop_active, on_cam (set_cb false) s)
  | Q_stop_active => Some (Q_loop, on_cam (set_active false) s)
  | _ => None
  end.

(** [cam_stream_service], its head.  [finish]: a frame stream has reached its target. *)
Definition cam_stream_service (finish : bool) (q : producer) (s : shared) : option (producer * shared) :=
  let c := cam s in
  match q with
  | Q_service => Some (if cam_stop_req c || cam_stream_err c || finish && negb (cam_band_mode c) then Q_stop else Q_mode, s)
  | Q_mode => Some (if cam_band_mode c then Q_band else Q_loop, s)
  | _ => None
  end.

(** One access of the producer. *)
Definition produce (finish : bool) (q : producer) (s : shared) : option (producer * shared) :=
  let c := cam s in let b := fan s in
  match q with
  | Q_loop => Some (if cam_stream_active c then Q_tick else Q_wait, s)
  | Q_wait => match start_sem c with O => None | S n => Some (Q_loop, on_cam (set_os (locked c) n) s) end
  | Q_tick => Some (Q_service, s)
  | Q_band => let seq := cam_band_seq c in let '(c, r) := cam_band_service seq c in Some (match r with Some n => (Q_call seq n, Shared (set_handed ((n, false) :: handed c) c) b) | None => (Q_loop, Shared c b) end)
  | Q_call seq n => Some (if cam_band_cb c then Q_lost seq n else Q_check seq n, s)
  | Q_check seq n => Some (Q_loop, on_cam (band_check seq n) s)
  | Q_service | Q_mode => cam_stream_service finish q s
  | Q_lost _ _ | Q_fan _ _ _ | Q_in _ _ _ _ | Q_out _ _ _ => cam_band_fanout q s
  | Q_stop | Q_stop_mode | Q_stop_cb | Q_stop_active => cam_stream_teardown q s
  end.

(** ** The calls *)

Inductive op : Type := O_claim (c : nat) (colorbar fn : Z) | O_release (c : nat) | O_lost | O_stop.

(** The next access of a thread inside a call; [P_idle] holds the last result. *)
Inductive pc : Type :=
| P_idle (rc : Z)
| P_lock (tries : nat) (o : op) | P_unlock (rc : Z) (o : op)
(** [camera_band_streaming], [cam_band_any_claimed], [camera_stream_stop] *)
| P_streaming (o : op) | P_streaming_mode (o : op) | P_any (i : nat) (o : op)
| P_stop (o : op) | P_stop_req (o : op) | P_stop_wait (waited : Z) (o : op) | P_stop_done (o : op)
(** [cam_band_claim] *)
| P_clear (o : op) | P_arming (o : op) | P_publish (need_start : bool) (o : op) | P_colorbar (o : op)
| P_cam_lock (o : op) | P_cam_reset (o : op) | P_cam_mode (o : op) | P_cam_active (o : op) | P_cam_dma (o : op) | P_cam_wake (o : op) | P_cam_undo (o : op) | P_cam_undo_cb (o : op)
| P_disarm (ok : bool) (o : op) | P_unclaim (o : op)
(** [cam_band_release] *)
| P_drop (o : op) | P_drain (tries : nat) (o : op) | P_drained (o : op) | P_unlost (o : op)
(** [cam_band_stream_lost] *)
| P_lost | P_lost_arming | P_latch | P_lost_result.

Definition band_enter (o : op) : pc :=
  match o with
  | O_claim c _ fn => if (CAM_BAND_CLIENTS <=? c)%nat || (fn =? 0) then P_idle CAM_BAND_ERR_ARG else P_lock 0 o
  | O_release c => if (CAM_BAND_CLIENTS <=? c)%nat then P_idle CAM_BAND_ERR_ARG else P_lock 0 o
  | O_lost => P_lost
  | O_stop => P_stop o
  end.

Definition client_of (o : op) : nat := match o with O_claim c _ _ | O_release c => c | _ => CAM_BAND_CLIENTS end.
Definition fn_of (o : op) : Z := match o with O_claim _ _ fn => fn | _ => 0 end.
Definition colorbar_of (o : op) : Z := match o with O_claim _ cb _ => cb | _ => 0 end.

(** What a caller does with the answer of [camera_band_streaming]. *)
Definition after_streaming (o : op) (yes : bool) : pc :=
  match o with
  | O_claim _ _ _ => if yes then P_publish false o else P_arming o
  | O_release _ => if yes then P_stop o else P_unlock CAM_BAND_OK o
  | _ => if yes then P_lost_result else P_latch
  end.
Definition after_any (o : op) (yes : bool) : pc :=
  match o with O_release _ => if yes then P_unlock CAM_BAND_OK o else P_unlost o | _ => if yes then P_streaming o else P_lost_result end.
Definition after_stop (o : op) (ok : bool) : pc :=
  match o with O_release _ => P_unlock (if ok then CAM_BAND_OK else CAM_BAND_ERR_STOP) o | _ => P_idle (if ok then 0 else CAM_ERR_TIMEOUT) end.

(** [cam_band_start_locked]: the fields of a new stream. *)
Definition band_reset (c : camera) : camera := Camera (cam_stream_active c) (cam_band_mode c) true false false 0 0 false (cam_band_ct0 c) 0 0 0 0 (dma c) (locked c) 0 [] (dma_ct c).

(** [band_api_lock], [band_api_unlock]. *)
Definition band_api (p : pc) (s : shared) : option (pc * shared) :=
  let c := cam s in let b := fan s in
  match p with
  | P_lock tries o =>
      if (tries <? CAM_BAND_LOCK_TICKS)%nat then
        if band_api_busy b then Some (P_lock (S tries) o, s)
        else Some (match o with O_claim _ _ _ => P_clear o | _ => P_drop o end, on_fan (set_busy true) s)
      else Some (P_idle CAM_BAND_ERR_LOCK, s)
  | P_unlock rc _ => Some (P_idle rc, on_fan (set_busy false) s)
  | _ => None
  end.
(** [camera_band_streaming], [cam_band_any_claimed]. *)
Definition looking (p : pc) (s : shared) : option (pc * shared) :=
  let c := cam s in let b := fan s in
  match p with
  | P_streaming o => Some (if cam_stream_active c then P_streaming_mode o else after_streaming o false, s)
  | P_streaming_mode o => Some (after_streaming o (cam_band_mode c), s)
  | P_any i o => Some (if (i <? CAM_BAND_CLIENTS)%nat then if band_claimed b i then after_any o true else P_any (S i) o else after_any o false, s)
  | _ => None
  end.
Definition camera_stream_stop (p : pc) (s : shared) : option (pc * shared) :=
  let c := cam s in let b := fan s in
  match p with
  | P_stop o => Some (if cam_stream_active c then P_stop_req o else after_stop o true, s)
  | P_stop_req o => Some (P_stop_wait 0 o, on_cam (fun c => set_requests true (cam_stream_err c) c) s)
  | P_stop_wait n o => Some (if cam_stream_active c && (n <? 1000) then P_stop_wait (n + 5) o else P_stop_done o, s)
  | P_stop_done o => Some (after_stop o (negb (cam_stream_active c)), s)
  | _ => None
  end.
(** [ok]: what the sensor's configuration and the HAL's start of
    the transfer answer, and [ct0] the buffer its first transfer fills; the HAL refuses a
    start while a transfer runs.  Simplified: a start that the HAL refuses ([P_cam_undo])
    leaves [cam_stream_active] alone here, where the code sets it before the HAL's call and
    clears it after; what another thread may do on seeing it in that window is not
    modelled. *)
Definition camera_band_start (ok : bool) (ct0 : Z) (p : pc) (s : shared) : option (pc * shared) :=
  let c := cam s in let b := fan s in
  match p with
  | P_cam_lock o =>
      if locked c then None
      else if ok && negb (cam_stream_active c) then Some (P_cam_reset o, on_cam (fun c => set_os true (start_sem c) c) s) else Some (P_disarm false o, s)
  | P_cam_reset o => Some (P_cam_mode o, on_cam band_reset s)
  | P_cam_mode o => Some (if ok && negb (dma c) then P_cam_active o else P_cam_undo o, on_cam (set_mode true) s)
  | P_cam_active o => Some (P_cam_dma o, on_cam (set_active true) s)
  | P_cam_dma o => Some (P_cam_wake o, on_cam (start_dma (ct0 mod 2)) s)
  | P_cam_wake o => Some (P_disarm true o, on_cam (fun c => set_os false (S (start_sem c)) c) s)
  | P_cam_undo o => Some (P_cam_undo_cb o, on_cam (set_mode false) s)
  | P_cam_undo_cb o => Some (P_disarm false o, on_cam (fun c => set_os false (start_sem c) (set_cb false c)) s)
  | _ => None
  end.
Definition cam_band_claim (p : pc) (s : shared) : option (pc * shared) :=
  let c := cam s in let b := fan s in
  match p with
  | P_clear o => Some (P_streaming o, on_fan (set_lost false) s)
  | P_arming o => Some (P_publish true o, on_fan (set_arming true) s)
  | P_publish need_start o => Some (if need_start then P_colorbar o else P_unlock CAM_BAND_OK o, on_fan (publish_claim (client_of o) (fn_of o)) s)
  | P_colorbar o => Some (P_cam_lock o, on_fan (set_colorbar (colorbar_of o)) s)
  | P_disarm started o => Some (if started then P_unlock CAM_BAND_OK o else P_unclaim o, on_fan (set_arming false) s)
  | P_unclaim o => Some (P_unlock CAM_BAND_ERR_START o, on_fan (set_claimed (client_of o) false) s)
  | _ => None
  end.
Definition cam_band_release (p : pc) (s : shared) : option (pc * shared) :=
  let c := cam s in let b := fan s in
  match p with
  | P_drop o => Some (P_drain CAM_BAND_DRAIN_TICKS o, on_fan (set_claimed (client_of o) false) s)
  | P_drain tries o =>
      Some (match tries with S tries' => if band_cb_active b (client_of o) =? 0 then P_drained o else P_drain tries' o | O => P_drained o end, s)
  | P_drained o => Some (if band_cb_active b (client_of o) =? 0 then P_any 0 o else P_unlock CAM_BAND_ERR_BUSY o, s)
  | P_unlost o => Some (P_streaming o, on_fan (set_lost false) s)
  | _ => None
  end.
Definition cam_band_stream_lost (p : pc) (s : shared) : option (pc * shared) :=
  let c := cam s in let b := fan s in
  match p with
  | P_lost => Some (if band_lost b then P_lost_result else P_lost_arming, s)
  | P_lost_arming => Some (if band_arming b then P_lost_result else P_any 0 O_lost, s)
  | P_latch => Some (P_lost_result, on_fan (set_lost true) s)
  | P_lost_result => Some (P_idle (if band_lost b then 1 else 0), s)
  | _ => None
  end.

(** One access of a thread. *)
Definition band_access (ok : bool) (ct0 : Z) (p : pc) (s : shared) : option (pc * shared) :=
  match p with
  | P_idle _ => None
  | P_lock _ _ | P_unlock _ _ => band_api p s
  | P_streaming _ | P_streaming_mode _ | P_any _ _ => looking p s
  | P_stop _ | P_stop_req _ | P_stop_wait _ _ | P_stop_done _ => camera_stream_stop p s
  | P_cam_lock _ | P_cam_reset _ | P_cam_mode _ | P_cam_active _ | P_cam_dma _ | P_cam_wake _ | P_cam_undo _ | P_cam_undo_cb _ => camera_band_start ok ct0 p s
  | P_clear _ | P_arming _ | P_publish _ _ | P_colorbar _ | P_disarm _ _ | P_unclaim _ => cam_band_claim p s
  | P_drop _ | P_drain _ _ | P_drained _ | P_unlost _ => cam_band_release p s
  | P_lost | P_lost_arming | P_latch | P_lost_result => cam_band_stream_lost p s
  end.

(** ** The world *)

Record world : Type := World { state : shared; prod : producer; threads : list pc }.

(** A call, an access of a thread, of the producer, an interrupt, a frame stream or a
    snapshot taking the camera.  A stream is followed for its first 2^32 - 1 transfers. *)
Inductive move : Type :=
| M_call (a : nat) (o : op) | M_go (a : nat) (ok : bool) (ct0 : Z) | M_produce (finish : bool)
| M_complete | M_error (abort : bool) | M_frame_event | M_frame_stream.

Definition next (m : move) (w : world) : option world :=
  let s := state w in
  match m with
  | M_call a o => p ← threads w !! a; match p with P_idle _ => Some (World s (prod w) (<[a := band_enter o]> (threads w))) | _ => None end
  | M_go a ok ct0 => p ← threads w !! a; '(p, s) ← band_access ok ct0 p s; Some (World s (prod w) (<[a := p]> (threads w)))
  | M_produce finish => '(q, s) ← produce finish (prod w) s; Some (World s q (threads w))
  | M_complete => guard (dma (cam s) = true /\ cam_band_seq (cam s) + 1 < 2 ^ 32);; Some (World (on_cam (fun c => cam_stream_dma_cb (dma_turns (prod w) c)) s) (prod w) (threads w))
  | M_error abort => Some (World (on_cam (cam_stream_error abort) s) (prod w) (threads w))
  | M_frame_event => Some (World (on_cam HAL_DCMI_FrameEventCallback s) (prod w) (threads w))
  | M_frame_stream => guard (locked (cam s) = false /\ cam_stream_active (cam s) = false);; Some (World (on_cam (fun c => set_active true (set_requests false false (set_os false 1 c))) s) (prod w) (threads w))
  end.
Definition step (w w' : world) : Prop := exists m, next m w = Some w'.

Definition band_boot (n : nat) : world := World (Shared camera_init band_init) Q_loop (replicate n (P_idle 0)).
Definition reach (n : nat) : world -> Prop := rtc step (band_boot n).

Definition run (ms : list move) (w : world) : option world := foldl (fun w m => w ← w; next m w) (Some w) ms.

(** ** Invariants *)

Notation active s := (cam_stream_active (cam s)).
Notation mode s := (cam_band_mode (cam s)).
Notation cam_locked s := (locked (cam s)).
Notation claimed s := (band_claimed (fan s)).
Notation inside s := (band_cb_active (fan s)).

(** No band stream; a client that gets no band and is in none. *)
Definition down (s : shared) : Prop := active s = true -> mode s = false.
Definition quiet (c : nat) (s : shared) : Prop := claimed s c = false /\ inside s c = 0.
Definition none_claimed (i : nat) (s : shared) : Prop := forall j, (j < i)%nat -> claimed s j = false.

Definition is_claim (o : op) : Prop := match o with O_claim c _ fn => (c < CAM_BAND_CLIENTS)%nat /\ fn <> 0 | _ => False end.
Definition is_release (o : op) : Prop := match o with O_release c => (c < CAM_BAND_CLIENTS)%nat | _ => False end.

(** Who holds [band_api_busy]. *)
Definition in_section (p : pc) : bool :=
  match p with
  | P_unlock _ _ | P_clear _ | P_arming _ | P_publish _ _ | P_colorbar _ | P_cam_lock _ | P_cam_reset _ | P_cam_mode _ | P_cam_active _ | P_cam_dma _ | P_cam_wake _ | P_cam_undo _ | P_cam_undo_cb _
  | P_disarm _ _ | P_unclaim _ | P_drop _ | P_drain _ _ | P_drained _ | P_unlost _ => true
  | P_streaming o | P_streaming_mode o | P_any _ o | P_stop o | P_stop_req o | P_stop_wait _ o | P_stop_done o => match o with O_claim _ _ _ | O_release _ => true | _ => false end
  | _ => false
  end.

(** What a thread in a call knows. *)
Definition local (p : pc) (s : shared) : Prop :=
  match p with
  | P_lock _ o => is_claim o \/ is_release o
  | P_unlock rc o =>
      (is_claim o \/ is_release o) /\ (is_claim o -> rc = CAM_BAND_ERR_START -> quiet (client_of o) s) /\
      (is_release o -> rc = CAM_BAND_OK -> quiet (client_of o) s /\ ((exists j, claimed s j = true) \/ down s))
  | P_streaming o | P_streaming_mode o =>
      is_claim o \/ o = O_lost \/ (is_release o /\ quiet (client_of o) s /\ none_claimed CAM_BAND_CLIENTS s)
  | P_any i o => o = O_lost \/ (is_release o /\ quiet (client_of o) s /\ none_claimed i s)
  | P_stop o | P_stop_req o | P_stop_wait _ o | P_stop_done o => o = O_stop \/ (is_release o /\ quiet (client_of o) s /\ none_claimed CAM_BAND_CLIENTS s)
  | P_clear o => is_claim o
  | P_arming o | P_publish true o | P_colorbar o | P_cam_lock o | P_disarm false o | P_unclaim o => is_claim o /\ down s
  | P_publish false o | P_disarm true o => is_claim o
  | P_cam_reset o | P_cam_undo_cb o => is_claim o /\ cam_locked s = true /\ active s = false /\ mode s = false
  | P_cam_mode o => is_claim o /\ cam_locked s = true /\ active s = false /\ mode s = false /\ cam_band_cb (cam s) = true
  | P_cam_active o | P_cam_undo o => is_claim o /\ cam_locked s = true /\ active s = false /\ cam_band_cb (cam s) = true
  | P_cam_dma o | P_cam_wake o => is_claim o /\ cam_locked s = true /\ (mode s = true -> active s = true)
  | P_drop o => is_release o
  | P_drain _ o | P_drained o => is_release o /\ claimed s (client_of o) = false
  | P_unlost o => is_release o /\ quiet (client_of o) s /\ none_claimed CAM_BAND_CLIENTS s
  | P_idle _ | P_lost | P_lost_arming | P_latch | P_lost_result => True
  end.

(** What the others leave alone while a thread has the section. *)
Definition undisturbed (s s' : shared) : Prop :=
  (down s -> down s') /\ claimed s' = claimed s /\ (forall c, claimed s c = false -> inside s c = 0 -> inside s' c = 0) /\
  (cam_locked s = true -> cam_locked s' = true /\ (active s = false -> active s' = false /\ mode s' = mode s /\ cam_band_cb (cam s') = cam_band_cb (cam s))) /\
  ((mode s = true -> active s = true) -> mode s' = true -> active s' = true).

Lemma local_undisturbed p s s' : undisturbed s s' -> local p s -> local p s'.
Proof.
  intros (Hd & Hc & Hi & Hl & Hm).
  assert (Hq : forall c, quiet c s -> quiet c s') by (intros c [A B]; split; [by rewrite Hc|by apply Hi]).
  assert (Hn : forall i, none_claimed i s -> none_claimed i s') by (intros i A j Hj; rewrite Hc; by apply A).
  assert (Hs : forall (Q : Prop), cam_locked s = true -> active s = false -> (cam_locked s' = true -> active s' = false -> mode s' = mode s -> cam_band_cb (cam s') = cam_band_cb (cam s) -> Q) -> Q)
    by (intros Q A B K; destruct (Hl A) as [L M]; destruct (M B) as (N & O & P); by apply K).
  assert (Hr : forall o i, is_release o /\ quiet (client_of o) s /\ none_claimed i s -> is_release o /\ quiet (client_of o) s' /\ none_claimed i s') by (intros o i (A & B & C); eauto).
  destruct p; try match goal with b : bool |- _ => destruct b end; cbn [local]; rewrite ?Hc; try exact (fun x => x);
    try (intros (? & A & B & C); apply (Hs _ A B); intros E1 E2 E3 E4; rewrite E2, ?E3, ?E4; by auto); try (intros (? & A & B & C & D); apply (Hs _ A B); intros E1 E2 E3 E4; rewrite E2, ?E3, ?E4; by auto); try (intros (? & A & B); destruct (Hl A); eauto);
    try (intros [|]; [left|right]; by eauto); try (intros [|[|]]; by eauto); try (intros [? ?]; by eauto).
  intros (A & B & C). split; [done|]. split; [by auto|]. intros X Y. destruct (C X Y) as [D [E|E]]; auto.
Qed.

Lemma local_outside p s s' : in_section p = false -> local p s -> local p s'.
Proof. destruct p; try match goal with o : op |- _ => destruct o end; cbn; try done; intros _; (intros [?|[? _]]; [by left|done]) || (intros [?|[?|[? _]]]; [done|by right; left|done]). Qed.

Definition cam_ok (s : shared) : Prop := (mode s = true -> cam_band_cb (cam s) = true) /\ (mode s = true -> active s = true \/ cam_locked s = true).

(** The client whose callback runs. *)
Definition in_callback (i : nat) (q : producer) : bool := match q with Q_in j _ _ _ | Q_out j _ _ => (j =? i)%nat | _ => false end.

Definition prod_ok (q : producer) (s : shared) : Prop :=
  (forall i, inside s i = if in_callback i q then 1 else 0) /\
  match q with Q_loop | Q_wait => True | _ => active s = true end /\
  match q with
  | Q_band | Q_call _ _ | Q_lost _ _ | Q_fan _ _ _ | Q_in _ _ _ _ | Q_out _ _ _ | Q_check _ _ | Q_stop_mode => mode s = true
  | Q_stop_cb | Q_stop_active => mode s = false
  | _ => True
  end.

(** No client is in its callback while there is no band stream. *)
Lemma down_outside q s i : prod_ok q s -> down s -> in_callback i q = false.
Proof. intros (_ & A & B) D. destruct q; try done; specialize (D A); congruence. Qed.

Lemma undisturbed_refl s : undisturbed s s.
Proof. unfold undisturbed. tauto. Qed.

(** A change of the rest of the camera. *)
Definition same_flags (c c' : camera) : Prop := cam_stream_active c' = cam_stream_active c /\ cam_band_mode c' = cam_band_mode c /\ cam_band_cb c' = cam_band_cb c /\ locked c' = locked c.

Lemma same_flags_ok q c c' b : same_flags c c' -> cam_ok (Shared c b) -> prod_ok q (Shared c b) ->
  undisturbed (Shared c b) (Shared c' b) /\ cam_ok (Shared c' b) /\ prod_ok q (Shared c' b).
Proof. intros (A & B & C & D). unfold undisturbed, down, cam_ok, prod_ok. cbn. rewrite A, B, C, D. tauto. Qed.

Lemma band_service_flags seq c : same_flags c (fst (cam_band_service seq c)).
Proof. unfold cam_band_service. repeat case_match; by repeat split. Qed.
Lemma band_check_flags seq n c : same_flags c (band_check seq n c).
Proof. unfold band_check. repeat case_match; by repeat split. Qed.

Lemma in_callback_spec q s i : prod_ok q s -> in_callback i q = negb (inside s i =? 0).
Proof. intros [E _]. rewrite E. by destruct (in_callback i q). Qed.

(** *** The producer *)

Lemma produce_ok finish q q' s s' : cam_ok s -> prod_ok q s -> produce finish q s = Some (q', s') ->
  undisturbed s s' /\ cam_ok s' /\ prod_ok q' s' /\ band_api_busy (fan s') = band_api_busy (fan s).
Proof.
  destruct s as [c b]. intros Hc Hp E. pose proof Hp as (Hi & Ha & Hm). pose proof Hc as [Hcb Hl]. cbn in Hi, Ha, Hm, Hcb, Hl.
  assert (Hsame : forall q1 c1, same_flags c c1 -> prod_ok q1 (Shared c b) -> undisturbed (Shared c b) (Shared c1 b) /\ cam_ok (Shared c1 b) /\ prod_ok q1 (Shared c1 b) /\ band_api_busy b = band_api_busy b)
    by (intros q1 c1 F P; destruct (same_flags_ok q1 c c1 b F Hc P) as (? & ? & ?); auto).
  assert (Hkeep : forall q1, prod_ok q1 (Shared c b) -> undisturbed (Shared c b) (Shared c b) /\ cam_ok (Shared c b) /\ prod_ok q1 (Shared c b) /\ band_api_busy b = band_api_busy b) by auto using undisturbed_refl.
  assert (Hout : forall q1, (forall i, in_callback i q1 = in_callback i q) -> match q1 with Q_loop | Q_wait => True | _ => cam_stream_active c = true end ->
    match q1 with Q_band | Q_call _ _ | Q_lost _ _ | Q_fan _ _ _ | Q_in _ _ _ _ | Q_out _ _ _ | Q_check _ _ | Q_stop_mode => cam_band_mode c = true | Q_stop_cb | Q_stop_active => cam_band_mode c = false | _ => True end ->
    prod_ok q1 (Shared c b)) by (intros q1 F A M; split; [intros j; rewrite F; apply Hi|by split]).
  destruct q; cbn [produce cam_stream_service cam_band_fanout cam_stream_teardown cam fan] in E.
  - injection E as <- <-. apply Hkeep, Hout; by destruct (cam_stream_active c).
  - destruct (start_sem c); [done|]. injection E as <- <-. apply Hsame; [done|]. by apply Hout.
  - injection E as <- <-. by apply Hkeep, Hout.
  - injection E as <- <-. apply Hkeep, Hout; by destruct (_ || _).
  - injection E as <- <-. apply Hkeep, Hout; by destruct (cam_band_mode c).
  - pose proof (band_service_flags (cam_band_seq c) c) as F. destruct (cam_band_service _ _) as [c1 r]. destruct r; injection E as <- <-; (apply Hsame; [done|by apply Hout]).
  - rewrite (Hcb Hm) in E. injection E as <- <-. apply Hsame; [done|]. by apply Hout.
  - injection E as <- <-. apply Hkeep. by destruct (band_lost b); apply Hout.
  - destruct (Nat.ltb_spec i CAM_BAND_CLIENTS); [|injection E as <- <-; by apply Hkeep, Hout]. destruct (Z.eqb_spec (if band_claimed b i then band_fn b i else 0) 0) as [|Hf]; injection E as <- <-; [by apply Hkeep, Hout|].
    assert (Hcl : band_claimed b i = true) by (by destruct (band_claimed b i)). rewrite Hi. cbn [in_callback].
    split; [|split; [done|split; [|done]]].
    + split; [done|]. split; [done|]. split; [|tauto]. cbn. intros j Hj Hz. destruct (decide (j = i)) as [->|]; [congruence|]. by rewrite fn_lookup_insert_ne.
    + split; [|done]. cbn. intros j. destruct (Nat.eqb_spec i j) as [->|]; [by rewrite fn_lookup_insert|]. rewrite fn_lookup_insert_ne by done. apply Hi.
  - injection E as <- <-. by apply Hkeep, Hout.
  - injection E as <- <-. rewrite Hi. cbn [in_callback]. rewrite Nat.eqb_refl. split; [|split; [done|split; [|done]]].
    + split; [done|]. split; [done|]. split; [|tauto]. cbn. intros j Hj Hz. destruct (decide (j = i)) as [->|]; [by rewrite fn_lookup_insert|]. by rewrite fn_lookup_insert_ne.
    + split; [|done]. cbn. intros j. destruct (decide (j = i)) as [->|]; [by rewrite fn_lookup_insert|]. rewrite fn_lookup_insert_ne by done. rewrite Hi. cbn. destruct (Nat.eqb_spec i j); [congruence|done].
  - injection E as <- <-. apply Hsame; [apply band_check_flags|by apply Hout].
  - injection E as <- <-. apply Hsame; [done|]. by destruct (cam_band_mode c) eqn:?; apply Hout.
  - injection E as <- <-. unfold undisturbed, down, cam_ok, prod_ok; cbn. rewrite Ha. split_and!; try done.
  - injection E as <- <-. unfold undisturbed, down, cam_ok, prod_ok; cbn. rewrite Ha, Hm. split_and!; try done; intros; split; done.
  - injection E as <- <-. unfold undisturbed, down, cam_ok, prod_ok; cbn. rewrite Ha, Hm. split_and!; try done; intros; split; done.
Qed.

(** *** A thread *)

(** A start has stopped streams only: the producer is out of the service. *)
Lemma prod_idle q s : prod_ok q s -> active s = false -> q = Q_loop \/ q = Q_wait.
Proof. intros (_ & A & _) E. rewrite E in A. destruct q; auto; done. Qed.

Lemma prod_ok_idle q s s' : q = Q_loop \/ q = Q_wait -> prod_ok q s -> inside s' = inside s -> prod_ok q s'.
Proof. intros [-> | ->] [A _] E; (split; [by rewrite E|done]). Qed.

Lemma none_claimed_S i s : none_claimed i s -> claimed s i = false -> none_claimed (S i) s.
Proof. intros A B j Hj. destruct (decide (j = i)) as [->|]; [done|]. apply A. lia. Qed.

(** What a thread's access owes. *)
Definition owed (q : producer) (p p' : pc) (s s' : shared) : Prop :=
  cam_ok s' /\ prod_ok q s' /\ local p' s' /\ (in_section p = false -> undisturbed s s') /\
  (in_section p' = true -> band_api_busy (fan s') = true /\ (in_section p = true \/ band_api_busy (fan s) = false)) /\
  (in_section p = false -> band_api_busy (fan s) = true -> band_api_busy (fan s') = true).

(** An access that only looks. *)
Lemma owed_read q p p' s : cam_ok s -> prod_ok q s -> local p' s -> (in_section p = true -> band_api_busy (fan s) = true) -> (in_section p' = true -> in_section p = true) -> owed q p p' s s.
Proof. intros. unfold owed. split_and!; auto using undisturbed_refl. Qed.

(** A change of the camera, or of the statics, by the thread in the section. *)
Lemma owed_inside q p p' s s' : in_section p = true -> band_api_busy (fan s') = true -> cam_ok s' -> prod_ok q s' -> local p' s' -> owed q p p' s s'.
Proof. intros A B C D E. unfold owed. rewrite A. split_and!; auto; done. Qed.

Definition is_api (o : op) : bool := match o with O_claim _ _ _ | O_release _ => true | _ => false end.

Lemma after_streaming_section o y : in_section (after_streaming o y) = is_api o.
Proof. by destruct o, y. Qed.
Lemma after_any_section o y : o = O_lost \/ is_release o -> in_section (after_any o y) = is_api o.
Proof. intros [->|R]; [by destruct y|]. by destruct o, y. Qed.
Lemma after_stop_section o y : in_section (after_stop o y) = true -> is_api o = true.
Proof. by destruct o, y. Qed.

Lemma local_after_streaming o y s : local (P_streaming o) s -> (y = false -> down s) -> local (after_streaming o y) s.
Proof.
  cbn. intros Hl Hd. destruct o; cbn in *; [| |by destruct y|by destruct y].
  - assert ((c < CAM_BAND_CLIENTS)%nat /\ fn <> 0) by (destruct Hl as [?|[?|[[] _]]]; done). destruct y; cbn; auto.
  - destruct Hl as [[]|[?|(R & Q & N)]]; [done|]. destruct y; cbn; [auto|]. split; [auto|]. split; [done|]. intros _ _. auto.
Qed.

Lemma local_after_any o i y s : local (P_any i o) s -> (y = true -> claimed s i = true) -> (y = false -> (CAM_BAND_CLIENTS <= i)%nat) -> local (after_any o y) s.
Proof.
  cbn. intros [->|(R & Q & N)] Ht Hf; [destruct y; cbn; auto|]. destruct o; try done. destruct y; cbn; cbn in R.
  - split; [auto|]. split; [done|]. intros _ _. split; [done|]. left. eauto.
  - split; [done|]. split; [done|]. intros j Hj. apply N. specialize (Hf eq_refl). lia.
Qed.

Lemma local_after_stop o y s : local (P_stop o) s -> (y = true -> active s = false) -> local (after_stop o y) s.
Proof.
  cbn. intros [->|(R & Q & N)] Ht; [done|]. destruct o; try done. cbn in R. destruct y; cbn; (split; [auto|]); (split; [done|]); [|done].
  intros _ _. split; [done|]. right. intros A. rewrite Ht in A; done.
Qed.

Lemma quiet_claimed_ne c j s : claimed s c = false -> claimed s j = true -> j <> c.
Proof. congruence. Qed.

Lemma access_ok ok ct0 q p p' s s' : cam_ok s -> prod_ok q s -> local p s -> (in_section p = true -> band_api_busy (fan s) = true) -> band_access ok ct0 p s = Some (p', s') -> owed q p p' s s'.
Proof.
  destruct s as [c b]. intros Hc Hq Hl Hb E. pose proof Hc as [Hcb Hml]. cbn in Hcb, Hml.
  assert (Hinside : forall c1 b1 p1, band_cb_active b1 = band_cb_active b -> band_api_busy b1 = band_api_busy b -> same_flags c c1 -> in_section p = true -> local p1 (Shared c1 b1) -> owed q p p1 (Shared c b) (Shared c1 b1)).
  { intros c1 b1 p1 E1 E2 F G L. destruct (same_flags_ok q c c1 b F Hc Hq) as (_ & K1 & K2). apply owed_inside; [done|cbn; rewrite E2; by apply Hb|exact K1| |exact L].
    destruct K2 as [X Y]. split; [|exact Y]. intros i. cbn. rewrite E1. apply X. }
  destruct p; cbn [band_access band_api looking camera_stream_stop camera_band_start cam_band_claim cam_band_release cam_band_stream_lost cam fan] in E; try done.
  - destruct (_ <? _)%nat; [|injection E as <- <-; by apply owed_read]. destruct (band_api_busy b) eqn:B; injection E as <- <-; [by apply owed_read|].
    unfold owed. cbn. split_and!; try done; try tauto. destruct o; cbn in *; tauto.
  - injection E as <- <-. unfold owed. cbn. split_and!; done.
  - injection E as <- <-. destruct (cam_stream_active c) eqn:A; [by apply owed_read|]. apply owed_read; [done|done|apply local_after_streaming; [done|intros _; unfold down; cbn; congruence]|done|by rewrite after_streaming_section].
  - injection E as <- <-. apply owed_read; [done|done|apply local_after_streaming; [done|intros ? ?; done]|done|by rewrite after_streaming_section].
  - injection E as <- <-. assert (Hs : forall y, in_section (after_any o y) = true -> in_section (P_any i o) = true) by (intros y; rewrite after_any_section; [done|destruct Hl as [->|[? _]]; auto]).
    destruct (Nat.ltb_spec i CAM_BAND_CLIENTS); [|apply owed_read; [done|done|apply (local_after_any o i); (done || intros; lia)|done|apply Hs]].
    destruct (band_claimed b i) eqn:B; [apply owed_read; [done|done|by apply (local_after_any o i)|done|apply Hs]|]. apply owed_read; try done. cbn in Hl |- *. destruct Hl as [|(? & ? & ?)]; [by left|right]. auto using none_claimed_S.
  - injection E as <- <-. destruct (cam_stream_active c) eqn:A; [by apply owed_read|]. apply owed_read; [done|done|by apply local_after_stop|done|apply after_stop_section].
  - injection E as <- <-. destruct (is_api o) eqn:Ho; [by apply Hinside|]. destruct o; try done; destruct Hl as [|[[] _]]; done.
  - injection E as <- <-. destruct (_ && _); by apply owed_read.
  - injection E as <- <-. apply owed_read; [done|done|apply local_after_stop; [done|cbn; by destruct (cam_stream_active c)]|done|apply after_stop_section].
  - injection E as <- <-. apply Hinside; try done. by left.
  - injection E as <- <-. by apply Hinside.
  - injection E as <- <-. destruct need_start; [by apply Hinside|]. apply Hinside; try done. cbn in Hl |- *. split; [by left|]. split; [done|]. intros R. destruct o; done.
  - injection E as <- <-. by apply Hinside.
  - destruct (locked c) eqn:L; [done|]. destruct Hl as [Hcl Hd]. assert (Hm : cam_band_mode c = true -> cam_stream_active c = true) by (intros M; destruct (Hml M); [done|congruence]).
    destruct (_ && _) eqn:A; injection E as <- <-.
    + apply andb_true_iff in A as [_ A]. apply negb_true_iff in A. assert (M : cam_band_mode c = false) by (destruct (cam_band_mode c); [specialize (Hm eq_refl); congruence|done]).
      apply owed_inside; [done|by apply Hb|split; cbn; congruence|by apply Hq|]. cbn. auto.
    + apply owed_read; done.
  - injection E as <- <-. destruct Hl as (Hcl & L & A & M). cbn in L, A, M. apply owed_inside; [done|by apply Hb|split; cbn; auto|by apply (prod_ok_idle _ (Shared c b)); [apply (prod_idle _ (Shared c b))| |]|]. by cbn.
  - injection E as <- <-. destruct Hl as (Hcl & L & A & M & K). cbn in L, A, M, K. pose proof (prod_idle _ _ Hq A) as Hidle.
    destruct (ok && negb (dma c)); (apply owed_inside; [done|by apply Hb|split; cbn; auto|by apply (prod_ok_idle _ (Shared c b))|by cbn]).
  - injection E as <- <-. destruct Hl as (Hcl & L & A & M). cbn in L, A, M. apply owed_inside; [done|by apply Hb|split; cbn; auto|by apply (prod_ok_idle _ (Shared c b)); [apply (prod_idle _ (Shared c b))| |]|]. by cbn.
  - injection E as <- <-. by apply Hinside.
  - injection E as <- <-. destruct Hl as (Hcl & L & A). cbn in L, A. apply owed_inside; [done|by apply Hb|split; cbn; auto|exact Hq|done].
  - injection E as <- <-. destruct Hl as (Hcl & L & A & M). cbn in L, A, M. apply owed_inside; [done|by apply Hb|split; cbn; done|by apply (prod_ok_idle _ (Shared c b)); [apply (prod_idle _ (Shared c b))| |]|]. by cbn.
  - injection E as <- <-. destruct Hl as (Hcl & L & A & M). cbn in L, A, M. apply owed_inside; [done|by apply Hb|split; cbn; congruence|by apply (prod_ok_idle _ (Shared c b)); [apply (prod_idle _ (Shared c b))| |]|]. cbn. split; [done|]. unfold down. cbn. congruence.
  - injection E as <- <-. destruct ok0; (apply Hinside; try done). split; [by left|]. split; [done|]. intros R. destruct o; done.
  - injection E as <- <-. destruct Hl as [Hcl Hd]. apply Hinside; try done. cbn. split; [by left|]. split; [|done]. intros _ _. split; cbn; [by rewrite fn_lookup_insert|].
    destruct Hq as [Hi Hq']. cbn in Hi. rewrite Hi. by rewrite (down_outside q (Shared c b)).
  - injection E as <- <-. apply Hinside; try done. cbn. split; [done|]. by rewrite fn_lookup_insert.
  - injection E as <- <-. destruct Hl as [R N]. destruct tries as [|tries]; [by apply owed_read|]. destruct (_ =? 0); by apply owed_read.
  - injection E as <- <-. destruct Hl as [R N]. destruct (Z.eqb_spec (band_cb_active b (client_of o)) 0); apply owed_read; try done.
    + right. split; [done|]. split; [done|]. intros j Hj. lia.
    + cbn. split; [by right|]. split; [by destruct o|]. done.
  - injection E as <- <-. apply Hinside; try done. by right; right.
  - injection E as <- <-. destruct (band_lost b); by apply owed_read.
  - injection E as <- <-. destruct (band_arming b); apply owed_read; try done. by left.
  - injection E as <- <-. unfold owed. cbn. split_and!; try done. 
  - injection E as <- <-. by apply owed_read.
Qed.

(** *** The world *)

Definition inv (w : world) : Prop :=
  cam_ok (state w) /\ prod_ok (prod w) (state w) /\
  (forall a p, threads w !! a = Some p -> local p (state w) /\ (in_section p = true -> band_api_busy (fan (state w)) = true)) /\
  (forall a b p p', threads w !! a = Some p -> threads w !! b = Some p' -> in_section p = true -> in_section p' = true -> a = b).

Lemma band_inv_boot n : inv (band_boot n).
Proof.
  unfold inv, band_boot. cbn. split_and!; try done; intros a; [intros p|intros b p p']; rewrite ?lookup_replicate; [intros [-> _]; done|]. intros [-> _]; done.
Qed.

(** Whatever leaves the threads alone. *)
Lemma inv_env w q s : inv w -> undisturbed (state w) s -> cam_ok s -> prod_ok q s -> band_api_busy (fan s) = band_api_busy (fan (state w)) -> inv (World s q (threads w)).
Proof.
  intros (_ & _ & Ht & Hu) U C P B. split_and!; cbn; [done|done| |done]. intros a p Hp. destruct (Ht a p Hp) as [Hl Hb]. split; [by eapply local_undisturbed|]. by rewrite B.
Qed.

Lemma inv_go w a ok ct0 p p' s : inv w -> threads w !! a = Some p -> band_access ok ct0 p (state w) = Some (p', s) -> inv (World s (prod w) (<[a := p']> (threads w))).
Proof.
  intros (Hc & Hp & Ht & Hu) Ha E. destruct (Ht a p Ha) as [Hl Hb]. destruct (access_ok ok ct0 (prod w) p p' _ s Hc Hp Hl Hb E) as (C & P & L & U & S1 & S2).
  assert (Hoth : forall b pb, b <> a -> threads w !! b = Some pb -> in_section pb = true -> in_section p = false).
  { intros b pb Hne Hpb Hs. destruct (in_section p) eqn:Hsp; [|done]. destruct Hne. by eapply Hu. }
  assert (Hex : forall b pb, b <> a -> threads w !! b = Some pb -> in_section pb = true -> in_section p' = false).
  { intros b pb Hne Hpb Hs. destruct (in_section p') eqn:Hsp; [|done]. destruct (S1 eq_refl) as [_ [K|K]]; [rewrite (Hoth b pb) in K; done|]. rewrite (proj2 (Ht b pb Hpb) Hs) in K. done. }
  unfold inv. cbn. split_and!; [done|done| |].
  - intros b pb Hpb. destruct (decide (b = a)) as [->|Hne].
    + rewrite list_lookup_insert_eq in Hpb by (by eapply lookup_lt_Some). injection Hpb as <-. split; [done|]. apply S1.
    + rewrite list_lookup_insert_ne in Hpb by done. destruct (Ht b pb Hpb) as [Lb Bb]. destruct (in_section pb) eqn:Hs.
      * pose proof (Hoth b pb Hne Hpb Hs) as Hout. split; [by eapply local_undisturbed; [apply U|]|]. auto.
      * split; [by eapply local_outside|done].
  - intros b b' pb pb' Hb1 Hb2 Hs1 Hs2. destruct (decide (b = a)) as [->|Hn1], (decide (b' = a)) as [->|Hn2]; [done| | |].
    + rewrite list_lookup_insert_eq in Hb1 by (by eapply lookup_lt_Some). injection Hb1 as <-. rewrite list_lookup_insert_ne in Hb2 by done. rewrite (Hex b' pb') in Hs1; done.
    + rewrite list_lookup_insert_eq in Hb2 by (by eapply lookup_lt_Some). injection Hb2 as <-. rewrite list_lookup_insert_ne in Hb1 by done. rewrite (Hex b pb) in Hs2; done.
    + rewrite list_lookup_insert_ne in Hb1, Hb2 by done. by eapply Hu.
Qed.

Lemma enter_outside o : in_section (band_enter o) = false.
Proof. destruct o; unfold band_enter; try case_match; done. Qed.
Lemma enter_local o s : local (band_enter o) s.
Proof.
  destruct o as [c cb fn|c| |]; [| |done|by left]; unfold band_enter; case_match eqn:E; try done; [left|right].
  - apply orb_false_iff in E as [A B]. apply Nat.leb_gt in A. apply Z.eqb_neq in B. done.
  - by apply Nat.leb_gt in E.
Qed.

Lemma band_inv_step w w' : inv w -> step w w' -> inv w'.
Proof.
  intros Hw [m E]. pose proof Hw as (Hc & Hp & Ht & Hu).
  assert (Hf : forall c, same_flags (cam (state w)) c -> inv (World (Shared c (fan (state w))) (prod w) (threads w))).
  { intros c F. destruct (state w) as [c0 b] eqn:Es. destruct (same_flags_ok (prod w) c0 c b F Hc Hp) as (U & C & P). apply inv_env; rewrite ?Es; done. }
  destruct m as [a o|a ok ct0|finish| |abort| |]; cbn [next] in E.
  - destruct (threads w !! a) as [p|] eqn:Ha; [|done]. cbn in E. destruct p; try done. injection E as <-. unfold inv. cbn. split_and!; [done|done| |].
    + intros b pb Hpb. destruct (decide (b = a)) as [->|Hne].
      * rewrite list_lookup_insert_eq in Hpb by (by eapply lookup_lt_Some). injection Hpb as <-. rewrite enter_outside. split; [apply enter_local|done].
      * rewrite list_lookup_insert_ne in Hpb by done. by apply (Ht b).
    + intros b b' pb pb' Hb1 Hb2 Hs1 Hs2. destruct (decide (b = a)) as [->|Hn1].
      { rewrite list_lookup_insert_eq in Hb1 by (by eapply lookup_lt_Some). injection Hb1 as <-. by rewrite enter_outside in Hs1. }
      destruct (decide (b' = a)) as [->|Hn2].
      { rewrite list_lookup_insert_eq in Hb2 by (by eapply lookup_lt_Some). injection Hb2 as <-. by rewrite enter_outside in Hs2. }
      rewrite list_lookup_insert_ne in Hb1, Hb2 by done. by eapply Hu.
  - destruct (threads w !! a) as [p|] eqn:Ha; [|done]. cbn [mbind option_bind] in E. destruct (band_access ok ct0 p (state w)) as [[p' s']|] eqn:Ea; [|done]. cbn [mbind option_bind] in E. injection E as <-. by eapply inv_go.
  - destruct (produce finish (prod w) (state w)) as [[q s]|] eqn:Ep; [|done]. cbn [mbind option_bind] in E. injection E as <-. destruct (produce_ok finish (prod w) q (state w) s Hc Hp Ep) as (U & C & P & B). by apply inv_env.
  - case_guard; [|done]. cbn in E. injection E as <-. apply Hf. unfold cam_stream_dma_cb, dma_turns. destruct (handing (prod w)); repeat case_match; by repeat split.
  - injection E as <-. apply Hf. unfold cam_stream_error. repeat case_match; by repeat split.
  - injection E as <-. apply Hf. unfold HAL_DCMI_FrameEventCallback. repeat case_match; by repeat split.
  - case_guard as Hg; [|done]. destruct Hg as [G1 G2]. cbn in E. injection E as <-. destruct Hc as [Hcb Hm]. assert (M : mode (state w) = false) by (destruct (mode (state w)); [destruct (Hm eq_refl); congruence|done]).
    apply inv_env; [done| | | |done].
    + unfold undisturbed, down. cbn. rewrite G1, M. split_and!; done.
    + split; cbn; rewrite M; done.
    + apply (prod_ok_idle _ (state w)); [by eapply prod_idle|done|done].
Qed.

Lemma reach_inv n w : reach n w -> inv w.
Proof. intros R. apply (rtc_ind_r (R := step) (fun w => inv w) (band_boot n)); [apply band_inv_boot| |exact R]. intros x y _ S I. by eapply band_inv_step. Qed.

(** ** After a release *)

(** A step that does not publish a claim of a client in [cs]. *)
Definition publishes (cs : nat -> Prop) (m : move) (w : world) : Prop :=
  match m with M_go a _ _ => exists need o, threads w !! a = Some (P_publish need o) /\ cs (client_of o) | _ => False end.
Definition step_but (cs : nat -> Prop) (w w' : world) : Prop := exists m, next m w = Some w' /\ ~ publishes cs m w.

Lemma step_but_step cs w w' : step_but cs w w' -> step w w'.
Proof. intros (m & E & _). by exists m. Qed.

(** A thread touches a claim only by publishing or dropping it. *)
Lemma access_quiet ok ct0 p p' s s' c : band_access ok ct0 p s = Some (p', s') -> (forall need o, p = P_publish need o -> client_of o <> c) -> quiet c s -> quiet c s'.
Proof.
  intros E Hp [A B]. destruct s as [k b]. cbn in A, B. unfold quiet.
  assert (D : forall o f, client_of o <> c \/ f = false -> <[client_of o := f]> (band_claimed b) c = false).
  { intros o f H. destruct (decide (client_of o = c)) as [<-|]; [rewrite fn_lookup_insert; destruct H; done|]. by rewrite fn_lookup_insert_ne. }
  destruct p; cbn [band_access band_api looking camera_stream_stop camera_band_start cam_band_claim cam_band_release cam_band_stream_lost cam fan] in E; repeat case_match; try done; injection E as <- <-; cbn; auto.
  all: split; [|done]; apply D; left; by eapply Hp.
Qed.

Lemma quiet_step c w w' : inv w -> step_but (eq c) w w' -> quiet c (state w) -> quiet c (state w').
Proof.
  intros (Hc & Hp & Ht & Hu) (m & E & Hm) Q. destruct m as [a o|a ok ct0|finish| |abort| |]; cbn [next] in E.
  - destruct (threads w !! a) as [p|]; [|done]. cbn in E. destruct p; try done. by injection E as <-.
  - destruct (threads w !! a) as [p|] eqn:Ha; [|done]. cbn [mbind option_bind] in E. destruct (band_access ok ct0 p (state w)) as [[p' s']|] eqn:Ea; [|done]. cbn [mbind option_bind] in E. injection E as <-. cbn.
    eapply access_quiet; [exact Ea| |exact Q]. intros need o -> Heq. destruct Hm. exists need, o. done.
  - destruct (produce finish (prod w) (state w)) as [[q s]|] eqn:Ep; [|done]. cbn [mbind option_bind] in E. injection E as <-. destruct (produce_ok finish (prod w) q (state w) s Hc Hp Ep) as ((_ & U1 & U2 & _) & _).
    destruct Q as [A B]. split; cbn; [by rewrite U1|by apply U2].
  - case_guard; [|done]. cbn in E. by injection E as <-.
  - by injection E as <-.
  - by injection E as <-.
  - case_guard; [|done]. cbn in E. by injection E as <-.
Qed.

(** No band stream, and none on its way. *)
Definition starting (p : pc) : bool := match p with P_colorbar _ | P_cam_lock _ | P_cam_reset _ | P_cam_mode _ | P_cam_active _ => true | P_publish b _ => false | _ => false end.
Definition stopped (w : world) : Prop := down (state w) /\ forall a p, threads w !! a = Some p -> starting p = false.

Lemma access_stopped ok ct0 p p' s s' : band_access ok ct0 p s = Some (p', s') -> starting p = false -> (forall need o, p <> P_publish need o) -> local p s -> down s -> starting p' = false /\ down s'.
Proof.
  intros E Hs Hp Hl D. destruct s as [k b]. destruct p; cbn [band_access band_api looking camera_stream_stop camera_band_start cam_band_claim cam_band_release cam_band_stream_lost cam fan] in E; cbn in Hs; try done; try (by destruct (Hp need_start o)).
  all: unfold after_streaming, after_any, after_stop in E; repeat case_match; simplify_eq; (split; [done|]); try exact D.
  all: unfold down; cbn; intros A; by rewrite ?(D A).
Qed.

Lemma stopped_step w w' : inv w -> step_but (fun _ => True) w w' -> stopped w -> stopped w'.
Proof.
  intros (Hc & Hp & Ht & Hu) (m & E & Hm) [D S]. destruct m as [a o|a ok ct0|finish| |abort| |]; cbn [next] in E.
  - destruct (threads w !! a) as [p|] eqn:Ha; [|done]. cbn in E. destruct p; try done. injection E as <-. split; [done|]. cbn. intros b pb Hb. destruct (decide (b = a)) as [->|].
    + rewrite list_lookup_insert_eq in Hb by (by eapply lookup_lt_Some). injection Hb as <-. destruct o; unfold band_enter; try case_match; done.
    + rewrite list_lookup_insert_ne in Hb by done. eauto.
  - destruct (threads w !! a) as [p|] eqn:Ha; [|done]. cbn [mbind option_bind] in E. destruct (band_access ok ct0 p (state w)) as [[p' s']|] eqn:Ea; [|done]. cbn [mbind option_bind] in E. injection E as <-.
    destruct (access_stopped _ _ _ _ _ _ Ea) as [A B]; [by eapply S| |by apply (Ht a)|done|].
    { intros need o ->. destruct Hm. by exists need, o. }
    split; [done|]. cbn. intros b pb Hb. destruct (decide (b = a)) as [->|].
    + rewrite list_lookup_insert_eq in Hb by (by eapply lookup_lt_Some). by injection Hb as <-.
    + rewrite list_lookup_insert_ne in Hb by done. eauto.
  - destruct (produce finish (prod w) (state w)) as [[q s]|] eqn:Ep; [|done]. cbn [mbind option_bind] in E. injection E as <-. destruct (produce_ok finish (prod w) q (state w) s Hc Hp Ep) as ((U & _) & _).
    split; [by apply U|done].
  - case_guard; [|done]. cbn in E. injection E as <-. split; [|done]. unfold down, cam_stream_dma_cb, dma_turns. destruct (handing (prod w)); cbn; repeat case_match; cbn; auto.
  - injection E as <-. split; [|done]. unfold down, cam_stream_error. cbn. repeat case_match; cbn; auto.
  - injection E as <-. split; [|done]. unfold down, HAL_DCMI_FrameEventCallback. cbn. repeat case_match; cbn; auto.
  - case_guard as Hg; [|done]. destruct Hg as [G1 G2]. cbn in E. injection E as <-. split; [|done]. unfold down. cbn. intros _. destruct Hc as [_ Hm']. destruct (mode (state w)); [destruct (Hm' eq_refl); congruence|done].
Qed.

Lemma rtc_keeps (R : world -> world -> Prop) (P : world -> Prop) w w' : (forall x y, R x y -> step x y) -> (forall x y, inv x -> R x y -> P x -> P y) -> rtc R w w' -> inv w -> P w -> P w'.
Proof. intros H1 H2 Hr. induction Hr as [|x y z Hxy _ IH]; [done|]. intros I K. apply IH; [by eapply band_inv_step; [|apply H1]|by eapply H2]. Qed.

(** C20: when [cam_band_release] is about to answer OK, or [cam_band_claim] that the camera
    would not start, the client is in no callback and, whatever happens next, enters none
    until a claim of its own is published; and when no other client is claimed then, there is
    no band stream, and none runs before the next claim. *)
Theorem cam_band_release_safe n w a rc o : reach n w -> threads w !! a = Some (P_unlock rc o) -> (is_release o /\ rc = CAM_BAND_OK) \/ (is_claim o /\ rc = CAM_BAND_ERR_START) ->
  (forall w', rtc (step_but (eq (client_of o))) w w' -> in_callback (client_of o) (prod w') = false) /\
  (is_release o -> (forall j, claimed (state w) j = false) -> forall w', rtc (step_but (fun _ => True)) w w' -> down (state w') /\ forall i, in_callback i (prod w') = false).
Proof.
  intros Hr Ha Ho. apply reach_inv in Hr. pose proof Hr as (_ & _ & Ht & Hu). destruct (Ht a _ Ha) as [(_ & Hc & Hrel) _].
  split.
  - intros w' Hw. assert (Q : quiet (client_of o) (state w)) by (destruct Ho as [[A B]|[A B]]; [by destruct (Hrel A B)|by apply Hc]).
    assert (inv w' /\ quiet (client_of o) (state w')) as [(_ & Hp & _) [_ Q']].
    { apply (rtc_keeps (step_but (eq (client_of o))) (fun w => inv w /\ quiet (client_of o) (state w)) w); [by apply step_but_step| |done|done|done].
      intros x y Ix S [_ K]. split; [eapply band_inv_step; [done|by eapply step_but_step]|by eapply quiet_step]. }
    by rewrite (in_callback_spec _ _ _ Hp), Q'.
  - intros R N w' Hw. assert (B : rc = CAM_BAND_OK) by (destruct Ho as [[_ B]|[A _]]; [done|destruct o; done]). destruct (Hrel R B) as [_ [[j Hj]|D]]; [by rewrite N in Hj|].
    assert (S : stopped w).
    { split; [done|]. intros b pb Hb. destruct (decide (b = a)) as [->|Hne]; [rewrite Ha in Hb; by injection Hb as <-|]. destruct (starting pb) eqn:Es; [|done]. destruct Hne. eapply Hu; [exact Hb|exact Ha|by destruct pb|done]. }
    assert (inv w' /\ stopped w') as [(_ & Hp & _) [D' _]].
    { apply (rtc_keeps (step_but (fun _ => True)) (fun w => inv w /\ stopped w) w); [by apply step_but_step| |done|done|done].
      intros x y Ix S' [_ K]. split; [eapply band_inv_step; [done|by eapply step_but_step]|by eapply stopped_step]. }
    split; [done|]. intros i. by eapply down_outside.
Qed.

(** ** The bands of a stream *)

(** Bands handed over come in order; one that does not begin a frame follows the band
    before it, which the DMA had not overtaken. *)
Fixpoint in_order (h : list (Z * bool)) : Prop :=
  match h with
  | [] => True
  | (m, _) :: h' => 0 <= m /\ in_order h' /\ match h' with [] => m mod CAMERA_BANDS_PER_FRAME = 0 | (n, t) :: _ => n < m /\ (m mod CAMERA_BANDS_PER_FRAME = 0 \/ (n = m - 1 /\ t = false)) end
  end.

Fixpoint whole_frames (h : list (Z * bool)) : Z :=
  match h with [] => 0 | (n, t) :: h => (if negb t && (n mod CAMERA_BANDS_PER_FRAME =? CAMERA_BANDS_PER_FRAME - 1) then 1 else 0) + whole_frames h end.
Fixpoint overtaken (h : list (Z * bool)) : Z := match h with [] => 0 | (_, t) :: h => (if t then 1 else 0) + overtaken h end.

(** What may be handed over after [h]. *)
Definition follows (n : Z) (h : list (Z * bool)) : Prop :=
  match h with [] => n mod CAMERA_BANDS_PER_FRAME = 0 | (m, t) :: _ => m < n /\ (n mod CAMERA_BANDS_PER_FRAME = 0 \/ (m = n - 1 /\ t = false)) end.
(** All of [h] lies before [n]. *)
Definition before (n : Z) (h : list (Z * bool)) : Prop := match h with [] => True | (m, _) :: _ => m < n end.

Lemma in_order_cons n t h : 0 <= n -> follows n h -> in_order h -> in_order ((n, t) :: h).
Proof. intros. cbn [in_order]. by destruct h as [|[]]. Qed.

Lemma in_order_length h : in_order h -> match h with [] => True | (m, _) :: _ => Z.of_nat (length h) <= m + 1 end.
Proof.
  induction h as [|[m t] h IH]; [done|]. cbn [in_order length]. intros (Hm & Ho & Hf). specialize (IH Ho). destruct h as [|[n t'] h]; cbn [length] in *; lia.
Qed.

Lemma counts_bounds h n : in_order h -> before n h -> 0 <= n -> 0 <= whole_frames h <= n /\ 0 <= overtaken h <= n.
Proof.
  intros Ho Hb Hn. assert (0 <= whole_frames h <= Z.of_nat (length h) /\ 0 <= overtaken h <= Z.of_nat (length h)) as [A B].
  { clear. induction h as [|[m t] h [A B]]; cbn [whole_frames overtaken length]; [lia|]. repeat case_match; lia. }
  pose proof (in_order_length h Ho) as L. destruct h as [|[m t] h]; [cbn in *; lia|]. unfold before in Hb. lia.
Qed.

(** A last band that was not overtaken ends a whole frame. *)
Lemma in_order_whole h n : in_order ((n, false) :: h) -> n mod CAMERA_BANDS_PER_FRAME = CAMERA_BANDS_PER_FRAME - 1 -> exists h', h = (n - 1, false) :: (n - 2, false) :: (n - 3, false) :: h'.
Proof.
  unfold CAMERA_BANDS_PER_FRAME in *. intros Ho Hn. cbn [in_order] in Ho.
  destruct h as [|[n1 t1] h]; [cbn in Ho; unfold CAMERA_BANDS_PER_FRAME in *; lia|]. cbn [in_order] in Ho. destruct Ho as (_ & (Hn1 & Ho & F1) & _ & [?|[-> ->]]); [unfold CAMERA_BANDS_PER_FRAME in *; lia|].
  assert ((n - 1) mod 4 = 2) by (rewrite Zminus_mod, Hn; done).
  destruct h as [|[n2 t2] h]; [unfold CAMERA_BANDS_PER_FRAME in *; lia|]. cbn [in_order] in Ho. destruct F1 as [_ [?|[-> ->]]]; [unfold CAMERA_BANDS_PER_FRAME in *; lia|].
  assert ((n - 1 - 1) mod 4 = 1) by (replace (n - 1 - 1) with (n - 2) by lia; rewrite Zminus_mod, Hn; done).
  destruct Ho as (_ & _ & F2). destruct h as [|[n3 t3] h]; [unfold CAMERA_BANDS_PER_FRAME in *; lia|]. destruct F2 as [_ [?|[-> ->]]]; [unfold CAMERA_BANDS_PER_FRAME in *; lia|].
  exists h. replace (n - 1 - 1) with (n - 2) by lia. by replace (n - 2 - 1) with (n - 3) by lia.
Qed.

Lemma in_order_suffix h1 h2 : in_order (h1 ++ h2) -> in_order h2.
Proof. induction h1 as [|[m t] h1 IH]; [done|]. cbn [app in_order]. intros (_ & A & _). auto. Qed.

(** The stream's bookkeeping, and the DMA's: while the stream is up the buffer being filled
    is that of the band [cam_band_seq]. *)
Definition bands_ok (q : producer) (c : camera) : Prop :=
  0 <= cam_band_next c <= cam_band_seq c /\ cam_band_seq c < 2 ^ 32 /\ in_order (handed c) /\
  (cam_stream_active c = true -> cam_band_mode c = true -> dma c = true \/ cam_band_seq c <> 0 ->
     dma_ct c = (cam_band_ct0 c + cam_band_seq c) mod 2) /\
  match handing q with
  | None => cam_band_torn c = overtaken (handed c) /\ cam_band_frames c = whole_frames (handed c) /\ before (cam_band_next c) (handed c) /\ (cam_band_sync c = true -> match handed c with (n, false) :: _ => n = cam_band_next c - 1 | _ => False end)
  | Some (s, n) => 0 <= n /\ s = n + 1 /\ cam_band_next c = n + 1 /\ cam_band_sync c = true /\
      exists h, handed c = (n, negb (cam_band_seq c =? s)) :: h /\ cam_band_torn c = overtaken h /\ cam_band_frames c = whole_frames h
  end.

Lemma follows_zero n h : before n h -> n mod CAMERA_BANDS_PER_FRAME = 0 -> follows n h.
Proof. destruct h as [|[m t] h]; cbn; auto. Qed.

Lemma before_weaken n m h : before n h -> n <= m -> before m h.
Proof. destruct h as [|[]]; cbn; [done|lia]. Qed.

(** What the service leaves alone. *)
Lemma band_service_dma seq c : let c' := fst (cam_band_service seq c) in
  cam_band_seq c' = cam_band_seq c /\ cam_band_ct0 c' = cam_band_ct0 c /\ dma c' = dma c /\ dma_ct c' = dma_ct c /\
  handed c' = handed c /\ cam_band_torn c' = cam_band_torn c /\ cam_band_frames c' = cam_band_frames c.
Proof. unfold cam_band_service. repeat case_match; by repeat split. Qed.

(** The band it picks. *)
Lemma band_service_picks c c' r : bands_ok Q_band c -> cam_band_service (cam_band_seq c) c = (c', r) ->
  match r with
  | Some n => 0 <= n /\ cam_band_seq c = n + 1 /\ cam_band_next c' = n + 1 /\ cam_band_sync c' = true /\ follows n (handed c)
  | None => 0 <= cam_band_next c' <= cam_band_seq c /\ before (cam_band_next c') (handed c) /\
      (cam_band_sync c' = true -> match handed c with (n, false) :: _ => n = cam_band_next c' - 1 | _ => False end)
  end.
Proof.
  intros (Hn & Hs & Ho & _ & Ht & Hf & Hb & Hsync) E. unfold cam_band_service in E. destruct (Z.eqb_spec (cam_band_seq c) 0) as [|H0]; [by injection E as <- <-|].
  rewrite (u32_small (cam_band_seq c - 1)) in E by (unfold is_u32; lia). rewrite (u32_small (cam_band_seq c - 1 + 1)) in E by (unfold is_u32; lia). replace (cam_band_seq c - 1 + 1) with (cam_band_seq c) in E by lia.
  destruct (Z.ltb_spec (cam_band_seq c - 1) (cam_band_next c)) as [|Hnew]; [by injection E as <- <-|].
  assert (Hb' : before (cam_band_seq c) (handed c)) by (eapply before_weaken; [exact Hb|lia]).
  assert (Hb1 : before (cam_band_seq c - 1) (handed c)) by (eapply before_weaken; [exact Hb|lia]).
  assert (Hsome : forall sync late, (sync = true -> follows (cam_band_seq c - 1) (handed c)) ->
    (if negb sync then if negb ((cam_band_seq c - 1) mod CAMERA_BANDS_PER_FRAME =? 0) then (set_place (cam_band_seq c) sync late c, None) else (set_place (cam_band_seq c) true late (set_place (cam_band_seq c) sync late c), Some (cam_band_seq c - 1))
     else (set_place (cam_band_seq c) sync late c, Some (cam_band_seq c - 1))) = (c', r) ->
    match r with
    | Some n => 0 <= n /\ cam_band_seq c = n + 1 /\ cam_band_next c' = n + 1 /\ cam_band_sync c' = true /\ follows n (handed c)
    | None => 0 <= cam_band_next c' <= cam_band_seq c /\ before (cam_band_next c') (handed c) /\
        (cam_band_sync c' = true -> match handed c with (n, false) :: _ => n = cam_band_next c' - 1 | _ => False end)
    end).
  { intros sync late Hfol Eq. destruct sync; cbn [negb] in Eq; [|destruct (Z.eqb_spec ((cam_band_seq c - 1) mod CAMERA_BANDS_PER_FRAME) 0) as [Hz|]; cbn [negb] in Eq]; injection Eq as <- <-; cbn.
    - split_and!; try done; try lia. by apply Hfol.
    - split_and!; try done; try lia. by apply follows_zero.
    - split_and!; try done; lia. }
  destruct (Z.ltb_spec (cam_band_next c) (cam_band_seq c - 1)) as [Hhole|Hno]; cbn [set_place cam_band_late] in E.
  - by eapply (Hsome false).
  - eapply (Hsome (cam_band_sync c) (cam_band_late c)); [|exact E]. intros Y. specialize (Hsync Y). destruct (handed c) as [|[m []] h]; try done. cbn. split; [lia|]. right. split; [lia|done].
Qed.

Lemma band_service_ok c c' r : bands_ok Q_band c -> cam_band_service (cam_band_seq c) c = (c', r) ->
  match r with Some n => bands_ok (Q_call (cam_band_seq c) n) (set_handed ((n, false) :: handed c') c') | None => bands_ok Q_loop c' end.
Proof.
  intros Hb E. pose proof Hb as (Hn & Hs & Ho & Hct & Ht & Hf & _). pose proof (band_service_picks _ _ _ Hb E) as Hp.
  pose proof (band_service_dma (cam_band_seq c) c) as D. pose proof (band_service_flags (cam_band_seq c) c) as F. rewrite E in D, F. cbn [fst] in D, F.
  destruct D as (D1 & D2 & D3 & D4 & D5 & D6 & D7), F as (F1 & F2 & _).
  destruct r as [n|]; unfold bands_ok; cbn [handing]; cbn [set_handed cam_band_next cam_band_seq handed cam_stream_active cam_band_mode dma dma_ct cam_band_ct0 cam_band_sync cam_band_torn cam_band_frames]; rewrite ?D1, ?D2, ?D3, ?D4, ?D5, ?D6, ?D7, ?F1, ?F2.
  - destruct Hp as (P1 & P2 & P3 & P4 & P5). split; [lia|]. split; [done|]. split; [by apply in_order_cons|]. split; [done|].
    split; [done|]. split; [done|]. split; [done|]. split; [done|]. exists (handed c). rewrite Z.eqb_refl. done.
  - destruct Hp as (P1 & P2 & P3). split; [lia|]. done.
Qed.

(** A change that leaves the bands and the transfers alone; a stream that goes down. *)
Definition same_bands (c c' : camera) : Prop :=
  cam_band_next c' = cam_band_next c /\ cam_band_sync c' = cam_band_sync c /\ handed c' = handed c /\ cam_band_frames c' = cam_band_frames c /\ cam_band_torn c' = cam_band_torn c /\
  cam_band_seq c' = cam_band_seq c /\ cam_band_ct0 c' = cam_band_ct0 c /\ dma_ct c' = dma_ct c /\ (dma c' = true -> dma c = true).
Definition no_new_stream (c c' : camera) : Prop :=
  cam_stream_active c' = true -> cam_band_mode c' = true -> cam_stream_active c = true /\ cam_band_mode c = true.

Lemma same_bands_ok q q' c c' : same_bands c c' -> no_new_stream c c' -> handing q' = handing q -> bands_ok q c -> bands_ok q' c'.
Proof.
  intros (A & B & C & D & E & F & I & J & K) N G. unfold bands_ok. rewrite G, A, B, C, D, E, F, I, J. intros (H1 & H2 & H3 & H4 & H5).
  split; [done|]. split; [done|]. split; [done|]. split; [|exact H5]. intros X Y Z0. destruct (N X Y) as [X' Y']. apply H4; [done|done|]. destruct Z0; auto.
Qed.

Lemma same_bands_refl c : same_bands c c.
Proof. by repeat apply conj. Qed.
Lemma no_new_stream_refl c : no_new_stream c c.
Proof. done. Qed.

Lemma band_check_ok s n c : bands_ok (Q_check s n) c -> bands_ok Q_loop (band_check s n c).
Proof.
  intros (Hn & Hs & Ho & Hct & H0 & -> & Hnx & Hsy & h & Eh & Ht & Hf). rewrite Eh in Ho. pose proof Ho as (_ & Ho' & Hfo).
  assert (Hb : before n h) by (destruct h as [|[] ?]; [done|by destruct Hfo]). destruct (counts_bounds h n Ho' Hb H0) as [Bw Bo].
  unfold band_check. destruct (Z.eqb_spec (cam_band_seq c) (n + 1)) as [Es|Es]; cbn [negb] in *.
  - destruct (Z.eqb_spec (n mod CAMERA_BANDS_PER_FRAME) (CAMERA_BANDS_PER_FRAME - 1)) as [E3|E3]; unfold bands_ok; cbn; rewrite Eh; cbn.
    + rewrite (proj2 (Z.eqb_eq _ _) E3). rewrite Hf, u32_small by (unfold is_u32; lia). split_and!; try done; lia.
    + rewrite (proj2 (Z.eqb_neq _ _) E3). rewrite Hf. split_and!; try done; lia.
  - unfold bands_ok; cbn. rewrite Eh; cbn. rewrite Ht, u32_small by (unfold is_u32; lia). split_and!; try done; lia.
Qed.

Lemma produce_bands finish q q' s s' : cam_ok s -> prod_ok q s -> bands_ok q (cam s) -> produce finish q s = Some (q', s') -> bands_ok q' (cam s').
Proof.
  intros [Hcb _] (_ & _ & Hm) Hb E. destruct s as [c b]. cbn in *.
  assert (Hk : forall q1 c1, same_bands c c1 -> no_new_stream c c1 -> handing q1 = handing q -> bands_ok q1 c1) by (intros; by eapply same_bands_ok).
  pose proof (same_bands_refl c) as Hr. pose proof (no_new_stream_refl c) as Hw. destruct q; cbn [produce cam_stream_service cam_band_fanout cam_stream_teardown cam fan] in E;
    lazymatch goal with B : bands_ok Q_band _ |- _ => idtac | |- _ => repeat case_match; try done; injection E as <- <-; try (by apply Hk) end.
  - destruct (cam_band_service (cam_band_seq c) c) as [c1 r] eqn:Ec. apply band_service_ok in Ec; [|done]. destruct r as [n|]; by injection E as <- <-.
  - by apply band_check_ok.
Qed.

(** A start has no transfer running, and none counted, until it starts the first. *)
Definition start_ok (p : pc) (c : camera) : Prop :=
  match p with
  | P_cam_mode _ => cam_band_seq c = 0
  | P_cam_active _ | P_cam_dma _ => cam_band_seq c = 0 /\ dma c = false
  | _ => True
  end.

Lemma start_ok_outside p c : in_section p = false -> start_ok p c.
Proof. by destruct p. Qed.

(** What keeps another thread's start going. *)
Definition same_start (c c' : camera) : Prop := (cam_band_seq c = 0 -> cam_band_seq c' = 0) /\ (dma c = false -> dma c' = false).
Lemma start_ok_same p c c' : same_start c c' -> start_ok p c -> start_ok p c'.
Proof. intros [A B]. destruct p; cbn; tauto. Qed.

Lemma produce_start finish q q' s s' : produce finish q s = Some (q', s') -> same_start (cam s) (cam s').
Proof.
  intros E. destruct s as [c b]. destruct q; cbn [produce cam_stream_service cam_band_fanout cam_stream_teardown cam fan] in E; repeat case_match; try done; injection E as <- <-; try (by split).
  all: try (pose proof (band_service_dma (cam_band_seq c) c) as (D1 & _ & D3 & _); match goal with H : cam_band_service _ _ = _ |- _ => rewrite H in D1, D3; cbn [fst] in D1, D3; split; cbn; congruence end).
  cbn. unfold band_check. repeat case_match; by split.
Qed.

Lemma access_bands ok ct0 q p p' s s' : prod_ok q s -> local p s -> start_ok p (cam s) -> band_access ok ct0 p s = Some (p', s') -> bands_ok q (cam s) ->
  bands_ok q (cam s') /\ start_ok p' (cam s').
Proof.
  intros Hp Hl Hst E Hb. destruct s as [c b]. pose proof (same_bands_refl c) as Hr. pose proof (no_new_stream_refl c) as Hw.
  assert (Hk : forall p1 c1, same_bands c c1 -> no_new_stream c c1 -> start_ok p1 c1 -> bands_ok q c1 /\ start_ok p1 c1) by (intros; split; [by eapply same_bands_ok|done]).
  destruct p; cbn [band_access band_api looking camera_stream_stop camera_band_start cam_band_claim cam_band_release cam_band_stream_lost cam fan] in E; cbn in Hst; repeat case_match; try done; injection E as <- <-; try (by apply Hk);
    try (apply Hk; [done|done|unfold after_streaming, after_any, after_stop; repeat case_match; done]).
  - destruct Hl as (_ & _ & A & _). cbn in A. split; [|done]. destruct (prod_idle _ _ Hp A) as [-> | ->]; unfold bands_ok; cbn; split_and!; try done; try lia; congruence.
  - apply Hk; [done|intros X; destruct Hl as (_ & _ & A & _); cbn in *; congruence|]. cbn. split; [done|]. destruct (dma c); [by rewrite andb_false_r in *|done].
  - apply Hk; [done|intros X; destruct Hl as (_ & _ & A & _); cbn in *; congruence|done].
  - destruct Hst as [S0 D0]. split; [|done]. destruct Hb as (B1 & B2 & B3 & _ & B5). unfold bands_ok. cbn. split; [done|]. split; [done|]. split; [done|]. split; [|exact B5]. intros _ _ [X|X]; congruence.
  - destruct Hst as [S0 D0]. split; [|done]. destruct Hb as (B1 & B2 & B3 & _ & B5). unfold bands_ok. cbn. split; [done|]. split; [done|]. split; [done|]. split; [|exact B5]. intros _ _ _. rewrite S0, Z.add_0_r, Zmod_mod. done.
Qed.

Definition winv (w : world) : Prop :=
  inv w /\ bands_ok (prod w) (cam (state w)) /\ forall a p, threads w !! a = Some p -> start_ok p (cam (state w)).

(** A completed transfer. *)
Lemma complete_bands q s : prod_ok q s -> cam_band_seq (cam s) + 1 < 2 ^ 32 -> bands_ok q (cam s) -> dma (cam s) = true ->
  bands_ok q (cam_stream_dma_cb (dma_turns q (cam s))).
Proof.
  intros (_ & Ha & Hm) Hg (B1 & B2 & B3 & B4 & B5) Hd. destruct s as [c b]. cbn [cam] in *. unfold cam_stream_dma_cb, dma_turns.
  destruct (handing q) as [[s n]|] eqn:Eh.
  - assert (A : cam_stream_active c = true /\ cam_band_mode c = true) by (destruct q; done). destruct A as [A M].
    destruct B5 as (C1 & -> & C2 & C3 & h & C4 & C5 & C6). cbn [set_ct set_handed cam_stream_active cam_band_mode cam_band_seq]. rewrite A, M. cbn [negb].
    rewrite u32_small by (unfold is_u32; lia). unfold bands_ok. rewrite Eh. cbn. rewrite C4. cbn [mark_torn]. rewrite C4 in B3.
    split; [lia|]. split; [lia|]. split; [exact B3|]. split.
    { intros _ _ _. rewrite (B4 A M) by auto. clear. Z.div_mod_to_equations. lia. }
    split; [done|]. split; [done|]. split; [done|]. split; [done|]. exists h. split; [|done]. do 2 f_equal. symmetry. apply negb_true_iff, Z.eqb_neq. lia.
  - cbn [set_ct cam_stream_active cam_band_mode cam_band_seq].
    destruct (cam_stream_active c) eqn:A; [destruct (cam_band_mode c) eqn:M|]; cbn [negb]; unfold bands_ok; rewrite Eh; cbn; rewrite ?A, ?M.
    + rewrite u32_small by (unfold is_u32; lia). split; [lia|]. split; [lia|]. split; [done|]. split; [|exact B5].
      intros _ _ _. rewrite B4 by auto. clear. Z.div_mod_to_equations. lia.
    + done.
    + done.
Qed.

Lemma winv_step w w' : winv w -> step w w' -> winv w'.
Proof.
  intros (I & B & T) Hst. pose proof I as (Hc & Hp & Ht & Hu). split; [by eapply band_inv_step|]. destruct Hst as [m E].
  pose proof (same_bands_refl (cam (state w))) as Hr. pose proof (no_new_stream_refl (cam (state w))) as Hw.
  assert (Hoth : forall c, same_start (cam (state w)) c -> forall a p, threads w !! a = Some p -> start_ok p c) by (intros c F a p Ha; eapply start_ok_same; [exact F|by eapply T]).
  destruct m as [a o|a ok ct0|finish| |abort| |]; cbn [next] in E.
  - destruct (threads w !! a) as [p|] eqn:Ha; [|done]. cbn in E. destruct p; try done. injection E as <-. split; [done|]. cbn. intros b pb Hpb. destruct (decide (b = a)) as [->|].
    + rewrite list_lookup_insert_eq in Hpb by (by eapply lookup_lt_Some). injection Hpb as <-. apply start_ok_outside, enter_outside.
    + rewrite list_lookup_insert_ne in Hpb by done. by eapply T.
  - destruct (threads w !! a) as [p|] eqn:Ha; [|done]. cbn [mbind option_bind] in E. destruct (band_access ok ct0 p (state w)) as [[p' s']|] eqn:Ea; [|done]. cbn [mbind option_bind] in E. injection E as <-.
    destruct (access_bands _ _ (prod w) _ _ _ _ Hp (proj1 (Ht a p Ha)) (T a p Ha) Ea B) as [B' P']. split; [exact B'|]. cbn. intros b pb Hpb. destruct (decide (b = a)) as [->|Hne].
    + rewrite list_lookup_insert_eq in Hpb by (by eapply lookup_lt_Some). by injection Hpb as <-.
    + rewrite list_lookup_insert_ne in Hpb by done. destruct (in_section pb) eqn:Es; [|by apply start_ok_outside].
      destruct (in_section p) eqn:Esp; [destruct Hne; by eapply Hu|]. eapply start_ok_same; [|by eapply T].
      clear -Ea Esp. destruct (state w) as [c k]. destruct p; try done; cbn [band_access band_api looking camera_stream_stop camera_band_start cam_band_claim cam_band_release cam_band_stream_lost cam fan] in Ea; repeat case_match; try done; by injection Ea as <- <-.
  - destruct (produce finish (prod w) (state w)) as [[q s]|] eqn:Ep; [|done]. cbn [mbind option_bind] in E. injection E as <-. split; [by eapply produce_bands|]. cbn. eapply Hoth, produce_start, Ep.
  - case_guard as Hg; [|done]. cbn in E. injection E as <-. destruct Hg as [Hg0 Hg]. split; [by apply complete_bands|]. cbn.
    intros a p Ha. specialize (T a p Ha). pose proof (Ht a p Ha) as [L _]. destruct p; cbn in T |- *; try done; try (destruct T; congruence).
    destruct L as (_ & _ & A & _). unfold cam_stream_dma_cb, dma_turns. destruct (handing (prod w)); cbn; rewrite A; exact T.
  - injection E as <-. split.
    + eapply same_bands_ok; [| |done|exact B]; cbn; unfold cam_stream_error; repeat case_match; by repeat split.
    + apply Hoth. cbn. unfold cam_stream_error. repeat case_match; by split.
  - injection E as <-. split.
    + eapply same_bands_ok; [| |done|exact B]; cbn; unfold HAL_DCMI_FrameEventCallback; repeat case_match; by repeat split.
    + apply Hoth. cbn. unfold HAL_DCMI_FrameEventCallback. repeat case_match; by split.
  - case_guard as Hg; [|done]. destruct Hg as [G1 G2]. cbn in E. injection E as <-. split; [|by apply Hoth].
    assert (M : mode (state w) = false) by (destruct Hc as [_ Hm]; destruct (mode (state w)); [destruct (Hm eq_refl); congruence|done]).
    eapply same_bands_ok; [done| |done|exact B]. intros _ X. cbn in X. congruence.
Qed.

Lemma reach_winv n w : reach n w -> winv w.
Proof.
  intros R. apply (rtc_ind_r (R := step) winv (band_boot n)); [split; [apply band_inv_boot|split] | |exact R].
  - unfold bands_ok. cbn. split_and!; done || lia.
  - intros a p Ha. cbn in Ha. apply lookup_replicate in Ha as [-> _]. done.
  - intros x y _ S I. by eapply winv_step.
Qed.

Lemma next_buffer k m : u32 (k + m) mod 2 <> (k + (m + 1)) mod 2.
Proof. unfold u32. Z.div_mod_to_equations. lia. Qed.

(** C23: whatever the interrupts and the threads do, in the first 2^32 - 1 transfers of a
    stream, the bands handed to the callback come
    in order, one that does not begin a frame right after the band before it, and that one
    not overtaken; a band is overtaken when the DMA completes a transfer, and so turns to the
    band's buffer, before the producer is done with it.  Between bands the frame
    counter is the number of frames of which all four bands were handed over and none was
    overtaken, the torn counter that of the overtaken bands; and while a band is in the
    producer's hands and not overtaken, the DMA fills the other buffer. *)
Theorem cam_bands_in_order n w : reach n w ->
  let c := cam (state w) in
  in_order (handed c) /\
  (handing (prod w) = None -> cam_band_torn c = overtaken (handed c) /\ cam_band_frames c = whole_frames (handed c)) /\
  (forall h1 m h2, handed c = h1 ++ (m, false) :: h2 -> m mod CAMERA_BANDS_PER_FRAME = CAMERA_BANDS_PER_FRAME - 1 -> exists h, h2 = (m - 1, false) :: (m - 2, false) :: (m - 3, false) :: h) /\
  (forall s m, handing (prod w) = Some (s, m) -> exists over h, handed c = (m, over) :: h /\ (over = false -> band_buf m c <> dma_ct c)).
Proof.
  intros R c. destruct (reach_winv _ _ R) as ((_ & (_ & Ha & Hm) & _) & (H1 & H2 & H3 & H4 & H5) & _). fold c in H1, H2, H3, H4, H5. split; [done|]. split; [|split].
  - intros Hh. rewrite Hh in H5. destruct H5 as (A & B & _). done.
  - intros h1 m h2 E Hmod. rewrite E in H3. apply in_order_suffix in H3. by eapply in_order_whole.
  - intros s m Hq. rewrite Hq in H5. destruct H5 as (A & -> & B & D & h & E & F). exists (negb (cam_band_seq c =? m + 1)), h. split; [done|].
    intros Es. apply negb_false_iff, Z.eqb_eq in Es. assert (X : active (state w) = true /\ mode (state w) = true) by (destruct (prod w); done).
    rewrite (H4 (proj1 X) (proj2 X)) by lia. unfold band_buf. rewrite Es.
    apply next_buffer.
Qed.

(** ** Runs *)

Module BandRun.
Definition go (a n : nat) : list move := replicate n (M_go a true 0).
Definition prd (n : nat) : list move := replicate n (M_produce false).
Definition boot_prod : list move := prd 1.

Lemma run_reach ms w w' : run ms w = Some w' -> rtc step w w'.
Proof.
  unfold run. revert w. induction ms as [|m ms IH]; intros w; cbn [foldl]; [intros [= ->]; constructor|].
  cbn [mbind option_bind]. destruct (next m w) as [w1|] eqn:E; [|intros F; exfalso; clear -F; induction ms; [done|by apply IHms]]. intros F. econstructor; [by exists m|by apply IH].
Qed.

(** A claim that starts the stream: 13 accesses. *)
Definition claiming (a c : nat) : list move := M_call a (O_claim c 0 7) :: go a 14.

(** The preview claims, band 0 reaches its callback, the release waits for it and stops
    the stream. *)
Definition release_run : list move :=
  boot_prod ++ claiming 0 CAM_BAND_PREVIEW ++ [M_complete] ++ prd 9 ++ [M_call 0 (O_release CAM_BAND_PREVIEW)] ++ go 0 4 ++ prd 7 ++ go 0 10 ++ prd 5 ++ go 0 2.

Definition released : world := default (band_boot 1) (run release_run (band_boot 1)).

(** The observer looks for a dead stream while the other thread starts the first one:
    it saw no arming before, and the claim without the stream in between. *)
Definition false_positive : list move :=
  boot_prod ++ [M_call 1 O_lost] ++ go 1 2 ++ [M_call 0 (O_claim CAM_BAND_NN 0 7)] ++ go 0 5 ++ go 1 3 ++ go 0 9 ++ go 1 2 ++ [M_complete] ++ prd 8.

(** The stream has died; the observer has seen it, and stores the latch after the other
    thread's claim has cleared it and started the stream again. *)
Definition recovery_undone : list move :=
  boot_prod ++ claiming 0 CAM_BAND_NN ++ [M_error true] ++ prd 8 ++ [M_call 1 O_lost] ++ go 1 5 ++ prd 1 ++ claiming 0 CAM_BAND_NN ++ go 1 2 ++ [M_complete] ++ prd 8.

Definition no_failure (ms : list move) : bool := forallb (fun m => match m with M_error _ => false | M_call _ O_stop | M_call _ (O_release _) => false | _ => true end) ms.

(** A claim has answered OK, its stream runs and hands over a band, the latch is set, and
    the client is not called. *)
Definition live_but_lost (w : world) : Prop :=
  threads w !! 0%nat = Some (P_idle CAM_BAND_OK) /\ claimed (state w) CAM_BAND_NN = true /\ active (state w) = true /\ mode (state w) = true /\ dma (cam (state w)) = true /\
  band_lost (fan (state w)) = true /\ handed (cam (state w)) = [(0, false)] /\ prod w = Q_check 1 0.

(** C40: [band_arming] does not keep [cam_band_stream_lost] from latching a false positive:
    an observer that looked at it before the claim set it latches a stream that never died,
    and the claimed client gets no band of it; and an observer that has seen
    the stream dead can store the latch after a claim has cleared it and started the stream
    again, which undoes the recovery. *)
Theorem lost_latch_races : 
  (exists w, rtc step (band_boot 2) w /\ run false_positive (band_boot 2) = Some w /\ no_failure false_positive = true /\ live_but_lost w) /\
  (exists w, rtc step (band_boot 2) w /\ run recovery_undone (band_boot 2) = Some w /\ live_but_lost w).
Proof.
  split.
  - destruct (run false_positive (band_boot 2)) as [w|] eqn:E; [|by vm_compute in E]. exists w. split; [by eapply run_reach|]. split; [done|]. split; [by vm_compute|]. vm_compute in E. injection E as <-. by repeat split.
  - destruct (run recovery_undone (band_boot 2)) as [w|] eqn:E; [|by vm_compute in E]. exists w. split; [by eapply run_reach|]. split; [done|]. vm_compute in E. injection E as <-. by repeat split.
Qed.

(** A frame of which a client gets the first band only: the DMA overtakes it. *)
Definition overtaken_run : list move :=
  boot_prod ++ claiming 0 CAM_BAND_NN ++ [M_complete] ++ prd 10 ++ [M_complete] ++ prd 9 ++ replicate 3 M_complete ++ prd 13.
Example partial_frame : option_map (fun w => handed (cam (state w))) (run overtaken_run (band_boot 1)) = Some [(4, false); (0, true)].
Proof. vm_compute. reflexivity. Qed.

Lemma cam_band_release_safe_witness : rtc step (band_boot 1) released /\ (forall w', rtc (step_but (eq CAM_BAND_PREVIEW)) released w' -> in_callback CAM_BAND_PREVIEW (prod w') = false) /\ (forall w', rtc (step_but (fun _ => True)) released w' -> down (state w')).
Proof.
  assert (R : rtc step (band_boot 1) released) by (apply (run_reach release_run); vm_compute; reflexivity).
  assert (T : threads released !! 0%nat = Some (P_unlock CAM_BAND_OK (O_release CAM_BAND_PREVIEW))) by (vm_compute; reflexivity).
  assert (O : is_release (O_release CAM_BAND_PREVIEW)) by (cbn; unfold CAM_BAND_PREVIEW, CAM_BAND_CLIENTS; lia).
  destruct (cam_band_release_safe 1 released 0%nat CAM_BAND_OK (O_release CAM_BAND_PREVIEW) R T (or_introl (conj O eq_refl))) as [A B].
  split; [exact R|]. split; [exact A|]. intros w' W. apply (B O); [|exact W]. intros j. destruct j as [|j]; [vm_compute; reflexivity|]. destruct (decide (j = 0%nat)) as [->|]; vm_compute; reflexivity.
Defined.

(** Four bands, none overtaken. *)
Definition frame_run : list move := boot_prod ++ claiming 0 CAM_BAND_NN ++ [M_complete] ++ prd 14 ++ concat (replicate 3 ([M_complete] ++ prd 13)).
Lemma cam_bands_in_order_witness :
  (exists w, run frame_run (band_boot 1) = Some w /\ cam_band_frames (cam (state w)) = 1 /\ whole_frames (handed (cam (state w))) = 1) /\
  (exists w, run overtaken_run (band_boot 1) = Some w /\ cam_band_torn (cam (state w)) = 1 /\ overtaken (handed (cam (state w))) = 1).
Proof.
  split.
  - destruct (run frame_run (band_boot 1)) as [w|] eqn:E; [|by vm_compute in E]. exists w. split; [done|].
    destruct (cam_bands_in_order 1 w (run_reach _ _ _ E)) as (_ & F & _). vm_compute in E. injection E as <-.
    destruct (F eq_refl) as [_ F']. split; [reflexivity|]. exact (eq_sym F').
  - destruct (run overtaken_run (band_boot 1)) as [w|] eqn:E; [|by vm_compute in E]. exists w. split; [done|].
    destruct (cam_bands_in_order 1 w (run_reach _ _ _ E)) as (_ & F & _). vm_compute in E. injection E as <-.
    destruct (F eq_refl) as [F' _]. split; [reflexivity|]. exact (eq_sym F').
Defined.
End BandRun.
