(* ===== verification/RtlFlash.v ===== *)
(** * Rewriting the Wi-Fi module's flash ([src/app/rtl8720_flash.c])

    The download protocol of the RTL8720's boot ROM and of the loader it is given: entry,
    block transfers, erase, read, digest, and [rtl_dl_flash_program], the one function that
    erases and writes.  The board is a class: the UART of [Rtl8720], the module's power and
    the strap pin, the pass_ticks counter, the console's abort hook.  What is put on the
    wire, what came from it and the pin are recorded, and the theorems are about the record. *)

From S2P Require Import Prelude Fmt.
Local Open Scope Z_scope.

(** ** The digest *)

Record rtl_dl_digest : Type := Digest { sum : Z; acc : Z; nacc : Z }.
Definition rtl_dl_digest_init : rtl_dl_digest := Digest 0 0 0.

Definition digest_byte (d : rtl_dl_digest) (b : Z) : rtl_dl_digest :=
  let acc' := Z.lor (acc d) (u32 (Z.shiftl b (8 * nacc d))) in
  let n := nacc d + 1 in
  if n =? 4 then Digest (sum d +% acc') 0 0 else Digest (sum d) acc' n.
Definition rtl_dl_digest_add (d : rtl_dl_digest) (p : list Z) : rtl_dl_digest := foldl digest_byte d p.
Definition rtl_dl_digest_value (d : rtl_dl_digest) : Z := if nacc d =? 0 then sum d else sum d +% acc d.
Definition digest (p : list Z) : Z := rtl_dl_digest_value (rtl_dl_digest_add rtl_dl_digest_init p).

(** Commands and replies. *)
Definition RTL_DL_READ_WORD : Z := 49.
Definition RTL_DL_STATUS_OK : Z := 21.
Definition RTL_DL_ACK : Z := 6.
Definition RTL_DL_CAN : Z := 24.
Definition RTL_DL_SOH : Z := 1.
Definition RTL_DL_STX : Z := 2.
Definition RTL_DL_EOT : Z := 4.
Definition RTL_DL_XMD_START : Z := 7.
Definition RTL_DL_SETBAUD : Z := 5.
Definition RTL_DL_READFLASH : Z := 32.
Definition RTL_DL_GETSTATUS : Z := 33.
Definition RTL_DL_CHKSUM : Z := 39.
Definition RTL_DL_ERASE : Z := 23.

Definition RTL_DL_STUB_ADDR : Z := 532480.
Definition RTL_DL_STUB_ENTRY : Z := 532513.
Definition RTL_DL_FLASH_BASE : Z := 134217728.
Definition RTL_DL_FLASH_READ_MAX : Z := 16777216.
Definition RTL_DL_FLASH_WRITE_MAX : Z := 2097152.
Definition RTL_DL_ACK_MS_SRAM : Z := 1000.
Definition RTL_DL_ACK_MS_FLASH : Z := 3000.
Definition RTL_DL_SIZE_PROBE_LEN : Z := 4096.
Definition rtl_dl_km0_magic : list Z := [153; 153; 150; 150; 63; 204; 102; 252].

(** ** SLIP, for the entry probe *)

Fixpoint slip_body (l out : list Z) (cap : Z) : option (list Z) :=
  match l with
  | [] => Some out
  | b :: l =>
      let o := Z.of_nat (length out) in
      if b =? 192 then if cap <? o + 2 then None else slip_body l (out ++ [219; 220]) cap
      else if b =? 219 then if cap <? o + 2 then None else slip_body l (out ++ [219; 221]) cap
      else if cap <=? o then None else slip_body l (out ++ [b]) cap
  end.
(** The encoded bytes; [None] is -1. *)
Definition slip_encode (l : list Z) (cap : Z) : option (list Z) :=
  if cap <=? 0 then None
  else out ← slip_body l [192] cap; if cap <=? Z.of_nat (length out) then None else Some (out ++ [192]).

Fixpoint slip_decode_loop (l out : list Z) (started esc : bool) (cap : Z) : list Z :=
  match l with
  | [] => out
  | b :: l =>
      if b =? 192 then if started && negb (length out =? 0)%nat then out else slip_decode_loop l out true esc cap
      else if negb started then slip_decode_loop l out started esc cap
      else
        let put c := if Z.of_nat (length out) <? cap then out ++ [c] else out in
        if esc then slip_decode_loop l (put (if b =? 220 then 192 else if b =? 221 then 219 else b)) started false cap
        else if b =? 219 then slip_decode_loop l out started true cap
        else slip_decode_loop l (put b) started false cap
  end.
Definition slip_decode (l : list Z) (cap : Z) : list Z := slip_decode_loop l [] false false cap.

(** ** The board *)

(** [rx n]: what [rtl8720_uart_read] finds, [n] bytes at most; [aborting]: the
    caller's [should_abort]; [reopen]: [rtl8720_uart_open] on the LOG pins. *)
Class Board (W : Type) := {
  tx_time_get : W -> Z;
  tx_thread_sleep : Z -> W -> W;
  udelay : Z -> W -> W;
  rx : Z -> W -> list Z * W;
  tx : list Z -> W -> W;
  reopen : Z -> W -> Z * W;
  shut : W -> W;
  overflows : W -> Z;
  force_quiesce : W -> W;
  power : bool -> W -> W;
  strap : bool -> W -> W;
  aborting : W -> bool * W;
}.

Section download.
Context {W : Type} `{Board W}.

(** [strap_low]: PD14 is an output, driven low.  [sent] and [rcvd]: what was put on the
    wire, and what came from it, in order. *)
Record dst : Type := Dst { brd : W; sent : list (list Z); rcvd : list Z; strap_low : bool }.
Definition on_brd (f : W -> W) (s : dst) : dst := Dst (f (brd s)) (sent s) (rcvd s) (strap_low s).
Definition now (s : dst) : Z := tx_time_get (brd s).
Definition sleep (n : Z) (s : dst) : dst := on_brd (tx_thread_sleep n) s.
(** The UART of the board, its traffic recorded. *)
Definition dl_uart_read (n : Z) (s : dst) : list Z * dst := let '(l, w) := rx n (brd s) in (l, Dst w (sent s) (rcvd s ++ l) (strap_low s)).
Definition dl_uart_write (l : list Z) (s : dst) : dst := Dst (tx l (brd s)) (sent s ++ [l]) (rcvd s) (strap_low s).
Definition dl_uart_open (baud : Z) (s : dst) : Z * dst := let '(rc, w) := reopen baud (brd s) in (rc, Dst w (sent s) (rcvd s) (strap_low s)).
Definition rtl8720_power (on : bool) (s : dst) : dst := on_brd (power on) s.
(** [should_abort != NULL && should_abort(ctx)]. *)
Definition abort (ab : bool) (s : dst) : bool * dst := if ab then let '(a, w) := aborting (brd s) in (a, Dst w (sent s) (rcvd s) (strap_low s)) else (false, s).

Definition dl_strap_drive_low (s : dst) : dst := Dst (strap true (brd s)) (sent s) (rcvd s) true.
Definition dl_strap_release_input (s : dst) : dst := Dst (strap false (brd s)) (sent s) (rcvd s) false.

(** The loops over the wire are fuelled; [None]: out of fuel. *)
Context (fuel : nat).

Definition past (deadline : Z) (s : dst) : bool := 0 <=? s32 (now s -% deadline).

(** *** Waiting *)

Fixpoint wait_ms_loop (n : nat) (deadline : Z) (ab : bool) (s : dst) : option (Z * dst) :=
  match n with
  | O => None
  | S n =>
      if negb (past deadline s) then
        let '(a, s) := abort ab s in if a then Some (-1, s) else wait_ms_loop n deadline ab (sleep 1 s)
      else Some (0, s)
  end.
Definition dl_wait_ms (ms : Z) (ab : bool) (s : dst) : option (Z * dst) := wait_ms_loop fuel (now s +% ms) ab s.

(** 0: [cap] bytes; 1: the time is up, with fewer; -2: aborted. *)
Fixpoint recv_loop (n : nat) (cap : nat) (got : list Z) (deadline : Z) (ab : bool) (s : dst) : option (Z * list Z * dst) :=
  match n with
  | O => None
  | S n =>
      if (cap <=? length got)%nat then Some (0, got, s)
      else
        let '(l, s) := dl_uart_read (Z.of_nat (cap - length got)) s in
        let got := got ++ l in
        if (cap <=? length got)%nat then Some (0, got, s)
        else
          let '(a, s) := abort ab s in
          if a then Some (-2, got, s) else if past deadline s then Some (1, got, s) else recv_loop n cap got deadline ab (sleep 1 s)
  end.
(** The bytes, or -2. *)
Definition dl_recv (cap : nat) (timeout_ms : Z) (ab : bool) (s : dst) : option (option (list Z) * dst) :=
  '(rc, got, s) ← recv_loop fuel cap [] (now s +% timeout_ms) ab s; Some (if rc =? -2 then None else Some got, s).
Definition dl_read_exact (n : nat) (timeout_ms : Z) (ab : bool) (s : dst) : option (Z * list Z * dst) :=
  '(rc, got, s) ← recv_loop fuel n [] (now s +% timeout_ms) ab s; Some (if rc =? 1 then -1 else rc, got, s).

Fixpoint wait_byte_loop (n : nat) (want deadline : Z) (ab : bool) (s : dst) : option (Z * dst) :=
  match n with
  | O => None
  | S n =>
      let '(l, s) := dl_uart_read 1 s in
      match l with
      | b :: _ => if b =? want then Some (0, s) else wait_byte_loop n want deadline ab s
      | [] =>
          let '(a, s) := abort ab s in
          if a then Some (-2, s) else if past deadline s then Some (-1, s) else wait_byte_loop n want deadline ab (sleep 1 s)
      end
  end.
Definition dl_wait_byte (want timeout_ms : Z) (ab : bool) (s : dst) : option (Z * dst) := wait_byte_loop fuel want (now s +% timeout_ms) ab s.

Definition dl_send_wait_ack (cmd : list Z) (timeout_ms : Z) (ab : bool) (s : dst) : option (Z * dst) := dl_wait_byte RTL_DL_ACK timeout_ms ab (dl_uart_write cmd s).

Fixpoint quiet_loop (n : nat) (start last quiet_ms max_ms : Z) (s : dst) : option dst :=
  match n with
  | O => None
  | S n =>
      let '(l, s) := dl_uart_read 64 s in
      match l with
      | _ :: _ => quiet_loop n start (now s) quiet_ms max_ms s
      | [] => if quiet_ms <=? s32 (now s -% last) then Some s else if max_ms <=? s32 (now s -% start) then Some s else quiet_loop n start last quiet_ms max_ms (sleep 1 s)
      end
  end.
Definition dl_drain_quiet (quiet_ms max_ms : Z) (s : dst) : option dst := quiet_loop fuel (now s) (now s) quiet_ms max_ms s.

(** *** Entry *)

Definition rtl_dl_enter (hold_us : Z) (ab : bool) (s : dst) : option (Z * dst) :=
  let s := on_brd force_quiesce s in
  let s := dl_strap_release_input s in
  let s := rtl8720_power false s in
  '(rc, s) ← dl_wait_ms 100 ab s;
  if negb (rc =? 0) then Some (-4, s)
  else
    let s := dl_strap_drive_low s in
    '(rc, s) ← dl_wait_ms 400 ab s;
    if negb (rc =? 0) then Some (-4, dl_strap_release_input s)
    else
      let s := rtl8720_power true s in
      let s := if negb (hold_us =? 0) then on_brd (udelay hold_us) s else s in
      let s := dl_strap_release_input s in
      let '(rc, s) := dl_uart_open 115200 s in
      if negb (rc =? 0) then Some (-1, s)
      else '(rc, s) ← dl_wait_ms 20 ab s; if negb (rc =? 0) then Some (-4, on_brd shut s) else Some (0, s).

Definition probe_cmd : list Z := RTL_DL_READ_WORD :: le32 532480.
(** The first framed reply in the bytes received. *)
Fixpoint find_reply (p : list Z) : option Z :=
  match p with
  | b :: p' => if (6 <=? length p)%nat && (b =? RTL_DL_READ_WORD) && (nth 5 p 0 =? RTL_DL_STATUS_OK) then Some (get32 p') else find_reply p'
  | [] => None
  end.
Fixpoint drain_ring (n : nat) (s : dst) : option dst :=
  match n with O => None | S n => let '(l, s) := dl_uart_read 64 s in match l with [] => Some s | _ => drain_ring n s end end.
(** [r->entered], [r->word], [r->raw], [r->overflows]. *)
Record rtl_dl_result : Type := Probe { entered : option Z; raw : list Z; r_overflows : Z }.
Definition rtl_dl_probe (use_slip : bool) (timeout_ms : Z) (ab : bool) (s : dst) : option (Z * rtl_dl_result * dst) :=
  s ← drain_ring fuel s;
  match (if use_slip then slip_encode probe_cmd 16 else Some probe_cmd) with
  | None => Some (-1, Probe None [] 0, s)
  | Some cmd =>
      '(got, s) ← dl_recv 32 timeout_ms ab (dl_uart_write cmd s);
      match got with
      | None => Some (-4, Probe None [] (overflows (brd s)), s)
      | Some got => Some (0, Probe (find_reply (if use_slip then slip_decode got 32 else got)) got (overflows (brd s)), s)
      end
  end.

(** *** The loader *)

Definition dl_read_word (addr : Z) (ab : bool) (s : dst) : option (Z * Z * dst) :=
  s ← dl_drain_quiet 10 200 s;
  let s := dl_uart_write (RTL_DL_READ_WORD :: le32 addr) s in
  '(rr, s) ← dl_wait_byte RTL_DL_READ_WORD 500 ab s;
  if negb (rr =? 0) then Some (rr, 0, s)
  else
    '(rr, rp, s) ← dl_read_exact 5 500 ab s;
    if negb (rr =? 0) then Some (rr, 0, s) else if negb (nth 4 rp 0 =? RTL_DL_STATUS_OK) then Some (-1, 0, s) else Some (0, get32 rp, s).

(** A block: header, destination, data padded with 0xFF, checksum. *)
Definition block_size (rem : Z) : Z := if 128 <? rem then 1024 else 128.
Definition block_pkt (seq addr : Z) (big : bool) (data : list Z) : list Z :=
  let body := le32 addr ++ data in [if big then RTL_DL_STX else RTL_DL_SOH; seq; u8 (255 - seq)] ++ body ++ [Z.land (foldl (fun a b => a +% b) 0 body) 255].

Fixpoint send_blocks_loop (n : nat) (data : list Z) (off addr32 seq ack_ms : Z) (ab : bool) (s : dst) : option (Z * dst) :=
  match n with
  | O => None
  | S n =>
      let len := Z.of_nat (length data) in
      if off <? len then
        let rem := len - off in
        let N := block_size rem in
        let take_ := if rem <? N then rem else N in
        let chunk := slice (Z.to_nat off) (Z.to_nat take_) data ++ replicate (Z.to_nat (N - take_)) 255 in
        '(rr, s) ← dl_send_wait_ack (block_pkt seq (addr32 +% off) (128 <? rem) chunk) ack_ms ab s;
        if negb (rr =? 0) then Some (if rr =? -2 then -2 else -3, s)
        else send_blocks_loop n data (off + take_) addr32 (u8 (seq + 1)) ack_ms ab s
      else
        '(rr, s) ← dl_send_wait_ack [RTL_DL_EOT] 1000 ab s; Some (if negb (rr =? 0) then -2 else 0, s)
  end.
(** A turn takes a byte at least. *)
Definition dl_send_blocks (data : list Z) (addr32 ack_ms : Z) (ab : bool) (s : dst) : option (Z * dst) :=
  '(rr, s) ← dl_send_wait_ack [RTL_DL_XMD_START] 500 ab s;
  if negb (rr =? 0) then Some (-2, s) else send_blocks_loop (S (length data)) data 0 addr32 1 ack_ms ab s.

Definition dl_send_sram (data : list Z) (sram_addr : Z) (ab : bool) (s : dst) : option (Z * dst) :=
  if negb (sram_addr =? RTL_DL_STUB_ADDR) then Some (-1, s)
  else if (Z.of_nat (length data) =? 0) || (65536 <? Z.of_nat (length data)) then Some (-1, s)
  else dl_send_blocks data sram_addr RTL_DL_ACK_MS_SRAM ab s.

Definition dl_flash_range_ok (off len max : Z) : bool :=
  if negb (Z.land off 4095 =? 0) || negb (Z.land len 4095 =? 0) || (len =? 0) then false
  else if max <=? off then false else if max - off <? len then false else true.

Definition dl_send_flash (data : list Z) (flash_off : Z) (ab : bool) (s : dst) : option (Z * dst) :=
  if negb (dl_flash_range_ok flash_off (Z.of_nat (length data)) RTL_DL_FLASH_WRITE_MAX) then Some (-1, s)
  else dl_send_blocks data (Z.lor (Z.land flash_off 16777215) RTL_DL_FLASH_BASE) RTL_DL_ACK_MS_FLASH ab s.

Definition erase_pkt (off : Z) : list Z := [RTL_DL_ERASE; u8 off; u8 (Z.shiftr off 8); u8 (Z.shiftr off 16); 1; 0].
Fixpoint erase_each (n : nat) (i offset : Z) (ab : bool) (s : dst) : option (Z * dst) :=
  match n with
  | O => Some (0, s)
  | S n => '(rr, s) ← dl_send_wait_ack (erase_pkt (offset +% i * 4096)) 2000 ab s; if negb (rr =? 0) then Some (-2, s) else erase_each n (i + 1) offset ab s
  end.
Definition dl_erase_sectors (offset nsectors : Z) (ab : bool) (s : dst) : option (Z * dst) :=
  if (nsectors =? 0) || (65536 <? nsectors) then Some (-1, s)
  else if negb (dl_flash_range_ok offset (u32 (nsectors * 4096)) RTL_DL_FLASH_WRITE_MAX) then Some (-1, s)
  else erase_each (Z.to_nat nsectors) 0 offset ab s.

Definition rtl_dl_set_baud (baud : Z) (s : dst) : option (Z * dst) :=
  match (if baud =? 115200 then Some 13 else if baud =? 1500000 then Some 24 else None) with
  | None => Some (-1, s)
  | Some idx =>
      '(rr, s) ← dl_send_wait_ack [RTL_DL_SETBAUD; idx] 500 false s;
      if negb (rr =? 0) then Some (-2, s) else let '(rc, s) := dl_uart_open baud s in Some (if negb (rc =? 0) then -3 else 0, s)
  end.

(** [rtl8720_flashloader], embedded by the build. *)
Context (flashloader : list Z).

Definition rtl_dl_load_flashloader (target_baud : Z) (ab : bool) (s : dst) : option (Z * dst) :=
  if negb (target_baud =? 115200) && negb (target_baud =? 1500000) then Some (-1, s)
  else
    '(rc, s) ← (if negb (target_baud =? 115200) then rtl_dl_set_baud target_baud s else Some (0, s));
    if negb (rc =? 0) then Some (-2, s)
    else
      '(rc, word, s) ← dl_read_word RTL_DL_STUB_ADDR ab s;
      if rc =? -2 then Some (-7, s)
      else if (rc =? 0) && (word =? RTL_DL_STUB_ENTRY) then Some (0, s)
      else
        '(rc, s) ← dl_send_sram flashloader RTL_DL_STUB_ADDR ab s;
        if negb (rc =? 0) then Some (-3, s)
        else
          let '(rc, s) := dl_uart_open 115200 s in
          if negb (rc =? 0) then Some (-4, s)
          else
            let s := sleep 50 s in
            '(rc, s) ← (if negb (target_baud =? 115200) then rtl_dl_set_baud target_baud s else Some (0, s));
            if negb (rc =? 0) then Some (-5, s)
            else
              '(rc, word, s) ← dl_read_word RTL_DL_STUB_ADDR ab s;
              if rc =? -2 then Some (-7, s) else if negb (rc =? 0) || negb (word =? RTL_DL_STUB_ENTRY) then Some (-6, s) else Some (0, s).

(** *** Reading *)

Definition dl_spi_read (opcode : Z) (n : nat) (ab : bool) (s : dst) : option (Z * list Z * dst) :=
  if (n =? 0)%nat || (8 <? n)%nat then Some (-1, [], s)
  else
    s ← dl_drain_quiet 10 200 s;
    '(rr, s) ← dl_wait_byte RTL_DL_GETSTATUS 500 ab (dl_uart_write [RTL_DL_GETSTATUS; opcode; Z.of_nat n] s);
    if negb (rr =? 0) then Some (rr, [], s) else dl_read_exact n 500 ab s.

Definition rtl_dl_flash_chksum (off len timeout_ms : Z) (ab : bool) (s : dst) : option (Z * Z * dst) :=
  if negb (dl_flash_range_ok off len RTL_DL_FLASH_READ_MAX) then Some (-1, 0, s)
  else
    s ← dl_drain_quiet 10 200 s;
    let s := dl_uart_write [RTL_DL_CHKSUM; u8 off; u8 (Z.shiftr off 8); u8 (Z.shiftr off 16); u8 len; u8 (Z.shiftr len 8); u8 (Z.shiftr len 16)] s in
    '(rr, s) ← dl_wait_byte RTL_DL_CHKSUM timeout_ms ab s;
    if negb (rr =? 0) then Some (rr, 0, s)
    else '(rr, rp, s) ← dl_read_exact 4 1000 ab s; Some (if negb (rr =? 0) then (rr, 0, s) else (0, get32 rp, s)).

Fixpoint status_loop (ops : list Z) (sr : list Z) (ab : bool) (s : dst) : option (Z * list Z * dst) :=
  match ops with
  | [] => Some (0, sr, s)
  | op :: ops => '(rr, l, s) ← dl_spi_read op 1 ab s; if negb (rr =? 0) then Some (-2, sr, s) else status_loop ops (sr ++ l) ab s
  end.
Definition rtl_dl_flash_status (ab : bool) (s : dst) : option (Z * list Z * dst) := status_loop [5; 53; 21] [] ab s.

(** [j->id] and [j->size], when [j->ok]. *)
Definition rtl_dl_flash_jedec (ab : bool) (s : dst) : option (Z * option (list Z * Z) * dst) :=
  '(rr, l, s) ← dl_spi_read 159 1 ab s;
  if negb (rr =? 0) then Some (-2, None, s)
  else
    let b := nth 0 l 0 in
    if (b =? 0) || (b =? 255) then Some (0, None, s)
    else
      '(rr, id, s) ← dl_spi_read 159 3 ab s;
      if negb (rr =? 0) || negb (nth 0 id 0 =? b) then Some (0, None, s)
      else let c := nth 2 id 0 in Some (0, Some (id, if (16 <=? c) && (c <=? 25) then u32 (Z.shiftl 1 c) else 0), s).

(** One block of a read: its data, or the error. *)
Definition read_block (i : Z) (ab : bool) (s : dst) : option (Z * list Z * dst) :=
  '(rr, s) ← dl_wait_byte RTL_DL_STX 2000 ab s;
  if negb (rr =? 0) then Some (-2, [], s)
  else
    '(rr, blk, s) ← dl_read_exact 1027 2000 ab s;
    if negb (rr =? 0) then Some (-2, [], s)
    else
      let data := slice 2 1024 blk in
      if negb (nth 0 blk 0 =? u8 (i + 1)) || negb (nth 1 blk 0 =? u8 (Z.lxor (nth 0 blk 0) 255)) then Some (-3, [], s)
      else if negb (u8 (Z.land (foldl (fun a b => a +% b) 0 data) 255) =? nth 1026 blk 0) then Some (-3, [], dl_uart_write [RTL_DL_CAN] s)
      else Some (0, data, s).
(** [buf]: the bytes kept so far, [cap] at most. *)
Fixpoint read_blocks (n : nat) (i : Z) (buf : list Z) (cap : nat) (ab : bool) (s : dst) : option (Z * list Z * dst) :=
  match n with
  | O => Some (0, buf, s)
  | S n =>
      '(rr, data, s) ← read_block i ab s;
      if negb (rr =? 0) then Some (rr, buf, s)
      else
        let buf := buf ++ take (cap - length buf) data in
        match n with
        | S _ => read_blocks n (i + 1) buf cap ab (dl_uart_write [RTL_DL_ACK] s)
        | O => '(rr, s) ← dl_send_wait_ack [RTL_DL_CAN] 1000 ab s; Some (if negb (rr =? 0) then (-2, buf, s) else (0, buf, s))
        end
  end.
(** The number of bytes, or the error, and the bytes. *)
Definition rtl_dl_read_flash (offset nsectors : Z) (cap : nat) (ab : bool) (s : dst) : option (Z * list Z * dst) :=
  if (nsectors =? 0) || (65536 <? nsectors) then Some (-1, [], s)
  else if negb (dl_flash_range_ok offset (u32 (nsectors * 4096)) RTL_DL_FLASH_READ_MAX) then Some (-1, [], s)
  else
    s ← dl_drain_quiet 10 200 s;
    let s := dl_uart_write [RTL_DL_READFLASH; u8 offset; u8 (Z.shiftr offset 8); u8 (Z.shiftr offset 16); u8 nsectors; u8 (Z.shiftr nsectors 8)] s in
    '(rr, buf, s) ← read_blocks (Z.to_nat (nsectors * 4)) 0 [] cap ab s;
    Some (if rr =? 0 then Z.of_nat (length buf) else rr, buf, s).

Definition size_cands : list Z := [1048576; 2097152; 4194304; 8388608].
Record rtl_dl_size : Type := Size { size : Z; probed : Z; blank : bool }.
Fixpoint size_loop (cands : list Z) (ref : list Z) (probed : Z) (ab : bool) (s : dst) : option (Z * rtl_dl_size * dst) :=
  match cands with
  | [] => Some (0, Size 0 probed false, s)
  | c :: cands =>
      '(rc, cand, s) ← rtl_dl_read_flash c (RTL_DL_SIZE_PROBE_LEN / 4096) (Z.to_nat RTL_DL_SIZE_PROBE_LEN) ab s;
      if rc <? RTL_DL_SIZE_PROBE_LEN then Some (-2, Size 0 probed false, s)
      else if bool_decide (ref = cand) then Some (0, Size c (probed + 1) false, s) else size_loop cands ref (probed + 1) ab s
  end.
Definition rtl_dl_detect_size (ab : bool) (s : dst) : option (Z * rtl_dl_size * dst) :=
  '(rc, ref, s) ← rtl_dl_read_flash 0 (RTL_DL_SIZE_PROBE_LEN / 4096) (Z.to_nat RTL_DL_SIZE_PROBE_LEN) ab s;
  if rc <? RTL_DL_SIZE_PROBE_LEN then Some (-2, Size 0 0 false, s)
  else if forallb (fun b => b =? 255) ref then Some (-3, Size 0 0 true, s)
  else size_loop size_cands ref 0 ab s.

(** *** Programming *)

Definition dl_chksum_budget_ms (len : Z) : Z := let ms := 10000 +% Z.shiftr len 6 in if 120000 <? ms then 120000 else ms.

Record rtl_dl_program : Type := Program {
  sectors : Z; erased : Z; written : Z; host_sum : Z; dev_sum : Z; r_cap : Z; cap_known : bool; erase_ok : bool; write_ok : bool; verify_ok : bool
}.
Definition program_zero : rtl_dl_program := Program 0 0 0 0 0 0 false false false false.

Definition dl_session (hold_us : Z) (ab : bool) (s : dst) : option (bool * dst) :=
  '(rc, s) ← rtl_dl_enter hold_us ab s;
  if negb (rc =? 0) then Some (false, s) else '(rc, s) ← rtl_dl_load_flashloader 1500000 ab s; Some (rc =? 0, s).

(** The part after the gates. *)
Definition program_body (offset : Z) (data : list Z) (hold_us : Z) (r : rtl_dl_program) (ab : bool) (s : dst) : option (Z * rtl_dl_program * dst) :=
  let len := Z.of_nat (length data) in
  '(rc, s) ← dl_erase_sectors offset (sectors r) ab s;
  if negb (rc =? 0) then Some (-5, r, s)
  else
    let r := Program (sectors r) (sectors r) 0 (host_sum r) 0 (r_cap r) (cap_known r) true false false in
    '(rc, s) ← dl_send_flash data offset ab s;
    if negb (rc =? 0) then Some (-6, r, s)
    else
      let r := Program (sectors r) (sectors r) len (host_sum r) 0 (r_cap r) (cap_known r) true true false in
      '(ok, s) ← dl_session hold_us ab s;
      if negb ok then Some (-7, r, s)
      else
        '(rc, dev, s) ← rtl_dl_flash_chksum offset len (dl_chksum_budget_ms len) ab s;
        if negb (rc =? 0) then Some (-8, r, s)
        else
          let r v := Program (sectors r) (sectors r) len (host_sum r) dev (r_cap r) (cap_known r) true true v in
          if negb (dev =? host_sum (r false)) then Some (-9, r false, s) else Some (0, r true, s).

Definition rtl_dl_flash_program (offset : Z) (data : option (list Z)) (hold_us : Z) (ab : bool) (s : dst) : option (Z * rtl_dl_program * dst) :=
  match data with
  | None => Some (-1, program_zero, s)
  | Some data =>
      let len := Z.of_nat (length data) in
      if negb (dl_flash_range_ok offset len RTL_DL_FLASH_WRITE_MAX) then Some (-1, program_zero, s)
      else
        let r := Program (len / 4096) 0 0 0 0 0 false false false false in
        if (offset =? 0) && negb (bool_decide (take 8 data = rtl_dl_km0_magic)) then Some (-3, r, s)
        else
          let r cap known := Program (len / 4096) 0 0 (digest data) 0 cap known false false false in
          '(ok, s) ← dl_session hold_us ab s;
          if negb ok then Some (-2, r 0 false, s)
          else
            '(rc, sz, s) ← rtl_dl_detect_size ab s;
            if rc =? -2 then Some (-10, r 0 false, s)
            else
              let known := (rc =? 0) && negb (size sz =? 0) in
              let r := r (if known then size sz else 0) known in
              if known && ((size sz <=? offset) || (size sz - offset <? len)) then Some (-4, r, s)
              else program_body offset data hold_us r ab s
  end.
End download.

(** ** The digest is the sum of the words *)

Fixpoint words_sum (p : list Z) : Z :=
  match p with
  | a :: b :: c :: d :: p => (a + 256 * b + 65536 * c + 16777216 * d) + words_sum p
  | [a; b; c] => a + 256 * b + 65536 * c
  | [a; b] => a + 256 * b
  | [a] => a
  | [] => 0
  end.

Lemma shifted_u8 b k : is_u8 b -> 0 <= k <= 24 -> u32 (Z.shiftl b k) = Z.shiftl b k.
Proof.
  intros Hb Hk. apply u32_small. unfold is_u8, is_u32 in *. rewrite Z.shiftl_mul_pow2 by lia. assert (0 < 2 ^ k <= 2 ^ 24) by (split; [lia|apply Z.pow_le_mono_r; lia]). change (2 ^ 24) with 16777216 in *. nia.
Qed.

Lemma digest_byte0 t a : is_u8 a -> digest_byte (Digest t 0 0) a = Digest t a 1.
Proof. intros Ha. unfold digest_byte. cbn [nacc acc sum]. change (8 * 0) with 0. rewrite Z.shiftl_0_r, Z.lor_0_l, (u32_small a) by (unfold is_u8, is_u32 in *; lia). reflexivity. Qed.
Lemma digest_byte1 t x b : 0 <= x < 256 -> is_u8 b -> digest_byte (Digest t x 1) b = Digest t (x + 256 * b) 2.
Proof. intros Hx Hb. unfold digest_byte. cbn [nacc acc sum]. change (8 * 1) with 8. rewrite shifted_u8, (lor_shiftl_add 8) by (exact Hx || done || lia). change (2 ^ 8) with 256. rewrite (Z.mul_comm b). reflexivity. Qed.
Lemma digest_byte2 t x b : 0 <= x < 65536 -> is_u8 b -> digest_byte (Digest t x 2) b = Digest t (x + 65536 * b) 3.
Proof. intros Hx Hb. unfold digest_byte. cbn [nacc acc sum]. change (8 * 2) with 16. rewrite shifted_u8, (lor_shiftl_add 16) by (exact Hx || done || lia). change (2 ^ 16) with 65536. rewrite (Z.mul_comm b). reflexivity. Qed.
Lemma digest_byte3 t x b : 0 <= x < 16777216 -> is_u8 b -> digest_byte (Digest t x 3) b = Digest (t +% (x + 16777216 * b)) 0 0.
Proof. intros Hx Hb. unfold digest_byte. cbn [nacc acc sum]. change (8 * 3) with 24. rewrite shifted_u8, (lor_shiftl_add 24) by (exact Hx || done || lia). change (2 ^ 24) with 16777216. rewrite (Z.mul_comm b). reflexivity. Qed.

(** However a range is cut into slices, the digest is the sum of its little-endian
    words, a partial last word included. *)
Lemma digest_spec p : bytes_ok p -> digest p = u32 (words_sum p).
Proof.
  intros Hb. unfold digest, rtl_dl_digest_init. assert (G : forall t, is_u32 t -> rtl_dl_digest_value (rtl_dl_digest_add (Digest t 0 0) p) = u32 (t + words_sum p)); [|by rewrite G].
  revert Hb. induction p as [p IH] using (induction_ltof1 _ (@length Z)). unfold ltof in IH. intros Hb t Ht.
  destruct p as [|a [|b [|c [|d p]]]]; [cbn; by rewrite Z.add_0_r, u32_small| | | |].
  all: rewrite !Forall_cons in Hb; unfold rtl_dl_digest_add; cbn [foldl words_sum].
  - destruct Hb as (Ha & _). rewrite digest_byte0 by done. reflexivity.
  - destruct Hb as (Ha & Hb & _). rewrite digest_byte0, digest_byte1 by done. reflexivity.
  - destruct Hb as (Ha & Hb & Hc & _). rewrite digest_byte0, digest_byte1, digest_byte2 by (done || unfold is_u8 in *; lia). reflexivity.
  - destruct Hb as (Ha & Hb & Hc & Hd & Hp). rewrite digest_byte0, digest_byte1, digest_byte2, digest_byte3 by (done || unfold is_u8 in *; lia).
    change (foldl digest_byte ?x p) with (rtl_dl_digest_add x p). rewrite IH by (first [done | apply u32_range | cbn; lia]). rewrite u32_add_l. f_equal. lia.
Qed.

(** ** SLIP round trip *)

Lemma slip_body_spec l out cap e : slip_body l out cap = Some e -> exists m, e = out ++ m /\
  forall tail o dcap, Z.of_nat (length o + length l) <= dcap -> slip_decode_loop (m ++ tail) o true false dcap = slip_decode_loop tail (o ++ l) true false dcap.
Proof.
  revert out. induction l as [|b l IH]; intros out E; cbn [slip_body] in E; [injection E as <-; exists []; split; [by rewrite app_nil_r|intros; by rewrite app_nil_r]|].
  assert (G : forall bs o dcap, Z.of_nat (length o + length (b :: l)) <= dcap -> (forall tail, slip_decode_loop (bs ++ tail) o true false dcap = slip_decode_loop tail (o ++ [b]) true false dcap) ->
    forall m, (forall tail o dcap, Z.of_nat (length o + length l) <= dcap -> slip_decode_loop (m ++ tail) o true false dcap = slip_decode_loop tail (o ++ l) true false dcap) ->
    forall tail, slip_decode_loop ((bs ++ m) ++ tail) o true false dcap = slip_decode_loop tail (o ++ b :: l) true false dcap).
  { intros bs o dcap Hc Hbs m Hm tail. rewrite <-app_assoc, Hbs, Hm by (rewrite length_app; cbn in *; lia). by rewrite <-app_assoc. }
  assert (Hlt : forall (o : list Z) dcap, Z.of_nat (length o + length (b :: l)) <= dcap -> Z.of_nat (length o) <? dcap = true) by (intros; cbn in *; lia).
  destruct (Z.eqb_spec b 192) as [->|H1]; [destruct (_ <? _); [done|]|destruct (Z.eqb_spec b 219) as [->|H2]; [destruct (_ <? _); [done|]|destruct (_ <=? _); [done|]]].
  all: apply IH in E as (m & -> & Hm); rewrite <-app_assoc; eexists; (split; [reflexivity|]); intros tail o dcap Hc; apply G; try done; intros t'; cbn [app slip_decode_loop].
  - rewrite Z.eqb_refl. cbn. by rewrite (Hlt o dcap Hc).
  - cbn. by rewrite (Hlt o dcap Hc).
  - rewrite (proj2 (Z.eqb_neq b 192) H1), (proj2 (Z.eqb_neq b 219) H2). cbn. by rewrite (Hlt o dcap Hc).
Qed.

Lemma slip_roundtrip l cap e dcap : slip_encode l cap = Some e -> Z.of_nat (length l) <= dcap -> slip_decode e dcap = l /\ Z.of_nat (length e) <= cap.
Proof.
  unfold slip_encode. destruct (Z.leb_spec cap 0); [done|]. intros E Hd. apply bind_Some in E as (out & E & E2). destruct (Z.leb_spec cap (Z.of_nat (length out))); [done|]. injection E2 as <-.
  apply slip_body_spec in E as (m & -> & Hm). split; [|rewrite !length_app in *; cbn [length] in *; lia]. unfold slip_decode. cbn [app slip_decode_loop]. rewrite Z.eqb_refl. cbn [andb].
  rewrite Hm by (cbn [length]; lia). cbn [app slip_decode_loop]. rewrite Z.eqb_refl. by destruct l.
Qed.

(** ** What can change the flash *)

(** A packet that erases, or a block for the flash. *)
Definition destructive (p : list Z) : bool :=
  match p with
  | c :: p => (c =? RTL_DL_ERASE) || ((c =? RTL_DL_SOH) || (c =? RTL_DL_STX)) && (RTL_DL_FLASH_BASE <=? get32 (drop 2 p))
  | [] => false
  end.

(** The packets that program [data] at [offset]: one erase for each sector, one block for
    each kilobyte. *)
Definition erase_cmds (offset : Z) (n : nat) : list (list Z) := (fun i => erase_pkt (offset +% Z.of_nat i * 4096)) <$> seq 0 n.
Definition flash_cmds (addr : Z) (data : list Z) : list (list Z) :=
  (fun i => block_pkt (u8 (Z.of_nat i + 1)) (addr +% 1024 * Z.of_nat i) true (slice (1024 * i) 1024 data)) <$> seq 0 (length data / 1024).

Lemma erase_destructive off : destructive (erase_pkt off) = true.
Proof. reflexivity. Qed.

Lemma block_dest seq addr big data : is_u32 addr -> destructive (block_pkt seq addr big data) = (RTL_DL_FLASH_BASE <=? addr).
Proof.
  intros Ha. unfold destructive, block_pkt. cbn [app drop]. rewrite drop_0, <-app_assoc, get32_le32 by done. by destruct big.
Qed.

Section effects.
Context {W : Type} `{Board W} (fuel : nat) (flashloader : list Z).
Implicit Types s : dst (W := W).

Definition effects s : list (list Z) := List.filter destructive (sent s).

(** Nothing that changes the flash, and the strap not left low. *)
Definition calm s s' : Prop := effects s' = effects s /\ (strap_low s = false -> strap_low s' = false).

Lemma calm_id s : calm s s.
Proof. done. Qed.
Lemma calm_then s1 s2 s3 : calm s1 s2 -> calm s2 s3 -> calm s1 s3.
Proof. intros [A B] [C D]. split; [congruence|auto]. Qed.

Lemma write_calm p s : destructive p = false -> calm s (dl_uart_write p s).
Proof. intros Hp. split; [|done]. unfold effects. cbn. rewrite List.filter_app. cbn. by rewrite Hp, app_nil_r. Qed.
Lemma read_calm n s : calm s (snd (dl_uart_read n s)).
Proof. unfold dl_uart_read. by destruct (rx n (brd s)). Qed.
Lemma open_calm b s : calm s (snd (dl_uart_open b s)).
Proof. unfold dl_uart_open. by destruct (reopen b (brd s)). Qed.
Lemma abort_calm ab s : calm s (snd (abort ab s)).
Proof. unfold abort. destruct ab; [|done]. by destruct (aborting (brd s)). Qed.
Lemma brd_calm f s : calm s (on_brd f s).
Proof. done. Qed.
End effects.

Section calm_calls.
Context {W : Type} `{Board W} (fuel : nat) (flashloader : list Z).
Implicit Types s : dst (W := W).

Lemma calm_read n s l s' : dl_uart_read n s = (l, s') -> calm s s'.
Proof. intros E. pose proof (read_calm n s) as C. by rewrite E in C. Qed.
Lemma calm_open n s rc s' : dl_uart_open n s = (rc, s') -> calm s s'.
Proof. intros E. pose proof (open_calm n s) as C. by rewrite E in C. Qed.
Lemma calm_abort ab s a s' : abort ab s = (a, s') -> calm s s'.
Proof. intros E. pose proof (abort_calm ab s) as C. by rewrite E in C. Qed.

Lemma wait_ms_calm n dl ab s rc s' : wait_ms_loop n dl ab s = Some (rc, s') -> calm s s'.
Proof.
  revert s. induction n as [|n IH]; intros s E; cbn [wait_ms_loop] in E; [done|]. destruct (negb _); [|by injection E as <- <-].
  destruct (abort ab s) as [a s1] eqn:Ea. apply calm_abort in Ea. destruct a; [by injection E as <- <-|]. apply IH in E. eapply calm_then; [exact Ea|]. exact E.
Qed.

Lemma recv_loop_calm n cap got dl ab s rc got' s' : recv_loop n cap got dl ab s = Some (rc, got', s') -> calm s s'.
Proof.
  revert got s. induction n as [|n IH]; intros got s E; cbn [recv_loop] in E; [done|]. destruct (_ <=? _)%nat; [by injection E as <- <- <-|].
  destruct (dl_uart_read _ s) as [l s1] eqn:Er. apply calm_read in Er. destruct (_ <=? _)%nat; [by injection E as <- <- <-|].
  destruct (abort ab s1) as [a s2] eqn:Ea. apply calm_abort in Ea. pose proof (calm_then _ _ _ Er Ea) as C. destruct a; [by injection E as <- <- <-|]. destruct (past dl s2); [by injection E as <- <- <-|].
  apply IH in E. eapply calm_then; [exact C|]. exact E.
Qed.

Lemma wait_byte_calm n want dl ab s rc s' : wait_byte_loop n want dl ab s = Some (rc, s') -> calm s s'.
Proof.
  revert s. induction n as [|n IH]; intros s E; cbn [wait_byte_loop] in E; [done|]. destruct (dl_uart_read 1 s) as [l s1] eqn:Er. apply calm_read in Er. destruct l as [|b l].
  - destruct (abort ab s1) as [a s2] eqn:Ea. apply calm_abort in Ea. pose proof (calm_then _ _ _ Er Ea) as C. destruct a; [by injection E as <- <-|]. destruct (past dl s2); [by injection E as <- <-|].
    apply IH in E. eapply calm_then; [exact C|]. exact E.
  - destruct (b =? want); [by injection E as <- <-|]. apply IH in E. by eapply calm_then.
Qed.

Lemma drain_calm n st la q m s s' : quiet_loop n st la q m s = Some s' -> calm s s'.
Proof.
  revert la s. induction n as [|n IH]; intros la s E; cbn [quiet_loop] in E; [done|]. destruct (dl_uart_read 64 s) as [l s1] eqn:Er. apply calm_read in Er. destruct l as [|b l].
  - destruct (_ <=? _); [by injection E as <-|]. destruct (_ <=? _); [by injection E as <-|]. apply IH in E. eapply calm_then; [exact Er|]. exact E.
  - apply IH in E. by eapply calm_then.
Qed.

Lemma dl_drain_calm q m s s' : dl_drain_quiet fuel q m s = Some s' -> calm s s'.
Proof. apply drain_calm. Qed.
Lemma dl_wait_ms_calm ms ab s rc s' : dl_wait_ms fuel ms ab s = Some (rc, s') -> calm s s'.
Proof. apply wait_ms_calm. Qed.
Lemma dl_wait_byte_calm want ms ab s rc s' : dl_wait_byte fuel want ms ab s = Some (rc, s') -> calm s s'.
Proof. apply wait_byte_calm. Qed.
Lemma dl_read_exact_calm n ms ab s rc l s' : dl_read_exact fuel n ms ab s = Some (rc, l, s') -> calm s s'.
Proof. unfold dl_read_exact. intros E. apply bind_Some in E as ([[rc1 l1] s1] & E & E2). injection E2 as <- <- <-. by apply recv_loop_calm in E. Qed.

(** A command: its packet, and nothing else. *)
Lemma send_wait_ack_effects p ms ab s rc s' : dl_send_wait_ack fuel p ms ab s = Some (rc, s') ->
  effects s' = effects s ++ (if destructive p then [p] else []) /\ (strap_low s = false -> strap_low s' = false).
Proof.
  unfold dl_send_wait_ack. intros E. apply dl_wait_byte_calm in E as [E1 E2]. split; [|exact E2]. rewrite E1. unfold effects. cbn. rewrite List.filter_app. cbn. by destruct (destructive p).
Qed.
Lemma send_wait_ack_calm p ms ab s rc s' : destructive p = false -> dl_send_wait_ack fuel p ms ab s = Some (rc, s') -> calm s s'.
Proof. intros Hp E. apply send_wait_ack_effects in E as [E1 E2]. rewrite Hp, app_nil_r in E1. by split. Qed.

(** [rtl_dl_enter]: the strap is never left driven low. *)
Lemma rtl_dl_enter_calm h ab s rc s' : rtl_dl_enter fuel h ab s = Some (rc, s') -> effects s' = effects s /\ strap_low s' = false.
Proof.
  unfold rtl_dl_enter. intros E. apply bind_Some in E as ([rc1 s1] & E1 & E). apply dl_wait_ms_calm in E1 as [A1 B1]. cbn in B1. destruct (negb _); [injection E as <- <-; split; [exact A1|by apply B1]|].
  apply bind_Some in E as ([rc2 s2] & E2 & E). apply dl_wait_ms_calm in E2 as [A2 _]. assert (A : effects s2 = effects s) by (rewrite A2; exact A1). destruct (negb _); [by injection E as <- <-|].
  set (s3 := if negb (h =? 0) then _ else _) in E. assert (A3 : effects s3 = effects s) by (rewrite <-A; unfold s3; by destruct (negb _)). clearbody s3.
  destruct (dl_uart_open 115200 (dl_strap_release_input s3)) as [rc4 s4] eqn:E4. apply calm_open in E4 as [A4 B4]. specialize (B4 eq_refl). destruct (negb _); [injection E as <- <-; split; [by rewrite A4|done]|].
  apply bind_Some in E as ([rc5 s5] & E5 & E). apply dl_wait_ms_calm in E5 as [A5 B5]. assert (effects s5 = effects s) by (rewrite A5, A4; exact A3). destruct (negb _); injection E as <- <-; (split; [done|by apply B5]).
Qed.
Lemma dl_enter_calm h ab s rc s' : rtl_dl_enter fuel h ab s = Some (rc, s') -> calm s s'.
Proof. intros E. by destruct (rtl_dl_enter_calm _ _ _ _ _ E). Qed.

Lemma read_word_calm a ab s rc w s' : dl_read_word fuel a ab s = Some (rc, w, s') -> calm s s'.
Proof.
  unfold dl_read_word. intros E. apply bind_Some in E as (s1 & E1 & E). apply dl_drain_calm in E1. apply bind_Some in E as ([rr s2] & E2 & E). apply dl_wait_byte_calm in E2.
  assert (C : calm s s2) by (eapply calm_then; [exact E1|]; eapply calm_then; [|exact E2]; by apply write_calm). destruct (negb _); [by injection E as <- <- <-|].
  apply bind_Some in E as ([[rr3 rp] s3] & E3 & E). apply dl_read_exact_calm in E3. assert (C3 : calm s s3) by (by eapply calm_then). by destruct (negb _); [|destruct (negb _)]; injection E as <- <- <-.
Qed.

Lemma set_baud_calm b s rc s' : rtl_dl_set_baud fuel b s = Some (rc, s') -> calm s s'.
Proof.
  unfold rtl_dl_set_baud. intros E. destruct (if b =? 115200 then _ else _) as [idx|]; [|by injection E as <- <-]. apply bind_Some in E as ([rr s1] & E1 & E). apply send_wait_ack_calm in E1; [|done].
  destruct (negb _); [by injection E as <- <-|]. destruct (dl_uart_open b s1) as [rc2 s2] eqn:E2. apply calm_open in E2. assert (calm s s2) by (by eapply calm_then). by destruct (negb _); injection E as <- <-.
Qed.

Lemma blocks_calm n data off addr32 sq ms ab s rc s' : 0 <= off -> 0 <= addr32 -> addr32 + Z.of_nat (length data) <= RTL_DL_FLASH_BASE -> send_blocks_loop fuel n data off addr32 sq ms ab s = Some (rc, s') -> calm s s'.
Proof.
  intros Ho Ha Hd. revert off sq s Ho. induction n as [|n IH]; intros off sq s Ho E; cbn [send_blocks_loop] in E; [done|]. destruct (Z.ltb_spec off (Z.of_nat (length data))).
  - apply bind_Some in E as ([rr s1] & E1 & E). apply send_wait_ack_calm in E1.
    + destruct (negb _); [by destruct (rr =? -2); injection E as <- <-|]. apply IH in E; [by eapply calm_then|]. unfold block_size. repeat case_match; lia.
    + rewrite u32_small by (unfold is_u32, RTL_DL_FLASH_BASE in *; lia). rewrite block_dest by (unfold is_u32, RTL_DL_FLASH_BASE in *; lia). lia.
  - apply bind_Some in E as ([rr s1] & E1 & E). apply send_wait_ack_calm in E1; [|done]. by destruct (negb _); injection E as <- <-.
Qed.

Lemma send_sram_calm data a ab s rc s' : dl_send_sram fuel data a ab s = Some (rc, s') -> calm s s'.
Proof.
  unfold dl_send_sram. intros E. destruct (Z.eqb_spec a RTL_DL_STUB_ADDR) as [->|]; [|by injection E as <- <-]. cbn [negb] in E. destruct (_ || _) eqn:C; [by injection E as <- <-|]. apply orb_false_iff in C as [_ C]. apply Z.ltb_ge in C.
  unfold dl_send_blocks in E. apply bind_Some in E as ([rr s1] & E1 & E). apply send_wait_ack_calm in E1; [|done]. destruct (negb _); [by injection E as <- <-|].
  apply blocks_calm in E; [by eapply calm_then|lia|done|unfold RTL_DL_STUB_ADDR, RTL_DL_FLASH_BASE; lia].
Qed.

Lemma load_calm b ab s rc s' : rtl_dl_load_flashloader fuel flashloader b ab s = Some (rc, s') -> calm s s'.
Proof.
  unfold rtl_dl_load_flashloader. intros E. destruct (_ && _); [by injection E as <- <-|].
  assert (B : forall (s : dst) rc s', (if negb (b =? 115200) then rtl_dl_set_baud fuel b s else Some (0, s)) = Some (rc, s') -> calm s s') by (intros s0 rc0 s0' E0; destruct (negb _); [by apply set_baud_calm in E0|by injection E0 as <- <-]).
  apply bind_Some in E as ([rc1 s1] & E1 & E). apply B in E1. destruct (negb _); [by injection E as <- <-|].
  apply bind_Some in E as ([[rc2 w2] s2] & E2 & E). apply read_word_calm in E2. pose proof (calm_then _ _ _ E1 E2) as C2. destruct (rc2 =? -2); [by injection E as <- <-|]. destruct (_ && _); [by injection E as <- <-|].
  apply bind_Some in E as ([rc3 s3] & E3 & E). apply send_sram_calm in E3. pose proof (calm_then _ _ _ C2 E3) as C3. destruct (negb _); [by injection E as <- <-|].
  destruct (dl_uart_open 115200 s3) as [rc4 s4] eqn:E4. apply calm_open in E4. pose proof (calm_then _ _ _ C3 E4) as C4. destruct (negb _); [by injection E as <- <-|].
  apply bind_Some in E as ([rc5 s5] & E5 & E). apply B in E5. assert (C5 : calm s s5) by (eapply calm_then; [exact C4|]; exact E5). destruct (negb _); [by injection E as <- <-|].
  apply bind_Some in E as ([[rc6 w6] s6] & E6 & E). apply read_word_calm in E6. pose proof (calm_then _ _ _ C5 E6) as C6. destruct (rc6 =? -2); [by injection E as <- <-|]. by destruct (_ || _); injection E as <- <-.
Qed.

Lemma dl_session_calm h ab s ok s' : dl_session fuel flashloader h ab s = Some (ok, s') -> calm s s'.
Proof.
  unfold dl_session. intros E. apply bind_Some in E as ([rc s1] & E1 & E). apply dl_enter_calm in E1. destruct (negb _); [by injection E as <- <-|].
  apply bind_Some in E as ([rc2 s2] & E2 & E). injection E as <- <-. apply load_calm in E2. by eapply calm_then.
Qed.

Lemma chksum_calm off len ms ab s rc v s' : rtl_dl_flash_chksum fuel off len ms ab s = Some (rc, v, s') -> calm s s'.
Proof.
  unfold rtl_dl_flash_chksum. intros E. destruct (negb _); [by injection E as <- <- <-|]. apply bind_Some in E as (s1 & E1 & E). apply dl_drain_calm in E1. apply bind_Some in E as ([rr s2] & E2 & E). apply dl_wait_byte_calm in E2.
  assert (C : calm s s2) by (eapply calm_then; [exact E1|]; eapply calm_then; [|exact E2]; by apply write_calm). destruct (negb _); [by injection E as <- <- <-|].
  apply bind_Some in E as ([[rr3 rp] s3] & E3 & E). apply dl_read_exact_calm in E3. assert (calm s s3) by (by eapply calm_then). by destruct (negb _); injection E as <- <- <-.
Qed.

Lemma read_block_calm i ab s rc l s' : read_block fuel i ab s = Some (rc, l, s') -> calm s s'.
Proof.
  unfold read_block. intros E. apply bind_Some in E as ([rr s1] & E1 & E). apply dl_wait_byte_calm in E1. destruct (negb _); [by injection E as <- <- <-|].
  apply bind_Some in E as ([[rr2 blk] s2] & E2 & E). apply dl_read_exact_calm in E2. pose proof (calm_then _ _ _ E1 E2) as C. destruct (negb _); [by injection E as <- <- <-|].
  destruct (_ || _); [by injection E as <- <- <-|]. destruct (negb _); injection E as <- <- <-; [|done]. eapply calm_then; [exact C|]. by apply write_calm.
Qed.

Lemma read_blocks_calm n i buf cap ab s rc l s' : read_blocks fuel n i buf cap ab s = Some (rc, l, s') -> calm s s'.
Proof.
  revert i buf s. induction n as [|n IH]; intros i buf s E; cbn [read_blocks] in E; [by injection E as <- <- <-|]. apply bind_Some in E as ([[rr data] s1] & E1 & E). apply read_block_calm in E1.
  destruct (negb _); [by injection E as <- <- <-|]. destruct n as [|n].
  - apply bind_Some in E as ([rr2 s2] & E2 & E). apply send_wait_ack_calm in E2; [|done]. assert (calm s s2) by (by eapply calm_then). by destruct (negb _); injection E as <- <- <-.
  - apply IH in E. eapply calm_then; [exact E1|]. eapply calm_then; [|exact E]. by apply write_calm.
Qed.

Lemma read_flash_calm off n cap ab s rc l s' : rtl_dl_read_flash fuel off n cap ab s = Some (rc, l, s') -> calm s s'.
Proof.
  unfold rtl_dl_read_flash. intros E. destruct (_ || _); [by injection E as <- <- <-|]. destruct (negb _); [by injection E as <- <- <-|]. apply bind_Some in E as (s1 & E1 & E). apply dl_drain_calm in E1.
  apply bind_Some in E as ([[rr buf] s2] & E2 & E). injection E as <- <- <-. apply read_blocks_calm in E2. eapply calm_then; [exact E1|]. eapply calm_then; [|exact E2]. by apply write_calm.
Qed.

Lemma size_loop_calm cands ref k ab s rc z s' : size_loop fuel cands ref k ab s = Some (rc, z, s') -> calm s s'.
Proof.
  revert k s. induction cands as [|c cands IH]; intros k s E; cbn [size_loop] in E; [by injection E as <- <- <-|]. apply bind_Some in E as ([[rc1 cand] s1] & E1 & E). apply read_flash_calm in E1.
  destruct (_ <? _); [by injection E as <- <- <-|]. destruct (bool_decide _); [by injection E as <- <- <-|]. apply IH in E. by eapply calm_then.
Qed.

Lemma detect_calm ab s rc z s' : rtl_dl_detect_size fuel ab s = Some (rc, z, s') -> calm s s'.
Proof.
  unfold rtl_dl_detect_size. intros E. apply bind_Some in E as ([[rc1 ref] s1] & E1 & E). apply read_flash_calm in E1. destruct (_ <? _); [by injection E as <- <- <-|]. destruct (forallb _ _); [by injection E as <- <- <-|].
  apply size_loop_calm in E. by eapply calm_then.
Qed.

(** *** The two that do *)

Lemma range_ok_spec off len max : is_u32 off -> is_u32 len -> dl_flash_range_ok off len max = true -> off mod 4096 = 0 /\ len mod 4096 = 0 /\ 0 < len /\ off + len <= max.
Proof.
  unfold dl_flash_range_ok, is_u32. intros Ho Hl E. destruct (_ || _) eqn:C; [done|]. rewrite !orb_false_iff, !negb_false_iff, !Z.eqb_eq, Z.eqb_neq in C. destruct C as [[C1 C2] C3].
  change 4095 with (2 ^ 12 - 1) in C1, C2. rewrite land_mask in C1, C2 by lia. change (2 ^ 12) with 4096 in *. destruct (_ <=? _) eqn:D; [done|]. destruct (_ <? _) eqn:F; [done|]. lia.
Qed.

Lemma whole_pieces n k : k <> O -> Z.of_nat n mod Z.of_nat k = 0 -> n = (k * (n / k))%nat.
Proof. intros Hk E. apply Nat.Div0.div_exact. apply Nat2Z.inj. by rewrite Nat2Z.inj_mod. Qed.
Lemma kilobytes n : n mod 4096 = 0 -> n mod 1024 = 0.
Proof. intros E. apply Z.mod_divide; [done|]. apply Z.mod_divide in E as [q ->]; [|done]. exists (4 * q). lia. Qed.

Lemma erase_each_effects n i offset ab s rc s' : erase_each fuel n (Z.of_nat i) offset ab s = Some (rc, s') ->
  exists k, (k <= n)%nat /\ effects s' = effects s ++ ((fun j => erase_pkt (offset +% Z.of_nat j * 4096)) <$> seq i k) /\ (rc = 0 -> k = n) /\ (strap_low s = false -> strap_low s' = false).
Proof.
  revert i s. induction n as [|n IH]; intros i s E; cbn [erase_each] in E; [injection E as <- <-; exists O; cbn; by rewrite app_nil_r|].
  apply bind_Some in E as ([rr s1] & E1 & E). apply send_wait_ack_effects in E1 as [A1 B1]. rewrite erase_destructive in A1. destruct (negb _).
  - injection E as <- <-. exists 1%nat. cbn. rewrite A1. split_and!; [lia|done|done|done].
  - replace (Z.of_nat i + 1) with (Z.of_nat (S i)) in E by lia. apply IH in E as (k & Hk & A & R & B). exists (S k). cbn [seq fmap list_fmap]. rewrite A, A1, <-app_assoc. split_and!; [lia|done|intros Hr; by rewrite R|auto].
Qed.

Lemma erase_effects offset n ab s rc s' : 0 <= n -> dl_erase_sectors fuel offset n ab s = Some (rc, s') ->
  exists k, (k <= Z.to_nat n)%nat /\ effects s' = effects s ++ erase_cmds offset k /\ (rc = 0 -> k = Z.to_nat n) /\ (strap_low s = false -> strap_low s' = false).
Proof.
  unfold dl_erase_sectors. intros Hn E. assert (Hz : forall rc', Some (-1, s) = Some (rc', s') -> rc' = -1 /\ s' = s) by (by intros rc' [= <- <-]).
  destruct (_ || _); [|destruct (negb _)]; [apply Hz in E as [-> ->]; exists O; cbn; rewrite app_nil_r; split_and!; done || lia..|]. by apply (erase_each_effects _ 0%nat) in E.
Qed.

Lemma flash_loop_effects n data m i addr ms ab s rc s' : length data = (1024 * m)%nat -> (i <= m)%nat -> RTL_DL_FLASH_BASE <= addr -> addr + Z.of_nat (length data) <= 2 ^ 32 ->
  send_blocks_loop fuel n data (1024 * Z.of_nat i) addr (u8 (Z.of_nat i + 1)) ms ab s = Some (rc, s') ->
  exists k, (i + k <= m)%nat /\ effects s' = effects s ++ ((fun i => block_pkt (u8 (Z.of_nat i + 1)) (addr +% 1024 * Z.of_nat i) true (slice (1024 * i) 1024 data)) <$> seq i k) /\ (rc = 0 -> (i + k = m)%nat) /\ (strap_low s = false -> strap_low s' = false).
Proof.
  intros Hm Hi Ha Hb. revert i s Hi. induction n as [|n IH]; intros i s Hi E; cbn [send_blocks_loop] in E; [done|]. destruct (Z.ltb_spec (1024 * Z.of_nat i) (Z.of_nat (length data))) as [Hlt|Hge].
  - unfold block_size in E. rewrite (proj2 (Z.ltb_lt 128 _)) in E by lia. rewrite (proj2 (Z.ltb_ge (Z.of_nat (length data) - 1024 * Z.of_nat i) 1024)) in E by lia. rewrite Z.sub_diag in E. cbn [Z.to_nat replicate] in E. rewrite app_nil_r in E.
    replace (Z.to_nat (1024 * Z.of_nat i)) with (1024 * i)%nat in E by lia. change (Z.to_nat 1024) with 1024%nat in E.
    apply bind_Some in E as ([rr s1] & E1 & E). apply send_wait_ack_effects in E1 as [A1 B1].
    rewrite block_dest in A1 by apply u32_range. rewrite (u32_small (addr + 1024 * Z.of_nat i)) in A1 by (unfold is_u32, RTL_DL_FLASH_BASE in *; lia). rewrite (proj2 (Z.leb_le RTL_DL_FLASH_BASE _)) in A1 by lia.
    assert (Eb : addr +% 1024 * Z.of_nat i = addr + 1024 * Z.of_nat i) by (apply u32_small; unfold is_u32, RTL_DL_FLASH_BASE in *; lia).
    destruct (negb (rr =? 0)) eqn:Er.
    + assert (effects s' = effects s1 /\ rc <> 0 /\ (strap_low s1 = false -> strap_low s' = false)) as (A & R & B) by (destruct (rr =? -2); injection E as <- <-; done). exists 1%nat. cbn [seq fmap list_fmap]. rewrite A, A1, Eb. split_and!; [lia|done|done|auto].
    + replace (1024 * Z.of_nat i + 1024) with (1024 * Z.of_nat (S i)) in E by lia.
      replace (u8 (u8 (Z.of_nat i + 1) + 1)) with (u8 (Z.of_nat (S i) + 1)) in E by (unfold u8; rewrite Zplus_mod_idemp_l; f_equal; lia).
      apply IH in E as (k & Hk & A & R & B); [|lia]. exists (S k). cbn [seq fmap list_fmap]. rewrite A, A1, Eb, <-app_assoc. split_and!; [lia|done|intros Hr; specialize (R Hr); lia|auto].
  - apply bind_Some in E as ([rr s1] & E1 & E). apply send_wait_ack_calm in E1 as [A B]; [|done]. exists O. cbn. rewrite app_nil_r. destruct (negb _); injection E as <- <-; split_and!; try done; lia.
Qed.

Lemma flash_addr off : 0 <= off < RTL_DL_FLASH_WRITE_MAX -> Z.lor (Z.land off 16777215) RTL_DL_FLASH_BASE = RTL_DL_FLASH_BASE + off.
Proof.
  unfold RTL_DL_FLASH_WRITE_MAX, RTL_DL_FLASH_BASE. intros Ho. change 16777215 with (2 ^ 24 - 1). rewrite land_mask by lia. rewrite Z.mod_small by (change (2 ^ 24) with 16777216; lia).
  change 134217728 with (Z.shiftl 1 27). rewrite (lor_shiftl_add 27) by (change (2 ^ 27) with 134217728; lia). change (2 ^ 27) with 134217728. change (Z.shiftl 1 27) with 134217728. lia.
Qed.

Lemma send_flash_effects data off ab s rc s' : is_u32 off -> is_u32 (Z.of_nat (length data)) -> dl_send_flash fuel data off ab s = Some (rc, s') ->
  exists k, effects s' = effects s ++ take k (flash_cmds (RTL_DL_FLASH_BASE + off) data) /\ (rc = 0 -> (length (flash_cmds (RTL_DL_FLASH_BASE + off) data) <= k)%nat) /\ (strap_low s = false -> strap_low s' = false).
Proof.
  intros Ho Hl E. unfold dl_send_flash in E. destruct (dl_flash_range_ok _ _ _) eqn:C; cbn [negb] in E; [|injection E as <- <-; exists O; cbn; by rewrite app_nil_r].
  apply range_ok_spec in C as (C1 & C2 & C3 & C4); [|done|done]. rewrite flash_addr in E by (unfold is_u32, RTL_DL_FLASH_WRITE_MAX in *; lia). unfold dl_send_blocks in E.
  apply bind_Some in E as ([rr s1] & E1 & E). apply send_wait_ack_calm in E1 as [A1 B1]; [|done]. destruct (negb _); [injection E as <- <-; exists O; cbn; rewrite app_nil_r; split_and!; done|].
  assert (Hm : length data = (1024 * (length data / 1024))%nat).
  { apply whole_pieces; [done|]. by apply kilobytes. }
  apply (flash_loop_effects _ data (length data / 1024) 0) in E as (k & Hk & A & R & B); [|exact Hm|lia|unfold RTL_DL_FLASH_BASE, is_u32 in *; lia|unfold RTL_DL_FLASH_BASE, RTL_DL_FLASH_WRITE_MAX, is_u32 in *; lia].
  exists k. unfold flash_cmds. rewrite <-fmap_take, take_seq, A, A1, Nat.min_l by lia. rewrite length_fmap, length_seq. split_and!; [done|intros Hr; specialize (R Hr); lia|auto].
Qed.
End calm_calls.

(** ** Programming an image *)

(** What a packet erases or writes, as the loader reads it. *)
Definition target (p : list Z) : Z * Z :=
  if nth 0 p 0 =? RTL_DL_ERASE then (nth 1 p 0 + 256 * nth 2 p 0 + 65536 * nth 3 p 0, 4096 * get16 (drop 4 p)) else (get32 (drop 3 p) - RTL_DL_FLASH_BASE, Z.of_nat (length p) - 8).
Definition payload (p : list Z) : list Z := slice 7 (length p - 8) p.

Definition program_cmds (offset : Z) (data : list Z) : list (list Z) := erase_cmds offset (length data / 4096) ++ flash_cmds (RTL_DL_FLASH_BASE + offset) data.

Lemma erase_target off : 0 <= off < 2 ^ 24 -> target (erase_pkt off) = (off, 4096).
Proof.
  intros Ho. unfold target. cbn [nth erase_pkt]. rewrite Z.eqb_refl. change (get16 (drop 4 (erase_pkt off))) with 1. f_equal. change (2 ^ 24) with 16777216 in Ho. rewrite !Z.shiftr_div_pow2 by lia. change (2 ^ 8) with 256. change (2 ^ 16) with 65536. warith.
Qed.

Lemma length_block sq addr big data : length (block_pkt sq addr big data) = (8 + length data)%nat.
Proof. unfold block_pkt. rewrite !length_app. cbn [length le32]. lia. Qed.

Lemma block_target sq addr data : is_u32 addr -> target (block_pkt sq addr true data) = (addr - RTL_DL_FLASH_BASE, Z.of_nat (length data)).
Proof.
  intros Ha. unfold target. rewrite length_block. cbn [nth block_pkt app]. change (RTL_DL_STX =? RTL_DL_ERASE) with false. cbv iota. unfold block_pkt. cbn [app drop]. rewrite ?drop_0, <-app_assoc, get32_le32 by done. f_equal. lia.
Qed.

Lemma block_payload sq addr big data : payload (block_pkt sq addr big data) = data.
Proof.
  unfold payload. rewrite length_block. replace (8 + length data - 8)%nat with (length data) by lia. unfold block_pkt, slice. rewrite <-app_assoc.
  change ([if big then RTL_DL_STX else RTL_DL_SOH; sq; u8 (255 - sq)] ++ le32 addr ++ ?t) with (([if big then RTL_DL_STX else RTL_DL_SOH; sq; u8 (255 - sq)] ++ le32 addr) ++ t).
  rewrite drop_app_length' by done. by rewrite take_app_length.
Qed.

Section program.
Context (offset : Z) (data : list Z).
Hypothesis Ho : is_u32 offset.
Hypothesis Hl : is_u32 (Z.of_nat (length data)).
Hypothesis Hr : dl_flash_range_ok offset (Z.of_nat (length data)) RTL_DL_FLASH_WRITE_MAX = true.

Lemma range_facts : offset mod 4096 = 0 /\ length data = (4096 * (length data / 4096))%nat /\ length data = (1024 * (length data / 1024))%nat /\ 0 < Z.of_nat (length data) /\ offset + Z.of_nat (length data) <= RTL_DL_FLASH_WRITE_MAX.
Proof.
  apply range_ok_spec in Hr as (A & B & C & D); [|done|done]. split_and!; try done.
  - by apply whole_pieces.
  - apply whole_pieces; [done|]. by apply kilobytes.
Qed.

(** Everything sent lies in the range. *)
Lemma program_cmds_within p : p ∈ program_cmds offset data -> offset <= fst (target p) /\ fst (target p) + snd (target p) <= offset + Z.of_nat (length data).
Proof.
  destruct range_facts as (A & B & C & D & E). unfold RTL_DL_FLASH_WRITE_MAX, is_u32 in *. unfold program_cmds, erase_cmds, flash_cmds. rewrite elem_of_app, !list_elem_of_fmap. intros [(i & -> & Hi)|(i & -> & Hi)]; apply elem_of_seq in Hi.
  - rewrite u32_small by (unfold is_u32; lia). rewrite erase_target by (change (2 ^ 24) with 16777216; lia). cbn. lia.
  - rewrite u32_small by (unfold is_u32, RTL_DL_FLASH_BASE; lia). rewrite block_target by (unfold is_u32, RTL_DL_FLASH_BASE; lia). cbn [fst snd]. rewrite length_slice by lia. lia.
Qed.

(** The blocks carry the image. *)
Lemma flash_cmds_data : concat (payload <$> flash_cmds (RTL_DL_FLASH_BASE + offset) data) = data.
Proof.
  destruct range_facts as (_ & _ & C & _). unfold flash_cmds. rewrite <-list_fmap_compose.
  assert (G : forall n i, (1024 * (i + n))%nat = length data -> concat (((payload ∘ (fun i => block_pkt (u8 (Z.of_nat i + 1)) ((RTL_DL_FLASH_BASE + offset) +% 1024 * Z.of_nat i) true (slice (1024 * i) 1024 data))) <$> seq i n)) = drop (1024 * i) data).
  { induction n as [|n IH]; intros i Hi; cbn [seq fmap list_fmap concat]; [rewrite drop_ge by lia; done|]. rewrite IH by lia. unfold compose. rewrite block_payload. unfold slice. replace (1024 * S i)%nat with (1024 * i + 1024)%nat by lia. by rewrite <-drop_drop, take_drop. }
  rewrite (G _ 0%nat) by lia. done.
Qed.
End program.

Section program_run.
Context {W : Type} `{Board W} (fuel : nat) (flashloader : list Z).
Implicit Types s : dst (W := W).

(** The codes that say that nothing was erased. *)
Definition untouched (rc : Z) : Prop := rc = -1 \/ rc = -2 \/ rc = -3 \/ rc = -4 \/ rc = -10.

Lemma erase_cmds_take offset k n : (k <= n)%nat -> erase_cmds offset k = take k (erase_cmds offset n).
Proof. intros Hk. unfold erase_cmds. by rewrite <-fmap_take, take_seq, Nat.min_l. Qed.

Lemma take_prefix {A} k (l : list A) : take k l `prefix_of` l.
Proof. exists (drop k l). by rewrite take_drop. Qed.

Lemma sectors_nat n : Z.to_nat (Z.of_nat n / 4096) = (n / 4096)%nat.
Proof. change 4096 with (Z.of_nat 4096). rewrite <-Nat2Z.inj_div. apply Nat2Z.id. Qed.

Lemma program_body_spec offset data h hs cp kn ab s rc r' s' : is_u32 offset -> is_u32 (Z.of_nat (length data)) -> dl_flash_range_ok offset (Z.of_nat (length data)) RTL_DL_FLASH_WRITE_MAX = true ->
  program_body fuel flashloader offset data h (Program (Z.of_nat (length data) / 4096) 0 0 hs 0 cp kn false false false) ab s = Some (rc, r', s') ->
  (exists l, effects s' = effects s ++ l /\ l `prefix_of` program_cmds offset data /\ (rc = 0 -> l = program_cmds offset data)) /\
  (strap_low s = false -> strap_low s' = false) /\ -9 <= rc <= 0 /\ ~ untouched rc /\ r_cap r' = cp /\ cap_known r' = kn /\ host_sum r' = hs /\
  (rc = 0 <-> verify_ok r' = true) /\ (rc = 0 -> dev_sum r' = hs /\ erased r' = Z.of_nat (length data) / 4096 /\ written r' = Z.of_nat (length data)).
Proof.
  intros Ho Hl Hr E. unfold program_body in E. cbn [sectors host_sum r_cap cap_known] in E.
  apply bind_Some in E as ([rc1 s1] & E1 & E). apply erase_effects in E1 as (k & Hk & A1 & R1 & B1); [|apply Z.div_pos; lia]. rewrite sectors_nat in Hk, R1. clear Hr.
  destruct (Z.eqb_spec rc1 0) as [->|N1]; cbn [negb] in E.
  2:{ injection E as <- <- <-. repeat apply conj; try (unfold untouched; lia); try done. exists (erase_cmds offset k). split; [done|]. split; [|done]. unfold program_cmds. apply prefix_app_r. rewrite (erase_cmds_take offset k (length data / 4096)) by done. apply take_prefix. }
  rewrite (R1 eq_refl) in A1. clear R1 Hk k.
  apply bind_Some in E as ([rc2 s2] & E2 & E). apply send_flash_effects in E2 as (k & A2 & R2 & B2); [|done|done]. clear Ho Hl.
  assert (Hpre : effects s2 = effects s ++ (erase_cmds offset (length data / 4096) ++ take k (flash_cmds (RTL_DL_FLASH_BASE + offset) data))) by (by rewrite A2, A1, <-app_assoc).
  assert (Hcmds : forall P : Prop, (P -> take k (flash_cmds (RTL_DL_FLASH_BASE + offset) data) = flash_cmds (RTL_DL_FLASH_BASE + offset) data) -> forall s3, effects s3 = effects s2 ->
    exists l, effects s3 = effects s ++ l /\ l `prefix_of` program_cmds offset data /\ (P -> l = program_cmds offset data)).
  { intros P HP s3 E3. eexists. rewrite E3. split; [exact Hpre|]. split; [apply prefix_app, take_prefix|]. intros HH. unfold program_cmds. by rewrite HP. }
  clear A1 A2 Hpre. destruct (Z.eqb_spec rc2 0) as [->|N2]; cbn [negb] in E.
  2:{ injection E as <- <- <-. split; [apply Hcmds; [lia|done]|]. clear Hcmds. split; [auto|]. repeat apply conj; try (unfold untouched; lia); done. }
  assert (Hall : take k (flash_cmds (RTL_DL_FLASH_BASE + offset) data) = flash_cmds (RTL_DL_FLASH_BASE + offset) data) by (apply take_ge, R2; done).
  apply bind_Some in E as ([ok s3] & E3 & E). apply dl_session_calm in E3 as [A3 B3]. destruct ok; cbn [negb] in E.
  2:{ injection E as <- <- <-. split; [by apply Hcmds|]. clear Hcmds Hall. split; [auto|]. repeat apply conj; try (unfold untouched; lia); done. }
  apply bind_Some in E as ([[rc4 dev] s4] & E4 & E). apply chksum_calm in E4 as [A4 B4]. assert (A : effects s4 = effects s2) by congruence.
  destruct (Z.eqb_spec rc4 0) as [->|N4]; cbn [negb] in E.
  2:{ injection E as <- <- <-. split; [by apply Hcmds|]. clear Hcmds Hall. split; [auto|]. repeat apply conj; try (unfold untouched; lia); done. }
  destruct (Z.eqb_spec dev hs) as [->|N5]; cbn [negb] in E; injection E as <- <- <-; (split; [by apply Hcmds|]); clear Hcmds Hall; (split; [auto|]); repeat apply conj; try (unfold untouched; lia); done.
Qed.

(** Gate 3: the session was opened and its capacity probe ended without a failed read,
    before anything was erased or written; a capacity that was found holds the range. *)
Definition probed_first (offset : Z) (data : list Z) (h : Z) (ab : bool) s (r : rtl_dl_program) : Prop :=
  exists s1 rc2 sz s2, dl_session fuel flashloader h ab s = Some (true, s1) /\ rtl_dl_detect_size fuel ab s1 = Some (rc2, sz, s2) /\ rc2 <> -2 /\
    effects s2 = effects s /\ cap_known r = (rc2 =? 0) && negb (size sz =? 0) /\
    (cap_known r = true -> r_cap r = size sz /\ offset + Z.of_nat (length data) <= size sz).

(** C12: whatever the module answers and wherever a run stops, what
    [rtl_dl_flash_program] sends that erases or writes flash is a prefix of one fixed
    sequence -- an erase for each sector of the range, then a block for each kilobyte of the
    image, every one inside the range -- and is empty unless the range is aligned and within
    the first 2 MB, an image for offset 0 begins with the boot signature, and the range
    fits the capacity when that was found -- found by a probe of this very run, in a
    session that was opened, before anything was sent, whose reads did not fail
    ([probed_first]); the codes -1, -2, -3, -4 and -10 say that nothing was sent.  A result of 0 means that all was sent and that the module's digest
    is the sum of the image's words.  The download strap is not left driven. *)
Theorem rtl_dl_flash_program_correct offset data h ab s rc r s' : is_u32 offset -> is_u32 (Z.of_nat (length data)) -> bytes_ok data -> strap_low s = false ->
  rtl_dl_flash_program fuel flashloader offset (Some data) h ab s = Some (rc, r, s') ->
  strap_low s' = false /\ -10 <= rc <= 0 /\
  (exists l, effects s' = effects s ++ l /\ l `prefix_of` program_cmds offset data /\ (untouched rc -> l = []) /\ (rc = 0 -> l = program_cmds offset data) /\
    (l <> [] -> (forall p, p ∈ program_cmds offset data -> offset <= fst (target p) /\ fst (target p) + snd (target p) <= offset + Z.of_nat (length data)) /\
      concat (payload <$> flash_cmds (RTL_DL_FLASH_BASE + offset) data) = data /\ offset + Z.of_nat (length data) <= RTL_DL_FLASH_WRITE_MAX /\
      (offset = 0 -> take 8 data = rtl_dl_km0_magic) /\ probed_first offset data h ab s r)) /\
  (rc = 0 <-> verify_ok r = true) /\ (rc = 0 -> dev_sum r = u32 (words_sum data) /\ host_sum r = u32 (words_sum data)).
Proof.
  intros Ho Hl Hb Hs E. unfold rtl_dl_flash_program in E.
  assert (Hnone : forall rc0 r0 s0, untouched rc0 -> calm s s0 -> verify_ok r0 = false -> Some (rc0, r0, s0) = Some (rc, r, s') ->
    strap_low s' = false /\ -10 <= rc <= 0 /\ (exists l, effects s' = effects s ++ l /\ l `prefix_of` program_cmds offset data /\ (untouched rc -> l = []) /\ (rc = 0 -> l = program_cmds offset data) /\
    (l <> [] -> (forall p, p ∈ program_cmds offset data -> offset <= fst (target p) /\ fst (target p) + snd (target p) <= offset + Z.of_nat (length data)) /\
      concat (payload <$> flash_cmds (RTL_DL_FLASH_BASE + offset) data) = data /\ offset + Z.of_nat (length data) <= RTL_DL_FLASH_WRITE_MAX /\
      (offset = 0 -> take 8 data = rtl_dl_km0_magic) /\ probed_first offset data h ab s r)) /\
    (rc = 0 <-> verify_ok r = true) /\ (rc = 0 -> dev_sum r = u32 (words_sum data) /\ host_sum r = u32 (words_sum data))).
  { intros rc0 r0 s0 U [C1 C2] V [= -> -> ->]. unfold untouched in U. split; [auto|]. split; [lia|]. split; [|rewrite V; split; [split; [lia|done]|lia]].
    exists []. rewrite app_nil_r. split_and!; try done; [apply prefix_nil|lia]. }
  destruct (dl_flash_range_ok _ _ _) eqn:Hr; cbn [negb] in E; [|by apply (Hnone (-1) program_zero s); [left| | |]].
  destruct (Z.eqb_spec offset 0) as [Hz|Hz].
  all: destruct (bool_decide (take 8 data = rtl_dl_km0_magic)) eqn:Hm; cbn [negb andb] in E; try (eapply Hnone; [| | |exact E]; [by right; right; left|done|done]).
  all: apply bind_Some in E as ([ok s1] & E1 & E); pose proof E1 as Es; apply dl_session_calm in E1; destruct ok; cbn [negb] in E; [|eapply Hnone; [| | |exact E]; [by right; left|done|done]].
  all: apply bind_Some in E as ([[rc2 sz] s2] & E2 & E); pose proof E2 as Ep; apply detect_calm in E2; pose proof (calm_then _ _ _ E1 E2) as C2; destruct (Z.eqb_spec rc2 (-2)) as [|Hrc2]; [eapply Hnone; [| | |exact E]; [by right; right; right; right|done|done]|].
  all: destruct (_ && (_ || _)) eqn:Hc; [eapply Hnone; [| | |exact E]; [by right; right; right; left|done|done]|].
  all: apply program_body_spec in E as ((l & A & P & R0) & B & R & U & K1 & K2 & K3 & V & D); [|done|done|done]; destruct C2 as [C2a C2b].
  all: split; [by apply B, C2b|]; split; [lia|]; split; [|split; [done|intros Z0; destruct (D Z0) as (D1 & _); rewrite K3, D1, digest_spec by done; done]].
  all: exists l; rewrite A, C2a; (split; [done|]); (split; [done|]); (split; [done|]); (split; [done|]); intros _.
  all: pose proof (range_facts offset data Ho Hl Hr) as (_ & _ & _ & _ & F); split_and!; [by apply program_cmds_within|by apply flash_cmds_data|done|try done; intros _; by apply bool_decide_eq_true in Hm|].
  all: exists s1, rc2, sz, s2; split_and!; [done|done|done|by rewrite C2a|by rewrite K2|intros Hk].
  all: rewrite K2 in Hk; rewrite Hk in Hc, K1; cbn [andb] in Hc; apply orb_false_iff in Hc as [Hc1 Hc2]; rewrite K1; lia.
Qed.
End program_run.

(** ** Reading: exactly the frames on the wire *)

(** A read finds no more bytes than it asks for. *)
Class BoardRx (W : Type) `{Board W} : Prop := { rx_len n w : 0 <= n -> Z.of_nat (length (fst (rx n w))) <= n }.

Definition read_frame (i : Z) (data : list Z) : list Z := [RTL_DL_STX; u8 (i + 1); u8 (Z.lxor (u8 (i + 1)) 255)] ++ data ++ [Z.land (foldl (fun a b => a +% b) 0 data) 255].

(** The frames [i], [i + 1], ... of a stream, what comes before a frame holding no STX. *)
Fixpoint read_stream (i : Z) (frames : list (list Z * list Z)) : list Z :=
  match frames with [] => [] | (junk, data) :: frames => junk ++ read_frame i data ++ read_stream (i + 1) frames end.

Section reading.
Context {W : Type} `{BoardRx W} (fuel : nat).
Implicit Types s : dst (W := W).

Lemma read_rcvd n s l s' : dl_uart_read n s = (l, s') -> 0 <= n -> rcvd s' = rcvd s ++ l /\ Z.of_nat (length l) <= n.
Proof. unfold dl_uart_read. intros E Hn. pose proof (rx_len n (brd s) Hn) as L. destruct (rx n (brd s)). by injection E as <- <-. Qed.
Lemma abort_rcvd ab s a s' : abort ab s = (a, s') -> rcvd s' = rcvd s.
Proof. unfold abort. destruct ab; [|by intros [= <- <-]]. destruct (aborting (brd s)). by intros [= <- <-]. Qed.

Lemma wait_byte_rcvd n want dl ab s rc s' : wait_byte_loop n want dl ab s = Some (rc, s') -> exists l, rcvd s' = rcvd s ++ l /\ (rc = 0 -> exists junk, l = junk ++ [want] /\ want ∉ junk).
Proof.
  revert s. induction n as [|n IH]; intros s E; cbn [wait_byte_loop] in E; [done|]. destruct (dl_uart_read 1 s) as [l s1] eqn:Er. apply read_rcvd in Er as [Er L]; [|done]. destruct l as [|b l].
  - destruct (abort ab s1) as [a s2] eqn:Ea. apply abort_rcvd in Ea. assert (R : rcvd s2 = rcvd s) by (by rewrite Ea, Er, app_nil_r).
    destruct a; [injection E as <- <-; exists []; by rewrite R, app_nil_r|]. destruct (past dl s2); [injection E as <- <-; exists []; by rewrite R, app_nil_r|].
    apply IH in E as (l & E1 & E2). exists l. split; [|done]. rewrite E1. cbn. by rewrite R.
  - destruct l; [|cbn in L; lia]. destruct (Z.eqb_spec b want) as [->|Hne].
    + injection E as <- <-. exists [want]. split; [done|]. intros _. exists []. split; [done|]. apply not_elem_of_nil.
    + apply IH in E as (l & E1 & E2). exists (b :: l). rewrite E1, Er, <-app_assoc. split; [done|]. intros Z0. destruct (E2 Z0) as (junk & -> & Hj). exists (b :: junk). split; [done|]. rewrite elem_of_cons. intros [?|?]; by subst.
Qed.

Lemma recv_rcvd n cap got dl ab s rc got' s' : (length got <= cap)%nat -> recv_loop n cap got dl ab s = Some (rc, got', s') ->
  exists l, rcvd s' = rcvd s ++ l /\ got' = got ++ l /\ (length got' <= cap)%nat /\ (rc = 0 -> length got' = cap).
Proof.
  revert got s. induction n as [|n IH]; intros got s Hg E; cbn [recv_loop] in E; [done|]. destruct (Nat.leb_spec cap (length got)); [injection E as <- <- <-; exists []; rewrite !app_nil_r; split_and!; try done; lia|].
  destruct (dl_uart_read _ s) as [l s1] eqn:Er. apply read_rcvd in Er as [Er L]; [|lia]. assert (Hl : (length (got ++ l) <= cap)%nat) by (rewrite length_app; lia).
  destruct (Nat.leb_spec cap (length (got ++ l))); [injection E as <- <- <-; exists l; split_and!; try done; lia|].
  destruct (abort ab s1) as [a s2] eqn:Ea. apply abort_rcvd in Ea. rewrite <-Ea in Er. destruct a; [injection E as <- <- <-; exists l; split_and!; done|]. destruct (past dl s2); [injection E as <- <- <-; exists l; split_and!; done|].
  apply IH in E as (l2 & E1 & E2 & E3 & E4); [|done]. exists (l ++ l2). rewrite E1. cbn. rewrite Er, <-app_assoc. split_and!; try done. by rewrite E2, <-app_assoc.
Qed.

Lemma read_exact_rcvd n ms ab s rc l s' : dl_read_exact fuel n ms ab s = Some (rc, l, s') -> rcvd s' = rcvd s ++ l /\ (rc = 0 -> length l = n).
Proof.
  unfold dl_read_exact. intros E. apply bind_Some in E as ([[rc1 l1] s1] & E & E2). injection E2 as <- <- <-. apply recv_rcvd in E as (l & A & -> & B & D); [|cbn; lia]. split; [done|]. destruct (rc1 =? 1) eqn:?; [done|]. done.
Qed.

Lemma read_block_rcvd i ab s data s' : read_block fuel i ab s = Some (0, data, s') -> exists junk, rcvd s' = rcvd s ++ junk ++ read_frame i data /\ RTL_DL_STX ∉ junk /\ length data = 1024%nat.
Proof.
  unfold read_block. intros E. apply bind_Some in E as ([rr s1] & E1 & E). apply wait_byte_rcvd in E1 as (l & A & B). destruct (Z.eqb_spec rr 0) as [->|]; cbn [negb] in E; [|done]. destruct (B eq_refl) as (junk & -> & Hj).
  apply bind_Some in E as ([[rr2 blk] s2] & E2 & E). apply read_exact_rcvd in E2 as (C & D). destruct (Z.eqb_spec rr2 0) as [->|]; cbn [negb] in E; [|done]. specialize (D eq_refl).
  cbv zeta in E. destruct (_ || _) eqn:F1; [done|]. destruct (negb (u8 (Z.land _ _) =? _)) eqn:F2; [done|]. injection E as <- <-. apply orb_false_iff in F1 as [F0 F1]. apply negb_false_iff in F0, F1, F2. apply Z.eqb_eq in F0, F1, F2.
  exists junk. split; [|split; [done|by rewrite length_slice; [|lia]]]. rewrite C, A, <-!app_assoc. unfold read_frame. do 2 f_equal. cbn [app]. f_equal.
  destruct blk as [|b0 [|b1 blk]]; [cbn in D; lia..|]. cbn [nth] in F0, F1. rewrite <-F0, <-F1. do 2 f_equal. unfold slice in F2 |- *. cbn [drop] in F2 |- *. cbn [length] in D.
  change (nth 1026 (b0 :: b1 :: blk) 0) with (nth 1024 blk 0) in F2. rewrite <-(take_drop 1024 blk) at 1. f_equal.
  assert (D' : length (drop 1024 blk) = 1%nat) by (rewrite length_drop; lia). rewrite <-(take_drop 1024 blk) in F2 at 2. rewrite app_nth2 in F2 by (rewrite length_take; lia). rewrite length_take, Nat.min_l, Nat.sub_diag in F2 by lia.
  destruct (drop 1024 blk) as [|z [|? ?]]; cbn in D'; try lia. cbn [nth] in F2. f_equal. rewrite <-F2. unfold u8. rewrite land_255. by rewrite Z.mod_mod.
Qed.

Lemma read_blocks_rcvd n i buf cap ab s buf' s' : (length buf <= cap)%nat -> read_blocks fuel n i buf cap ab s = Some (0, buf', s') ->
  exists frames tail, length frames = n /\ rcvd s' = rcvd s ++ read_stream i frames ++ tail /\ Forall (fun f => RTL_DL_STX ∉ fst f /\ length (snd f) = 1024%nat) frames /\
    (length buf' <= cap)%nat /\ buf' = buf ++ take (cap - length buf) (concat (snd <$> frames)) /\ (n <> O -> exists junk, tail = junk ++ [RTL_DL_ACK] /\ RTL_DL_ACK ∉ junk).
Proof.
  revert i buf s. induction n as [|n IH]; intros i buf s Hb E; cbn [read_blocks] in E.
  { injection E as <- <-. exists [], []. cbn. rewrite take_nil, !app_nil_r. done. }
  apply bind_Some in E as ([[rr data] s1] & E1 & E). destruct (Z.eqb_spec rr 0) as [->|Hn]; cbn [negb] in E; [|by simplify_eq].
  apply read_block_rcvd in E1 as (junk & A & J & L). set (buf1 := buf ++ take (cap - length buf) data) in *.
  assert (Hb1 : (length buf1 <= cap)%nat) by (unfold buf1; rewrite length_app, length_take; lia).
  assert (Hcat : forall ds, buf1 ++ take (cap - length buf1) ds = buf ++ take (cap - length buf) (data ++ ds)).
  { intros ds. unfold buf1. rewrite length_app, length_take, take_app, <-app_assoc. do 2 f_equal. f_equal. lia. }
  destruct n as [|n].
  - apply bind_Some in E as ([rr2 s2] & E2 & E). unfold dl_send_wait_ack in E2. apply wait_byte_rcvd in E2 as (l & B & D). destruct (Z.eqb_spec rr2 0) as [->|]; cbn [negb] in E; [|done]. injection E as <- <-.
    exists [(junk, data)], l. cbn [length read_stream concat fmap list_fmap snd]. rewrite B. cbn. rewrite A, !app_nil_r, <-!app_assoc. split_and!; try done; [by repeat constructor|]. intros _. by apply D.
  - apply IH in E as (frames & tail & F1 & F2 & F3 & F4 & F5 & F6); [|done]. exists ((junk, data) :: frames), tail. cbn [length read_stream concat fmap list_fmap snd]. rewrite F2. cbn [dl_uart_write rcvd]. rewrite A, <-!app_assoc.
    split_and!; [by rewrite F1|done|by constructor|done|by rewrite F5, Hcat|intros _; by apply F6].
Qed.

Lemma drain_rcvd n st la q m s s' : quiet_loop n st la q m s = Some s' -> exists l, rcvd s' = rcvd s ++ l.
Proof.
  revert la s. induction n as [|n IH]; intros la s E; cbn [quiet_loop] in E; [done|]. destruct (dl_uart_read 64 s) as [l s1] eqn:Er. apply read_rcvd in Er as [Er _]; [|done]. destruct l as [|b l].
  - rewrite app_nil_r in Er. destruct (_ <=? _); [injection E as <-; exists []; by rewrite Er, app_nil_r|]. destruct (_ <=? _); [injection E as <-; exists []; by rewrite Er, app_nil_r|]. apply IH in E as (l & E). exists l. rewrite E. cbn. by rewrite Er.
  - apply IH in E as (l2 & E). eexists. by rewrite E, Er, <-app_assoc.
Qed.

Lemma read_blocks_rc n i buf cap ab s rc buf' s' : read_blocks fuel n i buf cap ab s = Some (rc, buf', s') -> rc <= 0.
Proof.
  revert i buf s. induction n as [|n IH]; intros i buf s E; cbn [read_blocks] in E; [injection E as <- _ _; lia|]. apply bind_Some in E as ([[rr data] s1] & E1 & E). destruct (Z.eqb_spec rr 0) as [->|Hn]; cbn [negb] in E.
  - destruct n; [|by apply IH in E]. apply bind_Some in E as ([rr2 s2] & E2 & E). destruct (negb _); injection E as <- _ _; lia.
  - injection E as <- _ _. unfold read_block in E1. apply bind_Some in E1 as ([r2 s2] & E2 & E1). destruct (negb _); [injection E1 as <- _ _; lia|]. apply bind_Some in E1 as ([[r3 l3] s3] & E3 & E1).
    destruct (negb _); [injection E1 as <- _ _; lia|]. destruct (_ || _); [injection E1 as <- _ _; lia|]. destruct (negb _); injection E1 as <- _ _; lia.
Qed.

(** C28: a read of flash that succeeds has taken exactly its frames from the wire: four
    for each sector, in sequence, every one with its number, the complement and the
    checksum of its kilobyte, other bytes being skipped only up to the next frame's
    first byte, and the last one acknowledged; the bytes returned are the first [cap] of
    the frames' data. *)
Theorem rtl_dl_read_flash_frames offset n cap ab s rc buf s' : 0 <= n -> rtl_dl_read_flash fuel offset n cap ab s = Some (rc, buf, s') -> 0 <= rc ->
  exists pre frames junk, rcvd s' = rcvd s ++ pre ++ read_stream 0 frames ++ junk ++ [RTL_DL_ACK] /\ Z.of_nat (length frames) = 4 * n /\ RTL_DL_ACK ∉ junk /\
    Forall (fun f => RTL_DL_STX ∉ fst f /\ length (snd f) = 1024%nat) frames /\ buf = take cap (concat (snd <$> frames)) /\ rc = Z.of_nat (length buf).
Proof.
  intros Hn E Hrc. unfold rtl_dl_read_flash in E. destruct (_ || _) eqn:C0; [injection E as <- _ _; lia|]. destruct (negb _); [injection E as <- _ _; lia|]. apply orb_false_iff in C0 as [C0 _]. apply Z.eqb_neq in C0.
  apply bind_Some in E as (s1 & E1 & E). apply bind_Some in E as ([[rr b] s2] & E2 & E). injection E as <- <- <-. destruct (Z.eqb_spec rr 0) as [->|Hne].
  - apply read_blocks_rcvd in E2 as (frames & tail & F1 & F2 & F3 & F4 & F5 & F6); [|cbn; lia]. destruct F6 as (junk & -> & J); [lia|]. destruct (drain_rcvd _ _ _ _ _ _ _ E1) as [pre Hp].
    exists pre, frames, junk. cbn [dl_uart_write rcvd] in F2. rewrite F2, Hp, <-!app_assoc. cbn in F5. rewrite Nat.sub_0_r in F5. split_and!; try done. lia.
  - exfalso. assert (rr < 0); [|lia]. apply read_blocks_rc in E2. lia.
Qed.
End reading.

(** ** The second limit of the drain *)

(** [dl_drain_quiet] looks at [max_ms] only when a read finds nothing: against a module
    that always has a byte ready it runs as long as that lasts, whatever the limits. *)
Lemma drain_chatter {W : Type} `{Board W} n st la q m (s : dst (W := W)) : (forall s1 : dst (W := W), fst (dl_uart_read 64 s1) <> []) -> quiet_loop n st la q m s = None.
Proof.
  intros C. revert la s. induction n as [|n IH]; intros la s; cbn [quiet_loop]; [done|]. specialize (C s). destruct (dl_uart_read 64 s) as [[|b l] s1]; [done|]. apply IH.
Qed.

(** ** Every call returns *)

(** The board in time.  Ticks count the [clock], which an operation other than a sleep moves on
    by [grain] at most; the module has a finite number of bytes left to send, which no
    operation adds to. *)
Class BoardTime (W : Type) `{Board W} := {
  clock : W -> Z;
  left : W -> nat;
  grain : Z;
  grain_pos : 0 < grain;
  ticks w : tx_time_get w = u32 (clock w);
  rx_after n w : clock w <= clock (snd (rx n w)) <= clock w + grain /\ (left (snd (rx n w)) + length (fst (rx n w)) <= left w)%nat;
  tx_after l w : (left (tx l w) <= left w)%nat;
  open_after b w : (left (snd (reopen b w)) <= left w)%nat;
  shut_after w : (left (shut w) <= left w)%nat;
  quiesce_after w : (left (force_quiesce w) <= left w)%nat;
  power_after b w : (left (power b w) <= left w)%nat;
  strap_after b w : (left (strap b w) <= left w)%nat;
  udelay_after n w : (left (udelay n w) <= left w)%nat;
  abort_after w : clock w <= clock (snd (aborting w)) <= clock w + grain /\ (left (snd (aborting w)) <= left w)%nat;
  sleep_after n w : 0 < n -> clock w + n <= clock (tx_thread_sleep n w) <= clock w + n + grain /\ (left (tx_thread_sleep n w) <= left w)%nat;
}.

Section termination.
Context {W : Type} `{BoardTime W} (fuel : nat) (flashloader : list Z).
Implicit Types s : dst (W := W).

Definition clk s : Z := clock (brd s).
Definition todo s : nat := left (brd s).

(** The longest wait. *)
Definition LONGEST : Z := 120000.

(** Short of 24 days of chatter, and fuel for it. *)
Definition in_time s : Prop := (Z.of_nat (todo s) + 8) * grain + LONGEST < 2 ^ 31 /\ Z.of_nat (todo s) + LONGEST + 1 <= Z.of_nat fuel.

Definition returns {A} (o : option (A * dst (W := W))) : Prop := exists a s, o = Some (a, s) /\ in_time s.
Definition returns' (o : option (dst (W := W))) : Prop := exists s, o = Some s /\ in_time s.

Lemma in_time_le s s' : (todo s' <= todo s)%nat -> in_time s -> in_time s'.
Proof. pose proof grain_pos. unfold in_time. intros L [A B]. split; [nia|lia]. Qed.

Lemma returns_ret {A} (a : A) s : in_time s -> returns (Some (a, s)).
Proof. intros. by exists a, s. Qed.
Lemma returns_call {A B} (o : option (A * dst)) (f : A * dst -> option (B * dst)) : returns o -> (forall a s, in_time s -> returns (f (a, s))) -> returns (o ≫= f).
Proof. intros (a & s & -> & Hs) Hf. by apply Hf. Qed.
Lemma returns_call' {B} (o : option dst) (f : dst -> option (B * dst)) : returns' o -> (forall s, in_time s -> returns (f s)) -> returns (o ≫= f).
Proof. intros (s & -> & Hs) Hf. by apply Hf. Qed.

Lemma read_time n s l s' : dl_uart_read n s = (l, s') -> clk s <= clk s' <= clk s + grain /\ (todo s' + length l <= todo s)%nat.
Proof. unfold dl_uart_read, clk, todo. pose proof (rx_after n (brd s)) as A. destruct (rx n (brd s)). intros [= <- <-]. exact A. Qed.
Lemma abort_time ab s a s' : abort ab s = (a, s') -> clk s <= clk s' <= clk s + grain /\ (todo s' <= todo s)%nat.
Proof.
  unfold abort, clk, todo. pose proof grain_pos. destruct ab; [|intros [= <- <-]; lia]. pose proof (abort_after (brd s)) as A. destruct (aborting (brd s)). intros [= <- <-]. exact A.
Qed.
Lemma sleep_time n s : 0 < n -> clk s + n <= clk (sleep n s) <= clk s + n + grain /\ (todo (sleep n s) <= todo s)%nat.
Proof. intros. by apply sleep_after. Qed.
Lemma in_time_open b s rc s' : dl_uart_open b s = (rc, s') -> in_time s -> in_time s'.
Proof. unfold dl_uart_open. pose proof (open_after b (brd s)) as A. destruct (reopen b (brd s)). intros [= <- <-]. by apply in_time_le. Qed.
Lemma in_time_write l s : in_time s -> in_time (dl_uart_write l s).
Proof. apply in_time_le, tx_after. Qed.

(** Deadline [D], in unbounded time; the clock is within half the counter's range of it,
    even after all the bytes that may come. *)
Definition near (D : Z) s : Prop := D - 2 ^ 31 <= clk s /\ clk s + (Z.of_nat (todo s) + 4) * grain < D + 2 ^ 31.

Lemma past_spec D s : D - 2 ^ 31 <= clk s < D + 2 ^ 31 -> past (u32 D) s = (D <=? clk s).
Proof.
  change (2 ^ 31) with 2147483648. intros Hn. unfold past, now. rewrite ticks. fold (clk s). rewrite u32_sub_l, u32_sub_r. unfold s32, u32. destruct (Z.leb_spec D (clk s)).
  - rewrite Z.mod_small by lia. case_if; lia.
  - replace ((clk s - D) mod 4294967296) with (clk s - D + 4294967296) by (apply (Z.mod_unique _ _ (-1)); lia). case_if; lia.
Qed.

Lemma elapsed_spec t0 s : 0 <= clk s - t0 < 2 ^ 31 -> s32 (now s -% u32 t0) = clk s - t0.
Proof.
  change (2 ^ 31) with 2147483648. intros Hn. unfold now. rewrite ticks. fold (clk s). rewrite u32_sub_l, u32_sub_r. unfold s32, u32. rewrite Z.mod_small by lia. case_if; lia.
Qed.

Lemma near_start ms s : 0 <= ms <= LONGEST -> in_time s -> near (clk s + ms) s.
Proof. pose proof grain_pos. unfold near, in_time, LONGEST. change (2 ^ 31) with 2147483648. intros Hm [A B]. nia. Qed.

Lemma near_step D s s' : clk s <= clk s' <= clk s + grain -> (todo s' + 1 <= todo s)%nat -> near D s -> near D s'.
Proof. pose proof grain_pos. unfold near. intros. nia. Qed.

(** After a look that found nothing and the time not up, a sleep. *)
Lemma near_sleep D s s1 : near D s -> in_time s -> (todo s1 <= todo s)%nat -> clk s <= clk s1 -> clk s1 < D -> near D (sleep 1 s1).
Proof.
  pose proof grain_pos. unfold near, in_time, LONGEST. change (2 ^ 31) with 2147483648. intros [A B] [C _] L1 L2 L3. destruct (sleep_time 1 s1) as [S1 S2]; [done|]. nia.
Qed.
Lemma near_check D s s1 s2 : near D s -> clk s <= clk s1 <= clk s + grain -> clk s1 <= clk s2 <= clk s1 + grain -> past (u32 D) s2 = (D <=? clk s2).
Proof. pose proof grain_pos. unfold near. intros [A B] C E. apply past_spec. nia. Qed.

Lemma wait_byte_returns n want D ab s : in_time s -> near D s -> (Z.of_nat (todo s) + Z.max 0 (D - clk s) < Z.of_nat n) -> returns (wait_byte_loop n want (u32 D) ab s).
Proof.
  revert s. induction n as [|n IH]; intros s T N F; [lia|]. cbn [wait_byte_loop]. destruct (dl_uart_read 1 s) as [l s1] eqn:Er. apply read_time in Er as [E1 E2]. destruct l as [|b l]; cbn [length] in E2.
  - destruct (abort ab s1) as [a s2] eqn:Ea. apply abort_time in Ea as [A1 A2]. destruct a; [apply returns_ret; eapply in_time_le; [|exact T]; lia|]. rewrite (near_check D s s1) by done. destruct (Z.leb_spec D (clk s2)); [apply returns_ret; eapply in_time_le; [|exact T]; lia|].
    destruct (sleep_time 1 s2) as [S1 S2]; [done|]. apply IH; [eapply in_time_le; [|exact T]; lia|apply (near_sleep D s); done || lia|lia].
  - destruct (b =? want); [apply returns_ret; eapply in_time_le; [|exact T]; lia|]. apply IH; [eapply in_time_le; [|exact T]; lia|apply (near_step D s); done || lia|lia].
Qed.

Lemma dl_wait_byte_returns want ms ab s : 0 <= ms <= LONGEST -> in_time s -> returns (dl_wait_byte fuel want ms ab s).
Proof.
  intros Hm T. unfold dl_wait_byte, now. rewrite ticks. fold (clk s). rewrite u32_add_l. apply wait_byte_returns; [done|by apply near_start|]. destruct T. unfold clk in *. lia.
Qed.

Lemma recv_returns n cap got D ab s : in_time s -> near D s -> (Z.of_nat (todo s) + Z.max 0 (D - clk s) < Z.of_nat n) -> returns (recv_loop n cap got (u32 D) ab s).
Proof.
  revert got s. induction n as [|n IH]; intros got s T N F; [lia|]. cbn [recv_loop]. destruct (_ <=? _)%nat; [by apply returns_ret|]. destruct (dl_uart_read _ s) as [l s1] eqn:Er. apply read_time in Er as [E1 E2].
  destruct (_ <=? _)%nat; [apply returns_ret; eapply in_time_le; [|exact T]; lia|]. destruct (abort ab s1) as [a s2] eqn:Ea. apply abort_time in Ea as [A1 A2]. destruct a; [apply returns_ret; eapply in_time_le; [|exact T]; lia|].
  rewrite (near_check D s s1) by done. destruct (Z.leb_spec D (clk s2)); [apply returns_ret; eapply in_time_le; [|exact T]; lia|].
  destruct (sleep_time 1 s2) as [S1 S2]; [done|]. apply IH; [eapply in_time_le; [|exact T]; lia|apply (near_sleep D s); done || lia|lia].
Qed.

Lemma dl_read_exact_returns n ms ab s : 0 <= ms <= LONGEST -> in_time s -> returns (dl_read_exact fuel n ms ab s).
Proof.
  intros Hm T. unfold dl_read_exact, now. apply returns_call; [|intros [rc got] s1 T1; by apply returns_ret]. rewrite ticks. fold (clk s). rewrite u32_add_l. apply recv_returns; [done|by apply near_start|]. destruct T. unfold clk in *. lia.
Qed.
Lemma dl_recv_returns n ms ab s : 0 <= ms <= LONGEST -> in_time s -> returns (dl_recv fuel n ms ab s).
Proof.
  intros Hm T. unfold dl_recv, now. apply returns_call; [|intros [rc got] s1 T1; by apply returns_ret]. rewrite ticks. fold (clk s). rewrite u32_add_l. apply recv_returns; [done|by apply near_start|]. destruct T. unfold clk in *. lia.
Qed.

Lemma wait_ms_returns n D ab s : in_time s -> near D s -> (Z.max 0 (D - clk s) < Z.of_nat n) -> returns (wait_ms_loop n (u32 D) ab s).
Proof.
  revert s. induction n as [|n IH]; intros s T N F; [lia|]. cbn [wait_ms_loop]. rewrite past_spec by (pose proof grain_pos; unfold near in N; nia). destruct (Z.leb_spec D (clk s)); cbn [negb]; [by apply returns_ret|].
  destruct (abort ab s) as [a s2] eqn:Ea. apply abort_time in Ea as [A1 A2]. destruct a; [apply returns_ret; eapply in_time_le; [|exact T]; lia|].
  destruct (sleep_time 1 s2) as [S1 S2]; [done|]. apply IH; [eapply in_time_le; [|exact T]; lia| |lia].
  pose proof grain_pos. unfold near, in_time, LONGEST in *. change (2 ^ 31) with 2147483648 in *. nia.
Qed.
Lemma dl_wait_ms_returns ms ab s : 0 <= ms <= LONGEST -> in_time s -> returns (dl_wait_ms fuel ms ab s).
Proof.
  intros Hm T. unfold dl_wait_ms, now. rewrite ticks. fold (clk s). rewrite u32_add_l. apply wait_ms_returns; [done|by apply near_start|]. destruct T. unfold clk in *. lia.
Qed.

(** The drain ends by the second limit at the latest. *)
Lemma drain_returns n t0 la q m s : 0 <= m <= LONGEST -> in_time s -> near t0 s -> t0 <= clk s -> (Z.of_nat (todo s) + Z.max 0 (t0 + m - clk s) < Z.of_nat n) -> returns' (quiet_loop n (u32 t0) la q m s).
Proof.
  intros Hm. revert la s. induction n as [|n IH]; intros la s T N L F; [lia|]. cbn [quiet_loop]. destruct (dl_uart_read 64 s) as [l s1] eqn:Er. apply read_time in Er as [E1 E2]. destruct l as [|b l]; cbn [length] in E2.
  - assert (T1 : in_time s1) by (eapply in_time_le; [|exact T]; lia). destruct (_ <=? _); [by exists s1|]. rewrite elapsed_spec by (pose proof grain_pos; unfold near in N; nia). destruct (Z.leb_spec m (clk s1 - t0)); [by exists s1|].
    destruct (sleep_time 1 s1) as [S1 S2]; [done|]. apply IH; [eapply in_time_le; [|exact T1]; lia| |lia|lia].
    pose proof grain_pos. unfold near, in_time, LONGEST in *. change (2 ^ 31) with 2147483648 in *. nia.
  - apply IH; [eapply in_time_le; [|exact T]; lia|apply (near_step t0 s); done || lia|lia|lia].
Qed.
Lemma dl_drain_returns q m s : 0 <= m <= LONGEST -> in_time s -> returns' (dl_drain_quiet fuel q m s).
Proof.
  intros Hm T. unfold dl_drain_quiet. replace (now s) with (u32 (clk s)) by (unfold now; by rewrite ticks). apply drain_returns; [done|done| |lia|destruct T; lia].
  pose proof grain_pos. unfold near, in_time, LONGEST in *. change (2 ^ 31) with 2147483648 in *. nia.
Qed.
Lemma drain_ring_returns n s : in_time s -> (todo s < n)%nat -> returns' (drain_ring n s).
Proof.
  revert s. induction n as [|n IH]; intros s T F; [lia|]. cbn [drain_ring]. destruct (dl_uart_read 64 s) as [l s1] eqn:Er. apply read_time in Er as [E1 E2]. assert (T1 : in_time s1) by (eapply in_time_le; [|exact T]; lia).
  destruct l; cbn [length] in E2; [by exists s1|]. apply IH; [done|lia].
Qed.

(** Calls that wait for nothing. *)
Lemma in_time_sleep n s : 0 < n -> in_time s -> in_time (sleep n s).
Proof. intros Hn. apply in_time_le. by apply sleep_time. Qed.
Lemma in_time_power b s : in_time s -> in_time (rtl8720_power b s).
Proof. apply in_time_le, power_after. Qed.
Lemma in_time_udelay n s : in_time s -> in_time (on_brd (udelay n) s).
Proof. apply in_time_le, udelay_after. Qed.
Lemma in_time_quiesce s : in_time s -> in_time (on_brd force_quiesce s).
Proof. apply in_time_le, quiesce_after. Qed.
Lemma in_time_shut s : in_time s -> in_time (on_brd shut s).
Proof. apply in_time_le, shut_after. Qed.
Lemma in_time_low s : in_time s -> in_time (dl_strap_drive_low s).
Proof. apply in_time_le, strap_after. Qed.
Lemma in_time_high s : in_time s -> in_time (dl_strap_release_input s).
Proof. apply in_time_le, strap_after. Qed.

Lemma send_wait_ack_returns p ms ab s : 0 <= ms <= LONGEST -> in_time s -> returns (dl_send_wait_ack fuel p ms ab s).
Proof. intros Hm T. apply dl_wait_byte_returns; [done|]. by apply in_time_write. Qed.

(** A program of such calls returns. *)
#[local] Hint Resolve in_time_sleep in_time_power in_time_udelay in_time_quiesce in_time_shut in_time_low in_time_high in_time_write in_time_open : intime.
#[local] Hint Resolve dl_wait_byte_returns dl_read_exact_returns dl_recv_returns dl_wait_ms_returns dl_drain_returns send_wait_ack_returns : intime.
#[local] Hint Extern 1 (_ <= _ <= LONGEST) => (unfold LONGEST; lia) : intime.
#[local] Hint Extern 1 (0 < _) => lia : intime.
#[local] Hint Extern 2 (in_time (if ?b then _ else _)) => destruct b : intime.
Ltac ret_step :=
  match goal with
  | |- returns (Some (if ?b then _ else _)) => destruct b
  | |- returns (Some _) => apply returns_ret
  | |- returns (match ?x with _ => _ end) => lazymatch type of x with bool => destruct x | (_ * _)%type => let E := fresh "E" in destruct x eqn:E | _ => destruct x end
  | |- returns (mbind _ _) => first [apply returns_call; [|intros; cbn beta iota] | apply returns_call'; [|intros; cbn beta iota]]
  | x : (_ * _)%type |- _ => destruct x
  end.
Ltac ret := cbv zeta; repeat (ret_step; cbn beta iota); eauto 8 with intime.

Lemma rtl_dl_enter_returns h ab s : in_time s -> returns (rtl_dl_enter fuel h ab s).
Proof. intros T. unfold rtl_dl_enter. ret. Qed.
Lemma rtl_dl_probe_returns slip ms ab s : 0 <= ms <= LONGEST -> in_time s -> returns (rtl_dl_probe fuel slip ms ab s).
Proof. intros Hm T. unfold rtl_dl_probe. apply returns_call'; [apply drain_ring_returns; [done|destruct T; lia]|]. intros s1 T1. ret. Qed.
Lemma dl_read_word_returns a ab s : in_time s -> returns (dl_read_word fuel a ab s).
Proof. intros T. unfold dl_read_word. ret. Qed.
Lemma send_blocks_loop_returns n data off a sq ms ab s : 0 <= ms <= LONGEST -> off <= Z.of_nat (length data) -> Z.of_nat (length data) - off < Z.of_nat n -> in_time s -> returns (send_blocks_loop fuel n data off a sq ms ab s).
Proof.
  intros Hm. revert off sq s. induction n as [|n IH]; intros off sq s L F T; [lia|]. cbn [send_blocks_loop]. destruct (Z.ltb_spec off (Z.of_nat (length data))); [|ret].
  apply returns_call; [eauto with intime|]. intros rr s1 T1. cbn beta iota. destruct (negb _); [ret|]. assert (0 < block_size (Z.of_nat (length data) - off)) by (unfold block_size; case_match; lia).
  destruct (Z.ltb_spec (Z.of_nat (length data) - off) (block_size (Z.of_nat (length data) - off))); apply IH; done || lia.
Qed.
Lemma dl_send_blocks_returns data a ms ab s : 0 <= ms <= LONGEST -> in_time s -> returns (dl_send_blocks fuel data a ms ab s).
Proof. intros Hm T. unfold dl_send_blocks. apply returns_call; [eauto with intime|]. intros rr s1 T1. cbn beta iota. destruct (negb _); [ret|]. apply send_blocks_loop_returns; done || lia. Qed.
#[local] Hint Resolve dl_read_word_returns dl_send_blocks_returns : intime.

Lemma dl_send_sram_returns data a ab s : in_time s -> returns (dl_send_sram fuel data a ab s).
Proof. intros T. unfold dl_send_sram, RTL_DL_ACK_MS_SRAM. ret. Qed.
Lemma dl_send_flash_returns data off ab s : in_time s -> returns (dl_send_flash fuel data off ab s).
Proof. intros T. unfold dl_send_flash, RTL_DL_ACK_MS_FLASH. ret. Qed.
Lemma erase_each_returns n i off ab s : in_time s -> returns (erase_each fuel n i off ab s).
Proof. revert i s. induction n as [|n IH]; intros i s T; cbn [erase_each]; ret. Qed.
Lemma dl_erase_sectors_returns off n ab s : in_time s -> returns (dl_erase_sectors fuel off n ab s).
Proof. intros T. pose proof erase_each_returns. unfold dl_erase_sectors. ret. Qed.
Lemma rtl_dl_set_baud_returns b s : in_time s -> returns (rtl_dl_set_baud fuel b s).
Proof. intros T. unfold rtl_dl_set_baud. ret. Qed.
#[local] Hint Resolve dl_send_sram_returns dl_send_flash_returns dl_erase_sectors_returns rtl_dl_set_baud_returns : intime.

Lemma rtl_dl_load_flashloader_returns b ab s : in_time s -> returns (rtl_dl_load_flashloader fuel flashloader b ab s).
Proof. intros T. unfold rtl_dl_load_flashloader. ret. Qed.
Lemma dl_spi_read_returns op n ab s : in_time s -> returns (dl_spi_read fuel op n ab s).
Proof. intros T. unfold dl_spi_read. ret. Qed.
Lemma rtl_dl_flash_chksum_returns off len ms ab s : 0 <= ms <= LONGEST -> in_time s -> returns (rtl_dl_flash_chksum fuel off len ms ab s).
Proof. intros Hm T. unfold rtl_dl_flash_chksum. ret. Qed.
#[local] Hint Resolve rtl_dl_enter_returns rtl_dl_load_flashloader_returns dl_spi_read_returns rtl_dl_flash_chksum_returns : intime.

Lemma status_loop_returns ops sr ab s : in_time s -> returns (status_loop fuel ops sr ab s).
Proof. revert sr s. induction ops as [|op ops IH]; intros sr s T; cbn [status_loop]; ret. Qed.
Lemma rtl_dl_flash_jedec_returns ab s : in_time s -> returns (rtl_dl_flash_jedec fuel ab s).
Proof. intros T. unfold rtl_dl_flash_jedec. ret. Qed.
Lemma read_block_returns i ab s : in_time s -> returns (read_block fuel i ab s).
Proof. intros T. unfold read_block. ret. Qed.
#[local] Hint Resolve read_block_returns : intime.
Lemma read_blocks_returns n i buf cap ab s : in_time s -> returns (read_blocks fuel n i buf cap ab s).
Proof.
  revert i buf s. induction n as [|n IH]; intros i buf s T; cbn [read_blocks]; [ret|]. apply returns_call; [eauto with intime|]. intros [rr data] s1 T1. cbn beta iota zeta. destruct (negb _); [ret|].
  destruct n; [ret|]. apply IH. eauto with intime.
Qed.
#[local] Hint Resolve read_blocks_returns : intime.
Lemma rtl_dl_read_flash_returns off n cap ab s : in_time s -> returns (rtl_dl_read_flash fuel off n cap ab s).
Proof. intros T. unfold rtl_dl_read_flash. ret. Qed.
#[local] Hint Resolve rtl_dl_read_flash_returns : intime.
Lemma size_loop_returns cs ref pr ab s : in_time s -> returns (size_loop fuel cs ref pr ab s).
Proof.
  revert pr s. induction cs as [|c cs IH]; intros pr s T; cbn [size_loop]; [ret|]. apply returns_call; [eauto with intime|]. intros [rc cand] s1 T1. cbn beta iota. destruct (_ <? _); [ret|]. destruct (bool_decide _); [ret|]. by apply IH.
Qed.
#[local] Hint Resolve size_loop_returns : intime.
Lemma rtl_dl_detect_size_returns ab s : in_time s -> returns (rtl_dl_detect_size fuel ab s).
Proof. intros T. unfold rtl_dl_detect_size. ret. Qed.

Lemma dl_session_returns h ab s : in_time s -> returns (dl_session fuel flashloader h ab s).
Proof. intros T. unfold dl_session. ret. Qed.
Lemma budget_range len : 0 <= dl_chksum_budget_ms len <= LONGEST.
Proof. unfold dl_chksum_budget_ms, LONGEST. pose proof (u32_range (10000 + Z.shiftr len 6)). unfold is_u32 in *. destruct (Z.ltb_spec 120000 (10000 +% Z.shiftr len 6)); lia. Qed.
#[local] Hint Resolve rtl_dl_detect_size_returns dl_session_returns budget_range : intime.
Lemma program_body_returns off data h r ab s : in_time s -> returns (program_body fuel flashloader off data h r ab s).
Proof. intros T. unfold program_body. ret. Qed.
#[local] Hint Resolve program_body_returns : intime.
Lemma program_returns off data h ab s : in_time s -> returns (rtl_dl_flash_program fuel flashloader off data h ab s).
Proof. intros T. unfold rtl_dl_flash_program. ret. Qed.

(** C35: every call of the driver returns, whatever the module sends and whenever it stops
    sending: in a board whose time passes and whose module has a finite number of bytes
    to send, entry, the probe, the loader, the status and digest queries, the read, the size
    detection and the programming each end, within the fuel given, in a state from
    which the next call ends too. *)
Theorem rtl_dl_calls_return s : in_time s ->
  (forall h ab, returns (rtl_dl_enter fuel h ab s)) /\
  (forall slip ms ab, 0 <= ms <= LONGEST -> returns (rtl_dl_probe fuel slip ms ab s)) /\
  (forall b ab, returns (rtl_dl_load_flashloader fuel flashloader b ab s)) /\
  (forall ab, returns (rtl_dl_flash_status fuel ab s) /\ returns (rtl_dl_flash_jedec fuel ab s) /\ returns (rtl_dl_detect_size fuel ab s)) /\
  (forall off len ms ab, 0 <= ms <= LONGEST -> returns (rtl_dl_flash_chksum fuel off len ms ab s)) /\
  (forall off n cap ab, returns (rtl_dl_read_flash fuel off n cap ab s)) /\
  (forall off data h ab, returns (rtl_dl_flash_program fuel flashloader off data h ab s)).
Proof.
  intros T. repeat apply conj; intros; repeat apply conj; eauto using rtl_dl_enter_returns, rtl_dl_probe_returns, rtl_dl_load_flashloader_returns, status_loop_returns, rtl_dl_flash_jedec_returns, rtl_dl_detect_size_returns, rtl_dl_flash_chksum_returns, rtl_dl_read_flash_returns, program_returns.
Qed.
End termination.

(** ** Witnesses: a module that answers *)

(** [out]: what it has still to send of its answer; [frame], [todo_frames]: the read it is
    in; [stored]: the blocks written; [loaded]: the loader runs; [budget]: the bytes it may
    still send in all. *)
Record module : Type := Module_ { at_ : Z; out : list Z; frame : Z; todo_frames : nat; stored : list Z; loaded : bool; budget : nat }.

Definition answer (l : list Z) (m : module) : module := Module_ (at_ m) (out m ++ l) (frame m) (todo_frames m) (stored m) (loaded m) (budget m).
Definition next_frame (m : module) : module :=
  match todo_frames m with O => m | S n => Module_ (at_ m) (out m ++ read_frame (frame m) (replicate 1024 7)) (frame m + 1) n (stored m) (loaded m) (budget m) end.

Definition module_tx (p : list Z) (m : module) : module :=
  let c := nth 0 p 0 in
  if c =? RTL_DL_READ_WORD then answer (c :: le32 (if loaded m then RTL_DL_STUB_ENTRY else 0) ++ [RTL_DL_STATUS_OK]) m
  else if c =? RTL_DL_CHKSUM then answer (c :: le32 (digest (stored m))) m
  else if c =? RTL_DL_READFLASH then next_frame (Module_ (at_ m) (out m) 0 (Z.to_nat (4 * nth 4 p 0)) (stored m) (loaded m) (budget m))
  else if c =? RTL_DL_ACK then next_frame m
  else if c =? RTL_DL_EOT then answer [RTL_DL_ACK] (Module_ (at_ m) (out m) (frame m) (todo_frames m) (stored m) true (budget m))
  else answer [RTL_DL_ACK] (if ((c =? RTL_DL_SOH) || (c =? RTL_DL_STX)) && destructive p then Module_ (at_ m) (out m) (frame m) (todo_frames m) (stored m ++ payload p) (loaded m) (budget m) else m).

Definition module_rx (n : Z) (m : module) : list Z * module :=
  let l := take (Nat.min (Z.to_nat n) (budget m)) (out m) in
  (l, Module_ (at_ m) (drop (length l) (out m)) (frame m) (todo_frames m) (stored m) (loaded m) (budget m - length l)).

Definition pass_ticks (n : Z) (m : module) : module := Module_ (at_ m + n) (out m) (frame m) (todo_frames m) (stored m) (loaded m) (budget m).
Definition reboot (m : module) : module := Module_ (at_ m) [] 0 0 (stored m) false (budget m).

#[global] Instance module_board : Board module := {
  tx_time_get m := u32 (at_ m);
  tx_thread_sleep := pass_ticks;
  udelay _ m := m;
  rx := module_rx;
  tx := module_tx;
  reopen _ m := (0, m);
  shut m := m;
  overflows _ := 0;
  force_quiesce m := m;
  power on m := if on then reboot m else m;
  strap _ m := m;
  aborting m := (false, m);
}.

#[global] Instance module_board_rx : BoardRx module.
Proof. constructor. intros n m Hn. cbn. rewrite length_take. lia. Qed.

Lemma next_frame_budget m : budget (next_frame m) = budget m /\ at_ (next_frame m) = at_ m.
Proof. unfold next_frame. by destruct (todo_frames m). Qed.
Lemma module_tx_budget p m : budget (module_tx p m) = budget m.
Proof. unfold module_tx. repeat case_match; try done; by rewrite (proj1 (next_frame_budget _)). Qed.

#[global] Program Instance module_time : BoardTime module := { clock := at_; left := budget; grain := 1 }.
Next Obligation. lia. Qed.
Next Obligation. done. Qed.
Next Obligation. intros n m. cbn. rewrite length_take. lia. Qed.
Next Obligation. intros l m. cbn. by rewrite module_tx_budget. Qed.
Next Obligation. done. Qed.
Next Obligation. done. Qed.
Next Obligation. done. Qed.
Next Obligation. intros [] m; done. Qed.
Next Obligation. done. Qed.
Next Obligation. done. Qed.
Next Obligation. intros m. cbn. lia. Qed.
Next Obligation. intros n m Hn. cbn. lia. Qed.

Definition cold (bytes : nat) : dst := Dst (Module_ 4294967000 [] 0 0 [] false bytes) [] [] false.
Definition image : list Z := rtl_dl_km0_magic ++ replicate (Z.to_nat 4088) 90.

Lemma rtl_dl_flash_program_correct_witness : exists r s', rtl_dl_flash_program 500 [1; 2; 3] 0 (Some image) 100 false (cold (Z.to_nat 20000)) = Some (0, r, s') /\
  strap_low s' = false /\ effects s' = program_cmds 0 image /\ length (program_cmds 0 image) = 5%nat /\ dev_sum r = u32 (words_sum image).
Proof.
  assert (R : fst ∘ fst <$> rtl_dl_flash_program 500 [1; 2; 3] 0 (Some image) 100 false (cold (Z.to_nat 20000)) = Some 0) by (vm_compute; reflexivity).
  assert (Hb : bytes_ok image) by (apply Forall_app; split; [unfold rtl_dl_km0_magic; rewrite !Forall_cons; unfold is_u8; split_and!; (lia || exact (Forall_nil_2 _)) | apply Forall_replicate; unfold is_u8; lia]).
  assert (Ho : is_u32 0) by (unfold is_u32; lia). assert (Hl : is_u32 (Z.of_nat (length image))) by (vm_compute; split; congruence).
  destruct (rtl_dl_flash_program 500 [1; 2; 3] 0 (Some image) 100 false (cold (Z.to_nat 20000))) as [[[rc r] s']|] eqn:E; [|discriminate R]. apply (inj Some) in R. cbn [compose fst] in R. subst rc.
  destruct (rtl_dl_flash_program_correct 500 [1; 2; 3] 0 image 100 false (cold (Z.to_nat 20000)) 0 r s' Ho Hl Hb eq_refl E) as (A & _ & (l & B & _ & _ & C & _) & _ & D).
  exists r, s'. split; [reflexivity|]. split; [exact A|]. split; [rewrite B, (C eq_refl); reflexivity|]. split; [vm_compute; reflexivity|exact (proj1 (D eq_refl))].
Defined.

Lemma rtl_dl_read_flash_frames_witness : exists buf s' (frames : list (list Z * list Z)), rtl_dl_read_flash 500 4096 1 100 true (cold (Z.to_nat 20000)) = Some (100, buf, s') /\ length frames = 4%nat /\ buf = take 100 (concat (snd <$> frames)).
Proof.
  assert (R : fst ∘ fst <$> rtl_dl_read_flash 500 4096 1 100 true (cold (Z.to_nat 20000)) = Some 100) by (vm_compute; reflexivity). assert (H1 : 0 <= 1) by lia. assert (H100 : 0 <= 100) by lia.
  destruct (rtl_dl_read_flash 500 4096 1 100 true (cold (Z.to_nat 20000))) as [[[rc buf] s']|] eqn:E; [|discriminate R]. apply (inj Some) in R. cbn [compose fst] in R. subst rc.
  destruct (rtl_dl_read_flash_frames 500 4096 1 100 true (cold (Z.to_nat 20000)) 100 buf s' H1 E H100) as (pre & frames & junk & _ & L & _ & _ & B & _).
  exists buf, s', frames. split; [reflexivity|]. split; [lia|exact B].
Defined.

Lemma rtl_dl_calls_return_witness : in_time (Z.to_nat 200000) (cold (Z.to_nat 20000)) /\ exists x s', rtl_dl_flash_program (Z.to_nat 200000) [1; 2; 3] 0 (Some image) 100 true (cold (Z.to_nat 20000)) = Some (x, s').
Proof.
  assert (T : in_time (Z.to_nat 200000) (cold (Z.to_nat 20000))).
  { unfold in_time, todo, LONGEST. cbn [cold brd left module_time budget grain]. rewrite !Z2Nat.id by lia. change (2 ^ 31) with 2147483648. lia. }
  split; [exact T|]. destruct (rtl_dl_calls_return (Z.to_nat 200000) [1; 2; 3] _ T) as (_ & _ & _ & _ & _ & _ & P). destruct (P 0 (Some image) 100 true) as (x & s' & E & _). exists x, s'. exact E.
Defined.
